(* ===== verification/_CoqProject ===== *)
-Q . S2P
Prelude.v
GoStd.v
Tuples.v
GoText.v
GoUrl.v
Protos.v
Tcp.v
Gopacket.v
GopacketFrames.v
GopacketReuse.v
Redis.v
Mysql.v
MysqlResultset.v
MysqlTransactions.v
Pgsql.v
PgsqlMessages.v
PgsqlTransactions.v
ThriftIdl.v
Thrift.v
ThriftValues.v
ThriftMessages.v
ThriftTransactions.v
Http.v
HttpPrivacy.v
HttpMessages.v
HttpTransactions.v
Filters.v
GoNet.v
Publisher.v
Procs.v
Sniffer.v
Events.v
TcpRule.v
System.v
RedisSession.v
GoTime.v
Json.v
Unmarshal.v
FileOut.v
Redigo.v
RedisOut.v
Elastic.v
