(* ===== verification/Prelude.v ===== *)
(** * Packetbeat: a verification development

    Packetbeat reads packets from a network device or a capture file, follows the TCP
    connections of the ports it is configured for, parses the application protocol of each
    (HTTP, MySQL, PostgreSQL, Redis, Thrift), pairs requests with responses, and publishes one
    event per transaction.  This library models that program, as the sources under src/ have
    it, and proves what makes its parts correct.  Definitions keep the names of the sources.

    ** How the program is put together, and where each part is

    <<
      capture libraries          parameters (class Capture of Sniffer)
           |  packets
      sniffer/sniffer.go         Sniffer       the loop [Run], one turn is [run_step]
           |  DecodePacketData
      protos/tcp/tcp.go          Gopacket*     the decoder, over what it calls of tsg/gopacket
           |  decoded layers
      protos/tcp/tcp.go          Tcp, TcpRule  streams, sequence numbers, timers
           |  ProtocolPlugin (Protos)
      protos/http, mysql, pgsql, redis, thrift
           |                     Http*, Mysql*, Pgsql*, Redis*, Thrift*
           |     \__ procs/procs.go        Procs  (class ProcWatcher of Protos)
           |  common.MapStr
      libbeat/publisher          Publisher     the queue, [publishEvent], the topology
           |  OutputInterface
      libbeat/outputs            FileOut (fileout/file.go), RedisOut (redis/redis.go)
                                 over Redigo (garyburd/redigo, what the output calls of it),
                                 Elastic (elasticsearch/output.go, api.go, bulkapi.go)

      main.go                    System        the start, and all of the above together
      filters_runner.go          Filters       the chain of filters
    >>

    - Prelude: bytes, machine integers (a value of Z with its wrap-around written out), the
      type [outcome] of what a Go computation gives (a value, a run-time panic, or no result
      within the fuel), loops, record update, slices with their capacity, and the lemmas and
      tactics that the files share.
    - GoStd, GoText, GoUrl, GoNet, GoTime, Json, Unmarshal: the routines of the Go standard library (1.4,
      the one of the time) that the sources call: strconv, strings, bytes, unicode/utf8,
      net/url, net, time (GoTime has the calendar and libbeat's common/datetime.go), and
      encoding/json (Json writes an event, with a reader to state what the text says;
      Unmarshal reads any document into the fields of a struct).
    - Tuples: libbeat's common package (tuples, byte order, endpoints, [MapStr]).
    - Protos: packets, the interface [ProtocolPlugin] as a record of operations over the state
      of the plugins, the registry; the class [ProcWatcher], the interface to package procs.
    - Tcp: [FollowTcp] and what it calls.  A stream is shared by the map of streams and by its
      timer, so streams live in a heap and the maps hold pointers.  TcpRule: what each plugin
      keeps, the layer keeps.
    - Gopacket: from the bytes of a frame to its layers, that is [CreateDecoder] and
      [DecodePacketData] of tcp.go over gopacket's parser.go and layers/*.go; a method
      [DecodeFromBytes] is a function over the layer that it writes into.  GopacketFrames: the
      frames that hosts send, as encoders, and what becomes of them; GopacketReuse: the one
      decoder that is used for all packets.
    - One file per protocol for the model (data, parser, handlers, transactions, [Parse],
      [ReceivedFin], [GapInStream]) with the lemmas of its parser; the files with a longer name
      hold one group of theorems each (messages on the wire, transactions, what is hidden).
      Http reads src/protos/http/http.go, Mysql src/protos/mysql/mysql.go, and so on; ThriftIdl
      reads src/protos/thrift/thrift_idl.go.
    - Events: whatever the packets, what a plugin adds to its channel the publisher can take.
    - System: [main] up to the start of the sniffer; [exec], the step of one goroutine or timer;
      [run], any interleaving of steps.  The outputs are abstract there, behind
      [OutputInterface]: a turn of an output's own goroutine is any function on the state of the
      outputs ([OutputTurn]), which may also panic, as the one of [failed_reconnect_panics] of
      RedisOut does.  The goroutines of each output are modelled in its file.

    ** How Go is modelled

    - State is passed explicitly; an operation is one function with the guards and the early
      returns of the source, and a helper of the model is a block of the function it is named
      for.  A pointer that is shared is a key of a heap or of a list; a pointer that is not
      shared is the value.
    - A panic is a value.  It ends in the [defer logp.Recover] of the source, with the writes
      made before it kept, and a theorem says so where the source relies on it.
    - A goroutine's turn, a timer's function and a call of a plugin are atomic steps, and the
      theorems quantify over their order.  The sources do not lock: two goroutines of the real
      program may also race on one map, which is not modelled.
    - A channel is the list of what was sent and not yet received; its bound (and so a sender
      that blocks) is modelled for the queues of the Redis and the Elasticsearch outputs, and
      for the channel in which the latter collects events.
    - Fuel: a loop of the source is [loop] of Prelude.  Where the loop ends, the fuel is
      computed from the data (its length, which every turn reduces) and a theorem of kind
      termination says that the result is never [OutOfFuel].  The readers of MySQL rows and the
      loop of PostgreSQL messages need not end; there the fuel is a parameter, the theorems
      hold for any fuel, and a theorem says which inputs no fuel is enough for: [Parse] of
      Mysql ends within two turns per byte or never, and then a piece of the bytes is a response
      that [parseMysqlResponse] reads for ever.
    - Idealisations: a command that is written to a connection of Redis without an error is
      executed by the server at once, in one order over all connections ([write_out] of Redigo),
      so nothing is said of commands still in flight when a connection is given up; a panic in
      [ReceivedFin] of Http leaves the stream as it was before the call, without the fields that
      were written before the panic.
    - Parameters, none with a made-up definition: the tables of package unicode ([Unicode],
      [PrintTable]), the text of floats ([FloatText]), the capacity that [append] chooses
      ([Runtime]), the order of an iteration over a map ([MapIteration], or a list), the parser
      of IDL files ([IdlParser]), the capture libraries ([Capture]), the clock and the
      files of the system ([Environment]), the outputs of the publisher ([OutputInterface]), the
      faults of the disk ([Faults]) and of the network with the Redis server behind it
      ([Network], and the laws [Directory] of its commands), the HTTP server of the
      Elasticsearch output with the local time zone ([Environment] of Elastic, and the laws
      [Directory] there, what Elasticsearch documents of an index and a search request), the
      GeoIP database.
      Their hypotheses are discharged by concrete functions in the witnesses.

    ** What the theorems show

    - The program (System): from its start on, over any interleaving, no panic ends it but one
      of an output's own goroutine, and the publisher refuses no event; the private data of a stream are of its protocol; and the
      configured filters never see an event, since the queue that main.go gives to the sniffer
      is not used.
    - Decoding: it ends on every packet, with addresses of the size that the layers above rely
      on; a segment in any frame of IPv4 or IPv6 is followed as what it is; what the packets
      before left in the decoder does not matter.
    - TCP: the payloads of a direction reach the plugin once and in order, across
      retransmissions, wrap-around and panics (a refinement of a fold over the payloads); the
      invariant of the maps; the ports; that the timer of a stream also drops a later stream
      of the same addresses.
    - Each parser: [Parse] ends on every input and keeps its streams well formed; what a peer
      sends is what is read (round trips for requests, result sets, calls, replies, headers and
      chunked bodies), with what follows left for the next message, and what is refused (an
      argument of a Redis command that holds a line end); for Redis, that segmentation does not
      matter, and that a session of known commands and their replies, taken in turns, becomes
      its events from its captured frames on (RedisSession).
    - Each transaction map: its invariant over any interleaving of messages and timers; the
      event of a request and its response; for PostgreSQL, that the map of queues refines one
      global list of waiting queries; for Thrift, that every call has a number of its own, is
      published at most once, and is missing only if a timer fired for it.
    - What HTTP hides; which processes a port is given to; that one of several shippers
      publishes a transaction; what the outputs get; the size of the capture's buffer.
    - The file output (FileOut): the files are the lines published, split in generations; while
      no call fails and no file is rotated away, a reader of the files gets the events back,
      each value as [shows] of Unmarshal says; what a failing system call can lose; that one
      failed rotation ends the output.
    - The Redis output (Redigo, RedisOut): replies are read back as they were written; without
      faults every event is executed by the server, in order, and no turn fails; whatever
      fails, none is executed twice or overtakes another; the topology map names the shippers
      that announce an address; how the program dies after a failed reconnect, and how replies
      pile up unread.
    - The Elasticsearch output (Elastic): over any interleaving the events are cut into batches
      in order, each posted by at most one request, and all of them once the goroutines have
      had their turns; the body of every bulk request that was posted is read back as events,
      each for the index of its day; without a flush interval
      events go one by one; with a bulk size under two none goes; the topology map is right for
      up to ten shippers and misses some beyond.
    - Findings about the code are theorems too: the witnesses of the manifest name them.

    ** Not modelled

    - Logging, debug output, profiles, [PrintTcpMap], [PrintPublishEvent]: they change no state.
    - The command line's parsing, the YAML reader and the structs it fills in
      (config/config.go): the configurations are arguments of the [Init] functions.
    - sniffer/afpacket_linux.go, pfring.go and their stubs: calls of the capture
      libraries only.  The sleeping and the prompt of the sniffer's loop.
    - libbeat's droppriv, geolite, logp: operating system and formatting.
    - HTTP under the Elasticsearch output: the class [Environment] of Elastic has its results.
    - The rest of Godeps: third-party libraries (yaml, go-thrift, libGeoIP, testify; of gopacket
      what the decoder does not use: other protocols, building packets, flows; of redigo what
      the Redis output does not use: its pool, scripts, subscriptions and other conversions); tests, documentation and packaging. *)
From stdpp Require Export base list gmap strings numbers pretty countable.
From Stdlib Require Export ZArith Lia Strings.Byte.
#[global] Open Scope Z_scope.

(** * Bytes *)

(** Go's [byte] is [Byte.byte]; [[]byte] and [string] are both [bytes]. *)
Abbreviation bytes := (list byte).

#[export] Instance byte_eq_dec : EqDecision byte.
Proof. intros a b. destruct (Byte.byte_eq_dec a b); [left|right]; assumption. Defined.

#[export] Instance byte_countable : Countable byte.
Proof. refine (inj_countable Byte.to_N Byte.of_N _). intros. apply Byte.of_to_N. Defined.

(** [uint8] value of a byte, and the byte of a value ([byte(x)]). *)
Definition u8 (b : byte) : Z := Z.of_N (Byte.to_N b).
Definition to_byte (z : Z) : byte :=
  match Byte.of_N (Z.to_N (z mod 256)) with Some b => b | None => x00 end.

(** A string literal of the source. *)
Definition bs (s : string) : bytes := String.list_byte_of_string s.

Lemma u8_bound b : 0 <= u8 b < 256.
Proof. unfold u8. pose proof (Byte.to_N_bounded b). lia. Qed.

Lemma u8_inj a b : u8 a = u8 b -> a = b.
Proof.
  unfold u8. intros H. apply N2Z.inj in H.
  pose proof (Byte.of_to_N a) as Ha. rewrite H, Byte.of_to_N in Ha. congruence.
Qed.

Lemma u8_to_byte z : u8 (to_byte z) = z mod 256.
Proof.
  pose proof (Z.mod_pos_bound z 256 eq_refl) as Hb.
  unfold to_byte, u8. destruct (Byte.of_N (Z.to_N (z mod 256))) as [b|] eqn:E.
  - apply Byte.to_of_N in E. rewrite E. lia.
  - apply Byte.of_N_None_iff in E. lia.
Qed.

Lemma to_byte_u8 b : to_byte (u8 b) = b.
Proof.
  apply u8_inj. rewrite u8_to_byte. apply Z.mod_small, u8_bound.
Qed.

(** * Machine integers *)

(** Conversion to a [w]-bit unsigned or signed integer, with Go's wrap-around. *)
Definition wrapU (w z : Z) : Z := z mod 2 ^ w.
Definition wrapS (w z : Z) : Z := (z + 2 ^ (w - 1)) mod 2 ^ w - 2 ^ (w - 1).

Abbreviation uint16_of := (wrapU 16).
Abbreviation uint32_of := (wrapU 32).
Abbreviation uint64_of := (wrapU 64).
Abbreviation int32_of := (wrapS 32).
Abbreviation int64_of := (wrapS 64).

(** The targets are 64-bit: [int] is [int64]. *)
Abbreviation int_of := (wrapS 64).

Lemma wrapU_small w z : 0 <= z < 2 ^ w -> wrapU w z = z.
Proof. intros H. unfold wrapU. apply Z.mod_small, H. Qed.

Lemma wrapU_bound w z : 0 <= w -> 0 <= wrapU w z < 2 ^ w.
Proof. intros H. apply Z.mod_pos_bound. apply Z.pow_pos_nonneg; lia. Qed.

Lemma wrapU_add_r w a b : wrapU w (a + wrapU w b) = wrapU w (a + b).
Proof. apply Zplus_mod_idemp_r. Qed.

Lemma wrapU_add_l w a b : wrapU w (wrapU w a + b) = wrapU w (a + b).
Proof. apply Zplus_mod_idemp_l. Qed.

Lemma wrapS_small w z :
  0 < w -> - 2 ^ (w - 1) <= z < 2 ^ (w - 1) -> wrapS w z = z.
Proof.
  intros Hw H. unfold wrapS.
  assert (2 ^ w = 2 * 2 ^ (w - 1)) as E
    by (rewrite <- Z.pow_succ_r by lia; f_equal; lia).
  rewrite Z.mod_small; lia.
Qed.

Lemma wrapS_bound w z :
  0 < w -> - 2 ^ (w - 1) <= wrapS w z < 2 ^ (w - 1).
Proof.
  intros Hw. unfold wrapS.
  assert (2 ^ w = 2 * 2 ^ (w - 1)) as E
    by (rewrite <- Z.pow_succ_r by lia; f_equal; lia).
  pose proof (Z.mod_pos_bound (z + 2 ^ (w - 1)) (2 ^ w)
    ltac:(apply Z.pow_pos_nonneg; lia)). lia.
Qed.

(** * Panics and loops *)

(** What a Go computation gives: a value, a run-time panic, or (only for the
    fuelled loops of the model) no result within the fuel. *)
Inductive outcome (A : Type) :=
| Ret (a : A)
| Panic
| OutOfFuel.
Arguments Ret {A} a.
Arguments Panic {A}.
Arguments OutOfFuel {A}.

Definition obind {A B} (o : outcome A) (k : A -> outcome B) : outcome B :=
  match o with
  | Ret a => k a
  | Panic => Panic
  | OutOfFuel => OutOfFuel
  end.

Declare Scope go_scope.
Delimit Scope go_scope with go.
Notation "'let!' x := e 'in' k" := (obind e (fun x => k))
  (at level 10, x name, e at level 100, k at level 200,
   format "'[v' 'let!'  x  :=  e  'in' '/' k ']'") : go_scope.
Notation "'let!' ' p := e 'in' k" := (obind e (fun x => match x with p => k end))
  (at level 10, p pattern, e at level 100, k at level 200, only parsing) : go_scope.
#[global] Open Scope go_scope.

Section Loop.
Context {S R : Type} (step : S -> outcome (S + R)).

(** [for { body }]: [step] runs the body once; [inl] continues with the new
    state and [inr] returns from the enclosing function. *)
Fixpoint loop (fuel : nat) (s : S) : outcome R :=
  match fuel with
  | O => OutOfFuel
  | Datatypes.S n =>
      match step s with
      | Ret (inl s') => loop n s'
      | Ret (inr r) => Ret r
      | Panic => Panic
      | OutOfFuel => OutOfFuel
      end
  end.

Lemma loop_S n s :
  loop (Datatypes.S n) s =
    match step s with
    | Ret (inl s') => loop n s'
    | Ret (inr r) => Ret r
    | Panic => Panic
    | OutOfFuel => OutOfFuel
    end.
Proof. reflexivity. Qed.

(** More fuel does not change a result. *)
Lemma loop_mono n m s :
  (n <= m)%nat -> loop n s <> OutOfFuel -> loop m s = loop n s.
Proof.
  revert m s. induction n as [|n IH]; intros m s Hle Hn; [contradiction|].
  destruct m as [|m]; [lia|]. rewrite !loop_S in *.
  destruct (step s) as [[s'|r]| |]; try reflexivity.
  apply IH; [lia|exact Hn].
Qed.

(** A body that decreases a measure under an invariant needs no more fuel
    than the measure. *)
Lemma loop_fuel (Inv : S -> Prop) (mu : S -> nat) n s :
  (forall t, Inv t -> step t <> OutOfFuel) ->
  (forall t t', Inv t -> step t = Ret (inl t') -> Inv t' /\ (mu t' < mu t)%nat) ->
  Inv s -> (mu s < n)%nat -> loop n s <> OutOfFuel.
Proof.
  intros Hne Hdec. revert s. induction n as [|n IH]; intros s Hs Hlt; [lia|].
  rewrite loop_S. pose proof (Hne s Hs) as Hns.
  destruct (step s) as [[s'|r]| |] eqn:E; try discriminate.
  - destruct (Hdec _ _ Hs E). apply IH; [assumption|lia].
  - contradiction.
Qed.

(** An invariant of the body gives a postcondition of the loop. *)
Lemma loop_inv (Inv : S -> Prop) (Post : R -> Prop) n s r :
  (forall t t', Inv t -> step t = Ret (inl t') -> Inv t') ->
  (forall t r', Inv t -> step t = Ret (inr r') -> Post r') ->
  Inv s -> loop n s = Ret r -> Post r.
Proof.
  intros Hstep Hpost. revert s. induction n as [|n IH]; intros s Hs; [discriminate|].
  rewrite loop_S. destruct (step s) as [[s'|r']| |] eqn:E; intros H; try discriminate.
  - eauto.
  - injection H as <-. eauto.
Qed.

(** A cycle of the body is an infinite loop, whatever the fuel. *)
Fixpoint iter (k : nat) (s : S) : option S :=
  match k with
  | O => Some s
  | Datatypes.S k' =>
      match step s with Ret (inl s') => iter k' s' | _ => None end
  end.

Lemma loop_cycle k s n :
  (0 < k)%nat -> iter k s = Some s -> loop n s = OutOfFuel.
Proof.
  intros Hk Hc.
  cut (forall n j t, iter j t = Some s -> loop n t = OutOfFuel); [eauto|].
  clear n. induction n as [|n IH]; intros j t Ht; [reflexivity|].
  rewrite loop_S. destruct j as [|j].
  - injection Ht as ->. destruct k as [|k]; [lia|]. cbn in Hc.
    destruct (step s) as [[s'|?]| |]; try discriminate. eauto.
  - cbn in Ht. destruct (step t) as [[s'|?]| |]; try discriminate. eauto.
Qed.

Lemma loop_iter k n s s' : iter k s = Some s' -> loop (k + n) s = loop n s'.
Proof.
  revert s. induction k as [|k IH]; intros s; cbn; [by intros [= ->]|].
  destruct (step s) as [[t|?]| |]; try discriminate. apply IH.
Qed.

(** A loop that returns does so after finitely many turns. *)
Lemma loop_Ret_iter n s r :
  loop n s = Ret r ->
  exists k s', (k < n)%nat /\ iter k s = Some s' /\ step s' = Ret (inr r).
Proof.
  revert s. induction n as [|n IH]; intros s; [discriminate|].
  rewrite loop_S. destruct (step s) as [[t|r']| |] eqn:E; intros H; try discriminate.
  - apply IH in H as (k & s' & Hk & Hi & Hs). exists (Datatypes.S k), s'.
    cbn. rewrite E. split; [lia|done].
  - injection H as ->. exists 0%nat, s. split; [lia|done].
Qed.

(** Enough fuel gives the result of the turns. *)
Lemma loop_iter_Ret n k s s' r :
  iter k s = Some s' -> step s' = Ret (inr r) ->
  loop n s <> OutOfFuel -> loop n s = Ret r.
Proof.
  intros Hi Hs Hn. rewrite <- (loop_mono n (n + Datatypes.S k)) by (done || lia).
  rewrite (loop_mono (k + 1) (n + Datatypes.S k)); [|lia|].
  all: rewrite (loop_iter _ _ _ _ Hi), loop_S, Hs; done.
Qed.

(** Two starting points that reach the same one give the same result. *)
Lemma loop_confluent n m k j s t u :
  iter k s = Some u -> iter j t = Some u ->
  loop n s <> OutOfFuel -> loop m t <> OutOfFuel -> loop n s = loop m t.
Proof.
  intros Hs Ht Hn Hm.
  rewrite <- (loop_mono n (k + (n + m))), (loop_iter _ _ _ _ Hs) by (done || lia).
  rewrite <- (loop_mono m (j + (n + m))), (loop_iter _ _ _ _ Ht) by (done || lia). done.
Qed.

Lemma iter_app k j s t u : iter k s = Some t -> iter j t = Some u -> iter (k + j) s = Some u.
Proof.
  revert s. induction k as [|k IH]; intros s; cbn; [by intros [= ->]|].
  destruct (step s) as [[s'|?]| |]; try discriminate. eauto.
Qed.

Lemma iter_plus j k s t : iter j s = Some t -> iter (j + k) s = iter k t.
Proof.
  revert s. induction j as [|j IH]; intros s; cbn; [by intros [= ->]|]. destruct (step s) as [[u|?]| |]; try done. apply IH.
Qed.

Lemma iter_inv (Inv : S -> Prop) k s t :
  (forall u v, Inv u -> step u = Ret (inl v) -> Inv v) -> Inv s -> iter k s = Some t -> Inv t.
Proof.
  intros Hstep. revert s. induction k as [|k IH]; intros s Hs; cbn; [by intros [= <-]|].
  destruct (step s) as [[s'|?]| |] eqn:E; try discriminate. eauto.
Qed.
End Loop.

(** A loop whose body decreases a measure except in the states where it is [stuck]. *)
Lemma loop_stuck {S R} (step : S -> outcome (S + R)) (Inv : S -> Prop) (stuck : S -> Prop) (mu : S -> nat) n s :
  (forall t, Inv t -> step t <> OutOfFuel) ->
  (forall t t', Inv t -> step t = Ret (inl t') -> Inv t' /\ ((mu t' < mu t)%nat \/ stuck t)) ->
  Inv s -> (mu s < n)%nat -> loop step n s = OutOfFuel -> exists t, Inv t /\ stuck t.
Proof.
  intros Hne Hdec. revert s. induction n as [|n IH]; intros s Hs Hlt; [lia|].
  rewrite loop_S. pose proof (Hne s Hs) as Hns.
  destruct (step s) as [[s'|r]| |] eqn:E; try discriminate; [|done].
  destruct (Hdec _ _ Hs E) as [Hs' [Hm|Hst]]; [|eauto]. apply IH; [done|lia].
Qed.

(** Two loops whose bodies simulate each other along a relation. *)
Lemma iter_sim {S S' R R'} (step : S -> outcome (S + R)) (step' : S' -> outcome (S' + R'))
    (Rel : S -> S' -> Prop) :
  (forall s t s', Rel s t -> step s = Ret (inl s') -> exists t', step' t = Ret (inl t') /\ Rel s' t') ->
  forall k s t s', Rel s t -> iter step k s = Some s' -> exists t', iter step' k t = Some t' /\ Rel s' t'.
Proof.
  intros Hsim. induction k as [|k IH]; intros s t s' HR; cbn.
  - intros [= <-]. eauto.
  - destruct (step s) as [[u|?]| |] eqn:E; try discriminate. intros Hi.
    destruct (Hsim _ _ _ HR E) as (v & -> & HR'). eauto.
Qed.

(** * Enough fuel *)

#[global] Instance out_of_fuel_dec {A} (o : outcome A) : Decision (o = OutOfFuel).
Proof. destruct o; [right|right|left]; done. Defined.

(** A computation that gets its fuel as an argument is settled at [F] if no other fuel gives
    anything but what [F] gives. *)
Definition settled {A} (f : nat -> outcome A) (F : nat) : Prop := forall n, f n = OutOfFuel \/ f n = f F.

Lemma settled_ret {A} (o : outcome A) F : settled (fun _ => o) F.
Proof. by right. Qed.

Lemma settled_never {A} (f : nat -> outcome A) F : settled f F -> f F = OutOfFuel -> forall n, f n = OutOfFuel.
Proof. intros H E n. destruct (H n) as [?|G]; [done|]. by rewrite G. Qed.

Lemma settled_bind {A B} (f : nat -> outcome A) (k : A -> nat -> outcome B) F :
  settled f F -> (forall a, f F = Ret a -> settled (k a) F) -> settled (fun n => obind (f n) (fun a => k a n)) F.
Proof.
  intros Hf Hk n. destruct (Hf n) as [-> | ->]; [by left|].
  destruct (f F) as [a| |] eqn:E; cbn [obind]; [by apply Hk|by right..].
Qed.

Lemma settled_loop {S R} (step : nat -> S -> outcome (S + R)) (Inv : S -> Prop) F k x :
  (forall x, Inv x -> settled (fun n => step n x) F) ->
  (forall x y, Inv x -> step F x = Ret (inl y) -> Inv y) ->
  Inv x -> settled (fun n => loop (step n) k x) F.
Proof.
  intros Hs Hi. revert x. induction k as [|k IH]; intros x Hx n; [by left|]. rewrite !loop_S.
  destruct (Hs x Hx n) as [-> | ->]; [by left|].
  destruct (step F x) as [[y|r]| |] eqn:E; [apply (IH y); by eapply Hi|by right..].
Qed.

(** * Record update *)

(** [r <| f := v |>] is the Go assignment [r.f = v] on a record value. *)
Class Settable (R : Type) := eta_of : R -> R.
Class SetField {R T : Type} (proj : R -> T) := set_field : T -> R -> R.

Ltac derive_setter :=
  match goal with
  | |- @SetField ?R ?T ?p =>
      let f := constr:(fun (v : T) (r : R) =>
        ltac:(let c := constr:(eta_of r) in
              let t := eval hnf in c in
              match eval pattern (p r) in t with
              | ?F _ => let u := eval cbv beta in (F v) in exact u
              end)) in
      exact f
  end.
#[export] Hint Extern 1 (SetField _) => derive_setter : typeclass_instances.

Notation "r <| f := v |>" := (set_field (proj := f) v r)
  (at level 12, left associativity, format "r <| f := v |>") : go_scope.

(** * Lists indexed by [int] *)

Definition len {A} (s : list A) : Z := Z.of_nat (length s).

Lemma len_nonneg {A} (s : list A) : 0 <= len s.
Proof. unfold len. lia. Qed.

Lemma len_app {A} (s t : list A) : len (s ++ t) = len s + len t.
Proof. unfold len. rewrite length_app. lia. Qed.

Lemma len_nil {A} : len (@nil A) = 0.
Proof. reflexivity. Qed.

Lemma len_cons {A} (x : A) s : len (x :: s) = 1 + len s.
Proof. unfold len. cbn [length]. lia. Qed.

Lemma len_map {A B} (f : A -> B) (s : list A) : len (map f s) = len s.
Proof. unfold len. by rewrite length_map. Qed.

(** [s[i]]. *)
Definition at_ {A} (s : list A) (i : Z) : outcome A :=
  if decide (0 <= i) then
    match s !! Z.to_nat i with Some b => Ret b | None => Panic end
  else Panic.

(** The elements from [lo] to [hi], both in range. *)
Definition sub {A} (s : list A) (lo hi : Z) : list A :=
  take (Z.to_nat (hi - lo)) (drop (Z.to_nat lo) s).

(** [s[lo:hi]] and [s[lo:]] of a Go string. *)
Definition str_slice (s : bytes) (lo hi : Z) : outcome bytes :=
  if decide (0 <= lo /\ lo <= hi /\ hi <= len s) then Ret (sub s lo hi) else Panic.
Definition str_from (s : bytes) (lo : Z) : outcome bytes := str_slice s lo (len s).

Lemma at_ok {A} (s : list A) i : 0 <= i < len s -> exists b, at_ s i = Ret b /\ s !! Z.to_nat i = Some b.
Proof.
  unfold at_, len. intros H. rewrite decide_True by lia.
  destruct (lookup_lt_is_Some_2 s (Z.to_nat i)) as [b Hb]; [lia|].
  exists b. rewrite Hb. done.
Qed.

Lemma at_panic {A} (s : list A) i : ~ (0 <= i < len s) -> at_ s i = Panic.
Proof.
  unfold at_, len. intros H. case_decide; [|done].
  rewrite lookup_ge_None_2 by lia. done.
Qed.

Lemma at_Ret {A} (s : list A) i b : at_ s i = Ret b -> 0 <= i < len s.
Proof.
  intros H. destruct (decide (0 <= i < len s)) as [|Hn]; [done|].
  rewrite at_panic in H by done. done.
Qed.

Lemma at_not_fuel {A} (s : list A) i : at_ s i <> OutOfFuel.
Proof. unfold at_. case_decide; [|done]. by destruct (s !! _). Qed.

Lemma at_app {A} (s t : list A) i : 0 <= i < len s -> at_ (s ++ t) i = at_ s i.
Proof.
  intros H. unfold at_, len in *. rewrite !decide_True by lia.
  rewrite lookup_app_l by lia. done.
Qed.

Lemma at_app_r {A} (s t : list A) i : 0 <= i -> at_ (s ++ t) (len s + i) = at_ t i.
Proof.
  intros H. unfold at_, len in *. rewrite !decide_True by lia.
  rewrite lookup_app_r by lia.
  by replace (Z.to_nat (Z.of_nat (length s) + i) - length s)%nat with (Z.to_nat i) by lia.
Qed.

Lemma len_sub {A} (s : list A) lo hi :
  0 <= lo -> lo <= hi -> hi <= len s -> len (sub s lo hi) = hi - lo.
Proof. unfold sub, len. intros. rewrite length_take, length_drop. lia. Qed.

Lemma sub_app {A} (s t : list A) lo hi :
  0 <= lo -> hi <= len s -> sub (s ++ t) lo hi = sub s lo hi.
Proof.
  unfold sub, len. intros.
  destruct (decide (Z.to_nat lo <= length s)%nat).
  - rewrite drop_app_le by done. rewrite take_app_le; [done|].
    rewrite length_drop. lia.
  - replace (Z.to_nat (hi - lo)) with 0%nat by lia. done.
Qed.

Lemma sub_mid {A} (s t u : list A) : sub (s ++ t ++ u) (len s) (len s + len t) = t.
Proof.
  unfold sub, len. replace (Z.to_nat (_ + _ - _)) with (length t) by lia.
  rewrite Nat2Z.id. by rewrite drop_app_length, take_app_length.
Qed.

Lemma sub_full {A} (s : list A) : sub s 0 (len s) = s.
Proof. unfold sub, len. rewrite Z.sub_0_r, Nat2Z.id. cbn. by rewrite firstn_all. Qed.

(** * Slices *)

(** A [[]byte] with its capacity: [vis] are the [len] bytes the slice shows,
    [spare] the bytes of the backing array between [len] and [cap].  A slice
    expression may reach up to [cap]; [append] writes there first. *)
Record slice := mkSlice { vis : bytes; spare : bytes }.

Definition cap (s : slice) : Z := len (vis s) + len (spare s).

(** [s[lo:hi]]: in range when [0 <= lo <= hi <= cap(s)]. *)
Definition sl_slice (s : slice) (lo hi : Z) : outcome slice :=
  if decide (0 <= lo /\ lo <= hi /\ hi <= cap s) then
    Ret (mkSlice (sub (vis s ++ spare s) lo hi) (drop (Z.to_nat hi) (vis s ++ spare s)))
  else Panic.

(** [s[lo:]]: in range when [0 <= lo <= len(s)]. *)
Definition sl_from (s : slice) (lo : Z) : outcome slice :=
  if decide (0 <= lo /\ lo <= len (vis s)) then
    Ret (mkSlice (drop (Z.to_nat lo) (vis s)) (spare s))
  else Panic.

(** The runtime's choice of a new capacity, given the old capacity and the
    length needed ([growslice]). *)
Class Runtime := growslice : Z -> Z -> Z.

(** [append(s, p...)]: in place when the capacity allows it, otherwise in a
    new, zeroed array. *)
Definition append {RT : Runtime} (s : slice) (p : bytes) : slice :=
  if decide (len (vis s) + len p <= cap s) then
    mkSlice (vis s ++ p) (drop (length p) (spare s))
  else
    let need := len (vis s) + len p in
    mkSlice (vis s ++ p) (replicate (Z.to_nat (growslice (cap s) need - need)) x00).

Lemma append_vis {RT : Runtime} s p : vis (append s p) = vis s ++ p.
Proof. unfold append. by case_decide. Qed.

Lemma sl_slice_not_fuel s lo hi : sl_slice s lo hi <> OutOfFuel.
Proof. unfold sl_slice. by case_decide. Qed.

Lemma sl_from_not_fuel s lo : sl_from s lo <> OutOfFuel.
Proof. unfold sl_from. by case_decide. Qed.

(** Within the length the spare capacity does not show. *)
Lemma sl_slice_vis s lo hi :
  0 <= lo <= hi -> hi <= len (vis s) ->
  exists t, sl_slice s lo hi = Ret t /\ vis t = sub (vis s) lo hi.
Proof.
  intros H1 H2. unfold sl_slice. pose proof (len_nonneg (spare s)).
  rewrite decide_True by (unfold cap; lia). eexists. split; [done|].
  cbn. apply sub_app; lia.
Qed.

(** * Searching *)

(** [bytes.HasPrefix(s, p)]. *)
Fixpoint has_prefix (p s : bytes) : bool :=
  match p, s with
  | [], _ => true
  | _ :: _, [] => false
  | a :: p', b :: s' => Byte.eqb a b && has_prefix p' s'
  end.

Fixpoint index_nat (s sep : bytes) : option nat :=
  if has_prefix sep s then Some O
  else match s with
       | [] => None
       | _ :: s' => Datatypes.S <$> index_nat s' sep
       end.

(** [bytes.Index(s, sep)] and [strings.Index(s, sep)]. *)
Definition Index (s sep : bytes) : Z :=
  match index_nat s sep with Some n => Z.of_nat n | None => -1 end.

Lemma beqb_eq (a b : byte) : Byte.eqb a b = true <-> a = b.
Proof.
  split; [apply Byte.byte_dec_bl|apply Byte.byte_dec_lb].
Qed.

Lemma beqb_refl (a : byte) : Byte.eqb a a = true.
Proof. by apply beqb_eq. Qed.

Lemma has_prefix_spec p s : has_prefix p s = true <-> exists t, s = p ++ t.
Proof.
  revert s. induction p as [|a p IH]; intros s; cbn.
  - split; [eauto|done].
  - destruct s as [|b s]; [split; [done|by intros [? ?]]|].
    rewrite andb_true_iff, beqb_eq, IH. split.
    + intros [-> [t ->]]. by exists t.
    + intros [t [= -> ->]]. eauto.
Qed.

Lemma has_prefix_app p s t : has_prefix p s = true -> has_prefix p (s ++ t) = true.
Proof.
  rewrite !has_prefix_spec. intros [u ->]. exists (u ++ t). by rewrite app_assoc.
Qed.

Lemma index_nat_spec s sep n :
  index_nat s sep = Some n ->
  exists u, s = take n s ++ sep ++ u /\ (n + length sep <= length s)%nat.
Proof.
  revert n. induction s as [|b s IH]; intros n; cbn.
  - destruct (has_prefix sep []) eqn:E; [|done]. intros [= <-].
    apply has_prefix_spec in E as [t Ht]. symmetry in Ht.
    apply app_eq_nil in Ht as [-> ->]. by exists [].
  - destruct (has_prefix sep (b :: s)) eqn:E.
    + intros [= <-]. apply has_prefix_spec in E as [t Ht]. exists t.
      split; [done|]. apply (f_equal length) in Ht. rewrite length_app in Ht. cbn in *. lia.
    + destruct (index_nat s sep) as [m|] eqn:Em; [|done]. intros [= <-].
      destruct (IH m eq_refl) as (u & Hu & Hl). exists u. cbn. split; [by f_equal|lia].
Qed.

Lemma Index_range s sep : Index s sep = -1 \/ 0 <= Index s sep <= len s - len sep.
Proof.
  unfold Index, len. destruct (index_nat s sep) as [n|] eqn:E; [|by left].
  apply index_nat_spec in E as (u & _ & Hl). right. lia.
Qed.

Lemma has_prefix_length p s : has_prefix p s = true -> (length p <= length s)%nat.
Proof. intros [t ->]%has_prefix_spec. rewrite length_app. lia. Qed.

Lemma has_prefix_app_inv p s t :
  (length p <= length s)%nat -> has_prefix p (s ++ t) = has_prefix p s.
Proof.
  revert s. induction p as [|a p IH]; intros s Hl; [done|].
  destruct s as [|b s]; cbn in *; [lia|]. rewrite IH by lia. done.
Qed.

(** A match stays the first one when the data grows. *)
Lemma index_nat_app s t sep n : index_nat s sep = Some n -> index_nat (s ++ t) sep = Some n.
Proof.
  revert n. induction s as [|b s IH]; intros n H.
  - cbn in H. destruct (has_prefix sep []) eqn:E; [|done]. injection H as <-.
    destruct sep; [|done]. by destruct t.
  - pose proof (index_nat_spec _ _ _ H) as (_ & _ & Hl).
    cbn [index_nat app] in *. change (b :: s ++ t) with ((b :: s) ++ t).
    rewrite has_prefix_app_inv by lia.
    destruct (has_prefix sep (b :: s)); [done|].
    destruct (index_nat s sep) as [m|]; [|done]. by rewrite (IH m).
Qed.

Lemma Index_app s t sep : Index s sep <> -1 -> Index (s ++ t) sep = Index s sep.
Proof.
  unfold Index. destruct (index_nat s sep) as [n|] eqn:E; [|done].
  by rewrite (index_nat_app _ t _ _ E).
Qed.

(** The first byte of a match. *)
Lemma Index_pos b s c sep :
  b <> c -> Index (b :: s) (c :: sep) <> -1 -> 1 <= Index (b :: s) (c :: sep).
Proof.
  intros Hne. unfold Index. cbn [index_nat has_prefix].
  destruct (Byte.eqb c b) eqn:E; [apply beqb_eq in E; congruence|]. cbn [andb].
  destruct (index_nat s (c :: sep)); cbn; lia.
Qed.

(** [n] bytes without the separator [c d] put its first match at [n]. *)
Lemma index_nat_line l c d t :
  c <> d -> index_nat l [c; d] = None -> index_nat (l ++ c :: d :: t) [c; d] = Some (length l).
Proof.
  intros Hcd. induction l as [|b l IH]; cbn [app index_nat]; intros H.
  - cbn. by rewrite !beqb_refl.
  - destruct (has_prefix [c; d] (b :: l)) eqn:E; [done|].
    destruct (index_nat l [c; d]) eqn:E'; [done|]. rewrite IH by done.
    assert (has_prefix [c; d] (b :: l ++ c :: d :: t) = false) as ->; [|done].
    destruct l as [|b' l]; [|exact E]. cbn.
    destruct (Byte.eqb d c) eqn:Edc; [apply beqb_eq in Edc; congruence|].
    by rewrite andb_comm.
Qed.

Lemma at_cons {A} (x : A) s : at_ (x :: s) 0 = Ret x.
Proof. reflexivity. Qed.

Lemma at_mid {A} (s t : list A) x : at_ (s ++ x :: t) (len s) = Ret x.
Proof.
  unfold at_, len. rewrite decide_True by lia. rewrite Nat2Z.id.
  by rewrite list_lookup_middle.
Qed.

Lemma drop_len_app {A} (s t : list A) : drop (Z.to_nat (len s)) (s ++ t) = t.
Proof. unfold len. by rewrite Nat2Z.id, drop_app_length. Qed.

Lemma len_drop {A} (s : list A) i : 0 <= i <= len s -> len (drop (Z.to_nat i) s) = len s - i.
Proof. unfold len. rewrite length_drop. lia. Qed.

Lemma drop_cons_at {A} (s : list A) i x :
  at_ s i = Ret x -> exists t, drop (Z.to_nat i) s = x :: t.
Proof.
  intros H. pose proof (at_Ret _ _ _ H). unfold at_ in H. rewrite decide_True in H by lia.
  destruct (s !! Z.to_nat i) eqn:E; [|done]. injection H as ->.
  apply drop_S in E. eauto.
Qed.

Lemma str_slice_not_fuel s lo hi : str_slice s lo hi <> OutOfFuel.
Proof. unfold str_slice. by case_decide. Qed.

Lemma str_from_not_fuel s lo : str_from s lo <> OutOfFuel.
Proof. apply str_slice_not_fuel. Qed.

Lemma at_pre {A} (pre l : list A) i : 0 <= i -> at_ (pre ++ l) (len pre + i) = at_ l i.
Proof. apply at_app_r. Qed.

Lemma at_pre0 {A} (pre l : list A) : at_ (pre ++ l) (len pre) = at_ l 0.
Proof. rewrite <- (at_app_r pre l 0) by done. f_equal. lia. Qed.

(** * Automation *)

(** Case analysis on the Go-level tests of the goal and of the hypotheses. *)
Ltac case_go :=
  match goal with
  | H : Ret _ = Ret _ |- _ => injection H as H
  | H : inl _ = inl _ |- _ => injection H as H
  | H : inr _ = inr _ |- _ => injection H as H
  | H : (_, _) = (_, _) |- _ => injection H as H
  | H : Ret _ = Panic |- _ => discriminate H
  | H : Ret _ = OutOfFuel |- _ => discriminate H
  | H : Panic = Ret _ |- _ => discriminate H
  | H : OutOfFuel = Ret _ |- _ => discriminate H
  | H : Panic = OutOfFuel |- _ => discriminate H
  | H : inl _ = inr _ |- _ => discriminate H
  | H : inr _ = inl _ |- _ => discriminate H
  | H : obind ?o _ = Ret _ |- _ =>
      let E := fresh "E" in destruct o eqn:E; cbn [obind] in H; try discriminate H
  | H : context [decide ?P] |- _ => destruct (decide P)
  | |- context [decide ?P] => destruct (decide P)
  end.

Create HintDb go discriminated.
#[export] Hint Resolve at_not_fuel sl_slice_not_fuel sl_from_not_fuel str_slice_not_fuel str_from_not_fuel
  len_nonneg : go.
Create HintDb go_len.
#[export] Hint Rewrite @len_app @len_cons @len_nil : go_len.

(** Close goals about lengths and offsets. *)
Ltac note_len x :=
  lazymatch goal with
  | _ : 0 <= len x |- _ => fail
  | _ => pose proof (len_nonneg x)
  end.
Ltac len_lia :=
  autorewrite with go_len in *;
  repeat match goal with
  | |- context [len ?x] => note_len x
  | _ : context [len ?x] |- _ => note_len x
  end; lia.

Lemma str_from_ok s off : 0 <= off <= len s -> str_from s off = Ret (drop (Z.to_nat off) s).
Proof.
  intros H. unfold str_from, str_slice. rewrite decide_True by lia. f_equal. unfold sub.
  rewrite take_ge; [done|]. rewrite length_drop. unfold len in *. lia.
Qed.

Lemma str_slice_mid pre s post : str_slice (pre ++ s ++ post) (len pre) (len pre + len s) = Ret s.
Proof.
  unfold str_slice. rewrite decide_True by len_lia. by rewrite sub_mid.
Qed.

(** * Filters and maps *)

(** The first element of a list that satisfies a predicate. *)
Lemma exists_first {A} (P : A -> Prop) `{!forall x, Decision (P x)} l :
  Exists P l -> exists k x k', l = k ++ x :: k' /\ P x /\ Forall (fun y => ~ P y) k.
Proof.
  induction l as [|a l IH]; intros Hl; [by inversion Hl|].
  destruct (decide (P a)) as [Ha|Ha]; [by exists [], a, l|].
  destruct IH as (k & y & k' & -> & Hy & Hk); [by inversion_clear Hl|].
  exists (a :: k), y, k'. split; [done|]. split; [done|by constructor].
Qed.

Lemma filter_all {A} (P : A -> Prop) `{forall x, Decision (P x)} (l : list A) : Forall P l -> filter P l = l.
Proof.
  induction l as [|x l IH]; [done|]. intros Hf. inversion Hf; subst. rewrite filter_cons_True by done. by rewrite IH.
Qed.

(** The lookup of a literal key in a map built by insertions. *)
Ltac map_lookups := repeat (rewrite lookup_insert_eq || rewrite lookup_insert_ne by done).
