(* ===== verification/GoStd.v ===== *)
(** The Go standard library routines the program calls, on byte strings:
    [strconv] (ParseInt, Atoi, Itoa), [strings] and [bytes] (case mapping,
    trimming, splitting, joining), [time] arithmetic and [net.IP].  Case mapping
    outside ASCII is the class [Unicode], the tables of package [unicode]. *)
From S2P Require Export Prelude.

(** * strconv *)

Inductive NumError := ErrSyntax | ErrRange.

(** The value of a digit character, as [strconv.ParseUint] reads it. *)
Definition digit_val (b : byte) : option Z :=
  let c := u8 b in
  if decide (48 <= c <= 57) then Some (c - 48)
  else if decide (97 <= c <= 122) then Some (c - 97 + 10)
  else if decide (65 <= c <= 90) then Some (c - 65 + 10)
  else None.

(** The scan of [ParseUint]: left to right, so that an overflow is reported
    before a bad character further on. *)
Fixpoint parse_digits (base maxVal n : Z) (s : bytes) : Z * option NumError :=
  match s with
  | [] => (n, None)
  | b :: s' =>
      match digit_val b with
      | None => (0, Some ErrSyntax)
      | Some v =>
          if decide (base <= v) then (0, Some ErrSyntax)
          else if decide (maxVal < n * base + v) then (maxVal, Some ErrRange)
          else parse_digits base maxVal (n * base + v) s'
      end
  end.

Definition ParseUint (s : bytes) (base bitSize : Z) : Z * option NumError :=
  match s with
  | [] => (0, Some ErrSyntax)
  | _ => parse_digits base (2 ^ bitSize - 1) 0 s
  end.

Definition ParseInt (s : bytes) (base bitSize : Z) : Z * option NumError :=
  match s with
  | [] => (0, Some ErrSyntax)
  | c :: s' =>
      let neg := Byte.eqb c "-"%byte in
      let digits := if neg || Byte.eqb c "+"%byte then s' else s in
      let cutoff := 2 ^ (bitSize - 1) in
      match ParseUint digits base bitSize with
      | (_, Some ErrSyntax) => (0, Some ErrSyntax)
      | (un, _) =>
          if negb neg && bool_decide (cutoff <= un) then (cutoff - 1, Some ErrRange)
          else if neg && bool_decide (cutoff < un) then (- cutoff, Some ErrRange)
          else (if neg then - un else un, None)
      end
  end.

Definition Atoi (s : bytes) : Z * option NumError := ParseInt s 10 64.

(** Decimal digits, the last one first on the accumulator. *)
Definition digit (n : Z) : byte := to_byte (48 + n mod 10).
Fixpoint utoa_go (fuel : nat) (n : Z) (acc : bytes) : bytes :=
  match fuel with
  | O => acc
  | S f => if decide (n < 10) then digit n :: acc else utoa_go f (n / 10) (digit n :: acc)
  end.
Definition utoa (n : Z) : bytes := utoa_go (S (Z.to_nat (Z.log2 n))) n [].
Definition Itoa (n : Z) : bytes := if decide (n < 0) then "-"%byte :: utoa (- n) else utoa n.

(** [ParseInt] reports a range error with the clamped value, so its result
    always fits. *)
Lemma parse_digits_bound base maxVal n s :
  0 <= base -> 0 <= n <= maxVal -> 0 <= fst (parse_digits base maxVal n s) <= maxVal.
Proof.
  intros Hb. revert n. induction s as [|b s IH]; intros n Hn; cbn; [lia|].
  unfold digit_val. repeat case_decide; cbn; repeat case_decide; cbn; try lia; apply IH; lia.
Qed.

Lemma ParseInt_bound s base w :
  0 <= base -> 1 <= w -> - 2 ^ (w - 1) <= fst (ParseInt s base w) < 2 ^ (w - 1).
Proof.
  intros Hb Hw. assert (1 <= 2 ^ (w - 1)) by (pose proof (Z.pow_pos_nonneg 2 (w - 1)); lia).
  assert (1 <= 2 ^ w) by (pose proof (Z.pow_pos_nonneg 2 w); lia).
  destruct s as [|c s]; cbn [ParseInt]; [cbn; lia|].
  set (d := if _ || _ then _ else _).
  assert (0 <= fst (ParseUint d base w)).
  { destruct d; [cbn; lia|]. apply parse_digits_bound; lia. }
  destruct (ParseUint d base w) as [un [[]|]]; cbn in *; [lia| |];
    destruct (Byte.eqb c "-"%byte); cbn; repeat case_bool_decide; cbn; lia.
Qed.

Lemma digit_val_digit n : digit_val (digit n) = Some (n mod 10).
Proof.
  pose proof (Z.mod_pos_bound n 10 eq_refl). unfold digit_val, digit.
  rewrite u8_to_byte, Z.mod_small by lia. rewrite decide_True by lia. f_equal. lia.
Qed.

(** Reading the digits of [n] followed by [acc] reads [n] first. *)
Lemma parse_utoa_go fuel n acc maxVal :
  0 <= n <= maxVal -> (Z.to_nat (Z.log2 n) < fuel)%nat ->
  parse_digits 10 maxVal 0 (utoa_go fuel n acc) = parse_digits 10 maxVal n acc.
Proof.
  revert n acc. induction fuel as [|fuel IH]; intros n acc Hn Hf; [lia|].
  assert (n = n / 10 * 10 + n mod 10) as En by (rewrite Z.mul_comm; apply Z.div_mod; lia).
  pose proof (Z.mod_pos_bound n 10 eq_refl).
  cbn [utoa_go]. case_decide as Hs.
  - cbn [parse_digits]. rewrite digit_val_digit, !decide_False by (rewrite ?Z.mod_small; lia).
    f_equal. rewrite Z.mod_small; lia.
  - assert (Z.log2 (n / 10) < Z.log2 n).
    { apply Z.log2_lt_pow2; [apply Z.div_str_pos; lia|].
      pose proof (Z.log2_spec n ltac:(lia)) as [_ Hl].
      rewrite Z.pow_succ_r in Hl by apply Z.log2_nonneg.
      apply Z.div_lt_upper_bound; [lia|]. nia. }
    pose proof (Z.log2_nonneg (n / 10)).
    rewrite IH; [|split; [apply Z.div_pos; lia|lia]|lia].
    cbn [parse_digits]. rewrite digit_val_digit, !decide_False by lia.
    f_equal. lia.
Qed.

Lemma utoa_go_cons fuel n acc : (0 < fuel)%nat -> exists m r, utoa_go fuel n acc = digit m :: r.
Proof.
  revert n acc. induction fuel as [|fuel IH]; intros n acc Hf; [lia|]. cbn.
  case_decide; [by eexists _, _|]. destruct fuel; [by eexists _, _|]. apply IH. lia.
Qed.

Lemma digit_ne m b : digit_val b = None -> Byte.eqb (digit m) b = false.
Proof.
  intros H. destruct (Byte.eqb (digit m) b) eqn:E; [|done].
  apply beqb_eq in E. subst b. by rewrite digit_val_digit in H.
Qed.

Lemma ParseUint_utoa n : 0 <= n < 2 ^ 64 -> ParseUint (utoa n) 10 64 = (n, None).
Proof.
  intros Hn. unfold utoa. set (f := S _). destruct (utoa_go_cons f n [] ltac:(lia)) as (m & r & E).
  unfold ParseUint. rewrite E, <- E. apply parse_utoa_go; subst f; lia.
Qed.

(** [ParseInt] inverts [Itoa] on the [int64]s. *)
Lemma ParseInt_Itoa_signed n : - 2 ^ 63 <= n < 2 ^ 63 -> ParseInt (Itoa n) 10 64 = (n, None).
Proof.
  intros Hn. unfold Itoa. case_decide as Hneg.
  - unfold ParseInt. rewrite beqb_refl. cbn [orb negb andb]. rewrite ParseUint_utoa by lia.
    rewrite bool_decide_eq_false_2 by lia. f_equal. lia.
  - unfold utoa at 1. set (f := S _). destruct (utoa_go_cons f n [] ltac:(lia)) as (m & r & E).
    unfold ParseInt. rewrite E, !digit_ne by done. cbn [orb negb andb]. rewrite <- E.
    change (utoa_go f n []) with (utoa n). rewrite ParseUint_utoa by lia.
    rewrite bool_decide_eq_false_2 by lia. done.
Qed.

Lemma ParseInt_Itoa n : 0 <= n < 2 ^ 63 -> ParseInt (Itoa n) 10 64 = (n, None).
Proof. intros Hn. apply ParseInt_Itoa_signed. lia. Qed.

(** * strings *)

(** The [unicode] tables: case mapping of a string that is not pure ASCII. *)
Class Unicode := {
  unicode_upper : bytes -> bytes;
  unicode_lower : bytes -> bytes
}.

Definition is_ascii (s : bytes) : bool := forallb (fun b => u8 b <? 128) s.

Definition upper_byte (b : byte) : byte :=
  if decide (97 <= u8 b <= 122) then to_byte (u8 b - 32) else b.
Definition lower_byte (b : byte) : byte :=
  if decide (65 <= u8 b <= 90) then to_byte (u8 b + 32) else b.

Definition ToUpper `{Unicode} (s : bytes) : bytes :=
  if is_ascii s then map upper_byte s else unicode_upper s.
Definition ToLower `{Unicode} (s : bytes) : bytes :=
  if is_ascii s then map lower_byte s else unicode_lower s.

(** [strings.Join(a, sep)]. *)
Fixpoint Join (a : list bytes) (sep : bytes) : bytes :=
  match a with
  | [] => []
  | [x] => x
  | x :: a' => x ++ sep ++ Join a' sep
  end.

(** [strings.Split(s, sep)] for a one-byte separator. *)
Fixpoint Split (s : bytes) (sep : byte) : list bytes :=
  match s with
  | [] => [[]]
  | b :: s' =>
      if Byte.eqb b sep then [] :: Split s' sep
      else match Split s' sep with
           | [] => [[b]]
           | w :: ws => (b :: w) :: ws
           end
  end.

Definition Contains (s sub : bytes) : bool := bool_decide (Index s sub <> -1).

(** * time *)

(** A [time.Time] is its nanoseconds since the epoch; [Sub] saturates. *)
Definition time_Sub (t u : Z) : Z :=
  Z.max (- 2 ^ 63) (Z.min (2 ^ 63 - 1) (t - u)).

(** [int64(ts.UnixNano() / 1000)] and [int32(d.Nanoseconds() / 1e6)]. *)
Definition micros (ts : Z) : Z := int64_of (Z.quot (int64_of ts) 1000).
Definition millis32 (d : Z) : Z := int32_of (Z.quot d 1000000).

Lemma millis32_exact t u :
  Z.abs (t - u) < 2147483648 * 1000000 -> millis32 (time_Sub t u) = Z.quot (t - u) 1000000.
Proof.
  intros H. unfold millis32, time_Sub.
  assert (Z.max (- 2 ^ 63) (Z.min (2 ^ 63 - 1) (t - u)) = t - u) as -> by lia.
  apply wrapS_small; [lia|]. cbn. Z.to_euclidean_division_equations. lia.
Qed.

(** * net *)

(** [net.IP.String].  An address is 4 or 16 bytes. *)
Definition hexdigit (z : Z) : byte :=
  nth (Z.to_nat z) (bs "0123456789abcdef") "0"%byte.

Definition v4InV6Prefix : bytes := replicate 10 x00 ++ [xff; xff].

Definition To4 (ip : bytes) : option bytes :=
  if decide (length ip = 4%nat) then Some ip
  else if decide (length ip = 16%nat /\ take 12 ip = v4InV6Prefix) then Some (drop 12 ip)
  else None.

(** The 16-bit groups of an IPv6 address. *)
Fixpoint ip_words (ip : bytes) : list Z :=
  match ip with
  | a :: b :: ip' => (u8 a * 256 + u8 b) :: ip_words ip'
  | _ => []
  end.

(** [itox]: hexadecimal without leading zeros. *)
Definition itox (i : Z) : bytes :=
  let d k := hexdigit ((i / 16 ^ k) mod 16) in
  if decide (4096 <= i) then [d 3; d 2; d 1; d 0]
  else if decide (256 <= i) then [d 2; d 1; d 0]
  else if decide (16 <= i) then [d 1; d 0] else [d 0].

Fixpoint zero_run (ws : list Z) : nat :=
  match ws with
  | w :: ws' => if decide (w = 0) then S (zero_run ws') else 0
  | [] => 0
  end.

(** The first longest run of zero groups, as (start, length). *)
Fixpoint longest_zeros (ws : list Z) (i : nat) (best : nat * nat) : nat * nat :=
  match ws with
  | [] => best
  | _ :: ws' =>
      let r := zero_run ws in
      longest_zeros ws' (S i) (if decide (snd best < r)%nat then (i, r) else best)
  end.

(** Groups separated by colons, the run [e0, e1) of zeros written "::". *)
Fixpoint v6_groups (ws : list Z) (i e0 e1 : nat) : bytes :=
  match ws with
  | [] => []
  | w :: ws' =>
      if decide (i = e0 /\ e0 < e1)%nat then bs "::" ++ v6_groups ws' (S i) e0 e1
      else if decide (e0 < i < e1)%nat then v6_groups ws' (S i) e0 e1
      else (if decide (0 < i /\ i <> e1)%nat then bs ":" else []) ++ itox w ++ v6_groups ws' (S i) e0 e1
  end.

Definition ip_String (ip : bytes) : bytes :=
  match ip with
  | [] => bs "<nil>"
  | _ =>
      match To4 ip with
      | Some p4 => Join (map (fun b => Itoa (u8 b)) p4) (bs ".")
      | None =>
          if decide (length ip = 16%nat) then
            let ws := ip_words ip in
            let '(e0, n) := longest_zeros ws 0 (0%nat, 0%nat) in
            if decide (n <= 1)%nat then v6_groups ws 0 16 0 else v6_groups ws 0 e0 (e0 + n)
          else bs "?"
      end
  end.

(** A byte that is not in a string is not the start of a match. *)
Lemma index_nat_notin (l : bytes) c sep : Forall (fun b => b <> c) l -> index_nat l (c :: sep) = None.
Proof.
  induction 1 as [|b l Hb Hl IH]; [done|]. cbn [index_nat has_prefix].
  destruct (Byte.eqb c b) eqn:E; [apply beqb_eq in E; congruence|]. cbn. by rewrite IH.
Qed.

Lemma Itoa_digits n c : digit_val c = None -> 0 <= n -> Forall (fun b => b <> c) (Itoa n).
Proof.
  intros Hc Hn. unfold Itoa. rewrite decide_False by lia. unfold utoa.
  generalize (S (Z.to_nat (Z.log2 n))) as f. clear Hn.
  assert (forall m, digit m <> c) as Hd.
  { intros m <-. by rewrite digit_val_digit in Hc. }
  assert (Forall (fun b : byte => b <> c) []) as Hacc by constructor. revert Hacc.
  generalize (@nil byte) as acc. intros acc Hacc f. revert n acc Hacc.
  induction f as [|f IH]; intros n acc Hacc; cbn; [done|].
  case_decide; [by constructor|]. apply IH. by constructor.
Qed.

(** * More of strings *)

Definition in_set (set : bytes) (b : byte) : bool := existsb (Byte.eqb b) set.

(** [strings.TrimLeft], [TrimRight] and [Trim] for a cutset of ASCII characters. *)
Fixpoint TrimLeft (s cutset : bytes) : bytes :=
  match s with
  | b :: s' => if in_set cutset b then TrimLeft s' cutset else s
  | [] => []
  end.
Definition TrimRight (s cutset : bytes) : bytes := rev (TrimLeft (rev s) cutset).
Definition Trim (s cutset : bytes) : bytes := TrimRight (TrimLeft s cutset) cutset.

(** [strings.IndexAny(s, chars)] for ASCII [chars]. *)
Fixpoint index_any (s chars : bytes) : option nat :=
  match s with
  | [] => None
  | b :: s' => if in_set chars b then Some O else Datatypes.S <$> index_any s' chars
  end.
Definition IndexAny (s chars : bytes) : Z :=
  match index_any s chars with Some n => Z.of_nat n | None => -1 end.

(** [strings.Replace(s, old, new, -1)] for a one-byte [old]. *)
Definition Replace (s : bytes) (old : byte) (new : bytes) : bytes :=
  concat (map (fun b => if Byte.eqb b old then new else [b]) s).

Lemma IndexAny_bound s chars : -1 <= IndexAny s chars < len s \/ IndexAny s chars = -1.
Proof.
  unfold IndexAny. assert (forall n, index_any s chars = Some n -> (n < length s)%nat) as H.
  { induction s as [|b s IH]; cbn; [done|]. intros n. destruct (in_set chars b); [intros [= <-]; lia|].
    destruct (index_any s chars) as [m|]; [|done]. intros [= <-]. specialize (IH m eq_refl). lia. }
  destruct (index_any s chars) as [n|]; [|by right]. left. specialize (H n eq_refl). unfold len. lia.
Qed.

(** * encoding/csv *)

(** [unicode.IsSpace] of the first rune of a UTF-8 string. *)
Definition space_runes : list bytes :=
  [[x09]; [x0a]; [x0b]; [x0c]; [x0d]; [x20]; [xc2; x85]; [xc2; xa0]; [xe1; x9a; x80];
   [xe2; x80; x80]; [xe2; x80; x81]; [xe2; x80; x82]; [xe2; x80; x83]; [xe2; x80; x84];
   [xe2; x80; x85]; [xe2; x80; x86]; [xe2; x80; x87]; [xe2; x80; x88]; [xe2; x80; x89];
   [xe2; x80; x8a]; [xe2; x80; xa8]; [xe2; x80; xa9]; [xe2; x80; xaf]; [xe2; x81; x9f];
   [xe3; x80; x80]].

(** [Writer.fieldNeedsQuotes] with the comma as separator. *)
Definition fieldNeedsQuotes (field : bytes) : bool :=
  match field with
  | [] => false
  | _ =>
      bool_decide (field = bs "\.") || existsb (in_set [x2c; x22; x0d; x0a]) field ||
      existsb (fun r => has_prefix r field) space_runes
  end.

Definition csv_field (field : bytes) : bytes :=
  if fieldNeedsQuotes field then [x22] ++ Replace field x22 [x22; x22] ++ [x22] else field.

(** [Writer.Write(record)]. *)
Definition csv_Write (record : list bytes) : bytes := Join (map csv_field record) [x2c] ++ [x0a].

(** [strings.TrimSpace]: white space as [unicode.IsSpace] has it, at both ends. *)
Definition strip_any (rs : list bytes) (s : bytes) : option bytes :=
  match List.find (fun r => has_prefix r s) rs with
  | Some r => Some (drop (length r) s)
  | None => None
  end.
Fixpoint strip_all (fuel : nat) (rs : list bytes) (s : bytes) : bytes :=
  match fuel with
  | O => s
  | S f => match strip_any rs s with Some s' => strip_all f rs s' | None => s end
  end.
Definition TrimSpace (s : bytes) : bytes :=
  let s := strip_all (length s) space_runes s in
  rev (strip_all (length s) (map (@rev byte) space_runes) (rev s)).

(** * Lists of words *)

Lemma Split_word a sep : Forall (fun b => b <> sep) a -> Split a sep = [a].
Proof.
  induction 1 as [|b a Hb _ IH]; [done|]. cbn. destruct (Byte.eqb b sep) eqn:E; [by apply beqb_eq in E|]. by rewrite IH.
Qed.

Lemma Split_words a sep s : Forall (fun b => b <> sep) a -> Split (a ++ sep :: s) sep = a :: Split s sep.
Proof.
  induction 1 as [|b a Hb _ IH]; cbn; [by rewrite beqb_refl|]. destruct (Byte.eqb b sep) eqn:E; [by apply beqb_eq in E|]. by rewrite IH.
Qed.

Lemma Split_Join sep l : l <> [] -> Forall (Forall (fun b => b <> sep)) l -> Split (Join l [sep]) sep = l.
Proof.
  intros Hl H. induction H as [|a l Ha _ IH]; [done|]. destruct l as [|b l]; [by apply Split_word|].
  change (Join (a :: b :: l) [sep]) with (a ++ sep :: Join (b :: l) [sep]). rewrite Split_words by done. by rewrite IH.
Qed.

(** Addresses that get the same name. *)
Lemma insert_all_lookup h ip l : forall m : gmap bytes bytes,
  foldl (fun m addr => <[addr := h]> m) m l !! ip = if decide (ip ∈ l) then Some h else m !! ip.
Proof.
  induction l as [|a l IH]; intros m; cbn; [by rewrite decide_False by apply not_elem_of_nil|]. rewrite IH.
  destruct (decide (ip ∈ l)); [by rewrite decide_True by (by right)|]. destruct (decide (ip = a)) as [->|Ha].
  - rewrite lookup_insert_eq. by rewrite decide_True by left.
  - rewrite lookup_insert_ne by done. rewrite decide_False; [done|]. by intros [?|?]%elem_of_cons.
Qed.

(** The last element that has a property, or else [d]; its [f] is what is kept. *)
Definition last_match {A B} (P : A -> Prop) `{forall x, Decision (P x)} (f : A -> B) (l : list A) (d : option B) : option B :=
  foldl (fun acc x => if decide (P x) then Some (f x) else acc) d l.

Lemma last_match_spec {A B} (P : A -> Prop) `{forall x, Decision (P x)} (f : A -> B) l : forall d,
  match last_match P f l d with
  | Some y => d = Some y \/ exists x, x ∈ l /\ P x /\ y = f x
  | None => d = None /\ forall x, x ∈ l -> ~ P x
  end.
Proof.
  induction l as [|x l IH]; intros d; cbn.
  - destruct d; [by left|]. split; [done|]. by intros ? ?%elem_of_nil.
  - specialize (IH (if decide (P x) then Some (f x) else d)). unfold last_match in IH. destruct (foldl _ _ _) as [y|].
    + destruct IH as [IH|(z & Hz & IH)]; [|right; exists z; split; [by right|done]]. case_decide; [|by left].
      injection IH as <-. right. exists x. split; [by left|done].
    + destruct IH as [Ed IH]. case_decide; [done|]. split; [done|]. intros z [->|Hz]%elem_of_cons; [done|by apply IH].
Qed.
