(* ===== verification/Tuples.v ===== *)
(** Libbeat's [common] package: the IP/port and TCP tuples that key every map
    of the program, network byte order, endpoints and [MapStr]. *)
From S2P Require Export GoStd.

(** * Network byte order (common/bytes.go) *)

Definition Bytes_Ntohs (b : bytes) : outcome Z :=
  let! b0 := at_ b 0 in
  let! b1 := at_ b 1 in
  Ret (Z.lor (Z.shiftl (u8 b0) 8) (u8 b1)).

Definition Bytes_Ntohl (b : bytes) : outcome Z :=
  let! b0 := at_ b 0 in
  let! b1 := at_ b 1 in
  let! b2 := at_ b 2 in
  let! b3 := at_ b 3 in
  Ret (Z.lor (Z.lor (Z.lor (Z.shiftl (u8 b0) 24) (Z.shiftl (u8 b1) 16))
                    (Z.shiftl (u8 b2) 8)) (u8 b3)).

(** Big-endian encodings, the senders' side. *)
Definition be16 (n : Z) : bytes := [to_byte (Z.shiftr n 8); to_byte n].
Definition be32 (n : Z) : bytes :=
  [to_byte (Z.shiftr n 24); to_byte (Z.shiftr n 16); to_byte (Z.shiftr n 8); to_byte n].

(** [common.ReadString]: the bytes before the first NUL; no NUL is an error
    (with the empty string as value). *)
Definition ReadString (s : bytes) : bytes * bool :=
  let i := Index s [x00] in
  if decide (i < 0) then ([], false) else (sub s 0 i, true).

(** * Tuples (common/tuples.go) *)

Definition MaxIpPortTupleRawSize : Z := 16 + 16 + 2 + 2.
Definition MaxTcpTupleRawSize : Z := 16 + 16 + 2 + 2 + 4.

Record IpPortTuple := {
  it_Ip_length : Z;
  it_Src_ip : bytes;
  it_Dst_ip : bytes;
  it_Src_port : Z;
  it_Dst_port : Z;
  it_raw : bytes;      (* [36]byte *)
  it_revRaw : bytes    (* [36]byte *)
}.
#[export] Instance eta_IpPortTuple : Settable IpPortTuple := fun r =>
  {| it_Ip_length := it_Ip_length r; it_Src_ip := it_Src_ip r; it_Dst_ip := it_Dst_ip r;
     it_Src_port := it_Src_port r; it_Dst_port := it_Dst_port r;
     it_raw := it_raw r; it_revRaw := it_revRaw r |}.

(** [copy(dst[lo:hi], src)]. *)
Definition copy_at (dst : bytes) (lo hi : nat) (src : bytes) : bytes :=
  let n := Nat.min (hi - lo) (length src) in
  take lo dst ++ take n src ++ drop (lo + n) dst.

(** [ip:port:ip:port] in the fixed layout of a hashable array. *)
Definition copy_endpoints (raw ip1 : bytes) (port1 : Z) (ip2 : bytes) (port2 : Z) : bytes :=
  let raw := copy_at raw 0 16 ip1 in
  let raw := copy_at raw 16 18 (be16 port1) in
  let raw := copy_at raw 18 34 ip2 in
  copy_at raw 34 36 (be16 port2).

Definition ComputeHashebles (t : IpPortTuple) : IpPortTuple :=
  t <| it_raw := copy_endpoints (it_raw t) (it_Src_ip t) (it_Src_port t) (it_Dst_ip t) (it_Dst_port t) |>
    <| it_revRaw := copy_endpoints (it_revRaw t) (it_Dst_ip t) (it_Dst_port t) (it_Src_ip t) (it_Src_port t) |>.

Definition NewIpPortTuple (ip_length : Z) (src_ip : bytes) (src_port : Z)
    (dst_ip : bytes) (dst_port : Z) : IpPortTuple :=
  ComputeHashebles
    {| it_Ip_length := ip_length; it_Src_ip := src_ip; it_Dst_ip := dst_ip;
       it_Src_port := src_port; it_Dst_port := dst_port;
       it_raw := replicate 36 x00; it_revRaw := replicate 36 x00 |}.

Definition Hashable (t : IpPortTuple) : bytes := it_raw t.
Definition RevHashable (t : IpPortTuple) : bytes := it_revRaw t.

Record TcpTuple := {
  tt_Ip_length : Z;
  tt_Src_ip : bytes;
  tt_Dst_ip : bytes;
  tt_Src_port : Z;
  tt_Dst_port : Z;
  tt_Stream_id : Z;
  tt_raw : bytes       (* [40]byte *)
}.
#[export] Instance eta_TcpTuple : Settable TcpTuple := fun r =>
  {| tt_Ip_length := tt_Ip_length r; tt_Src_ip := tt_Src_ip r; tt_Dst_ip := tt_Dst_ip r;
     tt_Src_port := tt_Src_port r; tt_Dst_port := tt_Dst_port r;
     tt_Stream_id := tt_Stream_id r; tt_raw := tt_raw r |}.

Definition TcpComputeHashebles (t : TcpTuple) : TcpTuple :=
  let raw := copy_endpoints (tt_raw t) (tt_Src_ip t) (tt_Src_port t) (tt_Dst_ip t) (tt_Dst_port t) in
  t <| tt_raw := copy_at raw 36 40 (be32 (tt_Stream_id t)) |>.

Definition TcpTupleFromIpPort (t : IpPortTuple) (tcp_id : Z) : TcpTuple :=
  TcpComputeHashebles
    {| tt_Ip_length := it_Ip_length t; tt_Src_ip := it_Src_ip t; tt_Dst_ip := it_Dst_ip t;
       tt_Src_port := it_Src_port t; tt_Dst_port := it_Dst_port t;
       tt_Stream_id := tcp_id; tt_raw := replicate 40 x00 |}.

(** [TcpTuple.IpPort] and [TcpTuple.Hashable]. *)
Definition IpPort (t : TcpTuple) : IpPortTuple :=
  NewIpPortTuple (tt_Ip_length t) (tt_Src_ip t) (tt_Src_port t) (tt_Dst_ip t) (tt_Dst_port t).
Definition TcpHashable (t : TcpTuple) : bytes := tt_raw t.

(** Process names of the two ends, as the [procs] package finds them. *)
Record CmdlineTuple := { ct_Src : bytes; ct_Dst : bytes }.

Record Endpoint := {
  ep_Ip : bytes; ep_Port : Z; ep_Name : bytes; ep_Cmdline : bytes; ep_Proc : bytes
}.

(** The composite literals the protocols use: [Name] and [Cmdline] stay empty. *)
Definition mkEndpoint (ip : bytes) (port : Z) (proc : bytes) : Endpoint :=
  {| ep_Ip := ip; ep_Port := port; ep_Name := []; ep_Cmdline := []; ep_Proc := proc |}.

(** * MapStr (common/mapstr.go) *)

Inductive mval :=
| MStr (s : bytes)
| MInt (z : Z)
| MBool (b : bool)
| MTime (ns : Z)
| MStrs (l : list bytes)
| MEndpoint (e : Endpoint)
| MMap (m : gmap bytes mval).

Abbreviation MapStr := (gmap bytes mval).

(** [m.Update(d)]: the entries of [d] overwrite those of [m]. *)
Definition Update (m d : MapStr) : MapStr := d ∪ m.

Definition OK_STATUS : bytes := bs "OK".
Definition ERROR_STATUS : bytes := bs "Error".

(** * Lemmas *)

Lemma Bytes_Ntohl_4 b : 4 <= len b -> exists n, Bytes_Ntohl b = Ret n.
Proof.
  intros H. unfold Bytes_Ntohl.
  destruct (at_ok b 0) as [? [-> _]]; [lia|]. destruct (at_ok b 1) as [? [-> _]]; [lia|].
  destruct (at_ok b 2) as [? [-> _]]; [lia|]. destruct (at_ok b 3) as [? [-> _]]; [lia|].
  eexists; reflexivity.
Qed.

Lemma land_shiftl_low a b n : 0 <= n -> 0 <= b < 2 ^ n -> Z.land (Z.shiftl a n) b = 0.
Proof.
  intros Hn Hb. apply Z.bits_inj'. intros i Hi. rewrite Z.land_spec, Z.bits_0.
  destruct (decide (i < n)); [by rewrite Z.shiftl_spec_low|].
  assert (2 ^ n <= 2 ^ i) by (apply Z.pow_le_mono_r; lia).
  rewrite (Z.testbit_eqb b) by lia. rewrite Z.div_small by lia. by rewrite andb_false_r.
Qed.

Lemma lor_shiftl_add a b n : 0 <= n -> 0 <= b < 2 ^ n -> Z.lor (Z.shiftl a n) b = a * 2 ^ n + b.
Proof.
  intros Hn Hb. rewrite <- Z.lxor_lor by (by apply land_shiftl_low).
  rewrite <- Z.add_nocarry_lxor by (by apply land_shiftl_low).
  by rewrite Z.shiftl_mul_pow2.
Qed.

Lemma Bytes_Ntohs_val a b s : Bytes_Ntohs (a :: b :: s) = Ret (u8 a * 256 + u8 b).
Proof.
  pose proof (u8_bound b). unfold Bytes_Ntohs.
  change (at_ (a :: b :: s) 0) with (Ret a). change (at_ (a :: b :: s) 1) with (Ret b).
  cbn [obind]. by rewrite lor_shiftl_add by lia.
Qed.

Lemma Bytes_Ntohl_val a b c d s :
  Bytes_Ntohl (a :: b :: c :: d :: s) =
  Ret (u8 a * 2 ^ 24 + u8 b * 2 ^ 16 + u8 c * 2 ^ 8 + u8 d).
Proof.
  pose proof (u8_bound b). pose proof (u8_bound c). pose proof (u8_bound d).
  unfold Bytes_Ntohl. set (l := a :: b :: c :: d :: s).
  change (at_ l 0) with (Ret a). change (at_ l 1) with (Ret b).
  change (at_ l 2) with (Ret c). change (at_ l 3) with (Ret d). cbn [obind]. f_equal.
  replace (Z.shiftl (u8 b) 16) with (Z.shiftl (Z.shiftl (u8 b) 8) 8) by (by rewrite Z.shiftl_shiftl).
  replace (Z.shiftl (u8 a) 24) with (Z.shiftl (Z.shiftl (Z.shiftl (u8 a) 8) 8) 8)
    by (by rewrite !Z.shiftl_shiftl).
  rewrite <- Z.shiftl_lor, <- Z.shiftl_lor, <- Z.shiftl_lor.
  rewrite !lor_shiftl_add by lia. lia.
Qed.

Lemma Bytes_Ntohl_range b n : Bytes_Ntohl b = Ret n -> 0 <= n < 2 ^ 32.
Proof.
  destruct b as [|x [|y [|z [|w b]]]]; try discriminate.
  rewrite Bytes_Ntohl_val. intros [= <-].
  pose proof (u8_bound x). pose proof (u8_bound y). pose proof (u8_bound z). pose proof (u8_bound w). lia.
Qed.

Lemma Bytes_Ntohl_be32 n s : Bytes_Ntohl (be32 n ++ s) = Ret (n mod 2 ^ 32).
Proof.
  unfold be32. cbn [app]. rewrite Bytes_Ntohl_val, !u8_to_byte, !Z.shiftr_div_pow2 by lia.
  f_equal. Z.to_euclidean_division_equations. lia.
Qed.

Lemma be32_inj n m : 0 <= n < 2 ^ 32 -> 0 <= m < 2 ^ 32 -> be32 n = be32 m -> n = m.
Proof.
  intros Hn Hm E. pose proof (Bytes_Ntohl_be32 n []) as E1. rewrite E, Bytes_Ntohl_be32 in E1.
  rewrite !Z.mod_small in E1 by lia. congruence.
Qed.

Lemma be16_inj n m : 0 <= n < 2 ^ 16 -> 0 <= m < 2 ^ 16 -> be16 n = be16 m -> n = m.
Proof.
  intros Hn Hm [= E1 E2].
  apply (f_equal u8) in E1, E2. rewrite !u8_to_byte, !Z.shiftr_div_pow2 in * by lia.
  Z.to_euclidean_division_equations. lia.
Qed.

(** A tuple as the decoder builds it: two addresses of one family. *)
Definition ip_ok (ipl : Z) (ip : bytes) : Prop := len ip = ipl.
Definition IpPortTuple_ok (t : IpPortTuple) : Prop :=
  (it_Ip_length t = 4 \/ it_Ip_length t = 16) /\
  ip_ok (it_Ip_length t) (it_Src_ip t) /\ ip_ok (it_Ip_length t) (it_Dst_ip t) /\
  0 <= it_Src_port t < 2 ^ 16 /\ 0 <= it_Dst_port t < 2 ^ 16.

(** The layout of a hashable, both for short and long addresses. *)
Definition pad16 (ip : bytes) : bytes := ip ++ replicate (16 - length ip) x00.

Lemma copy_at_mid (a b c src : bytes) lo hi :
  length a = lo -> (lo + length b = hi)%nat -> (length src <= length b)%nat ->
  copy_at (a ++ b ++ c) lo hi src = a ++ (src ++ drop (length src) b) ++ c.
Proof.
  intros <- <- H. unfold copy_at.
  replace (length a + length b - length a)%nat with (length b) by lia.
  rewrite Nat.min_r by lia. rewrite take_app_length. f_equal.
  rewrite firstn_all, <- app_assoc. f_equal.
  rewrite <- drop_drop, drop_app_length, drop_app_le by lia. done.
Qed.

Lemma copy_endpoints_layout k ip1 p1 ip2 p2 :
  (length ip1 <= 16)%nat -> (length ip2 <= 16)%nat ->
  copy_endpoints (replicate (36 + k) x00) ip1 p1 ip2 p2 =
  pad16 ip1 ++ be16 p1 ++ pad16 ip2 ++ be16 p2 ++ replicate k x00.
Proof.
  intros H1 H2. unfold copy_endpoints.
  assert (forall ip, (length ip <= 16)%nat -> length (pad16 ip) = 16%nat) as Hpad.
  { intros ip H. unfold pad16. rewrite length_app, length_replicate. lia. }
  assert (forall ip, ip ++ drop (length ip) (replicate 16 x00) = pad16 ip) as Hd.
  { intros ip. unfold pad16. by rewrite drop_replicate. }
  replace (replicate (36 + k) x00)
    with ([] ++ replicate 16 x00 ++ (replicate 2 x00 ++ replicate 16 x00 ++ replicate 2 x00 ++ replicate k x00))
    by reflexivity.
  rewrite copy_at_mid, Hd by (rewrite ?length_replicate; done). cbn [app].
  rewrite copy_at_mid by (rewrite ?Hpad, ?length_replicate; done).
  change (be16 p1 ++ drop (length (be16 p1)) (replicate 2 x00)) with (be16 p1).
  rewrite app_assoc. rewrite copy_at_mid, Hd
    by (rewrite ?length_app, ?Hpad, ?length_replicate; done).
  rewrite (app_assoc (pad16 ip1 ++ be16 p1)). rewrite copy_at_mid
    by (rewrite ?length_app, ?Hpad, ?length_replicate; done).
  change (be16 p2 ++ drop (length (be16 p2)) (replicate 2 x00)) with (be16 p2).
  by rewrite <- !app_assoc.
Qed.

Lemma length_pad16 ip : (length ip <= 16)%nat -> length (pad16 ip) = 16%nat.
Proof. intros H. unfold pad16. rewrite length_app, length_replicate. lia. Qed.

Lemma pad16_inj ip1 ip2 : length ip1 = length ip2 -> pad16 ip1 = pad16 ip2 -> ip1 = ip2.
Proof. unfold pad16. intros Hl H. by apply app_inj_1 in H as [-> _]. Qed.

Lemma endpoints_inj a p b q a' p' b' q' s s' :
  length a = length a' -> length b = length b' -> (length a <= 16)%nat -> (length b <= 16)%nat ->
  0 <= p < 2 ^ 16 -> 0 <= p' < 2 ^ 16 -> 0 <= q < 2 ^ 16 -> 0 <= q' < 2 ^ 16 ->
  pad16 a ++ be16 p ++ pad16 b ++ be16 q ++ s = pad16 a' ++ be16 p' ++ pad16 b' ++ be16 q' ++ s' ->
  a = a' /\ p = p' /\ b = b' /\ q = q' /\ s = s'.
Proof.
  intros La Lb Ha Hb Hp Hp' Hq Hq' E.
  apply app_inj_1 in E as [Ea E]; [|rewrite !length_pad16; lia].
  apply app_inj_1 in E as [Ep E]; [|done].
  apply app_inj_1 in E as [Eb E]; [|rewrite !length_pad16; lia].
  apply app_inj_1 in E as [Eq E]; [|done].
  apply pad16_inj in Ea; [|done]. apply pad16_inj in Eb; [|done].
  apply be16_inj in Ep, Eq; done.
Qed.

(** * Hashables *)

Lemma Hashable_layout ipl a p b q :
  (length a <= 16)%nat -> (length b <= 16)%nat ->
  Hashable (NewIpPortTuple ipl a p b q) = pad16 a ++ be16 p ++ pad16 b ++ be16 q.
Proof.
  intros Ha Hb. unfold Hashable, NewIpPortTuple, ComputeHashebles. cbn [it_raw set_field it_Src_ip it_Dst_ip
    it_Src_port it_Dst_port].
  change (copy_endpoints (replicate (36 + 0) x00) a p b q = pad16 a ++ be16 p ++ pad16 b ++ be16 q).
  rewrite copy_endpoints_layout by done. cbn [replicate]. by rewrite app_nil_r.
Qed.

Lemma RevHashable_layout ipl a p b q :
  (length a <= 16)%nat -> (length b <= 16)%nat ->
  RevHashable (NewIpPortTuple ipl a p b q) = pad16 b ++ be16 q ++ pad16 a ++ be16 p.
Proof.
  intros Ha Hb. change (RevHashable (NewIpPortTuple ipl a p b q)) with (Hashable (NewIpPortTuple ipl b q a p)).
  by apply Hashable_layout.
Qed.

Lemma TcpHashable_layout t id :
  (length (it_Src_ip t) <= 16)%nat -> (length (it_Dst_ip t) <= 16)%nat ->
  TcpHashable (TcpTupleFromIpPort t id) =
  pad16 (it_Src_ip t) ++ be16 (it_Src_port t) ++ pad16 (it_Dst_ip t) ++ be16 (it_Dst_port t) ++ be32 id.
Proof.
  intros Ha Hb. unfold TcpHashable, TcpTupleFromIpPort, TcpComputeHashebles.
  cbn [tt_raw set_field tt_Src_ip tt_Dst_ip tt_Src_port tt_Dst_port tt_Stream_id].
  change (replicate 40 x00) with (replicate (36 + 4) x00). rewrite copy_endpoints_layout by done.
  set (x := pad16 _). set (y := be16 _). set (z := pad16 _). set (w := be16 _).
  replace (x ++ y ++ z ++ w ++ replicate 4 x00) with ((x ++ y ++ z ++ w) ++ replicate 4 x00 ++ [])
    by (by rewrite app_nil_r, <- !app_assoc).
  rewrite copy_at_mid by (rewrite ?length_app; subst x z; rewrite ?length_pad16 by done; done).
  by rewrite drop_ge, !app_nil_r, <- !app_assoc.
Qed.

(** The tuples of the program: built from addresses of at most 16 bytes by
    [NewIpPortTuple], or filled field by field and then hashed. *)
Definition hashed (t : IpPortTuple) : Prop :=
  (length (it_Src_ip t) <= 16)%nat /\ (length (it_Dst_ip t) <= 16)%nat /\
  t = NewIpPortTuple (it_Ip_length t) (it_Src_ip t) (it_Src_port t) (it_Dst_ip t) (it_Dst_port t).

(** The tuple of the packets that flow the other way. *)
Definition reversed (t : IpPortTuple) : IpPortTuple :=
  NewIpPortTuple (it_Ip_length t) (it_Dst_ip t) (it_Dst_port t) (it_Src_ip t) (it_Src_port t).

Lemma reversed_hashed t : hashed t -> hashed (reversed t).
Proof. by intros (? & ? & ?). Qed.

Lemma Hashable_reversed t : hashed t -> Hashable (reversed t) = RevHashable t.
Proof. intros (_ & _ & ->). reflexivity. Qed.

Lemma RevHashable_reversed t : hashed t -> RevHashable (reversed t) = Hashable t.
Proof. intros (_ & _ & ->). reflexivity. Qed.

(** If one tuple's hashable is the other's reversed hashable, then also the other way round. *)
Lemma hashable_swap t u : hashed t -> hashed u -> Hashable t = RevHashable u -> RevHashable t = Hashable u.
Proof.
  intros (Ha & Hb & ->) (Ha' & Hb' & ->). rewrite !Hashable_layout, !RevHashable_layout by done. intros E.
  apply app_inj_1 in E as [E1 E]; [|by rewrite !length_pad16].
  apply app_inj_1 in E as [E2 E]; [|done].
  apply app_inj_1 in E as [E3 E]; [|by rewrite !length_pad16].
  cbn [it_Src_ip it_Dst_ip it_Src_port it_Dst_port]. congruence.
Qed.

(** Two tuples of the same family have the same hashable only if they are the
    same connection end to end, and the hashable of a stream tuple also tells the
    stream identifiers apart. *)
Theorem Hashable_injective t u id id' :
  hashed t -> hashed u -> IpPortTuple_ok t -> IpPortTuple_ok u -> it_Ip_length t = it_Ip_length u ->
  0 <= id < 2 ^ 32 -> 0 <= id' < 2 ^ 32 ->
  (Hashable t = Hashable u <-> t = u) /\
  (TcpHashable (TcpTupleFromIpPort t id) = TcpHashable (TcpTupleFromIpPort u id') <-> t = u /\ id = id').
Proof.
  intros (Ha & Hb & Et) (Ha' & Hb' & Eu) (_ & La & Lb & Hp & Hq) (_ & La' & Lb' & Hp' & Hq') El Hi Hi'.
  unfold ip_ok, len in *. set (f := fun a p b q => NewIpPortTuple (it_Ip_length u) a p b q).
  assert (length (it_Src_ip t) = length (it_Src_ip u)) as L1 by lia.
  assert (length (it_Dst_ip t) = length (it_Dst_ip u)) as L2 by lia. split; split; try congruence.
  - rewrite Et at 1. rewrite Eu at 1. rewrite !Hashable_layout by done. intros E.
    rewrite <- (app_nil_r (be16 (it_Dst_port t))), <- (app_nil_r (be16 (it_Dst_port u))) in E.
    apply endpoints_inj in E as (E1 & E2 & E3 & E4 & _); [|done..]. rewrite Et, Eu. congruence.
  - rewrite !TcpHashable_layout by done. intros E.
    apply endpoints_inj in E as (E1 & E2 & E3 & E4 & E5); [|done..].
    split; [rewrite Et, Eu; congruence|]. by apply be32_inj in E5.
  - by intros [-> ->].
Qed.

Lemma Hashable_injective_witness :
  let t := NewIpPortTuple 4 (map to_byte [10; 0; 0; 1]) 80 (map to_byte [10; 0; 0; 2]) 81 in
  (Hashable t = Hashable t <-> t = t) /\
  (TcpHashable (TcpTupleFromIpPort t 1) = TcpHashable (TcpTupleFromIpPort t 2) <-> t = t /\ 1 = 2).
Proof.
  intros t. assert (hashed t) by (split; [|split]; [cbn; lia..|reflexivity]).
  assert (IpPortTuple_ok t) by (unfold IpPortTuple_ok; cbn; repeat split; (by left) || lia).
  apply (Hashable_injective t t 1 2); done || lia.
Defined.

(** Across families the hashable is not unique: the zero padding of an IPv4 address
    is also the tail of an IPv6 address. *)
Example Hashable_family_collision :
  let v4 ip := map to_byte ip in
  let v6 ip := map to_byte ip ++ replicate 12 x00 in
  Hashable (NewIpPortTuple 4 (v4 [10; 0; 0; 1]) 80 (v4 [10; 0; 0; 2]) 81) =
  Hashable (NewIpPortTuple 16 (v6 [10; 0; 0; 1]) 80 (v6 [10; 0; 0; 2]) 81).
Proof. reflexivity. Qed.

(** * CSV (common/csv.go) *)

Definition newline_escaped (field : bytes) : bytes := Replace field x0a (bs "\n").
Definition DumpInCSVFormat (fields : list bytes) (rows : list (list bytes)) : bytes :=
  (match fields with [] => [] | _ => csv_Write (map newline_escaped fields) end) ++
  concat (map (fun row => csv_Write (map (fun f => Replace (newline_escaped f) x0d (bs "\r")) row)) rows).

(** The cases of the package's own test. *)
Example DumpInCSVFormat_ex :
  let nl := [x0a] in let crnl := [x0d; x0a] in
  DumpInCSVFormat [bs "f" ++ nl ++ nl ++ bs "1"; bs "f" ++ nl ++ bs "2"]
    [[bs "11"]; [bs "2" ++ crnl ++ bs "1"; bs "2" ++ crnl ++ bs "2"; bs "23"]] =
  bs "f\n\n1,f\n2" ++ nl ++ bs "11" ++ nl ++ bs "2\r\n1,2\r\n2,23" ++ nl.
Proof. reflexivity. Qed.

(** A replaced byte is gone, if the replacement does not bring it back. *)
Lemma Replace_no_old s old new : Forall (fun b => b <> old) new -> Forall (fun b => b <> old) (Replace s old new).
Proof.
  intros Hn. unfold Replace. induction s as [|b s IH]; cbn; [constructor|]. apply Forall_app. split; [|done].
  destruct (Byte.eqb b old) eqn:E; [done|]. constructor; [|constructor].
  intros ->. by rewrite beqb_refl in E.
Qed.
