(* ===== verification/GoText.v ===== *)
(** More of the Go standard library, for the Thrift plugin: UTF-8 (unicode/utf8),
    quoting of strings (strconv.Quote) and encoding/hex. *)
From S2P Require Export Tuples.

(** * unicode/utf8 *)

Definition cont (b : byte) : bool := bool_decide (128 <= u8 b <= 191).

(** The first rune of [s] and its width; [None] for an invalid encoding or an empty
    string ([RuneError]). *)
Definition DecodeRune (s : bytes) : option (Z * nat) :=
  match s with
  | [] => None
  | b0 :: rest =>
      let c := u8 b0 in
      if decide (c < 128) then Some (c, 1%nat)
      else if decide (194 <= c <= 223) then
        match rest with
        | b1 :: _ => if cont b1 then Some ((c - 192) * 64 + (u8 b1 - 128), 2%nat) else None
        | _ => None
        end
      else if decide (224 <= c <= 239) then
        match rest with
        | b1 :: b2 :: _ =>
            let v := ((c - 224) * 64 + (u8 b1 - 128)) * 64 + (u8 b2 - 128) in
            if cont b1 && cont b2 && bool_decide (2048 <= v /\ ~ (55296 <= v <= 57343)) then Some (v, 3%nat) else None
        | _ => None
        end
      else if decide (240 <= c <= 244) then
        match rest with
        | b1 :: b2 :: b3 :: _ =>
            let v := (((c - 240) * 64 + (u8 b1 - 128)) * 64 + (u8 b2 - 128)) * 64 + (u8 b3 - 128) in
            if cont b1 && cont b2 && cont b3 && bool_decide (65536 <= v <= 1114111) then Some (v, 4%nat) else None
        | _ => None
        end
      else None
  end.

(** The runes of a string with their encodings, [None] when it is not valid UTF-8; a
    rune is at least one byte. *)
Fixpoint runes_go (fuel : nat) (s : bytes) : option (list (Z * bytes)) :=
  match s, fuel with
  | [], _ => Some []
  | _, O => None
  | _, S fuel =>
      '(r, w) ← DecodeRune s; rs ← runes_go fuel (drop w s); Some ((r, take w s) :: rs)
  end.
Definition runes (s : bytes) : option (list (Z * bytes)) := runes_go (length s) s.

Definition ValidString (s : bytes) : bool := match runes s with Some _ => true | None => false end.

(** * strconv.Quote *)

(** The tables of [strconv.IsPrint] outside ASCII. *)
Class PrintTable := unicode_print : Z -> bool.
Definition IsPrint {PT : PrintTable} (r : Z) : bool :=
  if decide (r < 128) then bool_decide (32 <= r < 127) else unicode_print r.

(** [digits] hexadecimal digits of [r]. *)
Fixpoint hex_digits (digits : nat) (r : Z) : bytes :=
  match digits with
  | O => []
  | S n => hexdigit (Z.shiftr r (4 * Z.of_nat n) mod 16) :: hex_digits n r
  end.

Definition quote_rune {PT : PrintTable} (x : Z * bytes) : bytes :=
  let '(r, enc) := x in
  if decide (r = 34 \/ r = 92) then "\"%byte :: enc
  else if IsPrint r then enc
  else if decide (r = 7) then bs "\a"
  else if decide (r = 8) then bs "\b"
  else if decide (r = 12) then bs "\f"
  else if decide (r = 10) then bs "\n"
  else if decide (r = 13) then bs "\r"
  else if decide (r = 9) then bs "\t"
  else if decide (r = 11) then bs "\v"
  else if decide (r < 32) then bs "\x" ++ hex_digits 2 r
  else if decide (r < 65536) then bs "\u" ++ hex_digits 4 r
  else bs "\U" ++ hex_digits 8 r.

(** [strconv.Quote] of a valid string (it is called on no other). *)
Definition Quote {PT : PrintTable} (s : bytes) : bytes :=
  match runes s with
  | Some rs => x22 :: concat (map quote_rune rs) ++ [x22]
  | None => []
  end.

(** [hex.EncodeToString]. *)
Definition EncodeToString (s : bytes) : bytes := concat (map (fun b => hex_digits 2 (u8 b)) s).

(** [strconv.FormatFloat(math.Float64frombits(bits), 'f', -1, 64)], the shortest decimal
    that reads back as the same number. *)
Class FloatText := FormatFloat : Z -> bytes.

(** [common.Bytes_Ntohll] and [binary.BigEndian.Uint64]. *)
Definition Bytes_Ntohll (b : bytes) : outcome Z :=
  let! h := Bytes_Ntohl b in
  let! b4 := at_ b 4 in let! b5 := at_ b 5 in let! b6 := at_ b 6 in let! b7 := at_ b 7 in
  Ret (Z.lor (Z.lor (Z.lor (Z.lor (Z.shiftl h 32) (Z.shiftl (u8 b4) 24)) (Z.shiftl (u8 b5) 16))
                    (Z.shiftl (u8 b6) 8)) (u8 b7)).

Definition be64 (n : Z) : bytes := be32 (Z.shiftr n 32) ++ be32 n.

Lemma hex_digits_length n r : length (hex_digits n r) = n.
Proof. induction n as [|n IH]; cbn; [done|]. by rewrite IH. Qed.

(** Ten is printed in hexadecimal with the digit a. *)
Example quote_demo :
  let _ : PrintTable := fun _ => true in
  Quote [x61; x22; x0a; x01; xc3; xa9; x7f] = [x22; x61; x5c; x22; x5c; x6e; x5c; x78; x30; x31; xc3; xa9; x5c; x75; x30; x30; x37; x66; x22].
Proof. by vm_compute. Qed.
Example utf8_invalid : ValidString [xc0; x80] = false /\ ValidString [xed; xa0; x80] = false /\ ValidString [xf0; x90; x80; x80] = true.
Proof. by vm_compute. Qed.

Lemma Bytes_Ntohll_be64 n s : 0 <= n < 2 ^ 64 -> Bytes_Ntohll (be64 n ++ s) = Ret n.
Proof.
  intros Hn. unfold Bytes_Ntohll, be64. rewrite <- app_assoc, Bytes_Ntohl_be32. cbn [obind].
  unfold be32. cbn [app]. set (l := to_byte (Z.shiftr (Z.shiftr n 32) 24) :: _).
  change (at_ l 4) with (Ret (to_byte (Z.shiftr n 24))). change (at_ l 5) with (Ret (to_byte (Z.shiftr n 16))).
  change (at_ l 6) with (Ret (to_byte (Z.shiftr n 8))). change (at_ l 7) with (Ret (to_byte n)).
  cbn [obind]. f_equal. rewrite !u8_to_byte, !Z.shiftr_div_pow2 by lia.
  rewrite (Z.mod_small (n / 2 ^ 32)) by (split; [apply Z.div_pos; lia|apply Z.div_lt_upper_bound; lia]).
  set (h := n / 2 ^ 32). set (a := n / 2 ^ 24 mod 256). set (b := n / 2 ^ 16 mod 256).
  set (c := n / 2 ^ 8 mod 256). set (d := n mod 256).
  assert (0 <= a < 256 /\ 0 <= b < 256 /\ 0 <= c < 256 /\ 0 <= d < 256) as (Ha & Hb & Hc & Hd)
    by (repeat split; apply Z.mod_pos_bound; lia).
  replace (Z.shiftl b 16) with (Z.shiftl (Z.shiftl b 8) 8) by (by rewrite Z.shiftl_shiftl).
  replace (Z.shiftl a 24) with (Z.shiftl (Z.shiftl (Z.shiftl a 8) 8) 8) by (by rewrite !Z.shiftl_shiftl).
  replace (Z.shiftl h 32) with (Z.shiftl (Z.shiftl (Z.shiftl (Z.shiftl h 8) 8) 8) 8) by (by rewrite !Z.shiftl_shiftl).
  rewrite <- !Z.shiftl_lor, !lor_shiftl_add by lia.
  subst h a b c d. Z.to_euclidean_division_equations. lia.
Qed.
