(* ===== verification/GoUrl.v ===== *)
(** More of the Go 1.4 standard library, for the HTTP plugin: net/url (Parse, ParseQuery,
    Values.Encode), fmt.Sscanf of a hexadecimal number, bytes.Fields and
    strings.SplitN; and that ParseQuery inverts Encode. *)
From S2P Require Export GoText.
From stdpp Require Import list sorting.
#[local] Open Scope Z_scope.

(** * bytes and strings *)

(** [bytes.LastIndex(s, sep)] for a one-byte separator. *)
Fixpoint last_index (s : bytes) (c : byte) (i : Z) (found : Z) : Z :=
  match s with
  | [] => found
  | b :: s => last_index s c (i + 1) (if Byte.eqb b c then i else found)
  end.
Definition LastIndex (s : bytes) (c : byte) : Z := last_index s c 0 (-1).

(** The bytes before the first white space. *)
Fixpoint word (s : bytes) : bytes :=
  match s with
  | [] => []
  | b :: s' => match strip_any space_runes s with Some _ => [] | None => b :: word s' end
  end.

(** [bytes.Fields]: the words, each a slice whose capacity reaches to the end of the
    array (Go 1.4 does not cut it); [after] is what follows [s] in the array. *)
Fixpoint fields_go (fuel : nat) (s after : bytes) : list slice :=
  match fuel with
  | O => []
  | S fuel =>
      let s := strip_all (length s) space_runes s in
      match s with
      | [] => []
      | _ => let rest := drop (length (word s)) s in mkSlice (word s) (rest ++ after) :: fields_go fuel rest after
      end
  end.
Definition Fields (s : slice) : list slice := fields_go (S (length (vis s))) (vis s) (spare s).

(** [strings.SplitN(s, sep, 2)] for a one-byte separator. *)
Definition SplitN2 (s : bytes) (sep : byte) : list bytes :=
  match index_nat s [sep] with
  | Some i => [take i s; drop (S i) s]
  | None => [s]
  end.

(** ** The words of a line of visible ASCII *)

Definition graphic (w : bytes) : Prop := w <> [] /\ forallb (fun b => bool_decide (33 <= u8 b < 127)) w = true.
Definition blank (b : byte) : Prop := b = " "%byte \/ b = x0a.

Lemma strip_graphic b t : bool_decide (33 <= u8 b < 127) = true -> strip_any space_runes (b :: t) = None.
Proof. by destruct b. Qed.

Lemma strip_blank b t : blank b -> strip_any space_runes (b :: t) = Some t.
Proof. by intros [-> | ->]. Qed.

(** A word ends at the end of the text or at a blank. *)
Lemma word_stop w rest : graphic w -> Forall blank (take 1 rest) -> word (w ++ rest) = w.
Proof.
  intros [_ Hw] Hr. induction w as [|b w IH]; cbn [forallb app word] in *.
  - destruct rest as [|b rest]; [done|]. inversion Hr; subst. cbn [word]. by rewrite strip_blank.
  - apply andb_true_iff in Hw as [Hb Hw]. by rewrite strip_graphic, IH.
Qed.

Lemma strip_blanks p w rest n :
  Forall blank p -> (w = [] /\ rest = [] \/ graphic w) -> strip_all (length p + n) space_runes (p ++ w ++ rest) = w ++ rest.
Proof.
  induction 1 as [|b p Hb _ IH]; intros Hw; cbn [length Nat.add app].
  - destruct n; [done|]. destruct Hw as [[-> ->]|[Hne Hw]]; [done|]. destruct w as [|c w]; [done|].
    cbn [forallb] in Hw. apply andb_true_iff in Hw as [Hc _]. cbn [strip_all app]. by rewrite strip_graphic.
  - cbn [strip_all]. rewrite strip_blank by done. by apply IH.
Qed.

(** Words, each after a number of spaces. *)
Definition spaced (l : list (nat * bytes)) : bytes := concat (map (fun x => replicate (fst x) " "%byte ++ snd x) l).

Lemma blanks n : Forall blank (replicate n " "%byte).
Proof. apply Forall_replicate. by left. Qed.

Lemma spaced_start l tail :
  Forall (fun x => (1 <= fst x)%nat) l -> Forall blank tail -> Forall blank (take 1 (spaced l ++ tail)).
Proof.
  intros Hl Ht. destruct l as [|[n w] l]; [by apply Forall_take|]. inversion Hl as [|? ? Hn]; subst. cbn in Hn.
  destruct n as [|n]; [lia|]. cbn. constructor; [by left|constructor].
Qed.

Lemma Fields_spaced d l tail :
  vis d = spaced l ++ tail -> Forall (fun x => graphic (snd x)) l -> Forall (fun x => (1 <= fst x)%nat) (tl l) ->
  Forall blank tail -> map vis (Fields d) = map snd l.
Proof.
  intros E Hg Hn Ht. unfold Fields. rewrite E. clear E. generalize (spare d) as after. intros after.
  assert (length l <= length (spaced l))%nat as Hl.
  { clear Hn. induction Hg as [|[n w] l [Hw _] _ IH]; [done|]. cbn in *. rewrite !length_app. destruct w; [done|]. cbn. unfold spaced in IH. lia. }
  assert (length l < S (length (spaced l ++ tail)))%nat as Hf by (rewrite length_app; lia). clear Hl.
  revert Hf. generalize (S (length (spaced l ++ tail))) as fuel. induction Hg as [|[n w] l Hw Hg IH]; intros fuel Hf.
  - destruct fuel as [|fuel]; [lia|]. cbn [fields_go spaced map concat app].
    pose proof (strip_blanks tail [] [] 0 Ht ltac:(by left)) as H. rewrite Nat.add_0_r, !app_nil_r in H. by rewrite H.
  - destruct fuel as [|fuel]; [cbn in Hf; lia|]. cbn [tl fst snd map] in *.
    assert (spaced ((n, w) :: l) ++ tail = replicate n " "%byte ++ w ++ (spaced l ++ tail)) as ->.
    { unfold spaced. cbn. by rewrite <- !app_assoc. }
    set (rest := spaced l ++ tail) in *. cbn [fields_go].
    assert (strip_all (length (replicate n " "%byte ++ w ++ rest)) space_runes (replicate n " "%byte ++ w ++ rest) = w ++ rest) as ->.
    { rewrite length_app. apply strip_blanks; [apply blanks|by right]. }
    rewrite word_stop by (done || by apply spaced_start). destruct (w ++ rest) eqn:Ew; [by destruct Hw as [Hw _]; destruct w|].
    rewrite <- Ew, drop_app_length. cbn [map vis]. f_equal. apply IH; [by destruct Hn|cbn in Hf; lia].
Qed.

(** * fmt.Sscanf(line, "%x", &n), which reads a line without a CRLF *)

Definition hex_digit (b : byte) : bool := match digit_val b with Some v => bool_decide (v < 16) | None => false end.

Fixpoint take_while (p : byte -> bool) (s : bytes) : bytes :=
  match s with b :: s' => if p b then b :: take_while p s' else [] | [] => [] end.

(** White space other than a newline is skipped, then a sign and digits are read; what
    follows them is left. [None] is an error. *)
Definition Sscanf_hex (line : bytes) : option Z :=
  let s := strip_all (length line) (List.filter (fun r => negb (bool_decide (r = [x0a]))) space_runes) line in
  let '(sign, s) := match s with
                    | c :: s' => if in_set (bs "+-") c then ([c], s') else ([], s)
                    | [] => ([], [])
                    end in
  let digits := take_while hex_digit s in
  match digits with
  | [] => None
  | _ => match ParseInt (sign ++ digits) 16 64 with (n, None) => Some n | _ => None end
  end.

(** * net/url *)

(** [url.Values]. *)
Abbreviation Values := (gmap bytes (list bytes)).

(** [unescape]; [query] is the mode [encodeQueryComponent]. *)
Fixpoint unescape (query : bool) (s : bytes) : option bytes :=
  match s with
  | [] => Some []
  | c :: s' =>
      if Byte.eqb c "%" then
        match s' with
        | h :: l :: s'' =>
            if hex_digit h && hex_digit l then
              match digit_val h, digit_val l with
              | Some h, Some l => cons (to_byte (h * 16 + l)) <$> unescape query s''
              | _, _ => None
              end
            else None
        | _ => None
        end
      else if query && Byte.eqb c "+" then cons " "%byte <$> unescape query s'
      else cons c <$> unescape query s'
  end.
Definition QueryUnescape : bytes -> option bytes := unescape true.

(** [shouldEscape] of a byte in a query component. *)
Definition unreserved (b : byte) : bool :=
  let c := u8 b in
  bool_decide (97 <= c <= 122 \/ 65 <= c <= 90 \/ 48 <= c <= 57) || in_set (bs "-_.~") b.
Definition upper_hex (z : Z) : byte := nth (Z.to_nat z) (bs "0123456789ABCDEF") "0"%byte.
Definition escape_byte (b : byte) : bytes :=
  if Byte.eqb b " " then bs "+"
  else if unreserved b then [b]
  else ["%"%byte; upper_hex (u8 b / 16); upper_hex (u8 b mod 16)].
Definition QueryEscape (s : bytes) : bytes := concat (map escape_byte s).

(** [split(s, c, cutc)]. *)
Definition url_split (s : bytes) (c : byte) (cutc : bool) : bytes * bytes :=
  match index_nat s [c] with
  | Some i => (take i s, drop (if cutc then S i else i) s)
  | None => (s, [])
  end.

(** The key and the value of one pair of a query. *)
Definition pair_of (s : bytes) : option (bytes * bytes) :=
  let '(k, v) := url_split s "=" true in
  k ← QueryUnescape k; v ← QueryUnescape v; Some (k, v).

(** [m.Add(key, value)]. *)
Definition Add (m : Values) (x : bytes * bytes) : Values := <[fst x := default [] (m !! fst x) ++ [snd x]]> m.

(** The text up to the first ampersand or semicolon. *)
Fixpoint pairs (s : bytes) : list bytes :=
  match s with
  | [] => [[]]
  | b :: s' =>
      if in_set (bs "&;") b then [] :: pairs s'
      else match pairs s' with w :: ws => (b :: w) :: ws | [] => [[b]] end
  end.

(** [url.ParseQuery]: the pairs that can be read, and whether one could not. *)
Definition parse_pair (x : Values * bool) (s : bytes) : Values * bool :=
  match s with
  | [] => x
  | _ => match pair_of s with Some kv => (Add (fst x) kv, snd x) | None => (fst x, true) end
  end.
Definition ParseQuery (query : bytes) : Values * bool := foldl parse_pair (∅, false) (pairs query).

(** [v.Encode()]: the keys in the order of their bytes. *)
Fixpoint bytes_le (a b : bytes) : bool :=
  match a, b with
  | [], _ => true
  | _ :: _, [] => false
  | x :: a', y :: b' => if decide (u8 x = u8 y) then bytes_le a' b' else bool_decide (u8 x < u8 y)
  end.
Definition key_le (x y : bytes * list bytes) : Prop := bytes_le (fst x) (fst y) = true.
#[export] Instance key_le_dec x y : Decision (key_le x y).
Proof. unfold key_le. apply _. Defined.

Definition encode_key (x : bytes * list bytes) : list bytes :=
  map (fun v => QueryEscape (fst x) ++ "="%byte :: QueryEscape v) (snd x).
Definition Encode (v : Values) : bytes :=
  GoStd.Join (concat (map encode_key (merge_sort key_le (map_to_list v)))) (bs "&").

(** [getscheme]: the scheme and the rest, or an error. *)
Fixpoint getscheme_go (rawurl : bytes) (i : nat) (s : bytes) : option (bytes * bytes) :=
  match s with
  | [] => Some ([], rawurl)
  | b :: s' =>
      let c := u8 b in
      if decide (97 <= c <= 122 \/ 65 <= c <= 90) then getscheme_go rawurl (S i) s'
      else if bool_decide (48 <= c <= 57) || in_set (bs "+-.") b then
        match i with O => Some ([], rawurl) | _ => getscheme_go rawurl (S i) s' end
      else if Byte.eqb b ":" then
        match i with O => None | _ => Some (take i rawurl, s') end
      else Some ([], rawurl)
  end.
Definition getscheme (rawurl : bytes) : option (bytes * bytes) := getscheme_go rawurl 0 rawurl.

(** The host of an authority, [None] when the user information cannot be unescaped. *)
Definition parseAuthority (authority : bytes) : option bytes :=
  let i := LastIndex authority "@" in
  if decide (i < 0) then Some authority
  else
    let userinfo := take (Z.to_nat i) authority in
    let host := drop (Z.to_nat (i + 1)) authority in
    if Contains userinfo (bs ":") then
      let '(user, password) := url_split userinfo ":" true in
      _ ← unescape false user; _ ← unescape false password; Some host
    else _ ← unescape false userinfo; Some host.

(** [url.Parse]: the path and the raw query, [None] for an error. *)
Definition parse_url (rawurl : bytes) : option (bytes * bytes) :=
  if decide (rawurl = bs "*") then Some (bs "*", [])
  else
    '(scheme, rest) ← getscheme rawurl;
    let '(rest, query) := url_split rest "?" true in
    if negb (has_prefix (bs "/") rest) && negb (bool_decide (scheme = [])) then Some ([], query)
    else
      rest ← (if (negb (bool_decide (scheme = [])) || negb (has_prefix (bs "///") rest)) && has_prefix (bs "//") rest
              then
                let '(authority, rest) := url_split (drop 2 rest) "/" false in
                host ← parseAuthority authority;
                if Contains host (bs "%") then None else Some rest
              else Some rest);
      path ← unescape false rest;
      Some (path, query).
Definition UrlParse (rawurl : bytes) : option (bytes * bytes) :=
  let '(u, frag) := url_split rawurl "#" true in
  x ← parse_url u;
  _ ← unescape false frag;
  Some x.

Example url_demo : UrlParse (bs "http://u:p@h/a%20b?x=1#f") = Some (bs "/a b", bs "x=1").
Proof. by vm_compute. Qed.
Example query_demo :
  Encode (fst (ParseQuery (bs "b=2&a=x+y%26&b=3;c"))) = bs "a=x+y%26&b=2&b=3&c=".
Proof. by vm_compute. Qed.
Example scan_demo :
  Sscanf_hex (bs " -1Fg") = Some (-31) /\ Sscanf_hex (bs "zz") = None /\
  map vis (Fields (mkSlice (bs " GET  /a HTTP/1.1") [])) = [bs "GET"; bs "/a"; bs "HTTP/1.1"].
Proof. by vm_compute. Qed.

(** * ParseQuery inverts Encode *)

Lemma unescape_byte b t : unescape true (escape_byte b ++ t) = cons b <$> unescape true t.
Proof. by destruct b. Qed.

Lemma QueryUnescape_escape s : QueryUnescape (QueryEscape s) = Some s.
Proof.
  unfold QueryUnescape, QueryEscape. induction s as [|b s IH]; [done|]. cbn [map concat].
  by rewrite unescape_byte, IH.
Qed.

Definition separator (b : byte) : bool := in_set (bs "&;=") b.

Lemma QueryEscape_plain s : forallb (fun b => negb (separator b)) (QueryEscape s) = true.
Proof.
  unfold QueryEscape. induction s as [|b s IH]; [done|]. cbn [map concat]. rewrite forallb_app, IH, andb_true_r.
  by destruct b.
Qed.

(** A key and a value as [Encode] writes them. *)
Definition encode_pair (x : bytes * bytes) : bytes := QueryEscape (fst x) ++ "="%byte :: QueryEscape (snd x).

Lemma index_first s c t : forallb (fun b => negb (Byte.eqb b c)) s = true -> index_nat (s ++ c :: t) [c] = Some (length s).
Proof.
  induction s as [|b s IH]; cbn [app index_nat has_prefix forallb length].
  - by rewrite beqb_refl.
  - intros [Hb Hs]%andb_true_iff. apply negb_true_iff in Hb.
    assert (Byte.eqb c b = false) as -> by (destruct (Byte.eqb c b) eqn:E; [apply beqb_eq in E; subst; by rewrite beqb_refl in Hb|done]).
    cbn [andb]. by rewrite (IH Hs).
Qed.

Lemma pair_of_encode x : pair_of (encode_pair x) = Some x.
Proof.
  destruct x as [k v]. unfold pair_of, encode_pair, url_split. cbn [fst snd].
  rewrite index_first.
  - rewrite take_app_length. assert (S (length (QueryEscape k)) = length (QueryEscape k ++ bs "=")) as ->
      by (rewrite length_app; cbn; lia).
    assert (QueryEscape k ++ "="%byte :: QueryEscape v = (QueryEscape k ++ bs "=") ++ QueryEscape v) as ->
      by (by rewrite <- app_assoc).
    rewrite drop_app_length, !QueryUnescape_escape. done.
  - pose proof (QueryEscape_plain k) as H. rewrite forallb_forall in *. intros b Hb. specialize (H b Hb).
    unfold separator, in_set in H. cbn in H. rewrite negb_true_iff in *. by destruct b.
Qed.

Lemma pairs_plain s : existsb (in_set (bs "&;")) s = false -> pairs s = [s].
Proof.
  induction s as [|b s IH]; [done|]. cbn [existsb pairs]. intros [-> Hs]%orb_false_iff. by rewrite IH.
Qed.

Lemma pairs_app s t : existsb (in_set (bs "&;")) s = false -> pairs (s ++ "&"%byte :: t) = s :: pairs t.
Proof.
  induction s as [|b s IH]; [done|]. cbn [existsb pairs app]. intros [-> Hs]%orb_false_iff. by rewrite IH.
Qed.

Lemma encode_pair_plain x : existsb (in_set (bs "&;")) (encode_pair x) = false /\ encode_pair x <> [].
Proof.
  destruct x as [k v]. unfold encode_pair. cbn [fst snd]. split; [|by destruct (QueryEscape k)].
  pose proof (QueryEscape_plain k) as Hk. pose proof (QueryEscape_plain v) as Hv.
  destruct (existsb _ _) eqn:E; [|done]. apply existsb_exists in E as (b & Hb & Hin).
  rewrite forallb_forall in Hk, Hv. apply in_app_or in Hb as [Hb|[<-|Hb]]; [apply Hk in Hb|done|apply Hv in Hb]; by destruct b.
Qed.

(** The pairs of a list that [Encode] has written. *)
Lemma parse_pairs_encode l m :
  foldl parse_pair (m, false) (pairs (GoStd.Join (map encode_pair l) (bs "&"))) = (foldl Add m l, false).
Proof.
  revert m. induction l as [|x l IH]; intros m; [done|].
  destruct (encode_pair_plain x) as [Hp Hn].
  assert (forall m, parse_pair (m, false) (encode_pair x) = (Add m x, false)) as Hx.
  { intros m'. unfold parse_pair. destruct (encode_pair x) eqn:E; [done|]. rewrite <- E, pair_of_encode. done. }
  destruct l as [|y l].
  - cbn [map GoStd.Join]. rewrite pairs_plain by done. cbn [foldl]. by rewrite Hx.
  - change (GoStd.Join (map encode_pair (x :: y :: l)) (bs "&"))
      with (encode_pair x ++ "&"%byte :: GoStd.Join (map encode_pair (y :: l)) (bs "&")).
    rewrite pairs_app by done. cbn [foldl]. by rewrite Hx, IH.
Qed.

Lemma Add_key m k vs : vs <> [] -> foldl Add m (map (pair k) vs) = <[k := default [] (m !! k) ++ vs]> m.
Proof.
  revert m. induction vs as [|v vs IH]; intros m Hne; [done|]. cbn [map foldl]. unfold Add at 2. cbn [fst snd].
  destruct vs as [|w vs]; [done|]. rewrite IH by done. rewrite lookup_insert_eq, insert_insert_eq.
  change (default [] (Some ?x)) with x. by rewrite <- app_assoc.
Qed.

Lemma Add_keys (l : list (bytes * list bytes)) m :
  NoDup l.*1 -> Forall (fun x => snd x <> [] /\ m !! fst x = None) l ->
  foldl Add m (concat (map (fun x => map (pair (fst x)) (snd x)) l)) = list_to_map l ∪ m.
Proof.
  revert m. induction l as [|[k vs] l IH]; intros m Hd Hl; [symmetry; apply (left_id_L ∅ (∪))|].
  apply Forall_cons_1 in Hl as [[Hne Hk] Hl]. apply NoDup_cons in Hd as [Hnew Hd]. cbn [map concat fst snd].
  rewrite foldl_app, Add_key by done. cbn in Hk. rewrite Hk. change (default [] None ++ vs) with vs. rewrite IH; [|done|].
  - cbn [list_to_map fst snd]. apply not_elem_of_list_to_map_1 in Hnew.
    rewrite <- insert_union_r by done. by rewrite insert_union_l.
  - rewrite Forall_forall in *. intros [k' vs'] Hin. specialize (Hl _ Hin) as [Hl1 Hl2]. split; [done|]. cbn in *.
    rewrite lookup_insert_ne; [done|]. intros ->. apply Hnew. apply list_elem_of_fmap. by exists (k', vs').
Qed.

Lemma encode_keys l :
  concat (map encode_key l) = map encode_pair (concat (map (fun x : bytes * list bytes => map (pair (fst x)) (snd x)) l)).
Proof.
  induction l as [|[k vs] l IH]; [done|]. cbn [map concat]. rewrite map_app, IH. f_equal.
  unfold encode_key. cbn [fst snd]. by rewrite map_map.
Qed.

Lemma ParseQuery_Encode v : map_Forall (fun _ vs => vs <> []) v -> ParseQuery (Encode v) = (v, false).
Proof.
  intros Hv. unfold ParseQuery, Encode. rewrite encode_keys, parse_pairs_encode. f_equal.
  set (l := merge_sort _ _). assert (l ≡ₚ map_to_list v) as Hl by apply merge_sort_Permutation.
  rewrite Add_keys.
  - rewrite (right_id_L ∅ (∪)). rewrite (list_to_map_proper l (map_to_list v)); [apply list_to_map_to_list| |done].
    rewrite Hl. apply NoDup_fst_map_to_list.
  - rewrite Hl. apply NoDup_fst_map_to_list.
  - apply Forall_forall. intros [k vs] Hin. rewrite Hl in Hin. apply elem_of_map_to_list in Hin. split; [by apply (Hv k)|done].
Qed.
