(* ===== verification/Protos.v ===== *)
(** Package [protos] (src/protos/protos.go): packets, protocol identifiers, the
    plugin interface and the plugin registry; and the interface through which
    the protocols ask package [procs] for process names. *)
From S2P Require Export Tuples.

(** * Packets *)

Record Packet := { pk_Ts : Z; pk_Tuple : IpPortTuple; pk_Payload : slice }.

(** * Protocol identifiers *)

Definition UnknownProtocol : Z := 0.
Definition HttpProtocol : Z := 1.
Definition MysqlProtocol : Z := 2.
Definition RedisProtocol : Z := 3.
Definition PgsqlProtocol : Z := 4.
Definition ThriftProtocol : Z := 5.

Definition ProtocolNames : list bytes :=
  [bs "unknown"; bs "http"; bs "mysql"; bs "redis"; bs "pgsql"; bs "thrift"].

(** [Protocol.String]; a [Protocol] is a [uint16]. *)
Definition Protocol_String (p : Z) : outcome bytes :=
  if decide (len ProtocolNames <= p) then Ret (bs "impossible") else at_ ProtocolNames p.

(** * Plugins *)

(** [Data] is the protocols' private data ([ProtocolData], [None] is nil) and
    [St] the state that the plugins mutate.  A panic keeps the mutations. *)
Record ProtocolPlugin (St Data : Type) := {
  GetPorts : list Z;
  Parse : Packet -> TcpTuple -> Z -> option Data -> St -> outcome (option Data) * St;
  ReceivedFin : TcpTuple -> Z -> option Data -> St -> outcome (option Data) * St;
  GapInStream : TcpTuple -> Z -> option Data -> St -> outcome (option Data) * St
}.
Arguments GetPorts {St Data} p.
Arguments Parse {St Data} p.
Arguments ReceivedFin {St Data} p.
Arguments GapInStream {St Data} p.

(** [Protocols.protos] with [Get], [GetAll] and [Register]. *)
Abbreviation Protocols St Data := (gmap Z (ProtocolPlugin St Data)).

Definition Get {St Data} (protocols : Protocols St Data) (proto : Z) : option (ProtocolPlugin St Data) :=
  protocols !! proto.
Definition GetAll {St Data} (protocols : Protocols St Data) : Protocols St Data := protocols.
Definition Register {St Data} (protocols : Protocols St Data) (proto : Z)
    (plugin : ProtocolPlugin St Data) : Protocols St Data :=
  <[proto := plugin]> protocols.

(** * Process lookup *)

(** [procs.ProcWatcher.FindProcessesTuple]: reads and may refresh the watcher's
    state [W]; it never panics (it has its own recover) and never returns nil. *)
Class ProcWatcher (W : Type) :=
  FindProcessesTuple : IpPortTuple -> W -> CmdlineTuple * W.

(** * Directions (src/protos/tcp/tcp.go) *)

Definition TcpDirectionReverse : Z := 0.
Definition TcpDirectionOriginal : Z := 1.
Definition TCP_MAX_DATA_IN_STREAM : Z := 10 * 1000000.

(** A [[2]*Stream] of private data: one optional stream per direction. *)
Record pair2 (A : Type) := { dir0 : option A; dir1 : option A }.
Arguments dir0 {A} p.
Arguments dir1 {A} p.

Definition nil2 {A} : pair2 A := {| dir0 := None; dir1 := None |}.

(** [priv.Data[dir]] and its assignment; an index other than 0 and 1 panics. *)
Definition get2 {A} (p : pair2 A) (dir : Z) : outcome (option A) :=
  if decide (dir = 0) then Ret (dir0 p) else if decide (dir = 1) then Ret (dir1 p) else Panic.
Definition set2 {A} (p : pair2 A) (dir : Z) (v : option A) : pair2 A :=
  if decide (dir = 0) then {| dir0 := v; dir1 := dir1 p |}
  else if decide (dir = 1) then {| dir0 := dir0 p; dir1 := v |} else p.

Definition valid_dir (dir : Z) : Prop := dir = 0 \/ dir = 1.

Lemma get_set2 {A} (p : pair2 A) dir v : valid_dir dir -> get2 (set2 p dir v) dir = Ret v.
Proof. by intros [-> | ->]. Qed.

Lemma get_set2_other {A} (p : pair2 A) dir v :
  valid_dir dir -> get2 (set2 p dir v) (1 - dir) = get2 p (1 - dir).
Proof. by intros [-> | ->]. Qed.

Lemma set_set2 {A} (p : pair2 A) dir v w : set2 (set2 p dir v) dir w = set2 p dir w.
Proof. unfold set2. by repeat case_decide. Qed.

(** The transaction timeouts of the protocols are 10 seconds; the sizes given to
    [make(map...)] are hints, written [2 ^ 16] in the source, where [^] is
    Go's exclusive or. *)
Definition TransactionTimeout : Z := 10 * 1000000000.
Definition TransactionsHashSize : Z := Z.lxor 2 16.

(** The rightmost part of every protocol's transaction: the two endpoints, swapped
    when the message travels in the reverse direction. *)
Definition src_endpoint (t : TcpTuple) (c : CmdlineTuple) : Endpoint :=
  mkEndpoint (ip_String (tt_Src_ip t)) (tt_Src_port t) (ct_Src c).
Definition dst_endpoint (t : TcpTuple) (c : CmdlineTuple) : Endpoint :=
  mkEndpoint (ip_String (tt_Dst_ip t)) (tt_Dst_port t) (ct_Dst c).
Definition endpoints (t : TcpTuple) (c : CmdlineTuple) (dir : Z) : Endpoint * Endpoint :=
  if decide (dir = TcpDirectionReverse) then (dst_endpoint t c, src_endpoint t c)
  else (src_endpoint t c, dst_endpoint t c).

(** * Rows of result sets *)

(** The values of a row cut to [limit] bytes in total: the value that crosses the
    limit is shortened and the ones after it are left out. *)
Fixpoint cut_row (limit used : Z) (values : list bytes) : list bytes :=
  match values with
  | [] => []
  | v :: vs =>
      if decide (used < limit) then
        let v := take (Z.to_nat (limit - used)) v in v :: cut_row limit (used + len v) vs
      else []
  end.

(** * Concrete parameters for examples: ASCII case mapping only, an [append] that
    allocates exactly what it needs, and a process watcher that finds nothing. *)
Module Demo.
Definition unicode : Unicode := {| unicode_upper := id; unicode_lower := id |}.
Definition runtime : Runtime := fun _ need => need.
Definition watcher : ProcWatcher unit := fun _ w => ({| ct_Src := []; ct_Dst := [] |}, w).
Definition ip (a b c d : Z) : bytes := map to_byte [a; b; c; d].
Definition ipport : IpPortTuple := NewIpPortTuple 4 (ip 10 0 0 1) 40000 (ip 10 0 0 2) 6379.
Definition tuple : TcpTuple := TcpTupleFromIpPort ipport 1.
Definition packet (ts : Z) (payload : bytes) : Packet :=
  {| pk_Ts := ts; pk_Tuple := ipport; pk_Payload := mkSlice payload [] |}.
End Demo.
