(* ===== verification/Tcp.v ===== *)
(** The TCP layer (src/protos/tcp/tcp.go): from decoded packets to the streams of a
    protocol plugin.  Streams are shared between the streams map and the expiry
    timers, so they live in a heap indexed by pointers. *)
From S2P Require Export Protos.

(** * Sequence numbers *)

Definition TcpSeqBefore (seq1 seq2 : Z) : bool :=
  bool_decide (int32_of (uint32_of (seq1 - seq2)) < 0).
Definition TcpSeqBeforeEq (seq1 seq2 : Z) : bool :=
  bool_decide (int32_of (uint32_of (seq1 - seq2)) <= 0).

Definition TCP_STREAM_EXPIRY : Z := 10 * 1000000000.
Definition TCP_STREAM_HASH_SIZE : Z := Z.lxor 2 16.

(** * Ports *)

(** A port map under construction: [inr] is the error of a port claimed twice. *)
Inductive port_error := DuplicatePort (port old_proto proto : Z).

Fixpoint add_ports (proto : Z) (ports : list Z) (res : gmap Z Z) : gmap Z Z + port_error :=
  match ports with
  | [] => inl res
  | port :: ports' =>
      match res !! uint16_of port with
      | Some old_proto =>
          if decide (old_proto = proto) then add_ports proto ports' res
          else inr (DuplicatePort port old_proto proto)
      | None => add_ports proto ports' (<[uint16_of port := proto]> res)
      end
  end.

(** [buildPortsMap]; the range over the plugins map visits the protocols in an order
    that Go leaves open, here the order of the list [(proto, ports)]. *)
Fixpoint buildPortsMap_from (plugins : list (Z * list Z)) (res : gmap Z Z) : gmap Z Z + port_error :=
  match plugins with
  | [] => inl res
  | (proto, ports) :: plugins' =>
      match add_ports proto ports res with
      | inl res' => buildPortsMap_from plugins' res'
      | inr e => inr e
      end
  end.
Definition buildPortsMap (plugins : list (Z * list Z)) : gmap Z Z + port_error :=
  buildPortsMap_from plugins ∅.

Definition BpfFilter (plugins : list (Z * list Z)) : bytes :=
  Join (concat (map (fun p => map (fun port => bs "port " ++ Itoa port) (snd p)) plugins))
       (bs " or ").

Definition decideProtocol (tcpPortMap : gmap Z Z) (tuple : IpPortTuple) : Z :=
  match tcpPortMap !! it_Src_port tuple with
  | Some protocol => protocol
  | None =>
      match tcpPortMap !! it_Dst_port tuple with
      | Some protocol => protocol
      | None => UnknownProtocol
      end
  end.

(** * Streams *)

(** The fields of the TCP header ([layers.TCP]) that the program reads. *)
Record TCPHeader := { hdr_Seq : Z; hdr_FIN : bool; hdr_SrcPort : Z; hdr_DstPort : Z }.

Abbreviation ptr := nat.

Section Tcp.
Context {St Data : Type}.

Record TcpStream := {
  ts_id : Z;
  ts_tuple : IpPortTuple;
  ts_protocol : Z;
  ts_tcptuple : TcpTuple;
  ts_lastSeq0 : Z;                (* lastSeq[TcpDirectionReverse] *)
  ts_lastSeq1 : Z;                (* lastSeq[TcpDirectionOriginal] *)
  ts_Data : option Data
}.
#[local] Instance eta_TcpStream : Settable TcpStream := fun r =>
  {| ts_id := ts_id r; ts_tuple := ts_tuple r; ts_protocol := ts_protocol r;
     ts_tcptuple := ts_tcptuple r; ts_lastSeq0 := ts_lastSeq0 r; ts_lastSeq1 := ts_lastSeq1 r;
     ts_Data := ts_Data r |}.

(** The package variables, the heap of streams, the streams whose timer is running
    (a stream has at most one), and the plugins' own state. *)
Record Tcp := {
  tcp_id : Z;                               (* __id *)
  tcpStreamsMap : gmap bytes ptr;
  tcpPortMap : gmap Z Z;
  heap : gmap ptr TcpStream;
  timers : gset ptr;
  protos : Protocols St Data;
  plugins : St
}.
#[local] Instance eta_Tcp : Settable Tcp := fun r =>
  {| tcp_id := tcp_id r; tcpStreamsMap := tcpStreamsMap r; tcpPortMap := tcpPortMap r;
     heap := heap r; timers := timers r; protos := protos r; plugins := plugins r |}.

Definition GetId (tcp : Tcp) : Z * Tcp :=
  let id := uint32_of (tcp_id tcp + 1) in (id, tcp <| tcp_id := id |>).

Definition lastSeq (s : TcpStream) (dir : Z) : Z :=
  if decide (dir = TcpDirectionReverse) then ts_lastSeq0 s else ts_lastSeq1 s.
Definition set_lastSeq (s : TcpStream) (dir seq : Z) : TcpStream :=
  if decide (dir = TcpDirectionReverse) then s <| ts_lastSeq0 := seq |> else s <| ts_lastSeq1 := seq |>.

Definition store (tcp : Tcp) (p : ptr) (s : TcpStream) : Tcp :=
  tcp <| heap := <[p := s]> (heap tcp) |>.

(** [stream.Data = mod.f(...)]: the assignment happens only if [f] returns. *)
Definition assign_data (tcp : Tcp) (p : ptr) (s : TcpStream)
    (r : outcome (option Data) * St) : outcome unit * Tcp :=
  let tcp := tcp <| plugins := snd r |> in
  match fst r with
  | Ret d => (Ret tt, store tcp p (s <| ts_Data := d |>))
  | Panic => (Panic, tcp)
  | OutOfFuel => (OutOfFuel, tcp)
  end.

(** [AddPacket]: rearm the timer, hand the payload to the plugin, then the FIN. *)
Definition AddPacket (tcp : Tcp) (p : ptr) (stream : TcpStream) (pkt : Packet)
    (tcphdr : TCPHeader) (original_dir : Z) : outcome unit * Tcp :=
  let tcp := tcp <| timers := {[p]} ∪ timers tcp |> in
  match Get (protos tcp) (ts_protocol stream) with
  | None => (Ret tt, tcp)
  | Some plugin =>
      let r :=
        if decide (len (vis (pk_Payload pkt)) > 0) then
          assign_data tcp p stream
            (Parse plugin pkt (ts_tcptuple stream) original_dir (ts_Data stream) (plugins tcp))
        else (Ret tt, tcp) in
      match r with
      | (Ret _, tcp) =>
          match heap tcp !! p with
          | Some stream =>
              if hdr_FIN tcphdr then
                assign_data tcp p stream
                  (ReceivedFin plugin (ts_tcptuple stream) original_dir (ts_Data stream) (plugins tcp))
              else (Ret tt, tcp)
          | None => (Panic, tcp)
          end
      | r => r
      end
  end.

(** [stream.GapInStream]: a nil module is a nil dereference. *)
Definition StreamGap (tcp : Tcp) (p : ptr) (stream : TcpStream) (original_dir : Z)
    : outcome unit * Tcp :=
  match Get (protos tcp) (ts_protocol stream) with
  | None => (Panic, tcp)
  | Some plugin =>
      assign_data tcp p stream
        (GapInStream plugin (ts_tcptuple stream) original_dir (ts_Data stream) (plugins tcp))
  end.

Definition Expire (tcp : Tcp) (p : ptr) : Tcp :=
  match heap tcp !! p with
  | Some stream =>
      store (tcp <| tcpStreamsMap := delete (Hashable (ts_tuple stream)) (tcpStreamsMap tcp) |>)
            p (stream <| ts_Data := None |>)
  | None => tcp
  end.

(** The stream of a packet: (pointer, direction, created), or none to follow. *)
Definition findStream (tcp : Tcp) (pkt : Packet) : option (ptr * Z * bool) * Tcp :=
  match tcpStreamsMap tcp !! Hashable (pk_Tuple pkt) with
  | Some p => (Some (p, TcpDirectionOriginal, false), tcp)
  | None =>
      match tcpStreamsMap tcp !! RevHashable (pk_Tuple pkt) with
      | Some p => (Some (p, TcpDirectionReverse, false), tcp)
      | None =>
          let protocol := decideProtocol (tcpPortMap tcp) (pk_Tuple pkt) in
          if decide (protocol = UnknownProtocol) then (None, tcp)
          else
            let '(id, tcp) := GetId tcp in
            let p := fresh (dom (heap tcp)) in
            let stream := {| ts_id := id; ts_tuple := pk_Tuple pkt; ts_protocol := protocol;
                             ts_tcptuple := TcpTupleFromIpPort (pk_Tuple pkt) id;
                             ts_lastSeq0 := 0; ts_lastSeq1 := 0; ts_Data := None |} in
            (Some (p, TcpDirectionOriginal, true),
             store tcp p stream
               <| tcpStreamsMap := <[Hashable (pk_Tuple pkt) := p]> (tcpStreamsMap tcp) |>)
      end
  end.

(** The part of [FollowTcp] after the stream is known. *)
Definition followStream (tcp : Tcp) (p : ptr) (stream : TcpStream) (original_dir : Z) (created : bool)
    (tcphdr : TCPHeader) (pkt : Packet) : outcome unit * Tcp :=
  let tcp_start_seq := hdr_Seq tcphdr in
  let tcp_seq := uint32_of (tcp_start_seq + uint32_of (len (vis (pk_Payload pkt)))) in
  let last := lastSeq stream original_dir in
  let checked := bool_decide (len (vis (pk_Payload pkt)) > 0) && negb (bool_decide (last = 0)) in
  if checked && TcpSeqBeforeEq tcp_seq last then (Ret tt, tcp)
  else if checked && TcpSeqBefore last tcp_start_seq && negb created then
    match StreamGap tcp p stream original_dir with
    | (Ret _, tcp) => (Ret tt, Expire tcp p)
    | r => r
    end
  else
    let stream := set_lastSeq stream original_dir tcp_seq in
    AddPacket (store tcp p stream) p stream pkt tcphdr original_dir.

(** [FollowTcp]: panics of the plugins end here ([logp.Recover]). *)
Definition FollowTcp (tcp : Tcp) (tcphdr : TCPHeader) (pkt : Packet) : outcome Tcp :=
  match findStream tcp pkt with
  | (None, tcp) => Ret tcp
  | (Some (p, original_dir, created), tcp) =>
      match heap tcp !! p with
      | None => Ret tcp
      | Some stream =>
          match followStream tcp p stream original_dir created tcphdr pkt with
          | (OutOfFuel, _) => OutOfFuel
          | (_, tcp) => Ret tcp
          end
      end
  end.

(** A timer fires: it is no longer running, and its function is [stream.Expire]. *)
Definition fireTimer (tcp : Tcp) (p : ptr) : Tcp :=
  if decide (p ∈ timers tcp) then Expire (tcp <| timers := timers tcp ∖ {[p]} |>) p else tcp.

Definition TcpInit (tcp : Tcp) (order : list (Z * list Z)) : Tcp + port_error :=
  match buildPortsMap order with
  | inl m => inl (tcp <| tcpPortMap := m |>)
  | inr e => inr e
  end.

(** * Decoding *)

Inductive LayerType :=
| LayerTypeIPv4 | LayerTypeIPv6 | LayerTypeTCP | LayerTypePayload | LayerTypeOther.

(** What gopacket's [DecodeLayers] leaves in the decoder: the layers found, in
    order, and the contents of each kind of layer. *)
Record Layers := {
  l_decoded : list LayerType;
  l_ip4_Src : bytes; l_ip4_Dst : bytes;
  l_ip6_Src : bytes; l_ip6_Dst : bytes;
  l_tcp : TCPHeader;
  l_payload : slice
}.

Definition empty_packet : Packet :=
  {| pk_Ts := 0;
     pk_Tuple := {| it_Ip_length := 0; it_Src_ip := []; it_Dst_ip := []; it_Src_port := 0;
                    it_Dst_port := 0; it_raw := replicate 36 x00; it_revRaw := replicate 36 x00 |};
     pk_Payload := mkSlice [] [] |}.

(** One turn of the loop over the decoded layers: (packet, has_tcp). *)
Definition add_layer (d : Layers) (acc : Packet * bool) (ty : LayerType) : Packet * bool :=
  let '(packet, has_tcp) := acc in
  let tuple := pk_Tuple packet in
  match ty with
  | LayerTypeIPv4 =>
      ({| pk_Ts := pk_Ts packet; pk_Payload := pk_Payload packet;
          pk_Tuple := tuple <| it_Src_ip := l_ip4_Src d |> <| it_Dst_ip := l_ip4_Dst d |>
                            <| it_Ip_length := 4 |> |}, has_tcp)
  | LayerTypeIPv6 =>
      ({| pk_Ts := pk_Ts packet; pk_Payload := pk_Payload packet;
          pk_Tuple := tuple <| it_Src_ip := l_ip6_Src d |> <| it_Dst_ip := l_ip6_Dst d |>
                            <| it_Ip_length := 16 |> |}, has_tcp)
  | LayerTypeTCP =>
      ({| pk_Ts := pk_Ts packet; pk_Payload := pk_Payload packet;
          pk_Tuple := tuple <| it_Src_port := uint16_of (hdr_SrcPort (l_tcp d)) |>
                            <| it_Dst_port := uint16_of (hdr_DstPort (l_tcp d)) |> |}, true)
  | LayerTypePayload =>
      ({| pk_Ts := pk_Ts packet; pk_Payload := l_payload d; pk_Tuple := tuple |}, has_tcp)
  | LayerTypeOther => acc
  end.

(** [DecodePacketData]; [decode] is the parser's [DecodeLayers], [None] its error,
    and [ts] the capture timestamp. *)
Definition DecodePacketData (decode : bytes -> option Layers) (tcp : Tcp) (data : bytes) (ts : Z)
    : outcome Tcp :=
  match decode data with
  | None => Ret tcp
  | Some d =>
      let '(packet, has_tcp) := foldl (add_layer d) (empty_packet, false) (l_decoded d) in
      if negb has_tcp then Ret tcp
      else if bool_decide (len (vis (pk_Payload packet)) = 0) && negb (hdr_FIN (l_tcp d)) then Ret tcp
      else
        let packet := {| pk_Ts := ts; pk_Payload := pk_Payload packet;
                         pk_Tuple := ComputeHashebles (pk_Tuple packet) |} in
        FollowTcp tcp (l_tcp d) packet
  end.

End Tcp.
Arguments TcpStream : clear implicits.
Arguments Tcp : clear implicits.
Arguments TcpDirectionReverse /.
Arguments TcpDirectionOriginal /.

(** * Sequence arithmetic *)

Lemma seq_before_iff seq1 d k :
  0 <= k <= 1 -> - 2 ^ 31 < d < 2 ^ 31 ->
  (int32_of (uint32_of (uint32_of (seq1 + d) - seq1)) < k) <-> d < k.
Proof.
  intros Hk Hd. assert (int32_of (uint32_of (uint32_of (seq1 + d) - seq1)) = d) as ->; [|done].
  unfold wrapU, wrapS. rewrite Zminus_mod_idemp_l.
  rewrite Zplus_mod_idemp_l.
  replace (seq1 + d - seq1 + 2 ^ (32 - 1)) with (d + 2 ^ 31) by (cbn; lia).
  rewrite Z.mod_small; cbn in *; lia.
Qed.

Lemma seq_before seq d : - 2 ^ 31 < d < 2 ^ 31 -> TcpSeqBefore (uint32_of (seq + d)) seq = true <-> d < 0.
Proof. intros. unfold TcpSeqBefore. rewrite bool_decide_eq_true. apply seq_before_iff; lia. Qed.

Lemma seq_before_eq seq d : - 2 ^ 31 < d < 2 ^ 31 -> TcpSeqBeforeEq (uint32_of (seq + d)) seq = true <-> d <= 0.
Proof.
  intros. unfold TcpSeqBeforeEq. rewrite bool_decide_eq_true.
  rewrite <- !Z.lt_succ_r. apply seq_before_iff; lia.
Qed.

Lemma seq_before_flip seq d : - 2 ^ 31 < d < 2 ^ 31 -> TcpSeqBefore seq (uint32_of (seq + d)) = true <-> 0 < d.
Proof.
  intros. set (u := uint32_of (seq + d)).
  assert (TcpSeqBefore seq u = TcpSeqBefore (uint32_of (u + - d)) u) as ->.
  { unfold TcpSeqBefore. subst u. rewrite wrapU_add_l. replace (seq + d + - d) with seq by lia.
    unfold wrapU. by rewrite Zminus_mod_idemp_l. }
  rewrite seq_before; lia.
Qed.

(** Two sequence numbers less than 2^31 apart are compared as the positions in
    the byte stream they stand for, also when the 32-bit counter wraps. *)
Theorem TcpSeqBefore_wraps seq d :
  - 2 ^ 31 < d < 2 ^ 31 ->
  (TcpSeqBefore (uint32_of (seq + d)) seq = true <-> d < 0) /\
  (TcpSeqBeforeEq (uint32_of (seq + d)) seq = true <-> d <= 0) /\
  (TcpSeqBefore seq (uint32_of (seq + d)) = true <-> 0 < d).
Proof. intros Hd. auto using seq_before, seq_before_eq, seq_before_flip. Qed.

Lemma TcpSeqBefore_wraps_witness :
  (TcpSeqBefore (uint32_of (4294967290 + 10)) 4294967290 = true <-> 10 < 0) /\
  (TcpSeqBeforeEq (uint32_of (4294967290 + 10)) 4294967290 = true <-> 10 <= 0) /\
  (TcpSeqBefore 4294967290 (uint32_of (4294967290 + 10)) = true <-> 0 < 10).
Proof. apply (TcpSeqBefore_wraps 4294967290 10). lia. Defined.

(** * The port map *)

(** Some plugin of the list claims [port] for [proto]. *)
Definition claims (plugins : list (Z * list Z)) (port proto : Z) : Prop :=
  exists ports q, (proto, ports) ∈ plugins /\ q ∈ ports /\ uint16_of q = port.

(** What a run of the construction means for the map it started from. *)
Definition ports_result (res : gmap Z Z) (C : Z -> Z -> Prop) (r : gmap Z Z + port_error) : Prop :=
  match r with
  | inl m => forall port proto, m !! port = Some proto <-> res !! port = Some proto \/ C port proto
  | inr (DuplicatePort port old proto) =>
      old <> proto /\ C (uint16_of port) proto /\
      (res !! uint16_of port = Some old \/ C (uint16_of port) old)
  end.

Lemma add_ports_spec proto ports res :
  ports_result res (fun port p => p = proto /\ exists q, q ∈ ports /\ uint16_of q = port)
    (add_ports proto ports res).
Proof.
  revert res. induction ports as [|q ports IH]; intros res; cbn [add_ports].
  - cbn. intros. set_solver.
  - destruct (res !! uint16_of q) as [old|] eqn:E.
    + case_decide as Ho; [subst old|].
      * specialize (IH res). destruct (add_ports proto ports res) as [m|[port o p]]; cbn in *.
        -- intros port p. rewrite IH. setoid_rewrite elem_of_cons. naive_solver.
        -- setoid_rewrite elem_of_cons. naive_solver.
      * cbn. setoid_rewrite elem_of_cons. naive_solver.
    + specialize (IH (<[uint16_of q := proto]> res)).
      destruct (add_ports proto ports _) as [m|[port o p]]; cbn in *.
      * intros port p. rewrite IH, lookup_insert_Some. setoid_rewrite elem_of_cons.
        split; [naive_solver|]. intros [H|[-> (q' & [->|H] & H')]]; [|naive_solver..].
        destruct (decide (uint16_of q = port)); [|naive_solver]. congruence.
      * setoid_rewrite elem_of_cons. rewrite lookup_insert_Some in IH. naive_solver.
Qed.

Lemma buildPortsMap_from_spec plugins res :
  ports_result res (claims plugins) (buildPortsMap_from plugins res).
Proof.
  revert res. induction plugins as [|[proto ports] plugins IH]; intros res; cbn [buildPortsMap_from].
  - cbn. intros. unfold claims. set_solver.
  - pose proof (add_ports_spec proto ports res) as Ha.
    destruct (add_ports proto ports res) as [m|[port o p]]; cbn in Ha.
    + specialize (IH m). destruct (buildPortsMap_from plugins m) as [m'|[port o p]]; cbn in *;
        unfold claims in *; setoid_rewrite elem_of_cons.
      * intros port p. rewrite IH, Ha. naive_solver.
      * rewrite Ha in IH. naive_solver.
    + cbn. unfold claims. setoid_rewrite elem_of_cons. naive_solver.
Qed.

Lemma claims_perm l l' port proto : l ≡ₚ l' -> claims l port proto -> claims l' port proto.
Proof. intros Hl (ports & q & H & ?). exists ports, q. by rewrite <- Hl. Qed.

(** The port map sends each port exactly to the protocol that claims it; the
    construction fails only when two protocols claim one port; and the order in
    which the plugins are visited changes neither the map nor whether it fails. *)
Theorem buildPortsMap_correct (l l' : list (Z * list Z)) :
  l ≡ₚ l' ->
  match buildPortsMap l with
  | inl m =>
      (forall port proto, m !! port = Some proto <-> claims l port proto) /\ buildPortsMap l' = inl m
  | inr (DuplicatePort port old proto) =>
      old <> proto /\ claims l (uint16_of port) old /\ claims l (uint16_of port) proto /\
      exists e, buildPortsMap l' = inr e
  end.
Proof.
  intros Hl. unfold buildPortsMap.
  pose proof (buildPortsMap_from_spec l ∅) as H. pose proof (buildPortsMap_from_spec l' ∅) as H'.
  assert (forall port, (∅ : gmap Z Z) !! port = None) as He by (intros; apply lookup_empty).
  destruct (buildPortsMap_from l ∅) as [m|[port o p]]; cbn in H.
  - assert (forall port proto, m !! port = Some proto <-> claims l port proto) as Hm
      by (intros; rewrite H, He; naive_solver).
    split; [done|]. destruct (buildPortsMap_from l' ∅) as [m'|[port o p]]; cbn in H'.
    + f_equal. apply map_eq. intros port. apply option_eq. intros proto.
      rewrite H', He, Hm. split; [intros [?|?]; [done|]|right]; by eapply claims_perm.
    + rewrite He in H'. destruct H' as (Hne & H1 & [?|H2]); [done|].
      apply (claims_perm _ l) in H1, H2; [|done..]. apply Hm in H1, H2. congruence.
  - rewrite He in H. destruct H as (Hne & H1 & [?|H2]); [done|]. repeat split; [done..|].
    destruct (buildPortsMap_from l' ∅) as [m'|[port' o' p']]; cbn in H'; [|by eexists].
    apply (claims_perm _ l') in H1, H2; [|done..].
    assert (m' !! uint16_of port = Some p) by (apply H'; by right).
    assert (m' !! uint16_of port = Some o) by (apply H'; by right). congruence.
Qed.

Lemma buildPortsMap_correct_witness :
  match buildPortsMap [(RedisProtocol, [6379]); (MysqlProtocol, [3306; 3306])] with
  | inl m =>
      (forall port proto, m !! port = Some proto <->
         claims [(RedisProtocol, [6379]); (MysqlProtocol, [3306; 3306])] port proto) /\
      buildPortsMap [(MysqlProtocol, [3306; 3306]); (RedisProtocol, [6379])] = inl m
  | inr (DuplicatePort port old proto) => False
  end.
Proof.
  pose proof (buildPortsMap_correct [(RedisProtocol, [6379]); (MysqlProtocol, [3306; 3306])]
    [(MysqlProtocol, [3306; 3306]); (RedisProtocol, [6379])] ltac:(by apply Permutation_swap)) as H.
  exact H.
Defined.

(** * The streams map *)

Section Streams.
Context {St Data : Type}.
Implicit Types (tcp : Tcp St Data) (s : TcpStream Data).
#[local] Existing Instance eta_TcpStream.
#[local] Existing Instance eta_Tcp.

(** A stream registered under [key]. *)
Definition stream_ok tcp (key : bytes) (p : ptr) : Prop :=
  exists s, heap tcp !! p = Some s /\ Hashable (ts_tuple s) = key /\ hashed (ts_tuple s) /\
    ts_tcptuple s = TcpTupleFromIpPort (ts_tuple s) (ts_id s) /\
    ts_protocol s = decideProtocol (tcpPortMap tcp) (ts_tuple s) /\
    ts_protocol s <> UnknownProtocol /\ p ∈ timers tcp.

(** Each registered stream is filed under its own tuple, has the tuple and the
    protocol of its first packet and a running timer; and a connection has one
    stream, not one per direction. *)
Record streams_ok tcp : Prop := {
  ok_entry : forall key p, tcpStreamsMap tcp !! key = Some p -> stream_ok tcp key p;
  ok_reverse : forall k1 p1 s1 k2 p2 s2,
    tcpStreamsMap tcp !! k1 = Some p1 -> heap tcp !! p1 = Some s1 ->
    tcpStreamsMap tcp !! k2 = Some p2 -> heap tcp !! p2 = Some s2 ->
    RevHashable (ts_tuple s1) = Hashable (ts_tuple s2) -> p1 = p2
}.

(** The identity of a stream: everything but its data and sequence numbers. *)
Definition stream_id s := (ts_id s, ts_tuple s, ts_protocol s, ts_tcptuple s).

(** A change that keeps the identity of the streams, the ports, and the timers of
    the streams it leaves registered, and registers nothing new. *)
Definition keeps tcp tcp' : Prop :=
  tcpStreamsMap tcp' ⊆ tcpStreamsMap tcp /\ tcpPortMap tcp' = tcpPortMap tcp /\
  protos tcp' = protos tcp /\
  (forall key q, tcpStreamsMap tcp' !! key = Some q -> q ∈ timers tcp -> q ∈ timers tcp') /\
  forall p, stream_id <$> heap tcp' !! p = stream_id <$> heap tcp !! p.

#[local] Instance keeps_preorder : PreOrder keeps.
Proof.
  split.
  - intros tcp. unfold keeps. done.
  - intros t1 t2 t3 (Hm & Hp & Hs & Ht & Hh) (Hm' & Hp' & Hs' & Ht' & Hh').
    unfold keeps. repeat split; [by etrans|congruence|congruence| |intros; congruence].
    intros key q H ?. eapply Ht', Ht; [done| |done]. by eapply lookup_weaken.
Qed.

Lemma keeps_ok tcp tcp' : keeps tcp tcp' -> streams_ok tcp -> streams_ok tcp'.
Proof.
  intros (Hm & Hp & _ & Ht & Hh) [He Hr].
  assert (forall p s', heap tcp' !! p = Some s' ->
    exists s, heap tcp !! p = Some s /\ stream_id s = stream_id s') as Hb.
  { intros p s' E. specialize (Hh p). rewrite E in Hh. cbn in Hh.
    destruct (heap tcp !! p) as [s|]; [|done]. exists s. split; [done|]. cbn in Hh. congruence. }
  split.
  - intros key p H. destruct (He key p) as (s & E & Ek & Eh & Et & Epr & Eu & Etm); [by eapply lookup_weaken|].
    specialize (Hh p). rewrite E in Hh. destruct (heap tcp' !! p) as [s'|] eqn:E'; [|done].
    injection Hh as E1 E2 E3 E4. exists s'. rewrite E1, E2, E3, E4, Hp. by repeat (split; [done|]); eapply Ht.
  - intros k1 p1 s1 k2 p2 s2 H1 G1 H2 G2.
    apply Hb in G1 as (t1 & G1 & [= E1 E2 E3 E4]), G2 as (t2 & G2 & [= F1 F2 F3 F4]).
    rewrite <- E2, <- F2. eapply Hr; try done; by eapply lookup_weaken.
Qed.

Lemma store_keeps tcp p s s' :
  heap tcp !! p = Some s -> stream_id s' = stream_id s -> keeps tcp (store tcp p s').
Proof.
  intros E Es. unfold keeps, store. cbn. repeat split; [done..|].
  intros q. destruct (decide (p = q)) as [->|].
  - rewrite lookup_insert_eq, E. cbn. by rewrite Es.
  - by rewrite lookup_insert_ne.
Qed.

Lemma assign_data_keeps tcp p s r :
  heap tcp !! p = Some s -> keeps tcp (snd (assign_data tcp p s r)).
Proof.
  intros E. unfold assign_data.
  assert (keeps tcp (tcp <| plugins := snd r |>)) as Hk by (unfold keeps; done).
  destruct (fst r); cbn [snd]; [|done..]. etrans; [exact Hk|]. by apply (store_keeps _ _ s).
Qed.

Lemma AddPacket_keeps tcp p s pkt hdr dir :
  heap tcp !! p = Some s -> keeps tcp (snd (AddPacket tcp p s pkt hdr dir)).
Proof.
  intros E. unfold AddPacket.
  set (tcp1 := tcp <| timers := _ |>).
  assert (keeps tcp tcp1) as Hk by (unfold keeps; subst tcp1; cbn; repeat split; (done || set_solver)).
  destruct (Get (protos tcp1) (ts_protocol s)) as [pl|]; [|exact Hk].
  assert (keeps tcp1 (snd (if decide (len (vis (pk_Payload pkt)) > 0) then assign_data tcp1 p s
      (Parse pl pkt (ts_tcptuple s) dir (ts_Data s) (plugins tcp1)) else (Ret tt, tcp1)))) as Hk2.
  { case_decide; [by apply assign_data_keeps|done]. }
  destruct (if decide _ then _ else _) as [[u| |] tcp2]; cbn [snd] in *; [|by etrans..].
  destruct (heap tcp2 !! p) as [s2|] eqn:E2; [|by etrans].
  destruct (hdr_FIN hdr); [|by etrans]. etrans; [by etrans|]. by apply assign_data_keeps.
Qed.

Lemma Expire_keeps tcp p : keeps tcp (Expire tcp p).
Proof.
  unfold Expire. destruct (heap tcp !! p) as [s|] eqn:E; [|done].
  set (tcp1 := tcp <| tcpStreamsMap := _ |>).
  assert (keeps tcp tcp1) as Hk.
  { unfold keeps; subst tcp1; cbn. repeat split; [apply delete_subseteq|done..]. }
  etrans; [exact Hk|]. by apply (store_keeps _ _ s).
Qed.

Lemma set_lastSeq_id s dir seq : stream_id (set_lastSeq s dir seq) = stream_id s.
Proof. unfold set_lastSeq. by destruct (decide _). Qed.

Lemma followStream_keeps tcp p s dir created hdr pkt :
  heap tcp !! p = Some s -> keeps tcp (snd (followStream tcp p s dir created hdr pkt)).
Proof.
  intros E. unfold followStream. case_match; [done|]. case_match.
  - unfold StreamGap. destruct (Get _ _) as [pl|]; [|done].
    pose proof (assign_data_keeps tcp p s
      (GapInStream pl (ts_tcptuple s) dir (ts_Data s) (plugins tcp)) E) as Hk.
    destruct (assign_data _ _ _ _) as [[u| |] tcp2]; [|done..].
    cbn [snd] in *. etrans; [exact Hk|apply Expire_keeps].
  - set (s' := set_lastSeq _ _ _).
    transitivity (store tcp p s'); [by apply (store_keeps tcp p s s'), set_lastSeq_id|]. apply AddPacket_keeps. apply lookup_insert_eq.
Qed.

(** Registering a stream for a connection that has none. *)
Lemma register_ok tcp p s :
  streams_ok tcp -> heap tcp !! p = None -> hashed (ts_tuple s) ->
  tcpStreamsMap tcp !! Hashable (ts_tuple s) = None ->
  tcpStreamsMap tcp !! RevHashable (ts_tuple s) = None ->
  ts_tcptuple s = TcpTupleFromIpPort (ts_tuple s) (ts_id s) ->
  ts_protocol s = decideProtocol (tcpPortMap tcp) (ts_tuple s) -> ts_protocol s <> UnknownProtocol ->
  streams_ok (store tcp p s <| tcpStreamsMap := <[Hashable (ts_tuple s) := p]> (tcpStreamsMap tcp) |>
                            <| timers := {[p]} ∪ timers tcp |>).
Proof.
  intros [He Hr] Hp Hh Hn Hrn Et Epr Eu. unfold store.
  assert (forall k q, tcpStreamsMap tcp !! k = Some q -> q <> p) as Hne.
  { intros k q H ->. destruct (He _ _ H) as (? & E & _). congruence. }
  split; cbn.
  - intros key q [[<- <-]|[Hk H]]%lookup_insert_Some.
    + exists s. cbn. rewrite lookup_insert_eq. do 6 (split; [done|]). set_solver.
    + destruct (He _ _ H) as (s' & ? & ? & ? & ? & ? & ? & ?). exists s'. cbn.
      rewrite lookup_insert_ne by (intros <-; by eapply Hne). do 6 (split; [done|]). set_solver.
  - intros k1 p1 s1 k2 p2 s2 [[<- <-]|[Hk1 H1]]%lookup_insert_Some G1
      [[<- <-]|[Hk2 H2]]%lookup_insert_Some G2 E; [done|..].
    + rewrite lookup_insert_eq in G1. injection G1 as ->.
      rewrite lookup_insert_ne in G2 by (intros <-; by eapply Hne).
      destruct (He _ _ H2) as (s' & ? & ? & _). simplify_eq. rewrite E in Hrn. congruence.
    + rewrite lookup_insert_eq in G2. injection G2 as ->.
      rewrite lookup_insert_ne in G1 by (intros <-; by eapply Hne).
      destruct (He _ _ H1) as (s' & ? & Ek & Hh' & _). simplify_eq.
      symmetry in E. apply hashable_swap in E; [|done..]. rewrite E in Hrn. congruence.
    + rewrite lookup_insert_ne in G1 by (intros <-; exact (Hne _ _ H1 eq_refl)).
      rewrite lookup_insert_ne in G2 by (intros <-; exact (Hne _ _ H2 eq_refl)).
      exact (Hr _ _ _ _ _ _ H1 G1 H2 G2 E).
Qed.

Lemma AddPacket_armed tcp p s pkt hdr dir :
  AddPacket tcp p s pkt hdr dir =
  AddPacket (tcp <| timers := {[p]} ∪ timers tcp |>) p s pkt hdr dir.
Proof.
  assert (tcp <| timers := {[p]} ∪ timers tcp |>
          <| timers := {[p]} ∪ timers (tcp <| timers := {[p]} ∪ timers tcp |>) |> =
          tcp <| timers := {[p]} ∪ timers tcp |>) as E.
  { change (timers (tcp <| timers := {[p]} ∪ timers tcp |>)) with ({[p]} ∪ timers tcp).
    replace ({[p]} ∪ ({[p]} ∪ timers tcp)) with ({[p]} ∪ timers tcp) by set_solver. done. }
  unfold AddPacket at 2. by rewrite E.
Qed.

(** Packets as the decoder makes them. *)
Definition packet_ok (pkt : Packet) : Prop := hashed (pk_Tuple pkt).

Lemma findStream_None tcp pkt tcp' : findStream tcp pkt = (None, tcp') -> tcp' = tcp.
Proof. unfold findStream. repeat case_match; naive_solver. Qed.

(** An existing stream is found under the packet's tuple or its reverse. *)
Lemma findStream_old tcp pkt p dir tcp' :
  findStream tcp pkt = (Some (p, dir, false), tcp') ->
  tcp' = tcp /\
  ((dir = TcpDirectionOriginal /\ tcpStreamsMap tcp !! Hashable (pk_Tuple pkt) = Some p) \/
   (dir = TcpDirectionReverse /\ tcpStreamsMap tcp !! Hashable (pk_Tuple pkt) = None /\
    tcpStreamsMap tcp !! RevHashable (pk_Tuple pkt) = Some p)).
Proof. unfold findStream. repeat case_match; naive_solver. Qed.

(** A new stream has no stream of its connection beside it, and its first packet
    goes to the plugin whatever its sequence number. *)
Definition new_stream tcp (pkt : Packet) : TcpStream Data :=
  {| ts_id := uint32_of (tcp_id tcp + 1); ts_tuple := pk_Tuple pkt;
     ts_protocol := decideProtocol (tcpPortMap tcp) (pk_Tuple pkt);
     ts_tcptuple := TcpTupleFromIpPort (pk_Tuple pkt) (uint32_of (tcp_id tcp + 1));
     ts_lastSeq0 := 0; ts_lastSeq1 := 0; ts_Data := None |}.
Definition registered tcp (pkt : Packet) (p : ptr) : Tcp St Data :=
  store (tcp <| tcp_id := uint32_of (tcp_id tcp + 1) |>) p (new_stream tcp pkt)
    <| tcpStreamsMap := <[Hashable (pk_Tuple pkt) := p]> (tcpStreamsMap tcp) |>.

Lemma findStream_new tcp pkt p dir tcp' :
  findStream tcp pkt = (Some (p, dir, true), tcp') ->
  dir = TcpDirectionOriginal /\ tcpStreamsMap tcp !! Hashable (pk_Tuple pkt) = None /\
  tcpStreamsMap tcp !! RevHashable (pk_Tuple pkt) = None /\ heap tcp !! p = None /\
  decideProtocol (tcpPortMap tcp) (pk_Tuple pkt) <> UnknownProtocol /\ tcp' = registered tcp pkt p.
Proof.
  unfold findStream. destruct (tcpStreamsMap tcp !! Hashable _) eqn:E1; [done|].
  destruct (tcpStreamsMap tcp !! RevHashable _) eqn:E2; [done|]. case_decide; [done|].
  cbn. intros [= <- <- <-]. repeat split; try done.
  apply not_elem_of_dom. exact (is_fresh (dom (heap tcp))).
Qed.

Lemma followStream_new tcp p s hdr pkt :
  ts_lastSeq1 s = 0 ->
  followStream tcp p s TcpDirectionOriginal true hdr pkt =
  let s := set_lastSeq s TcpDirectionOriginal
             (uint32_of (hdr_Seq hdr + uint32_of (len (vis (pk_Payload pkt))))) in
  AddPacket (store tcp p s) p s pkt hdr TcpDirectionOriginal.
Proof.
  intros E. unfold followStream. change (lastSeq s TcpDirectionOriginal) with (ts_lastSeq1 s).
  rewrite E. cbn [bool_decide]. rewrite (bool_decide_eq_true_2 (0 = 0)) by done.
  cbn [negb]. by rewrite !andb_false_r.
Qed.

(** [FollowTcp] and the timers keep the streams map in order. *)
Lemma FollowTcp_ok tcp hdr pkt tcp' :
  packet_ok pkt -> streams_ok tcp -> FollowTcp tcp hdr pkt = Ret tcp' -> streams_ok tcp'.
Proof.
  intros Hp Hok. unfold FollowTcp.
  destruct (findStream tcp pkt) as [[[[p dir] []]|] t1] eqn:Ef.
  - apply findStream_new in Ef as (-> & Hn & Hr & Hh & Hu & ->).
    set (s := new_stream tcp pkt).
    assert (heap (registered tcp pkt p) !! p = Some s) as E by apply lookup_insert_eq.
    rewrite E, followStream_new by done. cbv zeta. set (s' := set_lastSeq s _ _).
    rewrite AddPacket_armed. set (t2 := store _ _ _ <| timers := _ |>).
    assert (streams_ok t2) as Hok2.
    { set (t1 := registered tcp pkt p <| timers := {[p]} ∪ timers tcp |>).
      change t2 with (store t1 p s'). apply (keeps_ok t1).
      - apply (store_keeps t1 p s s'); [exact E|apply set_lastSeq_id].
      - set (t0 := tcp <| tcp_id := uint32_of (tcp_id tcp + 1) |>).
        assert (streams_ok t0) as Hok0.
        { apply (keeps_ok tcp); [|done]. unfold keeps. cbn. auto 6. }
        exact (register_ok t0 p s Hok0 Hh Hp Hn Hr eq_refl eq_refl Hu). }
    pose proof (AddPacket_keeps t2 p s' pkt hdr TcpDirectionOriginal (lookup_insert_eq _ _ _)) as Hk.
    destruct (AddPacket _ _ _ _ _ _) as [[] t3]; intros [= <-]; by eapply keeps_ok.
  - apply findStream_old in Ef as [-> _].
    destruct (heap tcp !! p) as [s|] eqn:E; [|by intros [= <-]].
    pose proof (followStream_keeps tcp p s dir false hdr pkt E) as Hk.
    destruct (followStream _ _ _ _ _ _ _) as [[] t3]; intros [= <-]; by eapply keeps_ok.
  - apply findStream_None in Ef as ->. by intros [= <-].
Qed.

Lemma fireTimer_ok tcp p : streams_ok tcp -> streams_ok (fireTimer tcp p).
Proof.
  intros Hok. apply (keeps_ok tcp); [|done]. unfold fireTimer. case_decide; [|done].
  destruct (Expire_keeps (tcp <| timers := timers tcp ∖ {[p]} |>) p) as (Hm & Hp & Hs & Ht & Hh).
  unfold keeps. repeat (split; [done|]). split; [|exact Hh]. intros key q Hq Hin.
  apply (Ht _ _ Hq). cbn. apply elem_of_difference. split; [done|]. intros ->%elem_of_singleton.
  destruct (ok_entry _ Hok key p) as (s & E & <- & _); [by eapply lookup_weaken|].
  revert Hq. unfold Expire. cbn. rewrite E. cbn. by rewrite lookup_delete_eq.
Qed.

(** The addresses that gopacket's IP layers hold, once decoded. *)
Definition addresses_ok (d : Layers) : Prop :=
  (LayerTypeIPv4 ∈ l_decoded d -> length (l_ip4_Src d) = 4%nat /\ length (l_ip4_Dst d) = 4%nat) /\
  (LayerTypeIPv6 ∈ l_decoded d -> length (l_ip6_Src d) = 16%nat /\ length (l_ip6_Dst d) = 16%nat).

(** A tuple under construction: not hashed yet. *)
Definition raw_tuple (t : IpPortTuple) : Prop :=
  (length (it_Src_ip t) <= 16)%nat /\ (length (it_Dst_ip t) <= 16)%nat /\
  it_raw t = replicate 36 x00 /\ it_revRaw t = replicate 36 x00.

Lemma add_layers_raw d l acc :
  addresses_ok d -> l ⊆ l_decoded d -> raw_tuple (pk_Tuple (fst acc)) -> raw_tuple (pk_Tuple (fst (foldl (add_layer d) acc l))).
Proof.
  intros [H4 H6]. revert acc. induction l as [|ty l IH]; intros [pkt has] Hl H; [done|].
  cbn [foldl]. assert (ty ∈ l_decoded d) as Hty by (apply Hl; constructor).
  apply IH; [intros x Hx; apply Hl; by constructor|]. destruct H as (? & ? & ? & ?).
  destruct ty; try specialize (H4 Hty); try specialize (H6 Hty); unfold raw_tuple, add_layer; cbn; repeat split; (done || lia).
Qed.

Lemma raw_hashed t : raw_tuple t -> hashed (ComputeHashebles t).
Proof.
  destruct t. intros (? & ? & E1 & E2). cbn in E1, E2. subst. by repeat split.
Qed.

Lemma DecodePacketData_ok decode tcp data ts tcp' :
  (forall d, decode data = Some d -> addresses_ok d) -> streams_ok tcp ->
  DecodePacketData decode tcp data ts = Ret tcp' -> streams_ok tcp'.
Proof.
  intros Hd Hok. unfold DecodePacketData. destruct (decode data) as [d|] eqn:E; [|by intros [= <-]].
  pose proof (add_layers_raw d (l_decoded d) (empty_packet, false) (Hd d eq_refl) ltac:(done)) as Hr.
  destruct (foldl _ _ _) as [pkt has]. destruct has; cbn [negb]; [|by intros [= <-]].
  destruct (_ && _); [by intros [= <-]|]. apply FollowTcp_ok; [|done].
  apply raw_hashed, Hr. repeat split; (done || (cbn; lia)).
Qed.

(** What happens to the package: captured packets and expiring timers, in any order. *)
Inductive tcp_step tcp : Tcp St Data -> Prop :=
| step_packet decode data ts tcp' :
    (forall d, decode data = Some d -> addresses_ok d) ->
    DecodePacketData decode tcp data ts = Ret tcp' -> tcp_step tcp tcp'
| step_timer p : tcp_step tcp (fireTimer tcp p).

(** C2: over any interleaving of captured packets and timers, whatever the plugins do (panics
    included), each registered stream is filed under its own tuple with the
    protocol of its ports and a running expiry timer, and each connection has at
    most one stream. *)
Theorem streams_invariant tcp tcp' : streams_ok tcp -> rtc tcp_step tcp tcp' -> streams_ok tcp'.
Proof.
  intros Hok. induction 1 as [|t1 t2 t3 Hs _ IH]; [done|]. apply IH.
  destruct Hs as [decode data ts t2 Hp Hf|p]; [by eapply DecodePacketData_ok|by apply fireTimer_ok].
Qed.

(** The two directions of a connection reach the same stream: once a packet has
    found or created a stream, a packet between the swapped ends finds the same
    stream with the other direction. *)
Theorem one_stream_per_connection tcp pkt p dir created tcp' pkt' :
  streams_ok tcp -> packet_ok pkt -> Hashable (pk_Tuple pkt) <> RevHashable (pk_Tuple pkt) ->
  findStream tcp pkt = (Some (p, dir, created), tcp') -> pk_Tuple pkt' = reversed (pk_Tuple pkt) ->
  findStream tcp' pkt' = (Some (p, 1 - dir, false), tcp').
Proof.
  intros Hok Hp Hne Hf E.
  assert (Hashable (pk_Tuple pkt') = RevHashable (pk_Tuple pkt) /\
          RevHashable (pk_Tuple pkt') = Hashable (pk_Tuple pkt)) as [E1 E2].
  { rewrite E. split; [by apply Hashable_reversed|by apply RevHashable_reversed]. }
  unfold findStream. rewrite E1, E2. destruct created.
  - apply findStream_new in Hf as (-> & Hn & Hr & _ & _ & ->). cbn.
    rewrite lookup_insert_ne, Hr by done. by rewrite lookup_insert_eq.
  - apply findStream_old in Hf as [-> [[-> Hs]|(-> & Hn & ->)]]; [|done]. rewrite Hs.
    destruct (tcpStreamsMap tcp !! RevHashable (pk_Tuple pkt)) as [q|] eqn:Eq; [|done].
    exfalso. destruct (ok_entry _ Hok _ _ Hs) as (s & G & K & Hh & _).
    destruct (ok_entry _ Hok _ _ Eq) as (u & G' & K' & Hh' & _).
    apply hashable_swap in K' as K2; [|done..].
    assert (q = p) as ->; [|naive_solver congruence].
    eapply (ok_reverse _ Hok); try done. congruence.
Qed.

(** * Delivery *)

(** The reference: a plugin is given the payloads in order.  A payload on which
    it panics leaves the stream data as they were. *)
Definition deliver (pl : ProtocolPlugin St Data) (tuple : TcpTuple) (dir : Z)
    (acc : option Data * St) (pkt : Packet) : option Data * St :=
  match Parse pl pkt tuple dir (fst acc) (snd acc) with
  | (Ret d, st) => (d, st)
  | (_, st) => (fst acc, st)
  end.

(** [arrivals last l fresh]: the packets [l] of one direction, after byte [last],
    are each either the next bytes of the stream or bytes seen before (all of
    them); [fresh] are the ones with the next bytes. *)
Inductive arrivals : Z -> list (TCPHeader * Packet) -> list Packet -> Prop :=
| arrivals_nil last : arrivals last [] []
| arrivals_next last hdr pkt l fresh :
    0 < len (vis (pk_Payload pkt)) < 2 ^ 31 -> hdr_FIN hdr = false -> hdr_Seq hdr = uint32_of last ->
    arrivals (uint32_of (last + len (vis (pk_Payload pkt)))) l fresh ->
    arrivals last ((hdr, pkt) :: l) (pkt :: fresh)
| arrivals_again last hdr pkt l fresh back :
    0 < len (vis (pk_Payload pkt)) -> last <> 0 -> 0 <= back < 2 ^ 31 ->
    uint32_of (hdr_Seq hdr + len (vis (pk_Payload pkt))) = uint32_of (last - back) ->
    arrivals last l fresh -> arrivals last ((hdr, pkt) :: l) fresh.

Fixpoint FollowAll tcp (l : list (TCPHeader * Packet)) : outcome (Tcp St Data) :=
  match l with
  | [] => Ret tcp
  | (hdr, pkt) :: l' => let! tcp := FollowTcp tcp hdr pkt in FollowAll tcp l'
  end.

(** Packets of [tuple] belong to the stream at [p], in direction [dir]. *)
Definition reaches tcp (tuple : IpPortTuple) (p : ptr) (dir : Z) : Prop :=
  forall pkt, pk_Tuple pkt = tuple -> findStream tcp pkt = (Some (p, dir, false), tcp).

(** The stream at [p] follows [tuple] in direction [dir]: its next byte is
    [last], and its data and the plugins' state are [acc]. *)
Definition following tcp tuple p dir (pl : ProtocolPlugin St Data) (tcptuple : TcpTuple)
    (last : Z) (acc : option Data * St) : Prop :=
  exists s, reaches tcp tuple p dir /\ heap tcp !! p = Some s /\ ts_tcptuple s = tcptuple /\
    Get (protos tcp) (ts_protocol s) = Some pl /\ lastSeq s dir = last /\
    (ts_Data s, plugins tcp) = acc.

Lemma FollowTcp_again tcp tuple p dir pl tcptuple last acc hdr pkt back :
  following tcp tuple p dir pl tcptuple last acc -> pk_Tuple pkt = tuple ->
  0 < len (vis (pk_Payload pkt)) -> last <> 0 -> 0 <= back < 2 ^ 31 ->
  uint32_of (hdr_Seq hdr + len (vis (pk_Payload pkt))) = uint32_of (last - back) ->
  FollowTcp tcp hdr pkt = Ret tcp.
Proof.
  intros (s & Hr & Hs & _ & _ & Hl & _) Ht Hn Hz Hb Hq. unfold FollowTcp.
  rewrite (Hr pkt Ht), Hs. unfold followStream. rewrite Hl.
  assert (TcpSeqBeforeEq (uint32_of (hdr_Seq hdr + uint32_of (len (vis (pk_Payload pkt))))) last = true) as ->.
  { rewrite wrapU_add_r, Hq. change (last - back) with (last + - back).
    apply bool_decide_eq_true, (Z.lt_succ_r _ 0), (seq_before_iff last (- back) 1); lia. }
  rewrite bool_decide_eq_true_2, bool_decide_eq_false_2 by (done || lia). done.
Qed.

(** The other direction of the stream sees the new data and keeps its own place. *)
Definition other_follows tcp tcp' p dir pl tcptuple (acc acc' : option Data * St) : Prop :=
  forall tuple last, following tcp tuple p dir pl tcptuple last acc -> following tcp' tuple p dir pl tcptuple last acc'.

(** The segment has the next byte and new ones; of a direction without bytes, it is the first. *)
Definition accepts (last : Z) (hdr : TCPHeader) (pkt : Packet) : Prop :=
  last = 0 \/ exists k, 0 <= k < len (vis (pk_Payload pkt)) /\ hdr_Seq hdr = uint32_of (last - k).

Lemma FollowTcp_accepts tcp tuple p dir pl tcptuple last acc hdr pkt :
  following tcp tuple p dir pl tcptuple last acc -> pk_Tuple pkt = tuple -> valid_dir dir -> accepts last hdr pkt ->
  0 < len (vis (pk_Payload pkt)) < 2 ^ 31 -> hdr_FIN hdr = false ->
  fst (Parse pl pkt tcptuple dir (fst acc) (snd acc)) <> OutOfFuel ->
  exists tcp', FollowTcp tcp hdr pkt = Ret tcp' /\
    following tcp' tuple p dir pl tcptuple (uint32_of (hdr_Seq hdr + len (vis (pk_Payload pkt))))
      (deliver pl tcptuple dir acc pkt) /\
    other_follows tcp tcp' p (1 - dir) pl tcptuple acc (deliver pl tcptuple dir acc pkt).
Proof.
  intros (s & Hr & Hs & Htt & Hg & Hl & <-) Ht Hd Hk Hn Hf Hne. unfold FollowTcp.
  rewrite (Hr pkt Ht), Hs. unfold followStream. rewrite Hl, wrapU_add_r.
  set (n := len _) in *. set (seq := uint32_of (hdr_Seq hdr + n)). set (ch := bool_decide (n > 0) && _).
  assert (ch && TcpSeqBeforeEq seq last = false /\ ch && TcpSeqBefore last (hdr_Seq hdr) = false) as [-> ->].
  { destruct Hk as [->|(k & Hk & Hq)]; [by subst ch; rewrite (bool_decide_eq_true_2 (0 = 0)), andb_false_r by done|].
    subst seq. rewrite Hq, wrapU_add_l. fold n in Hk.
    assert (TcpSeqBeforeEq (uint32_of (last - k + n)) last = false) as ->.
    { apply not_true_iff_false. replace (last - k + n) with (last + (n - k)) by lia.
      rewrite (seq_before_eq last (n - k)) by lia. lia. }
    assert (TcpSeqBefore last (uint32_of (last - k)) = false) as ->.
    { apply not_true_iff_false. rewrite (seq_before_flip last (- k)) by lia. lia. }
    by rewrite !andb_false_r. }
  cbn [andb]. unfold AddPacket.
  set (s' := set_lastSeq s dir seq).
  assert (ts_protocol s' = ts_protocol s /\ ts_tcptuple s' = ts_tcptuple s /\ ts_Data s' = ts_Data s
          /\ lastSeq s' dir = seq /\ lastSeq s' (1 - dir) = lastSeq s (1 - dir)) as (E1 & E2 & E3 & E4 & E5).
  { subst s'. unfold set_lastSeq. by destruct Hd as [-> | ->]. }
  clearbody s'.
  assert (forall tcp', tcpStreamsMap tcp' = tcpStreamsMap tcp -> forall tuple' dir', reaches tcp tuple' p dir' -> reaches tcp' tuple' p dir') as Hrch.
  { intros tcp' Em tuple' dir' H pkt' Hp. pose proof (H pkt' Hp) as G. apply findStream_old in G as [_ G]. unfold findStream.
    rewrite Em. destruct G as [[-> ->]|(-> & -> & ->)]; done. }
  assert (forall tcp' s2 acc', tcpStreamsMap tcp' = tcpStreamsMap tcp -> protos tcp' = protos tcp -> heap tcp' !! p = Some s2 ->
    ts_protocol s2 = ts_protocol s -> ts_tcptuple s2 = tcptuple -> lastSeq s2 dir = seq -> lastSeq s2 (1 - dir) = lastSeq s (1 - dir) ->
    (ts_Data s2, plugins tcp') = acc' ->
    following tcp' tuple p dir pl tcptuple seq acc' /\
    other_follows tcp tcp' p (1 - dir) pl tcptuple (ts_Data s, plugins tcp) acc') as Hfol.
  { intros tcp' s2 acc' Em Ep Eh F1 F2 F3 F4 <-. split.
    - exists s2. split; [by apply Hrch|]. rewrite Ep, F1. by repeat split.
    - intros tuple' last' (s3 & Hr3 & Hs3 & _ & _ & Hl3 & _). rewrite Hs in Hs3. injection Hs3 as <-.
      exists s2. split; [by apply Hrch|]. rewrite Ep, F1, F4. by repeat split. }
  rewrite E1, E2, E3. cbn [protos set_field store plugins]. rewrite Hg, Htt.
  rewrite decide_True by lia. cbn [fst snd] in *.
  unfold deliver. cbn [fst snd]. unfold assign_data.
  destruct (Parse pl pkt tcptuple dir (ts_Data s) (plugins tcp)) as [[d| |] st]; cbn [fst snd] in *; [| |done].
  - cbn. rewrite lookup_insert_eq, Hf. eexists. split; [done|].
    apply (Hfol _ (s' <| ts_Data := d |>)); try done; [cbn; apply lookup_insert_eq|exact (eq_trans E2 Htt)].
  - eexists. split; [done|]. apply (Hfol _ s'); try done; [cbn; apply lookup_insert_eq|exact (eq_trans E2 Htt)|by rewrite E3].
Qed.

Lemma FollowTcp_next tcp tuple p dir pl tcptuple last acc hdr pkt k :
  following tcp tuple p dir pl tcptuple last acc -> pk_Tuple pkt = tuple -> valid_dir dir ->
  0 <= k < len (vis (pk_Payload pkt)) -> len (vis (pk_Payload pkt)) < 2 ^ 31 -> hdr_FIN hdr = false ->
  hdr_Seq hdr = uint32_of (last - k) ->
  fst (Parse pl pkt tcptuple dir (fst acc) (snd acc)) <> OutOfFuel ->
  exists tcp', FollowTcp tcp hdr pkt = Ret tcp' /\
    following tcp' tuple p dir pl tcptuple (uint32_of (last - k + len (vis (pk_Payload pkt))))
      (deliver pl tcptuple dir acc pkt).
Proof.
  intros Hfo Ht Hd Hk Hn Hf Hq Hne. rewrite <- wrapU_add_l, <- Hq.
  destruct (FollowTcp_accepts _ _ _ _ _ _ _ _ hdr pkt Hfo Ht Hd) as (tcp' & E & H & _); try done; [right; by exists k|lia|].
  by exists tcp'.
Qed.

(** A new stream follows both directions of its connection from any byte. *)
Lemma FollowTcp_new tcp hdr pkt pl :
  tcpStreamsMap tcp !! Hashable (pk_Tuple pkt) = None -> tcpStreamsMap tcp !! RevHashable (pk_Tuple pkt) = None ->
  decideProtocol (tcpPortMap tcp) (pk_Tuple pkt) <> UnknownProtocol ->
  Get (protos tcp) (decideProtocol (tcpPortMap tcp) (pk_Tuple pkt)) = Some pl ->
  exists p tcp1, FollowTcp tcp hdr pkt = FollowTcp tcp1 hdr pkt /\
    let follows tuple dir := following tcp1 tuple p dir pl (TcpTupleFromIpPort (pk_Tuple pkt) (uint32_of (tcp_id tcp + 1))) 0
      (None, plugins tcp) in
    follows (pk_Tuple pkt) 1 /\
    forall back, Hashable back = RevHashable (pk_Tuple pkt) -> RevHashable back = Hashable (pk_Tuple pkt) ->
      Hashable back <> Hashable (pk_Tuple pkt) -> follows back 0.
Proof.
  intros Hn Hr Hu Hg. set (p := fresh (dom (heap tcp))). exists p, (registered tcp pkt p).
  assert (heap (registered tcp pkt p) !! p = Some (new_stream tcp pkt)) as Hs by apply lookup_insert_eq.
  assert (reaches (registered tcp pkt p) (pk_Tuple pkt) p 1) as H1.
  { intros pkt' Ht. unfold findStream. rewrite Ht. cbn. by rewrite lookup_insert_eq. }
  assert (findStream tcp pkt = (Some (p, 1, true), registered tcp pkt p)) as H0.
  { unfold findStream. rewrite Hn, Hr. by destruct (decide (_ = UnknownProtocol)). }
  split; [|split].
  - unfold FollowTcp. rewrite H0, (H1 pkt eq_refl), Hs. unfold followStream.
    change (lastSeq (new_stream tcp pkt) 1) with 0. rewrite (bool_decide_eq_true_2 (0 = 0)) by done. cbn [negb]. by rewrite andb_false_r.
  - exists (new_stream tcp pkt). by repeat split.
  - intros back E1 E2 E3. exists (new_stream tcp pkt). repeat split; try done.
    intros pkt' Ht. unfold findStream. rewrite Ht. cbn. rewrite E1, E2 in *.
    by rewrite lookup_insert_ne, Hr, lookup_insert_eq by done.
Qed.

(** C1: in-order delivery.  Whatever mix of next segments and full retransmissions
    arrives on a direction of a stream, across wrap-around of the sequence
    numbers and panics of the plugin, the plugin's data and state are those of
    parsing each fresh payload once, in order. *)
Theorem in_order_delivery tcp tuple p dir pl tcptuple last acc l fresh :
  following tcp tuple p dir pl tcptuple last acc -> valid_dir dir ->
  (forall pkt t d st, fst (Parse pl pkt t dir d st) <> OutOfFuel) ->
  Forall (fun x => pk_Tuple (snd x) = tuple) l -> arrivals last l fresh ->
  exists tcp' last', FollowAll tcp l = Ret tcp' /\
    following tcp' tuple p dir pl tcptuple last' (foldl (deliver pl tcptuple dir) acc fresh).
Proof.
  intros Hf Hd Hne Hall Ha. revert tcp acc Hf.
  induction Ha as [last|last hdr pkt l fresh Hn Hfin Hq Ha IH|last hdr pkt l fresh back Hn Hz Hb Hq Ha IH];
    intros tcp acc Hf.
  - cbn. eauto.
  - apply Forall_cons_1 in Hall as [Ht Hall]. cbn in Ht |- *.
    destruct (FollowTcp_next tcp tuple p dir pl tcptuple last acc hdr pkt 0) as (tcp' & -> & Hf');
      rewrite ?Z.sub_0_r in *; try done; [lia..|]. apply (IH Hall _ _ Hf').
  - apply Forall_cons_1 in Hall as [Ht Hall]. cbn in Ht |- *.
    rewrite (FollowTcp_again tcp tuple p dir pl tcptuple last acc hdr pkt back) by done.
    apply (IH Hall _ _ Hf).
Qed.

(** A segment that starts before the next byte but ends after it is handed to
    the plugin whole, so the [k] bytes it repeats are parsed a second time. *)
Theorem overlap_parsed_twice tcp tuple p dir pl tcptuple last acc hdr pkt k :
  following tcp tuple p dir pl tcptuple last acc -> pk_Tuple pkt = tuple -> valid_dir dir ->
  0 < k < len (vis (pk_Payload pkt)) -> len (vis (pk_Payload pkt)) < 2 ^ 31 -> hdr_FIN hdr = false ->
  hdr_Seq hdr = uint32_of (last - k) ->
  fst (Parse pl pkt tcptuple dir (fst acc) (snd acc)) <> OutOfFuel ->
  exists tcp', FollowTcp tcp hdr pkt = Ret tcp' /\
    following tcp' tuple p dir pl tcptuple (uint32_of (last - k + len (vis (pk_Payload pkt))))
      (deliver pl tcptuple dir acc pkt).
Proof. intros. eapply FollowTcp_next; try done. lia. Qed.

(** A segment that leaves a hole of [d] bytes reaches the plugin as a gap, not
    as data; the stream is then unregistered and its data dropped, but its
    timer keeps running. *)
Theorem gap_drops_stream tcp tuple p s dir pl last hdr pkt d :
  streams_ok tcp -> reaches tcp tuple p dir -> heap tcp !! p = Some s -> pk_Tuple pkt = tuple ->
  Get (protos tcp) (ts_protocol s) = Some pl -> lastSeq s dir = last -> last <> 0 ->
  0 < d -> 0 < len (vis (pk_Payload pkt)) -> d + len (vis (pk_Payload pkt)) < 2 ^ 31 ->
  hdr_Seq hdr = uint32_of (last + d) ->
  forall data st, GapInStream pl (ts_tcptuple s) dir (ts_Data s) (plugins tcp) = (Ret data, st) ->
  exists tcp', FollowTcp tcp hdr pkt = Ret tcp' /\ plugins tcp' = st /\
    tcpStreamsMap tcp' = delete (Hashable (ts_tuple s)) (tcpStreamsMap tcp) /\
    ts_Data <$> heap tcp' !! p = Some None /\ p ∈ timers tcp'.
Proof.
  intros Hok Hr Hs Ht Hg Hl Hz Hd Hn Hb Hq data st Hgap. unfold FollowTcp.
  rewrite (Hr pkt Ht), Hs. unfold followStream. rewrite Hl, Hq, wrapU_add_r, wrapU_add_l.
  set (n := len _) in *.
  assert (TcpSeqBeforeEq (uint32_of (last + d + n)) last = false) as ->.
  { apply not_true_iff_false. replace (last + d + n) with (last + (d + n)) by lia.
    rewrite (seq_before_eq last (d + n)) by lia. lia. }
  assert (TcpSeqBefore last (uint32_of (last + d)) = true) as ->.
  { apply (seq_before_flip last d); lia. }
  rewrite bool_decide_eq_true_2, bool_decide_eq_false_2 by (done || lia). cbn [negb andb].
  unfold StreamGap, assign_data. rewrite Hg, Hgap. cbn [fst snd]. unfold Expire. cbn.
  rewrite lookup_insert_eq. cbn. eexists. split; [done|]. cbn. rewrite lookup_insert_eq. repeat split.
  assert (exists k, tcpStreamsMap tcp !! k = Some p) as [k Hk].
  { pose proof (Hr pkt Ht) as G. apply findStream_old in G as [_ [[_ G]|(_ & _ & G)]]; eauto. }
  by destruct (ok_entry _ Hok k p Hk) as (? & ? & _ & _ & _ & _ & _ & ?).
Qed.

(** ** The timer of a stream that a gap has dropped *)

(** Packets and timers, but not the timer of [p]. *)
Inductive other_step (p : ptr) tcp : Tcp St Data -> Prop :=
| other_packet hdr pkt tcp' : packet_ok pkt -> FollowTcp tcp hdr pkt = Ret tcp' -> other_step p tcp tcp'
| other_timer q : q <> p -> other_step p tcp (fireTimer tcp q).

(** A stream of the tuple with the key [k] that is registered no more and whose timer runs. *)
Definition stale tcp (k : bytes) (p : ptr) : Prop :=
  (exists s, heap tcp !! p = Some s /\ Hashable (ts_tuple s) = k) /\ p ∈ timers tcp /\
  forall key, tcpStreamsMap tcp !! key <> Some p.

Lemma keeps_stale tcp tcp' k p : keeps tcp tcp' -> p ∈ timers tcp' -> stale tcp k p -> stale tcp' k p.
Proof.
  intros (Hm & _ & _ & _ & Hh) Ht ((s & E & Ek) & _ & Hn). split; [|split; [exact Ht|]].
  - specialize (Hh p). rewrite E in Hh. destruct (heap tcp' !! p) as [s'|]; [|done]. exists s'. split; [done|].
    injection Hh as _ E2 _ _. by rewrite E2.
  - intros key H. apply (Hn key). by eapply lookup_weaken.
Qed.

Lemma assign_data_timers tcp p s r : timers (snd (assign_data tcp p s r)) = timers tcp.
Proof. unfold assign_data. by destruct (fst r). Qed.

Lemma Expire_timers tcp p : timers (Expire tcp p) = timers tcp.
Proof. unfold Expire. by destruct (heap tcp !! p). Qed.

Lemma AddPacket_timers tcp p s pkt hdr dir : timers (snd (AddPacket tcp p s pkt hdr dir)) = {[p]} ∪ timers tcp.
Proof.
  unfold AddPacket. set (tcp1 := tcp <| timers := _ |>). change ({[p]} ∪ timers tcp) with (timers tcp1). clearbody tcp1.
  destruct (Get _ _) as [pl|]; [|done]. set (r := if decide (len (vis (pk_Payload pkt)) > 0) then _ else _).
  assert (timers (snd r) = timers tcp1) as E by (subst r; case_decide; [apply assign_data_timers|done]).
  clearbody r. destruct r as [[u| |] tcp2]; cbn [snd] in *; [|done..]. destruct (heap tcp2 !! p); [|done].
  destruct (hdr_FIN hdr); [by rewrite assign_data_timers|done].
Qed.

Lemma followStream_timers tcp p s dir created hdr pkt : timers tcp ⊆ timers (snd (followStream tcp p s dir created hdr pkt)).
Proof.
  unfold followStream. case_match; [done|]. case_match.
  - unfold StreamGap. destruct (Get _ _) as [pl|]; [|done].
    pose proof (assign_data_timers tcp p s (GapInStream pl (ts_tcptuple s) dir (ts_Data s) (plugins tcp))) as E.
    destruct (assign_data _ _ _ _) as [[u| |] tcp2]; cbn [snd] in *; [by rewrite Expire_timers, E|by rewrite E..].
  - rewrite AddPacket_timers. cbn. set_solver.
Qed.

Lemma FollowTcp_stale tcp hdr pkt tcp' k p : stale tcp k p -> FollowTcp tcp hdr pkt = Ret tcp' -> stale tcp' k p.
Proof.
  intros Hst. unfold FollowTcp. destruct (findStream tcp pkt) as [[[[q dir] []]|] t1] eqn:Ef.
  - apply findStream_new in Ef as (-> & _ & _ & Hh & _ & ->).
    assert (stale (registered tcp pkt q) k p) as Hst1.
    { destruct Hst as ((s & E & Ek) & Ht & Hn). assert (q <> p) as Hne by congruence. split; [|split; [exact Ht|]].
      - exists s. cbn. by rewrite lookup_insert_ne.
      - intros key H. cbn in H. apply lookup_insert_Some in H as [[_ E']|[_ E']]; [congruence|by apply (Hn key)]. }
    set (s := new_stream tcp pkt). assert (heap (registered tcp pkt q) !! q = Some s) as E by apply lookup_insert_eq. rewrite E.
    pose proof (followStream_keeps (registered tcp pkt q) q s TcpDirectionOriginal true hdr pkt E) as Hk.
    pose proof (followStream_timers (registered tcp pkt q) q s TcpDirectionOriginal true hdr pkt) as Ht.
    destruct (followStream _ _ _ _ _ _ _) as [[] t3]; intros [= <-]; (eapply keeps_stale; [exact Hk|apply Ht, Hst1|exact Hst1]).
  - apply findStream_old in Ef as [-> _]. destruct (heap tcp !! q) as [s|] eqn:E; [|by intros [= <-]].
    pose proof (followStream_keeps tcp q s dir false hdr pkt E) as Hk. pose proof (followStream_timers tcp q s dir false hdr pkt) as Ht.
    destruct (followStream _ _ _ _ _ _ _) as [[] t3]; intros [= <-]; (eapply keeps_stale; [exact Hk|apply Ht, Hst|exact Hst]).
  - apply findStream_None in Ef as ->. by intros [= <-].
Qed.

Lemma other_step_stale tcp tcp' k p : other_step p tcp tcp' -> stale tcp k p -> stale tcp' k p.
Proof.
  intros [hdr pkt t Hp E|q Hq] Hst; [by eapply FollowTcp_stale|]. unfold fireTimer. case_decide; [|done].
  set (t0 := tcp <| timers := _ |>). assert (stale t0 k p) as H0.
  { destruct Hst as (H1 & H2 & H3). split; [exact H1|]. split; [|exact H3]. subst t0. cbn. set_solver. }
  eapply keeps_stale; [apply Expire_keeps| |exact H0]. rewrite Expire_timers. apply H0.
Qed.

Lemma other_step_ok tcp tcp' p : other_step p tcp tcp' -> streams_ok tcp -> streams_ok tcp'.
Proof. intros [hdr pkt t Hp E|q _] Hok; [by apply (FollowTcp_ok tcp hdr pkt t)|by apply fireTimer_ok]. Qed.

(** C7: after a gap has dropped a stream, its timer stays, whatever packets and other timers come;
    and if another stream [q] is registered under the tuple when it fires, then [q] is
    unregistered, although its own timer still runs and nothing happened to it. *)
Theorem stale_timer_drops_new_stream tcp tuple p s dir pl last hdr pkt d data st tcp1 tcp2 q :
  streams_ok tcp -> packet_ok pkt -> reaches tcp tuple p dir -> heap tcp !! p = Some s -> pk_Tuple pkt = tuple ->
  Get (protos tcp) (ts_protocol s) = Some pl -> lastSeq s dir = last -> last <> 0 ->
  0 < d -> 0 < len (vis (pk_Payload pkt)) -> d + len (vis (pk_Payload pkt)) < 2 ^ 31 ->
  hdr_Seq hdr = uint32_of (last + d) ->
  GapInStream pl (ts_tcptuple s) dir (ts_Data s) (plugins tcp) = (Ret data, st) ->
  FollowTcp tcp hdr pkt = Ret tcp1 -> rtc (other_step p) tcp1 tcp2 ->
  tcpStreamsMap tcp2 !! Hashable (ts_tuple s) = Some q ->
  q <> p /\ q ∈ timers (fireTimer tcp2 p) /\ heap (fireTimer tcp2 p) !! q = heap tcp2 !! q /\
  tcpStreamsMap (fireTimer tcp2 p) = delete (Hashable (ts_tuple s)) (tcpStreamsMap tcp2).
Proof.
  intros Hok Hp Hr Hs Ht Hg Hl Hz Hd Hn Hb Hq Hgap E1 Hsteps Hnew.
  destruct (gap_drops_stream tcp tuple p s dir pl last hdr pkt d Hok Hr Hs Ht Hg Hl Hz Hd Hn Hb Hq data st Hgap) as (t & E & _ & Em & Ed & Hti).
  assert (t = tcp1) as -> by congruence. assert (streams_ok tcp1) as Hok1 by (by eapply (FollowTcp_ok tcp hdr pkt)).
  assert (exists k, tcpStreamsMap tcp !! k = Some p) as [k0 Hk0].
  { pose proof (Hr pkt Ht) as G. apply findStream_old in G as [_ [[_ G]|(_ & _ & G)]]; eauto. }
  assert (stale tcp1 (Hashable (ts_tuple s)) p) as Hst.
  { split; [|split; [exact Hti|]].
    - pose proof E1 as E2. unfold FollowTcp in E2. rewrite (Hr pkt Ht), Hs in E2.
      destruct (followStream_keeps tcp p s dir false hdr pkt Hs) as (_ & _ & _ & _ & Hh). specialize (Hh p). rewrite Hs in Hh.
      destruct (followStream _ _ _ _ _ _ _) as [[] t3]; try done; injection E2 as ->; cbn [snd] in Hh;
        (destruct (heap tcp1 !! p) as [s'|]; [|done]); exists s'; (split; [done|]); injection Hh as _ E3 _ _; by rewrite E3.
    - intros key H. rewrite Em in H. apply lookup_delete_Some in H as [Hne H].
      destruct (ok_entry _ Hok key p H) as (s2 & G & <- & _). congruence. }
  assert (streams_ok tcp2 /\ stale tcp2 (Hashable (ts_tuple s)) p) as [Hok2 ((s2 & G & Gk) & Hti2 & Hno)].
  { clear -Hsteps Hok1 Hst. induction Hsteps as [|t1 t2 t3 H _ IH]; [done|]. apply IH; [by eapply other_step_ok|by eapply other_step_stale]. }
  assert (q <> p) as Hne by (intros ->; by apply (Hno (Hashable (ts_tuple s)))). split; [exact Hne|].
  destruct (ok_entry _ Hok2 _ _ Hnew) as (u & _ & _ & _ & _ & _ & _ & Hqt).
  unfold fireTimer. rewrite decide_True by done. rewrite Expire_timers. unfold Expire. cbn. rewrite G. cbn. split; [set_solver|].
  split; [by rewrite lookup_insert_ne|]. by rewrite Gk.
Qed.
End Streams.

(** * A plugin for examples: it logs what it is given. *)
Module TcpDemo.
Definition log_plugin : ProtocolPlugin (list (bytes * Z)) unit := {|
  GetPorts := [6379];
  Parse := fun pkt _ dir _ log => (Ret (Some tt), log ++ [(vis (pk_Payload pkt), dir)]);
  ReceivedFin := fun _ dir d log => (Ret d, log ++ [(bs "FIN", dir)]);
  GapInStream := fun _ dir d log => (Ret d, log ++ [(bs "GAP", dir)])
|}.
Definition start : Tcp (list (bytes * Z)) unit :=
  {| tcp_id := 0; tcpStreamsMap := ∅; tcpPortMap := {[6379 := RedisProtocol]}; heap := ∅;
     timers := ∅; protos := Register ∅ RedisProtocol log_plugin; plugins := [] |}.
Definition seg (seq : Z) (payload : bytes) : TCPHeader * Packet :=
  ({| hdr_Seq := seq; hdr_FIN := false; hdr_SrcPort := 40000; hdr_DstPort := 6379 |},
   Demo.packet 0 payload).
Definition after (l : list (TCPHeader * Packet)) : Tcp (list (bytes * Z)) unit :=
  match FollowAll start l with Ret t => t | _ => start end.
Definition key : bytes := Hashable Demo.ipport.
Definition back : Packet :=
  {| pk_Ts := 0; pk_Tuple := reversed Demo.ipport; pk_Payload := mkSlice [] [] |}.
End TcpDemo.
Import TcpDemo.

Lemma start_ok : streams_ok start.
Proof. split; cbn; intros *; rewrite lookup_empty; done. Qed.
Lemma demo_ok : packet_ok (Demo.packet 0 []).
Proof. split; [|split]; [cbn; lia..|reflexivity]. Qed.

(** One packet later. *)
Lemma after_one_ok b : streams_ok (after [seg 100 [b]]).
Proof. by apply (FollowTcp_ok start (fst (seg 100 [b])) (snd (seg 100 [b]))); [apply demo_ok|apply start_ok|]. Qed.
Lemma after_one_reaches b : reaches (after [seg 100 [b]]) Demo.ipport 0%nat 1.
Proof. intros pkt Hp. unfold findStream. rewrite Hp. reflexivity. Qed.

Definition demo_decode (data : bytes) : option Layers :=
  Some {| l_decoded := [LayerTypeOther; LayerTypeIPv4; LayerTypeTCP; LayerTypePayload];
          l_ip4_Src := Demo.ip 10 0 0 1; l_ip4_Dst := Demo.ip 10 0 0 2;
          l_ip6_Src := replicate 16 x00; l_ip6_Dst := replicate 16 x00;
          l_tcp := fst (seg 100 (bs "a")); l_payload := mkSlice (bs "a") [] |}.

Lemma streams_invariant_witness : streams_ok (fireTimer (after [seg 100 (bs "a")]) 0%nat).
Proof.
  apply (streams_invariant start); [apply start_ok|].
  apply (rtc_l _ _ (after [seg 100 (bs "a")])); [|apply rtc_once, step_timer].
  apply (step_packet _ demo_decode [] 0); [|by vm_compute].
  intros d [= <-]. by vm_compute.
Defined.

Lemma one_stream_per_connection_witness :
  findStream (after [seg 100 (bs "a")]) back = (Some (0%nat, 0, false), after [seg 100 (bs "a")]).
Proof.
  apply (one_stream_per_connection (after [seg 100 (bs "a")]) (Demo.packet 0 []) 0%nat 1 false);
    [apply after_one_ok|apply demo_ok|by vm_compute|by apply after_one_reaches|reflexivity].
Defined.

Lemma following_one b :
  following (after [seg 100 [b]]) Demo.ipport 0%nat 1 log_plugin Demo.tuple 101 (Some tt, [([b], 1)]).
Proof. eexists. split; [apply after_one_reaches|]. repeat split. Qed.

Lemma in_order_delivery_witness :
  exists tcp' last', FollowAll (after [seg 100 (bs "a")]) [seg 101 (bs "bc"); seg 100 (bs "ab"); seg 103 (bs "d")] = Ret tcp' /\
    following tcp' Demo.ipport 0%nat 1 log_plugin Demo.tuple last'
      (foldl (deliver log_plugin Demo.tuple 1) (Some tt, [(bs "a", 1)])
         [Demo.packet 0 (bs "bc"); Demo.packet 0 (bs "d")]).
Proof.
  apply (in_order_delivery _ _ _ _ _ _ 101); [apply following_one|by right|done|by repeat constructor|].
  apply arrivals_next; [by vm_compute|done|done|].
  apply (arrivals_again _ _ _ _ _ 1); [by vm_compute..|].
  apply arrivals_next; [by vm_compute|done|done|]. constructor.
Defined.

Lemma overlap_parsed_twice_witness :
  exists tcp', FollowTcp (after [seg 100 (bs "a")]) (fst (seg 100 (bs "ab"))) (Demo.packet 0 (bs "ab")) = Ret tcp' /\
    following tcp' Demo.ipport 0%nat 1 log_plugin Demo.tuple 102 (Some tt, [(bs "a", 1); (bs "ab", 1)]).
Proof.
  apply (overlap_parsed_twice (after [seg 100 (bs "a")]) Demo.ipport 0%nat 1 log_plugin Demo.tuple 101
    (Some tt, [(bs "a", 1)]) (fst (seg 100 (bs "ab"))) (Demo.packet 0 (bs "ab")) 1);
    [apply following_one|done|by right|by vm_compute..].
Defined.

Definition demo_stream : TcpStream unit :=
  {| ts_id := 1; ts_tuple := Demo.ipport; ts_protocol := RedisProtocol; ts_tcptuple := Demo.tuple;
     ts_lastSeq0 := 0; ts_lastSeq1 := 101; ts_Data := Some tt |}.

Lemma gap_drops_stream_witness :
  exists tcp', FollowTcp (after [seg 100 (bs "a")]) (fst (seg 200 (bs "b"))) (snd (seg 200 (bs "b"))) = Ret tcp' /\
    plugins tcp' = [(bs "a", 1); (bs "GAP", 1)] /\
    tcpStreamsMap tcp' = delete key (tcpStreamsMap (after [seg 100 (bs "a")])) /\
    ts_Data <$> heap tcp' !! 0%nat = Some None /\ 0%nat ∈ timers tcp'.
Proof.
  apply (gap_drops_stream (after [seg 100 (bs "a")]) Demo.ipport 0%nat demo_stream 1 log_plugin 101
    (fst (seg 200 (bs "b"))) (snd (seg 200 (bs "b"))) 99) with (data := Some tt);
    [apply after_one_ok|apply after_one_reaches|by vm_compute..].
Defined.

(** A gap, a new stream under the same tuple, and the timer of the first one. *)
Lemma stale_timer_drops_new_stream_witness :
  let tcp2 := after [seg 100 (bs "a"); seg 200 (bs "b"); seg 201 (bs "c")] in
  tcpStreamsMap tcp2 !! key = Some 1%nat /\ plugins tcp2 = [(bs "a", 1); (bs "GAP", 1); (bs "c", 1)] /\
  tcpStreamsMap (fireTimer tcp2 0%nat) !! key = None /\ 1%nat ∈ timers (fireTimer tcp2 0%nat).
Proof.
  intros tcp2. split; [by vm_compute|]. split; [by vm_compute|].
  destruct (stale_timer_drops_new_stream (after [seg 100 (bs "a")]) Demo.ipport 0%nat demo_stream 1 log_plugin 101
    (fst (seg 200 (bs "b"))) (snd (seg 200 (bs "b"))) 99 (Some tt) [(bs "a", 1); (bs "GAP", 1)]
    (after [seg 100 (bs "a"); seg 200 (bs "b")]) tcp2 1%nat) as (_ & Ht & _ & ->);
    [apply after_one_ok|apply demo_ok|apply after_one_reaches|by vm_compute..| |by vm_compute|].
  - apply rtc_once. apply (other_packet _ _ (fst (seg 201 (bs "c"))) (snd (seg 201 (bs "c")))); [apply demo_ok|by vm_compute].
  - split; [by vm_compute|exact Ht].
Defined.
