(* ===== verification/Gopacket.v ===== *)
(** What the sniffer's decoder calls of gopacket (layers/ethernet.go, linux_sll.go, loopback.go,
    ip4.go, ip6.go, tcp.go, enums.go, parser.go): from the bytes of a frame to its layers.  A
    packet is a slice of the buffer of the capture, and a slice expression may reach behind the
    packet, up to the capacity of the buffer. *)
From S2P Require Export Tcp.
From stdpp Require Import list.
#[local] Open Scope Z_scope.

(** * Layer types (layertypes.go, decode.go, enums.go) *)

(** A [LayerType] is its registered number. *)
Module layers.
Definition LayerTypeZero : Z := 0.
Definition LayerTypePayload : Z := 2.
Definition LayerTypeFragment : Z := 3.
Definition LayerTypeARP : Z := 10.
Definition LayerTypeCiscoDiscovery : Z := 11.
Definition LayerTypeEthernetCTP : Z := 12.
Definition LayerTypeDot1Q : Z := 15.
Definition LayerTypeEtherIP : Z := 16.
Definition LayerTypeEthernet : Z := 17.
Definition LayerTypeGRE : Z := 18.
Definition LayerTypeICMPv4 : Z := 19.
Definition LayerTypeIPv4 : Z := 20.
Definition LayerTypeIPv6 : Z := 21.
Definition LayerTypeLLC : Z := 22.
Definition LayerTypeMPLS : Z := 24.
Definition LayerTypePPPoE : Z := 26.
Definition LayerTypeRUDP : Z := 27.
Definition LayerTypeSCTP : Z := 28.
Definition LayerTypeTCP : Z := 44.
Definition LayerTypeUDP : Z := 45.
Definition LayerTypeIPv6HopByHop : Z := 46.
Definition LayerTypeIPv6Routing : Z := 47.
Definition LayerTypeIPv6Fragment : Z := 48.
Definition LayerTypeIPSecAH : Z := 50.
Definition LayerTypeIPSecESP : Z := 51.
Definition LayerTypeUDPLite : Z := 52.
Definition LayerTypeLoopback : Z := 54.
Definition LayerTypeEAPOL : Z := 56.
Definition LayerTypeICMPv6 : Z := 57.
Definition LayerTypeLinkLayerDiscovery : Z := 58.
Definition LayerTypeNortelDiscovery : Z := 61.
Definition LayerTypeIGMP : Z := 62.
Definition LayerTypeLinuxSLL : Z := 113.

Definition LinkTypeNull : Z := 0.
Definition LinkTypeEthernet : Z := 1.
Definition LinkTypeLinuxSLL : Z := 113.
End layers.

(** The entries of a metadata table that have a layer type; the others have the zero one. *)
Definition table_get (t : list (Z * Z)) (n : Z) : Z :=
  match list_find (fun e => fst e = n) t with Some (_, e) => snd e | None => layers.LayerTypeZero end.

Definition EthernetTypeMetadata : list (Z * Z) :=
  [(0x0800, layers.LayerTypeIPv4); (0x86DD, layers.LayerTypeIPv6); (0, layers.LayerTypeLLC); (0x0806, layers.LayerTypeARP);
   (0x8100, layers.LayerTypeDot1Q); (0x8863, layers.LayerTypePPPoE); (0x8864, layers.LayerTypePPPoE);
   (0x9000, layers.LayerTypeEthernetCTP); (0x2000, layers.LayerTypeCiscoDiscovery); (0x01a2, layers.LayerTypeNortelDiscovery);
   (0x88cc, layers.LayerTypeLinkLayerDiscovery); (0x8847, layers.LayerTypeMPLS); (0x8848, layers.LayerTypeMPLS);
   (0x888e, layers.LayerTypeEAPOL)].
Definition IPProtocolMetadata : list (Z * Z) :=
  [(6, layers.LayerTypeTCP); (17, layers.LayerTypeUDP); (1, layers.LayerTypeICMPv4); (58, layers.LayerTypeICMPv6);
   (132, layers.LayerTypeSCTP); (41, layers.LayerTypeIPv6); (94, layers.LayerTypeIPv4); (97, layers.LayerTypeEtherIP);
   (27, layers.LayerTypeRUDP); (47, layers.LayerTypeGRE); (0, layers.LayerTypeIPv6HopByHop); (43, layers.LayerTypeIPv6Routing);
   (44, layers.LayerTypeIPv6Fragment); (60, layers.LayerTypeIPv6Fragment); (51, layers.LayerTypeIPSecAH);
   (50, layers.LayerTypeIPSecESP); (136, layers.LayerTypeUDPLite); (137, layers.LayerTypeMPLS); (2, layers.LayerTypeIGMP)].
Definition ProtocolFamilyMetadata : list (Z * Z) :=
  [(2, layers.LayerTypeIPv4); (24, layers.LayerTypeIPv6); (28, layers.LayerTypeIPv6); (30, layers.LayerTypeIPv6);
   (10, layers.LayerTypeIPv6)].

Definition EthernetType_LayerType (t : Z) : Z := table_get EthernetTypeMetadata t.
Definition IPProtocol_LayerType (t : Z) : Z := table_get IPProtocolMetadata t.
Definition ProtocolFamily_LayerType (t : Z) : Z := table_get ProtocolFamilyMetadata t.
Definition EthernetTypeLLC : Z := 0.
Definition IPProtocolIPv6HopByHop : Z := 0.

(** * Decoding in place *)

(** [DecodeFromBytes] writes into its layer and may set the flag [Truncated] of the parser; it
    ends normally, with an error or in a panic, with the writes made so far kept. *)
Inductive verdict (A : Type) := Done (a : A) | Failed (err : bytes) | Panicked | NoFuel.
Arguments Done {A} a.
Arguments Failed {A} err.
Arguments Panicked {A}.
Arguments NoFuel {A}.

Definition dec (L A : Type) : Type := L * bool -> verdict A * (L * bool).

Definition dret {L A} (a : A) : dec L A := fun s => (Done a, s).
Definition dfail {L A} (err : bytes) : dec L A := fun s => (Failed err, s).
Definition dbind {L A B} (m : dec L A) (k : A -> dec L B) : dec L B := fun s =>
  match m s with
  | (Done a, s) => k a s
  | (Failed e, s) => (Failed e, s)
  | (Panicked, s) => (Panicked, s)
  | (NoFuel, s) => (NoFuel, s)
  end.
Definition dlift {L A} (o : outcome A) : dec L A := fun s =>
  (match o with Ret a => Done a | Panic => Panicked | OutOfFuel => NoFuel end, s).
Definition dget {L} : dec L L := fun s => (Done (fst s), s).
Definition update {L} (f : L -> L) : dec L unit := fun '(l, truncated) => (Done tt, (f l, truncated)).
Definition SetTruncated {L} : dec L unit := fun '(l, _) => (Done tt, (l, true)).

Declare Scope dec_scope.
#[local] Open Scope dec_scope.
Notation "'let?' x := m 'in' k" := (dbind m (fun x => k)) (at level 200, x binder, m at level 100, k at level 200) : dec_scope.
Notation "m ;;? k" := (dbind m (fun _ => k)) (at level 100, k at level 200, right associativity) : dec_scope.

(** [data[i]], [data[lo:hi]], [data[lo:]], and the numbers of package encoding/binary in slices
    of their size. *)
Definition index {L} (data : slice) (i : Z) : dec L Z := let? b := dlift (at_ (vis data) i) in dret (u8 b).
Definition between {L} (data : slice) (lo hi : Z) : dec L slice := dlift (sl_slice data lo hi).
Definition from {L} (data : slice) (lo : Z) : dec L slice := dlift (sl_from data lo).
Definition BigEndian_Uint16 {L} (data : slice) (lo : Z) : dec L Z := let? s := between data lo (lo + 2) in dlift (Bytes_Ntohs (vis s)).
Definition BigEndian_Uint32 {L} (data : slice) (lo : Z) : dec L Z := let? s := between data lo (lo + 4) in dlift (Bytes_Ntohl (vis s)).
Definition LittleEndian_Uint32 {L} (data : slice) (lo : Z) : dec L Z := let? s := between data lo (lo + 4) in dlift (Bytes_Ntohl (rev (vis s))).

Definition nil_slice : slice := mkSlice [] [].
(** A bit of a byte is set. *)
Definition bit (b mask : Z) : bool := bool_decide (Z.land b mask <> 0).

(** ** Ethernet *)

Record Ethernet := {
  eth_Contents : slice; eth_Payload : slice; eth_SrcMAC : bytes; eth_DstMAC : bytes; eth_EthernetType : Z; eth_Length : Z
}.
#[export] Instance eta_Ethernet : Settable Ethernet := fun r =>
  {| eth_Contents := eth_Contents r; eth_Payload := eth_Payload r; eth_SrcMAC := eth_SrcMAC r; eth_DstMAC := eth_DstMAC r;
     eth_EthernetType := eth_EthernetType r; eth_Length := eth_Length r |}.

Definition Ethernet_DecodeFromBytes (data : slice) : dec Ethernet unit :=
  if decide (len (vis data) < 14) then dfail (bs "Ethernet packet too small") else
  let? dst := between data 0 6 in
  update (fun eth => eth <| eth_DstMAC := vis dst |>) ;;?
  let? src := between data 6 12 in
  update (fun eth => eth <| eth_SrcMAC := vis src |>) ;;?
  let? ty := BigEndian_Uint16 data 12 in
  update (fun eth => eth <| eth_EthernetType := ty |>) ;;?
  let? contents := between data 0 14 in
  let? payload := from data 14 in
  update (fun eth => eth <| eth_Contents := contents |> <| eth_Payload := payload |>) ;;?
  if decide (ty < 0x0600) then
    update (fun eth => eth <| eth_Length := ty |> <| eth_EthernetType := EthernetTypeLLC |>) ;;?
    let cmp := len (vis payload) - ty in
    if decide (cmp < 0) then SetTruncated
    else if decide (cmp > 0) then
      let? payload := between payload 0 (len (vis payload) - cmp) in
      update (fun eth => eth <| eth_Payload := payload |>)
    else dret tt
  else dret tt.

(** ** Linux cooked capture *)

Record LinuxSLL := {
  sll_Contents : slice; sll_Payload : slice; sll_PacketType : Z; sll_AddrLen : Z; sll_Addr : bytes; sll_EthernetType : Z
}.
#[export] Instance eta_LinuxSLL : Settable LinuxSLL := fun r =>
  {| sll_Contents := sll_Contents r; sll_Payload := sll_Payload r; sll_PacketType := sll_PacketType r; sll_AddrLen := sll_AddrLen r;
     sll_Addr := sll_Addr r; sll_EthernetType := sll_EthernetType r |}.

Definition LinuxSLL_DecodeFromBytes (data : slice) : dec LinuxSLL unit :=
  if decide (len (vis data) < 16) then dfail (bs "Linux SLL packet too small") else
  let? ty := BigEndian_Uint16 data 0 in
  update (fun sll => sll <| sll_PacketType := ty |>) ;;?
  let? n := BigEndian_Uint16 data 4 in
  update (fun sll => sll <| sll_AddrLen := n |>) ;;?
  let? addr := between data 6 (uint16_of (n + 6)) in
  update (fun sll => sll <| sll_Addr := vis addr |>) ;;?
  let? ty := BigEndian_Uint16 data 14 in
  update (fun sll => sll <| sll_EthernetType := ty |>) ;;?
  let? contents := between data 0 16 in
  let? payload := from data 16 in
  update (fun sll => sll <| sll_Contents := contents |> <| sll_Payload := payload |>).

(** ** BSD loopback *)

Record Loopback := { lo_Contents : slice; lo_Payload : slice; lo_Family : Z }.
#[export] Instance eta_Loopback : Settable Loopback := fun r =>
  {| lo_Contents := lo_Contents r; lo_Payload := lo_Payload r; lo_Family := lo_Family r |}.

Definition Loopback_DecodeFromBytes (data : slice) : dec Loopback unit :=
  if decide (len (vis data) < 4) then dfail (bs "Loopback packet too small") else
  let? b0 := index data 0 in
  let? b1 := (if decide (b0 = 0) then index data 1 else dret 1) in
  let? prot := (if decide (b0 = 0 /\ b1 = 0) then BigEndian_Uint32 data 0 else LittleEndian_Uint32 data 0) in
  if decide (prot > 0xFF) then dfail (bs "Invalid loopback protocol") else
  update (fun lo => lo <| lo_Family := prot |>) ;;?
  let? contents := between data 0 4 in
  let? payload := from data 4 in
  update (fun lo => lo <| lo_Contents := contents |> <| lo_Payload := payload |>).

(** ** IPv4 *)

(** [IPv4Option], [TCPOption] and [IPv6HopByHopOption], which have these fields. *)
Record HeaderOption := { OptionType : Z; OptionLength : Z; OptionData : bytes }.

Record IPv4 := {
  ip4_Contents : slice; ip4_Payload : slice; ip4_Version : Z; ip4_IHL : Z; ip4_TOS : Z; ip4_Length : Z; ip4_Id : Z;
  ip4_Flags : Z; ip4_FragOffset : Z; ip4_TTL : Z; ip4_Protocol : Z; ip4_Checksum : Z; ip4_SrcIP : bytes; ip4_DstIP : bytes;
  ip4_Options : list HeaderOption; ip4_Padding : bytes
}.
#[export] Instance eta_IPv4 : Settable IPv4 := fun r =>
  {| ip4_Contents := ip4_Contents r; ip4_Payload := ip4_Payload r; ip4_Version := ip4_Version r; ip4_IHL := ip4_IHL r;
     ip4_TOS := ip4_TOS r; ip4_Length := ip4_Length r; ip4_Id := ip4_Id r; ip4_Flags := ip4_Flags r;
     ip4_FragOffset := ip4_FragOffset r; ip4_TTL := ip4_TTL r; ip4_Protocol := ip4_Protocol r; ip4_Checksum := ip4_Checksum r;
     ip4_SrcIP := ip4_SrcIP r; ip4_DstIP := ip4_DstIP r; ip4_Options := ip4_Options r; ip4_Padding := ip4_Padding r |}.

(** The loop over the options; the [break] after the end of options leaves the [switch] only. *)
Definition append_option (opt : HeaderOption) : dec IPv4 unit := update (fun ip => ip <| ip4_Options := ip4_Options ip ++ [opt] |>).

Fixpoint ip4_options (fuel : nat) (data : slice) : dec IPv4 unit :=
  if decide (vis data = []) then dret tt else
  match fuel with
  | O => dlift OutOfFuel
  | S fuel =>
      let? ty := index data 0 in
      let? opt := (if decide (ty = 0) then
                     let opt := {| OptionType := ty; OptionLength := 1; OptionData := [] |} in
                     append_option opt ;;?
                     let? padding := from data 1 in
                     update (fun ip => ip <| ip4_Padding := vis padding |>) ;;?
                     dret opt
                   else if decide (ty = 1) then dret {| OptionType := ty; OptionLength := 1; OptionData := [] |}
                   else
                     let? n := index data 1 in
                     let? d := between data 2 n in
                     dret {| OptionType := ty; OptionLength := n; OptionData := vis d |}) in
      if decide (len (vis data) >= OptionLength opt) then
        let? data := from data (OptionLength opt) in
        append_option opt ;;?
        ip4_options fuel data
      else dfail (bs "IP option length exceeds remaining IP header size")
  end.

Definition IPv4_DecodeFromBytes (data : slice) : dec IPv4 unit :=
  let? flagsfrags := BigEndian_Uint16 data 6 in
  let? b := index data 0 in
  update (fun ip => ip <| ip4_Version := Z.shiftr b 4 |> <| ip4_IHL := Z.land b 0x0F |>) ;;?
  let? b := index data 1 in
  update (fun ip => ip <| ip4_TOS := b |>) ;;?
  let? n := BigEndian_Uint16 data 2 in
  update (fun ip => ip <| ip4_Length := n |>) ;;?
  let? n := BigEndian_Uint16 data 4 in
  update (fun ip => ip <| ip4_Id := n |> <| ip4_Flags := Z.shiftr flagsfrags 13 |> <| ip4_FragOffset := Z.land flagsfrags 0x1FFF |>) ;;?
  let? b := index data 8 in
  update (fun ip => ip <| ip4_TTL := b |>) ;;?
  let? b := index data 9 in
  update (fun ip => ip <| ip4_Protocol := b |>) ;;?
  let? n := BigEndian_Uint16 data 10 in
  update (fun ip => ip <| ip4_Checksum := n |>) ;;?
  let? s := between data 12 16 in
  update (fun ip => ip <| ip4_SrcIP := vis s |>) ;;?
  let? s := between data 16 20 in
  update (fun ip => ip <| ip4_DstIP := vis s |>) ;;?
  update (fun ip => ip <| ip4_Contents := data |> <| ip4_Payload := nil_slice |>) ;;?
  let? ip := dget in
  let length := ip4_Length ip in
  let header := wrapU 8 (ip4_IHL ip * 4) in
  if decide (length < 20) then dfail (bs "Invalid (too small) IP length")
  else if decide (ip4_IHL ip < 5) then dfail (bs "Invalid (too small) IP header length")
  else if decide (header > length) then dfail (bs "Invalid IP header length > IP length")
  else
    let cmp := len (vis data) - length in
    let? data := (if decide (cmp > 0) then between data 0 length
                  else if decide (cmp < 0) then
                    SetTruncated ;;?
                    if decide (ip4_IHL ip * 4 > len (vis data)) then dfail (bs "Not all IP header bytes available") else dret data
                  else dret data) in
    let? contents := between data 0 header in
    update (fun ip => ip <| ip4_Contents := contents |>) ;;?
    let? payload := from data header in
    update (fun ip => ip <| ip4_Payload := payload |>) ;;?
    let? data := between data 20 header in
    ip4_options (Datatypes.length (vis data)) data.

Definition IPv4_NextLayerType (ip : IPv4) : Z :=
  if decide (Z.land (ip4_Flags ip) 1 <> 0 \/ ip4_FragOffset ip <> 0) then layers.LayerTypeFragment else IPProtocol_LayerType (ip4_Protocol ip).

(** ** IPv6 *)

Record IPv6HopByHop := {
  hbh_Contents : slice; hbh_Payload : slice; hbh_NextHeader : Z; hbh_HeaderLength : Z; hbh_ActualLength : Z; hbh_Options : list HeaderOption
}.
#[export] Instance eta_IPv6HopByHop : Settable IPv6HopByHop := fun r =>
  {| hbh_Contents := hbh_Contents r; hbh_Payload := hbh_Payload r; hbh_NextHeader := hbh_NextHeader r;
     hbh_HeaderLength := hbh_HeaderLength r; hbh_ActualLength := hbh_ActualLength r; hbh_Options := hbh_Options r |}.

(** [ip6_HopByHop]: the pointer to [ip6_hbh], or nil. *)
Record IPv6 := {
  ip6_Contents : slice; ip6_Payload : slice; ip6_Version : Z; ip6_TrafficClass : Z; ip6_FlowLabel : Z; ip6_Length : Z;
  ip6_NextHeader : Z; ip6_HopLimit : Z; ip6_SrcIP : bytes; ip6_DstIP : bytes; ip6_HopByHop : bool; ip6_hbh : IPv6HopByHop
}.
#[export] Instance eta_IPv6 : Settable IPv6 := fun r =>
  {| ip6_Contents := ip6_Contents r; ip6_Payload := ip6_Payload r; ip6_Version := ip6_Version r; ip6_TrafficClass := ip6_TrafficClass r;
     ip6_FlowLabel := ip6_FlowLabel r; ip6_Length := ip6_Length r; ip6_NextHeader := ip6_NextHeader r; ip6_HopLimit := ip6_HopLimit r;
     ip6_SrcIP := ip6_SrcIP r; ip6_DstIP := ip6_DstIP r; ip6_HopByHop := ip6_HopByHop r; ip6_hbh := ip6_hbh r |}.

(** [decodeIPv6HeaderTLVOption]: the option and its actual length. *)
Definition decodeIPv6HeaderTLVOption (data : slice) : outcome (HeaderOption * Z) :=
  let! b := at_ (vis data) 0 in
  if decide (u8 b = 0) then Ret ({| OptionType := 0; OptionLength := 0; OptionData := [] |}, 1) else
  let! n := at_ (vis data) 1 in
  let! d := sl_slice data 2 (u8 n + 2) in
  Ret ({| OptionType := u8 b; OptionLength := u8 n; OptionData := vis d |}, u8 n + 2).

Fixpoint hbh_options (fuel : nat) (d : slice) (options : list HeaderOption) : outcome (list HeaderOption) :=
  if decide (vis d = []) then Ret options else
  match fuel with
  | O => OutOfFuel
  | S fuel =>
      let! ' (opt, n) := decodeIPv6HeaderTLVOption d in
      let! d := sl_from d n in
      hbh_options fuel d (options ++ [opt])
  end.

(** [decodeIPv6ExtensionBase] and [IPv6HopByHop.DecodeFromBytes]; the fields are written before
    the options are read, and the options one by one, but nothing reads them after a panic. *)
Definition IPv6HopByHop_DecodeFromBytes (data : slice) : outcome IPv6HopByHop :=
  let! b := at_ (vis data) 0 in
  let! n := at_ (vis data) 1 in
  let actual := u8 n * 8 + 8 in
  let! contents := sl_slice data 0 actual in
  let! payload := sl_from data actual in
  let! d := sl_from contents 2 in
  let! options := hbh_options (length (vis d)) d [] in
  Ret {| hbh_Contents := contents; hbh_Payload := payload; hbh_NextHeader := u8 b; hbh_HeaderLength := u8 n; hbh_ActualLength := actual;
         hbh_Options := options |}.

Definition IPv6HopByHopOptionJumbogram : Z := 0xC2.

Definition jumbo (o : HeaderOption) : bool := bool_decide (OptionType o = IPv6HopByHopOptionJumbogram).

Definition IPv6_DecodeFromBytes (data : slice) : dec IPv6 unit :=
  let? b := index data 0 in
  let? first := BigEndian_Uint16 data 0 in
  let? word := BigEndian_Uint32 data 0 in
  update (fun ip => ip <| ip6_Version := Z.shiftr b 4 |> <| ip6_TrafficClass := Z.land (Z.shiftr first 4) 0x00FF |>
                       <| ip6_FlowLabel := Z.land word 0x000FFFFF |>) ;;?
  let? length := BigEndian_Uint16 data 4 in
  update (fun ip => ip <| ip6_Length := length |>) ;;?
  let? next := index data 6 in
  update (fun ip => ip <| ip6_NextHeader := next |>) ;;?
  let? b := index data 7 in
  update (fun ip => ip <| ip6_HopLimit := b |>) ;;?
  let? s := between data 8 24 in
  update (fun ip => ip <| ip6_SrcIP := vis s |>) ;;?
  let? s := between data 24 40 in
  update (fun ip => ip <| ip6_DstIP := vis s |> <| ip6_HopByHop := false |>) ;;?
  let? contents := between data 0 40 in
  let? payload := from data 40 in
  update (fun ip => ip <| ip6_Contents := contents |> <| ip6_Payload := payload |>) ;;?
  let? jumbogram :=
    (if decide (next = IPProtocolIPv6HopByHop) then
       let? hbh := dlift (IPv6HopByHop_DecodeFromBytes payload) in
       update (fun ip => ip <| ip6_hbh := hbh |>) ;;?
       let hbhLen := len (vis (hbh_Contents hbh)) in
       let? contents := between data 0 (40 + hbhLen) in
       let? payload := from data (40 + hbhLen) in
       update (fun ip => ip <| ip6_Contents := contents |> <| ip6_Payload := payload |> <| ip6_HopByHop := true |>) ;;?
       if decide (length = 0) then
         match find (fun o => jumbo o) (hbh_Options hbh) with
         | Some o =>
             if decide (len (OptionData o) <> 4) then dfail (bs "Invalid jumbo packet option length") else
             let? pEnd := dlift (Bytes_Ntohl (OptionData o)) in
             (if decide (pEnd > len (vis payload)) then SetTruncated
              else
                let? payload := between payload 0 pEnd in
                update (fun ip => ip <| ip6_Payload := payload |> <| ip6_hbh := ip6_hbh ip <| hbh_Payload := payload |> |>)) ;;?
             dret true
         | None => dfail (bs "IPv6 length 0, but HopByHop header does not have jumbogram option")
         end
       else dret false
     else dret false) in
  if jumbogram : bool then dret tt
  else if decide (length = 0) then dfail (bs "IPv6 length 0, but next header is not HopByHop")
  else
    let? ip := dget in
    (if decide (length > len (vis (ip6_Payload ip))) then SetTruncated else dret tt) ;;?
    let? payload := between (ip6_Payload ip) 0 (Z.min length (len (vis (ip6_Payload ip)))) in
    update (fun ip => ip <| ip6_Payload := payload |>).

Definition IPv6_NextLayerType (ip : IPv6) : Z :=
  IPProtocol_LayerType (if ip6_HopByHop ip then hbh_NextHeader (ip6_hbh ip) else ip6_NextHeader ip).

(** ** TCP *)

Record TCP := {
  tcp_Contents : slice; tcp_Payload : slice; tcp_SrcPort : Z; tcp_DstPort : Z; tcp_Seq : Z; tcp_Ack : Z; tcp_DataOffset : Z;
  tcp_FIN : bool; tcp_SYN : bool; tcp_RST : bool; tcp_PSH : bool; tcp_ACK : bool; tcp_URG : bool; tcp_ECE : bool; tcp_CWR : bool;
  tcp_NS : bool; tcp_Window : Z; tcp_Checksum : Z; tcp_Urgent : Z; tcp_sPort : bytes; tcp_dPort : bytes;
  tcp_Options : list HeaderOption; tcp_Padding : bytes
}.
#[export] Instance eta_TCP : Settable TCP := fun r =>
  {| tcp_Contents := tcp_Contents r; tcp_Payload := tcp_Payload r; tcp_SrcPort := tcp_SrcPort r; tcp_DstPort := tcp_DstPort r;
     tcp_Seq := tcp_Seq r; tcp_Ack := tcp_Ack r; tcp_DataOffset := tcp_DataOffset r; tcp_FIN := tcp_FIN r; tcp_SYN := tcp_SYN r;
     tcp_RST := tcp_RST r; tcp_PSH := tcp_PSH r; tcp_ACK := tcp_ACK r; tcp_URG := tcp_URG r; tcp_ECE := tcp_ECE r; tcp_CWR := tcp_CWR r;
     tcp_NS := tcp_NS r; tcp_Window := tcp_Window r; tcp_Checksum := tcp_Checksum r; tcp_Urgent := tcp_Urgent r; tcp_sPort := tcp_sPort r;
     tcp_dPort := tcp_dPort r; tcp_Options := tcp_Options r; tcp_Padding := tcp_Padding r |}.

(** The option is appended with its type first, and completed in place. *)
Definition add_tcp_option (opt : HeaderOption) : dec TCP unit := update (fun tcp => tcp <| tcp_Options := tcp_Options tcp ++ [opt] |>).
Definition last_tcp_option (opt : HeaderOption) : dec TCP unit :=
  update (fun tcp => tcp <| tcp_Options := removelast (tcp_Options tcp) ++ [opt] |>).

Fixpoint tcp_options (fuel : nat) (data : slice) : dec TCP unit :=
  if decide (vis data = []) then dret tt else
  match fuel with
  | O => dlift OutOfFuel
  | S fuel =>
      let? ty := index data 0 in
      add_tcp_option {| OptionType := ty; OptionLength := 0; OptionData := [] |} ;;?
      let? n := (if decide (ty = 0) then
                   last_tcp_option {| OptionType := ty; OptionLength := 1; OptionData := [] |} ;;?
                   let? padding := from data 1 in
                   update (fun tcp => tcp <| tcp_Padding := vis padding |>) ;;?
                   dret 1
                 else if decide (ty = 1) then
                   last_tcp_option {| OptionType := ty; OptionLength := 1; OptionData := [] |} ;;?
                   dret 1
                 else
                   let? n := index data 1 in
                   last_tcp_option {| OptionType := ty; OptionLength := n; OptionData := [] |} ;;?
                   if decide (n < 2) then dfail (bs "Invalid TCP option length < 2")
                   else if decide (n > len (vis data)) then dfail (bs "Invalid TCP option length exceeds remaining bytes")
                   else
                     let? d := between data 2 n in
                     last_tcp_option {| OptionType := ty; OptionLength := n; OptionData := vis d |} ;;?
                     dret n) in
      let? data := from data n in
      tcp_options fuel data
  end.

Definition TCP_DecodeFromBytes (data : slice) : dec TCP unit :=
  let? n := BigEndian_Uint16 data 0 in
  let? s := between data 0 2 in
  update (fun tcp => tcp <| tcp_SrcPort := n |> <| tcp_sPort := vis s |>) ;;?
  let? n := BigEndian_Uint16 data 2 in
  let? s := between data 2 4 in
  update (fun tcp => tcp <| tcp_DstPort := n |> <| tcp_dPort := vis s |>) ;;?
  let? n := BigEndian_Uint32 data 4 in
  update (fun tcp => tcp <| tcp_Seq := n |>) ;;?
  let? n := BigEndian_Uint32 data 8 in
  update (fun tcp => tcp <| tcp_Ack := n |>) ;;?
  let? offset := index data 12 in
  update (fun tcp => tcp <| tcp_DataOffset := Z.shiftr offset 4 |>) ;;?
  let? flags := index data 13 in
  update (fun tcp => tcp <| tcp_FIN := bit flags 0x01 |> <| tcp_SYN := bit flags 0x02 |> <| tcp_RST := bit flags 0x04 |>
                         <| tcp_PSH := bit flags 0x08 |> <| tcp_ACK := bit flags 0x10 |> <| tcp_URG := bit flags 0x20 |>
                         <| tcp_ECE := bit flags 0x40 |> <| tcp_CWR := bit flags 0x80 |> <| tcp_NS := bit offset 0x01 |>) ;;?
  let? n := BigEndian_Uint16 data 14 in
  update (fun tcp => tcp <| tcp_Window := n |>) ;;?
  let? n := BigEndian_Uint16 data 16 in
  update (fun tcp => tcp <| tcp_Checksum := n |>) ;;?
  let? n := BigEndian_Uint16 data 18 in
  update (fun tcp => tcp <| tcp_Urgent := n |> <| tcp_Options := [] |>) ;;?
  let offset := Z.shiftr offset 4 in
  if decide (offset < 5) then dfail (bs "Invalid TCP data offset < 5") else
  let dataStart := offset * 4 in
  if decide (dataStart > len (vis data)) then
    SetTruncated ;;?
    update (fun tcp => tcp <| tcp_Payload := nil_slice |> <| tcp_Contents := data |>) ;;?
    dfail (bs "TCP data offset greater than packet length")
  else
    let? contents := between data 0 dataStart in
    let? payload := from data dataStart in
    update (fun tcp => tcp <| tcp_Contents := contents |> <| tcp_Payload := payload |>) ;;?
    let? data := between data 20 dataStart in
    tcp_options (length (vis data)) data.

(** * The decoder (tcp.go) and its parser (parser.go) *)

Record DecoderStruct := {
  sll : LinuxSLL; lo : Loopback; eth : Ethernet; ip4 : IPv4; ip6 : IPv6; tcp : TCP; payload : slice
}.
#[export] Instance eta_DecoderStruct : Settable DecoderStruct := fun r =>
  {| sll := sll r; lo := lo r; eth := eth r; ip4 := ip4 r; ip6 := ip6 r; tcp := tcp r; payload := payload r |}.

(** The interface [DecodingLayer], over the decoder that holds the layers. *)
Record DecodingLayer := {
  CanDecode : Z;
  DecodeFromBytes : slice -> dec DecoderStruct unit;
  NextLayerType : DecoderStruct -> Z;
  LayerPayload : DecoderStruct -> slice
}.

(** A method of one of the layers. *)
Definition on {L A} (get : DecoderStruct -> L) (set : L -> DecoderStruct -> DecoderStruct) (m : dec L A) : dec DecoderStruct A :=
  fun '(d, truncated) => let '(r, (l, truncated)) := m (get d, truncated) in (r, (set l d, truncated)).

Definition sll_layer : DecodingLayer := {|
  CanDecode := layers.LayerTypeLinuxSLL; DecodeFromBytes := fun data => on sll (fun l d => d <| sll := l |>) (LinuxSLL_DecodeFromBytes data);
  NextLayerType := fun d => EthernetType_LayerType (sll_EthernetType (sll d)); LayerPayload := fun d => sll_Payload (sll d)
|}.
Definition lo_layer : DecodingLayer := {|
  CanDecode := layers.LayerTypeLoopback; DecodeFromBytes := fun data => on lo (fun l d => d <| lo := l |>) (Loopback_DecodeFromBytes data);
  NextLayerType := fun d => ProtocolFamily_LayerType (lo_Family (lo d)); LayerPayload := fun d => lo_Payload (lo d)
|}.
Definition eth_layer : DecodingLayer := {|
  CanDecode := layers.LayerTypeEthernet; DecodeFromBytes := fun data => on eth (fun l d => d <| eth := l |>) (Ethernet_DecodeFromBytes data);
  NextLayerType := fun d => EthernetType_LayerType (eth_EthernetType (eth d)); LayerPayload := fun d => eth_Payload (eth d)
|}.
Definition ip4_layer : DecodingLayer := {|
  CanDecode := layers.LayerTypeIPv4; DecodeFromBytes := fun data => on ip4 (fun l d => d <| ip4 := l |>) (IPv4_DecodeFromBytes data);
  NextLayerType := fun d => IPv4_NextLayerType (ip4 d); LayerPayload := fun d => ip4_Payload (ip4 d)
|}.
Definition ip6_layer : DecodingLayer := {|
  CanDecode := layers.LayerTypeIPv6; DecodeFromBytes := fun data => on ip6 (fun l d => d <| ip6 := l |>) (IPv6_DecodeFromBytes data);
  NextLayerType := fun d => IPv6_NextLayerType (ip6 d); LayerPayload := fun d => ip6_Payload (ip6 d)
|}.
Definition tcp_layer : DecodingLayer := {|
  CanDecode := layers.LayerTypeTCP; DecodeFromBytes := fun data => on tcp (fun l d => d <| tcp := l |>) (TCP_DecodeFromBytes data);
  NextLayerType := fun _ => layers.LayerTypePayload; LayerPayload := fun d => tcp_Payload (tcp d)
|}.
Definition payload_layer : DecodingLayer := {|
  CanDecode := layers.LayerTypePayload; DecodeFromBytes := fun data => update (fun d => d <| payload := data |>);
  NextLayerType := fun _ => layers.LayerTypeZero; LayerPayload := fun _ => nil_slice
|}.

Record DecodingLayerParser := { first : Z; decoders : gmap Z DecodingLayer }.
Definition NewDecodingLayerParser (first : Z) (l : list DecodingLayer) : DecodingLayerParser :=
  {| first := first; decoders := foldl (fun m d => <[CanDecode d := d]> m) ∅ l |}.

(** The loop of [DecodeLayers], with the types of the layers decoded. *)
Fixpoint decode_layers (fuel : nat) (p : DecodingLayerParser) (typ : Z) (data : slice) (decoded : list Z) : dec DecoderStruct (list Z) :=
  if decide (vis data = []) then dret decoded else
  match fuel with
  | O => dlift OutOfFuel
  | S fuel =>
      match decoders p !! typ with
      | None => dfail (bs "No decoder for layer type " ++ Itoa typ)
      | Some decoder =>
          DecodeFromBytes decoder data ;;?
          let? d := dget in
          decode_layers fuel p (NextLayerType decoder d) (LayerPayload decoder d) (decoded ++ [typ])
      end
  end.

(** Every layer but the last is shorter than the one before; a panic becomes an error
    ([panicToError]). *)
Definition DecodeLayers (p : DecodingLayerParser) (data : slice) (d : DecoderStruct) : outcome (list Z + bytes) * (DecoderStruct * bool) :=
  let '(r, s) := decode_layers (length (vis data)) p (first p) data [] (d, false) in
  (match r with
   | Done decoded => Ret (inl decoded)
   | Failed err => Ret (inr err)
   | Panicked => Ret (inr (bs "panic"))
   | NoFuel => OutOfFuel
   end, s).

Definition CreateDecoder (datalink : Z) : option DecodingLayerParser :=
  let parser first link := Some (NewDecodingLayerParser first [link; ip4_layer; ip6_layer; tcp_layer; payload_layer]) in
  if decide (datalink = layers.LinkTypeLinuxSLL) then parser layers.LayerTypeLinuxSLL sll_layer
  else if decide (datalink = layers.LinkTypeEthernet) then parser layers.LayerTypeEthernet eth_layer
  else if decide (datalink = layers.LinkTypeNull) then parser layers.LayerTypeLoopback lo_layer
  else None.

(** The decoder before the first packet. *)
Definition new_decoder : DecoderStruct := {|
  sll := Build_LinuxSLL nil_slice nil_slice 0 0 [] 0; lo := Build_Loopback nil_slice nil_slice 0; eth := Build_Ethernet nil_slice nil_slice [] [] 0 0;
  ip4 := Build_IPv4 nil_slice nil_slice 0 0 0 0 0 0 0 0 0 0 [] [] [] [];
  ip6 := Build_IPv6 nil_slice nil_slice 0 0 0 0 0 0 [] [] false (Build_IPv6HopByHop nil_slice nil_slice 0 0 0 []);
  tcp := Build_TCP nil_slice nil_slice 0 0 0 0 0 false false false false false false false false false 0 0 0 [] [] [] [];
  payload := nil_slice
|}.

(** What [DecodePacketData] reads of the decoder after a success: the cases of its [switch],
    and the fields of the layers. *)
Definition case_of (typ : Z) : LayerType :=
  if decide (typ = layers.LayerTypeIPv4) then LayerTypeIPv4
  else if decide (typ = layers.LayerTypeIPv6) then LayerTypeIPv6
  else if decide (typ = layers.LayerTypeTCP) then LayerTypeTCP
  else if decide (typ = layers.LayerTypePayload) then LayerTypePayload
  else LayerTypeOther.
Definition tcp_header (t : TCP) : TCPHeader :=
  {| hdr_Seq := tcp_Seq t; hdr_FIN := tcp_FIN t; hdr_SrcPort := tcp_SrcPort t; hdr_DstPort := tcp_DstPort t |}.
Definition layers_of (decoded : list Z) (d : DecoderStruct) : Layers := {|
  l_decoded := map case_of decoded;
  l_ip4_Src := ip4_SrcIP (ip4 d); l_ip4_Dst := ip4_DstIP (ip4 d); l_ip6_Src := ip6_SrcIP (ip6 d); l_ip6_Dst := ip6_DstIP (ip6 d);
  l_tcp := tcp_header (tcp d);
  l_payload := payload d
|}.

(** What [DecodePacketData] makes of a call of the parser. *)
Definition decode_with (p : DecodingLayerParser) (d : DecoderStruct) (spare data : bytes) : option Layers :=
  match DecodeLayers p (mkSlice data spare) d with
  | (Ret (inl decoded), (d', _)) => Some (layers_of decoded d')
  | _ => None
  end.

(** The decoder is one object of the program: each packet leaves its layers to the next. *)
Section Decoder.
Context {St Data : Type}.

(** A captured packet: its bytes, what follows them in their buffer, and its timestamp. *)
Definition capture : Type := bytes * bytes * Z.

Definition decode_packet (p : DecodingLayerParser) (s : Tcp St Data * DecoderStruct) (c : capture) : outcome (Tcp St Data * DecoderStruct) :=
  let '(tcp, d) := s in
  let '(data, spare, ts) := c in
  let! tcp := DecodePacketData (decode_with p d spare) tcp data ts in
  Ret (tcp, fst (snd (DecodeLayers p (mkSlice data spare) d))).

Fixpoint decode_packets (p : DecodingLayerParser) (s : Tcp St Data * DecoderStruct) (l : list capture) : outcome (Tcp St Data * DecoderStruct) :=
  match l with
  | [] => Ret s
  | c :: l => let! s := decode_packet p s c in decode_packets p s l
  end.

End Decoder.

(** * Decoding ends *)

(** [ends m s Q]: from [s] the method ends, and when it is without an error, [Q] holds. *)
Definition ends {L A} (m : dec L A) (s : L * bool) (Q : A -> L * bool -> Prop) : Prop :=
  match m s with
  | (Done a, s') => Q a s'
  | (NoFuel, _) => False
  | (Failed _, _) | (Panicked, _) => True
  end.

Section Ends.
Context {L : Type}.
Implicit Types (s : L * bool).

Lemma ends_ret {A} (a : A) s Q : Q a s -> ends (dret a) s Q.
Proof. done. Qed.

Lemma ends_fail {A} err s (Q : A -> L * bool -> Prop) : ends (dfail err) s Q.
Proof. done. Qed.

Lemma ends_bind {A B} (m : dec L A) (k : A -> dec L B) s Q : ends m s (fun a s => ends (k a) s Q) -> ends (dbind m k) s Q.
Proof. unfold ends, dbind. by destruct (m s) as [[] ?]. Qed.

Lemma ends_mono {A} (m : dec L A) s (Q Q' : A -> L * bool -> Prop) : ends m s Q -> (forall a s, Q a s -> Q' a s) -> ends m s Q'.
Proof. unfold ends. destruct (m s) as [[] ?]; auto. Qed.

Lemma ends_lift {A} (o : outcome A) s (Q : A -> L * bool -> Prop) : o <> OutOfFuel -> (forall a, o = Ret a -> Q a s) -> ends (dlift o) s Q.
Proof. intros Hn H. unfold ends, dlift. destruct o; [by apply H|done..]. Qed.

Lemma ends_get s (Q : L -> L * bool -> Prop) : Q (fst s) s -> ends dget s Q.
Proof. done. Qed.

Lemma ends_update (f : L -> L) l t (Q : unit -> L * bool -> Prop) : Q tt (f l, t) -> ends (update f) (l, t) Q.
Proof. done. Qed.

Lemma ends_truncated l t (Q : unit -> L * bool -> Prop) : Q tt (l, true) -> ends SetTruncated (l, t) Q.
Proof. done. Qed.

Lemma ends_index data i s (Q : Z -> L * bool -> Prop) :
  (forall b, 0 <= i < len (vis data) -> vis data !! Z.to_nat i = Some b -> Q (u8 b) s) -> ends (index data i) s Q.
Proof.
  intros H. apply ends_bind, ends_lift; [apply at_not_fuel|]. intros b E. pose proof (at_Ret _ _ _ E) as Hr.
  destruct (at_ok _ _ Hr) as (b' & E' & Hb). rewrite E in E'. injection E' as <-. by apply H.
Qed.

Lemma ends_between data lo hi s (Q : slice -> L * bool -> Prop) :
  (forall t, 0 <= lo -> lo <= hi -> hi <= cap data -> len (vis t) = hi - lo -> Q t s) -> ends (between data lo hi) s Q.
Proof.
  intros H. apply ends_lift; [apply sl_slice_not_fuel|]. intros t. unfold sl_slice. case_decide as Hd; [|done]. intros [= <-].
  apply H; [lia..|]. apply len_sub; [lia..|]. rewrite len_app. unfold cap in Hd. lia.
Qed.

Lemma ends_from data lo s (Q : slice -> L * bool -> Prop) :
  (forall t, 0 <= lo <= len (vis data) -> len (vis t) = len (vis data) - lo -> Q t s) -> ends (from data lo) s Q.
Proof.
  intros H. apply ends_lift; [apply sl_from_not_fuel|]. intros t. unfold sl_from. case_decide as Hd; [|done]. intros [= <-].
  apply H; [lia|]. cbn. unfold len in *. rewrite length_drop. lia.
Qed.

Lemma Ntohs_not_fuel b : Bytes_Ntohs b <> OutOfFuel.
Proof. unfold Bytes_Ntohs. pose proof (at_not_fuel b 0). pose proof (at_not_fuel b 1). by destruct (at_ b 0), (at_ b 1). Qed.

Lemma Ntohl_not_fuel b : Bytes_Ntohl b <> OutOfFuel.
Proof.
  unfold Bytes_Ntohl. pose proof (at_not_fuel b 0). pose proof (at_not_fuel b 1). pose proof (at_not_fuel b 2). pose proof (at_not_fuel b 3).
  by destruct (at_ b 0), (at_ b 1), (at_ b 2), (at_ b 3).
Qed.

Lemma Ntohs_range b n : Bytes_Ntohs b = Ret n -> 0 <= n < 2 ^ 16.
Proof.
  destruct b as [|a [|b t]]; try done. rewrite Bytes_Ntohs_val. intros [= <-]. pose proof (u8_bound a). pose proof (u8_bound b). lia.
Qed.

Lemma ends_Uint16 data lo s (Q : Z -> L * bool -> Prop) : (forall n, 0 <= n < 2 ^ 16 -> Q n s) -> ends (BigEndian_Uint16 data lo) s Q.
Proof.
  intros H. apply ends_bind, ends_between. intros t _ _ _ _. apply ends_lift; [apply Ntohs_not_fuel|]. intros n E. by apply H, (Ntohs_range _ _ E).
Qed.

Lemma ends_Uint32 data lo s (Q : Z -> L * bool -> Prop) : (forall n, Q n s) -> ends (BigEndian_Uint32 data lo) s Q.
Proof. intros H. apply ends_bind, ends_between. intros t _ _ _ _. apply ends_lift; [apply Ntohl_not_fuel|]. intros n _. apply H. Qed.

Lemma ends_LittleUint32 data lo s (Q : Z -> L * bool -> Prop) : (forall n, Q n s) -> ends (LittleEndian_Uint32 data lo) s Q.
Proof. intros H. apply ends_bind, ends_between. intros t _ _ _ _. apply ends_lift; [apply Ntohl_not_fuel|]. intros n _. apply H. Qed.
End Ends.

(** One instruction after the other. *)
Ltac ends_step :=
  lazymatch goal with
  | |- ends (dbind _ _) _ _ => apply ends_bind
  | |- ends (dret _) _ _ => apply ends_ret
  | |- ends (dfail _) _ _ => apply ends_fail
  | |- ends dget _ _ => apply ends_get
  | |- ends (update _) _ _ => apply ends_update
  | |- ends SetTruncated _ _ => apply ends_truncated
  | |- ends (index _ _) _ _ => apply ends_index; intros ? ? ?
  | |- ends (between _ _ _) _ _ => apply ends_between; intros ? ? ? ? ?
  | |- ends (from _ _) _ _ => apply ends_from; intros ? ? ?
  | |- ends (BigEndian_Uint16 _ _) _ _ => apply ends_Uint16; intros ? ?
  | |- ends (BigEndian_Uint32 _ _) _ _ => apply ends_Uint32; intros ?
  | |- ends (LittleEndian_Uint32 _ _) _ _ => apply ends_LittleUint32; intros ?
  | |- ends (if decide _ then _ else _) _ _ => case_decide
  | |- ends (if ?b then _ else _) _ _ => destruct b
  | |- ends (let _ := _ in _) _ _ => cbv zeta
  end.
Ltac ends_run := repeat (ends_step; cbv beta iota).

Lemma Ethernet_ends data s : ends (Ethernet_DecodeFromBytes data) s (fun _ s => len (vis (eth_Payload (fst s))) < len (vis data)).
Proof. destruct s as [l t]. unfold Ethernet_DecodeFromBytes. ends_run; cbn in *; lia. Qed.

Lemma LinuxSLL_ends data s : ends (LinuxSLL_DecodeFromBytes data) s (fun _ s => len (vis (sll_Payload (fst s))) < len (vis data)).
Proof. destruct s as [l t]. unfold LinuxSLL_DecodeFromBytes. ends_run; cbn in *; lia. Qed.

Lemma Loopback_ends data s : ends (Loopback_DecodeFromBytes data) s (fun _ s => len (vis (lo_Payload (fst s))) < len (vis data)).
Proof. destruct s as [l t]. unfold Loopback_DecodeFromBytes. ends_run; cbn in *; lia. Qed.

(** What the options leave alone. *)
Definition ip4_keeps (l l' : IPv4) : Prop :=
  ip4_Payload l' = ip4_Payload l /\ ip4_SrcIP l' = ip4_SrcIP l /\ ip4_DstIP l' = ip4_DstIP l /\ ip4_Protocol l' = ip4_Protocol l /\
  ip4_Flags l' = ip4_Flags l /\ ip4_FragOffset l' = ip4_FragOffset l.

Lemma nonempty_len (s : bytes) : s <> [] -> 0 < len s.
Proof. destruct s; [done|]. intros _. rewrite len_cons. pose proof (len_nonneg s). lia. Qed.

Lemma ip4_options_ends fuel : forall data l0 l t, (length (vis data) <= fuel)%nat -> ip4_keeps l0 l ->
  ends (ip4_options fuel data) (l, t) (fun _ s => ip4_keeps l0 (fst s)).
Proof.
  induction fuel as [|fuel IH]; intros data l0 l t Hf Hk; cbn [ip4_options].
  { rewrite decide_True by (apply nil_length_inv; lia). by apply ends_ret. }
  case_decide as Hd; [by apply ends_ret|]. apply nonempty_len in Hd.
  apply ends_bind, ends_index. intros b _ _. apply ends_bind.
  apply (ends_mono _ _ (fun opt s => ip4_keeps l0 (fst s) /\ 1 <= OptionLength opt)).
  - case_decide; [|case_decide]; unfold append_option; ends_run; cbn; (split; [exact Hk|lia]).
  - intros opt [l1 t1] [Hk1 Ho]. case_decide as Hlen; [|apply ends_fail]. apply ends_bind, ends_from. intros data' Hb Hl'.
    apply ends_bind. unfold append_option. apply ends_update. apply IH; [|exact Hk1]. unfold len in *. lia.
Qed.

Lemma IPv4_ends data s : ends (IPv4_DecodeFromBytes data) s (fun _ s =>
  len (vis (ip4_Payload (fst s))) < len (vis data) /\ len (ip4_SrcIP (fst s)) = 4 /\ len (ip4_DstIP (fst s)) = 4).
Proof.
  destruct s as [l t]. unfold IPv4_DecodeFromBytes. ends_run; cbn in *;
    (eapply ends_mono; [by eapply (ip4_options_ends _ _ _ _ _ (le_n _))|]; intros _ s' (Hp & Hs & Hd & _); rewrite Hp, Hs, Hd; cbn; lia).
Qed.

(** ** IPv6 *)

Lemma hbh_options_ends fuel : forall d options, (length (vis d) <= fuel)%nat -> hbh_options fuel d options <> OutOfFuel.
Proof.
  induction fuel as [|fuel IH]; intros d options Hf; cbn [hbh_options].
  { by rewrite decide_True by (apply nil_length_inv; lia). }
  case_decide as Hd; [done|]. apply nonempty_len in Hd. unfold decodeIPv6HeaderTLVOption.
  pose proof (at_not_fuel (vis d) 0) as H0. destruct (at_ (vis d) 0) as [b| |]; cbn [obind]; [|done..].
  assert (forall n opt, 1 <= n -> (let! d := sl_from d n in hbh_options fuel d (options ++ [opt])) <> OutOfFuel) as Hnext.
  { intros n opt Hn. pose proof (sl_from_not_fuel d n) as Hs. unfold sl_from in *. case_decide; cbn [obind]; [|done]. apply IH. cbn.
    rewrite length_drop. unfold len in *. lia. }
  case_decide; [by apply Hnext|]. pose proof (at_not_fuel (vis d) 1). destruct (at_ (vis d) 1) as [n| |]; cbn [obind]; [|done..].
  pose proof (sl_slice_not_fuel d 2 (u8 n + 2)). destruct (sl_slice d 2 (u8 n + 2)) as [t| |]; cbn [obind]; [|done..].
  apply Hnext. pose proof (u8_bound n). lia.
Qed.

Lemma hbh_ends data : IPv6HopByHop_DecodeFromBytes data <> OutOfFuel.
Proof.
  unfold IPv6HopByHop_DecodeFromBytes. pose proof (at_not_fuel (vis data) 0). destruct (at_ (vis data) 0) as [b| |]; cbn [obind]; [|done..].
  pose proof (at_not_fuel (vis data) 1). destruct (at_ (vis data) 1) as [n| |]; cbn [obind]; [|done..].
  pose proof (sl_slice_not_fuel data 0 (u8 n * 8 + 8)). destruct (sl_slice _ _ _) as [c| |]; cbn [obind]; [|done..].
  pose proof (sl_from_not_fuel data (u8 n * 8 + 8)). destruct (sl_from data _) as [p| |]; cbn [obind]; [|done..].
  pose proof (sl_from_not_fuel c 2). destruct (sl_from c 2) as [d| |]; cbn [obind]; [|done..].
  pose proof (hbh_options_ends _ d [] (le_n _)). by destruct (hbh_options _ _ _).
Qed.

Lemma IPv6_ends data s : ends (IPv6_DecodeFromBytes data) s (fun _ s =>
  len (vis (ip6_Payload (fst s))) < len (vis data) /\ len (ip6_SrcIP (fst s)) = 16 /\ len (ip6_DstIP (fst s)) = 16).
Proof.
  destruct s as [l t]. unfold IPv6_DecodeFromBytes.
  repeat first [ends_step; cbv beta iota | apply ends_lift; [solve [auto using hbh_ends, Ntohl_not_fuel]|intros ? ?]
    | lazymatch goal with |- ends (match ?x with Some _ => _ | None => _ end) _ _ => destruct x end].
  all: try match goal with a : IPv6HopByHop |- _ => pose proof (len_nonneg (vis (hbh_Contents a))) end; cbn in *; lia.
Qed.

(** ** TCP *)

(** What the options leave alone. *)
Definition tcp_keeps (l l' : TCP) : Prop :=
  tcp_Payload l' = tcp_Payload l /\ tcp_SrcPort l' = tcp_SrcPort l /\ tcp_DstPort l' = tcp_DstPort l /\ tcp_Seq l' = tcp_Seq l /\
  tcp_FIN l' = tcp_FIN l.

Lemma tcp_options_ends fuel : forall data l0 l t, (length (vis data) <= fuel)%nat -> tcp_keeps l0 l ->
  ends (tcp_options fuel data) (l, t) (fun _ s => tcp_keeps l0 (fst s)).
Proof.
  induction fuel as [|fuel IH]; intros data l0 l t Hf Hk; cbn [tcp_options].
  { rewrite decide_True by (apply nil_length_inv; lia). by apply ends_ret. }
  case_decide as Hd; [by apply ends_ret|]. apply nonempty_len in Hd.
  apply ends_bind, ends_index. intros b _ _. apply ends_bind. unfold add_tcp_option. apply ends_update. apply ends_bind.
  apply (ends_mono _ _ (fun n s => tcp_keeps l0 (fst s) /\ 1 <= n)).
  - unfold last_tcp_option. ends_run; cbn; (split; [exact Hk|lia]).
  - intros n [l1 t1] [Hk1 Hn]. apply ends_bind, ends_from. intros data' Hb Hl'. apply IH; [|exact Hk1]. unfold len in *. lia.
Qed.

Lemma TCP_ends data s : ends (TCP_DecodeFromBytes data) s (fun _ s => len (vis (tcp_Payload (fst s))) < len (vis data)).
Proof.
  destruct s as [l t]. unfold TCP_DecodeFromBytes. ends_run; cbn in *;
    (eapply ends_mono; [by eapply (tcp_options_ends _ _ _ _ _ (le_n _))|]; intros _ s' (Hp & _); rewrite Hp; cbn; lia).
Qed.

(** ** The parser *)

(** A layer that shrinks what is to be decoded, and keeps a promise [P] of the decoder and the
    layers decoded. *)
Definition layer_ends (P : list Z -> DecoderStruct -> Prop) (typ : Z) (layer : DecodingLayer) : Prop := forall data decoded d t,
  vis data <> [] -> P decoded d ->
  ends (DecodeFromBytes layer data) (d, t) (fun _ s =>
    len (vis (LayerPayload layer (fst s))) < len (vis data) /\ P (decoded ++ [typ]) (fst s)).

Lemma ends_on {L A} (get : DecoderStruct -> L) set (m : dec L A) d t (Q : A -> DecoderStruct * bool -> Prop) :
  ends m (get d, t) (fun a s => Q a (set (fst s) d, snd s)) -> ends (on get set m) (d, t) Q.
Proof. unfold ends, on. by destruct (m (get d, t)) as [[] [l t']]. Qed.

Lemma decode_layers_ends P p fuel : forall typ data decoded d t, (length (vis data) <= fuel)%nat -> P decoded d ->
  (forall typ layer, decoders p !! typ = Some layer -> layer_ends P typ layer) ->
  ends (decode_layers fuel p typ data decoded) (d, t) (fun decoded s => P decoded (fst s)).
Proof.
  induction fuel as [|fuel IH]; intros typ data decoded d t Hf HP Hp; cbn [decode_layers].
  { rewrite decide_True by (apply nil_length_inv; lia). by apply ends_ret. }
  case_decide as Hd; [by apply ends_ret|]. destruct (decoders p !! typ) as [layer|] eqn:El; [|by apply ends_fail].
  apply ends_bind. eapply ends_mono; [by apply (Hp _ _ El)|]. intros _ [d' t'] [Hl HP']. apply ends_bind, ends_get. cbn [fst] in *.
  apply IH; [unfold len in *; lia|done..].
Qed.

(** The addresses are of the size of the layer that was decoded. *)
Definition addresses (decoded : list Z) (d : DecoderStruct) : Prop :=
  (layers.LayerTypeIPv4 ∈ decoded -> len (ip4_SrcIP (ip4 d)) = 4 /\ len (ip4_DstIP (ip4 d)) = 4) /\
  (layers.LayerTypeIPv6 ∈ decoded -> len (ip6_SrcIP (ip6 d)) = 16 /\ len (ip6_DstIP (ip6 d)) = 16).

Lemma addresses_snoc decoded typ d d' : ip4 d' = ip4 d -> ip6 d' = ip6 d -> typ <> layers.LayerTypeIPv4 -> typ <> layers.LayerTypeIPv6 ->
  addresses decoded d -> addresses (decoded ++ [typ]) d'.
Proof.
  unfold addresses. intros -> -> H4 H6 [Ha Hb]. split; intros [Hi|Hi%list_elem_of_singleton]%elem_of_app; auto; by subst.
Qed.

Lemma link_addresses {L} typ (get : DecoderStruct -> L) set m (pay : L -> slice) decode next :
  (forall data s, ends (m data) s (fun _ s => len (vis (pay (fst s))) < len (vis data))) ->
  (forall l d, ip4 (set l d) = ip4 d /\ ip6 (set l d) = ip6 d /\ get (set l d) = l) ->
  typ <> layers.LayerTypeIPv4 -> typ <> layers.LayerTypeIPv6 -> decode = (fun data => on get set (m data)) ->
  layer_ends addresses typ {| CanDecode := typ; DecodeFromBytes := decode; NextLayerType := next; LayerPayload := fun d => pay (get d) |}.
Proof.
  intros Hm Hs H4 H6 -> data decoded d t _ Ha. apply ends_on. eapply ends_mono; [apply Hm|]. intros _ [l t'] Hl. cbn in *.
  destruct (Hs l d) as (E4 & E6 & ->). split; [exact Hl|]. by apply (addresses_snoc decoded typ d).
Qed.

Lemma CreateDecoder_cases datalink p typ layer : CreateDecoder datalink = Some p -> decoders p !! typ = Some layer ->
  typ = layers.LayerTypeLinuxSLL /\ layer = sll_layer \/ typ = layers.LayerTypeLoopback /\ layer = lo_layer \/
  typ = layers.LayerTypeEthernet /\ layer = eth_layer \/ typ = layers.LayerTypeIPv4 /\ layer = ip4_layer \/
  typ = layers.LayerTypeIPv6 /\ layer = ip6_layer \/ typ = layers.LayerTypeTCP /\ layer = tcp_layer \/
  typ = layers.LayerTypePayload /\ layer = payload_layer.
Proof.
  unfold CreateDecoder, NewDecodingLayerParser.
  repeat case_decide; intros [= <-]; cbn [decoders foldl]; rewrite !lookup_insert_Some, lookup_empty; intros; naive_solver.
Qed.

Lemma CreateDecoder_layers datalink p typ layer : CreateDecoder datalink = Some p -> decoders p !! typ = Some layer -> layer_ends addresses typ layer.
Proof.
  assert (layer_ends addresses layers.LayerTypeIPv4 ip4_layer) as H4.
  { intros data decoded d t _ [_ Hb]. apply ends_on. eapply ends_mono; [apply IPv4_ends|]. intros _ [l t'] (Hl & Hs & Hd). cbn in *.
    split; [exact Hl|]. split; [done|]. cbn. intros [Hi|Hi%list_elem_of_singleton]%elem_of_app; [auto|done]. }
  assert (layer_ends addresses layers.LayerTypeIPv6 ip6_layer) as H6.
  { intros data decoded d t _ [Ha _]. apply ends_on. eapply ends_mono; [apply IPv6_ends|]. intros _ [l t'] (Hl & Hs & Hd). cbn in *.
    split; [exact Hl|]. split; [|done]. cbn. intros [Hi|Hi%list_elem_of_singleton]%elem_of_app; [auto|done]. }
  assert (layer_ends addresses layers.LayerTypeTCP tcp_layer) as Ht.
  { by apply (link_addresses layers.LayerTypeTCP tcp (fun l d => d <| tcp := l |>) TCP_DecodeFromBytes tcp_Payload _ _ TCP_ends). }
  assert (layer_ends addresses layers.LayerTypeLinuxSLL sll_layer) as Hs.
  { by apply (link_addresses layers.LayerTypeLinuxSLL sll (fun l d => d <| sll := l |>) LinuxSLL_DecodeFromBytes sll_Payload _ _ LinuxSLL_ends). }
  assert (layer_ends addresses layers.LayerTypeLoopback lo_layer) as Hlo.
  { by apply (link_addresses layers.LayerTypeLoopback lo (fun l d => d <| lo := l |>) Loopback_DecodeFromBytes lo_Payload _ _ Loopback_ends). }
  assert (layer_ends addresses layers.LayerTypeEthernet eth_layer) as He.
  { by apply (link_addresses layers.LayerTypeEthernet eth (fun l d => d <| eth := l |>) Ethernet_DecodeFromBytes eth_Payload _ _ Ethernet_ends). }
  assert (layer_ends addresses layers.LayerTypePayload payload_layer) as Hp.
  { intros data decoded d t Hd Ha. apply ends_update. apply nonempty_len in Hd. cbn. split; [done|]. by apply (addresses_snoc decoded _ d). }
  intros Hc Hl. by destruct (CreateDecoder_cases _ _ _ _ Hc Hl) as [[-> ->]|[[-> ->]|[[-> ->]|[[-> ->]|[[-> ->]|[[-> ->]|[-> ->]]]]]]].
Qed.

(** Decoding ends on every packet, whatever the decoder holds from the packets before and
    whatever follows the packet in its buffer: panics of the layers become errors, and when
    there is no error the addresses have the size that their IP layer says. *)
Lemma DecodeLayers_ends datalink p data d : CreateDecoder datalink = Some p ->
  exists r d' truncated, DecodeLayers p data d = (Ret r, (d', truncated)) /\
    forall decoded, r = inl decoded -> addresses decoded d'.
Proof.
  intros Hp. pose proof (decode_layers_ends addresses p (length (vis data)) (first p) data [] d false (le_n _)) as H.
  unfold ends in H. unfold DecodeLayers. destruct (decode_layers _ _ _ _ _ _) as [r [d' t']].
  assert (match r with Done decoded => addresses decoded d' | NoFuel => False | _ => True end) as Hr.
  { apply H; [by split; intros ?%elem_of_nil|]. intros typ layer. by apply (CreateDecoder_layers datalink). }
  destruct r as [decoded|err| |]; [| | |done]; eexists _, d', t'; (split; [reflexivity|]); intros l [= <-]; exact Hr.
Qed.

(** The promise to the layers above. *)
Lemma decode_with_ok datalink p d spare data ls : CreateDecoder datalink = Some p -> decode_with p d spare data = Some ls -> addresses_ok ls.
Proof.
  intros Hp. unfold decode_with. destruct (DecodeLayers_ends datalink p (mkSlice data spare) d Hp) as (r & d' & t & -> & Ha).
  destruct r as [decoded|]; [|done]. intros [= <-]. destruct (Ha decoded eq_refl) as [H4 H6].
  assert (forall typ c, case_of typ = c -> c = LayerTypeIPv4 -> typ = layers.LayerTypeIPv4) as C4.
  { intros typ c <-. unfold case_of. repeat case_decide; congruence. }
  assert (forall typ c, case_of typ = c -> c = LayerTypeIPv6 -> typ = layers.LayerTypeIPv6) as C6.
  { intros typ c <-. unfold case_of. repeat case_decide; congruence. }
  unfold len in *. split; intros (typ & E & Hin)%list_elem_of_fmap; symmetry in E.
  - rewrite (C4 _ _ E eq_refl) in Hin. destruct (H4 Hin). cbn. lia.
  - rewrite (C6 _ _ E eq_refl) in Hin. destruct (H6 Hin). cbn. lia.
Qed.
