(* ===== verification/GopacketFrames.v ===== *)
(** Frames as hosts send them, of IPv4 and IPv6 over Ethernet, Linux cooked capture and BSD
    loopback, and what the decoder of Gopacket.v makes of them. *)
From stdpp Require Import list.
From S2P Require Export Gopacket.
#[local] Open Scope Z_scope.
#[local] Open Scope dec_scope.

(** ** Running a method *)

(** [does m s Q]: from [s] the method ends without an error, and [Q] holds. *)
Definition does {L A} (m : dec L A) (s : L * bool) (Q : A -> L * bool -> Prop) : Prop :=
  exists a s', m s = (Done a, s') /\ Q a s'.

Section Does.
Context {L : Type}.
Implicit Types (s : L * bool).

Lemma does_ret {A} (a : A) s (Q : A -> L * bool -> Prop) : Q a s -> does (dret a) s Q.
Proof. intros H. by exists a, s. Qed.

Lemma does_bind {A B} (m : dec L A) (k : A -> dec L B) s Q : does m s (fun a s => does (k a) s Q) -> does (dbind m k) s Q.
Proof. intros (a & s' & E & b & s2 & E2 & H). exists b, s2. unfold dbind. by rewrite E. Qed.

Lemma does_mono {A} (m : dec L A) s (Q Q' : A -> L * bool -> Prop) : does m s Q -> (forall a s, Q a s -> Q' a s) -> does m s Q'.
Proof. intros (a & s' & E & H) Hi. exists a, s'. auto. Qed.

Lemma does_get s (Q : L -> L * bool -> Prop) : Q (fst s) s -> does dget s Q.
Proof. intros H. by exists (fst s), s. Qed.

Lemma does_update (f : L -> L) l t (Q : unit -> L * bool -> Prop) : Q tt (f l, t) -> does (update f) (l, t) Q.
Proof. intros H. by exists tt, (f l, t). Qed.

Lemma does_index data i b s (Q : Z -> L * bool -> Prop) :
  0 <= i -> vis data !! Z.to_nat i = Some b -> Q (u8 b) s -> does (index data i) s Q.
Proof. intros Hi H HQ. exists (u8 b), s. split; [|done]. unfold index, dbind, dlift, at_. by rewrite decide_True, H by done. Qed.

(** A slice expression within the data, and one that cuts the data where it is put together. *)
Lemma does_between data lo hi s (Q : slice -> L * bool -> Prop) : 0 <= lo -> lo <= hi -> hi <= len (vis data) ->
  Q (mkSlice (sub (vis data) lo hi) (drop (Z.to_nat hi) (vis data) ++ spare data)) s -> does (between data lo hi) s Q.
Proof.
  intros H1 H2 H3 HQ. eexists _, s. split; [|exact HQ]. unfold between, dlift, sl_slice. pose proof (len_nonneg (spare data)).
  rewrite decide_True by (unfold cap; lia). rewrite sub_app by lia. by rewrite drop_app_le by (unfold len in *; lia).
Qed.

Lemma does_cut a b c data lo hi s (Q : slice -> L * bool -> Prop) : vis data = a ++ b ++ c -> lo = len a -> hi = len a + len b ->
  Q (mkSlice b (c ++ spare data)) s -> does (between data lo hi) s Q.
Proof.
  intros E -> -> HQ. pose proof (len_nonneg a). pose proof (len_nonneg b).
  pose proof (len_nonneg c). apply does_between; [lia|lia|rewrite E, !len_app; lia|]. rewrite E, sub_mid.
  replace (drop _ _) with c; [done|]. rewrite app_assoc, drop_app_ge by (rewrite length_app; unfold len; lia).
  rewrite length_app. unfold len. by replace (_ - _)%nat with 0%nat by lia.
Qed.

Lemma does_from a b data lo s (Q : slice -> L * bool -> Prop) : vis data = a ++ b -> lo = len a -> Q (mkSlice b (spare data)) s ->
  does (from data lo) s Q.
Proof.
  intros E -> HQ. eexists _, s. split; [|exact HQ]. unfold from, dlift, sl_from. rewrite E.
  rewrite decide_True by (split; len_lia). unfold len. by rewrite Nat2Z.id, drop_app_length.
Qed.

Lemma lookup_len {A} (s : list A) i a : 0 <= i -> s !! Z.to_nat i = Some a -> i < len s.
Proof. intros Hi H. apply lookup_lt_Some in H. unfold len. lia. Qed.

Lemma sub_cons {A} (s : list A) lo a n : 0 <= lo -> 0 < n -> s !! Z.to_nat lo = Some a -> sub s lo (lo + n) = a :: sub s (lo + 1) (lo + n).
Proof.
  intros Hlo Hn Ha. unfold sub. rewrite (drop_S _ a) by done. replace (Z.to_nat (lo + n - lo)) with (S (Z.to_nat (n - 1))) by lia.
  cbn [take]. replace (Z.to_nat (lo + 1)) with (S (Z.to_nat lo)) by lia. by replace (lo + n - (lo + 1)) with (n - 1) by lia.
Qed.

Lemma sub_nil {A} (s : list A) lo : sub s lo lo = [].
Proof. unfold sub. by rewrite Z.sub_diag. Qed.

Lemma does_Uint16 data lo a b s (Q : Z -> L * bool -> Prop) :
  0 <= lo -> vis data !! Z.to_nat lo = Some a -> vis data !! Z.to_nat (lo + 1) = Some b ->
  Q (u8 a * 256 + u8 b) s -> does (BigEndian_Uint16 data lo) s Q.
Proof.
  intros Hlo Ha Hb HQ. apply lookup_len in Hb as Hl; [|lia]. apply does_bind, does_between; [lia..|]. cbn [vis].
  rewrite (sub_cons _ lo a 2) by (done || lia). replace (lo + 2) with ((lo + 1) + 1) by lia. rewrite (sub_cons _ (lo + 1) b 1) by (done || lia).
  rewrite sub_nil. eexists _, s. split; [|exact HQ]. unfold dlift. by rewrite Bytes_Ntohs_val.
Qed.

Lemma sub_four {A} (s : list A) lo a b c d : 0 <= lo ->
  s !! Z.to_nat lo = Some a -> s !! Z.to_nat (lo + 1) = Some b -> s !! Z.to_nat (lo + 2) = Some c -> s !! Z.to_nat (lo + 3) = Some d ->
  sub s lo (lo + 4) = [a; b; c; d].
Proof.
  intros Hlo Ha Hb Hc Hd. rewrite (sub_cons _ lo a 4) by (done || lia). replace (lo + 4) with ((lo + 1) + 3) by lia.
  rewrite (sub_cons _ (lo + 1) b 3) by (done || lia). replace (lo + 1 + 1) with (lo + 2) by lia. replace (lo + 1 + 3) with ((lo + 2) + 2) by lia.
  rewrite (sub_cons _ (lo + 2) c 2) by (done || lia). replace (lo + 2 + 1) with (lo + 3) by lia. replace (lo + 2 + 2) with ((lo + 3) + 1) by lia.
  rewrite (sub_cons _ (lo + 3) d 1) by (done || lia). by rewrite sub_nil.
Qed.

Lemma does_Uint32 data lo a b c d s (Q : Z -> L * bool -> Prop) : 0 <= lo ->
  vis data !! Z.to_nat lo = Some a -> vis data !! Z.to_nat (lo + 1) = Some b ->
  vis data !! Z.to_nat (lo + 2) = Some c -> vis data !! Z.to_nat (lo + 3) = Some d ->
  Q (u8 a * 2 ^ 24 + u8 b * 2 ^ 16 + u8 c * 2 ^ 8 + u8 d) s -> does (BigEndian_Uint32 data lo) s Q.
Proof.
  intros Hlo Ha Hb Hc Hd HQ. apply lookup_len in Hd as Hl; [|lia]. apply does_bind, does_between; [lia..|]. cbn [vis].
  rewrite (sub_four _ lo a b c d) by done. eexists _, s. split; [|exact HQ]. unfold dlift. by rewrite Bytes_Ntohl_val.
Qed.

Lemma does_LittleUint32 data lo a b c d s (Q : Z -> L * bool -> Prop) : 0 <= lo ->
  vis data !! Z.to_nat lo = Some a -> vis data !! Z.to_nat (lo + 1) = Some b ->
  vis data !! Z.to_nat (lo + 2) = Some c -> vis data !! Z.to_nat (lo + 3) = Some d ->
  Q (u8 d * 2 ^ 24 + u8 c * 2 ^ 16 + u8 b * 2 ^ 8 + u8 a) s -> does (LittleEndian_Uint32 data lo) s Q.
Proof.
  intros Hlo Ha Hb Hc Hd HQ. apply lookup_len in Hd as Hl; [|lia]. apply does_bind, does_between; [lia..|]. cbn [vis].
  rewrite (sub_four _ lo a b c d) by done. cbn [rev app]. eexists _, s. split; [|exact HQ]. unfold dlift. by rewrite Bytes_Ntohl_val.
Qed.
End Does.

Lemma be16_val n : 0 <= n < 2 ^ 16 -> u8 (to_byte (Z.shiftr n 8)) * 256 + u8 (to_byte n) = n.
Proof. intros H. rewrite !u8_to_byte, Z.shiftr_div_pow2 by lia. Z.to_euclidean_division_equations. lia. Qed.

Lemma be32_val n : 0 <= n < 2 ^ 32 ->
  u8 (to_byte (Z.shiftr n 24)) * 2 ^ 24 + u8 (to_byte (Z.shiftr n 16)) * 2 ^ 16 + u8 (to_byte (Z.shiftr n 8)) * 2 ^ 8 + u8 (to_byte n) = n.
Proof. intros H. rewrite !u8_to_byte, !Z.shiftr_div_pow2 by lia. Z.to_euclidean_division_equations. lia. Qed.

(** ** Options *)

(** Options of a header: the end and the no-operation are one byte, the others have a length. *)
Inductive options_ok : bytes -> Prop :=
| options_end : options_ok []
| options_pad t l : u8 t <= 1 -> options_ok l -> options_ok (t :: l)
| options_data t n d l : 1 < u8 t -> u8 n = len d + 2 -> options_ok l -> options_ok (t :: n :: d ++ l).

Lemma ip4_options_does o fuel : options_ok o -> forall data l0 l t, vis data = o -> (length o <= fuel)%nat -> ip4_keeps l0 l ->
  does (ip4_options fuel data) (l, t) (fun _ s => ip4_keeps l0 (fst s) /\ snd s = t).
Proof.
  intros Ho. revert fuel. induction Ho as [|ty o Hty _ IH|ty n d o Hty Hn _ IH]; intros fuel data l0 l t E Hf Hk.
  { destruct fuel; cbn [ip4_options]; rewrite decide_True by done; by apply does_ret. }
  all: destruct fuel as [|fuel]; [cbn in Hf; lia|]; cbn [ip4_options]; rewrite decide_False by (by rewrite E).
  all: apply does_bind, (does_index data 0 ty); [lia|by rewrite E|]; apply does_bind.
  - apply (does_mono _ _ (fun opt s => ip4_keeps l0 (fst s) /\ snd s = t /\ OptionLength opt = 1)).
    + case_decide; [|rewrite decide_True by (pose proof (u8_bound ty); lia); by apply does_ret].
      apply does_bind, does_update, does_bind, (does_from [ty] o); [done..|]. by apply does_bind, does_update, does_ret.
    + intros opt [l1 t1] (Hk1 & <- & ->). rewrite decide_True by (rewrite E; len_lia).
      apply does_bind, (does_from [ty] o); [done..|]. apply does_bind, does_update. apply IH; [done|cbn in Hf; lia|exact Hk1].
  - apply (does_mono _ _ (fun opt s => ip4_keeps l0 (fst s) /\ snd s = t /\ OptionLength opt = len d + 2)).
    + rewrite !decide_False by lia. apply does_bind, (does_index data 1 n); [lia|by rewrite E|]. rewrite Hn.
      apply does_bind, (does_cut [ty; n] d o); [done..|len_lia|]. by apply does_ret.
    + intros opt [l1 t1] (Hk1 & <- & ->). rewrite decide_True by (rewrite E; len_lia).
      apply does_bind, (does_from (ty :: n :: d) o); [done|len_lia|]. apply does_bind, does_update.
      apply IH; [done|cbn in Hf; rewrite length_app in Hf; lia|exact Hk1].
Qed.

Lemma tcp_options_does o fuel : options_ok o -> forall data l0 l t, vis data = o -> (length o <= fuel)%nat -> tcp_keeps l0 l ->
  does (tcp_options fuel data) (l, t) (fun _ s => tcp_keeps l0 (fst s) /\ snd s = t).
Proof.
  intros Ho. revert fuel. induction Ho as [|ty o Hty _ IH|ty n d o Hty Hn _ IH]; intros fuel data l0 l t E Hf Hk.
  { destruct fuel; cbn [tcp_options]; rewrite decide_True by done; by apply does_ret. }
  all: destruct fuel as [|fuel]; [cbn in Hf; lia|]; cbn [tcp_options]; rewrite decide_False by (by rewrite E).
  all: apply does_bind, (does_index data 0 ty); [lia|by rewrite E|]; apply does_bind, does_update, does_bind.
  - apply (does_mono _ _ (fun n s => tcp_keeps l0 (fst s) /\ snd s = t /\ n = 1)).
    + case_decide; [|rewrite decide_True by (pose proof (u8_bound ty); lia); by apply does_bind, does_update, does_ret].
      apply does_bind, does_update, does_bind, (does_from [ty] o); [done..|]. by apply does_bind, does_update, does_ret.
    + intros n [l1 t1] (Hk1 & <- & ->). apply does_bind, (does_from [ty] o); [done..|]. apply IH; [done|cbn in Hf; lia|exact Hk1].
  - apply (does_mono _ _ (fun n s => tcp_keeps l0 (fst s) /\ snd s = t /\ n = len d + 2)).
    + rewrite !decide_False by lia. apply does_bind, (does_index data 1 n); [lia|by rewrite E|]. apply does_bind, does_update.
      rewrite !decide_False by (rewrite ?E; len_lia). rewrite Hn.
      apply does_bind, (does_cut [ty; n] d o); [done..|len_lia|]. by apply does_bind, does_update, does_ret.
    + intros k [l1 t1] (Hk1 & <- & ->). apply does_bind, (does_from (ty :: n :: d) o); [done|len_lia|].
      apply IH; [done|cbn in Hf; rewrite length_app in Hf; lia|exact Hk1].
Qed.

(** ** The wire *)

Inductive link :=
| EthernetII (dst src : bytes)
| CookedLinux (packet_type arphrd addr_len : Z) (addr : bytes)
| BsdLoopback (big_endian : bool) (family6 : Z).

Definition link_datalink (l : link) : Z :=
  match l with
  | EthernetII _ _ => layers.LinkTypeEthernet
  | CookedLinux _ _ _ _ => layers.LinkTypeLinuxSLL
  | BsdLoopback _ _ => layers.LinkTypeNull
  end.
Definition link_type (l : link) : Z :=
  match l with
  | EthernetII _ _ => layers.LayerTypeEthernet
  | CookedLinux _ _ _ _ => layers.LayerTypeLinuxSLL
  | BsdLoopback _ _ => layers.LayerTypeLoopback
  end.
Definition link_ok (l : link) : Prop :=
  match l with
  | EthernetII dst src => length dst = 6%nat /\ length src = 6%nat
  | CookedLinux _ _ n addr => 0 <= n <= 8 /\ length addr = 8%nat
  | BsdLoopback _ family6 => family6 ∈ [24; 28; 30; 10]
  end.

Inductive net :=
| V4 (tos id : Z) (dont_fragment : bool) (ttl checksum : Z) (src dst options : bytes)
| V6 (first hop_limit : Z) (src dst : bytes).

Definition is_v6 (n : net) : bool := match n with V4 _ _ _ _ _ _ _ _ => false | V6 _ _ _ _ => true end.
Definition net_type (n : net) : Z := if is_v6 n then layers.LayerTypeIPv6 else layers.LayerTypeIPv4.
Definition net_src (n : net) : bytes := match n with V4 _ _ _ _ _ s _ _ => s | V6 _ _ s _ => s end.
Definition net_dst (n : net) : bytes := match n with V4 _ _ _ _ _ _ d _ => d | V6 _ _ _ d => d end.
Definition ip_length (n : net) : Z := if is_v6 n then 16 else 4.

Definition header_options_ok (o : bytes) : Prop := options_ok o /\ len o <= 40 /\ len o mod 4 = 0.

(** A header for a body of [k] bytes. *)
Definition net_ok (n : net) (k : Z) : Prop :=
  match n with
  | V4 tos id df ttl sum src dst options =>
      length src = 4%nat /\ length dst = 4%nat /\ header_options_ok options /\ 20 + len options + k < 2 ^ 16
  | V6 first hop src dst => length src = 16%nat /\ length dst = 16%nat /\ 0 < k < 2 ^ 16
  end.

Definition link_wire (l : link) (v6 : bool) : bytes :=
  let ethertype := be16 (if v6 then 0x86DD else 0x0800) in
  match l with
  | EthernetII dst src => dst ++ src ++ ethertype
  | CookedLinux packet_type arphrd n addr => be16 packet_type ++ be16 arphrd ++ be16 n ++ addr ++ ethertype
  | BsdLoopback big family6 => (if big then (fun b => b) else @rev byte) (be32 (if v6 then family6 else 2))
  end.

Definition net_wire (n : net) (body : bytes) : bytes :=
  match n with
  | V4 tos id df ttl sum src dst options =>
      [to_byte (4 * 16 + (5 + len options / 4)); to_byte tos] ++ be16 (20 + len options + len body) ++ be16 id ++
      be16 (if df then 0x4000 else 0) ++ [to_byte ttl; to_byte 6] ++ be16 sum ++ src ++ dst ++ options ++ body
  | V6 first hop src dst => be32 first ++ be16 (len body) ++ [to_byte 6; to_byte hop] ++ src ++ dst ++ body
  end.

Record segment := {
  g_src : Z; g_dst : Z; g_seq : Z; g_ack : Z; g_ns : bool; g_flags : Z; g_window : Z; g_checksum : Z; g_urgent : Z;
  g_options : bytes; g_payload : bytes
}.
Definition segment_ok (g : segment) : Prop :=
  0 <= g_src g < 2 ^ 16 /\ 0 <= g_dst g < 2 ^ 16 /\ 0 <= g_seq g < 2 ^ 32 /\ 0 <= g_flags g < 2 ^ 8 /\ header_options_ok (g_options g).
Definition g_FIN (g : segment) : bool := Z.odd (g_flags g).

Definition tcp_wire (g : segment) : bytes :=
  be16 (g_src g) ++ be16 (g_dst g) ++ be32 (g_seq g) ++ be32 (g_ack g) ++
  [to_byte ((5 + len (g_options g) / 4) * 16 + (if g_ns g then 1 else 0)); to_byte (g_flags g)] ++
  be16 (g_window g) ++ be16 (g_checksum g) ++ be16 (g_urgent g) ++ g_options g ++ g_payload g.

Definition frame (l : link) (n : net) (g : segment) : bytes := link_wire l (is_v6 n) ++ net_wire n (tcp_wire g).
Definition frame_ok (l : link) (n : net) (g : segment) : Prop := link_ok l /\ net_ok n (len (tcp_wire g)) /\ segment_ok g.

(** ** Its layers *)

Ltac does_step :=
  lazymatch goal with
  | |- does (dbind _ _) _ _ => apply does_bind
  | |- does (dret _) _ _ => apply does_ret
  | |- does dget _ _ => apply does_get; cbn [fst]
  | |- does (update _) _ _ => apply does_update
  | |- does (index _ _) _ _ => eapply does_index; [lia|reflexivity|]
  | |- does (between _ _ _) _ _ => apply does_between; [lia|lia|cbn [vis]; len_lia|]
  | |- does (BigEndian_Uint16 _ _) _ _ => eapply does_Uint16; [lia|reflexivity|reflexivity|]; rewrite ?be16_val by lia
  | |- does (BigEndian_Uint32 _ _) _ _ => eapply does_Uint32; [lia|reflexivity|reflexivity|reflexivity|reflexivity|]; rewrite ?be32_val by lia
  | |- does (LittleEndian_Uint32 _ _) _ _ => eapply does_LittleUint32; [lia|reflexivity|reflexivity|reflexivity|reflexivity|]; rewrite ?be32_val by lia
  end; cbv beta.

Ltac explode l :=
  lazymatch goal with
  | H : length l = O |- _ => destruct l; [clear H|discriminate H]
  | H : length l = S _ |- _ => let x := fresh "x" in let l' := fresh "l" in destruct l as [|x l']; [discriminate H|]; injection H as H; explode l'
  end.

Lemma offset_byte k (ns : bool) : 0 <= k <= 10 -> Z.shiftr (u8 (to_byte ((5 + k) * 16 + (if ns then 1 else 0)))) 4 = 5 + k.
Proof. intros H. rewrite u8_to_byte, Z.shiftr_div_pow2 by lia. Z.to_euclidean_division_equations. destruct ns; lia. Qed.

Lemma ihl_byte k : 0 <= k <= 10 -> Z.land (u8 (to_byte (4 * 16 + (5 + k)))) 0x0F = 5 + k.
Proof.
  intros H. change 0x0F with (Z.ones 4). rewrite Z.land_ones, u8_to_byte by lia. Z.to_euclidean_division_equations. lia.
Qed.

Lemma fin_flag n : 0 <= n < 2 ^ 8 -> bit (u8 (to_byte n)) 1 = Z.odd n.
Proof.
  intros H. unfold bit. rewrite u8_to_byte, Z.mod_small by lia. change 1 with (Z.ones 1). rewrite Z.land_ones, Zmod_odd by lia.
  by destruct (Z.odd n).
Qed.

Lemma options_words o : header_options_ok o -> exists k, 0 <= k <= 10 /\ len o = 4 * k /\ len o / 4 = k.
Proof. intros (_ & Hl & Hm). pose proof (len_nonneg o). exists (len o / 4). Z.to_euclidean_division_equations. lia. Qed.

Lemma TCP_does g data l t : segment_ok g -> vis data = tcp_wire g ->
  does (TCP_DecodeFromBytes data) (l, t) (fun _ s => snd s = t /\ tcp_Seq (fst s) = g_seq g /\ tcp_FIN (fst s) = g_FIN g /\
    tcp_SrcPort (fst s) = g_src g /\ tcp_DstPort (fst s) = g_dst g /\ tcp_Payload (fst s) = mkSlice (g_payload g) (spare data)).
Proof.
  destruct g as [src dst seq ack ns flags window sum urgent options pay], data as [v sp]. unfold segment_ok, tcp_wire, g_FIN.
  cbn [g_src g_dst g_seq g_ack g_ns g_flags g_window g_checksum g_urgent g_options g_payload vis spare].
  intros (Hs & Hd & Hq & Hf & Ho) ->. destruct (options_words _ Ho) as (k & Hk & Hl & ->). cbn [be16 be32 app]. unfold TCP_DecodeFromBytes.
  repeat does_step. rewrite offset_byte by done. rewrite (fin_flag flags) by done.
  match goal with |- context [mkSlice ?v sp] => set (w := v) end.
  assert (exists h, w = (h ++ options) ++ pay /\ len h = 20) as (h & E & Hh).
  { eexists (_ :: _ :: _ :: _ :: _ :: _ :: _ :: _ :: _ :: _ :: _ :: _ :: _ :: _ :: _ :: _ :: _ :: _ :: _ :: _ :: []). split; reflexivity. }
  assert (len w = 20 + 4 * k + len pay) as Hw by (rewrite E; len_lia). pose proof (len_nonneg pay).
  rewrite decide_False by lia. cbv zeta. rewrite decide_False by (cbn [vis]; lia).
  apply does_bind. apply (does_cut [] (h ++ options) pay); [exact E|done|len_lia|]. cbv beta.
  apply does_bind. apply (does_from (h ++ options) pay); [exact E|len_lia|]. cbv beta.
  apply does_bind, does_update, does_bind. apply (does_cut h options pay); [by rewrite app_assoc|lia|lia|].
  eapply does_mono; [eapply (tcp_options_does options _ (proj1 Ho)); [reflexivity|reflexivity|by repeat split]|].
  intros _ s' [(-> & -> & -> & -> & ->) ->]. done.
Qed.

Lemma IPv4_does tos id df ttl sum src dst options body padding data l t :
  net_ok (V4 tos id df ttl sum src dst options) (len body) -> vis data = net_wire (V4 tos id df ttl sum src dst options) body ++ padding ->
  does (IPv4_DecodeFromBytes data) (l, t) (fun _ s => snd s = t /\ ip4_SrcIP (fst s) = src /\ ip4_DstIP (fst s) = dst /\
    IPv4_NextLayerType (fst s) = layers.LayerTypeTCP /\ ip4_Payload (fst s) = mkSlice body (padding ++ spare data)).
Proof.
  destruct data as [v sp]. cbn [net_ok net_wire vis spare]. intros (Hs & Hd & Ho & Hlen) ->.
  destruct (options_words _ Ho) as (k & Hk & Hl & ->). pose proof (len_nonneg body).
  explode src. explode dst. cbn [be16 app]. rewrite <- app_assoc. unfold IPv4_DecodeFromBytes. repeat does_step. cbn [ip4_Length ip4_IHL set_field].
  rewrite ihl_byte by done. assert (wrapU 8 ((5 + k) * 4) = 20 + len options) as -> by (unfold wrapU; rewrite Z.mod_small; lia).
  match goal with |- context [mkSlice ?v sp] => set (w := v) end.
  assert (exists h, w = h ++ options ++ body ++ padding /\ len h = 20) as (h & E & Hh).
  { eexists (_ :: _ :: _ :: _ :: _ :: _ :: _ :: _ :: _ :: _ :: _ :: _ :: _ :: _ :: _ :: _ :: _ :: _ :: _ :: _ :: []). split; reflexivity. }
  assert (len w = 20 + len options + len body + len padding) as Hw by (rewrite E; len_lia). pose proof (len_nonneg padding).
  rewrite !decide_False by lia. cbn [vis]. apply does_bind.
  match goal with |- does _ ?s _ =>
    apply (does_mono _ _ (fun d s' => d = mkSlice ((h ++ options) ++ body) (padding ++ sp) /\ s' = s)) end.
  { case_decide; [|rewrite decide_False by lia].
    - apply (does_cut [] ((h ++ options) ++ body) padding); [by rewrite E, <- !app_assoc|done|len_lia|done].
    - apply does_ret. assert (padding = []) as -> by (apply nil_length_inv; unfold len in *; lia). split; [|done].
      by rewrite E, app_nil_r, <- app_assoc. }
  intros _ _ [-> ->]. cbv beta.
  pose proof (eq_refl : sub w 12 16 = [x; x0; x1; x2]) as Esrc. pose proof (eq_refl : sub w 16 20 = [x3; x4; x5; x6]) as Edst. clearbody w.
  apply does_bind. apply (does_cut [] (h ++ options) body); [done|done|len_lia|]. cbv beta.
  apply does_bind, does_update, does_bind. apply (does_from (h ++ options) body); [done|len_lia|]. cbv beta.
  apply does_bind, does_update, does_bind. apply (does_cut h options body); [by rewrite <- app_assoc|lia|lia|].
  eapply does_mono; [eapply (ip4_options_does options _ (proj1 Ho)); [reflexivity|reflexivity|by repeat split]|].
  intros _ s' [(-> & -> & -> & Hp & Hf & Hfo) ->]. split; [reflexivity|]. split; [exact Esrc|]. split; [exact Edst|]. split; [|reflexivity].
  unfold IPv4_NextLayerType. rewrite Hp, Hf, Hfo. cbn. by destruct df.
Qed.

Lemma IPv6_does first hop src dst body padding data l t :
  net_ok (V6 first hop src dst) (len body) -> vis data = net_wire (V6 first hop src dst) body ++ padding ->
  does (IPv6_DecodeFromBytes data) (l, t) (fun _ s => snd s = t /\ ip6_SrcIP (fst s) = src /\ ip6_DstIP (fst s) = dst /\
    IPv6_NextLayerType (fst s) = layers.LayerTypeTCP /\ ip6_Payload (fst s) = mkSlice body (padding ++ spare data)).
Proof.
  destruct data as [v sp]. cbn [net_ok net_wire vis spare]. intros (Hs & Hd & Hlen) ->. pose proof (len_nonneg padding).
  explode src. explode dst. cbn [be16 be32 app]. unfold IPv6_DecodeFromBytes. repeat does_step.
  match goal with |- context [from (mkSlice ?v sp) 40] => set (w := v) end.
  assert (exists h, w = h ++ body ++ padding /\ len h = 40) as (h & E & Hh).
  { eexists (_ :: _ :: _ :: _ :: _ :: _ :: _ :: _ :: _ :: _ :: _ :: _ :: _ :: _ :: _ :: _ :: _ :: _ :: _ :: _ ::
             _ :: _ :: _ :: _ :: _ :: _ :: _ :: _ :: _ :: _ :: _ :: _ :: _ :: _ :: _ :: _ :: _ :: _ :: _ :: _ :: []). split; reflexivity. }
  apply (does_from h (body ++ padding)); [exact E|lia|]. cbv beta. apply does_bind, does_update, does_bind.
  rewrite decide_False by done. apply does_ret. cbv beta iota. rewrite decide_False by lia. apply does_bind, does_get. cbn [fst ip6_Payload set_field vis].
  apply does_bind. rewrite decide_False by (cbn [vis]; len_lia). apply does_ret, does_bind.
  apply (does_cut [] body padding); [done|done|len_lia|]. by apply does_update.
Qed.

Definition ethertype (v6 : bool) : Z := if v6 then 0x86DD else 0x0800.

Lemma Ethernet_does dst src v6 body data l t :
  link_ok (EthernetII dst src) -> vis data = link_wire (EthernetII dst src) v6 ++ body ->
  does (Ethernet_DecodeFromBytes data) (l, t) (fun _ s => snd s = t /\ eth_EthernetType (fst s) = ethertype v6 /\
    eth_Payload (fst s) = mkSlice body (spare data)).
Proof.
  destruct data as [v sp]. cbn [link_ok link_wire vis spare]. intros [Hd Hs] ->. explode dst. explode src. pose proof (len_nonneg body).
  cbn [be16 app]. unfold Ethernet_DecodeFromBytes. rewrite decide_False by (cbn [vis]; len_lia). repeat does_step.
  rewrite be16_val by (destruct v6; lia).
  match goal with |- context [from (mkSlice (?a0 :: ?a1 :: ?a2 :: ?a3 :: ?a4 :: ?a5 :: ?a6 :: ?a7 :: ?a8 :: ?a9 :: ?b0 :: ?b1 :: ?b2 :: ?b3 :: body) sp) 14] =>
    apply (does_from [a0; a1; a2; a3; a4; a5; a6; a7; a8; a9; b0; b1; b2; b3] body); [reflexivity..|] end.
  cbv beta. apply does_bind, does_update. rewrite decide_False by (destruct v6; lia). by apply does_ret.
Qed.

Lemma LinuxSLL_does ptype hw n addr v6 body data l t :
  link_ok (CookedLinux ptype hw n addr) -> vis data = link_wire (CookedLinux ptype hw n addr) v6 ++ body ->
  does (LinuxSLL_DecodeFromBytes data) (l, t) (fun _ s => snd s = t /\ sll_EthernetType (fst s) = ethertype v6 /\
    sll_Payload (fst s) = mkSlice body (spare data)).
Proof.
  destruct data as [v sp]. cbn [link_ok link_wire vis spare]. intros [Hn Ha] ->. explode addr. pose proof (len_nonneg body).
  cbn [be16 app]. unfold LinuxSLL_DecodeFromBytes. rewrite decide_False by (cbn [vis]; len_lia). do 6 does_step.
  assert (uint16_of (n + 6) = n + 6) as -> by (unfold wrapU; rewrite Z.mod_small; lia).
  repeat does_step. rewrite be16_val by (destruct v6; lia).
  match goal with |- context [from (mkSlice (?a0 :: ?a1 :: ?a2 :: ?a3 :: ?a4 :: ?a5 :: ?a6 :: ?a7 :: ?a8 :: ?a9 :: ?b0 :: ?b1 :: ?b2 :: ?b3 :: ?b4 :: ?b5 :: body) sp) 16] =>
    apply (does_from [a0; a1; a2; a3; a4; a5; a6; a7; a8; a9; b0; b1; b2; b3; b4; b5] body); [reflexivity..|] end.
  cbv beta. by apply does_update.
Qed.

Lemma Loopback_does big family6 v6 body data l t :
  link_ok (BsdLoopback big family6) -> vis data = link_wire (BsdLoopback big family6) v6 ++ body ->
  does (Loopback_DecodeFromBytes data) (l, t) (fun _ s => snd s = t /\ lo_Family (fst s) = (if v6 then family6 else 2) /\
    lo_Payload (fst s) = mkSlice body (spare data)).
Proof.
  destruct data as [v sp]. cbn [link_ok link_wire vis spare]. intros Hf ->. pose proof (len_nonneg body).
  set (f := if v6 then family6 else 2). assert (0 < f < 256) as Hr.
  { subst f. destruct v6; [|lia]. repeat (apply elem_of_cons in Hf as [-> | Hf]; [lia|]). by apply elem_of_nil in Hf. }
  assert (u8 (to_byte f) = f) as Ef by (rewrite u8_to_byte, Z.mod_small; lia).
  assert (forall k, 8 <= k -> to_byte (Z.shiftr f k) = x00) as E0.
  { intros k Hk. apply u8_inj. rewrite u8_to_byte, Z.shiftr_div_pow2 by lia. rewrite Z.div_small; [done|].
    pose proof (Z.pow_le_mono_r 2 8 k). lia. }
  unfold be32. rewrite !E0 by lia. clearbody f. unfold Loopback_DecodeFromBytes.
  assert (forall (w : bytes) a0 a1 a2 a3, w = a0 :: a1 :: a2 :: a3 :: body ->
    does (update (fun lo : Loopback => lo <| lo_Family := f |>) ;;?
          let? contents := between (mkSlice w sp) 0 4 in
          let? payload := from (mkSlice w sp) 4 in
          update (fun lo => lo <| lo_Contents := contents |> <| lo_Payload := payload |>)) (l, t)
      (fun _ s => snd s = t /\ lo_Family (fst s) = f /\ lo_Payload (fst s) = mkSlice body sp)) as Hend.
  { intros w a0 a1 a2 a3 ->. does_step. does_step. does_step. does_step. does_step. apply (does_from [a0; a1; a2; a3] body); [done..|].
    by apply does_update. }
  destruct big; cbn [rev app]; rewrite decide_False by (cbn [vis]; len_lia).
  - does_step. does_step. rewrite decide_True by done. does_step. does_step. does_step. rewrite decide_True by done. does_step. rewrite Ef.
    change (u8 x00 * _ + _ + _ + f) with f. rewrite decide_False by lia. by eapply Hend.
  - does_step. does_step. rewrite Ef, decide_False by lia. does_step. does_step. does_step. rewrite decide_False by lia. does_step. rewrite Ef.
    change (u8 x00 * _ + _ + _ + f) with f. rewrite decide_False by lia. by eapply Hend.
Qed.

(** ** The whole frame *)

Lemma does_on {L A} (get : DecoderStruct -> L) set (m : dec L A) d t (Q : A -> DecoderStruct * bool -> Prop) :
  does m (get d, t) (fun a s => Q a (set (fst s) d, snd s)) -> does (on get set m) (d, t) Q.
Proof. intros (a & [l t'] & E & H). exists a, (set l d, t'). unfold on. by rewrite E. Qed.

Lemma does_layer p typ layer data decoded fuel s (Q : list Z -> DecoderStruct * bool -> Prop) :
  vis data <> [] -> (length (vis data) <= fuel)%nat -> decoders p !! typ = Some layer ->
  does (DecodeFromBytes layer data) s (fun _ s => forall f, (length (vis data) <= S f)%nat ->
    does (decode_layers f p (NextLayerType layer (fst s)) (LayerPayload layer (fst s)) (decoded ++ [typ])) s Q) ->
  does (decode_layers fuel p typ data decoded) s Q.
Proof.
  intros Hd Hf Hl H. destruct fuel as [|fuel]; [by destruct (vis data); cbn in Hf; [|lia]|].
  cbn [decode_layers]. rewrite decide_False, Hl by done. apply does_bind. eapply does_mono; [exact H|]. cbv beta. intros _ s' Hk.
  apply does_bind, does_get. by apply Hk.
Qed.

Lemma does_end p typ data decoded fuel s (Q : list Z -> DecoderStruct * bool -> Prop) :
  vis data = [] -> Q decoded s -> does (decode_layers fuel p typ data decoded) s Q.
Proof. intros Hd H. destruct fuel; cbn [decode_layers]; rewrite decide_True by done; by apply does_ret. Qed.

Definition link_layer (l : link) : DecodingLayer :=
  match l with EthernetII _ _ => eth_layer | CookedLinux _ _ _ _ => sll_layer | BsdLoopback _ _ => lo_layer end.

Lemma CreateDecoder_decoders l p : CreateDecoder (link_datalink l) = Some p ->
  first p = link_type l /\ decoders p !! link_type l = Some (link_layer l) /\
  decoders p !! layers.LayerTypeIPv4 = Some ip4_layer /\ decoders p !! layers.LayerTypeIPv6 = Some ip6_layer /\
  decoders p !! layers.LayerTypeTCP = Some tcp_layer /\ decoders p !! layers.LayerTypePayload = Some payload_layer.
Proof. destruct l; intros [= <-]; repeat split. Qed.

Lemma link_does l n body data d t : link_ok l -> vis data = link_wire l (is_v6 n) ++ body ->
  does (DecodeFromBytes (link_layer l) data) (d, t) (fun _ s => snd s = t /\ NextLayerType (link_layer l) (fst s) = net_type n /\
    LayerPayload (link_layer l) (fst s) = mkSlice body (spare data)).
Proof.
  intros Hl E. destruct l as [dst src|pt hw k addr|big fam]; apply does_on.
  - eapply does_mono; [by apply (Ethernet_does dst src (is_v6 n) body)|]. intros _ [e t'] (-> & Ht & Hp). cbn in *. rewrite Ht, Hp.
    unfold net_type. by destruct (is_v6 n).
  - eapply does_mono; [by apply (LinuxSLL_does pt hw k addr (is_v6 n) body)|]. intros _ [e t'] (-> & Ht & Hp). cbn in *. rewrite Ht, Hp.
    unfold net_type. by destruct (is_v6 n).
  - eapply does_mono; [by apply (Loopback_does big fam (is_v6 n) body)|]. intros _ [e t'] (-> & Ht & Hp). cbn in *. rewrite Ht, Hp.
    unfold net_type. destruct (is_v6 n); [|done]. repeat (apply elem_of_cons in Hl as [-> | Hl]; [done|]). by apply elem_of_nil in Hl.
Qed.

(** The addresses of the packet, in the layer of its version. *)
Definition holds_net (n : net) (d : DecoderStruct) : Prop :=
  if is_v6 n then ip6_SrcIP (ip6 d) = net_src n /\ ip6_DstIP (ip6 d) = net_dst n
  else ip4_SrcIP (ip4 d) = net_src n /\ ip4_DstIP (ip4 d) = net_dst n.

Definition net_layer (n : net) : DecodingLayer := if is_v6 n then ip6_layer else ip4_layer.

Lemma net_does n body padding data d t : net_ok n (len body) -> vis data = net_wire n body ++ padding ->
  does (DecodeFromBytes (net_layer n) data) (d, t) (fun _ s => snd s = t /\ holds_net n (fst s) /\
    NextLayerType (net_layer n) (fst s) = layers.LayerTypeTCP /\ LayerPayload (net_layer n) (fst s) = mkSlice body (padding ++ spare data)).
Proof.
  intros Hn E. destruct n as [tos id df ttl sum src dst options|w hop src dst]; apply does_on.
  - eapply does_mono; [by eapply IPv4_does|]. by intros _ [e t'] (-> & Hs & Hd & Ht & Hp).
  - eapply does_mono; [by eapply IPv6_does|]. by intros _ [e t'] (-> & Hs & Hd & Ht & Hp).
Qed.

Definition segment_header (g : segment) : TCPHeader :=
  {| hdr_Seq := g_seq g; hdr_FIN := g_FIN g; hdr_SrcPort := g_src g; hdr_DstPort := g_dst g |}.

Lemma link_wire_nonempty l v6 : link_wire l v6 <> [].
Proof. destruct l as [dst src|pt hw k addr|[] fam]; [by destruct dst, src|done..]. Qed.

Lemma net_wire_nonempty n body : net_wire n body <> [].
Proof. by destruct n. Qed.

Lemma net_wire_longer n body : (length body < length (net_wire n body))%nat.
Proof. destruct n; cbn; rewrite ?length_app; lia. Qed.

Lemma tcp_wire_longer g : (length (g_payload g) < length (tcp_wire g))%nat.
Proof. cbn. rewrite length_app. lia. Qed.

Lemma tcp_wire_nonempty g : tcp_wire g <> [].
Proof. done. Qed.

Lemma shorter {A} (l k : list A) f : l <> [] -> (length (l ++ k) <= S f)%nat -> (length k <= f)%nat.
Proof. destruct l; [done|]. cbn. rewrite length_app. lia. Qed.

Definition frame_types (l : link) (n : net) (g : segment) : list Z :=
  [link_type l; net_type n; layers.LayerTypeTCP] ++ (if decide (g_payload g = []) then [] else [layers.LayerTypePayload]).

Lemma frame_decoded l n g padding sp d p : CreateDecoder (link_datalink l) = Some p -> frame_ok l n g ->
  exists d', DecodeLayers p (mkSlice (frame l n g ++ padding) sp) d = (Ret (inl (frame_types l n g)), (d', false)) /\
    holds_net n d' /\ tcp_header (tcp d') = segment_header g /\
    (g_payload g <> [] -> payload d' = mkSlice (g_payload g) (padding ++ sp)).
Proof.
  intros Hp (Hl & Hn & Hg). destruct (CreateDecoder_decoders _ _ Hp) as (Hf & Dl & D4 & D6 & Dt & Dp).
  assert (decoders p !! net_type n = Some (net_layer n)) as Dn by (unfold net_type, net_layer; by destruct (is_v6 n)).
  assert (does (decode_layers (length (vis (mkSlice (frame l n g ++ padding) sp))) p (first p) (mkSlice (frame l n g ++ padding) sp) []) (d, false)
    (fun decoded s => decoded = frame_types l n g /\ snd s = false /\ holds_net n (fst s) /\ tcp_header (tcp (fst s)) = segment_header g /\
      (g_payload g <> [] -> payload (fst s) = mkSlice (g_payload g) (padding ++ sp)))) as (decoded & [d' t'] & E & -> & Ht & Hrest).
  2:{ exists d'. split; [|exact Hrest]. unfold DecodeLayers. rewrite E. cbn [snd] in Ht. by rewrite Ht. }
  rewrite Hf. unfold frame. rewrite <- app_assoc.
  apply (does_layer _ _ (link_layer l)); [|done|done|].
  { cbn [vis]. intros [Hw _]%app_nil. by apply link_wire_nonempty in Hw. }
  eapply does_mono; [by apply (link_does l n (net_wire n (tcp_wire g) ++ padding))|].
  intros _ [d1 t1] (Ht1 & Hnt & Hpay) f Hfuel. cbn [fst snd] in *. subst t1. rewrite Hnt, Hpay. cbn [spare].
  apply shorter in Hfuel; [|apply link_wire_nonempty].
  apply (does_layer _ _ (net_layer n)); [|exact Hfuel|exact Dn|].
  { cbn [vis]. intros [Hw _]%app_nil. by apply net_wire_nonempty in Hw. }
  eapply does_mono; [by apply (net_does n (tcp_wire g) padding)|].
  intros _ [d2 t2] (Ht2 & Hh & Hnt2 & Hpay2) f2 Hfuel2. cbn [fst snd] in *. subst t2. rewrite Hnt2, Hpay2. cbn [spare vis] in *.
  rewrite length_app in Hfuel2. pose proof (net_wire_longer n (tcp_wire g)). pose proof (tcp_wire_longer g).
  apply (does_layer _ _ tcp_layer); [done|cbn [vis]; lia|exact Dt|].
  apply does_on. eapply does_mono; [by apply (TCP_does g)|].
  intros _ [e t3] (Ht3 & Hq & Hfin & Hs & Hd & Hpay3) f3 Hfuel3. cbn [fst snd spare vis] in *. subst t3. cbn [NextLayerType LayerPayload tcp_layer tcp set_field].
  rewrite Hpay3. assert (tcp_header e = segment_header g) as Eh by (unfold tcp_header, segment_header; congruence).
  unfold frame_types. case_decide as Hempty.
  { apply does_end; [exact Hempty|]. rewrite Hempty. by destruct n. }
  apply (does_layer _ _ payload_layer); [exact Hempty|cbn [vis]; lia|exact Dp|].
  apply does_update. intros f4 _. apply does_end; [done|]. by destruct n.
Qed.

(** * Frames and streams *)

(** The packet that a frame stands for: its payload, before the padding of the frame and the
    rest of the buffer. *)
Definition frame_packet (ts : Z) (n : net) (g : segment) (behind : bytes) : Packet :=
  {| pk_Ts := ts; pk_Tuple := NewIpPortTuple (ip_length n) (net_src n) (g_src g) (net_dst n) (g_dst g);
     pk_Payload := mkSlice (g_payload g) (if decide (g_payload g = []) then [] else behind) |}.

Lemma decode_frame l n g padding sp d p : CreateDecoder (link_datalink l) = Some p -> frame_ok l n g ->
  exists ls, decode_with p d sp (frame l n g ++ padding) = Some ls /\ l_tcp ls = segment_header g /\
    forall ts, exists pkt, foldl (add_layer ls) (empty_packet, false) (l_decoded ls) = (pkt, true) /\
      {| pk_Ts := ts; pk_Payload := pk_Payload pkt; pk_Tuple := ComputeHashebles (pk_Tuple pkt) |} = frame_packet ts n g (padding ++ sp).
Proof.
  intros Hp Hok. destruct (frame_decoded l n g padding sp d p Hp Hok) as (d' & E & Hn & Ht & Hpay). unfold decode_with. rewrite E.
  destruct Hok as (_ & _ & Hs & Hd & _). eexists. split; [reflexivity|]. split; [exact Ht|]. intros ts.
  assert (tcp_SrcPort (tcp d') = g_src g /\ tcp_DstPort (tcp d') = g_dst g) as [Es Ed] by (split; [exact (f_equal hdr_SrcPort Ht)|exact (f_equal hdr_DstPort Ht)]).
  assert (uint16_of (g_src g) = g_src g /\ uint16_of (g_dst g) = g_dst g) as [Us Ud].
  { unfold wrapU. rewrite !Z.mod_small by done. done. }
  unfold frame_types, frame_packet, layers_of, holds_net, net_type, ip_length in *. cbn [l_decoded].
  destruct l; destruct n; cbn [is_v6] in *; destruct Hn as [E1 E2];
    (case_decide as Hpe; [rewrite Hpe; clear Hpay|rewrite <- (Hpay Hpe); clear Hpay]);
    (eexists; split; [reflexivity|]); cbn; rewrite E1, E2, Es, Ed, Us, Ud; reflexivity.
Qed.

Section Followed.
Context {St Data : Type}.
Implicit Types (tcp : Tcp St Data).

Lemma DecodePacketData_frame l n g padding spare d p tcp ts : CreateDecoder (link_datalink l) = Some p -> frame_ok l n g ->
  DecodePacketData (decode_with p d spare) tcp (frame l n g ++ padding) ts =
    if bool_decide (g_payload g = []) && negb (g_FIN g) then Ret tcp
    else FollowTcp tcp (segment_header g) (frame_packet ts n g (padding ++ spare)).
Proof.
  intros Hp Hok. destruct (decode_frame l n g padding spare d p Hp Hok) as (ls & E & Ht & Hf). destruct (Hf ts) as (pkt & Ef & Epk).
  unfold DecodePacketData. rewrite E, Ef, Ht, Epk. cbn [negb]. assert (pk_Payload pkt = pk_Payload (frame_packet ts n g (padding ++ spare))) as ->.
  { by rewrite <- Epk. }
  cbn [frame_packet pk_Payload vis hdr_FIN segment_header].
  destruct (g_payload g) as [|b s]; [done|]. rewrite !bool_decide_eq_false_2; [done|done|]. len_lia.
Qed.

(** C00. A TCP segment that a host sends over IPv4 or IPv6, with any options, in an Ethernet,
    cooked or loopback frame is followed as itself, whatever the packets before it have left in
    the decoder, and whatever padding the frame has: its ports and addresses are those
    of the stream's tuple, its sequence number, FIN and payload those that the stream is given.  A
    segment without payload and FIN is dropped. *)
Theorem frame_followed l n g padding spare d p tcp ts : CreateDecoder (link_datalink l) = Some p -> frame_ok l n g ->
  DecodePacketData (decode_with p d spare) tcp (frame l n g ++ padding) ts =
    if bool_decide (g_payload g = []) && negb (g_FIN g) then Ret tcp
    else FollowTcp tcp (segment_header g) (frame_packet ts n g (padding ++ spare)).
Proof. apply DecodePacketData_frame. Qed.

(** The captures of a list of segments: those that have neither payload nor FIN, like the ones that
    open a connection, are left out. *)
Inductive captured (datalink : Z) : list capture -> list (TCPHeader * Packet) -> Prop :=
| captured_nil : captured datalink [] []
| captured_segment l n g padding behind ts cs xs : link_datalink l = datalink -> frame_ok l n g -> g_payload g <> [] \/ g_FIN g = true ->
    captured datalink cs xs ->
    captured datalink ((frame l n g ++ padding, behind, ts) :: cs) ((segment_header g, frame_packet ts n g (padding ++ behind)) :: xs)
| captured_empty l n g padding behind ts cs xs : link_datalink l = datalink -> frame_ok l n g -> g_payload g = [] -> g_FIN g = false ->
    captured datalink cs xs -> captured datalink ((frame l n g ++ padding, behind, ts) :: cs) xs.

Lemma captured_followed datalink p cs xs tcp d : CreateDecoder datalink = Some p -> captured datalink cs xs ->
  (let! s := decode_packets p (tcp, d) cs in Ret (fst s)) = FollowAll tcp xs.
Proof.
  intros Hp Hc. revert tcp d.
  induction Hc as [|l n g padding behind ts cs xs <- Hok Hg _ IH|l n g padding behind ts cs xs <- Hok Hg Hf _ IH]; intros tcp d; [done|..];
    cbn [decode_packets decode_packet FollowAll]; rewrite (DecodePacketData_frame l) by done.
  - assert (bool_decide (g_payload g = []) && negb (g_FIN g) = false) as ->.
    { destruct Hg as [Hg | ->]; [by rewrite bool_decide_eq_false_2|apply andb_false_r]. }
    destruct (FollowTcp _ _ _) as [tcp'| |]; cbn [obind]; [apply IH|done..].
  - rewrite Hg, Hf. cbn [bool_decide decide_rel andb negb obind]. apply IH.
Qed.
End Followed.

Lemma captured_hashed datalink cs hdr pkt xs : captured datalink cs ((hdr, pkt) :: xs) -> hashed (pk_Tuple pkt).
Proof.
  intros H. remember ((hdr, pkt) :: xs) as ys eqn:E. revert E. induction H as [|l n g padding behind ts cs ys Hl Hok Hg H IH|]; [done| |auto].
  intros [= <- <- <-]. destruct Hok as (_ & Hn & Hs & Hd & _). apply raw_hashed. unfold raw_tuple. cbn.
  destruct n; cbn in *; destruct Hn as (E1 & E2 & _); rewrite E1, E2; (split; [lia|split; [lia|done]]).
Qed.

(** * Examples *)

(** An IPv6 request on a loopback, and an IPv4 datagram with options in a padded Ethernet frame. *)
Definition idle_tcp : Tcp unit unit :=
  {| tcp_id := 0; tcpStreamsMap := ∅; tcpPortMap := {[ 80 := HttpProtocol ]}; heap := ∅; timers := ∅; protos := ∅; plugins := tt |}.
Definition example_segment (flags : Z) (text : bytes) : segment :=
  {| g_src := 40000; g_dst := 80; g_seq := 2 ^ 32 - 1; g_ack := 1; g_ns := true; g_flags := flags; g_window := 512; g_checksum := 0; g_urgent := 0;
     g_options := map to_byte [1; 1; 8; 10; 0; 0; 0; 1; 0; 0; 0; 2]; g_payload := text |}.
Definition example_v6 : net := V6 0x60000000 64 (replicate 16 x01) (replicate 16 x02).
Definition example_v4 : net := V4 0 7 true 64 0 (replicate 4 x01) (replicate 4 x02) (map to_byte [148; 4; 0; 0]).

Lemma example_options : options_ok (g_options (example_segment 0 [])) /\ options_ok (map to_byte [148; 4; 0; 0]).
Proof.
  split; [do 2 (apply options_pad; [done|]); by apply (options_data _ _ (map to_byte [0; 0; 0; 1; 0; 0; 0; 2]) []); [..|constructor]|].
  by apply (options_data _ _ (map to_byte [0; 0]) []); [..|constructor].
Qed.

Lemma frame_followed_witness :
  exists p pkt, CreateDecoder layers.LinkTypeNull = Some p /\
    DecodePacketData (decode_with p new_decoder [x00]) idle_tcp (frame (BsdLoopback false 30) example_v6 (example_segment 17 (bs "GET")) ++ [x00]) 7 =
      FollowTcp idle_tcp {| hdr_Seq := 2 ^ 32 - 1; hdr_FIN := true; hdr_SrcPort := 40000; hdr_DstPort := 80 |} pkt /\
    vis (pk_Payload pkt) = bs "GET" /\ it_Src_ip (pk_Tuple pkt) = replicate 16 x01.
Proof.
  eexists _, _. split; [reflexivity|]. split; [|split].
  - apply (frame_followed (BsdLoopback false 30) example_v6 (example_segment 17 (bs "GET")) [x00] [x00] new_decoder _ idle_tcp 7); [reflexivity|].
    repeat split; try (by vm_compute). + set_solver. + apply example_options.
  - reflexivity.
  - reflexivity.
Defined.
