(* ===== verification/GopacketReuse.v ===== *)
(** The decoder of Gopacket.v is used again for every packet: what it makes of a packet does not
    depend on the packets before. *)
From stdpp Require Import list.
From S2P Require Export GopacketFrames.
#[local] Open Scope Z_scope.
#[local] Open Scope dec_scope.

(** * Two runs of a method *)

(** [same m1 m2 s1 s2 Q]: the methods end alike, and with [Q] when they end without an error. *)
Definition same {L A} (m1 m2 : dec L A) (s1 s2 : L * bool) (Q : A -> A -> L * bool -> L * bool -> Prop) : Prop :=
  match m1 s1, m2 s2 with
  | (Done a, s1'), (Done b, s2') => Q a b s1' s2'
  | (Failed e, _), (Failed e', _) => e = e'
  | (Panicked, _), (Panicked, _) | (NoFuel, _), (NoFuel, _) => True
  | _, _ => False
  end.

Section Same.
Context {L : Type}.
Implicit Types (s : L * bool).

Lemma same_ret {A} (a b : A) s1 s2 (Q : A -> A -> L * bool -> L * bool -> Prop) : Q a b s1 s2 -> same (dret a) (dret b) s1 s2 Q.
Proof. done. Qed.

Lemma same_fail {A} err s1 s2 (Q : A -> A -> L * bool -> L * bool -> Prop) : same (dfail err) (dfail err) s1 s2 Q.
Proof. done. Qed.

Lemma same_bind {A B} (m1 m2 : dec L A) (k1 k2 : A -> dec L B) s1 s2 Q :
  same m1 m2 s1 s2 (fun a b s1 s2 => same (k1 a) (k2 b) s1 s2 Q) -> same (dbind m1 k1) (dbind m2 k2) s1 s2 Q.
Proof. unfold same, dbind. by destruct (m1 s1) as [[] ?], (m2 s2) as [[] ?]. Qed.

Lemma same_mono {A} (m1 m2 : dec L A) s1 s2 (Q Q' : A -> A -> L * bool -> L * bool -> Prop) :
  same m1 m2 s1 s2 Q -> (forall a b s1 s2, Q a b s1 s2 -> Q' a b s1 s2) -> same m1 m2 s1 s2 Q'.
Proof. unfold same. destruct (m1 s1) as [[] ?], (m2 s2) as [[] ?]; auto. Qed.

Lemma same_lift {A} (o : outcome A) s1 s2 (Q : A -> A -> L * bool -> L * bool -> Prop) : (forall a, Q a a s1 s2) -> same (dlift o) (dlift o) s1 s2 Q.
Proof. intros H. unfold same, dlift. destruct o; [by apply H|done..]. Qed.

Lemma same_get s1 s2 (Q : L -> L -> L * bool -> L * bool -> Prop) : Q (fst s1) (fst s2) s1 s2 -> same dget dget s1 s2 Q.
Proof. done. Qed.

Lemma same_update (f1 f2 : L -> L) l1 l2 t1 t2 (Q : unit -> unit -> L * bool -> L * bool -> Prop) :
  Q tt tt (f1 l1, t1) (f2 l2, t2) -> same (update f1) (update f2) (l1, t1) (l2, t2) Q.
Proof. done. Qed.

Lemma same_truncated l1 l2 t1 t2 (Q : unit -> unit -> L * bool -> L * bool -> Prop) :
  Q tt tt (l1, true) (l2, true) -> same SetTruncated SetTruncated (l1, t1) (l2, t2) Q.
Proof. done. Qed.

Lemma same_index data i s1 s2 (Q : Z -> Z -> L * bool -> L * bool -> Prop) : (forall b, Q b b s1 s2) -> same (index data i) (index data i) s1 s2 Q.
Proof. intros H. apply same_bind, same_lift. intros a. by apply same_ret. Qed.

Lemma same_Uint16 data lo s1 s2 (Q : Z -> Z -> L * bool -> L * bool -> Prop) :
  (forall n, Q n n s1 s2) -> same (BigEndian_Uint16 data lo) (BigEndian_Uint16 data lo) s1 s2 Q.
Proof. intros H. apply same_bind, same_lift. intros a. by apply same_lift. Qed.

Lemma same_Uint32 data lo s1 s2 (Q : Z -> Z -> L * bool -> L * bool -> Prop) :
  (forall n, Q n n s1 s2) -> same (BigEndian_Uint32 data lo) (BigEndian_Uint32 data lo) s1 s2 Q.
Proof. intros H. apply same_bind, same_lift. intros a. by apply same_lift. Qed.

Lemma same_LittleUint32 data lo s1 s2 (Q : Z -> Z -> L * bool -> L * bool -> Prop) :
  (forall n, Q n n s1 s2) -> same (LittleEndian_Uint32 data lo) (LittleEndian_Uint32 data lo) s1 s2 Q.
Proof. intros H. apply same_bind, same_lift. intros a. by apply same_lift. Qed.
End Same.

Ltac same_step :=
  lazymatch goal with
  | |- same (dbind _ _) _ _ _ _ => apply same_bind
  | |- same (dret _) _ _ _ _ => apply same_ret
  | |- same (dfail _) _ _ _ _ => apply same_fail
  | |- same dget _ _ _ _ => apply same_get; cbn
  | |- same (update _) _ _ _ _ => apply same_update
  | |- same SetTruncated _ _ _ _ => apply same_truncated
  | |- same (index _ _) _ _ _ _ => apply same_index; intros ?
  | |- same (between _ _ _) _ _ _ _ => apply same_lift; intros ?
  | |- same (from _ _) _ _ _ _ => apply same_lift; intros ?
  | |- same (dlift _) _ _ _ _ => apply same_lift; intros ?
  | |- same (BigEndian_Uint16 _ _) _ _ _ _ => apply same_Uint16; intros ?
  | |- same (BigEndian_Uint32 _ _) _ _ _ _ => apply same_Uint32; intros ?
  | |- same (LittleEndian_Uint32 _ _) _ _ _ _ => apply same_LittleUint32; intros ?
  | |- same (if decide _ then _ else _) _ _ _ _ => case_decide
  | |- same (if ?b then _ else _) _ _ _ _ => destruct b
  | |- same (match ?x with Some _ => _ | None => _ end) _ _ _ _ => destruct x
  | |- same (let _ := _ in _) _ _ _ _ => cbv zeta
  end.
Ltac same_run := repeat (same_step; cbv beta iota).

Lemma Ethernet_same data s1 s2 : same (Ethernet_DecodeFromBytes data) (Ethernet_DecodeFromBytes data) s1 s2 (fun _ _ s1 s2 =>
  eth_EthernetType (fst s1) = eth_EthernetType (fst s2) /\ eth_Payload (fst s1) = eth_Payload (fst s2)).
Proof. destruct s1 as [l1 t1], s2 as [l2 t2]. unfold Ethernet_DecodeFromBytes. same_run; done. Qed.

Lemma LinuxSLL_same data s1 s2 : same (LinuxSLL_DecodeFromBytes data) (LinuxSLL_DecodeFromBytes data) s1 s2 (fun _ _ s1 s2 =>
  sll_EthernetType (fst s1) = sll_EthernetType (fst s2) /\ sll_Payload (fst s1) = sll_Payload (fst s2)).
Proof. destruct s1 as [l1 t1], s2 as [l2 t2]. unfold LinuxSLL_DecodeFromBytes. same_run; done. Qed.

Lemma Loopback_same data s1 s2 : same (Loopback_DecodeFromBytes data) (Loopback_DecodeFromBytes data) s1 s2 (fun _ _ s1 s2 =>
  lo_Family (fst s1) = lo_Family (fst s2) /\ lo_Payload (fst s1) = lo_Payload (fst s2)).
Proof. destruct s1 as [l1 t1], s2 as [l2 t2]. unfold Loopback_DecodeFromBytes. same_run; done. Qed.

Lemma ip4_options_same fuel : forall data s1 s2, ip4_keeps (fst s1) (fst s2) ->
  same (ip4_options fuel data) (ip4_options fuel data) s1 s2 (fun _ _ s1 s2 => ip4_keeps (fst s1) (fst s2)).
Proof.
  induction fuel as [|fuel IH]; intros data [l1 t1] [l2 t2] Hk; cbn [ip4_options]; (case_decide; [done|]); [done|].
  do 3 (same_step; cbv beta).
  apply (same_mono _ _ _ _ (fun o1 o2 s1 s2 => o1 = o2 /\ ip4_keeps (fst s1) (fst s2))).
  - unfold append_option. same_run; (split; [done|exact Hk]).
  - intros o ? [l1' t1'] [l2' t2'] [<- Hk']. case_decide; [|done]. unfold append_option. same_run. by apply IH.
Qed.

Lemma IPv4_same data s1 s2 : same (IPv4_DecodeFromBytes data) (IPv4_DecodeFromBytes data) s1 s2 (fun _ _ s1 s2 => ip4_keeps (fst s1) (fst s2)).
Proof.
  destruct s1 as [l1 t1], s2 as [l2 t2]. unfold IPv4_DecodeFromBytes. same_run; try done.
  all: by apply ip4_options_same.
Qed.

Lemma tcp_options_same fuel : forall data s1 s2, tcp_keeps (fst s1) (fst s2) ->
  same (tcp_options fuel data) (tcp_options fuel data) s1 s2 (fun _ _ s1 s2 => tcp_keeps (fst s1) (fst s2)).
Proof.
  induction fuel as [|fuel IH]; intros data [l1 t1] [l2 t2] Hk; cbn [tcp_options]; (case_decide; [done|]); [done|].
  unfold add_tcp_option. do 5 (same_step; cbv beta).
  apply (same_mono _ _ _ _ (fun n1 n2 s1 s2 => n1 = n2 /\ tcp_keeps (fst s1) (fst s2))).
  - unfold last_tcp_option. same_run; (split; [done|exact Hk]).
  - intros n ? [l1' t1'] [l2' t2'] [<- Hk']. same_run. by apply IH.
Qed.

Lemma TCP_same data s1 s2 : same (TCP_DecodeFromBytes data) (TCP_DecodeFromBytes data) s1 s2 (fun _ _ s1 s2 => tcp_keeps (fst s1) (fst s2)).
Proof.
  destruct s1 as [l1 t1], s2 as [l2 t2]. unfold TCP_DecodeFromBytes. same_run; try done. by apply tcp_options_same.
Qed.

(** What is read of an IPv6 layer. *)
Definition ip6_agrees (l1 l2 : IPv6) : Prop :=
  ip6_SrcIP l1 = ip6_SrcIP l2 /\ ip6_DstIP l1 = ip6_DstIP l2 /\ ip6_Payload l1 = ip6_Payload l2 /\ IPv6_NextLayerType l1 = IPv6_NextLayerType l2.

Lemma IPv6_same data s1 s2 : same (IPv6_DecodeFromBytes data) (IPv6_DecodeFromBytes data) s1 s2 (fun _ _ s1 s2 => ip6_agrees (fst s1) (fst s2)).
Proof.
  destruct s1 as [l1 t1], s2 as [l2 t2]. unfold IPv6_DecodeFromBytes. same_run; done.
Qed.

(** What [DecodePacketData] reads of the layers decoded. *)
Definition agree (decoded : list Z) (d1 d2 : DecoderStruct) : Prop :=
  (layers.LayerTypeIPv4 ∈ decoded -> ip4_SrcIP (ip4 d1) = ip4_SrcIP (ip4 d2) /\ ip4_DstIP (ip4 d1) = ip4_DstIP (ip4 d2)) /\
  (layers.LayerTypeIPv6 ∈ decoded -> ip6_SrcIP (ip6 d1) = ip6_SrcIP (ip6 d2) /\ ip6_DstIP (ip6 d1) = ip6_DstIP (ip6 d2)) /\
  (layers.LayerTypeTCP ∈ decoded -> tcp_header (tcp d1) = tcp_header (tcp d2)) /\
  (layers.LayerTypePayload ∈ decoded -> payload d1 = payload d2).

Definition layer_same (typ : Z) (layer : DecodingLayer) : Prop := forall data decoded d1 d2 t1 t2, agree decoded d1 d2 ->
  same (DecodeFromBytes layer data) (DecodeFromBytes layer data) (d1, t1) (d2, t2) (fun _ _ s1 s2 =>
    NextLayerType layer (fst s1) = NextLayerType layer (fst s2) /\ LayerPayload layer (fst s1) = LayerPayload layer (fst s2) /\
    agree (decoded ++ [typ]) (fst s1) (fst s2)).

Lemma same_on {L A} (get : DecoderStruct -> L) set (m1 m2 : dec L A) d1 d2 t1 t2 (Q : A -> A -> DecoderStruct * bool -> DecoderStruct * bool -> Prop) :
  same m1 m2 (get d1, t1) (get d2, t2) (fun a b s1 s2 => Q a b (set (fst s1) d1, snd s1) (set (fst s2) d2, snd s2)) ->
  same (on get set m1) (on get set m2) (d1, t1) (d2, t2) Q.
Proof. unfold same, on. by destruct (m1 (get d1, t1)) as [[] [? ?]], (m2 (get d2, t2)) as [[] [? ?]]. Qed.

Lemma agree_snoc decoded typ d1 d2 e1 e2 : agree decoded d1 d2 -> agree [typ] e1 e2 ->
  (ip4 e1 = ip4 d1 /\ ip4 e2 = ip4 d2 \/ typ = layers.LayerTypeIPv4) -> (ip6 e1 = ip6 d1 /\ ip6 e2 = ip6 d2 \/ typ = layers.LayerTypeIPv6) ->
  (tcp e1 = tcp d1 /\ tcp e2 = tcp d2 \/ typ = layers.LayerTypeTCP) -> (payload e1 = payload d1 /\ payload e2 = payload d2 \/ typ = layers.LayerTypePayload) ->
  agree (decoded ++ [typ]) e1 e2.
Proof.
  intros (A4 & A6 & At & Ap) (B4 & B6 & Bt & Bp) H4 H6 Ht Hp.
  split_and!; intros [Hi|Hi]%elem_of_app; auto.
  - destruct H4 as [[-> ->] | ->]; [auto|]. by apply B4, list_elem_of_singleton.
  - destruct H6 as [[-> ->] | ->]; [auto|]. by apply B6, list_elem_of_singleton.
  - destruct Ht as [[-> ->] | ->]; [auto|]. by apply Bt, list_elem_of_singleton.
  - destruct Hp as [[-> ->] | ->]; [auto|]. by apply Bp, list_elem_of_singleton.
Qed.

Lemma agree_single typ d1 d2 :
  (typ = layers.LayerTypeIPv4 -> ip4_SrcIP (ip4 d1) = ip4_SrcIP (ip4 d2) /\ ip4_DstIP (ip4 d1) = ip4_DstIP (ip4 d2)) ->
  (typ = layers.LayerTypeIPv6 -> ip6_SrcIP (ip6 d1) = ip6_SrcIP (ip6 d2) /\ ip6_DstIP (ip6 d1) = ip6_DstIP (ip6 d2)) ->
  (typ = layers.LayerTypeTCP -> tcp_header (tcp d1) = tcp_header (tcp d2)) -> (typ = layers.LayerTypePayload -> payload d1 = payload d2) ->
  agree [typ] d1 d2.
Proof. intros H4 H6 Ht Hp. split_and!; intros E%list_elem_of_singleton; auto. Qed.

(** The four layers that are read, and the link layers, which are not. *)
Ltac layer_same_tac lem :=
  intros data decoded d1 d2 t1 t2 Ha; apply same_on; (eapply same_mono; [apply lem|]); intros _ _ [l1 u1] [l2 u2] H; cbn in H |- *;
  unfold ip4_keeps, ip6_agrees, tcp_keeps in H; decompose [and] H;
  (split; [|split]);
  [first [congruence|unfold IPv4_NextLayerType; repeat match goal with E : _ l2 = _ l1 |- _ => rewrite E end; reflexivity]|congruence|];
  apply (agree_snoc decoded _ d1 d2); [exact Ha|apply agree_single; intros E; try discriminate E; unfold tcp_header; cbn; split_and?; congruence|by (left + right)..].

Lemma CreateDecoder_same datalink p typ layer : CreateDecoder datalink = Some p -> decoders p !! typ = Some layer -> layer_same typ layer.
Proof.
  assert (layer_same layers.LayerTypeIPv4 ip4_layer) as H4 by layer_same_tac @IPv4_same.
  assert (layer_same layers.LayerTypeIPv6 ip6_layer) as H6 by layer_same_tac @IPv6_same.
  assert (layer_same layers.LayerTypeTCP tcp_layer) as Ht by layer_same_tac @TCP_same.
  assert (layer_same layers.LayerTypeLinuxSLL sll_layer) as Hs by layer_same_tac @LinuxSLL_same.
  assert (layer_same layers.LayerTypeLoopback lo_layer) as Hlo by layer_same_tac @Loopback_same.
  assert (layer_same layers.LayerTypeEthernet eth_layer) as He by layer_same_tac @Ethernet_same.
  assert (layer_same layers.LayerTypePayload payload_layer) as Hp.
  { intros data decoded d1 d2 t1 t2 Ha. apply same_update. split; [done|]. split; [done|].
    apply (agree_snoc decoded _ d1 d2); [exact Ha|by apply agree_single|by (left + right)..]. }
  intros Hc Hl. by destruct (CreateDecoder_cases _ _ _ _ Hc Hl) as [[-> ->]|[[-> ->]|[[-> ->]|[[-> ->]|[[-> ->]|[[-> ->]|[-> ->]]]]]]].
Qed.

Lemma decode_layers_same p fuel : (forall typ layer, decoders p !! typ = Some layer -> layer_same typ layer) ->
  forall typ data decoded d1 d2 t1 t2, agree decoded d1 d2 ->
  same (decode_layers fuel p typ data decoded) (decode_layers fuel p typ data decoded) (d1, t1) (d2, t2)
    (fun a b s1 s2 => a = b /\ agree a (fst s1) (fst s2)).
Proof.
  intros Hp. induction fuel as [|fuel IH]; intros typ data decoded d1 d2 t1 t2 Ha; cbn [decode_layers]; (case_decide; [done|]); [done|].
  destruct (decoders p !! typ) as [layer|] eqn:El; [|done]. apply same_bind. eapply same_mono; [by apply (Hp _ _ El)|].
  intros _ _ [e1 u1] [e2 u2] (En & Ep & Ha'). apply same_bind, same_get. cbn [fst] in *. rewrite <- En, <- Ep. by apply IH.
Qed.

Lemma add_layers_agree decoded d1 d2 : agree decoded d1 d2 -> forall acc,
  foldl (add_layer (layers_of decoded d1)) acc (map case_of decoded) = foldl (add_layer (layers_of decoded d2)) acc (map case_of decoded).
Proof.
  intros Ha acc. assert (forall typ acc, typ ∈ decoded -> add_layer (layers_of decoded d1) acc (case_of typ) = add_layer (layers_of decoded d2) acc (case_of typ)) as Hstep.
  { destruct Ha as (A4 & A6 & At & Ap). intros typ [pkt has] Hin. unfold case_of.
    case_decide; [subst; destruct (A4 Hin) as [E1 E2]; cbn; by rewrite E1, E2|].
    case_decide; [subst; destruct (A6 Hin) as [E1 E2]; cbn; by rewrite E1, E2|].
    case_decide; [subst; specialize (At Hin); cbn; change (tcp_SrcPort (tcp d1)) with (hdr_SrcPort (tcp_header (tcp d1)));
      change (tcp_DstPort (tcp d1)) with (hdr_DstPort (tcp_header (tcp d1))); by rewrite At|].
    case_decide; [subst; cbn; by rewrite (Ap Hin)|done]. }
  clear Ha. revert acc. assert (forall l, (forall typ, typ ∈ l -> typ ∈ decoded) -> forall acc,
    foldl (add_layer (layers_of decoded d1)) acc (map case_of l) = foldl (add_layer (layers_of decoded d2)) acc (map case_of l)) as Hl; [|by apply Hl].
  induction l as [|typ l IH]; intros Hi acc; [done|]. cbn [map foldl]. rewrite Hstep by (apply Hi; constructor). apply IH. intros t Ht. by apply Hi; constructor.
Qed.

Lemma add_layers_tcp ls l acc : snd (foldl (add_layer ls) acc l) = true -> snd acc = true \/ LayerTypeTCP ∈ l.
Proof.
  revert acc. induction l as [|ty l IH]; intros [pkt has] H; cbn [foldl] in H; [by left|]. apply IH in H as [H|H]; [|right; by constructor].
  destruct ty; cbn in H; auto. right. constructor.
Qed.

Lemma case_of_tcp typ : case_of typ = LayerTypeTCP -> typ = layers.LayerTypeTCP.
Proof. unfold case_of. repeat case_decide; congruence. Qed.

Lemma DecodePacketData_agree {St Data} datalink p d1 d2 sp (tcp : Tcp St Data) data ts : CreateDecoder datalink = Some p ->
  DecodePacketData (decode_with p d1 sp) tcp data ts = DecodePacketData (decode_with p d2 sp) tcp data ts.
Proof.
  intros Hp. unfold DecodePacketData, decode_with, DecodeLayers. set (w := mkSlice data sp).
  pose proof (decode_layers_same p (length (vis w)) (fun typ layer => CreateDecoder_same datalink p typ layer Hp) (first p) w [] d1 d2 false false) as Hs.
  unfold same in Hs. destruct (decode_layers _ _ _ _ _ (d1, false)) as [r1 [e1 u1]], (decode_layers _ _ _ _ _ (d2, false)) as [r2 [e2 u2]].
  destruct r1 as [l1|?| |], r2 as [l2|?| |]; try done; try (exfalso; apply Hs; by split_and!; intros ?%elem_of_nil).
  destruct Hs as [<- Ha]; [by split_and!; intros ?%elem_of_nil|]. cbn [fst] in Ha. cbn [l_decoded layers_of].
  pose proof (add_layers_agree l1 e1 e2 Ha (empty_packet, false)) as Ef. unfold layers_of in Ef |- *. cbn [l_decoded] in *. rewrite <- Ef.
  match goal with |- context [foldl (add_layer ?x) ?a ?l] => pose proof (add_layers_tcp x l a) as Ht end.
  destruct (foldl _ _ _) as [pkt has]. destruct has; [|done]. cbn [negb].
  destruct Ht as [Ht|Ht]; [done|done|]. apply list_elem_of_fmap in Ht as (typ & E & Hin). symmetry in E. apply case_of_tcp in E as ->.
  destruct Ha as (_ & _ & Ha & _). specialize (Ha Hin). cbn [l_tcp]. by rewrite Ha.
Qed.

Section Reused.
Context {St Data : Type}.
Implicit Types (tcp : Tcp St Data).

(** The reference: every packet has a decoder of its own. *)
Fixpoint decode_fresh (p : DecodingLayerParser) tcp (l : list capture) : outcome (Tcp St Data) :=
  match l with
  | [] => Ret tcp
  | (data, spare, ts) :: l => let! tcp := DecodePacketData (decode_with p new_decoder spare) tcp data ts in decode_fresh p tcp l
  end.

(** C00. One decoder for all packets does what a new decoder for each does: nothing that a
    packet leaves in the layers is taken for a part of a later one. *)
Theorem decoder_reused datalink p tcp d l : CreateDecoder datalink = Some p ->
  (let! s := decode_packets p (tcp, d) l in Ret (fst s)) = decode_fresh p tcp l.
Proof.
  intros Hp. revert tcp d. induction l as [|[[data sp] ts] l IH]; intros tcp d; [done|]. cbn [decode_packets decode_fresh decode_packet].
  rewrite <- (DecodePacketData_agree datalink p d new_decoder sp tcp data ts Hp).
  destruct (DecodePacketData _ _ _ _) as [tcp'| |]; cbn [obind]; [apply IH|done..].
Qed.
End Reused.

(** * Example *)

Definition reused_captures : list capture := [
  (frame (EthernetII (replicate 6 x03) (replicate 6 x04)) example_v4 (example_segment 24 (bs "GET / HT")) ++ replicate 4 x00, [x00], 7);
  (frame (EthernetII (replicate 6 x03) (replicate 6 x04)) example_v6 (example_segment 24 (bs "GET /")), [], 8);
  (bs "not a frame", [], 9) ].

Lemma decoder_reused_witness :
  exists p s, CreateDecoder layers.LinkTypeEthernet = Some p /\ decode_packets p (idle_tcp, new_decoder) reused_captures = Ret s /\
    decode_fresh p idle_tcp reused_captures = Ret (fst s) /\ Datatypes.length (ip4_Options (ip4 (snd s))) = 1%nat.
Proof.
  eexists. assert (forall P (Q : Tcp unit unit * DecoderStruct -> Prop), P -> (exists s, Q s) -> exists s, P /\ Q s) as Hex by naive_solver.
  apply Hex; [reflexivity|]. clear Hex. match goal with |- exists s, decode_packets ?p _ _ = _ /\ _ =>
    pose proof (decoder_reused layers.LinkTypeEthernet p idle_tcp new_decoder reused_captures eq_refl) as H; set (q := p) in * end.
  assert (match decode_packets q (idle_tcp, new_decoder) reused_captures with Ret s => Datatypes.length (ip4_Options (ip4 (snd s))) = 1%nat | _ => False end)
    as Hn by (vm_compute; reflexivity).
  destruct (decode_packets q (idle_tcp, new_decoder) reused_captures) as [s| |]; [|by destruct Hn..].
  exists s. split; [reflexivity|]. split; [by rewrite <- H|exact Hn].
Defined.
