(* ===== verification/Redis.v ===== *)
(** The Redis protocol plugin (src/protos/redis/redis.go): the streaming parser of
    the Redis protocol, the correlation of requests and responses into
    transactions, and their publication. *)
From S2P Require Export Protos.

(** * Data *)

Record RedisMessage := {
  m_Ts : Z;
  m_NumberOfBulks : Z;
  m_Bulks : list bytes;
  m_TcpTuple : option TcpTuple;          (* None: the zero tuple *)
  m_CmdlineTuple : option CmdlineTuple;  (* None: nil *)
  m_Direction : Z;
  m_IsRequest : bool;
  m_IsError : bool;
  m_Message : bytes;
  m_Method : bytes;
  m_Path : bytes;
  m_Size : Z
}.
#[export] Instance eta_RedisMessage : Settable RedisMessage := fun r =>
  {| m_Ts := m_Ts r; m_NumberOfBulks := m_NumberOfBulks r; m_Bulks := m_Bulks r;
     m_TcpTuple := m_TcpTuple r; m_CmdlineTuple := m_CmdlineTuple r;
     m_Direction := m_Direction r; m_IsRequest := m_IsRequest r; m_IsError := m_IsError r;
     m_Message := m_Message r; m_Method := m_Method r; m_Path := m_Path r; m_Size := m_Size r |}.

(** [&RedisMessage{Ts: ts}]. *)
Definition newMessage (ts : Z) : RedisMessage :=
  {| m_Ts := ts; m_NumberOfBulks := 0; m_Bulks := []; m_TcpTuple := None;
     m_CmdlineTuple := None; m_Direction := 0; m_IsRequest := false; m_IsError := false;
     m_Message := []; m_Method := []; m_Path := []; m_Size := 0 |}.

(** The stream's message is never nil: [Parse] and [PrepareForNewMessage] are the
    only writers and both store a fresh message. *)
Record RedisStream := {
  s_tcptuple : TcpTuple;
  s_data : slice;
  s_parseOffset : Z;
  s_bytesReceived : Z;
  s_message : RedisMessage
}.
#[export] Instance eta_RedisStream : Settable RedisStream := fun r =>
  {| s_tcptuple := s_tcptuple r; s_data := s_data r; s_parseOffset := s_parseOffset r;
     s_bytesReceived := s_bytesReceived r; s_message := s_message r |}.

Record RedisTransaction := {
  t_Type : bytes;
  t_tuple : TcpTuple;
  t_Src : Endpoint;
  t_Dst : Endpoint;
  t_ResponseTime : Z;
  t_Ts : Z;
  t_JsTs : Z;
  t_ts : Z;
  t_cmdline : option CmdlineTuple;
  t_Method : bytes;
  t_Path : bytes;
  t_Query : bytes;
  t_IsError : bool;
  t_BytesOut : Z;
  t_BytesIn : Z;
  t_Redis : option MapStr;               (* None: nil map *)
  t_Request_raw : bytes;
  t_Response_raw : bytes;
  t_timer : bool                         (* a running timer that will expire the transaction *)
}.
#[export] Instance eta_RedisTransaction : Settable RedisTransaction := fun r =>
  {| t_Type := t_Type r; t_tuple := t_tuple r; t_Src := t_Src r; t_Dst := t_Dst r;
     t_ResponseTime := t_ResponseTime r; t_Ts := t_Ts r; t_JsTs := t_JsTs r; t_ts := t_ts r;
     t_cmdline := t_cmdline r; t_Method := t_Method r; t_Path := t_Path r; t_Query := t_Query r;
     t_IsError := t_IsError r; t_BytesOut := t_BytesOut r; t_BytesIn := t_BytesIn r;
     t_Redis := t_Redis r; t_Request_raw := t_Request_raw r; t_Response_raw := t_Response_raw r;
     t_timer := t_timer r |}.

Definition noEndpoint : Endpoint := mkEndpoint [] 0 [].

(** [&RedisTransaction{Type: "redis", tuple: tuple}]. *)
Definition newTransaction (tuple : TcpTuple) : RedisTransaction :=
  {| t_Type := bs "redis"; t_tuple := tuple; t_Src := noEndpoint; t_Dst := noEndpoint;
     t_ResponseTime := 0; t_Ts := 0; t_JsTs := 0; t_ts := 0; t_cmdline := None;
     t_Method := []; t_Path := []; t_Query := []; t_IsError := false; t_BytesOut := 0;
     t_BytesIn := 0; t_Redis := None; t_Request_raw := []; t_Response_raw := [];
     t_timer := false |}.

Definition RedisCommands : list bytes := bs <$> [
  "APPEND"; "AUTH"; "BGREWRITEAOF"; "BGSAVE"; "BITCOUNT"; "BITOP"; "BITPOS"; "BLPOP";
  "BRPOP"; "BRPOPLPUSH"; "CLIENT GETNAME"; "CLIENT KILL"; "CLIENT LIST"; "CLIENT PAUSE";
  "CLIENT SETNAME"; "CONFIG GET"; "CONFIG RESETSTAT"; "CONFIG REWRITE"; "CONFIG SET";
  "DBSIZE"; "DEBUG OBJECT"; "DEBUG SEGFAULT"; "DECR"; "DECRBY"; "DEL"; "DISCARD";
  "DUMP"; "ECHO"; "EVAL"; "EVALSHA"; "EXEC"; "EXISTS"; "EXPIRE"; "EXPIREAT"; "FLUSHALL";
  "FLUSHDB"; "GET"; "GETBIT"; "GETRANGE"; "GETSET"; "HDEL"; "HEXISTS"; "HGET";
  "HGETALL"; "HINCRBY"; "HINCRBYFLOAT"; "HKEYS"; "HLEN"; "HMGET"; "HMSET"; "HSCAN";
  "HSET"; "HSETINX"; "HVALS"; "INCR"; "INCRBY"; "INCRBYFLOAT"; "INFO"; "KEYS";
  "LASTSAVE"; "LINDEX"; "LINSERT"; "LLEN"; "LPOP"; "LPUSH"; "LPUSHX"; "LRANGE"; "LREM";
  "LSET"; "LTRIM"; "MGET"; "MIGRATE"; "MONITOR"; "MOVE"; "MSET"; "MSETNX"; "MULTI";
  "OBJECT"; "PERSIST"; "PEXPIRE"; "PEXPIREAT"; "PFADD"; "PFCOUNT"; "PFMERGE"; "PING";
  "PSETEX"; "PSUBSCRIBE"; "PTTL"; "PUBLISH"; "PUBSUB"; "PUNSUBSCRIBE"; "QUIT";
  "RANDOMKEY"; "RENAME"; "RENAMENX"; "RESTORE"; "RPOP"; "RPOPLPUSH"; "RPUSH"; "RPUSHX";
  "SADD"; "SAVE"; "SCAN"; "SCARD"; "SCRIPT EXISTS"; "SCRIPT FLUSH"; "SCRIPT KILL";
  "SCRIPT LOAD"; "SDIFF"; "SDIFFSTORE"; "SELECT"; "SET"; "SETBIT"; "SETEX"; "SETNX";
  "SETRANGE"; "SHUTDOWN"; "SINTER"; "SINTERSTORE"; "SISMEMBER"; "SLAVEOF"; "SLOWLOG";
  "SMEMBERS"; "SMOVE"; "SORT"; "SPOP"; "SRANDMEMBER"; "SREM"; "SSCAN"; "STRLEN";
  "SUBSCRIBE"; "SUNION"; "SUNIONSTORE"; "SYNC"; "TIME"; "TTL"; "TYPE"; "UNSUBSCRIBE";
  "UNWATCH"; "WATCH"; "ZADD"; "ZCARD"; "ZCOUNT"; "ZINCRBY"; "ZINTERSTORE"; "ZRANGE";
  "ZRANGEBYSCORE"; "ZRANK"; "ZREM"; "ZREMRANGEBYLEX"; "ZREMRANGEBYRANK";
  "ZREMRANGEBYSCORE"; "ZREVRANGE"; "ZREVRANGEBYSCORE"; "ZREVRANK"; "ZSCAN"; "ZSCORE";
  "ZUNIONSTORE"
]%string.

(** The plugin; [results] is what has been sent on the channel, [None] for a nil
    channel. *)
Record Redis := {
  Ports : list Z;
  Send_request : bool;
  Send_response : bool;
  transactionsMap : gmap bytes RedisTransaction;
  results : option (list MapStr)
}.
#[export] Instance eta_Redis : Settable Redis := fun r =>
  {| Ports := Ports r; Send_request := Send_request r; Send_response := Send_response r;
     transactionsMap := transactionsMap r; results := results r |}.

(** [config.Redis]: a nil pointer is an option not set. *)
Record ConfigRedis := {
  cfg_Ports : list Z;
  cfg_Send_request : option bool;
  cfg_Send_response : option bool
}.

Definition InitDefaults (redis : Redis) : Redis :=
  redis <| Send_request := false |> <| Send_response := false |>.

Definition setFromConfig (redis : Redis) (config : ConfigRedis) : Redis :=
  let redis := redis <| Ports := cfg_Ports config |> in
  let redis := match cfg_Send_request config with
               | Some b => redis <| Send_request := b |> | None => redis end in
  match cfg_Send_response config with
  | Some b => redis <| Send_response := b |> | None => redis end.

Definition Init (redis : Redis) (test_mode : bool) (config : ConfigRedis)
    (chan : option (list MapStr)) : Redis :=
  let redis := InitDefaults redis in
  let redis := if test_mode then redis else setFromConfig redis config in
  redis <| transactionsMap := ∅ |> <| results := chan |>.

(** [redisPrivateData]. *)
Definition redisPrivateData : Type := pair2 RedisStream.

(** * The parser *)

Definition PrepareForNewMessage (stream : RedisStream) : outcome RedisStream :=
  let! rest := sl_from (s_data stream) (s_parseOffset stream) in
  Ret (stream <| s_data := rest |>
              <| s_parseOffset := 0 |>
              <| s_message := newMessage (m_Ts (s_message stream)) <| m_Bulks := [] |> |>).

Definition CRLF : bytes := [x0d; x0a].

(** [(found, line, off)]: the line at [offset] without its CRLF. *)
Definition readLine (data : slice) (offset : Z) : outcome (bool * bytes * Z) :=
  let! rest := sl_from data offset in
  let q := Index (vis rest) CRLF in
  if decide (q = -1) then Ret (false, [], 0)
  else
    let! line := sl_slice data offset (offset + q) in
    Ret (true, vis line, offset + q + 2).

(** What one turn of the parser's loop reads at [parseOffset]: the function
    returns ([true, false] or [false, false]), the loop continues, or there is a
    value to add to the message. *)
Inductive reading :=
| RWait (s : RedisStream)
| RFail (s : RedisStream)
| RContinue (s : RedisStream)
| RValue (s : RedisStream) (value : bytes) (iserror : bool).

(** [len(line) == 3 && line[1] == '-' && line[2] == '1']. *)
Definition is_null_line (line : bytes) : outcome bool :=
  if decide (len line = 3) then
    let! a := at_ line 1 in
    let! b := at_ line 2 in
    Ret (Byte.eqb a "-" && Byte.eqb b "1")
  else Ret false.

Definition read_multi_bulk (s : RedisStream) (iserror : bool) : outcome reading :=
  let! '(found, line, off) := readLine (s_data s) (s_parseOffset s) in
  if negb found then Ret (RWait s)
  else
    let! null := is_null_line line in
    if null : bool then Ret (RValue (s <| s_parseOffset := off |>) (bs "nil") iserror)
    else
      let! num := str_from line 1 in
      let '(n, err) := ParseInt num 10 64 in
      let s := s <| s_message := s_message s <| m_NumberOfBulks := n |> |> in
      match err with
      | Some _ => Ret (RFail s)
      | None => Ret (RContinue (s <| s_parseOffset := off |>
                                  <| s_message := s_message s <| m_Bulks := [] |> |>))
      end.

Definition read_bulk (s : RedisStream) (iserror : bool) : outcome reading :=
  let old_offset := s_parseOffset s in
  let! '(found, line, off) := readLine (s_data s) (s_parseOffset s) in
  if negb found then Ret (RWait (s <| s_parseOffset := old_offset |>))
  else
    let! null := is_null_line line in
    if null : bool then Ret (RValue (s <| s_parseOffset := off |>) (bs "nil") iserror)
    else
      let! num := str_from line 1 in
      match ParseInt num 10 64 with
      | (_, Some _) => Ret (RFail s)
      | (length, None) =>
          let s := s <| s_parseOffset := off |> in
          let! '(found, line, off) := readLine (s_data s) (s_parseOffset s) in
          if negb found then Ret (RWait (s <| s_parseOffset := old_offset |>))
          else if decide (len line <> length) then Ret (RFail s)
          else Ret (RValue (s <| s_parseOffset := off |>) line iserror)
      end.

Definition read_integer (s : RedisStream) (iserror : bool) : outcome reading :=
  let! '(found, line, off) := readLine (s_data s) (s_parseOffset s) in
  if negb found then Ret (RWait s)
  else
    let! num := str_from line 1 in
    match ParseInt num 10 64 with
    | (_, Some _) => Ret (RFail s)
    | (n, None) => Ret (RValue (s <| s_parseOffset := off |>) (Itoa n) iserror)
    end.

(** The status and the error reply, which differ in [iserror]. *)
Definition read_status (s : RedisStream) (iserror : bool) : outcome reading :=
  let! '(found, line, off) := readLine (s_data s) (s_parseOffset s) in
  if negb found then Ret (RWait s)
  else
    let! value := str_from line 1 in
    Ret (RValue (s <| s_parseOffset := off |>) value iserror).

Definition redis_read (s : RedisStream) (iserror : bool) : outcome reading :=
  let! c := at_ (vis (s_data s)) (s_parseOffset s) in
  if Byte.eqb c "*" then read_multi_bulk s iserror
  else if Byte.eqb c "$" then read_bulk s iserror
  else if Byte.eqb c ":" then read_integer s iserror
  else if Byte.eqb c "+" then read_status s iserror
  else if Byte.eqb c "-" then read_status s true
  else Ret (RFail s).

Section Parser.
Context {UC : Unicode}.

Definition isRedisCommand (key : bytes) : bool :=
  bool_decide (ToUpper key ∈ RedisCommands).

(** A bulk received: the first word may be a command, the second is its path. *)
Definition add_bulk (m : RedisMessage) (value : bytes) : RedisMessage :=
  let m := m <| m_NumberOfBulks := m_NumberOfBulks m - 1 |>
             <| m_Bulks := m_Bulks m ++ [value] |> in
  let m := if decide (len (m_Bulks m) = 1) then
             if isRedisCommand value
             then m <| m_IsRequest := true |> <| m_Method := value |> else m
           else m in
  if decide (len (m_Bulks m) = 2) then
    if m_IsRequest m then m <| m_Path := value |> else m
  else m.

(** The "add value" half of a turn; [true] when the message is complete. *)
Definition add_value (s : RedisStream) (value : bytes) (iserror : bool) : RedisStream * bool :=
  let m := s_message s in
  if decide (m_NumberOfBulks m > 0) then
    let m := add_bulk m value in
    if decide (m_NumberOfBulks m = 0) then
      (* the last bulk received *)
      (s <| s_message := m <| m_Message := Join (m_Bulks m) (bs " ") |>
                           <| m_Size := s_parseOffset s |> |>, true)
    else (s <| s_message := m |>, false)
  else
    let m := m <| m_Message := value |> <| m_Size := s_parseOffset s |> in
    let m := if iserror : bool then m <| m_IsError := true |> else m in
    (s <| s_message := m |>, true).

(** One turn of [for s.parseOffset < len(s.data)]; the function's results are
    [(ok, complete)], and the loop carries the local [iserror]. *)
Definition parser_step (st : RedisStream * bool)
    : outcome (RedisStream * bool + RedisStream * bool * (bool * bool)) :=
  let '(s, iserror) := st in
  if decide (s_parseOffset s < len (vis (s_data s))) then
    let! r := redis_read s iserror in
    match r with
    | RWait s => Ret (inr (s, iserror, (true, false)))
    | RFail s => Ret (inr (s, iserror, (false, false)))
    | RContinue s => Ret (inl (s, iserror))
    | RValue s value iserror =>
        let '(s, complete) := add_value s value iserror in
        if complete then Ret (inr (s, iserror, (true, true)))
        else Ret (inl (s, iserror))
    end
  else Ret (inr (s, iserror, (true, false))).

Definition parser_fuel (s : RedisStream) : nat :=
  S (Z.to_nat (len (vis (s_data s)) - s_parseOffset s)).

Definition redisMessageParser (s : RedisStream) : outcome (RedisStream * (bool * bool)) :=
  let! '(s, _, res) := loop parser_step (parser_fuel s) (s, false) in
  Ret (s, res).

(** * Transactions *)

Definition publishTransaction (redis : Redis) (t : RedisTransaction) : Redis :=
  match results redis with
  | None => redis
  | Some sent =>
      let event : MapStr := ∅ in
      let event := <[bs "type" := MStr (bs "redis")]> event in
      let event := <[bs "status" := MStr (if negb (t_IsError t) then OK_STATUS else ERROR_STATUS)]> event in
      let event := <[bs "responsetime" := MInt (t_ResponseTime t)]> event in
      let event := if Send_request redis
                   then <[bs "request" := MStr (t_Request_raw t)]> event else event in
      let event := if Send_response redis
                   then <[bs "response" := MStr (t_Response_raw t)]> event else event in
      let event := <[bs "redis" := MMap (default ∅ (t_Redis t))]> event in
      let event := <[bs "method" := MStr (ToUpper (t_Method t))]> event in
      let event := <[bs "resource" := MStr (t_Path t)]> event in
      let event := <[bs "query" := MStr (t_Query t)]> event in
      let event := <[bs "bytes_in" := MInt (uint64_of (t_BytesIn t))]> event in
      let event := <[bs "bytes_out" := MInt (uint64_of (t_BytesOut t))]> event in
      let event := <[bs "timestamp" := MTime (t_ts t)]> event in
      let event := <[bs "src" := MEndpoint (t_Src t)]> event in
      let event := <[bs "dst" := MEndpoint (t_Dst t)]> event in
      redis <| results := Some (sent ++ [event]) |>
  end.

(** [m.TcpTuple] and [m.CmdlineTuple] are set by [handleRedis] before the message
    reaches the two handlers, which take them as arguments here. *)
Definition receivedRedisRequest (redis : Redis) (msg : RedisMessage)
    (tuple : TcpTuple) (cmdline : CmdlineTuple) : Redis :=
  let trans := match transactionsMap redis !! TcpHashable tuple with
               | Some trans => trans
               | None => newTransaction tuple
               end in
  let '(src, dst) := endpoints tuple cmdline (m_Direction msg) in
  let trans := trans <| t_Redis := Some ∅ |>
                     <| t_Method := m_Method msg |>
                     <| t_Path := m_Path msg |>
                     <| t_Query := m_Message msg |>
                     <| t_Request_raw := m_Message msg |>
                     <| t_BytesIn := m_Size msg |>
                     <| t_cmdline := Some cmdline |>
                     <| t_ts := m_Ts msg |>
                     <| t_Ts := micros (m_Ts msg) |>
                     <| t_JsTs := m_Ts msg |>
                     <| t_Src := src |>
                     <| t_Dst := dst |>
                     <| t_timer := true |> in
  redis <| transactionsMap := <[TcpHashable tuple := trans]> (transactionsMap redis) |>.

(** The timer's function. *)
Definition expireTransaction (redis : Redis) (trans : RedisTransaction) : Redis :=
  redis <| transactionsMap := delete (TcpHashable (t_tuple trans)) (transactionsMap redis) |>.

Definition receivedRedisResponse (redis : Redis) (msg : RedisMessage) (tuple : TcpTuple) : Redis :=
  match transactionsMap redis !! TcpHashable tuple with
  | None => redis
  | Some trans =>
      match t_Redis trans with
      | None => redis
      | Some m =>
          let key := if m_IsError msg then bs "error" else bs "return_value" in
          let trans := trans <| t_IsError := m_IsError msg |>
                             <| t_Redis := Some (<[key := MStr (m_Message msg)]> m) |>
                             <| t_BytesOut := m_Size msg |>
                             <| t_Response_raw := m_Message msg |>
                             <| t_ResponseTime := millis32 (time_Sub (m_Ts msg) (t_ts trans)) |> in
          let redis := publishTransaction redis trans in
          redis <| transactionsMap := delete (TcpHashable (t_tuple trans)) (transactionsMap redis) |>
      end
  end.

Section Procs.
Context {W : Type} {PW : ProcWatcher W}.

Definition handleRedis (st : Redis * W) (m : RedisMessage) (tcptuple : TcpTuple) (dir : Z)
    : Redis * W :=
  let '(redis, w) := st in
  let '(cmdline, w) := FindProcessesTuple (IpPort tcptuple) w in
  let m := m <| m_TcpTuple := Some tcptuple |>
             <| m_Direction := dir |>
             <| m_CmdlineTuple := Some cmdline |> in
  if m_IsRequest m then (receivedRedisRequest redis m tcptuple cmdline, w)
  else (receivedRedisResponse redis m tcptuple, w).

(** * The stream handler *)

(** How the message loop of [Parse] ends: with the stream kept, with the stream
    dropped ([priv.Data[dir] = nil]), or in a panic, after which the recovered
    [Parse] returns nil. *)
Inductive parse_end := Keep (s : RedisStream) | Drop | Recovered.

Definition parse_step (tcptuple : TcpTuple) (dir : Z) (x : RedisStream * (Redis * W))
    : outcome (RedisStream * (Redis * W) + parse_end * (Redis * W)) :=
  let '(stream, st) := x in
  if decide (len (vis (s_data stream)) > 0) then
    match redisMessageParser stream with
    | OutOfFuel => OutOfFuel
    | Panic => Ret (inr (Recovered, st))
    | Ret (stream, (ok, complete)) =>
        if negb ok then Ret (inr (Drop, st))
        else if complete : bool then
          let st := handleRedis st (s_message stream) tcptuple dir in
          match PrepareForNewMessage stream with
          | OutOfFuel => OutOfFuel
          | Panic => Ret (inr (Recovered, st))
          | Ret stream => Ret (inl (stream, st))
          end
        else Ret (inr (Keep stream, st))
    end
  else Ret (inr (Keep stream, st)).

Definition parse_loop (tcptuple : TcpTuple) (dir : Z) (stream : RedisStream) (st : Redis * W)
    : outcome (parse_end * (Redis * W)) :=
  loop (parse_step tcptuple dir) (S (length (vis (s_data stream)))) (stream, st).

(** The stream with the packet's bytes: a new one, or the old one with the payload
    appended. *)
Definition received {RT : Runtime} (pkt : Packet) (tcptuple : TcpTuple) (old : option RedisStream)
    : RedisStream :=
  match old with
  | None => {| s_tcptuple := tcptuple; s_data := pk_Payload pkt; s_parseOffset := 0;
               s_bytesReceived := 0; s_message := newMessage (pk_Ts pkt) |}
  | Some stream => stream <| s_data := append (s_data stream) (vis (pk_Payload pkt)) |>
  end.

(** The size check applies to an existing stream only. *)
Definition too_large (old : option RedisStream) (stream : RedisStream) : bool :=
  match old with
  | None => false
  | Some _ => bool_decide (len (vis (s_data stream)) > TCP_MAX_DATA_IN_STREAM)
  end.

(** [private] is [None] for nil and for another protocol's data. *)
Definition Parse {RT : Runtime} (pkt : Packet) (tcptuple : TcpTuple) (dir : Z)
    (private : option redisPrivateData) (st : Redis * W)
    : outcome (option redisPrivateData * (Redis * W)) :=
  let priv := default nil2 private in
  match get2 priv dir with
  | Ret old =>
      let stream := received pkt tcptuple old in
      if too_large old stream then Ret (Some (set2 priv dir None), st)
      else
        let! '(e, st) := parse_loop tcptuple dir stream st in
        Ret (match e with
             | Keep s => Some (set2 priv dir (Some s))
             | Drop => Some (set2 priv dir None)
             | Recovered => None
             end, st)
  | Panic => Ret (None, st)
  | OutOfFuel => OutOfFuel
  end.

Definition GapInStream (tcptuple : TcpTuple) (dir : Z) (private : option redisPrivateData)
    : option redisPrivateData := private.
Definition ReceivedFin (tcptuple : TcpTuple) (dir : Z) (private : option redisPrivateData)
    : option redisPrivateData := private.

End Procs.
End Parser.

(** * The parser's lemmas *)

Definition stream_ok (s : RedisStream) : Prop :=
  0 <= s_parseOffset s <= len (vis (s_data s)).

(** [s'] is [s] with [p] more bytes received (and any capacity). *)
Definition extends (p : bytes) (s s' : RedisStream) : Prop :=
  exists d, s' = s <| s_data := d |> /\ vis d = vis (s_data s) ++ p.

Lemma readLine_cases data off :
  0 <= off <= len (vis data) ->
  readLine data off = Ret (false, [], 0) \/
  exists off', readLine data off = Ret (true, sub (vis data) off (off' - 2), off') /\
    off + 2 <= off' <= len (vis data) /\
    Index (drop (Z.to_nat off) (vis data)) CRLF = off' - 2 - off.
Proof.
  intros H. unfold readLine, sl_from. rewrite decide_True by lia. cbn [obind vis].
  set (q := Index _ _). pose proof (Index_range (drop (Z.to_nat off) (vis data)) CRLF) as Hr.
  fold q in Hr. rewrite len_drop in Hr by lia. change (len CRLF) with 2 in Hr.
  case_decide as Hq; [by left|]. right. exists (off + q + 2).
  destruct (sl_slice_vis data off (off + q)) as (t & -> & Ht); [lia..|].
  cbn [obind]. rewrite Ht. replace (off + q + 2 - 2) with (off + q) by lia.
  split; [done|lia].
Qed.

Lemma readLine_ext data data' p off l o :
  vis data' = vis data ++ p -> 0 <= off <= len (vis data) ->
  readLine data off = Ret (true, l, o) -> readLine data' off = Ret (true, l, o).
Proof.
  intros Hd Ho H. destruct (readLine_cases data off Ho) as [E|(o' & E & Hr & Hi)];
    rewrite E in H; [discriminate|]. injection H as <- <-.
  unfold readLine, sl_from.
  rewrite decide_True by (rewrite Hd; len_lia). cbn [obind vis].
  assert (Index (drop (Z.to_nat off) (vis data')) CRLF = o' - 2 - off) as ->.
  { rewrite Hd, drop_app_le by (unfold len in *; lia). rewrite Index_app; [done|]. lia. }
  rewrite decide_False by lia.
  destruct (sl_slice_vis data' off (off + (o' - 2 - off))) as (t & -> & Ht);
    [lia|rewrite Hd; len_lia|].
  cbn [obind]. rewrite Ht, Hd, sub_app by lia.
  by replace (off + (o' - 2 - off)) with (o' - 2) by lia;
    replace (o' - 2 + 2) with o' by lia.
Qed.

(** A line that starts with a byte other than CR is not empty. *)
Lemma readLine_nonempty data off c l o :
  at_ (vis data) off = Ret c -> c <> x0d ->
  readLine data off = Ret (true, l, o) -> 1 <= len l /\ off + 2 < o.
Proof.
  intros Hc Hne H. pose proof (at_Ret _ _ _ Hc) as Hr.
  destruct (readLine_cases data off) as [E|(o' & E & Hr' & Hi)]; [lia|..];
    rewrite E in H; [discriminate|]. injection H as <- <-.
  destruct (drop_cons_at _ _ _ Hc) as [t Ht]. rewrite Ht in Hi.
  pose proof (Index_pos c t x0d [x0a] Hne ltac:(unfold CRLF in Hi; lia)).
  unfold CRLF in Hi. rewrite len_sub; lia.
Qed.

Lemma str_from_1 l : 1 <= len l -> str_from l 1 = Ret (sub l 1 (len l)).
Proof. intros H. unfold str_from, str_slice. rewrite decide_True by lia. done. Qed.

Lemma is_null_line_total l : exists b, is_null_line l = Ret b.
Proof.
  unfold is_null_line. case_decide; [|eauto].
  destruct (at_ok l 1) as (? & -> & _); [lia|]. destruct (at_ok l 2) as (? & -> & _); [lia|].
  eexists. reflexivity.
Qed.

(** What a turn does to the stream: it waits with the stream as it was, it fails, or
    it moves the offset forward in the same data. *)
Definition advanced (s s' : RedisStream) : Prop :=
  s_data s' = s_data s /\ s_parseOffset s + 2 <= s_parseOffset s' <= len (vis (s_data s)).

Definition reading_ok (s : RedisStream) (r : reading) : Prop :=
  match r with
  | RWait s' => s' = s
  | RFail _ => True
  | RContinue s' | RValue s' _ _ => advanced s s'
  end.

(** A reader [f], on a stream whose next byte is not CR, returns. *)
Definition reader_total (f : RedisStream -> bool -> outcome reading) : Prop :=
  forall s e c, stream_ok s -> at_ (vis (s_data s)) (s_parseOffset s) = Ret c -> c <> x0d ->
  exists r, f s e = Ret r /\ reading_ok s r.

(** What it gives, waiting apart, does not change when more bytes follow. *)
Definition reader_ext (f : RedisStream -> bool -> outcome reading) : Prop :=
  forall s e p s' r, stream_ok s -> extends p s s' -> f s e = Ret r ->
  match r with
  | RWait _ => p = [] -> exists t', f s' e = Ret (RWait t')
  | RFail t => exists t', f s' e = Ret (RFail t') /\ extends p t t'
  | RContinue t => exists t', f s' e = Ret (RContinue t') /\ extends p t t'
  | RValue t v e' => exists t', f s' e = Ret (RValue t' v e') /\ extends p t t'
  end.

Lemma set_offset_id s : s <| s_parseOffset := s_parseOffset s |> = s.
Proof. by destruct s. Qed.

Lemma extends_ok p s s' : extends p s s' -> stream_ok s -> stream_ok s'.
Proof.
  intros (d & -> & Hd) [H1 H2]. unfold stream_ok. cbn. rewrite Hd, len_app.
  pose proof (len_nonneg p). lia.
Qed.

Lemma readLine_vis data data' off :
  0 <= off <= len (vis data) -> vis data' = vis data -> readLine data' off = readLine data off.
Proof.
  intros Ho Hd. destruct (readLine_cases data off Ho) as [E|(o & E & _)]; rewrite E.
  - unfold readLine, sl_from in *. rewrite Hd. rewrite decide_True in * by lia.
    cbn [obind vis] in *. case_decide; [done|].
    destruct (sl_slice_vis data off (off + Index (drop (Z.to_nat off) (vis data)) CRLF)) as (t & Et & _).
    + lia || (pose proof (Index_range (drop (Z.to_nat off) (vis data)) CRLF); lia).
    + pose proof (Index_range (drop (Z.to_nat off) (vis data)) CRLF) as Hr.
      rewrite len_drop in Hr by lia. change (len CRLF) with 2 in Hr. lia.
    + rewrite Et in E. discriminate.
  - apply readLine_ext with (data := data) (p := []); [by rewrite app_nil_r|done..].
Qed.

(** Step through a reader: the line at the offset, then its first byte removed. *)
Ltac line_total Hok Hc Hne :=
  match goal with
  | |- context [readLine (s_data ?s) (s_parseOffset ?s)] =>
      let o := fresh "o" in let E := fresh "E" in let Hr := fresh "Hr" in
      let Hl := fresh "Hl" in
      destruct (readLine_cases (s_data s) (s_parseOffset s) Hok) as [E|(o & E & Hr & _)];
      [|pose proof (readLine_nonempty _ _ _ _ _ Hc Hne E) as [Hl ?]]; rewrite E; cbn [obind negb]
  end.

Lemma read_status_total : reader_total read_status.
Proof.
  intros s e c Hok Hc Hne. unfold read_status. line_total Hok Hc Hne; [by eexists|].
  rewrite str_from_1 by done. eexists. split; [done|]. split; [done|]. cbn. lia.
Qed.

Lemma read_integer_total : reader_total read_integer.
Proof.
  intros s e c Hok Hc Hne. unfold read_integer. line_total Hok Hc Hne; [by eexists|].
  rewrite str_from_1 by done. cbn [obind].
  destruct (ParseInt _ _ _) as [n [err|]]; eexists; (split; [done|]); [done|].
  split; [done|]. cbn. lia.
Qed.

Lemma read_multi_bulk_total : reader_total read_multi_bulk.
Proof.
  intros s e c Hok Hc Hne. unfold read_multi_bulk. line_total Hok Hc Hne; [by eexists|].
  destruct (is_null_line_total (sub (vis (s_data s)) (s_parseOffset s) (o - 2))) as [[] ->];
    cbn [obind].
  - eexists; split; [done|]. split; [done|]. cbn. lia.
  - rewrite str_from_1 by done. cbn [obind].
    destruct (ParseInt _ _ _) as [n [err|]]; eexists; (split; [done|]); [done|].
    split; [done|]. cbn. lia.
Qed.

Lemma read_bulk_total : reader_total read_bulk.
Proof.
  intros s e c Hok Hc Hne. unfold read_bulk. line_total Hok Hc Hne.
  - rewrite set_offset_id. by eexists.
  - destruct (is_null_line_total (sub (vis (s_data s)) (s_parseOffset s) (o - 2))) as [[] ->];
      cbn [obind].
    + eexists; split; [done|]. split; [done|]. cbn. lia.
    + rewrite str_from_1 by done. cbn [obind].
      destruct (ParseInt _ _ _) as [n [err|]]; [by eexists|].
      cbv zeta. set (s1 := s <| s_parseOffset := o |>).
      destruct (readLine_cases (s_data s1) (s_parseOffset s1)) as [E1|(o1 & E1 & Hr1 & _)];
        [cbn; destruct Hok; lia| |]; rewrite E1; cbn [obind negb].
      * eexists. split; [done|]. cbn. by destruct s.
      * case_decide; [by eexists|]. eexists. split; [done|]. split; [done|]. cbn in *. lia.
Qed.

(** The line at an offset, before and after more bytes arrived. *)
Lemma readLine_grow data d p off :
  0 <= off <= len (vis data) -> vis d = vis data ++ p ->
  (readLine data off = Ret (false, [], 0) /\ (p = [] -> readLine d off = Ret (false, [], 0))) \/
  exists l o, readLine data off = Ret (true, l, o) /\ readLine d off = Ret (true, l, o) /\
    off + 2 <= o <= len (vis data).
Proof.
  intros Ho Hd. destruct (readLine_cases data off Ho) as [E|(o & E & Hr & _)].
  - left. split; [done|]. intros ->. rewrite app_nil_r in Hd.
    by rewrite (readLine_vis data d off Ho Hd).
  - right. eexists _, o. split; [done|]. split; [|done].
    by apply (readLine_ext data d p).
Qed.

(** Run a reader of hypothesis [H] and of the goal over the same line. *)
Ltac grow_line s d Hok Hd H :=
  change (s_data (s <| s_data := d |>)) with d;
  change (s_parseOffset (s <| s_data := d |>)) with (s_parseOffset s);
  let E := fresh "E" in let E' := fresh "E'" in
  destruct (readLine_grow (s_data s) d _ (s_parseOffset s) Hok Hd) as [[E E']|(?l & ?o & E & E' & ?Hr)];
  rewrite E in H; cbn [obind negb] in H;
  [injection H as <-; intros Hp; rewrite (E' Hp); by eexists|];
  rewrite E'; cbn [obind negb].

Lemma read_status_ext : reader_ext read_status.
Proof.
  intros s e p s' r Hok (d & -> & Hd) H. unfold read_status in *. grow_line s d Hok Hd H.
  destruct (str_from _ 1) as [v| |]; cbn [obind] in *; try discriminate.
  injection H as <-. eexists. split; [done|]. by exists d.
Qed.

Lemma read_integer_ext : reader_ext read_integer.
Proof.
  intros s e p s' r Hok (d & -> & Hd) H. unfold read_integer in *. grow_line s d Hok Hd H.
  destruct (str_from _ 1) as [v| |]; cbn [obind] in *; try discriminate.
  destruct (ParseInt _ _ _) as [n [err|]]; injection H as <-;
    (eexists; split; [done|]; by exists d).
Qed.

Lemma read_multi_bulk_ext : reader_ext read_multi_bulk.
Proof.
  intros s e p s' r Hok (d & -> & Hd) H. unfold read_multi_bulk in *. grow_line s d Hok Hd H.
  destruct (is_null_line _) as [[]| |]; cbn [obind] in *; try discriminate.
  { injection H as <-. eexists. split; [done|]. by exists d. }
  destruct (str_from _ 1) as [v| |]; cbn [obind] in *; try discriminate.
  destruct (ParseInt _ _ _) as [n [err|]]; injection H as <-;
    (eexists; split; [done|]; by exists d).
Qed.

Lemma read_bulk_ext : reader_ext read_bulk.
Proof.
  intros s e p s' r Hok (d & -> & Hd) H. unfold read_bulk in *. grow_line s d Hok Hd H.
  destruct (is_null_line _) as [[]| |]; cbn [obind] in *; try discriminate.
  { injection H as <-. eexists. split; [done|]. by exists d. }
  destruct (str_from _ 1) as [v| |]; cbn [obind] in *; try discriminate.
  destruct (ParseInt _ _ _) as [n [err|]].
  { injection H as <-. eexists. split; [done|]. by exists d. }
  cbv zeta in *. set (s1 := s <| s_parseOffset := o |>) in *.
  change (s <| s_data := d |> <| s_parseOffset := o |>) with (s1 <| s_data := d |>).
  assert (stream_ok s1) as Hok1 by (subst s1; unfold stream_ok in *; cbn; lia).
  grow_line s1 d Hok1 Hd H.
  case_decide; injection H as <-; (eexists; split; [done|]; by exists d).
Qed.


Lemma redis_read_total s e :
  stream_ok s -> s_parseOffset s < len (vis (s_data s)) ->
  exists r, redis_read s e = Ret r /\ reading_ok s r.
Proof.
  intros Hok Hlt. unfold redis_read.
  destruct (at_ok (vis (s_data s)) (s_parseOffset s)) as (c & Hc & _);
    [unfold stream_ok in Hok; lia|]. rewrite Hc. cbn [obind].
  destruct (Byte.eqb c "*") eqn:E1;
    [apply beqb_eq in E1 as ->; by eapply read_multi_bulk_total|].
  destruct (Byte.eqb c "$") eqn:E2; [apply beqb_eq in E2 as ->; by eapply read_bulk_total|].
  destruct (Byte.eqb c ":") eqn:E3; [apply beqb_eq in E3 as ->; by eapply read_integer_total|].
  destruct (Byte.eqb c "+") eqn:E4; [apply beqb_eq in E4 as ->; by eapply read_status_total|].
  destruct (Byte.eqb c "-") eqn:E5; [apply beqb_eq in E5 as ->; by eapply read_status_total|].
  by eexists.
Qed.

Lemma redis_read_ext : reader_ext redis_read.
Proof.
  intros s e p s' r Hok Hext H. pose proof Hext as (d & -> & Hd). unfold redis_read in *.
  destruct (at_ (vis (s_data s)) (s_parseOffset s)) as [c| |] eqn:Hc; try discriminate.
  change (s_data (s <| s_data := d |>)) with d.
  change (s_parseOffset (s <| s_data := d |>)) with (s_parseOffset s).
  rewrite Hd, at_app, Hc by (by apply at_Ret with c). cbn [obind] in *.
  destruct (Byte.eqb c "*"); [by eapply read_multi_bulk_ext|].
  destruct (Byte.eqb c "$"); [by eapply read_bulk_ext|].
  destruct (Byte.eqb c ":"); [by eapply read_integer_ext|].
  destruct (Byte.eqb c "+"); [by eapply read_status_ext|].
  destruct (Byte.eqb c "-"); [by eapply read_status_ext|].
  injection H as <-. eexists. split; [done|]. by exists d.
Qed.

Section ParserLemmas.
Context {UC : Unicode}.

Lemma add_value_stream s v e :
  s_data (fst (add_value s v e)) = s_data s /\
  s_parseOffset (fst (add_value s v e)) = s_parseOffset s.
Proof. unfold add_value. cbv zeta. case_decide; [case_decide|]; done. Qed.

Lemma add_value_ext p s s' v e :
  extends p s s' ->
  extends p (fst (add_value s v e)) (fst (add_value s' v e)) /\
  snd (add_value s' v e) = snd (add_value s v e).
Proof.
  intros (d & -> & Hd). unfold add_value. cbv zeta.
  change (s_message (s <| s_data := d |>)) with (s_message s).
  change (s_parseOffset (s <| s_data := d |>)) with (s_parseOffset s).
  case_decide; [case_decide|]; (split; [by exists d|done]).
Qed.

(** A turn of the parser's loop: it returns, and a turn that goes on advances. *)
Lemma parser_step_total s e :
  stream_ok s -> exists o, parser_step (s, e) = Ret o /\
    match o with
    | inl (s', _) => advanced s s'
    | inr (s', _, (ok, complete)) =>
        (ok = true -> complete = false -> s' = s) /\
        (complete = true -> ok = true /\ advanced s s')
    end.
Proof.
  intros Hok. unfold parser_step. case_decide; [|by eexists].
  destruct (redis_read_total s e) as ([t|t|t|t v e'] & -> & Hr); [done|lia|..]; cbn [obind].
  - cbn in Hr. subst t. by eexists.
  - by eexists.
  - by eexists.
  - destruct (add_value_stream t v e') as [Hd Ho].
    destruct (add_value t v e') as [u b]. cbn in Hd, Ho.
    unfold reading_ok, advanced in *. rewrite <- Hd, <- Ho in Hr.
    destruct b; eexists; (split; [done|]); [split; [done|]; intros _; split; [done|]|]; exact Hr.
Qed.

Definition pre_ok (x : RedisStream * bool) : Prop := stream_ok (fst x).

Lemma advanced_ok s s' : stream_ok s -> advanced s s' -> stream_ok s'.
Proof. unfold stream_ok, advanced. intros ? [-> ?]. lia. Qed.

Lemma parser_step_inl x y :
  pre_ok x -> parser_step x = Ret (inl y) -> advanced (fst x) (fst y).
Proof.
  destruct x as [s e], y as [s' e']. intros Hok E.
  destruct (parser_step_total s e Hok) as (o & E' & Ho). rewrite E in E'.
  injection E' as <-. exact Ho.
Qed.

(** The loop of [redisMessageParser] ends within the fuel. *)
Lemma parser_loop_fuel s e n :
  stream_ok s -> (parser_fuel s <= n)%nat -> loop parser_step n (s, e) <> OutOfFuel.
Proof.
  intros Hok Hn.
  apply (loop_fuel _ pre_ok
    (fun x => Z.to_nat (len (vis (s_data (fst x))) - s_parseOffset (fst x)))).
  - intros [t f] Ht. destruct (parser_step_total t f Ht) as (o & -> & _). done.
  - intros x y Hx E. pose proof (parser_step_inl x y Hx E) as Ha.
    split; [by apply (advanced_ok (fst x))|].
    destruct Ha as [Hd Ho]. unfold pre_ok, stream_ok in Hx. rewrite Hd. lia.
  - done.
  - unfold parser_fuel in Hn. cbn. lia.
Qed.

Lemma parser_iter_ok k x y : pre_ok x -> iter parser_step k x = Some y -> pre_ok y.
Proof.
  apply iter_inv. intros u v Hu E. apply (advanced_ok (fst u)); [done|].
  by apply parser_step_inl.
Qed.

Lemma loop_not_panic s e n : stream_ok s -> loop parser_step n (s, e) <> Panic.
Proof.
  revert s e. induction n as [|n IH]; intros s e Hok; [done|]. rewrite loop_S.
  destruct (parser_step_total s e Hok) as ([[s' e']|?] & -> & Ho); [|done].
  apply IH. by apply (advanced_ok s).
Qed.

(** The parser always returns; a complete message moves the offset forward and an
    incomplete one leaves the data as it is. *)
Lemma redisMessageParser_total s :
  stream_ok s -> exists s' ok complete, redisMessageParser s = Ret (s', (ok, complete)) /\
    (complete = true -> ok = true) /\
    (ok = true -> s_data s' = s_data s /\
       s_parseOffset s <= s_parseOffset s' <= len (vis (s_data s))) /\
    (complete = true -> s_parseOffset s + 2 <= s_parseOffset s').
Proof.
  intros Hok. unfold redisMessageParser.
  pose proof (parser_loop_fuel s false _ Hok (le_n _)).
  pose proof (loop_not_panic s false (parser_fuel s) Hok).
  destruct (loop parser_step (parser_fuel s) (s, false)) as [[[s' e'] [ok c]]| |] eqn:E;
    [|done..]. cbn [obind]. exists s', ok, c. split; [done|].
  apply loop_Ret_iter in E as (k & [t f] & _ & Hi & Hs).
  assert (stream_ok t /\ s_data t = s_data s /\ s_parseOffset s <= s_parseOffset t) as (Ht & Hd & Ho).
  { refine (iter_inv parser_step (fun x => stream_ok (fst x) /\ s_data (fst x) = s_data s /\
      s_parseOffset s <= s_parseOffset (fst x)) k (s, false) (t, f) _ _ Hi);
      [|cbn; lia || (split; [done|split; [done|cbn; lia]])].
    intros u v (Hu & Hd & Ho) Hst. pose proof (parser_step_inl u v Hu Hst) as Ha.
    split; [by apply (advanced_ok (fst u))|]. destruct Ha as [Hd' Ho'].
    split; [congruence|lia]. }
  destruct (parser_step_total t f Ht) as (o & E & Hpost). rewrite Hs in E.
  injection E as <-. destruct Hpost as [Hw Hc]. unfold stream_ok in Ht.
  split; [tauto|]. split.
  - intros ->. destruct c.
    + destruct (Hc eq_refl) as (_ & Hd' & Ho'). split; [congruence|]. rewrite <- Hd. lia.
    + rewrite (Hw eq_refl eq_refl). split; [done|]. rewrite <- Hd. lia.
  - intros ->. destruct (Hc eq_refl) as (_ & Hd' & Ho'). lia.
Qed.

(** A turn on a stream that received more bytes. *)
Lemma parser_step_ext p s s' e o :
  stream_ok s -> extends p s s' -> parser_step (s, e) = Ret o ->
  match o with
  | inl (t, f) => exists t', parser_step (s', e) = Ret (inl (t', f)) /\ extends p t t'
  | inr (t, f, res) =>
      (res = (true, false) -> p = []) ->
      exists t', parser_step (s', e) = Ret (inr (t', f, res)) /\ extends p t t'
  end.
Proof.
  intros Hok Hext Hs. pose proof (extends_ok _ _ _ Hext Hok) as Hok'.
  pose proof Hext as (d & Es & Hd). unfold parser_step in *.
  destruct (decide (s_parseOffset s < len (vis (s_data s)))) as [Hlt|Hge].
  - rewrite decide_True by (subst s'; cbn; rewrite Hd; len_lia).
    destruct (redis_read_total s e Hok Hlt) as (r & Hr & Hro). rewrite Hr in Hs.
    pose proof (redis_read_ext s e p s' r Hok Hext Hr) as Hrx. cbn [obind] in Hs.
    destruct r as [t|t|t|t v e'].
    + injection Hs as <-. cbn in Hro. subst t. intros Hp.
      destruct (Hrx (Hp eq_refl)) as [t' Ht']. rewrite Ht'. cbn [obind].
      destruct (redis_read_total s' e Hok') as (r' & Hr' & Hro').
      { subst s'. cbn. rewrite Hd. len_lia. }
      rewrite Ht' in Hr'. injection Hr' as <-. cbn in Hro'. subst t'. by exists s'.
    + injection Hs as <-. intros _. destruct Hrx as (t' & -> & Ht). by exists t'.
    + injection Hs as <-. destruct Hrx as (t' & -> & Ht). by exists t'.
    + destruct Hrx as (t' & -> & Ht). cbn [obind].
      destruct (add_value_ext p t t' v e' Ht) as [Hx Hb].
      destruct (add_value t v e') as [u b], (add_value t' v e') as [u' b'].
      cbn in Hx, Hb. subst b'. destruct b; injection Hs as <-; [intros _|]; by exists u'.
  - injection Hs as <-. intros Hp. specialize (Hp eq_refl). subst p.
    rewrite app_nil_r in Hd. rewrite decide_False by (subst s'; cbn; rewrite Hd; done).
    by exists s'.
Qed.

Lemma parser_iter_ext p k s s' e t f :
  stream_ok s -> extends p s s' -> iter parser_step k (s, e) = Some (t, f) ->
  exists t', iter parser_step k (s', e) = Some (t', f) /\ extends p t t' /\ stream_ok t.
Proof.
  intros Hok Hext Hi.
  destruct (iter_sim parser_step parser_step
    (fun x y => extends p (fst x) (fst y) /\ snd x = snd y /\ stream_ok (fst x))
    ltac:(intros [u a] [v b] [u' a'] (Hx & Hs & Ho) Hst; cbn in *; subst b;
          destruct (parser_step_ext p u v a _ Ho Hx Hst) as (v' & Hv & Hx');
          exists (v', a'); split; [done|]; split; [done|]; split; [done|];
          apply (advanced_ok u); [done|];
          exact (parser_step_inl (u, a) (u', a') Ho Hst))
    k (s, e) (s', e) (t, f)) as ([t' f'] & Hi' & Hx & Hs & Ho); [done|done|].
  cbn in *. subst f'. by exists t'.
Qed.

(** A message that completes (or fails) does the same when more bytes follow. *)
Lemma parser_ext p s s' t res :
  stream_ok s -> extends p s s' -> redisMessageParser s = Ret (t, res) ->
  (res = (true, false) -> p = []) ->
  exists t', redisMessageParser s' = Ret (t', res) /\ extends p t t'.
Proof.
  intros Hok Hext H Hp. unfold redisMessageParser in *.
  destruct (loop parser_step (parser_fuel s) (s, false)) as [[[t0 f] r]| |] eqn:E; try discriminate.
  injection H as -> ->. apply loop_Ret_iter in E as (k & [u g] & _ & Hi & Hs).
  destruct (parser_iter_ext p k s s' false u g Hok Hext Hi) as (u' & Hi' & Hx & Ho).
  destruct (parser_step_ext p u u' g _ Ho Hx Hs Hp) as (t' & Hs' & Hx').
  rewrite (loop_iter_Ret _ _ _ _ _ _ Hi' Hs')
    by (apply parser_loop_fuel; [by eapply extends_ok|done]).
  by exists t'.
Qed.

(** The local [iserror] when the parser returns to wait for more data. *)
Definition waiting_flag (s : RedisStream) : bool :=
  match loop parser_step (parser_fuel s) (s, false) with
  | Ret (_, e, (true, false)) => e
  | _ => false
  end.

Lemma parser_iter_data k x y :
  pre_ok x -> iter parser_step k x = Some y -> s_data (fst y) = s_data (fst x).
Proof.
  intros Hx Hi.
  apply (iter_inv parser_step (fun z => pre_ok z /\ s_data (fst z) = s_data (fst x)) k x y); [|done..].
  intros u v [Hu Hd] Hst. pose proof (parser_step_inl u v Hu Hst) as Ha.
  split; [by apply (advanced_ok (fst u))|]. destruct Ha as [-> _]. done.
Qed.

(** Waiting and then receiving [p] is the same as having had [p] from the start. *)
Lemma parser_resume p s s' t t' :
  stream_ok s -> redisMessageParser s = Ret (t, (true, false)) -> waiting_flag s = false ->
  extends p s s' -> extends p t t' -> s_data t' = s_data s' ->
  redisMessageParser s' = redisMessageParser t'.
Proof.
  intros Hok H Hf Hext (d & -> & Hd) Hsd. unfold redisMessageParser, waiting_flag in *.
  destruct (loop parser_step (parser_fuel s) (s, false)) as [[[t0 f] r]| |] eqn:E; try discriminate.
  injection H as -> ->. subst f. apply loop_Ret_iter in E as (k & [u g] & _ & Hi & Hs).
  destruct (parser_iter_ext p k s s' false u g Hok Hext Hi) as (u' & Hi' & (d' & -> & Hd') & Ho).
  destruct (parser_step_total u g Ho) as (o & E & Hpost). rewrite Hs in E. injection E as <-.
  destruct Hpost as [Ht _]. specialize (Ht eq_refl eq_refl). subst u.
  pose proof (parser_iter_data k _ _ (extends_ok _ _ _ Hext Hok : pre_ok (s', false)) Hi') as Hd2.
  change (d' = s_data s') in Hd2. change (d = s_data s') in Hsd. subst d d'.
  assert (g = false) as ->.
  { unfold parser_step in Hs. revert Hs. case_decide; [|congruence].
    destruct (redis_read t g) as [[]| |] eqn:Er; cbn [obind]; try congruence.
    destruct (add_value _ _ _) as [? []]; congruence. }
  f_equal. apply (loop_confluent _ _ _ k 0 _ _ _ Hi' eq_refl);
    apply parser_loop_fuel; try done; [by eapply extends_ok|].
  eapply extends_ok; [|exact Ho]. by exists (s_data s').
Qed.

End ParserLemmas.

(** * The stream handler's lemmas *)

Section ParseLemmas.
Context {UC : Unicode} {W : Type} {PW : ProcWatcher W}.
Variables (tcptuple : TcpTuple) (dir : Z).

Let step := parse_step tcptuple dir.

Lemma PrepareForNewMessage_total s :
  stream_ok s ->
  PrepareForNewMessage s =
    Ret (s <| s_data := mkSlice (drop (Z.to_nat (s_parseOffset s)) (vis (s_data s))) (spare (s_data s)) |>
           <| s_parseOffset := 0 |>
           <| s_message := newMessage (m_Ts (s_message s)) |>).
Proof.
  intros Hok. unfold PrepareForNewMessage, sl_from.
  rewrite decide_True by (unfold stream_ok in Hok; lia). done.
Qed.

Lemma Prepare_ext p s s' t :
  stream_ok s -> extends p s s' -> PrepareForNewMessage s = Ret t ->
  exists t', PrepareForNewMessage s' = Ret t' /\ extends p t t'.
Proof.
  intros Hok Hext H. rewrite PrepareForNewMessage_total in * by (done || by eapply extends_ok).
  injection H as <-. destruct Hext as (d & -> & Hd). eexists. split; [done|].
  eexists (mkSlice _ _). split; [done|]. cbn.
  rewrite Hd, drop_app_le; [done|]. unfold stream_ok, len in Hok. lia.
Qed.

(** A turn of [Parse]'s message loop returns; going on, it has consumed data. *)
Lemma parse_step_total (s : RedisStream) (st : Redis * W) :
  stream_ok s -> exists o, step (s, st) = Ret o /\
    match o with
    | inl (s', _) => stream_ok s' /\ len (vis (s_data s')) < len (vis (s_data s))
    | inr (e, _) => e <> Recovered /\ (forall t, e = Keep t -> stream_ok t)
    end.
Proof.
  intros Hok. unfold step, parse_step. case_decide as Hl.
  2:{ eexists; split; [done|]. split; [done|]. by intros t [= <-]. }
  destruct (redisMessageParser_total s Hok) as (t & ok & c & -> & Hc & Hd & Hm).
  destruct ok; cbn [negb].
  2:{ eexists; split; [done|]. split; [done|]. done. }
  specialize (Hd eq_refl) as [Hd Ho]. assert (stream_ok t) as Hok'.
  { unfold stream_ok in *. rewrite Hd. lia. }
  destruct c.
  - rewrite PrepareForNewMessage_total by done. eexists; split; [done|].
    specialize (Hm eq_refl). unfold stream_ok in *. cbn. rewrite Hd, len_drop by lia. lia.
  - eexists; split; [done|]. split; [done|]. by intros u [= <-].
Qed.

Definition px_ok (x : RedisStream * (Redis * W)) : Prop := stream_ok (fst x).

(** [Parse]'s loop terminates and the recover is never needed. *)
Lemma parse_loop_total s (st : Redis * W) :
  stream_ok s -> exists e st', parse_loop tcptuple dir s st = Ret (e, st') /\
    e <> Recovered /\ (forall t, e = Keep t -> stream_ok t).
Proof.
  intros Hok. unfold parse_loop. set (n := S _).
  assert (length (vis (s_data s)) < n)%nat as Hn by (subst n; lia). clearbody n.
  revert s st Hok Hn. induction n as [|n IH]; intros s st Hok Hn; [lia|]. rewrite loop_S.
  destruct (parse_step_total s st Hok) as ([[s' st']|[e st']] & E & Ho); unfold step in E; rewrite E.
  - destruct Ho as [Hok' Hl]. apply IH; [done|]. unfold len in Hl. lia.
  - by exists e, st'.
Qed.

Lemma parse_loop_fuel n s (st : Redis * W) :
  stream_ok s -> (length (vis (s_data s)) < n)%nat -> loop step n (s, st) <> OutOfFuel.
Proof.
  intros Hok Hn. destruct (parse_loop_total s st Hok) as (e & st' & E & _).
  unfold parse_loop in E. fold step in E.
  rewrite (loop_mono step (S (length (vis (s_data s))))); [by rewrite E|lia|by rewrite E].
Qed.

(** How a loop ends, capacities of the slices apart. *)
Definition end_equiv (e e' : parse_end) : Prop :=
  match e, e' with
  | Keep s, Keep s' => extends [] s s'
  | Drop, Drop | Recovered, Recovered => True
  | _, _ => False
  end.

Lemma parse_step_ext p s s' (st : Redis * W) o :
  stream_ok s -> extends p s s' -> step (s, st) = Ret o ->
  match o with
  | inl (t, st') => exists t', step (s', st) = Ret (inl (t', st')) /\ extends p t t'
  | inr (e, st') => p = [] -> exists e', step (s', st) = Ret (inr (e', st')) /\ end_equiv e e'
  end.
Proof.
  intros Hok Hext Hs. unfold step, parse_step in *.
  destruct (redisMessageParser_total s Hok) as (t & ok & c & Ep & Hc & Hd & Hm).
  assert (len (vis (s_data s)) <= len (vis (s_data s'))) as Hle.
  { destruct Hext as (d & -> & Hd'). cbn. rewrite Hd'. len_lia. }
  destruct (decide (len (vis (s_data s)) > 0)) as [Hl|Hl].
  2:{ injection Hs as <-. intros ->. destruct Hext as (d & -> & Hd'). cbn.
      rewrite app_nil_r in Hd'. rewrite decide_False by (rewrite Hd'; done).
      eexists; split; [done|]. exists d. by rewrite app_nil_r. }
  rewrite decide_True by lia. rewrite Ep in Hs.
  assert ((ok, c) = (true, false) -> p = [] \/ o = inr (Keep t, st)) as Hcase.
  { intros [= -> ->]. right. cbn in Hs. congruence. }
  destruct ok; cbn [negb] in Hs.
  - specialize (Hd eq_refl) as [Hd Ho]. destruct c.
    + destruct (parser_ext p s s' t (true, true) Hok Hext Ep) as (t' & -> & Hx); [done|].
      cbn [negb]. assert (stream_ok t) as Hok' by (unfold stream_ok in *; rewrite Hd; lia).
      destruct (PrepareForNewMessage t) as [u| |] eqn:Eu;
        [|by rewrite PrepareForNewMessage_total in Eu..].
      injection Hs as <-. destruct (Prepare_ext p t t' u Hok' Hx Eu) as (u' & -> & Hu).
      exists u'. split; [|done]. destruct Hx as (d & -> & _). done.
    + injection Hs as <-. intros ->.
      destruct (parser_ext [] s s' t (true, false) Hok Hext Ep) as (t' & -> & Hx); [done|].
      by eexists.
  - injection Hs as <-. intros ->. destruct c; [by specialize (Hc eq_refl)|].
    destruct (parser_ext [] s s' t (false, false) Hok Hext Ep) as (t' & -> & _); [done|].
    by eexists.
Qed.

Lemma parse_iter_ext p k s s' (st : Redis * W) t st' :
  stream_ok s -> extends p s s' -> iter step k (s, st) = Some (t, st') ->
  exists t', iter step k (s', st) = Some (t', st') /\ extends p t t' /\ stream_ok t.
Proof.
  intros Hok Hext Hi.
  destruct (iter_sim step step
    (fun x y => extends p (fst x) (fst y) /\ snd x = snd y /\ stream_ok (fst x))
    ltac:(intros [u a] [v b] [u' a'] (Hx & Hs & Ho) Hst; cbn in *; subst b;
          destruct (parse_step_ext p u v a _ Ho Hx Hst) as (v' & Hv & Hx');
          exists (v', a'); split; [done|]; split; [done|]; split; [done|];
          destruct (parse_step_total u a Ho) as (o & E & Hpost);
          pose proof (eq_trans (eq_sym Hst) E) as [= <-]; apply Hpost)
    k (s, st) (s', st) (t, st')) as ([t' f'] & Hi' & Hx & Hs & Ho); [done|done|].
  cbn in *. subst f'. by exists t'.
Qed.

Lemma extends_trans p s t u : extends p s t -> extends p s u -> extends [] t u.
Proof.
  intros (d & -> & Hd) (d' & -> & Hd'). exists d'. split; [done|]. cbn.
  by rewrite app_nil_r, Hd, Hd'.
Qed.

(** The loop does not see the capacities. *)
Lemma parse_loop_equiv n m s s' (st : Redis * W) e st' :
  stream_ok s -> extends [] s s' -> loop step n (s, st) = Ret (e, st') ->
  (length (vis (s_data s')) < m)%nat ->
  exists e', loop step m (s', st) = Ret (e', st') /\ end_equiv e e'.
Proof.
  intros Hok Hext E Hm. apply loop_Ret_iter in E as (k & [t a] & _ & Hi & Hs).
  destruct (parse_iter_ext [] k s s' st t a Hok Hext Hi) as (t' & Hi' & Hx & Ho).
  destruct (parse_step_ext [] t t' a _ Ho Hx Hs eq_refl) as (e' & Hs' & He).
  exists e'. split; [|done]. apply (loop_iter_Ret _ _ _ _ _ _ Hi' Hs').
  apply parse_loop_fuel; [by eapply extends_ok|done].
Qed.

(** The loop on all the data ends as the loop on the first part, resumed. *)
Lemma parse_loop_resume p s s' (st : Redis * W) s1 s1' st1 :
  stream_ok s -> parse_loop tcptuple dir s st = Ret (Keep s1, st1) ->
  (forall k t st', iter step k (s, st) = Some (t, st') -> waiting_flag t = false) ->
  extends p s s' -> extends p s1 s1' ->
  exists e e' st2, parse_loop tcptuple dir s' st = Ret (e, st2) /\
    parse_loop tcptuple dir s1' st1 = Ret (e', st2) /\ end_equiv e e'.
Proof.
  intros Hok E Hf Hext Hext1. unfold parse_loop in E. fold step in E.
  apply loop_Ret_iter in E as (k & [t a] & _ & Hi & Hs).
  destruct (parse_iter_ext p k s s' st t a Hok Hext Hi) as (t' & Hi' & Hx & Ho).
  assert (exists u n m, extends [] u s1' /\ stream_ok u /\ a = st1 /\
    loop step (S n) (t', a) = loop step (S m) (u, a) /\ (length (vis (s_data u)) < S m)%nat)
    as (u & n & m & Hu & Hou & -> & Hl & Hm).
  { pose proof Hs as Hs0. unfold step, parse_step in Hs0.
    destruct (decide (len (vis (s_data t)) > 0)) as [Hpos|Hpos].
    - destruct (redisMessageParser_total t Ho) as (v & ok & c & Ep & _ & Hd & _).
      rewrite Ep in Hs0. destruct ok; cbn [negb] in Hs0; [|congruence].
      specialize (Hd eq_refl) as [Hd Hoff]. destruct c.
      { destruct (PrepareForNewMessage v); congruence. }
      injection Hs0 as -> ->. destruct Hx as (d & -> & Hdd).
      exists (s1 <| s_data := d |>), (length (vis d)), (length (vis d)).
      assert (extends p s1 (s1 <| s_data := d |>)) as Hx1.
      { exists d. split; [done|]. congruence. }
      split; [by eapply extends_trans|]. split.
      { eapply extends_ok; [exact Hx1|]. unfold stream_ok in *. rewrite Hd. lia. }
      split; [done|]. split; [|cbn; lia].
      rewrite !loop_S. unfold step at 1 3, parse_step. cbn [s_data].
      rewrite (parser_resume p t (t <| s_data := d |>) s1 (s1 <| s_data := d |>));
        [|done|exact Ep|by eapply Hf|by exists d|exact Hx1|done].
      rewrite !decide_True by (cbn; rewrite Hdd; len_lia). done.
    - injection Hs0 as -> ->. exists t', (length (vis (s_data t'))), (length (vis (s_data t'))).
      split; [by eapply extends_trans|]. split; [by eapply extends_ok|].
      split; [done|]. split; [done|lia]. }
  destruct (parse_loop_total u st1 Hou) as (e & st2 & Eu & _).
  destruct (parse_loop_equiv _ (S (length (vis (s_data s1')))) u s1' st1 e st2 Hou Hu Eu)
    as (e' & E' & He); [lia|].
  exists e, e', st2. split; [|done]. unfold parse_loop. fold step. rewrite <- Eu.
  unfold parse_loop. fold step.
  pose proof (parse_loop_fuel (S (length (vis (s_data s')))) s' st
    (extends_ok _ _ _ Hext Hok) ltac:(lia)) as Hfs.
  assert (loop step (S m) (u, st1) <> OutOfFuel) as Hfu by (by apply parse_loop_fuel).
  rewrite (loop_confluent step _ (S n) k 0 _ _ _ Hi' eq_refl Hfs) by (by rewrite Hl).
  rewrite Hl. apply (loop_confluent step _ _ 0 0 _ _ (u, st1)); [done..|].
  apply parse_loop_fuel; [done|lia].
Qed.

End ParseLemmas.

Section ParseTheorems.
Context {UC : Unicode} {W : Type} {PW : ProcWatcher W} {RT : Runtime}.

(** Both directions' streams are well formed. *)
Definition priv_ok (private : option redisPrivateData) : Prop :=
  forall dir s, get2 (default nil2 private) dir = Ret (Some s) -> stream_ok s.

Definition priv_equiv (p p' : option redisPrivateData) : Prop :=
  match p, p' with
  | None, None => True
  | Some a, Some b => forall dir, valid_dir dir ->
      match get2 a dir, get2 b dir with
      | Ret (Some s), Ret (Some s') => extends [] s s'
      | Ret None, Ret None => True
      | _, _ => False
      end
  | _, _ => False
  end.

Lemma extends_refl s : extends [] s s.
Proof. exists (s_data s). split; [by destruct s|by rewrite app_nil_r]. Qed.

Lemma priv_equiv_set2 a dir v v' :
  match v, v' with
  | Some s, Some s' => extends [] s s'
  | None, None => True
  | _, _ => False
  end ->
  priv_equiv (Some (set2 a dir v)) (Some (set2 a dir v')).
Proof.
  intros H d [-> | ->]; unfold get2, set2; repeat case_decide; cbn; try done;
    destruct v, v'; try done; destruct (dir0 a), (dir1 a); try done; apply extends_refl.
Qed.

Lemma received_ok pkt tcptuple old :
  (forall s, old = Some s -> stream_ok s) -> stream_ok (received pkt tcptuple old).
Proof.
  intros H. destruct old as [s|]; unfold stream_ok in *; cbn.
  - specialize (H s eq_refl). rewrite append_vis. len_lia.
  - len_lia.
Qed.

Lemma get2_valid {A} (p : pair2 A) dir : valid_dir dir -> exists o, get2 p dir = Ret o.
Proof. intros [-> | ->]; cbn; eauto. Qed.

Lemma get2_set2_cases {A} (p : pair2 A) dir dir' v o :
  get2 (set2 p dir v) dir' = Ret o -> (dir' = dir /\ o = v) \/ get2 p dir' = Ret o.
Proof.
  unfold get2, set2. intros H. repeat case_decide; subst; cbn in *; auto; try done;
    injection H as <-; auto.
Qed.

(** [Parse] on any packet returns; the recover is not needed and the streams it
    keeps are well formed and no larger than the limit or the packet. *)
Theorem Parse_total pkt tcptuple dir private (st : Redis * W) :
  valid_dir dir -> priv_ok private ->
  exists priv' st', Parse pkt tcptuple dir private st = Ret (Some priv', st') /\
    priv_ok (Some priv').
Proof.
  intros Hdir Hok. unfold Parse. destruct (get2_valid (default nil2 private) dir Hdir) as [old Eo].
  rewrite Eo.
  assert (stream_ok (received pkt tcptuple old)) as Hr.
  { apply received_ok. intros s ->. by apply (Hok dir). }
  assert (priv_ok (Some (set2 (default nil2 private) dir None))) as Hdrop.
  { intros d s [[_ ?]|?]%get2_set2_cases; [done|]. by apply (Hok d). }
  destruct (too_large old (received pkt tcptuple old)); [by eexists _, _|].
  destruct (parse_loop_total tcptuple dir _ st Hr) as (e & st' & -> & Hne & Hk). cbn [obind].
  destruct e as [s| |]; [|by eexists _, _|done].
  eexists _, _; split; [done|]. intros d t [[_ [= ->]]|?]%get2_set2_cases; [by apply Hk|].
  by apply (Hok d).
Qed.

(** TCP segmentation does not matter. *)
Theorem Parse_segmentation pkt1 pkt2 pkt12 tcptuple dir private (st : Redis * W) priv1 st1 s1 :
  valid_dir dir -> priv_ok private ->
  pk_Ts pkt12 = pk_Ts pkt1 ->
  vis (pk_Payload pkt12) = vis (pk_Payload pkt1) ++ vis (pk_Payload pkt2) ->
  Parse pkt1 tcptuple dir private st = Ret (Some priv1, st1) ->
  get2 priv1 dir = Ret (Some s1) ->
  (forall old, get2 (default nil2 private) dir = Ret old ->
     too_large old (received pkt12 tcptuple old) = false /\
     forall k s st', iter (parse_step tcptuple dir) k (received pkt1 tcptuple old, st) = Some (s, st') ->
       waiting_flag s = false) ->
  too_large (Some s1) (received pkt2 tcptuple (Some s1)) = false ->
  exists p p' st2,
    Parse pkt12 tcptuple dir private st = Ret (p, st2) /\
    Parse pkt2 tcptuple dir (Some priv1) st1 = Ret (p', st2) /\
    priv_equiv p p'.
Proof.
  intros Hdir Hok Hts Hvis E Hg Hflag Hbig2. unfold Parse in E.
  destruct (get2_valid (default nil2 private) dir Hdir) as [old Eo]. rewrite Eo in E.
  destruct (Hflag old Eo) as [Hbig12 Hf].
  destruct (too_large old (received pkt1 tcptuple old)).
  { injection E as <- <-. by rewrite get_set2 in Hg. }
  destruct (parse_loop _ _ _ _) as [[e st']| |] eqn:El; cbn [obind] in E; try discriminate.
  injection E as E1 <-. destruct e as [s| |]; [|injection E1 as <-; by rewrite get_set2 in Hg|done].
  injection E1 as <-. rewrite get_set2 in Hg by done. injection Hg as <-.
  assert (stream_ok (received pkt1 tcptuple old)) as Hr.
  { apply received_ok. intros t ->. by apply (Hok dir). }
  destruct (parse_loop_resume tcptuple dir (vis (pk_Payload pkt2)) _ (received pkt12 tcptuple old)
    st s (received pkt2 tcptuple (Some s)) st' Hr El Hf) as (e & e' & st2 & E12 & E2 & He).
  { destruct old as [o|]; cbn; (eexists; split; [by rewrite ?Hts|]); cbn;
      rewrite ?append_vis, Hvis; [by rewrite app_assoc|done]. }
  { eexists. split; [done|]. by rewrite append_vis. }
  do 3 eexists. split; [|split].
  - unfold Parse. rewrite Eo, Hbig12, E12. cbn [obind]. reflexivity.
  - unfold Parse. cbv zeta.
    change (default nil2 (Some ?q)) with q.
    rewrite get_set2 by done. rewrite Hbig2, E2.
    cbn [obind]. reflexivity.
  - destruct (parse_loop_total tcptuple dir (received pkt12 tcptuple old) st) as (e0 & ? & E0 & Hne & _).
    { apply received_ok. intros t ->. by apply (Hok dir). }
    rewrite E12 in E0. injection E0 as <- _.
    destruct e, e'; try done; rewrite set_set2; by apply priv_equiv_set2.
Qed.

End ParseTheorems.

(** * Requests on the wire *)

(** The client's encoding of a command: an array of bulk strings. *)
Definition encode_bulk (a : bytes) : bytes := bs "$" ++ Itoa (len a) ++ CRLF ++ a ++ CRLF.
Definition encode_request (args : list bytes) : bytes :=
  bs "*" ++ Itoa (len args) ++ CRLF ++ concat (map encode_bulk args).

(** A bulk the parser can read: no CRLF inside it. *)
Definition bulk_ok (a : bytes) : Prop := index_nat a CRLF = None /\ len a < 2 ^ 63.

Section Requests.
Context {UC : Unicode}.

(** The fields a request's arguments give to a message. *)
Definition request_fields (args : list bytes) (m : RedisMessage) : RedisMessage :=
  let m := m <| m_Bulks := args |> in
  let m := match args with
           | cmd :: _ => if isRedisCommand cmd
                         then m <| m_IsRequest := true |> <| m_Method := cmd |> else m
           | [] => m
           end in
  match args with
  | _ :: path :: _ => if m_IsRequest m then m <| m_Path := path |> else m
  | _ => m
  end.

Lemma readLine_at d pre l post :
  vis d = pre ++ l ++ CRLF ++ post -> index_nat l CRLF = None ->
  readLine d (len pre) = Ret (true, l, len pre + len l + 2).
Proof.
  intros Hd Hl. unfold readLine, sl_from. rewrite Hd.
  rewrite decide_True by len_lia. cbn [obind vis]. rewrite drop_len_app.
  assert (Index (l ++ CRLF ++ post) CRLF = len l) as ->.
  { unfold Index, CRLF. cbn [app]. by rewrite index_nat_line. }
  rewrite decide_False by len_lia.
  destruct (sl_slice_vis d (len pre) (len pre + len l)) as (t & -> & Ht);
    [len_lia|rewrite Hd; len_lia|].
  cbn [obind]. by rewrite Ht, Hd, sub_mid.
Qed.

Lemma readLine_index d pre t i :
  vis d = pre ++ t -> index_nat t CRLF = Some i -> readLine d (len pre) = Ret (true, take i t, len pre + Z.of_nat i + 2).
Proof.
  intros Hd Hi. unfold readLine, sl_from. rewrite Hd.
  rewrite decide_True by len_lia. cbn [obind vis]. rewrite drop_len_app.
  assert (Index t CRLF = Z.of_nat i) as -> by (unfold Index; by rewrite Hi). rewrite decide_False by lia.
  destruct (index_nat_spec t CRLF i Hi) as (u & _ & Hlen). change (length CRLF) with 2%nat in Hlen.
  destruct (sl_slice_vis d (len pre) (len pre + Z.of_nat i)) as (r & -> & Hr); [pose proof (len_nonneg pre); lia|rewrite Hd, len_app; unfold len in *; lia|].
  cbn [obind]. rewrite Hr, Hd. unfold sub. replace (Z.to_nat (len pre + Z.of_nat i - len pre)) with i by lia.
  by rewrite drop_len_app.
Qed.

Lemma header_line c n : c <> x0d -> 0 <= n -> index_nat (c :: Itoa n) CRLF = None.
Proof. intros Hc Hn. apply index_nat_notin. constructor; [done|]. by apply Itoa_digits. Qed.

Lemma not_null_line c n : 0 <= n -> is_null_line (c :: Itoa n) = Ret false.
Proof.
  intros Hn. unfold is_null_line. case_decide as Hl; [|done].
  assert (Forall (fun b => b <> "-"%byte) (Itoa n)) as Hf by by apply Itoa_digits.
  destruct (Itoa n) as [|a [|b l]]; try done. inversion_clear Hf as [|? ? Ha _].
  change (at_ (c :: a :: b :: l) 1) with (Ret a). change (at_ (c :: a :: b :: l) 2) with (Ret b).
  cbn [obind].
  destruct (Byte.eqb a "-") eqn:E; [by apply beqb_eq in E|done].
Qed.

Lemma str_from_cons c (l : bytes) : str_from (c :: l) 1 = Ret l.
Proof.
  rewrite str_from_1 by len_lia. unfold sub, len. cbn [length].
  replace (Z.to_nat (Z.of_nat (S (length l)) - 1)) with (length l) by lia. cbn.
  by rewrite firstn_all.
Qed.

Lemma read_bulk_at s e pre a post :
  vis (s_data s) = pre ++ encode_bulk a ++ post -> s_parseOffset s = len pre -> bulk_ok a ->
  redis_read s e = Ret (RValue (s <| s_parseOffset := len (pre ++ encode_bulk a) |>) a e).
Proof.
  intros Hd Ho [Ha Hla]. unfold redis_read, encode_bulk in *. rewrite Ho, Hd.
  change (bs "$") with ["$"%byte] in *. cbn [app] in *. rewrite at_mid. cbn [obind].
  rewrite ?beqb_refl. change (Byte.eqb "$" "*") with false. cbn iota.
  unfold read_bulk. rewrite Ho. pose proof (len_nonneg a).
  rewrite (readLine_at (s_data s) pre ("$"%byte :: Itoa (len a)) (a ++ CRLF ++ post))
    by (by apply header_line || by rewrite Hd; cbn [app]; rewrite <- !app_assoc).
  cbn [obind negb]. rewrite not_null_line by done. cbn [obind].
  rewrite str_from_cons. cbn [obind]. rewrite ParseInt_Itoa by done. cbv zeta.
  set (o := len pre + _ + 2).
  change (s_data (s <| s_parseOffset := o |>)) with (s_data s).
  change (s_parseOffset (s <| s_parseOffset := o |>)) with o.
  assert (o = len (pre ++ ("$"%byte :: Itoa (len a)) ++ CRLF)) as Ho'
    by (subst o; unfold CRLF; len_lia).
  rewrite Ho'. rewrite (readLine_at (s_data s) _ a post)
    by (done || by rewrite Hd; cbn [app]; rewrite <- !app_assoc; cbn [app]; rewrite <- ?app_assoc).
  cbn [obind negb]. rewrite decide_False by tauto.
  match goal with |- Ret (RValue (_ <| _ := ?x |>) _ _) = Ret (RValue (_ <| _ := ?y |>) _ _) =>
    assert (x = y) as <- by (unfold CRLF; len_lia) end.
  done.
Qed.

(** The message of a request of which [args] have been read and [k] bulks are
    missing, and the complete one. *)
Definition partial_request (m : RedisMessage) (args : list bytes) (k : Z) : RedisMessage :=
  request_fields args m <| m_NumberOfBulks := k |>.
Definition complete_request (m : RedisMessage) (args : list bytes) (size : Z) : RedisMessage :=
  partial_request m args 0 <| m_Message := Join args (bs " ") |> <| m_Size := size |>.

Lemma partial_bulks m args k : m_Bulks (partial_request m args k) = args.
Proof. unfold partial_request, request_fields. destruct args as [|a [|b args]]; cbn; by repeat case_match. Qed.

Lemma add_bulk_many m v :
  2 <= len (m_Bulks m) ->
  add_bulk m v = m <| m_NumberOfBulks := m_NumberOfBulks m - 1 |> <| m_Bulks := m_Bulks m ++ [v] |>.
Proof.
  intros Hl. unfold add_bulk.
  set (m1 := m <| m_NumberOfBulks := _ |> <| m_Bulks := _ |>). cbv zeta.
  change (m_Bulks m1) with (m_Bulks m ++ [v]).
  rewrite (decide_False (P := len (m_Bulks m ++ [v]) = 1)) by len_lia.
  rewrite decide_False; [done|]. change (m_Bulks m1) with (m_Bulks m ++ [v]). len_lia.
Qed.

Lemma add_bulk_request m args v k :
  add_bulk (partial_request m args k) v = partial_request m (args ++ [v]) (k - 1).
Proof.
  destruct args as [|a [|b args]].
  - unfold add_bulk, partial_request, request_fields. cbn [app].
    destruct (isRedisCommand v); reflexivity.
  - unfold add_bulk, partial_request, request_fields. cbn [app].
    destruct (isRedisCommand a); [reflexivity|]. destruct m as [??????[] ?????]; reflexivity.
  - rewrite add_bulk_many by (rewrite partial_bulks; len_lia). rewrite partial_bulks.
    unfold partial_request, request_fields. cbn [app].
    destruct (isRedisCommand a); [reflexivity|]. destruct m as [??????[] ?????]; reflexivity.
Qed.

Lemma add_value_request s e m args v k :
  s_message s = partial_request m args k -> 0 < k ->
  add_value s v e =
    if decide (k = 1)
    then (s <| s_message := complete_request m (args ++ [v]) (s_parseOffset s) |>, true)
    else (s <| s_message := partial_request m (args ++ [v]) (k - 1) |>, false).
Proof.
  intros Hm Hk. unfold add_value. cbv zeta. rewrite Hm.
  change (m_NumberOfBulks (partial_request m args k)) with k.
  rewrite decide_True by lia. rewrite add_bulk_request, partial_bulks.
  change (m_NumberOfBulks (partial_request m (args ++ [v]) (k - 1))) with (k - 1).
  destruct (decide (k = 1)) as [->|Hne]; [done|]. by rewrite decide_False by lia.
Qed.

(** The bulks that remain complete the request. *)
Lemma parser_bulks m rest :
  forall prev s e pre post,
  rest <> [] -> Forall bulk_ok rest ->
  vis (s_data s) = pre ++ concat (map encode_bulk rest) ++ post ->
  s_parseOffset s = len pre -> s_message s = partial_request m prev (len rest) ->
  let o := len (pre ++ concat (map encode_bulk rest)) in
  exists k u, iter parser_step k (s, e) = Some (u, e) /\
    parser_step (u, e) = Ret (inr (s <| s_parseOffset := o |>
                                <| s_message := complete_request m (prev ++ rest) o |>,
                              e, (true, true))).
Proof.
  induction rest as [|a rest IH]; intros prev s e pre post Hne Hok Hd Ho Hm; [done|].
  inversion_clear Hok as [|? ? Ha Hrest]. cbn [map concat] in *. rewrite <- !app_assoc in Hd.
  set (s1 := s <| s_parseOffset := len (pre ++ encode_bulk a) |>).
  assert (parser_step (s, e) =
    let '(s', complete) := add_value s1 a e in
    if complete then Ret (inr (s', e, (true, true))) else Ret (inl (s', e))) as Est.
  { unfold parser_step. rewrite decide_True.
    - by rewrite (read_bulk_at s e pre a (concat (map encode_bulk rest) ++ post)).
    - rewrite Ho, Hd. change (encode_bulk a) with ("$"%byte :: Itoa (len a) ++ CRLF ++ a ++ CRLF).
      cbn [app]. len_lia. }
  rewrite (add_value_request s1 e m prev a (len (a :: rest)) Hm) in Est by len_lia.
  destruct rest as [|b rest].
  - exists 0%nat, s. split; [done|]. rewrite Est. cbn [concat map]. by rewrite app_nil_r.
  - rewrite decide_False in Est by len_lia. rewrite len_cons in Est.
    replace (1 + len (b :: rest) - 1) with (len (b :: rest)) in Est by lia.
    set (s2 := s1 <| s_message := _ |>) in Est.
    destruct (IH (prev ++ [a]) s2 e (pre ++ encode_bulk a) post) as (k & u & Hi & Hs);
      [done|done|by rewrite <- !app_assoc|done|done|].
    exists (S k), u. split; [cbn [iter]; by rewrite Est|]. rewrite Hs.
    rewrite <- !app_assoc. cbn [app]. done.
Qed.

(** The first turn over a request, its header. *)
Lemma request_header s pre args post :
  len args < 2 ^ 63 -> vis (s_data s) = pre ++ encode_request args ++ post -> s_parseOffset s = len pre ->
  let hdr := "*"%byte :: Itoa (len args) in
  exists s1, parser_step (s, false) = Ret (inl (s1, false)) /\
    vis (s_data s1) = (pre ++ hdr ++ CRLF) ++ concat (map encode_bulk args) ++ post /\
    s_parseOffset s1 = len (pre ++ hdr ++ CRLF) /\ s_message s1 = partial_request (s_message s) [] (len args) /\
    forall o m, s1 <| s_parseOffset := o |> <| s_message := m |> = s <| s_parseOffset := o |> <| s_message := m |>.
Proof.
  intros Hlen Hd Ho. cbv zeta. set (m := s_message s). set (hdr := "*"%byte :: Itoa (len args)).
  assert (encode_request args = hdr ++ CRLF ++ concat (map encode_bulk args)) as Ee by done.
  rewrite Ee in *. rewrite <- !app_assoc in Hd.
  exists (s <| s_message := m <| m_NumberOfBulks := len args |> |>
            <| s_parseOffset := len (pre ++ hdr ++ CRLF) |>
            <| s_message := partial_request m [] (len args) |>).
  split; [|split; [by rewrite <- !app_assoc|by repeat split]].
  unfold parser_step. rewrite decide_True by (rewrite Ho, Hd; subst hdr; cbn [app]; len_lia).
  unfold redis_read. rewrite Ho, Hd. unfold hdr at 1. cbn [app]. rewrite at_mid. cbn [obind].
  rewrite beqb_refl. unfold read_multi_bulk. rewrite Ho.
  rewrite (readLine_at (s_data s) pre hdr (concat (map encode_bulk args) ++ post))
    by (done || (apply header_line; [done|apply len_nonneg])).
  cbn [obind negb]. unfold hdr at 1. rewrite not_null_line by apply len_nonneg. cbn [obind].
  unfold hdr at 1. rewrite str_from_cons. cbn [obind].
  rewrite ParseInt_Itoa by (pose proof (len_nonneg args); lia).
  assert (len pre + len hdr + 2 = len (pre ++ hdr ++ CRLF)) as -> by (unfold CRLF; len_lia).
  done.
Qed.

(** The turns of the parser over a request: the last one completes it. *)
Lemma request_turns s pre args post :
  args <> [] -> Forall bulk_ok args -> len args < 2 ^ 63 ->
  vis (s_data s) = pre ++ encode_request args ++ post -> s_parseOffset s = len pre ->
  let o := len (pre ++ encode_request args) in
  exists k u, iter parser_step k (s, false) = Some (u, false) /\
    parser_step (u, false) = Ret (inr (s <| s_parseOffset := o |>
                                         <| s_message := complete_request (s_message s) args o |>, false, (true, true))).
Proof.
  intros Hne Hok Hlen Hd Ho. cbv zeta.
  destruct (request_header s pre args post Hlen Hd Ho) as (s1 & Est & Hd1 & Ho1 & Hm1 & Heq).
  destruct (parser_bulks (s_message s) args [] s1 false _ post Hne Hok Hd1 Ho1 Hm1) as (k & u & Hi & Hs).
  exists (S k), u. split; [cbn [iter]; by rewrite Est|]. rewrite Hs. cbn [app]. rewrite Heq.
  replace ((pre ++ "*"%byte :: Itoa (len args) ++ CRLF) ++ concat (map encode_bulk args)) with (pre ++ encode_request args)
    by (unfold encode_request; change (bs "*") with ["*"%byte]; cbn [app]; rewrite <- ?app_assoc; cbn [app]; rewrite <- ?app_assoc; done). done.
Qed.

(** An argument with a line end in it is refused. *)
Lemma read_bulk_refused s e pre a i post :
  vis (s_data s) = pre ++ encode_bulk a ++ post -> s_parseOffset s = len pre -> index_nat a CRLF = Some i -> len a < 2 ^ 63 ->
  exists s', redis_read s e = Ret (RFail s').
Proof.
  intros Hd Ho Hi Hla. unfold redis_read, encode_bulk in *. rewrite Ho, Hd.
  change (bs "$") with ["$"%byte] in *. cbn [app] in *. rewrite at_mid. cbn [obind].
  change (Byte.eqb "$" "*") with false. rewrite ?beqb_refl. cbn iota.
  unfold read_bulk. rewrite Ho. pose proof (len_nonneg a).
  rewrite (readLine_at (s_data s) pre ("$"%byte :: Itoa (len a)) (a ++ CRLF ++ post))
    by (by apply header_line || by rewrite Hd; cbn [app]; rewrite <- !app_assoc).
  cbn [obind negb]. rewrite not_null_line by done. cbn [obind].
  rewrite str_from_cons. cbn [obind]. rewrite ParseInt_Itoa by done. cbv zeta.
  set (o := len pre + _ + 2). set (s1 := s <| s_parseOffset := o |>).
  assert (o = len (pre ++ ("$"%byte :: Itoa (len a)) ++ CRLF)) as Ho' by (subst o; unfold CRLF; len_lia).
  change (s_data s1) with (s_data s). change (s_parseOffset s1) with o. rewrite Ho'.
  destruct (index_nat_spec a CRLF i Hi) as (u & _ & Hlen). change (length CRLF) with 2%nat in Hlen.
  rewrite (readLine_index (s_data s) _ (a ++ CRLF ++ post) i)
    by ((by rewrite Hd; cbn [app]; rewrite <- !app_assoc; cbn [app]; rewrite <- ?app_assoc) || by apply index_nat_app).
  cbn [obind negb]. rewrite decide_True; [by eexists|].
  unfold len. rewrite length_take, length_app. lia.
Qed.

(** The bulks before the one that is refused. *)
Lemma parser_bulks_refused m a i more good :
  forall prev s e pre post,
  Forall bulk_ok good -> index_nat a CRLF = Some i -> len a < 2 ^ 63 ->
  vis (s_data s) = pre ++ concat (map encode_bulk (good ++ a :: more)) ++ post ->
  s_parseOffset s = len pre -> s_message s = partial_request m prev (len (good ++ a :: more)) ->
  exists k u s', iter parser_step k (s, e) = Some (u, e) /\ parser_step (u, e) = Ret (inr (s', e, (false, false))).
Proof.
  induction good as [|b good IH]; intros prev s e pre post Hok Hi Hla Hd Ho Hm; cbn [app map concat] in *; rewrite <- !app_assoc in Hd.
  - destruct (read_bulk_refused s e pre a i _ Hd Ho Hi Hla) as (s' & E). exists 0%nat, s, s'. split; [done|].
    unfold parser_step. rewrite decide_True; [by rewrite E|].
    rewrite Ho, Hd. change (encode_bulk a) with ("$"%byte :: Itoa (len a) ++ CRLF ++ a ++ CRLF). cbn [app]. len_lia.
  - inversion_clear Hok as [|? ? Hb Hgood].
    set (s1 := s <| s_parseOffset := len (pre ++ encode_bulk b) |>).
    assert (parser_step (s, e) =
      let '(s', complete) := add_value s1 b e in
      if complete then Ret (inr (s', e, (true, true))) else Ret (inl (s', e))) as Est.
    { unfold parser_step. rewrite decide_True.
      - by rewrite (read_bulk_at s e pre b _ Hd Ho Hb).
      - rewrite Ho, Hd. change (encode_bulk b) with ("$"%byte :: Itoa (len b) ++ CRLF ++ b ++ CRLF). cbn [app]. len_lia. }
    rewrite (add_value_request s1 e m prev b _ Hm) in Est by len_lia.
    rewrite decide_False in Est by len_lia. rewrite len_cons in Est.
    replace (1 + len (good ++ a :: more) - 1) with (len (good ++ a :: more)) in Est by lia.
    set (s2 := s1 <| s_message := _ |>) in Est.
    destruct (IH (prev ++ [b]) s2 e (pre ++ encode_bulk b) post) as (k & u & s' & Hk & Hs);
      [done|done|done|by rewrite <- !app_assoc|done|done|].
    exists (S k), u, s'. split; [cbn [iter]; by rewrite Est|exact Hs].
Qed.

(** C10: what a client sends is what the parser reads: the arguments of a command, whatever
    follows them and whatever the parser had before them, if no argument has a line end (CR LF)
    in it; a command with such an argument is refused, which drops the stream. *)
Theorem request_roundtrip s pre args post :
  args <> [] -> Forall (fun a => len a < 2 ^ 63) args -> len args < 2 ^ 63 ->
  vis (s_data s) = pre ++ encode_request args ++ post -> s_parseOffset s = len pre ->
  let o := len (pre ++ encode_request args) in
  (Forall (fun a => index_nat a CRLF = None) args ->
   redisMessageParser s =
     Ret (s <| s_parseOffset := o |>
            <| s_message := complete_request (s_message s) args o |>, (true, true))) /\
  (Exists (fun a => index_nat a CRLF <> None) args -> exists s', redisMessageParser s = Ret (s', (false, false))).
Proof.
  intros Hne Hlens Hlen Hd Ho.
  assert (stream_ok s) as Hsok by (unfold stream_ok; rewrite Ho, Hd; len_lia). split.
  - intros Hnone. assert (Forall bulk_ok args) as Hok by by apply List.Forall_and.
    destruct (request_turns s pre args post Hne Hok Hlen Hd Ho) as (k & u & Hi & Hs).
    unfold redisMessageParser. by rewrite (loop_iter_Ret parser_step (parser_fuel s) k _ _ _ Hi Hs) by (by apply parser_loop_fuel).
  - intros Hex. destruct (exists_first _ args Hex) as (good & a & more & -> & Hbad & Hgood). clear Hex.
    apply Forall_app in Hlens as [Hl1 Hl2].
    apply Forall_cons_1 in Hl2 as [Hl2 _]. destruct (index_nat a CRLF) as [i|] eqn:Hi; [|done].
    assert (Forall bulk_ok good) as Hok.
    { apply List.Forall_and; [|done]. eapply List.Forall_impl; [|exact Hgood]. intros x Hx. cbn in Hx. destruct (index_nat x CRLF); [by destruct Hx|done]. }
    destruct (request_header s pre (good ++ a :: more) post Hlen Hd Ho) as (s1 & Est & Hd1 & Ho1 & Hm1 & _).
    destruct (parser_bulks_refused (s_message s) a i more good [] s1 false _ post Hok Hi Hl2 Hd1 Ho1 Hm1) as (k & u & s' & Hk & Hs).
    exists s'. unfold redisMessageParser.
    assert (iter parser_step (S k) (s, false) = Some (u, false)) as Hk' by (cbn [iter]; by rewrite Est).
    by rewrite (loop_iter_Ret parser_step (parser_fuel s) (S k) _ _ _ Hk' Hs) by (by apply parser_loop_fuel).
Qed.

End Requests.

(** * Timestamps *)

Section Timestamps.
Context {UC : Unicode} {W : Type} {PW : ProcWatcher W} {RT : Runtime}.

Definition stream_ts (s : RedisStream) : Z := m_Ts (s_message s).

Lemma redis_read_ts s e r :
  redis_read s e = Ret r ->
  match r with RWait t | RFail t | RContinue t | RValue t _ _ => stream_ts t = stream_ts s end.
Proof.
  unfold redis_read, read_multi_bulk, read_bulk, read_integer, read_status. intros H.
  repeat (case_go || case_match); simplify_eq; done.
Qed.

Lemma add_value_ts s v e : stream_ts (fst (add_value s v e)) = stream_ts s.
Proof.
  unfold stream_ts, add_value, add_bulk. cbv zeta.
  repeat (case_decide || case_match); done.
Qed.

Lemma parser_ts s s' r : redisMessageParser s = Ret (s', r) -> stream_ts s' = stream_ts s.
Proof.
  unfold redisMessageParser. intros H.
  destruct (loop parser_step (parser_fuel s) (s, false)) as [[[t f] r0]| |] eqn:E; try discriminate.
  injection H as -> ->.
  apply (loop_inv parser_step (fun x => stream_ts (fst x) = stream_ts s)
    (fun y => stream_ts (fst (fst y)) = stream_ts s)) in E; [exact E|..|done].
  all: intros [u a] y Hu Hst; unfold parser_step in Hst; cbn in Hu; case_decide; [|simplify_eq; done];
    destruct (redis_read u a) as [rd| |] eqn:Er; try discriminate; apply redis_read_ts in Er;
    cbn [obind] in Hst; destruct rd as [v|v|v|v x f']; simplify_eq; try (cbn; congruence);
    pose proof (add_value_ts v x f'); destruct (add_value v x f') as [w []]; simplify_eq; cbn in *; congruence.
Qed.

(** A stream keeps the timestamp of the packet that created it: later packets do
    not update the time of the messages they carry. *)
Theorem stream_timestamp_frozen pkt tcptuple dir priv (st : Redis * W) priv' st' s s' :
  valid_dir dir -> get2 priv dir = Ret (Some s) ->
  Parse pkt tcptuple dir (Some priv) st = Ret (Some priv', st') ->
  get2 priv' dir = Ret (Some s') -> m_Ts (s_message s') = m_Ts (s_message s).
Proof.
  intros Hdir Hs HP Hs'. unfold Parse in HP. cbv zeta in HP.
  change (default nil2 (Some ?q)) with q in HP. rewrite Hs in HP.
  destruct (too_large _ _); [injection HP as <- <-; by rewrite get_set2 in Hs'|].
  destruct (parse_loop _ _ _ _) as [[e st1]| |] eqn:E; try discriminate. cbn [obind] in HP.
  destruct e as [t| |]; try discriminate; injection HP as <- <-; rewrite get_set2 in Hs' by done;
    [|discriminate]. injection Hs' as <-.
  unfold parse_loop in E.
  apply (loop_inv (parse_step tcptuple dir) (fun x => stream_ts (fst x) = stream_ts s)
    (fun y => match fst y with Keep t => stream_ts t = stream_ts s | _ => True end)) in E;
    [exact E|..|done].
  all: intros [u a] y Hu Hst; unfold parse_step in Hst; cbn in Hu; case_decide; [|simplify_eq; done];
    destruct (redisMessageParser u) as [[v [ok c]]| |] eqn:Ep; simplify_eq; try done;
    apply parser_ts in Ep; destruct ok; cbn [negb] in Hst; simplify_eq; try done;
    destruct c; simplify_eq; try (cbn; congruence).
  all: unfold PrepareForNewMessage in Hst; destruct (sl_from _ _); cbn [obind] in Hst; simplify_eq;
    try done; unfold stream_ts in *; cbn; congruence.
Qed.

End Timestamps.

(** * Transactions *)

Section Transactions.
Context {UC : Unicode} {W : Type} {PW : ProcWatcher W}.

(** Every pending transaction is filed under its own tuple, has received its
    request and has a running timer that will remove it. *)
Definition Redis_ok (redis : Redis) : Prop :=
  map_Forall (fun k t => TcpHashable (t_tuple t) = k /\ t_timer t = true /\ is_Some (t_Redis t))
    (transactionsMap redis).

Definition sent (redis : Redis) : list MapStr := default [] (results redis).

Lemma request_ok redis m tuple c : Redis_ok redis -> Redis_ok (receivedRedisRequest redis m tuple c).
Proof.
  intros H. unfold receivedRedisRequest. destruct (endpoints _ _ _) as [src dst].
  apply map_Forall_insert_2; [|exact H].
  destruct (transactionsMap redis !! TcpHashable tuple) as [t|] eqn:E; [|by repeat split].
  apply H in E as (E & _). by repeat split.
Qed.

Lemma publish_map redis t : transactionsMap (publishTransaction redis t) = transactionsMap redis.
Proof. unfold publishTransaction. by destruct (results redis). Qed.

Lemma publish_sent redis t : (length (sent (publishTransaction redis t)) <= S (length (sent redis)))%nat.
Proof.
  unfold publishTransaction, sent. destruct (results redis) as [l|] eqn:E; [|rewrite E; cbn; lia].
  cbn. rewrite length_app. cbn. lia.
Qed.

Lemma response_ok redis m tuple : Redis_ok redis -> Redis_ok (receivedRedisResponse redis m tuple).
Proof.
  intros H. unfold receivedRedisResponse.
  destruct (transactionsMap redis !! TcpHashable tuple) as [t|]; [|done].
  destruct (t_Redis t) as [r|]; [|done]. cbv zeta. unfold Redis_ok.
  match goal with |- context [publishTransaction redis ?t'] => set (t1 := t') end.
  change (map_Forall (fun k t => TcpHashable (t_tuple t) = k /\ t_timer t = true /\ is_Some (t_Redis t))
    (delete (TcpHashable (t_tuple t1)) (transactionsMap (publishTransaction redis t1)))).
  rewrite publish_map. by apply map_Forall_delete.
Qed.

(** What happens to the plugin: a complete message arrives, or a timer runs. *)
Inductive action :=
| AMessage (m : RedisMessage) (tuple : TcpTuple) (dir : Z)
| ATimer (key : bytes).

Definition exec (st : Redis * W) (a : action) : Redis * W :=
  match a with
  | AMessage m tuple dir => handleRedis st m tuple dir
  | ATimer key =>
      match transactionsMap (fst st) !! key with
      | Some t => if t_timer t then (expireTransaction (fst st) t, snd st) else st
      | None => st
      end
  end.

Definition is_request (a : action) : bool :=
  match a with AMessage m _ _ => m_IsRequest m | ATimer _ => false end.
Definition requests (acts : list action) : nat := length (List.filter is_request acts).

(** Events sent and transactions pending. *)
Definition weight (redis : Redis) : nat := (length (sent redis) + size (transactionsMap redis))%nat.

Lemma request_weight redis m tuple c : (weight (receivedRedisRequest redis m tuple c) <= S (weight redis))%nat.
Proof.
  unfold receivedRedisRequest, weight, sent. destruct (endpoints _ _ _) as [src dst]. cbn.
  rewrite map_size_insert. destruct (transactionsMap redis !! TcpHashable tuple); cbn; lia.
Qed.

Lemma response_weight redis m tuple :
  Redis_ok redis -> (weight (receivedRedisResponse redis m tuple) <= weight redis)%nat.
Proof.
  intros Hok. unfold receivedRedisResponse.
  destruct (transactionsMap redis !! TcpHashable tuple) as [t|] eqn:Et; [|done].
  destruct (Hok _ _ Et) as (Hk & _ & _). destruct (t_Redis t) as [r|]; [|done]. cbv zeta.
  match goal with |- context [publishTransaction redis ?t'] => set (t1 := t') end.
  unfold weight. cbn [transactionsMap]. pose proof (publish_sent redis t1).
  change (sent (publishTransaction redis t1 <| transactionsMap := ?x |>))
    with (sent (publishTransaction redis t1)).
  change (transactionsMap (_ <| transactionsMap := ?x |>)) with x.
  rewrite publish_map. change (t_tuple t1) with (t_tuple t). rewrite Hk, map_size_delete, Et. cbn.
  assert (size (transactionsMap redis) <> 0%nat); [|lia].
  intros E. apply map_size_empty_inv in E. by rewrite E in Et.
Qed.

Lemma exec_step st a :
  Redis_ok (fst st) ->
  Redis_ok (fst (exec st a)) /\
  (weight (fst (exec st a)) <= weight (fst st) + (if is_request a then 1 else 0))%nat.
Proof.
  destruct st as [redis w]. intros Hok. destruct a as [m tuple dir|key]; cbn [exec is_request fst].
  - unfold handleRedis. destruct (FindProcessesTuple (IpPort tuple) w) as [c w'].
    cbv zeta. set (m' := m <| m_TcpTuple := _ |> <| m_Direction := _ |> <| m_CmdlineTuple := _ |>).
    change (m_IsRequest m') with (m_IsRequest m). destruct (m_IsRequest m); cbn [fst].
    + split; [by apply request_ok|]. pose proof (request_weight redis m' tuple c). lia.
    + split; [by apply response_ok|]. pose proof (response_weight redis m' tuple Hok). lia.
  - destruct (transactionsMap redis !! key) as [t|]; [|split; [done|cbn [fst]; lia]].
    destruct (t_timer t); [|split; [done|cbn [fst]; lia]]. cbn [fst snd].
    split; [by apply map_Forall_delete|].
    unfold weight, expireTransaction, sent. cbn. rewrite map_size_delete.
    destruct (transactionsMap redis !! _); cbn; lia.
Qed.

(** Over any interleaving of messages and timers every pending transaction stays
    well formed (so its timer can remove it), and the events published never
    outnumber the requests seen: a request is answered at most once. *)
Theorem transactions_invariant acts st :
  Redis_ok (fst st) ->
  let st' := foldl exec st acts in
  Redis_ok (fst st') /\
  (length (sent (fst st')) + size (transactionsMap (fst st')) <=
   length (sent (fst st)) + size (transactionsMap (fst st)) + requests acts)%nat /\
  (forall k t, transactionsMap (fst st') !! k = Some t ->
     transactionsMap (fst (exec st' (ATimer k))) = delete k (transactionsMap (fst st'))).
Proof.
  intros Hok. cbv zeta. split; [|split].
  - revert st Hok. induction acts as [|a acts IH]; intros st Hok; [done|]. apply IH.
    by apply exec_step.
  - revert st Hok. induction acts as [|a acts IH]; intros st Hok; cbn [foldl]; [cbn; lia|].
    destruct (exec_step st a Hok) as [Hok' Hw]. specialize (IH _ Hok').
    unfold weight, requests in *. cbn [List.filter]. destruct (is_request a); cbn [length]; lia.
  - assert (Redis_ok (fst (foldl exec st acts))) as Hf.
    { revert st Hok. induction acts as [|a acts IH]; intros st Hok; [done|]. apply IH.
      by apply exec_step. }
    revert Hf. generalize (foldl exec st acts). intros [redis w] Hf k t Hk. cbn [fst] in *.
    destruct (Hf _ _ Hk) as (Hkey & Htm & _). unfold exec. cbn [fst]. rewrite Hk, Htm.
    unfold expireTransaction. cbn. by rewrite Hkey.
Qed.

(** The event of an exchange: of the plugin only its channel and the entry of the connection
    change. *)
Definition describes (redis : Redis) (req resp : RedisMessage) (src dst : Endpoint) (event : MapStr) : Prop :=
  event !! bs "type" = Some (MStr (bs "redis")) /\
  event !! bs "timestamp" = Some (MTime (m_Ts req)) /\
  event !! bs "method" = Some (MStr (ToUpper (m_Method req))) /\
  event !! bs "resource" = Some (MStr (m_Path req)) /\
  event !! bs "query" = Some (MStr (m_Message req)) /\
  event !! bs "bytes_in" = Some (MInt (uint64_of (m_Size req))) /\
  event !! bs "bytes_out" = Some (MInt (uint64_of (m_Size resp))) /\
  event !! bs "status" = Some (MStr (if m_IsError resp then ERROR_STATUS else OK_STATUS)) /\
  event !! bs "responsetime" = Some (MInt (millis32 (time_Sub (m_Ts resp) (m_Ts req)))) /\
  event !! bs "redis" = Some (MMap {[ (if m_IsError resp then bs "error" else bs "return_value")
                                     := MStr (m_Message resp) ]}) /\
  event !! bs "src" = Some (MEndpoint src) /\ event !! bs "dst" = Some (MEndpoint dst) /\
  event !! bs "request" = (if Send_request redis then Some (MStr (m_Message req)) else None) /\
  event !! bs "response" = (if Send_response redis then Some (MStr (m_Message resp)) else None).

Lemma exchange redis l req resp tuple c :
  Redis_ok redis -> results redis = Some l ->
  let '(src, dst) := endpoints tuple c (m_Direction req) in
  exists event, describes redis req resp src dst event /\
    receivedRedisResponse (receivedRedisRequest redis req tuple c) resp tuple =
    redis <| transactionsMap := delete (TcpHashable tuple) (transactionsMap redis) |> <| results := Some (l ++ [event]) |>.
Proof.
  intros Hok Hl. unfold receivedRedisRequest. destruct (endpoints tuple c (m_Direction req)) as [src dst].
  set (t0 := match transactionsMap redis !! TcpHashable tuple with Some _ => _ | None => _ end).
  assert (TcpHashable (t_tuple t0) = TcpHashable tuple) as Hk.
  { subst t0. destruct (transactionsMap redis !! TcpHashable tuple) eqn:E; [|done].
    by apply Hok in E as (-> & _). }
  clearbody t0. unfold receivedRedisResponse.
  match goal with |- context [<[TcpHashable tuple := ?t]> (transactionsMap redis)] => set (t1 := t) end.
  change (transactionsMap (redis <| transactionsMap := ?x |>)) with x.
  rewrite lookup_insert_eq. change (t_Redis t1) with (Some (∅ : MapStr)). cbv iota zeta.
  unfold publishTransaction.
  change (results (redis <| transactionsMap := _ |>)) with (results redis). rewrite Hl.
  match goal with |- context [l ++ [?e]] => set (event := e) end. exists event. split; cycle 1.
  { assert (delete (TcpHashable (t_tuple t0)) (<[TcpHashable tuple := t1]> (transactionsMap redis)) =
            delete (TcpHashable tuple) (transactionsMap redis)) as E by (rewrite Hk; apply delete_insert_eq).
    rewrite <- E. reflexivity. }
  subst event.
  unfold describes. repeat match goal with |- _ /\ _ => split end; repeat (rewrite lookup_insert_eq || rewrite lookup_insert_ne by done); try done.
  all: cbn; destruct (m_IsError resp), (Send_request redis), (Send_response redis);
    repeat (rewrite lookup_insert_eq || rewrite lookup_insert_ne by done); done.
Qed.

(** A request and the response that follows it on the same connection become one
    event, with the request's method, path and query and the response's size and
    status; nothing is left pending. *)
Theorem request_response_published redis l req resp tuple c :
  Redis_ok redis -> results redis = Some l ->
  let redis' := receivedRedisResponse (receivedRedisRequest redis req tuple c) resp tuple in
  let '(src, dst) := endpoints tuple c (m_Direction req) in
  exists event, results redis' = Some (l ++ [event]) /\
    transactionsMap redis' = delete (TcpHashable tuple) (transactionsMap redis) /\
    event !! bs "method" = Some (MStr (ToUpper (m_Method req))) /\
    event !! bs "resource" = Some (MStr (m_Path req)) /\
    event !! bs "query" = Some (MStr (m_Message req)) /\
    event !! bs "bytes_in" = Some (MInt (uint64_of (m_Size req))) /\
    event !! bs "bytes_out" = Some (MInt (uint64_of (m_Size resp))) /\
    event !! bs "status" = Some (MStr (if m_IsError resp then ERROR_STATUS else OK_STATUS)) /\
    event !! bs "responsetime" = Some (MInt (millis32 (time_Sub (m_Ts resp) (m_Ts req)))) /\
    event !! bs "redis" = Some (MMap {[ (if m_IsError resp then bs "error" else bs "return_value")
                                       := MStr (m_Message resp) ]}) /\
    event !! bs "src" = Some (MEndpoint src) /\ event !! bs "dst" = Some (MEndpoint dst) /\
    event !! bs "request" = (if Send_request redis then Some (MStr (m_Message req)) else None) /\
    event !! bs "response" = (if Send_response redis then Some (MStr (m_Message resp)) else None).
Proof.
  intros Hok Hl. pose proof (exchange redis l req resp tuple c Hok Hl) as H. cbv zeta. revert H.
  destruct (endpoints tuple c (m_Direction req)) as [src dst]. intros (event & (_ & _ & H) & ->). by exists event.
Qed.

End Transactions.

(** * Witnesses *)

#[local] Existing Instance Demo.unicode.
#[local] Existing Instance Demo.runtime.
#[local] Existing Instance Demo.watcher.

Definition demo_redis : Redis :=
  Init {| Ports := []; Send_request := true; Send_response := true;
          transactionsMap := ∅; results := None |} true
    {| cfg_Ports := []; cfg_Send_request := None; cfg_Send_response := None |} (Some []).
Definition demo_request : bytes := encode_request [bs "SET"; bs "k"; bs "v"].
Definition demo_stream : RedisStream :=
  received (Demo.packet 1 demo_request) Demo.tuple None.

Lemma Parse_total_witness :
  exists priv' st', Parse (Demo.packet 1 (bs "*1")) Demo.tuple 1 None (demo_redis, tt)
    = Ret (Some priv', st') /\ priv_ok (Some priv').
Proof.
  apply Parse_total; [right; reflexivity|].
  intros dir s. unfold get2. cbn. repeat case_decide; discriminate.
Defined.

Lemma Parse_segmentation_witness :
  exists p p' st2,
    Parse (Demo.packet 1 demo_request) Demo.tuple 1 None (demo_redis, tt) = Ret (p, st2) /\
    Parse (Demo.packet 2 (drop 10 demo_request)) Demo.tuple 1
      (Some (set2 nil2 1 (Some (received (Demo.packet 1 (take 10 demo_request)) Demo.tuple None
         <| s_parseOffset := 4 |>
         <| s_message := newMessage 1 <| m_NumberOfBulks := 3 |> |>)))) (demo_redis, tt)
      = Ret (p', st2) /\
    priv_equiv p p'.
Proof.
  eapply (Parse_segmentation (Demo.packet 1 (take 10 demo_request))).
  - right; reflexivity.
  - intros dir s. unfold get2. cbn. repeat case_decide; discriminate.
  - reflexivity.
  - vm_compute. reflexivity.
  - vm_compute. reflexivity.
  - reflexivity.
  - intros old [= <-]. split; [reflexivity|].
    intros [|k] s st' H; [injection H as <- <-; vm_compute; reflexivity|].
    vm_compute in H. discriminate.
  - vm_compute. reflexivity.
Defined.

(** A command is read; the same with a line end in its value is not. *)
Lemma request_roundtrip_witness :
  redisMessageParser demo_stream =
    Ret (demo_stream <| s_parseOffset := 27 |>
           <| s_message := complete_request (newMessage 1) [bs "SET"; bs "k"; bs "v"] 27 |>, (true, true)) /\
  exists s', redisMessageParser (demo_stream <| s_data := mkSlice (encode_request [bs "SET"; bs "k"; CRLF]) [] |>) = Ret (s', (false, false)).
Proof.
  split.
  - apply (request_roundtrip demo_stream [] [bs "SET"; bs "k"; bs "v"] []); [discriminate| | | | |by repeat constructor];
      [repeat constructor; vm_compute; reflexivity|reflexivity|vm_compute; reflexivity|reflexivity].
  - apply (request_roundtrip (demo_stream <| s_data := mkSlice (encode_request [bs "SET"; bs "k"; CRLF]) [] |>) [] [bs "SET"; bs "k"; CRLF] []);
      [discriminate| | | | |by right; right; left];
      [repeat constructor; vm_compute; reflexivity|reflexivity|vm_compute; reflexivity|reflexivity].
Defined.

Lemma stream_timestamp_frozen_witness :
  exists priv' st' s',
    Parse (Demo.packet 99 (bs "*1")) Demo.tuple 1 (Some (set2 nil2 1 (Some demo_stream))) (demo_redis, tt)
      = Ret (Some priv', st') /\
    get2 priv' 1 = Ret (Some s') /\ m_Ts (s_message s') = 1.
Proof.
  do 3 eexists. split; [vm_compute; reflexivity|]. split; [reflexivity|].
  transitivity (m_Ts (s_message demo_stream)); [|reflexivity].
  eapply (stream_timestamp_frozen (Demo.packet 99 (bs "*1")) Demo.tuple 1 (set2 nil2 1 (Some demo_stream))
    (demo_redis, tt)); [right; reflexivity|reflexivity|vm_compute; reflexivity|reflexivity].
Defined.

Lemma transactions_invariant_witness :
  let acts := [AMessage (complete_request (newMessage 1) [bs "GET"; bs "k"] 9) Demo.tuple 1;
               ATimer (TcpHashable Demo.tuple)] in
  let st' := foldl exec (demo_redis, tt) acts in
  (length (sent (fst st')) + size (transactionsMap (fst st')) <= 1)%nat.
Proof.
  intros acts. eapply (transactions_invariant acts (demo_redis, tt)). apply map_Forall_empty.
Defined.

Lemma request_response_published_witness :
  exists event, results (receivedRedisResponse
    (receivedRedisRequest demo_redis (complete_request (newMessage 1) [bs "GET"; bs "k"] 9) Demo.tuple
      {| ct_Src := []; ct_Dst := [] |})
    (newMessage 5 <| m_Message := bs "v" |>) Demo.tuple) = Some [event] /\
    event !! bs "method" = Some (MStr (bs "GET")).
Proof.
  destruct (request_response_published demo_redis [] (complete_request (newMessage 1) [bs "GET"; bs "k"] 9)
    (newMessage 5 <| m_Message := bs "v" |>) Demo.tuple {| ct_Src := []; ct_Dst := [] |}
    ltac:(apply map_Forall_empty) ltac:(reflexivity)) as (ev & H1 & _ & H2 & _).
  exists ev. split; [exact H1|exact H2].
Defined.
