(* ===== verification/Mysql.v ===== *)
(** The MySQL protocol plugin (src/protos/mysql/mysql.go): the packet parser with
    its four states, the result set reader, the correlation of queries and
    responses, and their publication. *)
From S2P Require Export Protos.

(** * Data *)

Definition MYSQL_CMD_QUERY : Z := 3.
Definition MAX_PAYLOAD_SIZE : Z := 100 * 1024.

Record MysqlMessage := {
  m_start : Z;
  m_end : Z;
  m_Ts : Z;
  m_IsRequest : bool;
  m_PacketLength : Z;
  m_Seq : Z;
  m_Typ : Z;
  m_NumberOfRows : Z;
  m_NumberOfFields : Z;
  m_Size : Z;
  m_Fields : list bytes;
  m_Rows : list (list bytes);
  m_Tables : bytes;
  m_IsOK : bool;
  m_AffectedRows : Z;
  m_InsertId : Z;
  m_IsError : bool;
  m_ErrorCode : Z;
  m_ErrorInfo : bytes;
  m_Query : bytes;
  m_IgnoreMessage : bool;
  m_Direction : Z;
  m_IsTruncated : bool;
  m_TcpTuple : option TcpTuple;          (* None: the zero tuple *)
  m_CmdlineTuple : option CmdlineTuple;  (* None: nil *)
  m_Raw : bytes
}.
#[export] Instance eta_MysqlMessage : Settable MysqlMessage := fun r =>
  {| m_start := m_start r; m_end := m_end r; m_Ts := m_Ts r; m_IsRequest := m_IsRequest r;
     m_PacketLength := m_PacketLength r; m_Seq := m_Seq r; m_Typ := m_Typ r;
     m_NumberOfRows := m_NumberOfRows r; m_NumberOfFields := m_NumberOfFields r;
     m_Size := m_Size r; m_Fields := m_Fields r; m_Rows := m_Rows r; m_Tables := m_Tables r;
     m_IsOK := m_IsOK r; m_AffectedRows := m_AffectedRows r; m_InsertId := m_InsertId r;
     m_IsError := m_IsError r; m_ErrorCode := m_ErrorCode r; m_ErrorInfo := m_ErrorInfo r;
     m_Query := m_Query r; m_IgnoreMessage := m_IgnoreMessage r; m_Direction := m_Direction r;
     m_IsTruncated := m_IsTruncated r; m_TcpTuple := m_TcpTuple r;
     m_CmdlineTuple := m_CmdlineTuple r; m_Raw := m_Raw r |}.

(** [&MysqlMessage{Ts: ts}]. *)
Definition newMessage (ts : Z) : MysqlMessage :=
  {| m_start := 0; m_end := 0; m_Ts := ts; m_IsRequest := false; m_PacketLength := 0; m_Seq := 0;
     m_Typ := 0; m_NumberOfRows := 0; m_NumberOfFields := 0; m_Size := 0; m_Fields := [];
     m_Rows := []; m_Tables := []; m_IsOK := false; m_AffectedRows := 0; m_InsertId := 0;
     m_IsError := false; m_ErrorCode := 0; m_ErrorInfo := []; m_Query := []; m_IgnoreMessage := false;
     m_Direction := 0; m_IsTruncated := false; m_TcpTuple := None; m_CmdlineTuple := None; m_Raw := [] |}.

Record MysqlTransaction := {
  t_Type : bytes;
  t_tuple : TcpTuple;
  t_Src : Endpoint;
  t_Dst : Endpoint;
  t_ResponseTime : Z;
  t_Ts : Z;
  t_JsTs : Z;
  t_ts : Z;
  t_Query : bytes;
  t_Method : bytes;
  t_Path : bytes;
  t_Size : Z;
  t_Mysql : option MapStr;               (* None: nil map *)
  t_Request_raw : bytes;
  t_Response_raw : bytes;
  t_timer : bool                         (* a running timer that will expire the transaction *)
}.
#[export] Instance eta_MysqlTransaction : Settable MysqlTransaction := fun r =>
  {| t_Type := t_Type r; t_tuple := t_tuple r; t_Src := t_Src r; t_Dst := t_Dst r;
     t_ResponseTime := t_ResponseTime r; t_Ts := t_Ts r; t_JsTs := t_JsTs r; t_ts := t_ts r;
     t_Query := t_Query r; t_Method := t_Method r; t_Path := t_Path r; t_Size := t_Size r;
     t_Mysql := t_Mysql r; t_Request_raw := t_Request_raw r; t_Response_raw := t_Response_raw r;
     t_timer := t_timer r |}.

Definition noEndpoint : Endpoint := mkEndpoint [] 0 [].

(** [&MysqlTransaction{Type: "mysql", tuple: tuple}]. *)
Definition newTransaction (tuple : TcpTuple) : MysqlTransaction :=
  {| t_Type := bs "mysql"; t_tuple := tuple; t_Src := noEndpoint; t_Dst := noEndpoint;
     t_ResponseTime := 0; t_Ts := 0; t_JsTs := 0; t_ts := 0; t_Query := []; t_Method := [];
     t_Path := []; t_Size := 0; t_Mysql := None; t_Request_raw := []; t_Response_raw := [];
     t_timer := false |}.

Inductive MysqlState := MysqlStateStart | MysqlStateEatMessage | MysqlStateEatFields | MysqlStateEatRows.

(** Every slice expression of the package on the stream's data is bounded by the
    length, not only by the capacity, so the data are their visible bytes. *)
Record MysqlStream := {
  s_tcptuple : TcpTuple;
  s_data : bytes;
  s_parseOffset : Z;
  s_parseState : MysqlState;
  s_isClient : bool;
  s_message : option MysqlMessage        (* None: nil *)
}.
#[export] Instance eta_MysqlStream : Settable MysqlStream := fun r =>
  {| s_tcptuple := s_tcptuple r; s_data := s_data r; s_parseOffset := s_parseOffset r;
     s_parseState := s_parseState r; s_isClient := s_isClient r; s_message := s_message r |}.

(** The plugin; [results] is what has been sent on the channel, [None] for a nil
    channel. *)
Record Mysql := {
  Ports : list Z;
  maxStoreRows : Z;
  maxRowLength : Z;
  Send_request : bool;
  Send_response : bool;
  transactionsMap : gmap bytes MysqlTransaction;
  results : option (list MapStr)
}.
#[export] Instance eta_Mysql : Settable Mysql := fun r =>
  {| Ports := Ports r; maxStoreRows := maxStoreRows r; maxRowLength := maxRowLength r;
     Send_request := Send_request r; Send_response := Send_response r;
     transactionsMap := transactionsMap r; results := results r |}.

(** [config.Mysql]: a nil pointer is an option not set. *)
Record ConfigMysql := {
  cfg_Ports : list Z;
  cfg_Max_row_length : option Z;
  cfg_Max_rows : option Z;
  cfg_Send_request : option bool;
  cfg_Send_response : option bool
}.

Definition InitDefaults (mysql : Mysql) : Mysql :=
  mysql <| maxRowLength := 1024 |> <| maxStoreRows := 10 |>
        <| Send_request := false |> <| Send_response := false |>.

Definition setFromConfig (mysql : Mysql) (config : ConfigMysql) : Mysql :=
  let mysql := mysql <| Ports := cfg_Ports config |> in
  let mysql := match cfg_Max_row_length config with
               | Some n => mysql <| maxRowLength := n |> | None => mysql end in
  let mysql := match cfg_Max_rows config with
               | Some n => mysql <| maxStoreRows := n |> | None => mysql end in
  let mysql := match cfg_Send_request config with
               | Some b => mysql <| Send_request := b |> | None => mysql end in
  match cfg_Send_response config with
  | Some b => mysql <| Send_response := b |> | None => mysql end.

Definition Init (mysql : Mysql) (test_mode : bool) (config : ConfigMysql)
    (results_chan : option (list MapStr)) : Mysql :=
  let mysql := InitDefaults mysql in
  let mysql := if test_mode then mysql else setFromConfig mysql config in
  mysql <| transactionsMap := ∅ |> <| results := results_chan |>.

(** * Length-encoded values *)

Inductive linteger_error := UnexpectedValue.

(** [len(data[offset:])], for an offset within the data. *)
Definition rest_len (data : bytes) (offset : Z) : Z := len data - offset.

(** (value, next offset, complete, error).  The eight-byte form is written as the
    source writes it: byte [offset+2] twice, byte [offset+8] not at all. *)
Definition read_linteger (data : bytes) (offset : Z) : outcome (Z * Z * bool * option linteger_error) :=
  if decide (len data = 0) then Ret (0, 0, false, None)
  else
    let! b := at_ data offset in
    if decide (u8 b = 254) then
      if decide (rest_len data (offset + 1) < 8) then Ret (0, 0, false, None)
      else
        let! b1 := at_ data (offset + 1) in
        let! b2 := at_ data (offset + 2) in
        let! b3 := at_ data (offset + 3) in
        let! b4 := at_ data (offset + 4) in
        let! b5 := at_ data (offset + 5) in
        let! b6 := at_ data (offset + 6) in
        let! b7 := at_ data (offset + 7) in
        let v := Z.lor (u8 b1) (Z.shiftl (u8 b2) 8) in
        let v := Z.lor v (Z.shiftl (u8 b2) 16) in
        let v := Z.lor v (Z.shiftl (u8 b3) 24) in
        let v := Z.lor v (Z.shiftl (u8 b4) 32) in
        let v := Z.lor v (Z.shiftl (u8 b5) 40) in
        let v := Z.lor v (Z.shiftl (u8 b6) 48) in
        let v := Z.lor v (Z.shiftl (u8 b7) 56) in
        Ret (v, offset + 9, true, None)
    else if decide (u8 b = 253) then
      if decide (rest_len data (offset + 1) < 3) then Ret (0, 0, false, None)
      else
        let! b1 := at_ data (offset + 1) in
        let! b2 := at_ data (offset + 2) in
        let! b3 := at_ data (offset + 3) in
        Ret (Z.lor (Z.lor (u8 b1) (Z.shiftl (u8 b2) 8)) (Z.shiftl (u8 b3) 16), offset + 4, true, None)
    else if decide (u8 b = 252) then
      if decide (rest_len data (offset + 1) < 2) then Ret (0, 0, false, None)
      else
        let! b1 := at_ data (offset + 1) in
        let! b2 := at_ data (offset + 2) in
        Ret (Z.lor (u8 b1) (Z.shiftl (u8 b2) 8), offset + 3, true, None)
    else if decide (251 <= u8 b) then Ret (0, 0, false, Some UnexpectedValue)
    else Ret (u8 b, offset + 1, true, None).

(** [int(length)] of a [uint64] may be negative; [data[off:]] needs [off <= len]. *)
Definition read_lstring (data : bytes) (offset : Z) : outcome (bytes * Z * bool * option linteger_error) :=
  let! '(length, off, complete, err) := read_linteger data offset in
  match err with
  | Some e => Ret ([], 0, false, Some e)
  | None =>
      if negb complete then Ret ([], 0, false, None)
      else
        let! tail := str_from data off in
        if decide (len tail < int_of length) then Ret ([], 0, false, None)
        else
          let! s := str_slice data off (off + int_of length) in
          Ret (s, off + int_of length, true, None)
  end.

(** The 3-byte little-endian length of a packet header. *)
Definition length24 (b0 b1 b2 : byte) : Z :=
  Z.lor (Z.lor (u8 b0) (Z.shiftl (u8 b1) 8)) (Z.shiftl (u8 b2) 16).

Definition read_length (data : bytes) (offset : Z) : outcome Z :=
  let! b0 := at_ data offset in
  let! b1 := at_ data (offset + 1) in
  let! b2 := at_ data (offset + 2) in
  Ret (length24 b0 b1 b2).

(** * The message parser *)

Definition PrepareForNewMessage (s : MysqlStream) : outcome MysqlStream :=
  match s_message s with
  | None => Panic
  | Some m =>
      let! data := str_from (s_data s) (m_end m) in
      Ret (s <| s_data := data |> <| s_parseState := MysqlStateStart |> <| s_parseOffset := 0 |>
             <| s_isClient := false |> <| s_message := None |>)
  end.

(** A turn of the parser's loop: go on, or return (ok, complete). *)
Definition turn : Type := outcome (MysqlStream * MysqlMessage + MysqlStream * MysqlMessage * (bool * bool)).
Definition go_on (s : MysqlStream) (m : MysqlMessage) : turn := Ret (inl (s, m)).
Definition give (s : MysqlStream) (m : MysqlMessage) (ok complete : bool) : turn :=
  Ret (inr (s, m, (ok, complete))).
Definition wait (s : MysqlStream) (m : MysqlMessage) : turn := give s m true false.

Definition eat_start (s : MysqlStream) (m : MysqlMessage) : turn :=
  let m := m <| m_start := s_parseOffset s |> in
  if decide (rest_len (s_data s) (s_parseOffset s) < 5) then give s m false false
  else
    let! h0 := at_ (s_data s) (s_parseOffset s) in
    let! h1 := at_ (s_data s) (s_parseOffset s + 1) in
    let! h2 := at_ (s_data s) (s_parseOffset s + 2) in
    let! h3 := at_ (s_data s) (s_parseOffset s + 3) in
    let! h4 := at_ (s_data s) (s_parseOffset s + 4) in
    let m := m <| m_PacketLength := length24 h0 h1 h2 |> <| m_Seq := u8 h3 |> <| m_Typ := u8 h4 |> in
    if decide (m_Seq m = 0) then
      let m := if decide (m_Typ m = MYSQL_CMD_QUERY)
               then m <| m_IsRequest := true |> <| m_start := s_parseOffset s |>
               else m <| m_IgnoreMessage := true |> in
      go_on (s <| s_parseState := MysqlStateEatMessage |> <| s_isClient := true |>) m
    else if negb (s_isClient s) then
      let m := m <| m_IsRequest := false |> in
      if decide (u8 h4 = 0 \/ u8 h4 = 254) then
        go_on (s <| s_parseState := MysqlStateEatMessage |>)
              (m <| m_start := s_parseOffset s |> <| m_IsOK := true |>)
      else if decide (u8 h4 = 255) then
        go_on (s <| s_parseState := MysqlStateEatMessage |>)
              (m <| m_start := s_parseOffset s |> <| m_IsError := true |>)
      else if decide (m_PacketLength m = 1) then
        go_on (s <| s_parseOffset := s_parseOffset s + 5 |> <| s_parseState := MysqlStateEatFields |>)
              (m <| m_NumberOfFields := u8 h4 |> <| m_start := s_parseOffset s |>)
      else
        go_on (s <| s_parseState := MysqlStateEatMessage |>) (m <| m_IgnoreMessage := true |>)
    else give s m false false.

(** [read_linteger] or [read_lstring] as the parser calls them: an incomplete value
    waits for more data (an error is also incomplete, so the test for it after
    this one never succeeds). *)
Definition wanted {A} (r : outcome (A * Z * bool * option linteger_error))
    (s : MysqlStream) (m : MysqlMessage) (k : A -> Z -> turn) : turn :=
  let! '(v, off, complete, err) := r in
  if negb complete then wait s m
  else match err with
       | Some _ => give s m false false
       | None => k v off
       end.

(** The content of a complete packet, which ends at [m.end]. *)
Definition message_content (s : MysqlStream) (m : MysqlMessage) : turn :=
  if m_IsRequest m then
    let! query := str_slice (s_data s) (m_start m + 5) (m_end m) in
    give s (m <| m_Query := query |>) true true
  else if m_IsOK m then
    wanted (read_linteger (s_data s) (m_start m + 5)) s m (fun affectedRows off =>
    let m := m <| m_AffectedRows := affectedRows |> in
    wanted (read_linteger (s_data s) off) s m (fun insertId _ =>
    give s (m <| m_InsertId := insertId |>) true true))
  else if m_IsError m then
    let! hi := at_ (s_data s) (m_start m + 6) in
    let! lo := at_ (s_data s) (m_start m + 5) in
    let m := m <| m_ErrorCode := Z.lor (Z.shiftl (u8 hi) 8) (u8 lo) |> in
    let! state := str_slice (s_data s) (m_start m + 8) (m_start m + 13) in
    let! text := str_from (s_data s) (m_start m + 13) in
    give s (m <| m_ErrorInfo := state ++ bs ": " ++ text |>) true true
  else give s m true true.

Definition eat_message (s : MysqlStream) (m : MysqlMessage) : turn :=
  if decide (m_PacketLength m + 4 <= rest_len (s_data s) (s_parseOffset s)) then
    let s := s <| s_parseOffset := s_parseOffset s + 4 + m_PacketLength m |> in
    message_content s (m <| m_end := s_parseOffset s |>)
  else wait s m.

(** The tables named so far with one more. *)
Definition add_table (tables db_table : bytes) : bytes :=
  if decide (len tables = 0) then db_table
  else if negb (Contains tables db_table) then tables ++ bs ", " ++ db_table
  else tables.

Definition read_header (s : MysqlStream) (m : MysqlMessage) : outcome MysqlMessage :=
  let! h0 := at_ (s_data s) (s_parseOffset s) in
  let! h1 := at_ (s_data s) (s_parseOffset s + 1) in
  let! h2 := at_ (s_data s) (s_parseOffset s + 2) in
  let! h3 := at_ (s_data s) (s_parseOffset s + 3) in
  Ret (m <| m_PacketLength := length24 h0 h1 h2 |> <| m_Seq := u8 h3 |>).

Definition eat_fields (s : MysqlStream) (m : MysqlMessage) : turn :=
  if decide (rest_len (s_data s) (s_parseOffset s) < 4) then wait s m
  else
    let! m := read_header s m in
    if decide (m_PacketLength m + 4 <= rest_len (s_data s) (s_parseOffset s)) then
      let s := s <| s_parseOffset := s_parseOffset s + 4 |> in
      let! c := at_ (s_data s) (s_parseOffset s) in
      if decide (u8 c = 254) then
        go_on (s <| s_parseOffset := s_parseOffset s + m_PacketLength m |>
                 <| s_parseState := MysqlStateEatRows |>) m
      else
        wanted (read_lstring (s_data s) (s_parseOffset s)) s m (fun _ off =>
        wanted (read_lstring (s_data s) off) s m (fun db off =>
        wanted (read_lstring (s_data s) off) s m (fun table off =>
        go_on (s <| s_parseOffset := s_parseOffset s + m_PacketLength m |>)
              (m <| m_Tables := add_table (m_Tables m) (db ++ bs "." ++ table) |>))))
    else wait s m.

Definition eat_rows (s : MysqlStream) (m : MysqlMessage) : turn :=
  if decide (rest_len (s_data s) (s_parseOffset s) < 4) then wait s m
  else
    let! m := read_header s m in
    if decide (m_PacketLength m + 4 <= rest_len (s_data s) (s_parseOffset s)) then
      let s := s <| s_parseOffset := s_parseOffset s + 4 |> in
      let! c := at_ (s_data s) (s_parseOffset s) in
      let s := s <| s_parseOffset := s_parseOffset s + m_PacketLength m |> in
      if decide (u8 c = 254) then
        let m := if decide (m_end m = 0) then m <| m_end := s_parseOffset s |>
                 else m <| m_IsTruncated := true |> in
        let m := m <| m_Size := uint64_of (s_parseOffset s - m_start m) |> in
        let m := if negb (m_IsError m) then m <| m_IsOK := true |> else m in
        give s m true true
      else
        let m := if decide (m_end m = 0 /\ s_parseOffset s > MAX_PAYLOAD_SIZE)
                 then m <| m_end := s_parseOffset s |> else m in
        go_on s (m <| m_NumberOfRows := m_NumberOfRows m + 1 |>)
    else wait s m.

Definition parser_step (x : MysqlStream * MysqlMessage) : turn :=
  let '(s, m) := x in
  if decide (s_parseOffset s < len (s_data s)) then
    match s_parseState s with
    | MysqlStateStart => eat_start s m
    | MysqlStateEatMessage => eat_message s m
    | MysqlStateEatFields => eat_fields s m
    | MysqlStateEatRows => eat_rows s m
    end
  else wait s m.

(** Each turn but the one of the start state consumes data. *)
Definition parser_fuel (s : MysqlStream) : nat := S (S (length (s_data s))).

(** (stream with its message, (ok, complete)); a nil message is dereferenced by the
    first turn. *)
Definition mysqlMessageParser (s : MysqlStream) : outcome (MysqlStream * (bool * bool)) :=
  match s_message s with
  | None => if decide (s_parseOffset s < len (s_data s)) then Panic else Ret (s, (true, false))
  | Some m =>
      let! '(s, m, r) := loop parser_step (parser_fuel s) (s, m) in
      Ret (s <| s_message := Some m |>, r)
  end.

(** * Result sets *)

(** The length-encoded strings of a field definition, up to the name and the
    original name; [None] when one of them cannot be read. *)
Fixpoint read_lstrings (data : bytes) (n : nat) (off : Z) : outcome (option (list bytes)) :=
  match n with
  | O => Ret (Some [])
  | S n' =>
      let! '(s, off, complete, err) := read_lstring data off in
      match err with
      | Some _ => Ret None
      | None =>
          if negb complete then Ret None
          else
            let! rest := read_lstrings data n' off in
            Ret (cons s <$> rest)
      end
  end.

(** The loop over the field packets, with (offset, fields): ends at the EOF packet
    with the offset after it, or returns from the function ([None]). *)
Definition fields_step (data : bytes) (x : Z * list bytes)
    : outcome (Z * list bytes + option Z * list bytes) :=
  let '(offset, fields) := x in
  let! length := read_length data offset in
  let! c := at_ data (offset + 4) in
  if decide (u8 c = 254) then Ret (inr (Some (offset + length + 4), fields))
  else
    let! names := read_lstrings data 6 (offset + 4) in
    match names with
    | Some [_; _; _; _; name; _] => Ret (inl (offset + length + 4, fields ++ [name]))
    | _ => Ret (inr (None, fields))
    end.

(** The loop over the values of a row, with (off, row, row_len): ends with the row,
    or returns from the function ([None]).  An incomplete string is not an error
    here: it is taken as empty and [off] becomes 0. *)
Definition row_step (data : bytes) (maxRowLength stop : Z) (x : Z * list bytes * Z)
    : outcome (Z * list bytes * Z + option (list bytes)) :=
  let '(off, row, row_len) := x in
  if decide (off < stop) then
    let! c := at_ data off in
    let! value :=
      if decide (u8 c = 251) then Ret (Some (bs "NULL", off + 1))
      else
        let! '(text, off, complete, err) := read_lstring data off in
        match err with
        | Some _ => Ret None
        | None => Ret (Some (text, off))
        end in
    match value with
    | None => Ret (inr None)
    | Some (text, off) =>
        if decide (row_len < maxRowLength) then
          let! text := if decide (row_len + len text > maxRowLength)
                       then str_slice text 0 (maxRowLength - row_len) else Ret text in
          Ret (inl (off, row ++ [text], row_len + len text))
        else Ret (inl (off, row, row_len))
    end
  else Ret (inr (Some row)).

(** The loop over the row packets, with (offset, rows); [fuel] bounds the inner
    loop, which need not end. *)
Definition rows_step (fuel : nat) (mysql : Mysql) (data : bytes) (x : Z * list (list bytes))
    : outcome (Z * list (list bytes) + list (list bytes)) :=
  let '(offset, rows) := x in
  if decide (offset < len data) then
    let! c := at_ data (offset + 4) in
    if decide (u8 c = 254) then Ret (inr rows)
    else
      let! length := read_length data offset in
      let off := offset + 4 in
      let! row := loop (row_step data (maxRowLength mysql) (off + length)) fuel (off, [], 0) in
      match row with
      | None => Ret (inr rows)
      | Some row =>
          let rows := rows ++ [row] in
          if decide (len rows >= maxStoreRows mysql) then Ret (inr rows)
          else Ret (inl (offset + length + 4, rows))
      end
  else Ret (inr rows).

(** Both outer loops move on by at least four bytes per turn. *)
Definition parseMysqlResponse (fuel : nat) (mysql : Mysql) (data : bytes)
    : outcome (list bytes * list (list bytes)) :=
  let! length := read_length data 0 in
  if decide (length < 1) then Ret ([], [])
  else
    let! c := at_ data 4 in
    if decide (u8 c = 0) then Ret ([], [])
    else if decide (u8 c = 255) then Ret ([], [])
    else
      let! '(offset, fields) := loop (fields_step data) (S (List.length data)) (5, []) in
      match offset with
      | None => Ret (fields, [])
      | Some offset =>
          let! rows := loop (rows_step fuel mysql data) (S (List.length data)) (offset, []) in
          Ret (fields, rows)
      end.

(** * Transactions *)

(** [event["iserror"].(bool)] panics when the map has no such entry. *)
Definition publishMysqlTransaction (mysql : Mysql) (t : MysqlTransaction) : outcome unit * Mysql :=
  match results mysql with
  | None => (Ret tt, mysql)
  | Some sent =>
      match default ∅ (t_Mysql t) !! bs "iserror" with
      | Some (MBool iserror) =>
          let event : MapStr := {[bs "type" := MStr (bs "mysql")]} in
          let event := <[bs "status" := MStr (if iserror : bool then ERROR_STATUS else OK_STATUS)]> event in
          let event := <[bs "responsetime" := MInt (t_ResponseTime t)]> event in
          let event := if Send_request mysql
                       then <[bs "request" := MStr (t_Request_raw t)]> event else event in
          let event := if Send_response mysql
                       then <[bs "response" := MStr (t_Response_raw t)]> event else event in
          let event := <[bs "method" := MStr (t_Method t)]> event in
          let event := <[bs "query" := MStr (t_Query t)]> event in
          let event := <[bs "mysql" := MMap (default ∅ (t_Mysql t))]> event in
          let event := <[bs "path" := MStr (t_Path t)]> event in
          let event := <[bs "bytes_out" := MInt (t_Size t)]> event in
          let event := <[bs "timestamp" := MTime (t_ts t)]> event in
          let event := <[bs "src" := MEndpoint (t_Src t)]> event in
          let event := <[bs "dst" := MEndpoint (t_Dst t)]> event in
          (Ret tt, mysql <| results := Some (sent ++ [event]) |>)
      | _ => (Panic, mysql)
      end
  end.

Definition blanks : bytes := [x20; x0a; x09].

(** The method: the first word of the query, in upper case. *)
Definition query_method {UC : Unicode} (query : bytes) : bytes :=
  let index := IndexAny query blanks in
  if decide (index > 0) then ToUpper (sub query 0 index) else ToUpper query.

(** [msg.TcpTuple] and [msg.CmdlineTuple] are set by [handleMysql] before the message
    reaches the two handlers, which take them as arguments here. *)
Definition receivedMysqlRequest {UC : Unicode} (mysql : Mysql) (msg : MysqlMessage)
    (tuple : TcpTuple) (cmdline : CmdlineTuple) : Mysql :=
  let trans := match transactionsMap mysql !! TcpHashable tuple with
               | Some trans => trans
               | None => newTransaction tuple
               end in
  let '(src, dst) := endpoints tuple cmdline (m_Direction msg) in
  let query := Trim (m_Query msg) blanks in
  let trans := trans <| t_ts := m_Ts msg |>
                     <| t_Ts := micros (m_Ts msg) |>
                     <| t_JsTs := m_Ts msg |>
                     <| t_Src := src |>
                     <| t_Dst := dst |>
                     <| t_Query := query |>
                     <| t_Method := query_method query |>
                     <| t_Mysql := Some ∅ |>
                     <| t_Request_raw := m_Query msg |>
                     <| t_timer := true |> in
  mysql <| transactionsMap := <[TcpHashable tuple := trans]> (transactionsMap mysql) |>.

(** The timer's function. *)
Definition expireTransaction (mysql : Mysql) (trans : MysqlTransaction) : Mysql :=
  mysql <| transactionsMap := delete (TcpHashable (t_tuple trans)) (transactionsMap mysql) |>.

(** What the response adds to the transaction, before its raw form is decoded. *)
Definition response_fields (msg : MysqlMessage) : MapStr :=
  <[bs "affected_rows" := MInt (m_AffectedRows msg)]>
  (<[bs "insert_id" := MInt (m_InsertId msg)]>
  (<[bs "num_rows" := MInt (m_NumberOfRows msg)]>
  (<[bs "num_fields" := MInt (m_NumberOfFields msg)]>
  (<[bs "iserror" := MBool (m_IsError msg)]>
  (<[bs "error_code" := MInt (m_ErrorCode msg)]>
  (<[bs "error_message" := MStr (m_ErrorInfo msg)]> ∅)))))).

(** The transaction is shared with the map through its pointer, so a panic in
    [parseMysqlResponse] leaves it there with the response's fields. *)
Definition receivedMysqlResponse (fuel : nat) (mysql : Mysql) (msg : MysqlMessage) (tuple : TcpTuple)
    : outcome unit * Mysql :=
  match transactionsMap mysql !! TcpHashable tuple with
  | None => (Ret tt, mysql)
  | Some trans =>
      match t_Mysql trans with
      | None => (Ret tt, mysql)
      | Some fields =>
          let trans := trans <| t_Mysql := Some (Update fields (response_fields msg)) |>
                             <| t_Size := m_Size msg |>
                             <| t_Path := m_Tables msg |>
                             <| t_ResponseTime := millis32 (time_Sub (m_Ts msg) (t_ts trans)) |> in
          let mysql := mysql <| transactionsMap :=
                         <[TcpHashable tuple := trans]> (transactionsMap mysql) |> in
          let raw := if decide (len (m_Raw msg) > 0) then
                       let! '(fields, rows) := parseMysqlResponse fuel mysql (m_Raw msg) in
                       Ret (trans <| t_Response_raw := DumpInCSVFormat fields rows |>)
                     else Ret trans in
          match raw with
          | Panic => (Panic, mysql)
          | OutOfFuel => (OutOfFuel, mysql)
          | Ret trans =>
              match publishMysqlTransaction mysql trans with
              | (Ret _, mysql) =>
                  (Ret tt, mysql <| transactionsMap :=
                             delete (TcpHashable (t_tuple trans)) (transactionsMap mysql) |>)
              | r => r
              end
          end
      end
  end.

Definition mysqlPrivateData : Type := pair2 MysqlStream.

Section Procs.
Context {UC : Unicode} {W : Type} {PW : ProcWatcher W}.

Definition handleMysql (fuel : nat) (st : Mysql * W) (m : MysqlMessage) (tcptuple : TcpTuple) (dir : Z)
    (raw_msg : bytes) : outcome unit * (Mysql * W) :=
  let '(mysql, w) := st in
  let '(cmdline, w) := FindProcessesTuple (IpPort tcptuple) w in
  let m := m <| m_TcpTuple := Some tcptuple |>
             <| m_Direction := dir |>
             <| m_CmdlineTuple := Some cmdline |>
             <| m_Raw := raw_msg |> in
  if m_IsRequest m then (Ret tt, (receivedMysqlRequest mysql m tcptuple cmdline, w))
  else let '(r, mysql) := receivedMysqlResponse fuel mysql m tcptuple in (r, (mysql, w)).

(** * The stream handler *)

(** How the message loop of [Parse] ends: with the stream kept, with the stream
    dropped ([priv.Data[dir] = nil]), or in a panic, after which the recovered
    [Parse] returns nil. *)
Inductive parse_end := Keep (s : MysqlStream) | Drop | Recovered.

(** A complete message is handled and cut off the data. *)
Definition ship (fuel : nat) (tcptuple : TcpTuple) (dir : Z) (stream : MysqlStream) (m : MysqlMessage)
    (st : Mysql * W) : outcome (MysqlStream * (Mysql * W) + parse_end * (Mysql * W)) :=
  match str_slice (s_data stream) (m_start m) (m_end m) with
  | Ret msg =>
      let '(r, st) := if negb (m_IgnoreMessage m) then handleMysql fuel st m tcptuple dir msg
                      else (Ret tt, st) in
      match r with
      | Ret _ =>
          match PrepareForNewMessage stream with
          | Ret stream => Ret (inl (stream, st))
          | _ => Ret (inr (Recovered, st))
          end
      | Panic => Ret (inr (Recovered, st))
      | OutOfFuel => OutOfFuel
      end
  | _ => Ret (inr (Recovered, st))
  end.

Definition parse_step (fuel : nat) (ts : Z) (tcptuple : TcpTuple) (dir : Z)
    (x : MysqlStream * (Mysql * W)) : outcome (MysqlStream * (Mysql * W) + parse_end * (Mysql * W)) :=
  let '(stream, st) := x in
  if decide (len (s_data stream) > 0) then
    let stream := match s_message stream with
                  | None => stream <| s_message := Some (newMessage ts) |>
                  | Some _ => stream
                  end in
    match mysqlMessageParser stream with
    | OutOfFuel => OutOfFuel
    | Panic => Ret (inr (Recovered, st))
    | Ret (stream, (ok, complete)) =>
        if negb ok then Ret (inr (Drop, st))
        else if complete : bool then
          match s_message stream with
          | Some m => ship fuel tcptuple dir stream m st
          | None => Ret (inr (Recovered, st))
          end
        else Ret (inr (Keep stream, st))
    end
  else Ret (inr (Keep stream, st)).

Definition parse_loop (fuel : nat) (ts : Z) (tcptuple : TcpTuple) (dir : Z) (stream : MysqlStream)
    (st : Mysql * W) : outcome (parse_end * (Mysql * W)) :=
  loop (parse_step fuel ts tcptuple dir) (S (length (s_data stream))) (stream, st).

(** The stream with the packet's bytes: a new one, or the old one with the payload
    appended; the size check applies to an existing stream only. *)
Definition received (pkt : Packet) (tcptuple : TcpTuple) (old : option MysqlStream) : MysqlStream :=
  match old with
  | None => {| s_tcptuple := tcptuple; s_data := vis (pk_Payload pkt); s_parseOffset := 0;
               s_parseState := MysqlStateStart; s_isClient := false;
               s_message := Some (newMessage (pk_Ts pkt)) |}
  | Some stream => stream <| s_data := s_data stream ++ vis (pk_Payload pkt) |>
  end.
Definition too_large (old : option MysqlStream) (stream : MysqlStream) : bool :=
  match old with
  | None => false
  | Some _ => bool_decide (len (s_data stream) > TCP_MAX_DATA_IN_STREAM)
  end.

(** [private] is [None] for nil and for another protocol's data. *)
Definition Parse (fuel : nat) (pkt : Packet) (tcptuple : TcpTuple) (dir : Z)
    (private : option mysqlPrivateData) (st : Mysql * W)
    : outcome (option mysqlPrivateData * (Mysql * W)) :=
  let priv := default nil2 private in
  match get2 priv dir with
  | Ret old =>
      let stream := received pkt tcptuple old in
      if too_large old stream then Ret (Some (set2 priv dir None), st)
      else
        let! '(e, st) := parse_loop fuel (pk_Ts pkt) tcptuple dir stream st in
        Ret (match e with
             | Keep s => Some (set2 priv dir (Some s))
             | Drop => Some (set2 priv dir None)
             | Recovered => None
             end, st)
  | _ => Ret (None, st)
  end.

Definition GapInStream (tcptuple : TcpTuple) (dir : Z) (private : option mysqlPrivateData)
    : option mysqlPrivateData := private.
Definition ReceivedFin (tcptuple : TcpTuple) (dir : Z) (private : option mysqlPrivateData)
    : option mysqlPrivateData := private.

End Procs.

(** * Encodings, the server's and the client's side *)

Fixpoint le (k : nat) (n : Z) : bytes :=
  match k with O => [] | S k' => to_byte n :: le k' (n / 256) end.

Definition encode_linteger (n : Z) : bytes :=
  if decide (n < 251) then le 1 n
  else if decide (n < 2 ^ 16) then xfc :: le 2 n
  else if decide (n < 2 ^ 24) then xfd :: le 3 n
  else xfe :: le 8 n.

Definition encode_lstring (s : bytes) : bytes := encode_linteger (len s) ++ s.

(** A packet: 3-byte length, sequence number, payload. *)
Definition encode_packet (seq : Z) (payload : bytes) : bytes :=
  le 3 (len payload) ++ [to_byte seq] ++ payload.

(** Little-endian assembly, as the source writes it. *)
Lemma lor_bytes a b n : 0 <= n -> 0 <= a < 2 ^ n -> Z.lor a (Z.shiftl b n) = a + b * 2 ^ n.
Proof. intros. rewrite Z.lor_comm, lor_shiftl_add by done. lia. Qed.

Lemma length24_val b0 b1 b2 : length24 b0 b1 b2 = u8 b0 + u8 b1 * 2 ^ 8 + u8 b2 * 2 ^ 16.
Proof.
  pose proof (u8_bound b0). pose proof (u8_bound b1). unfold length24.
  rewrite (lor_bytes (u8 b0)) by lia. by rewrite lor_bytes by lia.
Qed.

Lemma length24_range b0 b1 b2 : 0 <= length24 b0 b1 b2 < 2 ^ 24.
Proof.
  rewrite length24_val. pose proof (u8_bound b0). pose proof (u8_bound b1). pose proof (u8_bound b2). lia.
Qed.

Lemma length24_le n : 0 <= n < 2 ^ 24 ->
  length24 (to_byte n) (to_byte (n / 256)) (to_byte (n / 256 / 256)) = n.
Proof.
  intros H. rewrite length24_val, !u8_to_byte. Z.to_euclidean_division_equations. lia.
Qed.

(** Reading a list at a known prefix. *)
Lemma at_S {A} (x : A) (l : list A) i : 0 <= i -> at_ (x :: l) (1 + i) = at_ l i.
Proof. intros. by rewrite <- (at_app_r [x] l i). Qed.

Lemma read_linteger_pre pre l :
  0 < len l -> read_linteger (pre ++ l) (len pre) =
  let! '(v, off, complete, err) := read_linteger l 0 in
  Ret (v, if complete : bool then len pre + off else off, complete, err).
Proof.
  intros Hl. unfold read_linteger. rewrite decide_False by (rewrite len_app; pose proof (len_nonneg pre); lia).
  rewrite (decide_False (P := len l = 0)) by lia. rewrite at_pre0.
  destruct (at_ l 0) as [b| |]; cbn [obind]; [|done..].
  unfold rest_len. rewrite len_app.
  replace (len pre + len l - (len pre + 1)) with (len l - (0 + 1)) by lia.
  rewrite !at_pre, !Z.add_0_l by lia.
  repeat case_decide; try done; cbn [obind];
    repeat (match goal with |- context [at_ l ?i] => destruct (at_ l i); cbn [obind]; [|done..] end);
    done.
Qed.

(** The tests of [read_linteger] on a marker byte that is known. *)
Ltac linteger_tests q :=
  repeat (first
    [ rewrite decide_True by reflexivity
    | rewrite decide_False by (try (subst q; unfold rest_len; autorewrite with go_len); lia) ]).

Lemma read_linteger_enc pre n post :
  0 <= n < 2 ^ 24 ->
  read_linteger (pre ++ encode_linteger n ++ post) (len pre) =
  Ret (n, len pre + len (encode_linteger n), true, None).
Proof.
  intros Hn. assert (exists b l, encode_linteger n ++ post = b :: l) as (b & l & E).
  { unfold encode_linteger. repeat case_decide; eexists _, _; reflexivity. }
  rewrite read_linteger_pre by (rewrite E, len_cons; pose proof (len_nonneg l); lia).
  clear E b l. unfold encode_linteger. pose proof (len_nonneg post).
  repeat case_decide; try lia; unfold read_linteger; cbn [app le].
  all: rewrite decide_False by (rewrite len_cons; pose proof (len_nonneg post); autorewrite with go_len; lia).
  all: rewrite at_cons; cbn [obind].
  - rewrite u8_to_byte, Z.mod_small by lia. rewrite !decide_False by lia. done.
  - rewrite !Z.add_0_l. set (q := xfc :: _). change (at_ q 1) with (Ret (to_byte n)).
    change (at_ q 2) with (Ret (to_byte (n / 256))). cbn [obind]. change (u8 xfc) with 252. linteger_tests q.
    cbn [obind]. rewrite lor_bytes by (lia || apply u8_bound). rewrite !u8_to_byte.
    f_equal. f_equal. f_equal. f_equal. Z.to_euclidean_division_equations. lia.
  - rewrite !Z.add_0_l. set (q := xfd :: _). change (at_ q 1) with (Ret (to_byte n)).
    change (at_ q 2) with (Ret (to_byte (n / 256))). change (at_ q 3) with (Ret (to_byte (n / 256 / 256))).
    cbn [obind]. change (u8 xfd) with 253. linteger_tests q.
    cbn [obind]. pose proof (length24_le n Hn) as E. unfold length24 in E. by rewrite E.
Qed.

Lemma read_lstring_enc pre s post :
  len s < 2 ^ 24 ->
  read_lstring (pre ++ encode_lstring s ++ post) (len pre) =
  Ret (s, len pre + len (encode_lstring s), true, None).
Proof.
  intros Hs. pose proof (len_nonneg s). unfold read_lstring, encode_lstring. rewrite <- app_assoc.
  rewrite read_linteger_enc by lia. cbn [obind negb].
  rewrite wrapS_small by lia. rewrite str_from_ok by len_lia. cbn [obind].
  set (e := encode_linteger (len s)).
  assert (drop (Z.to_nat (len pre + len e)) (pre ++ e ++ s ++ post) = s ++ post) as ->.
  { rewrite app_assoc, <- len_app. apply drop_len_app. }
  rewrite decide_False by len_lia.
  rewrite (app_assoc pre e), <- len_app, str_slice_mid. cbn [obind].
  by rewrite !len_app, Z.add_assoc.
Qed.

(** The eight-byte form of a length-encoded integer is misread: for every value
    that needs it and fits in seven bytes, the result is another number. *)
Theorem linteger_8byte_wrong n post :
  2 ^ 24 <= n < 2 ^ 56 ->
  exists v, read_linteger (encode_linteger n ++ post) 0 = Ret (v, 9, true, None) /\ v <> n.
Proof.
  intros Hn. pose proof (len_nonneg post). unfold encode_linteger. rewrite !decide_False by lia.
  cbn [app le]. repeat rewrite Z.div_div by lia. cbn [Z.mul Pos.mul].
  set (b i := to_byte (n / i)). unfold read_linteger. rewrite !Z.add_0_l.
  set (q := xfe :: _). rewrite decide_False by (subst q; autorewrite with go_len; lia).
  change (at_ q 0) with (Ret xfe).
  change (at_ q 1) with (Ret (to_byte n)). change (at_ q 2) with (Ret (b 256)).
  change (at_ q 3) with (Ret (b 65536)). change (at_ q 4) with (Ret (b 16777216)).
  change (at_ q 5) with (Ret (b 4294967296)). change (at_ q 6) with (Ret (b 1099511627776)).
  change (at_ q 7) with (Ret (b 281474976710656)). cbn [obind]. change (u8 xfe) with 254. linteger_tests q.
  eexists. split; [reflexivity|].
  assert (forall i, 0 <= u8 (b i) < 256) as Hb by (intros; apply u8_bound).
  pose proof (u8_bound (to_byte n)). pose proof (Hb 256). pose proof (Hb 65536). pose proof (Hb 16777216).
  pose proof (Hb 4294967296). pose proof (Hb 1099511627776). pose proof (Hb 281474976710656).
  rewrite (lor_bytes _ _ 8), (lor_bytes _ _ 16), (lor_bytes _ _ 24), (lor_bytes _ _ 32),
    (lor_bytes _ _ 40), (lor_bytes _ _ 48), (lor_bytes _ _ 56) by lia.
  assert (n = u8 (to_byte n) + u8 (b 256) * 2 ^ 8 + u8 (b 65536) * 2 ^ 16 + u8 (b 16777216) * 2 ^ 24 +
    u8 (b 4294967296) * 2 ^ 32 + u8 (b 1099511627776) * 2 ^ 40 + u8 (b 281474976710656) * 2 ^ 48) as E.
  { subst b. cbv beta. rewrite !u8_to_byte. clear -Hn. Z.to_euclidean_division_equations. lia. }
  intros Hv. lia.
Qed.

Lemma linteger_8byte_wrong_witness :
  exists v, read_linteger (encode_linteger 16777216 ++ []) 0 = Ret (v, 9, true, None) /\ v <> 16777216.
Proof. apply (linteger_8byte_wrong 16777216 []). lia. Defined.

(** * Termination and well-formedness *)

(** The parser's invariant: the offset is within the data, and the message's bounds
    within what has been read. *)
Definition pinv (s : MysqlStream) (m : MysqlMessage) : Prop :=
  0 <= s_parseOffset s <= len (s_data s) /\ 0 <= m_PacketLength m /\
  0 <= m_start m <= s_parseOffset s /\ (m_end m = 0 \/ m_start m < m_end m <= s_parseOffset s) /\
  (s_parseState s = MysqlStateStart -> m_end m = 0).

Definition started (s : MysqlStream) : nat :=
  match s_parseState s with MysqlStateStart => 1 | _ => 0 end.
Definition parser_measure (x : MysqlStream * MysqlMessage) : nat :=
  (Z.to_nat (len (s_data (fst x)) - s_parseOffset (fst x)) + started (fst x))%nat.

(** What a turn may do from [(s, m)]. *)
Definition turn_ok (s : MysqlStream) (m : MysqlMessage) (t : turn) : Prop :=
  match t with
  | Ret (inl (s', m')) =>
      pinv s' m' /\ s_data s' = s_data s /\ m_Ts m' = m_Ts m /\ s_parseState s' <> MysqlStateStart /\
      (parser_measure (s', m') < parser_measure (s, m))%nat
  | Ret (inr (s', m', (ok, complete))) =>
      pinv s' m' /\ s_data s' = s_data s /\ m_Ts m' = m_Ts m /\
      (complete = true -> ok = true /\ m_end m' <> 0)
  | Panic => True
  | OutOfFuel => False
  end.


Lemma read_linteger_not_fuel data off : read_linteger data off <> OutOfFuel.
Proof.
  unfold read_linteger. case_decide; [done|].
  repeat match goal with
  | |- obind (at_ ?l ?i) _ <> _ =>
      pose proof (at_not_fuel l i); destruct (at_ l i); cbn [obind]; [|done..]
  | |- context [decide ?P] => destruct (decide P)
  end; done.
Qed.

Lemma read_lstring_not_fuel data off : read_lstring data off <> OutOfFuel.
Proof.
  unfold read_lstring. pose proof (read_linteger_not_fuel data off).
  destruct (read_linteger data off) as [[[[v o] c] [e|]]| |]; cbn [obind]; try done.
  destruct c; cbn; [|done]. unfold str_from. pose proof (str_slice_not_fuel data o (len data)).
  destruct (str_slice data o (len data)); cbn; [|done..]. case_decide; [done|].
  pose proof (str_slice_not_fuel data o (o + int_of v)). by destruct (str_slice data o (o + int_of v)).
Qed.
#[local] Hint Resolve read_linteger_not_fuel read_lstring_not_fuel : go.

Lemma turn_bind {A} (s : MysqlStream) (m : MysqlMessage) (o : outcome A) (k : A -> turn) :
  o <> OutOfFuel -> (forall a, o = Ret a -> turn_ok s m (k a)) -> turn_ok s m (obind o k).
Proof. intros Hn Hk. destruct o; [by apply Hk|done|done]. Qed.

Lemma wanted_ok {A} s0 m0 (r : outcome (A * Z * bool * option linteger_error)) s m k :
  r <> OutOfFuel -> turn_ok s0 m0 (wait s m) -> turn_ok s0 m0 (give s m false false) ->
  (forall v off, turn_ok s0 m0 (k v off)) -> turn_ok s0 m0 (wanted r s m k).
Proof.
  intros Hr Hw Hg Hk. unfold wanted. apply turn_bind; [done|].
  intros [[[v off] []] []] _; [done|apply Hk|done..].
Qed.

(** Split a goal about a turn's result. *)
Ltac turn_done :=
  unfold turn_ok, go_on, wait, give, pinv, parser_measure, started, rest_len in *;
  cbn in *; repeat split; try done; try lia; try (by left); try (right; lia).

Lemma read_header_ok s m m' :
  read_header s m = Ret m' ->
  exists n q, 0 <= n < 2 ^ 24 /\ m' = m <| m_PacketLength := n |> <| m_Seq := q |>.
Proof.
  unfold read_header. repeat (destruct (at_ _ _); cbn [obind]; [|done..]).
  intros [= <-]. eexists _, _. split; [|done]. apply length24_range.
Qed.

Lemma read_header_not_fuel s m : read_header s m <> OutOfFuel.
Proof.
  unfold read_header.
  repeat match goal with
  | |- obind (at_ ?l ?i) _ <> _ =>
      pose proof (at_not_fuel l i); destruct (at_ l i); cbn [obind]; [|done..]
  end; done.
Qed.

Lemma eat_start_ok s m :
  pinv s m -> s_parseState s = MysqlStateStart -> turn_ok s m (eat_start s m).
Proof.
  intros (Ho & Hp & Hs & He & Hst) Est. specialize (Hst Est). unfold eat_start.
  case_decide as Hr; [turn_done|].
  apply turn_bind; [auto with go|]. intros h0 _. apply turn_bind; [auto with go|]. intros h1 _.
  apply turn_bind; [auto with go|]. intros h2 _. apply turn_bind; [auto with go|]. intros h3 _.
  apply turn_bind; [auto with go|]. intros h4 _.
  pose proof (length24_range h0 h1 h2) as Hl.
  assert (forall s' m', s_data s' = s_data s -> s_parseState s' <> MysqlStateStart ->
    s_parseOffset s' = s_parseOffset s \/ s_parseOffset s' = s_parseOffset s + 5 ->
    m_Ts m' = m_Ts m -> m_PacketLength m' = length24 h0 h1 h2 -> m_start m' = s_parseOffset s ->
    m_end m' = m_end m -> turn_ok s m (go_on s' m')) as Hgo.
  { intros s' m' E1 E2 E3 E4 E5 E6 E7. unfold turn_ok, go_on, pinv, parser_measure, started, rest_len in *.
    cbn [fst]. rewrite E1, E5, E6, E7, Est, Hst.
    destruct (s_parseState s'); [done|..]; repeat split; try done; try (by left); lia. }
  assert (forall m', m_Ts m' = m_Ts m -> m_PacketLength m' = length24 h0 h1 h2 -> m_start m' = s_parseOffset s ->
    m_end m' = m_end m -> turn_ok s m (give s m' false false)) as Hgi.
  { intros m' E1 E2 E3 E4. unfold turn_ok, give, pinv. rewrite E1, E2, E3, E4, Hst.
    repeat split; try done; try (by left); lia. }
  repeat case_decide; try destruct (negb (s_isClient s)); first [apply Hgo|apply Hgi];
    first [done|by left|by right].
Qed.

Lemma eat_message_ok s m :
  pinv s m -> s_parseState s = MysqlStateEatMessage -> turn_ok s m (eat_message s m).
Proof.
  intros (Ho & Hp & Hs & He & Hst) Est. unfold eat_message, message_content, rest_len.
  case_decide as Hr; [|turn_done].
  set (s1 := s <| s_parseOffset := _ |>). set (m1 := m <| m_end := _ |>). cbn [s_data set_field].
  assert (forall m2 c, m_start m2 = m_start m -> m_PacketLength m2 = m_PacketLength m -> m_Ts m2 = m_Ts m ->
    m_end m2 = s_parseOffset s1 -> turn_ok s m (give s1 m2 true c)) as Hg.
  { intros m2 c E1 E2 E3 E4. subst s1. unfold turn_ok, give, pinv. cbn in *.
    rewrite E1, E2, E3, E4, Est. repeat split; try done; lia. }
  assert (turn_ok s m (give s1 m1 false false)) as Hf.
  { subst s1 m1. unfold turn_ok, give, pinv. cbn. rewrite Est. repeat split; try done; lia. }
  destruct (m_IsRequest m1); [|destruct (m_IsOK m1); [|destruct (m_IsError m1)]].
  - apply turn_bind; [auto with go|]. intros q _. by apply Hg.
  - apply wanted_ok; [auto with go|by apply Hg|done|]. intros v off.
    apply wanted_ok; [auto with go|by apply Hg| |intros; by apply Hg]. exact Hf.
  - apply turn_bind; [auto with go|]. intros hi _. apply turn_bind; [auto with go|]. intros lo _.
    apply turn_bind; [auto with go|]. intros st _. apply turn_bind; [auto with go|]. intros tx _.
    by apply Hg.
  - by apply Hg.
Qed.

Lemma eat_fields_ok s m :
  pinv s m -> s_parseState s = MysqlStateEatFields -> turn_ok s m (eat_fields s m).
Proof.
  intros (Ho & Hp & Hs & He & Hst) Est. unfold eat_fields. case_decide as Hr; [turn_done|].
  apply turn_bind; [apply read_header_not_fuel|]. intros m1 (n & q & Hn & ->)%read_header_ok.
  cbn [m_PacketLength set_field]. case_decide as Hl; [|turn_done].
  apply turn_bind; [auto with go|]. intros c _.
  case_decide; [turn_done; rewrite ?Est; lia|].
  do 3 (apply wanted_ok; [auto with go|turn_done; congruence..|]; intros ? ?).
  turn_done; rewrite ?Est; try done; lia.
Qed.

Lemma eat_rows_ok s m :
  pinv s m -> s_parseState s = MysqlStateEatRows -> turn_ok s m (eat_rows s m).
Proof.
  intros (Ho & Hp & Hs & He & Hst) Est. unfold eat_rows. case_decide as Hr; [turn_done|].
  apply turn_bind; [apply read_header_not_fuel|]. intros m1 (n & q & Hn & ->)%read_header_ok.
  cbn [m_PacketLength set_field]. case_decide as Hl; [|turn_done].
  apply turn_bind; [auto with go|]. intros c _.
  repeat first [case_decide | case_match]; turn_done; rewrite ?Est; try done; lia.
Qed.

Lemma parser_step_ok s m : pinv s m -> turn_ok s m (parser_step (s, m)).
Proof.
  intros H. unfold parser_step. case_decide.
  - destruct (s_parseState s) eqn:E;
      [by apply eat_start_ok|by apply eat_message_ok|by apply eat_fields_ok|by apply eat_rows_ok].
  - unfold turn_ok, wait, give. by repeat split; try apply H.
Qed.

(** The result of the parser on a stream with a message. *)
Lemma parser_ok s m :
  s_message s = Some m -> pinv s m ->
  mysqlMessageParser s <> OutOfFuel /\
  forall s' ok complete, mysqlMessageParser s = Ret (s', (ok, complete)) ->
  exists m', s_message s' = Some m' /\ pinv s' m' /\ s_data s' = s_data s /\ m_Ts m' = m_Ts m /\
    (complete = true -> ok = true /\ m_end m' <> 0).
Proof.
  intros Em Hp. unfold mysqlMessageParser. rewrite Em. split.
  - assert (loop parser_step (parser_fuel s) (s, m) <> OutOfFuel) as Hf.
    { apply (loop_fuel _ (fun x => pinv (fst x) (snd x)) parser_measure); [| |done|].
      - intros [t n] Ht E. pose proof (parser_step_ok t n Ht) as H. by rewrite E in H.
      - intros [t n] [t' n'] Ht E. pose proof (parser_step_ok t n Ht) as H. rewrite E in H.
        split; apply H.
      - unfold parser_measure, parser_fuel, started, len. cbn. destruct Hp as (? & _).
        destruct (s_parseState s); lia. }
    by destruct (loop _ _ _) as [[[? ?] ?]| |].
  - intros s' ok complete.
    destruct (loop _ _ _) as [[[t n] r]| |] eqn:E; cbn [obind]; [|done..]. intros [= <- ->].
    apply (loop_inv parser_step
      (fun x => pinv (fst x) (snd x) /\ s_data (fst x) = s_data s /\ m_Ts (snd x) = m_Ts m)
      (fun y => pinv (fst (fst y)) (snd (fst y)) /\ s_data (fst (fst y)) = s_data s /\
        m_Ts (snd (fst y)) = m_Ts m /\ (snd (snd y) = true -> fst (snd y) = true /\ m_end (snd (fst y)) <> 0)))
      in E; [| | |done].
    + cbn in E. destruct E as (H1 & H2 & H3 & H4). by exists n.
    + intros [t1 n1] [t2 n2] (H1 & H2 & H3) Es. pose proof (parser_step_ok t1 n1 H1) as H.
      rewrite Es in H. cbn in *. destruct H as (? & ? & ? & _). split; [done|]. split; congruence.
    + intros [t1 n1] [[t2 n2] [o c]] (H1 & H2 & H3) Es. pose proof (parser_step_ok t1 n1 H1) as H.
      rewrite Es in H. cbn in *. destruct H as (? & ? & ? & ?). split; [done|]. do 2 (split; [congruence|]). done.
Qed.

(** A stream between two calls of [Parse]. *)
Definition stream_ok (s : MysqlStream) : Prop :=
  match s_message s with
  | Some m => pinv s m
  | None => s_parseOffset s = 0
  end.

(** Publishing: either nothing is listening, or one event is appended (the map of a
    transaction that has its response always holds the flag). *)
Lemma publish_cases mysql t :
  publishMysqlTransaction mysql t = (Ret tt, mysql) \/
  publishMysqlTransaction mysql t = (Panic, mysql) \/
  exists sent event, results mysql = Some sent /\
    publishMysqlTransaction mysql t = (Ret tt, mysql <| results := Some (sent ++ [event]) |>).
Proof.
  unfold publishMysqlTransaction. destruct (results mysql) as [sent|]; [|by left].
  destruct (_ !! bs "iserror") as [[]|]; try (by right; left).
  right; right. by eexists _, _.
Qed.

(** * Result sets on the wire *)

Record field_def := {
  fd_catalog : bytes; fd_schema : bytes; fd_table : bytes; fd_org_table : bytes;
  fd_name : bytes; fd_org_name : bytes; fd_rest : bytes
}.
Definition encode_field (f : field_def) : bytes :=
  encode_lstring (fd_catalog f) ++ encode_lstring (fd_schema f) ++ encode_lstring (fd_table f) ++
  encode_lstring (fd_org_table f) ++ encode_lstring (fd_name f) ++ encode_lstring (fd_org_name f) ++ fd_rest f.
Definition eof_payload : bytes := [xfe; x00; x00; x02; x00].

(** A value of a row: NULL, or a string. *)
Definition encode_value (v : option bytes) : bytes :=
  match v with None => [xfb] | Some s => encode_lstring s end.
Definition encode_row (row : list (option bytes)) : bytes := concat (map encode_value row).

(** Packets numbered from [seq] on. *)
Fixpoint encode_packets (seq : Z) (payloads : list bytes) : bytes :=
  match payloads with
  | [] => []
  | p :: ps => encode_packet seq p ++ encode_packets (seq + 1) ps
  end.

(** The whole response: field count, field definitions, EOF, rows, EOF. *)
Definition encode_resultset (fields : list field_def) (row_payloads : list bytes) : bytes :=
  encode_packet 1 [to_byte (len fields)] ++ encode_packets 2 (map encode_field fields) ++
  encode_packet (2 + len fields) eof_payload ++
  encode_packets (3 + len fields) row_payloads ++
  encode_packet (3 + len fields + len row_payloads) eof_payload.

(** * The row reader that never ends *)

(** The offset after one turn of the row loop, if the loop goes on. *)
Definition row_next (data : bytes) (stop off : Z) : option Z :=
  if decide (off < stop) then
    match at_ data off with
    | Ret c =>
        if decide (u8 c = 251) then Some (off + 1)
        else match read_lstring data off with Ret (_, off, _, None) => Some off | _ => None end
    | _ => None
    end
  else None.

Lemma row_step_next data limit stop off off' row row_len :
  row_next data stop off = Some off' ->
  exists row' row_len', row_step data limit stop (off, row, row_len) = Ret (inl (off', row', row_len')).
Proof.
  unfold row_next, row_step. destruct (decide (off < stop)); [|done]. destruct (at_ data off) as [c| |]; [|done..].
  cbn [obind]. set (value := if decide (u8 c = 251) then Ret (Some _) else _).
  intros H. assert (exists text, value = Ret (Some (text, off'))) as [text ->].
  { revert H. subst value. destruct (decide (u8 c = 251)); [intros [= <-]; by eexists|].
    destruct (read_lstring data off) as [[[[t o] c'] [e|]]| |]; try done. intros [= <-]. by eexists. }
  clear H. cbn [obind]. case_decide; [|by eexists _, _]. case_decide; [|by eexists _, _].
  unfold str_slice. rewrite decide_True by lia. cbn. by eexists _, _.
Qed.

(** If the offsets go round in a circle, the loop never ends. *)
Lemma row_loop_cycle data limit stop k off n row row_len :
  (0 < k)%nat ->
  iter (R := unit) (fun o => match row_next data stop o with Some o' => Ret (inl o') | None => Panic end)
    k off = Some off ->
  loop (row_step data limit stop) n (off, row, row_len) = OutOfFuel.
Proof.
  intros Hk Hi. apply (loop_cycle _ _ _ n Hk) in Hi. revert off row row_len Hi.
  induction n as [|n IH]; intros off row row_len Hi; [done|]. rewrite loop_S in Hi. rewrite loop_S.
  destruct (row_next data stop off) as [off'|] eqn:E; [|done].
  destruct (row_step_next data limit stop off off' row row_len E) as (r & l & ->). by apply IH.
Qed.

Definition demo_field (name : bytes) : field_def :=
  {| fd_catalog := bs "def"; fd_schema := bs "db"; fd_table := bs "t"; fd_org_table := bs "t";
     fd_name := name; fd_org_name := name; fd_rest := map to_byte [12; 33; 0; 11; 0; 0; 0; 3; 0; 0; 0; 0; 0] |}.

(** A result set of one column and one row; the second length in the row points
    past the end of the data. *)
Definition hang_response : bytes :=
  encode_resultset [demo_field (bs "a")] [encode_lstring (bs "abc") ++ [xfa; x61]].

Lemma hang_response_rows fuel mysql : parseMysqlResponse fuel mysql hang_response = OutOfFuel.
Proof.
  unfold parseMysqlResponse. change (read_length hang_response 0) with (Ret 1).
  change (at_ hang_response 4) with (Ret x01). cbn [obind].
  rewrite decide_False by lia. rewrite !decide_False by (vm_compute; lia).
  replace (loop (fields_step hang_response) _ _) with (Ret (A := option Z * list bytes) (Some 46, [bs "a"]))
    by (by vm_compute). cbn [obind].
  rewrite loop_S. unfold rows_step.
  change (len hang_response) with 65. rewrite decide_True by lia.
  change (at_ hang_response (46 + 4)) with (Ret x03). change (read_length hang_response 46) with (Ret 6).
  cbn [obind]. rewrite decide_False by (vm_compute; lia).
  change (46 + 4 + 6) with 56. change (46 + 4) with 50.
  destruct fuel as [|fuel]; [done|]. rewrite loop_S.
  destruct (row_step_next hang_response (maxRowLength mysql) 56 50 54 [] 0) as (r & l & ->); [by vm_compute|].
  by rewrite (row_loop_cycle hang_response (maxRowLength mysql) 56 14 54 fuel r l) by (lia || by vm_compute).
Qed.

Lemma response_hang fuel mysql msg tuple t f :
  transactionsMap mysql !! TcpHashable tuple = Some t -> t_Mysql t = Some f -> m_Raw msg = hang_response ->
  fst (receivedMysqlResponse fuel mysql msg tuple) = OutOfFuel.
Proof.
  intros Ht Hf Hr. unfold receivedMysqlResponse. rewrite Ht, Hf, Hr.
  rewrite decide_True by done. by rewrite hang_response_rows.
Qed.

(** One response packet makes [Parse] run for ever, whatever the limits
    configured: a row whose string length points past the end of the data sends
    the row reader back to offset 0, from where it returns to the same string. *)
Theorem mysql_row_hang {UC : Unicode} {W : Type} {PW : ProcWatcher W} fuel pkt tcptuple dir (mysql : Mysql) (w : W) t :
  vis (pk_Payload pkt) = hang_response -> valid_dir dir ->
  transactionsMap mysql !! TcpHashable tcptuple = Some t -> t_Mysql t <> None ->
  Parse fuel pkt tcptuple dir None (mysql, w) = OutOfFuel.
Proof.
  intros Hd Hv Ht Hm. unfold Parse. cbn [default].
  assert (get2 (nil2 : mysqlPrivateData) dir = Ret None) as -> by (by destruct Hv as [-> | ->]).
  unfold parse_loop. cbn [too_large]. rewrite loop_S.
  assert (exists s m, mysqlMessageParser (received pkt tcptuple None) = Ret (s, (true, true)) /\
    s_message s = Some m /\ str_slice (s_data s) (m_start m) (m_end m) = Ret hang_response /\
    m_IgnoreMessage m = false /\ m_IsRequest m = false) as (s & m & E & Em & Es & Ei & Er).
  { unfold received. rewrite Hd. eexists _, _. split; [vm_compute; reflexivity|].
    by repeat split. }
  unfold parse_step. rewrite decide_True by (cbn; rewrite Hd; done). cbn [s_message received].
  change (received pkt tcptuple None) with (received pkt tcptuple None) in E.
  unfold received in E. rewrite E. cbn [negb]. rewrite Em. unfold ship. rewrite Es, Ei. cbn [negb].
  assert (fst (handleMysql fuel (mysql, w) m tcptuple dir hang_response) = OutOfFuel) as Hh.
  { unfold handleMysql. destruct (FindProcessesTuple _ w) as [c w'].
    set (m' := m <| m_TcpTuple := _ |> <| m_Direction := _ |> <| m_CmdlineTuple := _ |> <| m_Raw := _ |>).
    change (m_IsRequest m') with (m_IsRequest m). rewrite Er. destruct (t_Mysql t) as [f|] eqn:Ef; [|done].
    pose proof (response_hang fuel mysql m' tcptuple t f Ht Ef eq_refl) as H.
    by destruct (receivedMysqlResponse fuel mysql m' tcptuple). }
  destruct (handleMysql _ _ _ _ _ _) as [r st]. cbn in Hh. by rewrite Hh.
Qed.

(** * [Parse] ends *)

Lemma read_linteger_forward data off v off' : read_linteger data off = Ret (v, off', true, None) -> off < off'.
Proof.
  unfold read_linteger. case_decide; [done|].
  repeat match goal with
  | |- obind (at_ ?l ?i) _ = _ -> _ => destruct (at_ l i); cbn [obind]; [|done..]
  | |- context [decide ?P] => destruct (decide P)
  end; intros [= <- <-]; lia.
Qed.

Lemma read_lstring_forward data off text off' c e :
  read_lstring data off = Ret (text, off', c, e) -> off' = 0 \/ off < off'.
Proof.
  unfold read_lstring. destruct (read_linteger data off) as [[[[v o] c'] [?|]]| |] eqn:E; cbn [obind]; try done.
  { intros [= <- <- <- <-]. by left. }
  destruct c'; cbn [negb]; [|intros [= <- <- <- <-]; by left]. apply read_linteger_forward in E.
  destruct (str_from data o); cbn [obind]; [|done..]. case_decide; [intros [= <- <- <- <-]; by left|].
  unfold str_slice. case_decide; cbn [obind]; [|done]. intros [= <- <- <- <-]. right. lia.
Qed.

Lemma row_step_inl data limit stop off row row_len off' row' row_len' :
  row_step data limit stop (off, row, row_len) = Ret (inl (off', row', row_len')) -> row_next data stop off = Some off'.
Proof.
  unfold row_step, row_next. case_decide; [|done]. destruct (at_ data off) as [c| |]; cbn [obind]; [|done..].
  destruct (decide (u8 c = 251)); cbn [obind].
  - repeat (case_decide; cbn [obind]); try (destruct (str_slice _ _ _); cbn [obind]); by intros [= -> _ _] || done.
  - destruct (read_lstring data off) as [[[[t o] c'] [e|]]| |]; cbn [obind]; try done.
    repeat (case_decide; cbn [obind]); try (destruct (str_slice _ _ _); cbn [obind]); by intros [= -> _ _] || done.
Qed.

Lemma row_step_not_fuel data limit stop x : row_step data limit stop x <> OutOfFuel.
Proof.
  destruct x as [[off row] row_len]. unfold row_step. case_decide; [|done].
  pose proof (at_not_fuel data off) as Ha. destruct (at_ data off) as [c| |]; cbn [obind]; [|done..]. clear Ha.
  assert (forall v : option (bytes * Z), match v with
    | None => Ret (inr None)
    | Some (text, off0) => if decide (row_len < limit) then
        let! text0 := if decide (row_len + len text > limit) then str_slice text 0 (limit - row_len) else Ret text in
        Ret (inl (off0, row ++ [text0], row_len + len text0)) else Ret (inl (off0, row, row_len))
    end <> OutOfFuel (A := Z * list bytes * Z + option (list bytes))) as Hv.
  { intros [[t o]|]; [|done]. case_decide; [|done]. case_decide; [|done].
    pose proof (str_slice_not_fuel t 0 (limit - row_len)). by destruct (str_slice _ _ _). }
  destruct (decide (u8 c = 251)); cbn [obind]; [apply (Hv (Some (bs "NULL", off + 1)))|]. pose proof (read_lstring_not_fuel data off).
  destruct (read_lstring data off) as [[[[t o] c'] [e|]]| |]; cbn [obind]; [apply (Hv None)|apply (Hv (Some (t, o)))|done..].
Qed.

Lemma row_next_forward data stop off off' :
  row_next data stop off = Some off' -> 0 <= off < len data /\ (off' = 0 \/ off < off').
Proof.
  unfold row_next. case_decide; [|done]. destruct (at_ data off) as [c| |] eqn:Ea; [|done..].
  apply at_Ret in Ea. case_decide; [intros [= <-]; lia|].
  destruct (read_lstring data off) as [[[[t o] c'] [e|]]| |] eqn:E; try done. intros [= <-].
  split; [done|]. by eapply read_lstring_forward.
Qed.

(** From any offset the row reader ends within [m] turns or comes back to offset 0. *)
Notation offset_step data stop :=
  (fun o => match row_next data stop o with Some o' => Ret (inl o') | None => Panic end : outcome (Z + unit)).

Lemma row_loop_forward data limit stop m : forall off,
  (Z.to_nat (len data - off) < m)%nat ->
  (forall row row_len, loop (row_step data limit stop) m (off, row, row_len) <> OutOfFuel) \/
  exists k, (0 < k <= m)%nat /\ iter (offset_step data stop) k off = Some 0.
Proof.
  induction m as [|m IH]; intros off Hm; [lia|]. destruct (row_next data stop off) as [off'|] eqn:E.
  - destruct (row_next_forward _ _ _ _ E) as [Ho [->|Hlt]].
    { right. exists 1%nat. split; [lia|]. cbn [iter]. by rewrite E. }
    destruct (IH off') as [Hl|(k & Hk & Hi)]; [lia|..].
    + left. intros row row_len. rewrite loop_S. destruct (row_step_next data limit stop off off' row row_len E) as (r & l & ->).
      apply Hl.
    + right. exists (S k). split; [lia|]. cbn [iter]. by rewrite E.
  - left. intros row row_len. rewrite loop_S. pose proof (row_step_not_fuel data limit stop (off, row, row_len)) as Hn.
    destruct (row_step _ _ _ _) as [[[[o r] l]|]| |] eqn:Es; try done. apply row_step_inl in Es. congruence.
Qed.

Lemma row_loop_iter data limit stop k off off' row row_len :
  iter (offset_step data stop) k off = Some off' ->
  exists row' row_len', iter (row_step data limit stop) k (off, row, row_len) = Some (off', row', row_len').
Proof.
  revert off row row_len. induction k as [|k IH]; intros off row row_len; cbn [iter]; [intros [= ->]; eauto|].
  destruct (row_next data stop off) as [o|] eqn:E; [|done].
  destruct (row_step_next data limit stop off o row row_len E) as (r & l & ->). apply IH.
Qed.

(** Twice the bytes of the response are enough fuel, if any is. *)
Lemma row_loop_settled data limit stop F off row row_len :
  0 <= off -> (2 * S (length data) <= F)%nat -> settled (fun n => loop (row_step data limit stop) n (off, row, row_len)) F.
Proof.
  intros Ho HF n. destruct (decide (loop (row_step data limit stop) n (off, row, row_len) = OutOfFuel)) as [|Hn]; [by left|].
  right. set (M := S (length data)) in *.
  destruct (row_loop_forward data limit stop M off) as [Hl|(k & Hk & Hi)]; [unfold len; lia|..].
  - specialize (Hl row row_len). rewrite <- (loop_mono _ n (n + F)) by (done || lia).
    rewrite (loop_mono _ M (n + F)) by (done || lia). by rewrite (loop_mono _ M F) by (done || lia).
  - destruct (row_loop_iter data limit stop k off 0 row row_len Hi) as (r & l & Hr).
    destruct (row_loop_forward data limit stop M 0) as [Hl|(j & Hj & Hc)]; [unfold len; lia|..].
    + specialize (Hl r l). assert (loop (row_step data limit stop) (k + M) (off, row, row_len) <> OutOfFuel) as Hf
        by by rewrite (loop_iter _ k M _ _ Hr).
      rewrite <- (loop_mono _ n (n + F)) by (done || lia).
      rewrite (loop_mono _ (k + M) (n + F)) by (done || lia). by rewrite (loop_mono _ (k + M) F) by (done || lia).
    + destruct Hn. pose proof (row_loop_cycle data limit stop j 0 n r l ltac:(lia) Hc) as Hz.
      rewrite <- (loop_iter _ k n _ _ Hr) in Hz.
      destruct (decide (loop (row_step data limit stop) n (off, row, row_len) = OutOfFuel)) as [|Hn]; [done|].
      by rewrite (loop_mono _ n (k + n)) in Hz by (done || lia).
Qed.
Lemma read_length_nonneg data off n : read_length data off = Ret n -> 0 <= n.
Proof.
  unfold read_length. repeat (case_decide; cbn [obind]; try done). repeat (destruct (at_ _ _); cbn [obind]; [|done..]).
  intros [= <-]. apply length24_range.
Qed.

Lemma fields_step_nonneg data x y : 0 <= fst x -> fields_step data x = Ret (inl y) -> 0 <= fst y.
Proof.
  destruct x as [off fields]. cbn [fst]. intros Ho. unfold fields_step. destruct (read_length data off) eqn:E; cbn [obind]; [|done..].
  apply read_length_nonneg in E. destruct (at_ _ _); cbn [obind]; [|done..]. case_decide; [done|].
  destruct (read_lstrings _ _ _) as [[[|? [|? [|? [|? [|? [|? []]]]]]]|]| |]; try done. intros [= <-]. cbn. lia.
Qed.

Lemma fields_step_end_nonneg data x off fields : 0 <= fst x -> fields_step data x = Ret (inr (Some off, fields)) -> 0 <= off.
Proof.
  destruct x as [o fs]. cbn [fst]. intros Ho. unfold fields_step. destruct (read_length data o) eqn:E; cbn [obind]; [|done..].
  apply read_length_nonneg in E. destruct (at_ _ _); cbn [obind]; [|done..]. case_decide; [intros [= <- <-]; lia|].
  by destruct (read_lstrings _ _ _) as [[[|? [|? [|? [|? [|? [|? []]]]]]]|]| |].
Qed.

Lemma rows_step_settled mysql data x F :
  0 <= fst x -> (2 * S (length data) <= F)%nat -> settled (fun n => rows_step n mysql data x) F.
Proof.
  destruct x as [off rows]. cbn [fst]. intros Ho HF. unfold rows_step. case_decide; [|apply settled_ret].
  destruct (at_ _ _); cbn [obind]; [|apply settled_ret..]. case_decide; [apply settled_ret|].
  destruct (read_length data off); cbn [obind]; [|apply settled_ret..].
  apply settled_bind; [|intros; apply settled_ret]. apply row_loop_settled; [lia|done].
Qed.

Lemma rows_step_nonneg fuel mysql data x y : 0 <= fst x -> rows_step fuel mysql data x = Ret (inl y) -> 0 <= fst y.
Proof.
  destruct x as [off rows]. cbn [fst]. intros Ho. unfold rows_step. case_decide; [|done].
  destruct (at_ _ _); cbn [obind]; [|done..]. case_decide; [done|].
  destruct (read_length data off) eqn:E; cbn [obind]; [|done..]. apply read_length_nonneg in E.
  destruct (loop _ _ _) as [[row|]| |]; cbn [obind]; [|done..]. case_decide; [done|]. intros [= <-]. cbn. lia.
Qed.

Lemma parseMysqlResponse_settled mysql data F :
  (2 * S (length data) <= F)%nat -> settled (fun n => parseMysqlResponse n mysql data) F.
Proof.
  intros HF. unfold parseMysqlResponse. destruct (read_length data 0); cbn [obind]; [|apply settled_ret..].
  case_decide; [apply settled_ret|]. destruct (at_ _ _); cbn [obind]; [|apply settled_ret..].
  case_decide; [apply settled_ret|]. case_decide; [apply settled_ret|].
  destruct (loop (fields_step data) _ _) as [[[off|] fields]| |] eqn:E; cbn [obind]; try apply settled_ret.
  apply (loop_inv _ (fun x => 0 <= fst x) (fun y => 0 <= default 0 (fst y))) in E; [| | |done].
  - apply settled_bind; [|intros; apply settled_ret].
    apply settled_loop with (Inv := fun x => 0 <= fst x); [|apply rows_step_nonneg|exact E].
    intros x Hx. by apply rows_step_settled.
  - apply fields_step_nonneg.
  - intros x [[o|] fs] Hx Es; [by eapply fields_step_end_nonneg|done].
Qed.

(** The limits of a configuration, which nothing in [Parse] changes. *)
Definition row_limits (mysql : Mysql) : Z * Z := (maxRowLength mysql, maxStoreRows mysql).

Lemma parseMysqlResponse_limits fuel mysql mysql' data :
  row_limits mysql = row_limits mysql' -> parseMysqlResponse fuel mysql data = parseMysqlResponse fuel mysql' data.
Proof. intros [= E1 E2]. unfold parseMysqlResponse, rows_step. by rewrite E1, E2. Qed.

Lemma publish_limits mysql t : row_limits (snd (publishMysqlTransaction mysql t)) = row_limits mysql.
Proof. by destruct (publish_cases mysql t) as [-> |[-> |(? & ? & _ & ->)]]. Qed.

(** What a response needs of the fuel. *)
Lemma response_settled mysql m tuple F n :
  (2 * S (length (m_Raw m)) <= F)%nat ->
  fst (receivedMysqlResponse n mysql m tuple) = OutOfFuel \/ receivedMysqlResponse n mysql m tuple = receivedMysqlResponse F mysql m tuple.
Proof.
  intros HF. unfold receivedMysqlResponse. destruct (_ !! _) as [t|]; [|by right]. destruct (t_Mysql t); [|by right].
  set (mysql' := mysql <| transactionsMap := _ |>). case_decide; [|by right].
  destruct (parseMysqlResponse_settled mysql' (m_Raw m) F HF n) as [-> | ->]; [by left|by right].
Qed.

Lemma response_stuck fuel mysql m tuple :
  fst (receivedMysqlResponse fuel mysql m tuple) = OutOfFuel -> parseMysqlResponse fuel mysql (m_Raw m) = OutOfFuel.
Proof.
  unfold receivedMysqlResponse. destruct (_ !! _) as [t|]; [|done]. destruct (t_Mysql t); [|done].
  set (mysql' := mysql <| transactionsMap := _ |>).
  assert (forall t', fst match publishMysqlTransaction mysql' t' with
    | (Ret _, mysql) => (Ret tt, mysql <| transactionsMap := delete (TcpHashable (t_tuple t')) (transactionsMap mysql) |>)
    | r => r end <> OutOfFuel) as Hp.
  { intros t'. destruct (publish_cases mysql' t') as [-> |[-> |(? & ? & _ & ->)]]; done. }
  case_decide; [|by intros ?%Hp]. rewrite (parseMysqlResponse_limits fuel mysql mysql') by done.
  destruct (parseMysqlResponse fuel mysql' (m_Raw m)) as [[? ?]| |]; cbn [obind]; [by intros ?%Hp|done|done].
Qed.

Lemma response_limits fuel mysql m tuple : row_limits (snd (receivedMysqlResponse fuel mysql m tuple)) = row_limits mysql.
Proof.
  unfold receivedMysqlResponse. destruct (_ !! _) as [t|]; [|done]. destruct (t_Mysql t); [|done].
  set (mysql' := mysql <| transactionsMap := _ |>). destruct (if decide _ then _ else _) as [t'| |]; [|done..].
  pose proof (publish_limits mysql' t') as H. destruct (publishMysqlTransaction mysql' t') as [[[]| |] ?]; exact H.
Qed.

Section ParseTotal.
Context {UC : Unicode} {W : Type} {PW : ProcWatcher W}.

Lemma handle_settled (st : Mysql * W) m tuple dir raw F n :
  (2 * S (length raw) <= F)%nat ->
  fst (handleMysql n st m tuple dir raw) = OutOfFuel \/ handleMysql n st m tuple dir raw = handleMysql F st m tuple dir raw.
Proof.
  intros HF. unfold handleMysql. destruct st as [mysql w]. destruct (FindProcessesTuple _ _) as [c w'].
  set (m' := m <| m_TcpTuple := _ |> <| m_Direction := _ |> <| m_CmdlineTuple := _ |> <| m_Raw := _ |>).
  destruct (m_IsRequest m'); [by right|].
  destruct (response_settled mysql m' tuple F n HF) as [H | ->]; [left|by right].
  by destruct (receivedMysqlResponse n mysql m' tuple).
Qed.

Lemma handle_stuck fuel (st : Mysql * W) m tuple dir raw :
  fst (handleMysql fuel st m tuple dir raw) = OutOfFuel -> parseMysqlResponse fuel (fst st) raw = OutOfFuel.
Proof.
  unfold handleMysql. destruct st as [mysql w]. destruct (FindProcessesTuple _ _) as [c w'].
  set (m' := m <| m_TcpTuple := _ |> <| m_Direction := _ |> <| m_CmdlineTuple := _ |> <| m_Raw := _ |>).
  destruct (m_IsRequest m'); [done|]. pose proof (response_stuck fuel mysql m' tuple) as H.
  by destruct (receivedMysqlResponse fuel mysql m' tuple).
Qed.

Lemma handle_limits fuel (st : Mysql * W) m tuple dir raw :
  row_limits (fst (snd (handleMysql fuel st m tuple dir raw))) = row_limits (fst st).
Proof.
  unfold handleMysql. destruct st as [mysql w]. destruct (FindProcessesTuple _ _) as [c w'].
  set (m' := m <| m_TcpTuple := _ |> <| m_Direction := _ |> <| m_CmdlineTuple := _ |> <| m_Raw := _ |>).
  destruct (m_IsRequest m'); [unfold receivedMysqlRequest; by destruct (endpoints _ _ _)|].
  pose proof (response_limits fuel mysql m' tuple) as H.
  by destruct (receivedMysqlResponse fuel mysql m' tuple).
Qed.

(** The stream between two messages of a loop over [data]. *)
Definition parse_inv (data : bytes) (mysql : Mysql) (x : MysqlStream * (Mysql * W)) : Prop :=
  stream_ok (fst x) /\ (exists pre, data = pre ++ s_data (fst x)) /\ row_limits (fst (snd x)) = row_limits mysql.

(** What comes of a turn. *)
Definition turn_end (fuel : nat) (data : bytes) (mysql : Mysql) (n : nat)
    (o : outcome (MysqlStream * (Mysql * W) + parse_end * (Mysql * W))) : Prop :=
  match o with
  | Ret (inl x) => parse_inv data mysql x /\ (length (s_data (fst x)) < n)%nat
  | Ret (inr (Keep s, _)) => stream_ok s
  | Ret (inr _) => True
  | Panic => False
  | OutOfFuel => exists pre raw post, data = pre ++ raw ++ post /\ parseMysqlResponse fuel mysql raw = OutOfFuel
  end.

Lemma str_slice_piece (s : bytes) lo hi t : str_slice s lo hi = Ret t -> s = take (Z.to_nat lo) s ++ t ++ drop (Z.to_nat hi) s.
Proof.
  unfold str_slice. case_decide as H; [|done]. intros [= <-]. unfold sub.
  replace (Z.to_nat hi) with (Z.to_nat lo + Z.to_nat (hi - lo))%nat by lia.
  by rewrite <- drop_drop, take_drop, take_drop.
Qed.

Lemma step_message ts s :
  stream_ok s ->
  let s1 := match s_message s with None => s <| s_message := Some (newMessage ts) |> | Some _ => s end in
  exists m, s_message s1 = Some m /\ pinv s1 m /\ s_data s1 = s_data s.
Proof.
  unfold stream_ok. destruct (s_message s) as [m|] eqn:E; intros Hs; [by exists m|]. eexists. split; [done|]. split; [|done].
  unfold pinv. cbn. rewrite Hs. pose proof (len_nonneg (s_data s)). repeat split; try done; try (by left); lia.
Qed.

Lemma parse_step_ok fuel ts tcptuple dir data mysql x :
  parse_inv data mysql x -> turn_end fuel data mysql (length (s_data (fst x))) (parse_step fuel ts tcptuple dir x).
Proof.
  destruct x as [s st]. intros (Hs & [pre Epre] & Hlim). cbn [fst snd] in *. unfold parse_step. case_decide as Hl; [|done].
  destruct (step_message ts s Hs) as (m & Em & Hp & Hd). set (s1 := match s_message s with None => _ | Some _ => _ end) in *.
  destruct (parser_ok s1 m Em Hp) as [Hf Hok].
  destruct (mysqlMessageParser s1) as [[s2 [ok complete]]| |] eqn:E; [|done..].
  destruct (Hok _ _ _ eq_refl) as (m2 & Em2 & Hp2 & Hd2 & _ & Hc).
  destruct ok; cbn [negb]; [|done].
  destruct complete; [|unfold turn_end, stream_ok; by rewrite Em2]. destruct (Hc eq_refl) as [_ Hne].
  rewrite Em2. unfold ship. destruct Hp2 as (Ho & Hpl & Hst & [?|He] & _); [done|].
  destruct (str_slice (s_data s2) (m_start m2) (m_end m2)) as [msg| |] eqn:Es; [|done..].
  assert (row_limits (fst (snd (if negb (m_IgnoreMessage m2) then handleMysql fuel st m2 tcptuple dir msg else (Ret tt, st)))) =
    row_limits mysql) as Hlim2.
  { destruct (negb _); [by rewrite handle_limits|done]. }
  destruct (if negb (m_IgnoreMessage m2) then _ else _) as [r st2] eqn:Eh. cbn [fst snd] in Hlim2.
  destruct r; [|done|].
  - unfold PrepareForNewMessage. rewrite Em2, str_from_ok by lia. cbn [obind]. unfold turn_end, parse_inv.
    cbn [fst snd s_data set_field]. split; [|rewrite length_drop, Hd2, Hd; unfold len in *; lia]. split; [done|]. split; [|done].
    exists (pre ++ take (Z.to_nat (m_end m2)) (s_data s2)). rewrite <- app_assoc, take_drop. congruence.
  - destruct (negb (m_IgnoreMessage m2)); [|done].
    pose proof (handle_stuck fuel st m2 tcptuple dir msg) as Hh. rewrite Eh in Hh. specialize (Hh eq_refl).
    eexists (pre ++ take _ _), msg, (drop _ _). split; [|by rewrite (parseMysqlResponse_limits fuel mysql (fst st))].
    rewrite <- app_assoc, <- (str_slice_piece _ _ _ _ Es). congruence.
Qed.

Lemma parse_step_settled ts tcptuple dir x F :
  stream_ok (fst x) -> (2 * S (length (s_data (fst x))) <= F)%nat -> settled (fun n => parse_step n ts tcptuple dir x) F.
Proof.
  destruct x as [s st]. intros Hs HF n. cbn [fst] in *. unfold parse_step. case_decide as Hl; [|by right].
  destruct (step_message ts s Hs) as (m & Em & Hp & Hd). set (s1 := match s_message s with None => _ | Some _ => _ end) in *.
  destruct (parser_ok s1 m Em Hp) as [Hf Hok].
  destruct (mysqlMessageParser s1) as [[s2 [ok complete]]| |] eqn:E; [|by right..].
  destruct (Hok _ _ _ eq_refl) as (m2 & Em2 & _ & Hd2 & _).
  destruct (negb ok); [by right|]. destruct complete; [|by right]. rewrite Em2. unfold ship.
  destruct (str_slice (s_data s2) (m_start m2) (m_end m2)) as [msg| |] eqn:Es; [|by right..].
  destruct (negb (m_IgnoreMessage m2)); [|by right].
  destruct (handle_settled st m2 tcptuple dir msg F n) as [H | ->]; [|left|by right].
  - apply str_slice_piece in Es. assert (length (s_data s2) = length (s_data s)) as El by congruence.
    rewrite Es, !length_app in El. lia.
  - destruct (handleMysql n _ _ _ _ _) as [r st']. cbn in H. by subst r.
Qed.

Definition priv_ok (private : option mysqlPrivateData) : Prop :=
  forall dir s, get2 (default nil2 private) dir = Ret (Some s) -> stream_ok s.

Lemma priv_ok_set2 priv dir o :
  priv_ok (Some priv) -> (forall s, o = Some s -> stream_ok s) -> priv_ok (Some (set2 priv dir o)).
Proof.
  intros Hp Ho d s. cbn. unfold set2, get2.
  pose proof (Hp 0 s : Ret (dir0 priv) = Ret (Some s) -> stream_ok s) as H0.
  pose proof (Hp 1 s : Ret (dir1 priv) = Ret (Some s) -> stream_ok s) as H1.
  repeat case_decide; cbn; intros Hg; try discriminate Hg; injection Hg as Hg; subst; eauto;
    first [apply H0; by rewrite Hg|apply H1; by rewrite Hg].
Qed.

Lemma mysql_received_ok pkt tcptuple old :
  (forall s, old = Some s -> stream_ok s) -> stream_ok (received pkt tcptuple old).
Proof.
  intros H. destruct old as [s|]; unfold received, stream_ok.
  - specialize (H s eq_refl). unfold stream_ok in H. cbn. destruct (s_message s); [|done].
    unfold pinv in *. cbn. rewrite len_app. pose proof (len_nonneg (vis (pk_Payload pkt))).
    destruct H as (? & ? & ? & ? & ?). repeat split; try done; lia.
  - cbn. pose proof (len_nonneg (vis (pk_Payload pkt))). unfold pinv. cbn.
    repeat split; try done; try (by left); lia.
Qed.

Lemma parse_loop_ok fuel n ts tcptuple dir data mysql x :
  parse_inv data mysql x -> (length (s_data (fst x)) < n)%nat ->
  match loop (parse_step fuel ts tcptuple dir) n x with
  | Ret (Keep s', _) => stream_ok s'
  | Ret _ => True
  | Panic => False
  | OutOfFuel => exists pre raw post, data = pre ++ raw ++ post /\ parseMysqlResponse fuel mysql raw = OutOfFuel
  end.
Proof.
  revert x. induction n as [|n IH]; intros x Hx Hn; [lia|]. rewrite loop_S.
  pose proof (parse_step_ok fuel ts tcptuple dir data mysql x Hx) as H.
  destruct (parse_step fuel ts tcptuple dir x) as [[x'|[[] ?]]| |]; try exact H.
  destruct H as [Hx' Hl]. apply IH; [done|lia].
Qed.

Lemma parse_inv_length data mysql x : parse_inv data mysql x -> (length (s_data (fst x)) <= length data)%nat.
Proof. intros (_ & [pre ->] & _). rewrite length_app. lia. Qed.

Lemma parse_loop_settled ts tcptuple dir data mysql s (st : Mysql * W) F :
  parse_inv data mysql (s, st) -> (2 * S (length data) <= F)%nat -> settled (fun n => parse_loop n ts tcptuple dir s st) F.
Proof.
  intros Hx HF. apply settled_loop with (Inv := parse_inv data mysql); [| |done].
  - intros x Hi. apply parse_step_settled; [apply Hi|]. apply parse_inv_length in Hi. lia.
  - intros x y Hi E. pose proof (parse_step_ok F ts tcptuple dir data mysql x Hi) as H. rewrite E in H. apply H.
Qed.

(** The bytes that [Parse] works on. *)
Definition stream_bytes (pkt : Packet) (old : option MysqlStream) : bytes :=
  match old with Some s => s_data s | None => [] end ++ vis (pk_Payload pkt).

(** C12: [Parse] on any packet, with a fuel of twice the bytes it works on, gives a result with
    well-formed streams, panics of the parser being recovered inside.  The one exception is a
    packet on which it gives no result with any fuel: then a message among these bytes is a
    response whose rows [parseMysqlResponse] reads for ever. *)
Theorem mysql_Parse_total fuel pkt tcptuple dir private (st : Mysql * W) old :
  priv_ok private -> get2 (default nil2 private) dir = Ret old ->
  (2 * length (stream_bytes pkt old) + 2 <= fuel)%nat ->
  (exists private' st', Parse fuel pkt tcptuple dir private st = Ret (private', st') /\ priv_ok private') \/
  (exists pre raw post, stream_bytes pkt old = pre ++ raw ++ post /\
     forall n, parseMysqlResponse n (fst st) raw = OutOfFuel) /\
  forall n, Parse n pkt tcptuple dir private st = OutOfFuel.
Proof.
  intros Hp Eo Hf. unfold Parse. rewrite Eo.
  assert (priv_ok (Some (default nil2 private))) as Hp' by exact Hp.
  destruct (too_large _ _); [left; eexists _, _; split; [done|by apply priv_ok_set2]|].
  set (s := received pkt tcptuple old).
  assert (s_data s = stream_bytes pkt old) as Ed by by destruct old.
  assert (parse_inv (stream_bytes pkt old) (fst st) (s, st)) as Hi.
  { split; [apply mysql_received_ok; intros s' ->; by apply (Hp dir)|]. split; [by exists []|done]. }
  pose proof (parse_loop_ok fuel (S (length (s_data s))) (pk_Ts pkt) tcptuple dir _ _ _ Hi ltac:(cbn; lia)) as H.
  pose proof (parse_loop_settled (pk_Ts pkt) tcptuple dir _ _ s st fuel Hi ltac:(lia)) as Hset.
  change (loop _ _ _) with (parse_loop fuel (pk_Ts pkt) tcptuple dir s st) in H.
  destruct (parse_loop fuel _ _ _ _ _) as [[e st']| |] eqn:E; [left|done|right].
  - cbn [obind]. eexists _, _. split; [done|].
    destruct e; [apply priv_ok_set2; naive_solver..|]. intros d s'. unfold get2. cbn. by repeat case_decide.
  - destruct H as (pre & raw & post & Eb & Hr). split.
    + exists pre, raw, post. split; [exact Eb|]. apply settled_never with (F := fuel); [|done].
      apply parseMysqlResponse_settled. rewrite Eb, !length_app in Hf. lia.
    + intros n. by rewrite (settled_never _ _ Hset E n).
Qed.
End ParseTotal.

(** * Commands, OK and ERR packets *)

(** A stream that has just received its first bytes, as [received] makes it. *)
Definition fresh_stream (tcptuple : TcpTuple) (data : bytes) (ts : Z) : MysqlStream :=
  {| s_tcptuple := tcptuple; s_data := data; s_parseOffset := 0; s_parseState := MysqlStateStart;
     s_isClient := false; s_message := Some (newMessage ts) |}.

(** A complete message [m] was read from the front of the stream, [rest] is left. *)
Definition message_read (s : MysqlStream) (m : MysqlMessage) (rest : bytes) : Prop :=
  exists s', mysqlMessageParser s = Ret (s', (true, true)) /\ s_message s' = Some m /\
    PrepareForNewMessage s' = Ret {| s_tcptuple := s_tcptuple s; s_data := rest; s_parseOffset := 0;
      s_parseState := MysqlStateStart; s_isClient := false; s_message := None |}.

Lemma encode_packet_cons seq c p rest :
  encode_packet seq (c :: p) ++ rest =
  to_byte (len (c :: p)) :: to_byte (len (c :: p) / 256) :: to_byte (len (c :: p) / 256 / 256) ::
  to_byte seq :: c :: p ++ rest.
Proof. reflexivity. Qed.

(** What the start state makes of a packet. *)
Definition start_message (ts n seq typ : Z) : MysqlMessage :=
  newMessage ts <| m_PacketLength := n |> <| m_Seq := seq |> <| m_Typ := typ |>.
Definition in_state (s : MysqlStream) (st : MysqlState) (client : bool) : MysqlStream :=
  s <| s_parseState := st |> <| s_isClient := client |>.

Lemma start_step tcptuple seq c p rest ts :
  len (c :: p) < 2 ^ 24 -> 0 <= seq < 256 ->
  let s := fresh_stream tcptuple (encode_packet seq (c :: p) ++ rest) ts in
  let m := start_message ts (len (c :: p)) seq (u8 c) in
  parser_step (s, newMessage ts) =
  if decide (seq = 0) then
    if decide (u8 c = MYSQL_CMD_QUERY)
    then go_on (in_state s MysqlStateEatMessage true) (m <| m_IsRequest := true |>)
    else go_on (in_state s MysqlStateEatMessage true) (m <| m_IgnoreMessage := true |>)
  else if decide (u8 c = 0 \/ u8 c = 254)
  then go_on (in_state s MysqlStateEatMessage false) (m <| m_IsOK := true |>)
  else if decide (u8 c = 255)
  then go_on (in_state s MysqlStateEatMessage false) (m <| m_IsError := true |>)
  else if decide (len (c :: p) = 1)
  then go_on (in_state s MysqlStateEatFields false <| s_parseOffset := 5 |>) (m <| m_NumberOfFields := u8 c |>)
  else go_on (in_state s MysqlStateEatMessage false) (m <| m_IgnoreMessage := true |>).
Proof.
  intros Hl Hs. set (data := encode_packet _ _ ++ rest).
  assert (5 <= len data) as Hd.
  { subst data. rewrite encode_packet_cons. len_lia. }
  cbv zeta. unfold parser_step. cbn [s_parseOffset fresh_stream s_data s_parseState].
  rewrite decide_True by lia. unfold eat_start, rest_len. cbn [s_parseOffset fresh_stream s_data s_isClient negb].
  rewrite decide_False by lia. rewrite !Z.add_0_l.
  assert (at_ data 0 = Ret (to_byte (len (c :: p))) /\ at_ data 1 = Ret (to_byte (len (c :: p) / 256)) /\
    at_ data 2 = Ret (to_byte (len (c :: p) / 256 / 256)) /\ at_ data 3 = Ret (to_byte seq) /\
    at_ data 4 = Ret c) as (-> & -> & -> & -> & ->) by (subst data; by rewrite encode_packet_cons).
  cbn [obind]. rewrite length24_le by len_lia. rewrite u8_to_byte, Z.mod_small by lia.
  unfold start_message, in_state. repeat (case_decide; try done).
Qed.

Lemma eat_message_packet s m seq c p rest :
  s_data s = encode_packet seq (c :: p) ++ rest -> s_parseOffset s = 0 ->
  s_parseState s = MysqlStateEatMessage -> m_PacketLength m = len (c :: p) ->
  parser_step (s, m) =
  message_content (s <| s_parseOffset := 4 + len (c :: p) |>) (m <| m_end := 4 + len (c :: p) |>).
Proof.
  intros Hd Ho Hs Hp. unfold parser_step, eat_message, rest_len. rewrite Ho, Hs, Hd, Hp, encode_packet_cons.
  rewrite decide_True by len_lia. rewrite decide_True by len_lia. by rewrite Z.add_0_l.
Qed.

(** Two turns read a packet that is a message of its own. *)
Lemma packet_message tcptuple seq c p rest ts s m s' m' :
  let data := encode_packet seq (c :: p) ++ rest in
  parser_step (fresh_stream tcptuple data ts, newMessage ts) = go_on s m ->
  s_data s = data -> s_tcptuple s = tcptuple -> s_parseOffset s = 0 -> s_parseState s = MysqlStateEatMessage ->
  m_PacketLength m = len (c :: p) ->
  s' = s <| s_parseOffset := 4 + len (c :: p) |> ->
  message_content s' (m <| m_end := 4 + len (c :: p) |>) = give s' m' true true ->
  m_end m' = 4 + len (c :: p) -> message_read (fresh_stream tcptuple data ts) m' rest.
Proof.
  intros data H1 Hd Ht Ho Hs Hp -> H2 He. exists (s <| s_parseOffset := 4 + len (c :: p) |> <| s_message := Some m' |>).
  split; [|split; [done|]].
  - unfold mysqlMessageParser. cbn [s_message fresh_stream]. unfold parser_fuel. rewrite loop_S, H1. unfold go_on.
    rewrite loop_S, (eat_message_packet s m seq c p rest), H2 by done. done.
  - unfold PrepareForNewMessage. cbn [s_message set_field s_data]. rewrite Hd, He.
    rewrite str_from_ok by (subst data; rewrite encode_packet_cons; len_lia). cbn [obind].
    replace (drop _ data) with rest.
    + by rewrite <- Ht.
    + subst data. replace (4 + len (c :: p)) with (len (encode_packet seq (c :: p))).
      * symmetry. apply drop_len_app.
      * rewrite <- (app_nil_r (encode_packet _ _)), encode_packet_cons, app_nil_r. len_lia.
Qed.

(** The five bytes before the rest of a packet's payload. *)
Lemma encode_packet_split seq c p rest :
  exists h, len h = 5 /\ encode_packet seq (c :: p) ++ rest = h ++ p ++ rest.
Proof. eexists [_; _; _; _; _]. split; [done|]. by rewrite encode_packet_cons. Qed.

Lemma content_request s m q :
  m_IsRequest m = true -> str_slice (s_data s) (m_start m + 5) (m_end m) = Ret q ->
  message_content s m = give s (m <| m_Query := q |>) true true.
Proof. intros H1 H2. unfold message_content. by rewrite H1, H2. Qed.

Lemma content_ok s m a i off off' :
  m_IsRequest m = false -> m_IsOK m = true ->
  read_linteger (s_data s) (m_start m + 5) = Ret (a, off, true, None) ->
  read_linteger (s_data s) off = Ret (i, off', true, None) ->
  message_content s m = give s (m <| m_AffectedRows := a |> <| m_InsertId := i |>) true true.
Proof. intros H1 H2 H3 H4. unfold message_content. rewrite H1, H2, H3. cbn. by rewrite H4. Qed.

Lemma content_error s m hi lo state text :
  m_IsRequest m = false -> m_IsOK m = false -> m_IsError m = true ->
  at_ (s_data s) (m_start m + 6) = Ret hi -> at_ (s_data s) (m_start m + 5) = Ret lo ->
  str_slice (s_data s) (m_start m + 8) (m_start m + 13) = Ret state ->
  str_from (s_data s) (m_start m + 13) = Ret text ->
  message_content s m =
  give s (m <| m_ErrorCode := Z.lor (Z.shiftl (u8 hi) 8) (u8 lo) |>
            <| m_ErrorInfo := state ++ bs ": " ++ text |>) true true.
Proof.
  intros H1 H2 H3 H4 H5 H6 H7. unfold message_content. rewrite H1, H2, H3, H4, H5. cbn [obind].
  change (m_start (m <| m_ErrorCode := _ |>)) with (m_start m). rewrite H6. cbn [obind]. by rewrite H7.
Qed.

(** A query command, as a client sends it, is read back exactly, whatever
    follows it, and the stream is left at the first byte after it. *)
Theorem mysql_query_roundtrip tcptuple query rest ts :
  len query + 1 < 2 ^ 24 ->
  exists m, message_read (fresh_stream tcptuple (encode_packet 0 (x03 :: query) ++ rest) ts) m rest /\
    m_IsRequest m = true /\ m_Query m = query /\ m_IgnoreMessage m = false /\ m_Ts m = ts /\
    m_start m = 0 /\ m_end m = 5 + len query.
Proof.
  intros Hl. destruct (encode_packet_split 0 x03 query rest) as (h & Hh & E).
  eexists. split; [eapply packet_message;
    [rewrite start_step by len_lia; rewrite !decide_True by done; reflexivity
    |done|done|done|done|done|reflexivity| |]|].
  - apply (content_request _ _ query); [done|].
    change (str_slice (encode_packet 0 (x03 :: query) ++ rest) 5 (4 + len (x03 :: query)) = Ret query).
    rewrite E. replace (4 + len (x03 :: query)) with (len h + len query) by len_lia. rewrite <- Hh.
    apply str_slice_mid.
  - done.
  - repeat split. change (4 + len (x03 :: query) = 5 + len query). len_lia.
Qed.

(** An OK packet gives back the affected rows and the insert id, for values whose
    encoding has at most three bytes, whatever follows the packet. *)
Theorem mysql_ok_roundtrip tcptuple seq affected insert_id more rest ts :
  let p := encode_linteger affected ++ encode_linteger insert_id ++ more in
  1 <= seq < 256 -> 0 <= affected < 2 ^ 24 -> 0 <= insert_id < 2 ^ 24 -> len p + 1 < 2 ^ 24 ->
  exists m, message_read (fresh_stream tcptuple (encode_packet seq (x00 :: p) ++ rest) ts) m rest /\
    m_IsOK m = true /\ m_AffectedRows m = affected /\ m_InsertId m = insert_id /\
    m_IsRequest m = false /\ m_IsError m = false /\ m_IgnoreMessage m = false.
Proof.
  intros p Hs Ha Hi Hl. destruct (encode_packet_split seq x00 p rest) as (h & Hh & E).
  eexists. split; [eapply packet_message;
    [rewrite start_step by len_lia; rewrite decide_False by lia; rewrite decide_True by (by left); reflexivity
    |done|done|done|done|done|reflexivity| |]|].
  - eapply (content_ok _ _ affected insert_id); [done..| |].
    + change (m_start _ + 5) with 5. change (s_data _) with (encode_packet seq (x00 :: p) ++ rest).
      rewrite E, <- Hh. unfold p. rewrite <- !app_assoc. by apply read_linteger_enc.
    + change (s_data _) with (encode_packet seq (x00 :: p) ++ rest). rewrite E. unfold p. rewrite <- !app_assoc.
      rewrite (app_assoc h), <- len_app. by apply read_linteger_enc.
  - done.
  - done.
Qed.

(** An ERR packet gives its code and SQL state; the error message taken from it
    runs on over all the data received after the packet ([rest]). *)
Theorem mysql_error_overread tcptuple seq code marker state text rest ts :
  let p := le 2 code ++ [marker] ++ state ++ text in
  1 <= seq < 256 -> 0 <= code < 2 ^ 16 -> len state = 5 -> len p + 1 < 2 ^ 24 ->
  exists m, message_read (fresh_stream tcptuple (encode_packet seq (xff :: p) ++ rest) ts) m rest /\
    m_IsError m = true /\ m_ErrorCode m = code /\ m_ErrorInfo m = state ++ bs ": " ++ text ++ rest.
Proof.
  intros p Hs Hc Hst Hl. destruct (encode_packet_split seq xff p rest) as (h & Hh & E).
  assert (exists h', len h' = 8 /\ encode_packet seq (xff :: p) ++ rest = h' ++ state ++ text ++ rest /\
    at_ (encode_packet seq (xff :: p) ++ rest) 5 = Ret (to_byte code) /\
    at_ (encode_packet seq (xff :: p) ++ rest) 6 = Ret (to_byte (code / 256))) as (h' & Hh' & E' & A5 & A6).
  { exists (h ++ le 2 code ++ [marker]). repeat split; [by rewrite !len_app, Hh|by rewrite E; subst p; rewrite <- !app_assoc|..];
      rewrite encode_packet_cons; done. }
  eexists. split; [eapply packet_message;
    [rewrite start_step by len_lia; rewrite decide_False by lia; rewrite decide_False by (vm_compute; lia);
     rewrite decide_True by done; reflexivity
    |done|done|done|done|done|reflexivity| |]|].
  - apply (content_error _ _ (to_byte (code / 256)) (to_byte code) state (text ++ rest));
      try done; change (m_start _) with 0; change (s_data _) with (encode_packet seq (xff :: p) ++ rest).
    + rewrite E'. replace (0 + 8) with (len h') by lia. replace (0 + 13) with (len h' + len state) by lia.
      apply str_slice_mid.
    + rewrite E', str_from_ok by len_lia. f_equal.
      replace (0 + 13) with (len (h' ++ state)) by len_lia. rewrite app_assoc. apply drop_len_app.
  - done.
  - repeat split. cbn [m_ErrorCode set_field].
    rewrite Z.lor_comm, lor_bytes by (lia || apply u8_bound). rewrite !u8_to_byte.
    Z.to_euclidean_division_equations. lia.
Qed.

(** * Truncated responses *)

(** What a turn says about the end of the message. *)
Definition end_ok (t : turn) : Prop :=
  match t with
  | Ret (inl (_, m')) => m_IsTruncated m' = false
  | Ret (inr (s', m', (_, true))) =>
      if m_IsTruncated m' then m_end m' < s_parseOffset s' else m_end m' = s_parseOffset s'
  | Ret (inr (_, m', (_, false))) => m_IsTruncated m' = false
  | _ => True
  end.

Lemma end_bind {A} (o : outcome A) (k : A -> turn) :
  (forall a, o = Ret a -> end_ok (k a)) -> end_ok (obind o k).
Proof. intros Hk. destruct o; [by apply Hk|done|done]. Qed.

Lemma end_wanted {A} (r : outcome (A * Z * bool * option linteger_error)) s m k :
  m_IsTruncated m = false -> (forall v off, end_ok (k v off)) -> end_ok (wanted r s m k).
Proof.
  intros Hm Hk. unfold wanted. apply end_bind. intros [[[v off] []] []] _; try exact Hm. apply Hk.
Qed.

Lemma parser_step_end s m : pinv s m -> m_IsTruncated m = false -> end_ok (parser_step (s, m)).
Proof.
  intros (Ho & Hp & Hs & He & _) Ht. unfold parser_step. case_decide; [|exact Ht].
  destruct (s_parseState s).
  - unfold eat_start. case_decide; [exact Ht|]. do 5 (apply end_bind; intros ? _).
    repeat case_decide; try destruct (negb (s_isClient s)); exact Ht.
  - unfold eat_message. case_decide; [|exact Ht]. unfold message_content.
    set (s1 := s <| s_parseOffset := _ |>). set (m1 := m <| m_end := _ |>).
    assert (forall m2 ok, m_IsTruncated m2 = false -> m_end m2 = s_parseOffset s1 -> end_ok (give s1 m2 ok true)) as Hg.
    { intros m2 ok E1 E2. unfold end_ok, give. by rewrite E1. }
    destruct (m_IsRequest m1); [|destruct (m_IsOK m1); [|destruct (m_IsError m1)]].
    + apply end_bind. intros q _. by apply Hg.
    + apply end_wanted; [done|]. intros. apply end_wanted; [done|]. intros. by apply Hg.
    + do 4 (apply end_bind; intros ? _). by apply Hg.
    + by apply Hg.
  - unfold eat_fields. case_decide; [exact Ht|]. apply end_bind. intros m1 (n & q & _ & ->)%read_header_ok.
    case_decide; [|exact Ht]. apply end_bind. intros c _. case_decide; [exact Ht|].
    do 3 (apply end_wanted; [exact Ht|]; intros). exact Ht.
  - unfold eat_rows. case_decide; [exact Ht|]. apply end_bind. intros m1 (n & q & Hn & ->)%read_header_ok.
    case_decide; [|exact Ht]. apply end_bind. intros c _. case_decide.
    + cbv zeta. case_decide as Hz.
      * destruct (negb _); unfold end_ok, give; cbn in *; by rewrite Ht.
      * destruct (negb _); unfold end_ok, give; cbn in *; lia.
    + case_decide; exact Ht.
Qed.

(** After a response longer than the payload limit the stream is cut at the limit,
    not at the end of the response: the rows after the cut are parsed again as
    new messages.  After any other message the stream is cut at its end. *)
Theorem mysql_truncated_restart s m s' m' next :
  s_message s = Some m -> pinv s m -> m_IsTruncated m = false ->
  mysqlMessageParser s = Ret (s', (true, true)) -> s_message s' = Some m' ->
  PrepareForNewMessage s' = Ret next ->
  s_data next = drop (Z.to_nat (m_end m')) (s_data s) /\ s_parseState next = MysqlStateStart /\
  (m_IsTruncated m' = true -> m_end m' < s_parseOffset s') /\
  (m_IsTruncated m' = false -> m_end m' = s_parseOffset s').
Proof.
  intros Em Hp Ht Hr Em' Hn. destruct (parser_ok s m Em Hp) as [_ Hok].
  destruct (Hok _ _ _ Hr) as (m2 & E2 & Hp2 & Hd & _). rewrite Em' in E2. injection E2 as <-.
  unfold PrepareForNewMessage in Hn. rewrite Em' in Hn. destruct Hp2 as (Ho & _ & Hs & He & _).
  rewrite str_from_ok in Hn by lia. injection Hn as <-. cbn [s_data s_parseState set_field]. rewrite Hd.
  split; [done|]. split; [done|].
  unfold mysqlMessageParser in Hr. rewrite Em in Hr.
  destruct (loop _ _ _) as [[[t n] r]| |] eqn:E; cbn [obind] in Hr; [|done..].
  injection Hr as <- ->. injection Em' as ->.
  apply (loop_inv parser_step (fun x => pinv (fst x) (snd x) /\ m_IsTruncated (snd x) = false)
    (fun y => end_ok (Ret (inr y)))) in E; [|..|done].
  - cbn in E |- *. by destruct (m_IsTruncated m').
  - intros [t1 n1] [t2 n2] (H1 & H2) Es. pose proof (parser_step_ok t1 n1 H1) as H.
    pose proof (parser_step_end t1 n1 H1 H2) as H'. rewrite Es in H, H'. split; [apply H|exact H'].
  - intros [t1 n1] y (H1 & H2) Es. pose proof (parser_step_end t1 n1 H1 H2) as H. by rewrite Es in H.
Qed.

Lemma fresh_pinv tcptuple data ts : pinv (fresh_stream tcptuple data ts) (newMessage ts).
Proof. unfold pinv. cbn. pose proof (len_nonneg data). repeat split; try lia. Qed.

(** * Examples *)

#[local] Existing Instance Demo.unicode.
#[local] Existing Instance Demo.watcher.

Definition demo_mysql : Mysql :=
  Init {| Ports := []; maxStoreRows := 0; maxRowLength := 0; Send_request := true; Send_response := true;
          transactionsMap := ∅; results := None |} true
    {| cfg_Ports := [3306]; cfg_Max_row_length := None; cfg_Max_rows := None;
       cfg_Send_request := None; cfg_Send_response := None |} (Some []).
Definition demo_query : bytes := encode_packet 0 (x03 :: bs " select a from t").

(** The plugin after the query. *)
Definition after_query : Mysql * unit :=
  match Parse 100 (Demo.packet 0 demo_query) Demo.tuple 1 None (demo_mysql, tt) with
  | Ret (_, st) => st
  | _ => (demo_mysql, tt)
  end.

Lemma no_stream_ok : priv_ok None.
Proof. intros d s. unfold get2. cbn. by repeat case_decide. Qed.

(** A query is read; the response of a row that goes back to the start is not. *)
Lemma mysql_Parse_total_witness :
  (exists private' st', Parse 100 (Demo.packet 0 demo_query) Demo.tuple 1 None (demo_mysql, tt) = Ret (private', st') /\
     priv_ok private') /\
  exists pre raw post, hang_response = pre ++ raw ++ post /\ forall n, parseMysqlResponse n (fst after_query) raw = OutOfFuel.
Proof.
  split.
  - destruct (mysql_Parse_total 100 (Demo.packet 0 demo_query) Demo.tuple 1 None (demo_mysql, tt) None)
      as [H|[_ H]]; [apply no_stream_ok|reflexivity|vm_compute; lia|exact H|].
    specialize (H 100%nat). by vm_compute in H.
  - destruct (mysql_Parse_total 132 (Demo.packet 0 hang_response) Demo.tuple 0 None after_query None)
      as [(private' & st' & H & _)|[H _]]; [apply no_stream_ok|reflexivity|vm_compute; lia| |exact H].
    by vm_compute in H.
Defined.

Lemma mysql_row_hang_witness :
  Parse 7 (Demo.packet 1 hang_response) Demo.tuple 0 None (fst after_query, tt) = OutOfFuel.
Proof.
  assert (match transactionsMap (fst after_query) !! TcpHashable Demo.tuple with
    | Some t => match t_Mysql t with Some _ => true | None => false end
    | None => false
    end = true) as H by (vm_compute; reflexivity).
  destruct (transactionsMap (fst after_query) !! TcpHashable Demo.tuple) as [t|] eqn:Ht; [|discriminate H].
  assert (t_Mysql t <> None) as Hm by (intros E; rewrite E in H; discriminate H).
  apply (mysql_row_hang 7 (Demo.packet 1 hang_response) Demo.tuple 0 (fst after_query) tt t);
    [reflexivity|by left|exact Ht|exact Hm].
Defined.

Lemma mysql_query_roundtrip_witness :
  exists m, message_read (fresh_stream Demo.tuple (encode_packet 0 (x03 :: bs "select 1") ++ [x01]) 5) m [x01] /\
    m_IsRequest m = true /\ m_Query m = bs "select 1" /\ m_IgnoreMessage m = false /\ m_Ts m = 5 /\
    m_start m = 0 /\ m_end m = 5 + len (bs "select 1").
Proof. apply (mysql_query_roundtrip Demo.tuple (bs "select 1") [x01] 5). done. Defined.

Lemma mysql_ok_roundtrip_witness :
  exists m, message_read (fresh_stream Demo.tuple
      (encode_packet 1 (x00 :: encode_linteger 3 ++ encode_linteger 70000 ++ [x02]) ++ []) 5) m [] /\
    m_IsOK m = true /\ m_AffectedRows m = 3 /\ m_InsertId m = 70000 /\
    m_IsRequest m = false /\ m_IsError m = false /\ m_IgnoreMessage m = false.
Proof. apply (mysql_ok_roundtrip Demo.tuple 1 3 70000 [x02] [] 5); done. Defined.

Lemma mysql_error_overread_witness :
  exists m, message_read (fresh_stream Demo.tuple
      (encode_packet 1 (xff :: le 2 1064 ++ bs "#" ++ bs "42000" ++ bs "bad") ++ bs "next") 5) m (bs "next") /\
    m_IsError m = true /\ m_ErrorCode m = 1064 /\ m_ErrorInfo m = bs "42000" ++ bs ": " ++ bs "bad" ++ bs "next".
Proof. apply (mysql_error_overread Demo.tuple 1 1064 x23 (bs "42000") (bs "bad") (bs "next") 5); done. Defined.

(** A result set with one row over the limit and one after it. *)
Definition long_response : bytes :=
  encode_resultset [demo_field (bs "a")]
    [encode_row [Some (replicate (Z.to_nat MAX_PAYLOAD_SIZE) x61)]; encode_row [Some (bs "next")]].
Definition long_stream : MysqlStream := fresh_stream Demo.tuple long_response 0.

Lemma mysql_truncated_restart_witness :
  exists s' m' next, mysqlMessageParser long_stream = Ret (s', (true, true)) /\ s_message s' = Some m' /\
    PrepareForNewMessage s' = Ret next /\ m_end m' < s_parseOffset s' /\
    s_data next = drop (Z.to_nat (m_end m')) (s_data long_stream) /\ s_parseState next = MysqlStateStart.
Proof.
  assert (match mysqlMessageParser long_stream with
    | Ret (s', (true, true)) =>
        match s_message s' with
        | Some m' => match PrepareForNewMessage s' with Ret _ => m_IsTruncated m' | _ => false end
        | None => false
        end
    | _ => false
    end = true) as H by (vm_compute; reflexivity).
  destruct (mysqlMessageParser long_stream) as [[s' [[] []]]| |] eqn:E1; try discriminate H.
  destruct (s_message s') as [m'|] eqn:E2; [|discriminate H].
  destruct (PrepareForNewMessage s') as [next| |] eqn:E3; [|discriminate H..].
  destruct (mysql_truncated_restart long_stream (newMessage 0) s' m' next eq_refl (fresh_pinv _ _ _) eq_refl E1 E2 E3)
    as (Hd & Hs & Ht & _).
  exists s', m', next. exact (conj eq_refl (conj E2 (conj E3 (conj (Ht H) (conj Hd Hs))))).
Defined.
