(* ===== verification/MysqlResultset.v ===== *)
(** MySQL result sets: a response encoded as a server sends it is read back by the
    parser of Mysql.v ([mysqlMessageParser], which finds its end and counts its
    rows) and by the reader of the raw message ([parseMysqlResponse]). *)
From S2P Require Import Mysql.

(** * What is encoded, and what the reader should give *)

Definition value_text (v : option bytes) : bytes := default (bs "NULL") v.

(** At most [maxStoreRows] rows, but always one if there is one. *)
Definition stored_rows (mysql : Mysql) (rows : list (list (option bytes))) : list (list bytes) :=
  take (Nat.max 1 (Z.to_nat (maxStoreRows mysql)))
    (map (fun row => cut_row (maxRowLength mysql) 0 (map value_text row)) rows).

Definition field_ok (f : field_def) : Prop :=
  Forall (fun s : bytes => len s < 2 ^ 24)
    [fd_catalog f; fd_schema f; fd_table f; fd_org_table f; fd_name f; fd_org_name f] /\
  len (encode_field f) < 2 ^ 24.
Definition row_ok (row : list (option bytes)) : Prop :=
  row <> [] /\ Forall (fun v => len (value_text v) < 2 ^ 24) row /\ len (encode_row row) < 2 ^ 24.

Definition field_table (f : field_def) : bytes := fd_schema f ++ bs "." ++ fd_table f.

(** * Packets at a known offset *)

Lemma len_encode_packet q p : len (encode_packet q p) = 4 + len p.
Proof. unfold encode_packet. rewrite !len_app. cbn [le]. autorewrite with go_len. lia. Qed.

(** Lengths of sequences of packets. *)
Ltac packets_lia :=
  rewrite ?len_app, ?len_encode_packet in *; change (len eof_payload) with 5 in *; autorewrite with go_len in *; lia.

Section At.
Context (pre : bytes) (q : Z) (p post data : bytes).
Hypothesis data_eq : data = pre ++ encode_packet q p ++ post.

Lemma packet_at :
  at_ data (len pre) = Ret (to_byte (len p)) /\ at_ data (len pre + 1) = Ret (to_byte (len p / 256)) /\
  at_ data (len pre + 2) = Ret (to_byte (len p / 256 / 256)) /\ at_ data (len pre + 3) = Ret (to_byte q).
Proof. rewrite data_eq, at_pre0, !at_pre by lia. by unfold encode_packet. Qed.

Lemma packet_payload_at c p' : p = c :: p' -> at_ data (len pre + 4) = Ret c.
Proof. intros ->. rewrite data_eq, at_pre by lia. by unfold encode_packet. Qed.

Lemma packet_length_at : len p < 2 ^ 24 -> read_length data (len pre) = Ret (len p).
Proof.
  intros Hp. unfold read_length. destruct packet_at as (-> & -> & -> & _). cbn [obind].
  rewrite length24_le; [done|]. pose proof (len_nonneg p). lia.
Qed.

(** The payload starts four bytes on. *)
Lemma packet_payload_eq : exists h, len h = len pre + 4 /\ data = h ++ p ++ post.
Proof.
  exists (pre ++ le 3 (len p) ++ [to_byte q]). split.
  - rewrite !len_app. cbn [le]. autorewrite with go_len. lia.
  - rewrite data_eq. unfold encode_packet. by rewrite <- !app_assoc.
Qed.

Lemma packet_len_data : len data = len pre + 4 + len p + len post.
Proof. rewrite data_eq, !len_app, len_encode_packet. lia. Qed.

(** [read_header] and the length test of the two states that read packets. *)
Lemma packet_header s m :
  s_data s = data -> s_parseOffset s = len pre -> len p < 2 ^ 24 ->
  read_header s m = Ret (m <| m_PacketLength := len p |> <| m_Seq := u8 (to_byte q) |>).
Proof.
  intros Hd Ho Hp. unfold read_header. rewrite Hd, Ho. destruct packet_at as (-> & -> & -> & ->). cbn [obind].
  rewrite length24_le; [done|]. pose proof (len_nonneg p). lia.
Qed.
End At.

(** No payload that the server encodes as a field or a row looks like EOF. *)
Lemma encode_linteger_head n rest :
  0 <= n < 2 ^ 24 -> exists c l, encode_linteger n ++ rest = c :: l /\ u8 c <> 254 /\ u8 c <> 251.
Proof.
  intros Hn. unfold encode_linteger. repeat case_decide; [..|lia]; cbn [le app]; eexists _, _; (split; [done|]).
  - rewrite u8_to_byte, Z.mod_small by lia. lia.
  - done.
  - done.
Qed.

Lemma encode_lstring_head s rest :
  len s < 2 ^ 24 -> exists c l, encode_lstring s ++ rest = c :: l /\ u8 c <> 254 /\ u8 c <> 251.
Proof.
  intros Hs. unfold encode_lstring. rewrite <- app_assoc. apply encode_linteger_head.
  pose proof (len_nonneg s). lia.
Qed.

Lemma encode_field_head f : field_ok f -> exists c l, encode_field f = c :: l /\ u8 c <> 254.
Proof.
  intros [Hf _]. unfold encode_field.
  destruct (encode_lstring_head (fd_catalog f) (encode_lstring (fd_schema f) ++ encode_lstring (fd_table f) ++
    encode_lstring (fd_org_table f) ++ encode_lstring (fd_name f) ++ encode_lstring (fd_org_name f) ++ fd_rest f))
    as (c & l & E & H & _); [by inversion Hf|]. by exists c, l.
Qed.

Lemma encode_row_head row : row_ok row -> exists c l, encode_row row = c :: l /\ u8 c <> 254.
Proof.
  intros (Hne & Hr & _). destruct row as [|[v|] row]; [done|..]; unfold encode_row; cbn [map concat encode_value].
  - destruct (encode_lstring_head v (concat (map encode_value row))) as (c & l & E & H & _); [by inversion Hr|].
    by exists c, l.
  - by eexists _, _.
Qed.

(** * The parser on fields and rows *)

(** Three strings one after the other. *)
Lemma read_lstring_seq h s1 s2 more :
  len s1 < 2 ^ 24 -> len s2 < 2 ^ 24 ->
  read_lstring (h ++ encode_lstring s1 ++ encode_lstring s2 ++ more) (len h + len (encode_lstring s1)) =
  Ret (s2, len h + len (encode_lstring s1) + len (encode_lstring s2), true, None).
Proof.
  intros H1 H2. rewrite app_assoc, <- len_app. by apply read_lstring_enc.
Qed.

Definition past (s : MysqlStream) (off : Z) : MysqlStream := s <| s_parseOffset := off |>.
Definition with_header (m : MysqlMessage) (n q : Z) : MysqlMessage := m <| m_PacketLength := n |> <| m_Seq := q |>.

Lemma field_step s m pre q f post :
  s_data s = pre ++ encode_packet q (encode_field f) ++ post -> s_parseOffset s = len pre ->
  s_parseState s = MysqlStateEatFields -> field_ok f ->
  parser_step (s, m) =
  go_on (past s (len pre + 4 + len (encode_field f)))
        (with_header m (len (encode_field f)) (u8 (to_byte q)) <| m_Tables := add_table (m_Tables m) (field_table f) |>).
Proof.
  intros Hd Ho Hs Hf. destruct (encode_field_head f Hf) as (c & l & Ec & Hc). destruct Hf as [Hf Hl].
  pose proof (packet_len_data _ _ _ _ _ Hd) as Hlen. pose proof (len_nonneg post). pose proof (len_nonneg (encode_field f)).
  unfold parser_step, eat_fields. rewrite Hs, decide_True by lia.
  unfold rest_len. rewrite decide_False by lia.
  rewrite (packet_header _ _ _ _ _ Hd s m eq_refl Ho Hl). cbn [obind].
  change (m_PacketLength (_ <| m_Seq := _ |>)) with (len (encode_field f)). rewrite decide_True by lia.
  cbn [s_data s_parseOffset set_field]. rewrite Ho, (packet_payload_at _ _ _ _ _ Hd c l Ec). cbn [obind].
  rewrite decide_False by done.
  destruct (packet_payload_eq _ _ _ _ _ Hd) as (h & Hh & Ed). rewrite Ed, <- Hh. unfold encode_field.
  rewrite <- !app_assoc. repeat (apply Forall_cons_1 in Hf as [? Hf]).
  rewrite read_lstring_enc by done. unfold wanted at 1. cbn [obind negb].
  rewrite read_lstring_seq by done. unfold wanted at 1. cbn [obind negb].
  rewrite (app_assoc h), <- len_app, read_lstring_seq by done. unfold wanted. cbn [obind negb].
  reflexivity.
Qed.

Lemma eof_fields_step s m pre q post :
  s_data s = pre ++ encode_packet q eof_payload ++ post -> s_parseOffset s = len pre ->
  s_parseState s = MysqlStateEatFields ->
  parser_step (s, m) =
  go_on (past s (len pre + 9) <| s_parseState := MysqlStateEatRows |>) (with_header m 5 (u8 (to_byte q))).
Proof.
  intros Hd Ho Hs. pose proof (packet_len_data _ _ _ _ _ Hd) as Hlen. pose proof (len_nonneg post).
  change (len eof_payload) with 5 in Hlen.
  unfold parser_step, eat_fields. rewrite Hs, decide_True by lia.
  unfold rest_len. rewrite decide_False by lia.
  rewrite (packet_header _ _ _ _ _ Hd s m eq_refl Ho eq_refl). cbn [obind].
  change (m_PacketLength (_ <| m_Seq := _ |>)) with 5. rewrite decide_True by lia.
  cbn [s_data s_parseOffset set_field]. rewrite Ho, (packet_payload_at _ _ _ _ _ Hd xfe _ eq_refl). cbn [obind].
  rewrite decide_True by done. unfold past. cbn [s_parseOffset set_field m_PacketLength].
  replace (len pre + 9) with (len pre + 4 + 5) by lia. reflexivity.
Qed.

Lemma row_packet_step s m pre q row post :
  s_data s = pre ++ encode_packet q (encode_row row) ++ post -> s_parseOffset s = len pre ->
  s_parseState s = MysqlStateEatRows -> row_ok row -> m_end m = 0 ->
  len pre + 4 + len (encode_row row) <= MAX_PAYLOAD_SIZE ->
  parser_step (s, m) =
  go_on (past s (len pre + 4 + len (encode_row row)))
        (with_header m (len (encode_row row)) (u8 (to_byte q)) <| m_NumberOfRows := m_NumberOfRows m + 1 |>).
Proof.
  intros Hd Ho Hs Hr He Hmax. destruct (encode_row_head row Hr) as (c & l & Ec & Hc). destruct Hr as (_ & _ & Hl).
  pose proof (packet_len_data _ _ _ _ _ Hd) as Hlen. pose proof (len_nonneg post). pose proof (len_nonneg (encode_row row)).
  unfold parser_step, eat_rows. rewrite Hs, decide_True by lia.
  unfold rest_len. rewrite decide_False by lia.
  rewrite (packet_header _ _ _ _ _ Hd s m eq_refl Ho Hl). cbn [obind].
  change (m_PacketLength (_ <| m_Seq := _ |>)) with (len (encode_row row)). rewrite decide_True by lia.
  cbn [s_data s_parseOffset set_field]. rewrite Ho, (packet_payload_at _ _ _ _ _ Hd c l Ec). cbn [obind].
  rewrite decide_False by done. change (m_PacketLength (_ <| m_Seq := _ |>)) with (len (encode_row row)).
  rewrite decide_False by lia. reflexivity.
Qed.

Lemma eof_rows_step s m pre q post :
  s_data s = pre ++ encode_packet q eof_payload ++ post -> s_parseOffset s = len pre ->
  s_parseState s = MysqlStateEatRows -> m_end m = 0 -> m_start m = 0 -> m_IsError m = false ->
  parser_step (s, m) =
  give (past s (len pre + 9))
       (with_header m 5 (u8 (to_byte q)) <| m_end := len pre + 9 |> <| m_Size := uint64_of (len pre + 9) |>
          <| m_IsOK := true |>) true true.
Proof.
  intros Hd Ho Hs He Hst Herr. pose proof (packet_len_data _ _ _ _ _ Hd) as Hlen. pose proof (len_nonneg post).
  change (len eof_payload) with 5 in Hlen.
  unfold parser_step, eat_rows. rewrite Hs, decide_True by lia.
  unfold rest_len. rewrite decide_False by lia.
  rewrite (packet_header _ _ _ _ _ Hd s m eq_refl Ho eq_refl). cbn [obind].
  change (m_PacketLength (_ <| m_Seq := _ |>)) with 5. rewrite decide_True by lia.
  cbn [s_data s_parseOffset set_field]. rewrite Ho, (packet_payload_at _ _ _ _ _ Hd xfe _ eq_refl). cbn [obind].
  rewrite decide_True by done. cbn [m_end set_field]. rewrite decide_True by done.
  cbn [m_IsError set_field m_PacketLength m_start]. rewrite Herr, Hst, Z.sub_0_r. cbn [negb].
  replace (len pre + 4 + 5) with (len pre + 9) by lia. reflexivity.
Qed.

Lemma fields_iter fs pre q post s m :
  s_data s = pre ++ encode_packets q (map encode_field fs) ++ post -> s_parseOffset s = len pre ->
  s_parseState s = MysqlStateEatFields -> Forall field_ok fs ->
  exists n k, iter parser_step (length fs) (s, m) =
    Some (past s (len pre + len (encode_packets q (map encode_field fs))),
          with_header m n k <| m_Tables := foldl add_table (m_Tables m) (map field_table fs) |>).
Proof.
  revert pre q s m. induction fs as [|f fs IH]; intros pre q s m Hd Ho Hs Hf.
  - exists (m_PacketLength m), (m_Seq m). cbn [length iter map encode_packets foldl]. rewrite len_nil, Z.add_0_r, <- Ho.
    by destruct s, m.
  - apply Forall_cons_1 in Hf as [Hf Hfs]. cbn [map encode_packets] in Hd. rewrite <- app_assoc in Hd.
    cbn [length iter]. rewrite (field_step s m pre q f _ Hd Ho Hs Hf). unfold go_on.
    destruct (IH (pre ++ encode_packet q (encode_field f)) (q + 1)
      (past s (len pre + 4 + len (encode_field f)))
      (with_header m (len (encode_field f)) (u8 (to_byte q)) <| m_Tables := add_table (m_Tables m) (field_table f) |>))
      as (n & k & E); [by rewrite <- app_assoc|cbn [s_parseOffset past set_field]; rewrite len_app, len_encode_packet; lia|done|done|].
    exists n, k. rewrite E. cbn [map encode_packets foldl]. rewrite !len_app, Z.add_assoc. reflexivity.
Qed.

Lemma rows_iter rows pre q post s m :
  s_data s = pre ++ encode_packets q (map encode_row rows) ++ post -> s_parseOffset s = len pre ->
  s_parseState s = MysqlStateEatRows -> Forall row_ok rows -> m_end m = 0 ->
  len pre + len (encode_packets q (map encode_row rows)) <= MAX_PAYLOAD_SIZE ->
  exists n k, iter parser_step (length rows) (s, m) =
    Some (past s (len pre + len (encode_packets q (map encode_row rows))),
          with_header m n k <| m_NumberOfRows := m_NumberOfRows m + len rows |>).
Proof.
  revert pre q s m. induction rows as [|r rows IH]; intros pre q s m Hd Ho Hs Hr He Hmax.
  - exists (m_PacketLength m), (m_Seq m). cbn [length iter map encode_packets]. rewrite !len_nil, !Z.add_0_r, <- Ho.
    by destruct s, m.
  - apply Forall_cons_1 in Hr as [Hr Hrs]. cbn [map encode_packets] in Hd, Hmax. rewrite <- app_assoc in Hd.
    rewrite len_app, len_encode_packet in Hmax. pose proof (len_nonneg (encode_packets (q + 1) (map encode_row rows))).
    cbn [length iter]. rewrite (row_packet_step s m pre q r _ Hd Ho Hs Hr He) by lia. unfold go_on.
    destruct (IH (pre ++ encode_packet q (encode_row r)) (q + 1)
      (past s (len pre + 4 + len (encode_row r)))
      (with_header m (len (encode_row r)) (u8 (to_byte q)) <| m_NumberOfRows := m_NumberOfRows m + 1 |>))
      as (n & k & E);
      [by rewrite <- app_assoc|cbn [s_parseOffset past set_field]; rewrite len_app, len_encode_packet; lia|done|done|done
      |rewrite len_app, len_encode_packet; lia|].
    exists n, k. rewrite E. cbn [map encode_packets]. rewrite !len_app, len_cons, !Z.add_assoc. reflexivity.
Qed.

(** The five bytes of the field count, then the fields, and so on. *)
Definition fields_part (fields : list field_def) : bytes := encode_packets 2 (map encode_field fields).
Definition rows_part (fields : list field_def) (rows : list (list (option bytes))) : bytes :=
  encode_packets (3 + len fields) (map encode_row rows).

Lemma encode_resultset_eq fields rows :
  encode_resultset fields (map encode_row rows) =
  encode_packet 1 [to_byte (len fields)] ++ fields_part fields ++ encode_packet (2 + len fields) eof_payload ++
  rows_part fields rows ++ encode_packet (3 + len fields + len rows) eof_payload.
Proof. unfold encode_resultset, len. by rewrite length_map. Qed.

Definition resultset_ok (fields : list field_def) (rows : list (list (option bytes))) : Prop :=
  1 <= len fields <= 250 /\ Forall field_ok fields /\ Forall row_ok rows /\
  len (encode_resultset fields (map encode_row rows)) <= MAX_PAYLOAD_SIZE.

(** The parser's result from the turns it takes. *)
Lemma parser_by_iter tcptuple data ts k s m s' m' :
  iter parser_step k (fresh_stream tcptuple data ts, newMessage ts) = Some (s, m) ->
  parser_step (s, m) = give s' m' true true ->
  mysqlMessageParser (fresh_stream tcptuple data ts) = Ret (s' <| s_message := Some m' |>, (true, true)).
Proof.
  intros Hi Hs. pose proof (parser_ok (fresh_stream tcptuple data ts) (newMessage ts) eq_refl (fresh_pinv _ _ _)) as [Hf _].
  unfold mysqlMessageParser in *. cbn [s_message fresh_stream] in *.
  rewrite (loop_iter_Ret parser_step _ k _ (s, m) (s', m', (true, true)) Hi Hs); [done|].
  intros E. by rewrite E in Hf.
Qed.

Lemma resultset_iter tcptuple fields rows rest ts :
  resultset_ok fields rows ->
  let data := encode_resultset fields (map encode_row rows) ++ rest in
  let o := len (encode_resultset fields (map encode_row rows)) in
  exists k n q s m,
  iter parser_step k (fresh_stream tcptuple data ts, newMessage ts) = Some (s, m) /\
  parser_step (s, m) =
    give (in_state (fresh_stream tcptuple data ts) MysqlStateEatRows false <| s_parseOffset := o |>)
      (with_header (start_message ts 1 1 (len fields)) n q
         <| m_NumberOfFields := len fields |> <| m_Tables := foldl add_table [] (map field_table fields) |>
         <| m_NumberOfRows := len rows |> <| m_end := o |> <| m_Size := o |> <| m_IsOK := true |>) true true.
Proof.
  intros (Hn & Hf & Hr & Hmax) data o.
  set (c := to_byte (len fields)). assert (u8 c = len fields) as Hc by (subst c; rewrite u8_to_byte, Z.mod_small; lia).
  set (eof1 := encode_packet (2 + len fields) eof_payload).
  set (eof2 := encode_packet (3 + len fields + len rows) eof_payload).
  assert (o = 5 + len (fields_part fields) + 9 + len (rows_part fields rows) + 9) as Ho.
  { subst o. rewrite encode_resultset_eq. subst eof1 eof2. packets_lia. }
  assert (data = encode_packet 1 [c] ++ fields_part fields ++ eof1 ++ rows_part fields rows ++ eof2 ++ rest) as Ed.
  { subst data. rewrite encode_resultset_eq, <- !app_assoc. done. }
  set (s0 := fresh_stream tcptuple data ts).
  (* the field count *)
  assert (parser_step (s0, newMessage ts) =
    go_on (in_state s0 MysqlStateEatFields false <| s_parseOffset := 5 |>)
          (start_message ts 1 1 (u8 c) <| m_NumberOfFields := u8 c |>)) as Hs.
  { subst s0. rewrite Ed, start_step by done. rewrite decide_False by lia.
    rewrite decide_False by lia. rewrite decide_False by lia. by rewrite decide_True by done. }
  rewrite Hc in Hs. set (s1 := in_state s0 _ _ <| s_parseOffset := 5 |>) in Hs.
  set (m1 := start_message ts 1 1 (len fields) <| m_NumberOfFields := _ |>) in Hs.
  (* the fields *)
  destruct (fields_iter fields (encode_packet 1 [c]) 2 (eof1 ++ rows_part fields rows ++ eof2 ++ rest) s1 m1)
    as (n1 & q1 & Hi1); [exact Ed|done|done|done|].
  set (o2 := len (encode_packet 1 [c]) + len (encode_packets 2 (map encode_field fields))) in Hi1.
  assert (o2 = 5 + len (fields_part fields)) as Eo2 by (subst o2; by rewrite len_encode_packet).
  set (m2 := with_header m1 n1 q1 <| m_Tables := _ |>) in Hi1.
  pose proof (eof_fields_step (past s1 o2) m2 (encode_packet 1 [c] ++ fields_part fields) (2 + len fields)
    (rows_part fields rows ++ eof2 ++ rest)) as He1.
  rewrite len_app, len_encode_packet in He1.
  specialize (He1 ltac:(rewrite <- app_assoc; exact Ed) Eo2 eq_refl).
  set (o3 := 4 + len [c] + len (fields_part fields) + 9) in He1.
  (* the rows *)
  set (s3 := past (past s1 o2) o3 <| s_parseState := MysqlStateEatRows |>) in He1.
  set (m3 := with_header m2 5 _) in He1.
  destruct (rows_iter rows (encode_packet 1 [c] ++ fields_part fields ++ eof1) (3 + len fields) (eof2 ++ rest) s3 m3)
    as (n4 & q4 & Hi4).
  { rewrite <- !app_assoc. exact Ed. }
  { change (o3 = len (encode_packet 1 [c] ++ fields_part fields ++ eof1)). subst o3 eof1. packets_lia. }
  { done. } { done. } { done. }
  { fold (rows_part fields rows). fold o in Hmax. subst eof1. packets_lia. }
  set (o4 := len _ + len _) in Hi4. set (m4 := with_header m3 n4 q4 <| m_NumberOfRows := _ |>) in Hi4.
  assert (o4 = len (encode_packet 1 [c] ++ fields_part fields ++ eof1 ++ rows_part fields rows)) as Eo4.
  { subst o4. fold (rows_part fields rows). rewrite !len_app. lia. }
  pose proof (eof_rows_step (past s3 o4) m4 (encode_packet 1 [c] ++ fields_part fields ++ eof1 ++ rows_part fields rows)
    (3 + len fields + len rows) rest) as He2.
  specialize (He2 ltac:(rewrite <- !app_assoc; exact Ed) Eo4 eq_refl eq_refl eq_refl eq_refl).
  assert (len (encode_packet 1 [c] ++ fields_part fields ++ eof1 ++ rows_part fields rows) + 9 = o) as Eo.
  { subst eof1. packets_lia. }
  rewrite Eo in He2. rewrite wrapU_small in He2 by (unfold MAX_PAYLOAD_SIZE in Hmax; pose proof (len_nonneg (fields_part fields));
    pose proof (len_nonneg (rows_part fields rows)); lia).
  eexists (1 + (length fields + (1 + length rows)))%nat, 5, _, (past s3 o4), m4. split; [|exact He2].
  apply (iter_app _ _ _ _ (s1, m1)); [cbn [iter]; by rewrite Hs|].
  apply (iter_app _ _ _ _ (past s1 o2, m2)); [exact Hi1|].
  apply (iter_app _ _ _ _ (s3, m3)); [cbn [iter]; by rewrite He1|]. exact Hi4.
Qed.

(** * The reader of the raw response *)

Lemma read_lstrings_enc ss h more :
  Forall (fun s : bytes => len s < 2 ^ 24) ss ->
  read_lstrings (h ++ concat (map encode_lstring ss) ++ more) (length ss) (len h) = Ret (Some ss).
Proof.
  revert h. induction ss as [|s ss IH]; intros h Hs; [done|]. apply Forall_cons_1 in Hs as [Hs Hss].
  cbn [length read_lstrings map concat]. rewrite <- app_assoc, read_lstring_enc by done. cbn [obind negb].
  rewrite (app_assoc h), <- len_app, IH by done. done.
Qed.

Lemma fields_step_field data pre q f post acc :
  data = pre ++ encode_packet q (encode_field f) ++ post -> field_ok f ->
  fields_step data (len pre, acc) = Ret (inl (len pre + len (encode_packet q (encode_field f)), acc ++ [fd_name f])).
Proof.
  intros Hd Hf. destruct (encode_field_head f Hf) as (c & l & Ec & Hc). destruct Hf as [Hf Hl].
  unfold fields_step. rewrite (packet_length_at _ _ _ _ _ Hd Hl), (packet_payload_at _ _ _ _ _ Hd c l Ec).
  cbn [obind]. rewrite decide_False by done.
  destruct (packet_payload_eq _ _ _ _ _ Hd) as (h & Hh & Ed). rewrite <- Hh, Ed.
  replace (encode_field f) with (concat (map encode_lstring
    [fd_catalog f; fd_schema f; fd_table f; fd_org_table f; fd_name f; fd_org_name f]) ++ fd_rest f) at 1
    by (unfold encode_field; cbn [map concat]; by rewrite !app_nil_r, <- !app_assoc).
  rewrite <- app_assoc. change 6%nat with (length [fd_catalog f; fd_schema f; fd_table f; fd_org_table f; fd_name f; fd_org_name f]).
  rewrite read_lstrings_enc by done. cbn [obind]. rewrite len_encode_packet.
  replace (len pre + len (encode_field f) + 4) with (len pre + (4 + len (encode_field f))) by lia. done.
Qed.

Lemma fields_step_eof data pre q post acc :
  data = pre ++ encode_packet q eof_payload ++ post ->
  fields_step data (len pre, acc) = Ret (inr (Some (len pre + 9), acc)).
Proof.
  intros Hd. unfold fields_step.
  rewrite (packet_length_at _ _ _ _ _ Hd eq_refl), (packet_payload_at _ _ _ _ _ Hd xfe _ eq_refl). cbn [obind].
  rewrite decide_True by done. change (len eof_payload) with 5.
  by replace (len pre + 5 + 4) with (len pre + 9) by lia.
Qed.

Lemma fields_loop fs data pre q q' post acc n :
  data = pre ++ encode_packets q (map encode_field fs) ++ encode_packet q' eof_payload ++ post ->
  Forall field_ok fs -> (length fs < n)%nat ->
  loop (fields_step data) n (len pre, acc) =
  Ret (Some (len pre + len (encode_packets q (map encode_field fs)) + 9), acc ++ map fd_name fs).
Proof.
  revert pre q acc n. induction fs as [|f fs IH]; intros pre q acc n Hd Hf Hn; (destruct n as [|n]; [lia|]); rewrite loop_S.
  - rewrite (fields_step_eof _ _ _ _ _ Hd). cbn [map encode_packets]. by rewrite len_nil, Z.add_0_r, app_nil_r.
  - apply Forall_cons_1 in Hf as [Hf Hfs]. cbn [map encode_packets] in Hd |- *. rewrite <- app_assoc in Hd.
    rewrite (fields_step_field _ _ _ _ _ _ Hd Hf), <- len_app.
    rewrite (IH _ (q + 1)) by (try rewrite <- app_assoc; done || (cbn in Hn; lia)).
    rewrite !len_app, <- app_assoc, !Z.add_assoc. done.
Qed.

Lemma row_step_value data h v post limit stop acc used :
  data = h ++ encode_value v ++ post -> len (value_text v) < 2 ^ 24 -> len h < stop ->
  row_step data limit stop (len h, acc, used) =
  Ret (inl (len h + len (encode_value v),
            if decide (used < limit) then acc ++ [take (Z.to_nat (limit - used)) (value_text v)] else acc,
            if decide (used < limit) then used + len (take (Z.to_nat (limit - used)) (value_text v)) else used)).
Proof.
  intros Hd Hv Hs. unfold row_step. rewrite decide_True by done.
  assert (exists c, at_ data (len h) = Ret c /\ (if decide (u8 c = 251) then Ret (Some (bs "NULL", len h + 1)) else
    let! '(text, off, complete, err) := read_lstring data (len h) in
    match err with Some _ => Ret None | None => Ret (Some (text, off)) end) =
    Ret (Some (value_text v, len h + len (encode_value v)))) as (c & -> & E).
  { rewrite Hd, at_pre0. destruct v as [s|]; cbn [encode_value value_text default] in *.
    - destruct (encode_lstring_head s post Hv) as (c & l & El & _ & Hc). exists c. split; [by rewrite El|].
      rewrite decide_False, read_lstring_enc by done. done.
    - exists xfb. done. }
  cbn [obind]. rewrite E. clear E. cbn [obind]. case_decide; [|done]. case_decide.
  - unfold str_slice. rewrite decide_True by lia. cbn [obind]. unfold sub. cbn [Z.to_nat drop]. by rewrite Z.sub_0_r.
  - rewrite take_ge by (unfold len in *; lia). done.
Qed.

Lemma row_loop row data h post limit acc used n :
  data = h ++ encode_row row ++ post -> Forall (fun v => len (value_text v) < 2 ^ 24) row -> (length row < n)%nat ->
  loop (row_step data limit (len h + len (encode_row row))) n (len h, acc, used) =
  Ret (Some (acc ++ cut_row limit used (map value_text row))).
Proof.
  revert h acc used n. induction row as [|v row IH]; intros h acc used n Hd Hr Hn; (destruct n as [|n]; [lia|]); rewrite loop_S.
  - unfold row_step. rewrite decide_False by (change (len (encode_row [])) with 0; lia). by rewrite app_nil_r.
  - apply Forall_cons_1 in Hr as [Hv Hr]. unfold encode_row in Hd |- *. cbn [map concat] in Hd |- *.
    rewrite <- app_assoc in Hd. fold (encode_row row) in Hd |- *.
    assert (0 < len (encode_value v)) as Hpos.
    { destruct v as [s|]; cbn [encode_value value_text default] in *; [|done].
      destruct (encode_lstring_head s [] Hv) as (c & l & El & _). rewrite app_nil_r in El. rewrite El. len_lia. }
    rewrite (row_step_value data h v (encode_row row ++ post)) by (done || len_lia).
    replace (len h + len (encode_value v ++ encode_row row)) with (len (h ++ encode_value v) + len (encode_row row))
      by (rewrite !len_app; lia).
    rewrite <- (len_app h (encode_value v)), IH by (try rewrite <- app_assoc; done || (cbn in Hn; lia)).
    cbn [map cut_row]. case_decide; [by rewrite <- app_assoc|].
    assert (forall vs, cut_row limit used vs = []) as ->; [|done].
    intros [|x vs]; cbn; [done|]. by rewrite decide_False.
Qed.

Lemma rows_step_row fuel mysql data pre q row post acc :
  data = pre ++ encode_packet q (encode_row row) ++ post -> row_ok row -> (length row < fuel)%nat ->
  rows_step fuel mysql data (len pre, acc) =
  let acc := acc ++ [cut_row (maxRowLength mysql) 0 (map value_text row)] in
  Ret (if decide (len acc >= maxStoreRows mysql) then inr acc
       else inl (len pre + len (encode_packet q (encode_row row)), acc)).
Proof.
  intros Hd Hr Hf. destruct (encode_row_head row Hr) as (c & l & Ec & Hc). destruct Hr as (_ & Hv & Hl).
  pose proof (packet_len_data _ _ _ _ _ Hd) as Hlen. pose proof (len_nonneg post). pose proof (len_nonneg (encode_row row)).
  unfold rows_step. rewrite decide_True by lia.
  rewrite (packet_payload_at _ _ _ _ _ Hd c l Ec). cbn [obind]. rewrite decide_False by done.
  rewrite (packet_length_at _ _ _ _ _ Hd Hl). cbn [obind].
  destruct (packet_payload_eq _ _ _ _ _ Hd) as (h & Hh & Ed). rewrite <- Hh.
  rewrite (row_loop row data h post) by done. cbn [obind app]. rewrite len_encode_packet.
  case_decide; [done|].
  by replace (len pre + len (encode_row row) + 4) with (len pre + (4 + len (encode_row row))) by lia.
Qed.

Lemma rows_loop rows fuel mysql data pre q q' post acc n :
  data = pre ++ encode_packets q (map encode_row rows) ++ encode_packet q' eof_payload ++ post ->
  Forall row_ok rows -> Forall (fun row => length row < fuel)%nat rows -> (length rows < n)%nat ->
  (length acc < Nat.max 1 (Z.to_nat (maxStoreRows mysql)))%nat ->
  loop (rows_step fuel mysql data) n (len pre, acc) =
  Ret (acc ++ take (Nat.max 1 (Z.to_nat (maxStoreRows mysql)) - length acc)
                (map (fun row => cut_row (maxRowLength mysql) 0 (map value_text row)) rows)).
Proof.
  revert pre q acc n. induction rows as [|r rows IH]; intros pre q acc n Hd Hr Hf Hn Ha;
    (destruct n as [|n]; [lia|]); rewrite loop_S.
  - unfold rows_step. cbn [map encode_packets app] in Hd.
    pose proof (packet_len_data _ _ _ _ _ Hd) as Hlen. pose proof (len_nonneg post).
    change (len eof_payload) with 5 in Hlen. rewrite decide_True by lia.
    rewrite (packet_payload_at _ _ _ _ _ Hd xfe _ eq_refl). cbn [obind]. rewrite decide_True by done.
    cbn [map]. by rewrite take_nil, app_nil_r.
  - apply Forall_cons_1 in Hr as [Hr Hrs]. apply Forall_cons_1 in Hf as [Hf Hfs].
    cbn [map encode_packets] in Hd. rewrite <- app_assoc in Hd.
    rewrite (rows_step_row fuel mysql data pre q r _ acc Hd Hr Hf). cbv zeta.
    set (row := cut_row _ _ _) in *. cbn [map]. fold row.
    destruct (Nat.max 1 (Z.to_nat (maxStoreRows mysql)) - length acc)%nat as [|k] eqn:Ek; [lia|].
    cbn [take]. case_decide as Hm.
    + assert (k = 0)%nat as ->; [|done]. unfold len in Hm. rewrite length_app in Hm. cbn in Hm. lia.
    + unfold len in Hm. rewrite length_app in Hm. cbn in Hm. rewrite <- len_app.
      rewrite (IH _ (q + 1)) by (try rewrite <- app_assoc; try rewrite length_app; done || (cbn in *; lia)).
      rewrite <- app_assoc. cbn [app]. rewrite length_app. cbn [length].
      replace (Nat.max 1 (Z.to_nat (maxStoreRows mysql)) - (length acc + 1))%nat with k by lia. done.
Qed.

Lemma len_encode_packets q ps : len ps <= len (encode_packets q ps).
Proof.
  revert q. induction ps as [|p ps IH]; intros q; cbn [encode_packets]; [done|].
  rewrite len_cons, len_app, len_encode_packet. specialize (IH (q + 1)). pose proof (len_nonneg p). lia.
Qed.

(** C11: a result set of up to 250 columns and any number of rows, all in the buffer as a whole
    and under the payload limit, is read back: the parser finds the end of the response
    exactly and gives its columns, rows, tables and size, and the reader of the
    raw response gives the column names and the rows cut to the configured
    limits. *)
Theorem mysql_resultset_roundtrip tcptuple fields rows rest ts mysql fuel :
  let data := encode_resultset fields (map encode_row rows) in
  resultset_ok fields rows -> Forall (fun row => length row < fuel)%nat rows ->
  (exists m, message_read (fresh_stream tcptuple (data ++ rest) ts) m rest /\
     m_IsRequest m = false /\ m_IsOK m = true /\ m_IgnoreMessage m = false /\ m_IsTruncated m = false /\
     m_NumberOfFields m = len fields /\ m_NumberOfRows m = len rows /\
     m_Tables m = foldl add_table [] (map field_table fields) /\
     m_start m = 0 /\ m_end m = len data /\ m_Size m = len data) /\
  parseMysqlResponse fuel mysql data = Ret (map fd_name fields, stored_rows mysql rows).
Proof.
  intros data Hok Hfuel. split.
  - destruct (resultset_iter tcptuple fields rows rest ts Hok) as (k & n & q & s & m & Hi & Hs).
    eexists. split.
    + eexists. split; [apply (parser_by_iter _ _ _ k s m _ _ Hi Hs)|].
      split; [done|]. unfold PrepareForNewMessage. cbn [s_message set_field s_data in_state fresh_stream m_end].
      rewrite str_from_ok by len_lia. by rewrite drop_len_app.
    + by repeat split.
  - destruct Hok as (Hn & Hf & Hr & Hmax).
    unfold parseMysqlResponse. subst data. rewrite encode_resultset_eq.
    set (c := to_byte (len fields)).
    assert (u8 c = len fields) as Hc by (subst c; rewrite u8_to_byte, Z.mod_small; lia).
    set (data := encode_packet 1 [c] ++ _).
    change (read_length data 0) with (Ret 1). change (at_ data 4) with (Ret c). cbn [obind].
    rewrite !decide_False by lia.
    assert (len fields + len rows < len data) as Hlen.
    { pose proof (len_encode_packets 2 (map encode_field fields)).
      pose proof (len_encode_packets (3 + len fields) (map encode_row rows)).
      subst data. unfold fields_part, rows_part.
      rewrite !len_map in *. packets_lia. }
    unfold len in Hlen.
    change 5 with (len (encode_packet 1 [c])) at 1.
    rewrite (fields_loop fields data (encode_packet 1 [c]) 2 (2 + len fields)
      (rows_part fields rows ++ encode_packet (3 + len fields + len rows) eof_payload)) by (done || lia).
    cbn [obind app]. fold (fields_part fields).
    replace (len (encode_packet 1 [c]) + len (fields_part fields) + 9)
      with (len (encode_packet 1 [c] ++ fields_part fields ++ encode_packet (2 + len fields) eof_payload)) by packets_lia.
    rewrite (rows_loop rows fuel mysql data _ (3 + len fields) (3 + len fields + len rows) [])
      by first [done|lia|cbn [length]; lia|unfold data; by rewrite <- !app_assoc, app_nil_r].
    cbn [obind app length]. unfold stored_rows. by rewrite Nat.sub_0_r.
Qed.

(** * Examples *)

Definition demo_fields : list field_def := [demo_field (bs "a"); demo_field (bs "b")].
Definition demo_rows : list (list (option bytes)) := [[Some (bs "1"); None]; [Some (bs "2"); Some (bs "x")]].

Lemma mysql_resultset_roundtrip_witness :
  let data := encode_resultset demo_fields (map encode_row demo_rows) in
  (exists m, message_read (fresh_stream Demo.tuple (data ++ [x01]) 5) m [x01] /\
     m_IsRequest m = false /\ m_IsOK m = true /\ m_IgnoreMessage m = false /\ m_IsTruncated m = false /\
     m_NumberOfFields m = 2 /\ m_NumberOfRows m = 2 /\
     m_Tables m = bs "db.t" /\ m_start m = 0 /\ m_end m = len data /\ m_Size m = len data) /\
  parseMysqlResponse 3 demo_mysql data = Ret ([bs "a"; bs "b"], [[bs "1"; bs "NULL"]; [bs "2"; bs "x"]]).
Proof.
  apply (mysql_resultset_roundtrip Demo.tuple demo_fields demo_rows [x01] 5 demo_mysql 3).
  - split; [by vm_compute|]. split; [repeat constructor|]. split; [|by vm_compute].
    repeat constructor; done.
  - repeat constructor.
Defined.
