(* ===== verification/MysqlTransactions.v ===== *)
(** MySQL transactions: the invariant of the transactions map under any
    interleaving of messages and timers, and the event that a query and its
    response become. *)
From S2P Require Import Mysql MysqlResultset.

Section Transactions.
Context {UC : Unicode} {W : Type} {PW : ProcWatcher W}.

(** Every pending transaction is filed under its own tuple, has received its
    request and has a running timer that will remove it. *)
Definition Mysql_ok (mysql : Mysql) : Prop :=
  map_Forall (fun k t => TcpHashable (t_tuple t) = k /\ t_timer t = true /\ is_Some (t_Mysql t))
    (transactionsMap mysql).

Definition sent (mysql : Mysql) : list MapStr := default [] (results mysql).

(** Events sent and transactions pending. *)
Definition weight (mysql : Mysql) : nat := (length (sent mysql) + size (transactionsMap mysql))%nat.

Lemma mysql_request_ok mysql m tuple c : Mysql_ok mysql -> Mysql_ok (receivedMysqlRequest mysql m tuple c).
Proof.
  intros H. unfold receivedMysqlRequest. destruct (endpoints _ _ _) as [src dst].
  apply map_Forall_insert_2; [|exact H].
  destruct (transactionsMap mysql !! TcpHashable tuple) as [t|] eqn:E; [|by repeat split].
  apply H in E as (E & _). by repeat split.
Qed.

Lemma mysql_request_weight mysql m tuple c : (weight (receivedMysqlRequest mysql m tuple c) <= S (weight mysql))%nat.
Proof.
  unfold receivedMysqlRequest, weight, sent. destruct (endpoints _ _ _) as [src dst]. cbn.
  rewrite map_size_insert. destruct (transactionsMap mysql !! TcpHashable tuple); cbn; lia.
Qed.

(** A response leaves the map as it was, or with its transaction updated in place (when
    decoding it panics), or publishes at most one event and removes the transaction. *)
Lemma response_cases fuel mysql m tuple :
  Mysql_ok mysql ->
  let mysql' := snd (receivedMysqlResponse fuel mysql m tuple) in
  mysql' = mysql \/
  exists t t', transactionsMap mysql !! TcpHashable tuple = Some t /\ t_tuple t' = t_tuple t /\
    t_timer t' = t_timer t /\ is_Some (t_Mysql t') /\
    ((transactionsMap mysql' = <[TcpHashable tuple := t']> (transactionsMap mysql) /\ sent mysql' = sent mysql) \/
     (transactionsMap mysql' = delete (TcpHashable tuple) (transactionsMap mysql) /\
      (length (sent mysql') <= S (length (sent mysql)))%nat)).
Proof.
  intros Hok. unfold receivedMysqlResponse.
  destruct (transactionsMap mysql !! TcpHashable tuple) as [t|] eqn:Et; [|by left].
  destruct (Hok _ _ Et) as (Hk & _ & _). destruct (t_Mysql t) as [f|]; [|by left]. cbv zeta.
  set (t1 := t <| t_Mysql := _ |> <| t_Size := _ |> <| t_Path := _ |> <| t_ResponseTime := _ |>).
  set (mysql1 := mysql <| transactionsMap := _ |>). set (raw := if decide _ then _ else _).
  assert (forall t2, raw = Ret t2 -> t_tuple t2 = t_tuple t) as Hraw.
  { subst raw. intros t2. case_decide; [|by intros [= <-]].
    destruct (parseMysqlResponse _ _ _) as [[? ?]| |]; [|done..]. by intros [= <-]. }
  right. exists t, t1. do 4 (split; [done|]).
  destruct raw as [t2| |]; [|by left..].
  destruct (publish_cases mysql1 t2) as [-> |[-> |(l & ev & Hl & ->)]]; [right|by left|right].
  all: rewrite (Hraw t2 eq_refl), Hk; cbn [snd].
  - change (transactionsMap (mysql1 <| transactionsMap := ?x |>)) with x.
    change (transactionsMap mysql1) with (<[TcpHashable tuple := t1]> (transactionsMap mysql)).
    rewrite delete_insert_eq. split; [done|]. change (sent _) with (sent mysql). lia.
  - change (transactionsMap (?y <| transactionsMap := ?x |>)) with x.
    change (transactionsMap (mysql1 <| results := _ |>)) with (<[TcpHashable tuple := t1]> (transactionsMap mysql)).
    rewrite delete_insert_eq. split; [done|]. change (results mysql1) with (results mysql) in Hl.
    unfold sent. cbn. rewrite Hl, length_app. cbn. lia.
Qed.

Lemma mysql_response_ok fuel mysql m tuple :
  Mysql_ok mysql -> Mysql_ok (snd (receivedMysqlResponse fuel mysql m tuple)).
Proof.
  intros Hok. destruct (response_cases fuel mysql m tuple Hok) as [-> |(t & t' & Et & E1 & E2 & E3 & [[E _]|[E _]])];
    [done|unfold Mysql_ok; rewrite E..].
  - apply map_Forall_insert_2; [|done]. destruct (Hok _ _ Et) as (? & ? & _). by rewrite E1, E2.
  - by apply map_Forall_delete.
Qed.

Lemma mysql_response_weight fuel mysql m tuple :
  Mysql_ok mysql -> (weight (snd (receivedMysqlResponse fuel mysql m tuple)) <= weight mysql)%nat.
Proof.
  intros Hok. destruct (response_cases fuel mysql m tuple Hok) as [-> |(t & t' & Et & _ & _ & _ & [[E Es]|[E Es]])];
    [done|unfold weight; rewrite E..].
  - rewrite Es, map_size_insert, Et. done.
  - rewrite map_size_delete, Et. cbn. assert (size (transactionsMap mysql) <> 0%nat); [|lia].
    intros E0. apply map_size_empty_inv in E0. by rewrite E0 in Et.
Qed.

(** What happens to the plugin: a complete message arrives (and its handler may
    panic), or a timer runs. *)
Inductive action :=
| AMessage (m : MysqlMessage) (tuple : TcpTuple) (dir : Z) (raw : bytes)
| ATimer (key : bytes).

Definition exec (fuel : nat) (st : Mysql * W) (a : action) : Mysql * W :=
  match a with
  | AMessage m tuple dir raw => snd (handleMysql fuel st m tuple dir raw)
  | ATimer key =>
      match transactionsMap (fst st) !! key with
      | Some t => if t_timer t then (expireTransaction (fst st) t, snd st) else st
      | None => st
      end
  end.

Definition is_request (a : action) : bool :=
  match a with AMessage m _ _ _ => m_IsRequest m | ATimer _ => false end.
Definition requests (acts : list action) : nat := length (List.filter is_request acts).

Lemma mysql_exec_step fuel st a :
  Mysql_ok (fst st) ->
  Mysql_ok (fst (exec fuel st a)) /\
  (weight (fst (exec fuel st a)) <= weight (fst st) + (if is_request a then 1 else 0))%nat.
Proof.
  destruct st as [mysql w]. intros Hok. destruct a as [m tuple dir raw|key]; cbn [exec is_request fst].
  - unfold handleMysql. destruct (FindProcessesTuple (IpPort tuple) w) as [c w'].
    cbv zeta. set (m' := m <| m_TcpTuple := _ |> <| m_Direction := _ |> <| m_CmdlineTuple := _ |> <| m_Raw := _ |>).
    change (m_IsRequest m') with (m_IsRequest m). destruct (m_IsRequest m); cbn [fst snd].
    + split; [by apply mysql_request_ok|]. pose proof (mysql_request_weight mysql m' tuple c). lia.
    + pose proof (mysql_response_ok fuel mysql m' tuple Hok). pose proof (mysql_response_weight fuel mysql m' tuple Hok).
      destruct (receivedMysqlResponse fuel mysql m' tuple) as [r mysql']. cbn [fst snd] in *. split; [done|lia].
  - destruct (transactionsMap mysql !! key) as [t|]; [|split; [done|cbn [fst]; lia]].
    destruct (t_timer t); [|split; [done|cbn [fst]; lia]]. cbn [fst snd].
    split; [by apply map_Forall_delete|].
    unfold weight, expireTransaction, sent. cbn. rewrite map_size_delete.
    destruct (transactionsMap mysql !! _); cbn; lia.
Qed.

(** Over any interleaving of messages and timers, panics of the handlers included,
    every pending transaction stays under its own tuple with a running timer that
    removes it, and the events published never outnumber the queries seen. *)
Theorem mysql_transactions_invariant fuel acts st :
  Mysql_ok (fst st) ->
  let st' := foldl (exec fuel) st acts in
  Mysql_ok (fst st') /\
  (length (sent (fst st')) + size (transactionsMap (fst st')) <=
   length (sent (fst st)) + size (transactionsMap (fst st)) + requests acts)%nat /\
  (forall k t, transactionsMap (fst st') !! k = Some t ->
     transactionsMap (fst (exec fuel st' (ATimer k))) = delete k (transactionsMap (fst st'))).
Proof.
  intros Hok. cbv zeta.
  assert (Mysql_ok (fst (foldl (exec fuel) st acts)) /\
    (weight (fst (foldl (exec fuel) st acts)) <= weight (fst st) + requests acts)%nat) as [Hf Hw].
  { revert st Hok. induction acts as [|a acts IH]; intros st Hok; cbn [foldl]; [split; [done|cbn; lia]|].
    destruct (mysql_exec_step fuel st a Hok) as [Hok' Hw]. destruct (IH _ Hok') as [? Hw']. split; [done|].
    unfold requests in *. cbn [List.filter]. destruct (is_request a); cbn [length]; lia. }
  split; [done|]. split; [exact Hw|].
  revert Hf. generalize (foldl (exec fuel) st acts). intros [mysql w] Hf k t Hk. cbn [fst] in *.
  destruct (Hf _ _ Hk) as (Hkey & Htm & _). unfold exec. cbn [fst]. rewrite Hk, Htm.
  unfold expireTransaction. cbn. by rewrite Hkey.
Qed.

(** A query and the response that follows it on the same connection become one
    event, with the trimmed query, its first word as method, the tables, counts
    and error of the response, and the result set as CSV if responses are sent;
    nothing is left pending. *)
Theorem mysql_request_response_published fuel mysql l req resp tuple c fields rows :
  Mysql_ok mysql -> results mysql = Some l -> len (m_Raw resp) > 0 ->
  parseMysqlResponse fuel mysql (m_Raw resp) = Ret (fields, rows) ->
  let '(r, mysql') := receivedMysqlResponse fuel (receivedMysqlRequest mysql req tuple c) resp tuple in
  let '(src, dst) := endpoints tuple c (m_Direction req) in
  let query := Trim (m_Query req) blanks in
  exists event, r = Ret tt /\ results mysql' = Some (l ++ [event]) /\
    transactionsMap mysql' = delete (TcpHashable tuple) (transactionsMap mysql) /\
    event !! bs "method" = Some (MStr (query_method query)) /\
    event !! bs "query" = Some (MStr query) /\
    event !! bs "path" = Some (MStr (m_Tables resp)) /\
    event !! bs "bytes_out" = Some (MInt (m_Size resp)) /\
    event !! bs "status" = Some (MStr (if m_IsError resp then ERROR_STATUS else OK_STATUS)) /\
    event !! bs "responsetime" = Some (MInt (millis32 (time_Sub (m_Ts resp) (m_Ts req)))) /\
    event !! bs "mysql" = Some (MMap (response_fields resp)) /\
    event !! bs "src" = Some (MEndpoint src) /\ event !! bs "dst" = Some (MEndpoint dst) /\
    event !! bs "request" = (if Send_request mysql then Some (MStr (m_Query req)) else None) /\
    event !! bs "response" = (if Send_response mysql then Some (MStr (DumpInCSVFormat fields rows)) else None).
Proof.
  intros Hok Hl Hraw Hparse. unfold receivedMysqlRequest. destruct (endpoints tuple c (m_Direction req)) as [src dst].
  set (t0 := match transactionsMap mysql !! TcpHashable tuple with Some _ => _ | None => _ end).
  assert (TcpHashable (t_tuple t0) = TcpHashable tuple) as Hk.
  { subst t0. destruct (transactionsMap mysql !! TcpHashable tuple) eqn:E; [|done].
    by apply Hok in E as (-> & _). }
  clearbody t0. unfold receivedMysqlResponse. cbv zeta.
  match goal with |- context [<[TcpHashable tuple := ?t]> (transactionsMap mysql)] => set (t1 := t) end.
  change (transactionsMap (mysql <| transactionsMap := ?x |>)) with x.
  rewrite lookup_insert_eq. change (t_Mysql t1) with (Some (∅ : MapStr)). cbv iota.
  rewrite decide_True by done.
  match goal with |- context [parseMysqlResponse fuel ?m _] => set (mysql1 := m) end.
  rewrite (Hparse : parseMysqlResponse fuel mysql1 (m_Raw resp) = _). cbn [obind].
  unfold publishMysqlTransaction. change (results mysql1) with (results mysql). rewrite Hl.
  change (default ∅ (t_Mysql _)) with (Update ∅ (response_fields resp)).
  assert (Update ∅ (response_fields resp) = response_fields resp) as ->.
  { unfold Update. apply map_union_empty. }
  replace (response_fields resp !! bs "iserror") with (Some (MBool (m_IsError resp))).
  2:{ unfold response_fields. by repeat (rewrite lookup_insert_eq || rewrite lookup_insert_ne by done). }
  cbv iota. eexists. split; [done|]. split; [reflexivity|]. split.
  { change (transactionsMap (?r <| transactionsMap := ?x |>)) with x. cbn. rewrite Hk.
    by rewrite insert_insert_eq, delete_insert_eq. }
  change (Send_request mysql1) with (Send_request mysql). change (Send_response mysql1) with (Send_response mysql).
  destruct (m_IsError resp), (Send_request mysql), (Send_response mysql);
    repeat split; repeat (rewrite lookup_insert_eq || rewrite lookup_insert_ne by done); done.
Qed.
End Transactions.

(** * Examples *)

#[local] Existing Instance Demo.unicode.
#[local] Existing Instance Demo.watcher.

Definition demo_request : MysqlMessage :=
  newMessage 1000000 <| m_IsRequest := true |> <| m_Query := bs "select a, b from t" |>.
Definition demo_response : MysqlMessage :=
  newMessage 3000000 <| m_IsOK := true |> <| m_Tables := bs "db.t" |>
    <| m_Raw := encode_resultset demo_fields (map encode_row demo_rows) |>.

Lemma demo_mysql_ok : Mysql_ok demo_mysql.
Proof. apply map_Forall_empty. Qed.

Lemma mysql_transactions_invariant_witness :
  let st' := foldl (exec 9) (demo_mysql, tt) [AMessage demo_request Demo.tuple 1 []; ATimer (TcpHashable Demo.tuple)] in
  Mysql_ok (fst st') /\
  (length (sent (fst st')) + size (transactionsMap (fst st')) <= 0 + 0 + 1)%nat /\
  (forall k t, transactionsMap (fst st') !! k = Some t ->
     transactionsMap (fst (exec 9 st' (ATimer k))) = delete k (transactionsMap (fst st'))).
Proof.
  apply (mysql_transactions_invariant 9 [AMessage demo_request Demo.tuple 1 []; ATimer (TcpHashable Demo.tuple)]
    (demo_mysql, tt)), demo_mysql_ok.
Defined.

Lemma mysql_request_response_published_witness :
  let '(r, mysql') := receivedMysqlResponse 9
    (receivedMysqlRequest demo_mysql demo_request Demo.tuple {| ct_Src := []; ct_Dst := [] |}) demo_response Demo.tuple in
  exists event, r = Ret tt /\ results mysql' = Some [event] /\
    event !! bs "method" = Some (MStr (bs "SELECT")) /\ event !! bs "responsetime" = Some (MInt 2).
Proof.
  pose proof (mysql_request_response_published 9 demo_mysql [] demo_request demo_response Demo.tuple
    {| ct_Src := []; ct_Dst := [] |} [bs "a"; bs "b"] [[bs "1"; bs "NULL"]; [bs "2"; bs "x"]] demo_mysql_ok
    eq_refl ltac:(by vm_compute) ltac:(by vm_compute)) as H.
  destruct (receivedMysqlResponse _ _ _ _) as [r mysql'].
  destruct (endpoints _ _ _) as [src dst]. destruct H as (event & Hr & Hs & _ & Hm & _ & _ & _ & _ & Ht & _).
  exists event. split; [exact Hr|]. split; [exact Hs|]. split; [exact Hm|exact Ht].
Defined.

