(* ===== verification/Pgsql.v ===== *)
(** The PostgreSQL protocol plugin (src/protos/pgsql/pgsql.go): the message parser,
    the queues of pending transactions per connection, publication, expiry, and
    the handling of gaps. *)
From S2P Require Export Protos.

(** * Data *)

Record PgsqlMessage := {
  m_start : Z;
  m_end : Z;
  m_isSSLResponse : bool;
  m_isSSLRequest : bool;
  m_toExport : bool;
  m_Ts : Z;
  m_IsRequest : bool;
  m_Query : bytes;
  m_Size : Z;
  m_Fields : list bytes;
  m_FieldsFormat : list Z;
  m_Rows : list (list bytes);
  m_NumberOfRows : Z;
  m_NumberOfFields : Z;
  m_IsOK : bool;
  m_IsError : bool;
  m_ErrorInfo : bytes;
  m_ErrorCode : bytes;
  m_ErrorSeverity : bytes;
  m_Direction : Z;
  m_Incomplete : bool;
  m_TcpTuple : option TcpTuple;          (* None: the zero tuple *)
  m_CmdlineTuple : option CmdlineTuple   (* None: nil *)
}.
#[export] Instance eta_PgsqlMessage : Settable PgsqlMessage := fun r =>
  {| m_start := m_start r; m_end := m_end r; m_isSSLResponse := m_isSSLResponse r;
     m_isSSLRequest := m_isSSLRequest r; m_toExport := m_toExport r; m_Ts := m_Ts r;
     m_IsRequest := m_IsRequest r; m_Query := m_Query r; m_Size := m_Size r; m_Fields := m_Fields r;
     m_FieldsFormat := m_FieldsFormat r; m_Rows := m_Rows r; m_NumberOfRows := m_NumberOfRows r;
     m_NumberOfFields := m_NumberOfFields r; m_IsOK := m_IsOK r; m_IsError := m_IsError r;
     m_ErrorInfo := m_ErrorInfo r; m_ErrorCode := m_ErrorCode r; m_ErrorSeverity := m_ErrorSeverity r;
     m_Direction := m_Direction r; m_Incomplete := m_Incomplete r; m_TcpTuple := m_TcpTuple r;
     m_CmdlineTuple := m_CmdlineTuple r |}.

(** [&PgsqlMessage{Ts: ts}]. *)
Definition newMessage (ts : Z) : PgsqlMessage :=
  {| m_start := 0; m_end := 0; m_isSSLResponse := false; m_isSSLRequest := false; m_toExport := false;
     m_Ts := ts; m_IsRequest := false; m_Query := []; m_Size := 0; m_Fields := []; m_FieldsFormat := [];
     m_Rows := []; m_NumberOfRows := 0; m_NumberOfFields := 0; m_IsOK := false; m_IsError := false;
     m_ErrorInfo := []; m_ErrorCode := []; m_ErrorSeverity := []; m_Direction := 0; m_Incomplete := false;
     m_TcpTuple := None; m_CmdlineTuple := None |}.

(** A transaction; [t_ptr] is its identity, the pointer that [expireTransaction]
    compares. *)
Record PgsqlTransaction := {
  t_ptr : nat;
  t_Type : bytes;
  t_tuple : TcpTuple;
  t_Src : Endpoint;
  t_Dst : Endpoint;
  t_ResponseTime : Z;
  t_Ts : Z;
  t_JsTs : Z;
  t_ts : Z;
  t_Query : bytes;
  t_Method : bytes;
  t_Size : Z;
  t_Pgsql : option MapStr;               (* None: nil map *)
  t_Request_raw : bytes;
  t_Response_raw : bytes;
  t_timer : bool                         (* a running timer that will expire the transaction *)
}.
#[export] Instance eta_PgsqlTransaction : Settable PgsqlTransaction := fun r =>
  {| t_ptr := t_ptr r; t_Type := t_Type r; t_tuple := t_tuple r; t_Src := t_Src r; t_Dst := t_Dst r;
     t_ResponseTime := t_ResponseTime r; t_Ts := t_Ts r; t_JsTs := t_JsTs r; t_ts := t_ts r;
     t_Query := t_Query r; t_Method := t_Method r; t_Size := t_Size r; t_Pgsql := t_Pgsql r;
     t_Request_raw := t_Request_raw r; t_Response_raw := t_Response_raw r; t_timer := t_timer r |}.

Inductive PgsqlState := PgsqlStartState | PgsqlGetDataState.

Record PgsqlStream := {
  s_tcptuple : TcpTuple;
  s_data : slice;
  s_parseOffset : Z;
  s_parseState : PgsqlState;
  s_seenSSLRequest : bool;
  s_expectSSLResponse : bool;
  s_message : option PgsqlMessage        (* None: nil *)
}.
#[export] Instance eta_PgsqlStream : Settable PgsqlStream := fun r =>
  {| s_tcptuple := s_tcptuple r; s_data := s_data r; s_parseOffset := s_parseOffset r;
     s_parseState := s_parseState r; s_seenSSLRequest := s_seenSSLRequest r;
     s_expectSSLResponse := s_expectSSLResponse r; s_message := s_message r |}.

Inductive PgsqlCommand := SSLRequest | StartupMessage | CancelRequest.

(** The plugin; [results] is what has been sent on the channel, [None] for a nil
    channel; [allocated] is the number of transactions allocated so far. *)
Record Pgsql := {
  Ports : list Z;
  maxStoreRows : Z;
  maxRowLength : Z;
  Send_request : bool;
  Send_response : bool;
  transactionsMap : gmap bytes (list PgsqlTransaction);
  allocated : nat;
  results : option (list MapStr)
}.
#[export] Instance eta_Pgsql : Settable Pgsql := fun r =>
  {| Ports := Ports r; maxStoreRows := maxStoreRows r; maxRowLength := maxRowLength r;
     Send_request := Send_request r; Send_response := Send_response r;
     transactionsMap := transactionsMap r; allocated := allocated r; results := results r |}.

(** [config.Pgsql]: a nil pointer is an option not set. *)
Record ConfigPgsql := {
  cfg_Ports : list Z;
  cfg_Max_row_length : option Z;
  cfg_Max_rows : option Z;
  cfg_Send_request : option bool;
  cfg_Send_response : option bool
}.

Definition InitDefaults (pgsql : Pgsql) : Pgsql :=
  pgsql <| maxRowLength := 1024 |> <| maxStoreRows := 10 |>
        <| Send_request := false |> <| Send_response := false |>.

Definition setFromConfig (pgsql : Pgsql) (config : ConfigPgsql) : Pgsql :=
  let pgsql := pgsql <| Ports := cfg_Ports config |> in
  let pgsql := match cfg_Max_row_length config with
               | Some n => pgsql <| maxRowLength := n |> | None => pgsql end in
  let pgsql := match cfg_Max_rows config with
               | Some n => pgsql <| maxStoreRows := n |> | None => pgsql end in
  let pgsql := match cfg_Send_request config with
               | Some b => pgsql <| Send_request := b |> | None => pgsql end in
  match cfg_Send_response config with
  | Some b => pgsql <| Send_response := b |> | None => pgsql end.

Definition Init (pgsql : Pgsql) (test_mode : bool) (config : ConfigPgsql)
    (results_chan : option (list MapStr)) : Pgsql :=
  let pgsql := InitDefaults pgsql in
  let pgsql := if test_mode then pgsql else setFromConfig pgsql config in
  pgsql <| transactionsMap := ∅ |> <| results := results_chan |>.

(** * Queries *)

Definition pgsqlQueryParser (query : bytes) : list bytes :=
  List.filter (fun qt => bool_decide (len qt > 0)) (map TrimSpace (Split query x3b)).

Definition getQueryMethod {UC : Unicode} (q : bytes) : bytes :=
  let index := Index q [x20] in
  if decide (index > 0) then ToUpper (sub q 0 index) else ToUpper q.

(** * The message parser *)

Definition PrepareForNewMessage (s : PgsqlStream) : outcome PgsqlStream :=
  match s_message s with
  | None => Panic
  | Some m =>
      let! data := sl_from (s_data s) (m_end m) in
      Ret (s <| s_data := data |> <| s_parseState := PgsqlStartState |> <| s_parseOffset := 0 |>
             <| s_message := None |>)
  end.

(** Big-endian integers of the stream; a slice may reach into the capacity. *)
Definition read16 (s : PgsqlStream) (off : Z) : outcome Z :=
  let! b := sl_slice (s_data s) off (off + 2) in Bytes_Ntohs (vis b).
Definition read32 (s : PgsqlStream) (off : Z) : outcome Z :=
  let! b := sl_slice (s_data s) off (off + 4) in Bytes_Ntohl (vis b).

(** [common.ReadString(s.data[off:])]: a missing terminator is logged and gives the
    empty string. *)
Definition read_cstring (s : PgsqlStream) (off : Z) : outcome bytes :=
  let! rest := sl_from (s_data s) off in Ret (fst (ReadString (vis rest))).

(** The loop of [pgsqlFieldsParser]: [n] more fields, with the names and formats
    read so far. *)
Fixpoint read_fields (n : nat) (s : PgsqlStream) (m : PgsqlMessage) (fields : list bytes)
    (fields_format : list Z) : outcome (PgsqlStream * PgsqlMessage * list bytes * list Z) :=
  match n with
  | O => Ret (s, m, fields, fields_format)
  | S n' =>
      let! field_name := read_cstring s (s_parseOffset s) in
      let m := m <| m_NumberOfFields := m_NumberOfFields m + 1 |> in
      let off := s_parseOffset s + (len field_name + 1) + 4 + 2 + 4 + 2 + 4 in
      let! format := read16 (s <| s_parseOffset := off |>) off in
      read_fields n' (s <| s_parseOffset := off + 2 |>) m (fields ++ [field_name])
        (fields_format ++ [format mod 256])
  end.

Definition pgsqlFieldsParser (s : PgsqlStream) (m : PgsqlMessage) : outcome (PgsqlStream * PgsqlMessage) :=
  let! field_count := read16 s (s_parseOffset s) in
  let s := s <| s_parseOffset := s_parseOffset s + 2 |> in
  let! '(s, m, fields, fields_format) := read_fields (Z.to_nat field_count) s m [] [] in
  Ret (s, m <| m_Fields := fields |> <| m_FieldsFormat := fields_format |>).

(** The value of a column in text format. *)
Definition column_value (s : PgsqlStream) (format column_length : Z) : outcome bytes :=
  if decide (format = 0 /\ column_length > 0) then
    let! v := sl_slice (s_data s) (s_parseOffset s) (s_parseOffset s + column_length) in Ret (vis v)
  else Ret [].

(** The loop of [pgsqlRowsParser] from column [i] on, [n] columns left. *)
Fixpoint read_columns (n : nat) (maxRowLength : Z) (m : PgsqlMessage) (i : Z) (s : PgsqlStream)
    (row : list bytes) (row_len : Z) : outcome (PgsqlStream * list bytes) :=
  match n with
  | O => Ret (s, row)
  | S n' =>
      let! raw_length := read32 s (s_parseOffset s) in
      let column_length := int32_of raw_length in
      let s := s <| s_parseOffset := s_parseOffset s + 4 |> in
      let! format := at_ (m_FieldsFormat m) i in
      let! value := column_value s format column_length in
      let! '(row, row_len) :=
        if decide (row_len < maxRowLength) then
          let! value := if decide (row_len + len value > maxRowLength)
                        then str_slice value 0 (maxRowLength - row_len) else Ret value in
          Ret (row ++ [value], row_len + len value)
        else Ret (row, row_len) in
      let s := if decide (column_length > 0)
               then s <| s_parseOffset := s_parseOffset s + column_length |> else s in
      read_columns n' maxRowLength m (i + 1) s row row_len
  end.

Definition pgsqlRowsParser (pgsql : Pgsql) (s : PgsqlStream) (m : PgsqlMessage)
    : outcome (PgsqlStream * PgsqlMessage) :=
  let! field_count := read16 s (s_parseOffset s) in
  let s := s <| s_parseOffset := s_parseOffset s + 2 |> in
  let! '(s, row) := read_columns (Z.to_nat field_count) (maxRowLength pgsql) m 0 s [] 0 in
  let m := m <| m_NumberOfRows := m_NumberOfRows m + 1 |> in
  Ret (s, if decide (len (m_Rows m) < maxStoreRows pgsql) then m <| m_Rows := m_Rows m ++ [row] |> else m).

(** One turn of the loop of [pgsqlErrorParser]; the loop goes on to the end of all
    the data, not of the message. *)
Definition error_step (x : PgsqlStream * PgsqlMessage)
    : outcome (PgsqlStream * PgsqlMessage + PgsqlStream * PgsqlMessage) :=
  let '(s, m) := x in
  let! rest := sl_from (s_data s) (s_parseOffset s) in
  if decide (len (vis rest) > 0) then
    let! field_type := at_ (vis (s_data s)) (s_parseOffset s) in
    let s := s <| s_parseOffset := s_parseOffset s + 1 |> in
    if decide (u8 field_type = 0) then Ret (inr (s, m))
    else
      let! field_value := read_cstring s (s_parseOffset s) in
      let s := s <| s_parseOffset := s_parseOffset s + (len field_value + 1) |> in
      let m := if Byte.eqb field_type "M" then m <| m_ErrorInfo := field_value |>
               else if Byte.eqb field_type "C" then m <| m_ErrorCode := field_value |>
               else if Byte.eqb field_type "S" then m <| m_ErrorSeverity := field_value |>
               else m in
      Ret (inl (s, m))
  else Ret (inr (s, m)).

(** Each turn moves on by at least two bytes. *)
Definition pgsqlErrorParser (s : PgsqlStream) (m : PgsqlMessage) : outcome (PgsqlStream * PgsqlMessage) :=
  loop error_step (S (length (vis (s_data s)))) (s, m).

Definition isSpecialPgsqlCommand (data : bytes) : outcome (option PgsqlCommand) :=
  if decide (len data < 8) then Ret None
  else
    let! a := str_slice data 0 4 in
    let! length := Bytes_Ntohl a in
    let! b := str_slice data 4 8 in
    let! code := Bytes_Ntohl b in
    Ret (if decide (length = 16 /\ code = 80877102) then Some CancelRequest
         else if decide (length = 8 /\ code = 80877103) then Some SSLRequest
         else if decide (code = 196608) then Some StartupMessage
         else None).

(** A turn of the parser's loop: go on, or return (ok, complete). *)
Definition turn : Type := outcome (PgsqlStream * PgsqlMessage + PgsqlStream * PgsqlMessage * (bool * bool)).
Definition go_on (s : PgsqlStream) (m : PgsqlMessage) : turn := Ret (inl (s, m)).
Definition wait (s : PgsqlStream) (m : PgsqlMessage) : turn := Ret (inr (s, m, (true, false))).
Definition complete (s : PgsqlStream) (m : PgsqlMessage) : turn := Ret (inr (s, m, (true, true))).

(** [len(s.data[s.parseOffset:])], within the loop, where the offset is below the length. *)
Definition available (s : PgsqlStream) : Z := len (vis (s_data s)) - s_parseOffset s.
Definition skip (n : Z) (s : PgsqlStream) : PgsqlStream := s <| s_parseOffset := s_parseOffset s + n |>.

(** StartupMessage, SSLRequest and CancelRequest. *)
Definition special_command (command : PgsqlCommand) (s : PgsqlStream) (m : PgsqlMessage) : turn :=
  let! length := read32 s (s_parseOffset s) in
  if decide (length <= available s) then
    match command with
    | SSLRequest =>
        let m := m <| m_start := s_parseOffset s |> in
        let s := skip length s in
        complete s (m <| m_end := s_parseOffset s |> <| m_isSSLRequest := true |>)
    | _ => go_on (skip length s) m
    end
  else wait s m.

(** The end of a message at the stream's offset. *)
Definition close (s : PgsqlStream) (m : PgsqlMessage) : PgsqlMessage :=
  let m := m <| m_end := s_parseOffset s |> in m <| m_Size := uint64_of (m_end m - m_start m) |>.

(** CommandComplete in either state: the tag is read for the log, then the message ends. *)
Definition command_complete (length : Z) (s : PgsqlStream) (m : PgsqlMessage) : turn :=
  if decide (length + 1 <= available s) then
    let s := skip 1 s in
    let! name := sl_slice (s_data s) (s_parseOffset s + 4) (s_parseOffset s + length - 1) in
    let s := skip length s in
    complete s (close s m)
  else wait s m.

(** A message of the type in its first byte. *)
Definition typed_message (typ : byte) (length : Z) (s : PgsqlStream) (m : PgsqlMessage) : turn :=
  let enough := bool_decide (length + 1 <= available s) in
  if Byte.eqb typ "Q" then
    let m := m <| m_start := s_parseOffset s |> <| m_IsRequest := true |> in
    if enough then
      let s := skip (1 + length) s in
      let m := m <| m_end := s_parseOffset s |> in
      let! query := sl_slice (s_data s) (m_start m + 5) (m_end m - 1) in
      complete s (m <| m_Query := vis query |> <| m_toExport := true |>)
    else wait s m
  else if Byte.eqb typ "T" then
    let m := m <| m_start := s_parseOffset s |> <| m_IsRequest := false |> <| m_IsOK := true |>
               <| m_toExport := true |> in
    if enough then
      let! '(s, m) := pgsqlFieldsParser (skip 5 s) m in
      go_on (s <| s_parseState := PgsqlGetDataState |>) m
    else wait s m
  else if Byte.eqb typ "I" then
    let m := m <| m_start := s_parseOffset s |> <| m_IsOK := true |> <| m_IsRequest := false |>
               <| m_toExport := true |> in
    let s := skip 5 s in
    complete s (close s m)
  else if Byte.eqb typ "E" then
    let m := m <| m_start := s_parseOffset s |> <| m_IsRequest := false |> <| m_IsError := true |>
               <| m_toExport := true |> in
    if enough then
      let! '(s, m) := pgsqlErrorParser (skip 5 s) m in
      complete s (close s m)
    else wait s m
  else if Byte.eqb typ "C" then
    let m := m <| m_start := s_parseOffset s |> <| m_IsRequest := false |> <| m_IsOK := true |>
               <| m_toExport := true |> in
    command_complete length s m
  else if Byte.eqb typ "Z" then
    if enough then
      let m := m <| m_start := s_parseOffset s |> in
      let s := skip (1 + length) s in
      complete s (m <| m_end := s_parseOffset s |>)
    else wait s m
  else
    if enough then go_on (skip (1 + length) s) m else wait s m.

(** PgsqlStartState. *)
Definition start_state (s : PgsqlStream) (m : PgsqlMessage) : turn :=
  if decide (available s < 5) then wait s m
  else
    let! rest := sl_from (s_data s) (s_parseOffset s) in
    let! special := isSpecialPgsqlCommand (vis rest) in
    match special with
    | Some command => special_command command s m
    | None =>
        let! typ := at_ (vis (s_data s)) (s_parseOffset s) in
        if s_expectSSLResponse s && (Byte.eqb typ "N" || Byte.eqb typ "S") then
          let m := m <| m_start := s_parseOffset s |> in
          let s := skip 1 s in
          complete s (m <| m_end := s_parseOffset s |> <| m_isSSLResponse := true |>)
        else
          let! length := read32 s (s_parseOffset s + 1) in
          typed_message typ length s m
    end.

(** PgsqlGetDataState. *)
Definition get_data_state (pgsql : Pgsql) (s : PgsqlStream) (m : PgsqlMessage) : turn :=
  if decide (available s < 5) then wait s m
  else
    let! typ := at_ (vis (s_data s)) (s_parseOffset s) in
    let! length := read32 s (s_parseOffset s + 1) in
    if Byte.eqb typ "D" then
      if decide (length + 1 <= available s) then
        let! '(s, m) := pgsqlRowsParser pgsql (skip 5 s) m in
        go_on s m
      else wait s m
    else if Byte.eqb typ "C" then
      let! t := command_complete length s m in
      Ret (match t with
           | inr (s, m, (ok, true)) => inr (s <| s_parseState := PgsqlStartState |>, m, (ok, true))
           | t => t
           end)
    else go_on (s <| s_parseState := PgsqlStartState |>) m.

Definition parser_step (pgsql : Pgsql) (x : PgsqlStream * PgsqlMessage) : turn :=
  let '(s, m) := x in
  if decide (s_parseOffset s < len (vis (s_data s))) then
    match s_parseState s with
    | PgsqlStartState => start_state s m
    | PgsqlGetDataState => get_data_state pgsql s m
    end
  else wait s m.

(** The loop need not end (a startup message of length 0), so its fuel is a
    parameter; a nil message is dereferenced only by some turns, and [Parse]
    never passes one. *)
Definition pgsqlMessageParser (fuel : nat) (pgsql : Pgsql) (s : PgsqlStream)
    : outcome (PgsqlStream * (bool * bool)) :=
  match s_message s with
  | None => Panic
  | Some m =>
      let! '(s, m, r) := loop (parser_step pgsql) fuel (s, m) in
      Ret (s <| s_message := Some m |>, r)
  end.

(** * Transactions *)

Definition publishTransaction (pgsql : Pgsql) (t : PgsqlTransaction) : outcome unit * Pgsql :=
  match results pgsql with
  | None => (Ret tt, pgsql)
  | Some sent =>
      match default ∅ (t_Pgsql t) !! bs "iserror" with
      | Some (MBool iserror) =>
          let event : MapStr := {[bs "type" := MStr (bs "pgsql")]} in
          let event := <[bs "status" := MStr (if iserror : bool then ERROR_STATUS else OK_STATUS)]> event in
          let event := <[bs "responsetime" := MInt (t_ResponseTime t)]> event in
          let event := if Send_request pgsql
                       then <[bs "request" := MStr (t_Request_raw t)]> event else event in
          let event := if Send_response pgsql
                       then <[bs "response" := MStr (t_Response_raw t)]> event else event in
          let event := <[bs "query" := MStr (t_Query t)]> event in
          let event := <[bs "method" := MStr (t_Method t)]> event in
          let event := <[bs "bytes_out" := MInt (t_Size t)]> event in
          let event := <[bs "pgsql" := MMap (default ∅ (t_Pgsql t))]> event in
          let event := <[bs "timestamp" := MTime (t_ts t)]> event in
          let event := <[bs "src" := MEndpoint (t_Src t)]> event in
          let event := <[bs "dst" := MEndpoint (t_Dst t)]> event in
          (Ret tt, pgsql <| results := Some (sent ++ [event]) |>)
      | _ => (Panic, pgsql)
      end
  end.

(** The list of a tuple; a nil list and an absent one are the same. *)
Definition pending (pgsql : Pgsql) (key : bytes) : list PgsqlTransaction :=
  default [] (transactionsMap pgsql !! key).

(** A new transaction for one query of the request. *)
Definition newTransaction {UC : Unicode} (ptr : nat) (msg : PgsqlMessage) (tuple : TcpTuple)
    (cmdline : CmdlineTuple) (query : bytes) : PgsqlTransaction :=
  let '(src, dst) := endpoints tuple cmdline (m_Direction msg) in
  {| t_ptr := ptr; t_Type := bs "pgsql"; t_tuple := tuple; t_Src := src; t_Dst := dst;
     t_ResponseTime := 0; t_Ts := micros (m_Ts msg); t_JsTs := m_Ts msg; t_ts := m_Ts msg;
     t_Query := query; t_Method := getQueryMethod query; t_Size := 0; t_Pgsql := Some ∅;
     t_Request_raw := query; t_Response_raw := []; t_timer := true |}.

Definition add_query {UC : Unicode} (msg : PgsqlMessage) (tuple : TcpTuple) (cmdline : CmdlineTuple)
    (pgsql : Pgsql) (query : bytes) : Pgsql :=
  let trans := newTransaction (allocated pgsql) msg tuple cmdline query in
  pgsql <| allocated := S (allocated pgsql) |>
        <| transactionsMap := <[TcpHashable tuple := pending pgsql (TcpHashable tuple) ++ [trans]]> (transactionsMap pgsql) |>.

(** [msg.TcpTuple] and [msg.CmdlineTuple] are set by [handlePgsql] before the message
    reaches the two handlers, which take them as arguments here. *)
Definition receivedPgsqlRequest {UC : Unicode} (pgsql : Pgsql) (msg : PgsqlMessage) (tuple : TcpTuple)
    (cmdline : CmdlineTuple) : Pgsql :=
  let queries := pgsqlQueryParser (m_Query msg) in
  let pgsql := match transactionsMap pgsql !! TcpHashable tuple with
               | None => pgsql <| transactionsMap := <[TcpHashable tuple := []]> (transactionsMap pgsql) |>
               | Some _ => pgsql
               end in
  foldl (add_query msg tuple cmdline) pgsql queries.

(** The transaction at [index] and the plugin without it; the entry goes with its
    last transaction. *)
Definition removeTransaction (pgsql : Pgsql) (tuple : TcpTuple) (index : nat)
    : outcome (PgsqlTransaction * Pgsql) :=
  let trans_list := pending pgsql (TcpHashable tuple) in
  match trans_list !! index with
  | None => Panic
  | Some trans =>
      let trans_list := take index trans_list ++ drop (S index) trans_list in
      Ret (trans,
        match trans_list with
        | [] => pgsql <| transactionsMap := delete (TcpHashable (t_tuple trans)) (transactionsMap pgsql) |>
        | _ => pgsql <| transactionsMap := <[TcpHashable tuple := trans_list]> (transactionsMap pgsql) |>
        end)
  end.

Definition response_fields (msg : PgsqlMessage) : MapStr :=
  <[bs "iserror" := MBool (m_IsError msg)]>
  (<[bs "num_rows" := MInt (m_NumberOfRows msg)]>
  (<[bs "num_fields" := MInt (m_NumberOfFields msg)]>
  (<[bs "error_code" := MStr (m_ErrorCode msg)]>
  (<[bs "error_message" := MStr (m_ErrorInfo msg)]>
  (<[bs "error_severity" := MStr (m_ErrorSeverity msg)]> ∅))))).

(** The transaction with its response. *)
Definition answered (trans : PgsqlTransaction) (msg : PgsqlMessage) (fields : MapStr) : PgsqlTransaction :=
  trans <| t_Pgsql := Some (Update fields (response_fields msg)) |>
        <| t_Size := m_Size msg |>
        <| t_ResponseTime := millis32 (time_Sub (m_Ts msg) (t_ts trans)) |>
        <| t_Response_raw := DumpInCSVFormat (m_Fields msg) (m_Rows msg) |>.

Definition receivedPgsqlResponse (pgsql : Pgsql) (msg : PgsqlMessage) (tuple : TcpTuple)
    : outcome unit * Pgsql :=
  match pending pgsql (TcpHashable tuple) with
  | [] => (Ret tt, pgsql)
  | _ =>
      match removeTransaction pgsql tuple 0 with
      | Ret (trans, pgsql) =>
          match t_Pgsql trans with
          | None => (Ret tt, pgsql)
          | Some fields => publishTransaction pgsql (answered trans msg fields)
          end
      | Panic => (Panic, pgsql)
      | OutOfFuel => (OutOfFuel, pgsql)
      end
  end.

(** The position of a transaction in a list, by its pointer. *)
Fixpoint index_of (ptr : nat) (l : list PgsqlTransaction) : option nat :=
  match l with
  | [] => None
  | t :: l' => if decide (t_ptr t = ptr) then Some O else S <$> index_of ptr l'
  end.

(** The timer's function. *)
Definition expireTransaction (pgsql : Pgsql) (trans : PgsqlTransaction) : outcome Pgsql :=
  let key := TcpHashable (t_tuple trans) in
  let! pgsql :=
    match index_of (t_ptr trans) (pending pgsql key) with
    | Some i => let! '(_, pgsql) := removeTransaction pgsql (t_tuple trans) i in Ret pgsql
    | None => Ret pgsql
    end in
  Ret (match pending pgsql key with
       | [] => pgsql <| transactionsMap := delete key (transactionsMap pgsql) |>
       | _ => pgsql
       end).

Definition pgsqlPrivateData : Type := pair2 PgsqlStream.

Section Procs.
Context {UC : Unicode} {W : Type} {PW : ProcWatcher W}.

Definition handlePgsql (st : Pgsql * W) (m : PgsqlMessage) (tcptuple : TcpTuple) (dir : Z)
    : outcome unit * (Pgsql * W) :=
  let '(pgsql, w) := st in
  let '(cmdline, w) := FindProcessesTuple (IpPort tcptuple) w in
  let m := m <| m_TcpTuple := Some tcptuple |>
             <| m_Direction := dir |>
             <| m_CmdlineTuple := Some cmdline |> in
  if m_IsRequest m then (Ret tt, (receivedPgsqlRequest pgsql m tcptuple cmdline, w))
  else let '(r, pgsql) := receivedPgsqlResponse pgsql m tcptuple in (r, (pgsql, w)).

(** * The stream handler *)

(** How the message loop of [Parse] ends: with both streams, with the stream dropped
    ([priv.Data[dir] = nil]), or in a panic, after which the recovered [Parse]
    returns nil. *)
Inductive parse_end :=
| Keep (s : PgsqlStream) (other : option PgsqlStream)
| Drop (other : option PgsqlStream)
| Recovered.

(** [x] holds the stream, the stream of the other direction and the plugin. *)
Definition parse_state : Type := PgsqlStream * option PgsqlStream * (Pgsql * W).

(** What is done with a complete message: the SSL exchange changes the flags of the
    two streams (a missing other stream is a nil dereference), other messages
    that are to be exported go to [handlePgsql]. *)
Definition deliver (tcptuple : TcpTuple) (dir : Z) (m : PgsqlMessage) (x : parse_state)
    : outcome unit * parse_state :=
  let '(stream, other, st) := x in
  if m_isSSLRequest m then (Ret tt, (stream <| s_seenSSLRequest := true |>, other, st))
  else if m_isSSLResponse m then
    let stream := stream <| s_expectSSLResponse := false |> in
    match other with
    | Some o => (Ret tt, (stream, Some (o <| s_seenSSLRequest := false |>), st))
    | None => (Panic, (stream, other, st))
    end
  else if m_toExport m then
    let '(r, st) := handlePgsql st m tcptuple dir in (r, (stream, other, st))
  else (Ret tt, x).

Definition ship (tcptuple : TcpTuple) (dir : Z) (m : PgsqlMessage) (x : parse_state)
    : outcome (parse_state + parse_end * (Pgsql * W)) :=
  let '(stream, other, st) := x in
  match sl_slice (s_data stream) (m_start m) (m_end m) with
  | Ret _ =>
      let '(r, (stream, other, st)) := deliver tcptuple dir m x in
      match r with
      | Ret _ =>
          match PrepareForNewMessage stream with
          | Ret stream => Ret (inl (stream, other, st))
          | _ => Ret (inr (Recovered, st))
          end
      | _ => Ret (inr (Recovered, st))
      end
  | _ => Ret (inr (Recovered, st))
  end.

Definition parse_step (fuel : nat) (ts : Z) (tcptuple : TcpTuple) (dir : Z) (x : parse_state)
    : outcome (parse_state + parse_end * (Pgsql * W)) :=
  let '(stream, other, st) := x in
  if decide (len (vis (s_data stream)) > 0) then
    let stream := match s_message stream with
                  | None => stream <| s_message := Some (newMessage ts) |>
                  | Some _ => stream
                  end in
    match pgsqlMessageParser fuel (fst st) stream with
    | OutOfFuel => OutOfFuel
    | Panic => Ret (inr (Recovered, st))
    | Ret (stream, (ok, complete)) =>
        if negb ok then Ret (inr (Drop other, st))
        else if complete : bool then
          match s_message stream with
          | Some m => ship tcptuple dir m (stream, other, st)
          | None => Ret (inr (Recovered, st))
          end
        else Ret (inr (Keep stream other, st))
    end
  else Ret (inr (Keep stream other, st)).

Definition parse_loop (fuel : nat) (ts : Z) (tcptuple : TcpTuple) (dir : Z) (stream : PgsqlStream)
    (other : option PgsqlStream) (st : Pgsql * W) : outcome (parse_end * (Pgsql * W)) :=
  loop (parse_step fuel ts tcptuple dir) (S (length (vis (s_data stream)))) (stream, other, st).

(** The stream with the packet's bytes: a new one, or the old one with the payload
    appended; the size check applies to an existing stream only. *)
Definition received {RT : Runtime} (pkt : Packet) (tcptuple : TcpTuple) (old : option PgsqlStream)
    : PgsqlStream :=
  match old with
  | None => {| s_tcptuple := tcptuple; s_data := pk_Payload pkt; s_parseOffset := 0;
               s_parseState := PgsqlStartState; s_seenSSLRequest := false; s_expectSSLResponse := false;
               s_message := Some (newMessage (pk_Ts pkt)) |}
  | Some stream => stream <| s_data := append (s_data stream) (vis (pk_Payload pkt)) |>
  end.
Definition too_large (old : option PgsqlStream) (stream : PgsqlStream) : bool :=
  match old with
  | None => false
  | Some _ => bool_decide (len (vis (s_data stream)) > TCP_MAX_DATA_IN_STREAM)
  end.

(** An SSL request seen in the other direction is answered in this one. *)
Definition expect_ssl (other : option PgsqlStream) (stream : PgsqlStream) : PgsqlStream :=
  match other with
  | Some o => if s_seenSSLRequest o then stream <| s_expectSSLResponse := true |> else stream
  | None => stream
  end.

(** [private] is [None] for nil and for another protocol's data. *)
Definition Parse {RT : Runtime} (fuel : nat) (pkt : Packet) (tcptuple : TcpTuple) (dir : Z)
    (private : option pgsqlPrivateData) (st : Pgsql * W)
    : outcome (option pgsqlPrivateData * (Pgsql * W)) :=
  let priv := default nil2 private in
  match get2 priv dir, get2 priv (1 - dir) with
  | Ret old, Ret other =>
      let stream := received pkt tcptuple old in
      if too_large old stream then Ret (Some (set2 priv dir None), st)
      else
        let! '(e, st) := parse_loop fuel (pk_Ts pkt) tcptuple dir (expect_ssl other stream) other st in
        Ret (match e with
             | Keep s other => Some (set2 (set2 priv dir (Some s)) (1 - dir) other)
             | Drop other => Some (set2 (set2 priv dir None) (1 - dir) other)
             | Recovered => None
             end, st)
  | _, _ => Ret (None, st)
  end.

Definition messageHasEnoughData (msg : option PgsqlMessage) : bool :=
  match msg with
  | None => false
  | Some msg =>
      if m_isSSLRequest msg || m_isSSLResponse msg then false
      else if m_IsRequest msg then bool_decide (len (m_Query msg) > 0)
      else bool_decide (len (m_Rows msg) > 0)
  end.

(** The message read so far is handled as incomplete. *)
Definition flush (tcptuple : TcpTuple) (dir : Z) (stream : PgsqlStream) (msg : PgsqlMessage) (st : Pgsql * W)
    : outcome PgsqlStream * (Pgsql * W) :=
  let m := msg <| m_toExport := true |> <| m_end := s_parseOffset stream |> <| m_Incomplete := true |> in
  match sl_slice (s_data stream) (m_start m) (m_end m) with
  | Ret _ =>
      let '(r, st) := handlePgsql st m tcptuple dir in
      match r with
      | Ret _ => (PrepareForNewMessage (stream <| s_message := Some m |>), st)
      | _ => (Panic, st)
      end
  | _ => (Panic, st)
  end.

Definition GapInStream (tcptuple : TcpTuple) (dir : Z) (private : option pgsqlPrivateData) (st : Pgsql * W)
    : option pgsqlPrivateData * (Pgsql * W) :=
  match private with
  | None => (None, st)
  | Some priv =>
      match get2 priv dir with
      | Ret None => (Some priv, st)
      | Ret (Some stream) =>
          match s_message stream with
          | Some msg =>
              if messageHasEnoughData (Some msg) then
                match flush tcptuple dir stream msg st with
                | (Ret stream, st) => (Some (set2 priv dir (Some stream)), st)
                | (_, st) => (None, st)
                end
              else (Some priv, st)
          | None => (Some priv, st)
          end
      | _ => (None, st)
      end
  end.

Definition ReceivedFin (tcptuple : TcpTuple) (dir : Z) (private : option pgsqlPrivateData)
    : option pgsqlPrivateData := private.

End Procs.

(** * Termination *)

(** The eight bytes of a startup message of length 0. *)
Definition zero_startup : bytes := [x00; x00; x00; x00; x00; x03; x00; x00].
Definition has_zero_startup (data : bytes) : Prop := exists pre post, data = pre ++ zero_startup ++ post.

Definition parser_measure (x : PgsqlStream * PgsqlMessage) : nat :=
  (2 * Z.to_nat (len (vis (s_data (fst x))) - s_parseOffset (fst x)) +
   match s_parseState (fst x) with PgsqlGetDataState => 1 | PgsqlStartState => 0 end)%nat.

(** The parser's invariant. *)
Definition pinv (s : PgsqlStream) (m : PgsqlMessage) : Prop :=
  0 <= s_parseOffset s /\ (s_parseState s = PgsqlGetDataState -> 0 <= m_start m < s_parseOffset s).

(** What a turn may do from [(s, m)]. *)
Definition turn_ok (s : PgsqlStream) (m : PgsqlMessage) (t : turn) : Prop :=
  match t with
  | Ret (inl (s', m')) =>
      pinv s' m' /\ s_data s' = s_data s /\
      ((parser_measure (s', m') < parser_measure (s, m))%nat \/ has_zero_startup (vis (s_data s)))
  | Ret (inr (s', m', (ok, complete))) =>
      pinv s' m' /\ s_data s' = s_data s /\ ok = true /\
      (complete = true -> 0 <= m_start m' < m_end m')
  | Panic => True
  | OutOfFuel => False
  end.

Lemma pgsql_turn_bind {A} (s : PgsqlStream) (m : PgsqlMessage) (o : outcome A) (k : A -> turn) :
  o <> OutOfFuel -> (forall a, o = Ret a -> turn_ok s m (k a)) -> turn_ok s m (obind o k).
Proof. intros Hn Hk. destruct o; [by apply Hk|done|done]. Qed.

Lemma obind_not_fuel {A B} (o : outcome A) (k : A -> outcome B) :
  o <> OutOfFuel -> (forall a, k a <> OutOfFuel) -> obind o k <> OutOfFuel.
Proof. destruct o; cbn; auto. Qed.

Lemma Bytes_Ntohs_not_fuel b : Bytes_Ntohs b <> OutOfFuel.
Proof. unfold Bytes_Ntohs. repeat (apply obind_not_fuel; [auto with go|intros ?]). done. Qed.
Lemma Bytes_Ntohl_not_fuel b : Bytes_Ntohl b <> OutOfFuel.
Proof. unfold Bytes_Ntohl. repeat (apply obind_not_fuel; [auto with go|intros ?]). done. Qed.
#[local] Hint Resolve Bytes_Ntohs_not_fuel Bytes_Ntohl_not_fuel : go.

Lemma read16_not_fuel s off : read16 s off <> OutOfFuel.
Proof. apply obind_not_fuel; auto with go. Qed.
Lemma read32_not_fuel s off : read32 s off <> OutOfFuel.
Proof. apply obind_not_fuel; auto with go. Qed.
Lemma read_cstring_not_fuel s off : read_cstring s off <> OutOfFuel.
Proof. apply obind_not_fuel; auto with go. Qed.
#[local] Hint Resolve read16_not_fuel read32_not_fuel read_cstring_not_fuel : go.

Lemma read32_range s off n : read32 s off = Ret n -> 0 <= n < 2 ^ 32.
Proof. unfold read32. destruct (sl_slice _ _ _); [|done..]. apply Bytes_Ntohl_range. Qed.

(** The readers of fields, rows and errors only move the offset forward. *)
Definition moved (s s' : PgsqlStream) : Prop :=
  s_parseOffset s <= s_parseOffset s' /\ s_data s' = s_data s /\ s_parseState s' = s_parseState s.

Lemma moved_trans s s1 s2 : moved s s1 -> moved s1 s2 -> moved s s2.
Proof. intros (? & ? & ?) (? & ? & ?). unfold moved. repeat split; [lia|congruence..]. Qed.

Lemma read_fields_ok n s m fields formats :
  read_fields n s m fields formats <> OutOfFuel /\
  forall s' m' f' g', read_fields n s m fields formats = Ret (s', m', f', g') ->
    moved s s' /\ m_start m' = m_start m.
Proof.
  revert s m fields formats. induction n as [|n IH]; intros s m fields formats; cbn [read_fields].
  - split; [done|]. by intros s' m' f' g' [= <- <- _ _].
  - pose proof (read_cstring_not_fuel s (s_parseOffset s)) as Hf.
    destruct (read_cstring s (s_parseOffset s)) as [name| |]; cbn [obind]; [|done..].
    set (off := s_parseOffset s + _ + 4 + 2 + 4 + 2 + 4).
    pose proof (read16_not_fuel (s <| s_parseOffset := off |>) off) as Hf2.
    destruct (read16 _ off) as [format| |]; cbn [obind]; [|done..].
    destruct (IH (s <| s_parseOffset := off + 2 |>) (m <| m_NumberOfFields := m_NumberOfFields m + 1 |>)
      (fields ++ [name]) (formats ++ [format mod 256])) as [H1 H2].
    split; [done|]. intros s' m' f' g' E. destruct (H2 _ _ _ _ E) as [Hm Hst]. split; [|done].
    eapply moved_trans; [|exact Hm]. unfold moved. cbn. pose proof (len_nonneg name). repeat split. lia.
Qed.

Lemma pgsqlFieldsParser_ok s m :
  pgsqlFieldsParser s m <> OutOfFuel /\
  forall s' m', pgsqlFieldsParser s m = Ret (s', m') -> moved s s' /\ m_start m' = m_start m.
Proof.
  unfold pgsqlFieldsParser. pose proof (read16_not_fuel s (s_parseOffset s)).
  destruct (read16 _ _) as [n| |]; cbn [obind]; [|done..].
  destruct (read_fields_ok (Z.to_nat n) (s <| s_parseOffset := s_parseOffset s + 2 |>) m [] []) as [H1 H2].
  destruct (read_fields _ _ _ _ _) as [[[[s1 m1] f] g]| |]; cbn [obind]; [|done..].
  split; [done|]. intros s' m' [= <- <-]. destruct (H2 _ _ _ _ eq_refl) as [Hm Hst]. split; [|done].
  eapply moved_trans; [|exact Hm]. unfold moved. cbn. repeat split. lia.
Qed.

Lemma read_columns_ok n limit m i s row row_len :
  read_columns n limit m i s row row_len <> OutOfFuel /\
  forall s' row', read_columns n limit m i s row row_len = Ret (s', row') -> moved s s'.
Proof.
  revert i s row row_len. induction n as [|n IH]; intros i s row row_len; cbn [read_columns].
  - split; [done|]. by intros s' row' [= <- _].
  - pose proof (read32_not_fuel s (s_parseOffset s)).
    destruct (read32 _ _) as [c| |]; cbn [obind]; [|done..]. set (cl := int32_of c).
    set (s1 := s <| s_parseOffset := s_parseOffset s + 4 |>).
    assert (moved s s1) as Hm1 by (unfold moved; cbn; repeat split; lia).
    pose proof (at_not_fuel (m_FieldsFormat m) i). destruct (at_ _ i) as [f| |]; cbn [obind]; [|done..].
    assert (column_value s1 f cl <> OutOfFuel) as Hv.
    { unfold column_value. case_decide; [|done]. apply obind_not_fuel; auto with go. }
    destruct (column_value s1 f cl) as [v| |]; cbn [obind]; [|done..].
    set (cell := if decide (row_len < limit) then _ else _).
    assert (cell <> OutOfFuel) as Hc.
    { subst cell. case_decide; [|done]. apply obind_not_fuel; [|done]. case_decide; auto with go. }
    destruct cell as [[row' rl']| |]; cbn [obind]; [|done..].
    set (s2 := if decide (cl > 0) then _ else s1).
    assert (moved s1 s2) as Hm2 by (subst s2; case_decide; unfold moved; cbn; repeat split; lia).
    destruct (IH (i + 1) s2 row' rl') as [H1 H2]. split; [done|]. intros s' r' E.
    eapply moved_trans; [exact Hm1|]. eapply moved_trans; [exact Hm2|]. by eapply H2.
Qed.

Lemma pgsqlRowsParser_ok pgsql s m :
  pgsqlRowsParser pgsql s m <> OutOfFuel /\
  forall s' m', pgsqlRowsParser pgsql s m = Ret (s', m') -> moved s s' /\ m_start m' = m_start m.
Proof.
  unfold pgsqlRowsParser. pose proof (read16_not_fuel s (s_parseOffset s)).
  destruct (read16 _ _) as [n| |]; cbn [obind]; [|done..].
  destruct (read_columns_ok (Z.to_nat n) (maxRowLength pgsql) m 0 (s <| s_parseOffset := s_parseOffset s + 2 |>) [] 0)
    as [H1 H2].
  destruct (read_columns _ _ _ _ _ _ _) as [[s1 row]| |]; cbn [obind]; [|done..].
  split; [done|]. intros s' m' [= <- <-]. split; [|by case_decide].
  eapply moved_trans; [|by eapply H2]. unfold moved. cbn. repeat split. lia.
Qed.

Lemma error_step_ok s m :
  0 <= s_parseOffset s ->
  match error_step (s, m) with
  | Ret (inl (s', m')) => moved s s' /\ m_start m' = m_start m /\
      s_parseOffset s < s_parseOffset s' /\ s_parseOffset s < len (vis (s_data s))
  | Ret (inr (s', m')) => moved s s' /\ m_start m' = m_start m
  | Panic => True
  | OutOfFuel => False
  end.
Proof.
  intros Ho. unfold error_step, sl_from. case_decide as Hd; cbn [obind]; [|done]. cbn [vis].
  rewrite len_drop by lia. case_decide; [|unfold moved; repeat split; lia].
  destruct (at_ok (vis (s_data s)) (s_parseOffset s)) as (c & -> & _); [lia|]. cbn [obind].
  case_decide; [unfold moved; cbn; repeat split; lia|].
  pose proof (read_cstring_not_fuel (s <| s_parseOffset := s_parseOffset s + 1 |>)
    (s_parseOffset (s <| s_parseOffset := s_parseOffset s + 1 |>))).
  destruct (read_cstring _ _) as [v| |]; cbn [obind]; [|done..]. pose proof (len_nonneg v).
  split; [unfold moved; cbn; repeat split; lia|]. split; [by repeat case_match|cbn; lia].
Qed.

Lemma pgsqlErrorParser_ok s m :
  0 <= s_parseOffset s ->
  pgsqlErrorParser s m <> OutOfFuel /\
  forall s' m', pgsqlErrorParser s m = Ret (s', m') -> moved s s' /\ m_start m' = m_start m.
Proof.
  intros Ho. unfold pgsqlErrorParser. split.
  - apply (loop_fuel _ (fun x => 0 <= s_parseOffset (fst x))
      (fun x => Z.to_nat (len (vis (s_data (fst x))) - s_parseOffset (fst x)))); [| |done|unfold len; cbn; lia].
    + intros [t n] Ht E. pose proof (error_step_ok t n Ht) as H. by rewrite E in H.
    + intros [t n] [t' n'] Ht E. pose proof (error_step_ok t n Ht) as H. rewrite E in H. cbn in *.
      destruct H as ((H1 & -> & _) & _ & H2 & H3). lia.
  - intros s' m' E.
    apply (loop_inv error_step (fun x => moved s (fst x) /\ m_start (snd x) = m_start m)
      (fun x => moved s (fst x) /\ m_start (snd x) = m_start m)) in E; [done|..|by repeat split].
    all: intros [t n] [t' n'] [Hm Hst] Es; assert (0 <= s_parseOffset t) as Ht by (destruct Hm; cbn in *; lia);
      pose proof (error_step_ok t n Ht) as H; rewrite Es in H; cbn in *;
      (split; [eapply moved_trans; [exact Hm|apply H]|destruct H as (_ & H); destruct_and?; congruence]).
Qed.

(** The special commands: the length is the one read from the first four bytes. *)
Lemma special_zero data : 8 <= len data ->
  isSpecialPgsqlCommand data = Ret (Some StartupMessage) -> (exists b, str_slice data 0 4 = Ret b /\ Bytes_Ntohl b = Ret 0) ->
  exists post, data = zero_startup ++ post.
Proof.
  intros Hl. destruct data as [|a0 [|a1 [|a2 [|a3 [|b0 [|b1 [|b2 [|b3 post]]]]]]]]; try (exfalso; unfold len in Hl; cbn in Hl; lia).
  set (data := a0 :: _) in *. unfold isSpecialPgsqlCommand. rewrite decide_False by lia.
  assert (str_slice data 0 4 = Ret [a0; a1; a2; a3]) as ->.
  { unfold str_slice. rewrite decide_True by lia. done. }
  assert (str_slice data 4 8 = Ret [b0; b1; b2; b3]) as ->.
  { unfold str_slice. rewrite decide_True by lia. done. }
  cbn [obind]. rewrite !Bytes_Ntohl_val. cbn [obind]. intros Hc (b & [= <-] & Hz).
  rewrite Bytes_Ntohl_val in Hz. injection Hz as Hz.
  pose proof (u8_bound a0). pose proof (u8_bound a1). pose proof (u8_bound a2). pose proof (u8_bound a3).
  pose proof (u8_bound b0). pose proof (u8_bound b1). pose proof (u8_bound b2). pose proof (u8_bound b3).
  do 3 (case_decide; [try done|]); [|done].
  assert (a0 = x00 /\ a1 = x00 /\ a2 = x00 /\ a3 = x00 /\ b0 = x00 /\ b1 = x03 /\ b2 = x00 /\ b3 = x00)
    as (-> & -> & -> & -> & -> & -> & -> & ->); [|by exists post].
  repeat split; apply u8_inj; change (u8 x00) with 0; change (u8 x03) with 3; lia.
Qed.

Lemma close_fields s m : m_start (close s m) = m_start m /\ m_end (close s m) = s_parseOffset s.
Proof. done. Qed.

Lemma command_complete_ok s m n :
  0 <= s_parseOffset s -> 0 <= m_start m <= s_parseOffset s -> 0 <= n ->
  match command_complete n s m with
  | Ret (inl _) => False
  | Ret (inr (s', m', (ok, complete))) =>
      s_data s' = s_data s /\ s_parseState s' = s_parseState s /\ m_start m' = m_start m /\ ok = true /\
      s_parseOffset s <= s_parseOffset s' /\
      (if complete : bool then 0 <= m_start m' < m_end m' else s' = s /\ m' = m)
  | Panic => True
  | OutOfFuel => False
  end.
Proof.
  intros Ho Hst Hn. unfold command_complete, available. case_decide.
  - pose proof (sl_slice_not_fuel (s_data (skip 1 s)) (s_parseOffset (skip 1 s) + 4) (s_parseOffset (skip 1 s) + n - 1)).
    destruct (sl_slice _ _ _) as [name| |]; cbn [obind]; [|done..].
    unfold complete. destruct (close_fields (skip n (skip 1 s)) m) as [E1 E2].
    rewrite ?E1, ?E2. cbn. repeat split; lia.
  - unfold wait. repeat split; try done.
Qed.

Lemma typed_message_ok typ n s m :
  0 <= s_parseOffset s -> s_parseState s = PgsqlStartState -> 5 <= available s -> 0 <= n ->
  turn_ok s m (typed_message typ n s m).
Proof.
  intros Ho Hs Ha Hn. unfold available in *.
  assert (forall s' m', 0 <= s_parseOffset s' -> s_parseState s' = PgsqlStartState -> pinv s' m') as Hp
    by (intros s' m' ? E; split; [done|by rewrite E]).
  assert (forall m', turn_ok s m (wait s m')) as Hw by (intros; split; [by apply Hp|by repeat split]).
  assert (forall s' m', 0 <= s_parseOffset s' -> s_parseState s' = PgsqlStartState -> s_data s' = s_data s ->
    0 <= m_start m' < m_end m' -> turn_ok s m (complete s' m')) as Hc by (intros; split; [by apply Hp|done]).
  assert (forall s' m' st, m_start m' = s_parseOffset s /\ moved (skip 5 s) s' \/ (moved (skip 1 s) s' /\ st = PgsqlStartState) ->
    turn_ok s m (go_on (s' <| s_parseState := st |>) m')) as Hg.
  { intros s' m' st Hm. unfold turn_ok, go_on, parser_measure, pinv. cbn [fst s_parseOffset set_field s_data s_parseState].
    assert (s_data s' = s_data s /\ s_parseOffset s + 1 <= s_parseOffset s' /\
      (st = PgsqlStartState \/ m_start m' = s_parseOffset s /\ s_parseOffset s + 5 <= s_parseOffset s')) as (-> & H1 & H2)
      by (destruct Hm as [[? (H1 & H2 & _)]|[(H1 & H2 & _) ?]]; cbn in *; repeat split; auto; lia).
    rewrite Hs. destruct st; destruct H2 as [H2|H2]; try done; repeat split; try done; try lia; left; lia. }
  unfold typed_message, available. repeat case_match; try apply Hw.
  - apply pgsql_turn_bind; [auto with go|]. intros q _. apply Hc; cbn; try done; lia.
  - set (m1 := m <| m_start := _ |> <| m_IsRequest := _ |> <| m_IsOK := _ |> <| m_toExport := _ |>).
    destruct (pgsqlFieldsParser_ok (skip 5 s) m1) as [Hf Hok].
    apply pgsql_turn_bind; [done|]. intros [s' m'] E. destruct (Hok _ _ E) as [? Hst]. apply Hg. left. by rewrite Hst.
  - apply Hc; cbn; try done; lia.
  - set (m1 := m <| m_start := _ |> <| m_IsRequest := _ |> <| m_IsError := _ |> <| m_toExport := _ |>).
    destruct (pgsqlErrorParser_ok (skip 5 s) m1) as [Hf Hok]; [cbn; lia|].
    apply pgsql_turn_bind; [done|]. intros [s' m'] E. destruct (Hok _ _ E) as [(Hm1 & Hm2 & Hm3) Hst].
    destruct (close_fields s' m') as [E1 E2]. apply Hc; rewrite ?E1, ?E2, ?Hst; cbn in *; try done; lia || congruence.
  - set (m1 := m <| m_start := _ |> <| m_IsRequest := _ |> <| m_IsOK := _ |> <| m_toExport := _ |>).
    assert (0 <= m_start m1 <= s_parseOffset s) as Hm1 by (cbn; lia).
    pose proof (command_complete_ok s m1 n Ho Hm1 Hn) as H'.
    destruct (command_complete n s m1) as [[?|[[s' m'] [ok c]]]| |]; try done.
    destruct H' as (Q1 & Q2 & Q3 & Q4 & Q5 & Q6). split; [apply Hp; [lia|congruence]|].
    do 2 (split; [done|]). intros ->. done.
  - apply Hc; cbn; try done; lia.
  - assert (skip (1 + n) s = skip (1 + n) s <| s_parseState := PgsqlStartState |>) as ->
      by (unfold skip; destruct s; cbn in *; by rewrite Hs).
    apply Hg. right. split; [|done]. unfold moved. cbn. repeat split. lia.
Qed.

Lemma str_slice_range s lo hi r : str_slice s lo hi = Ret r -> 0 <= lo /\ lo <= hi /\ hi <= len s /\ r = sub s lo hi.
Proof. unfold str_slice. case_decide; [|done]. intros [= <-]. tauto. Qed.

Lemma special_not_fuel data : isSpecialPgsqlCommand data <> OutOfFuel.
Proof. unfold isSpecialPgsqlCommand. case_decide; [done|]. do 4 (apply obind_not_fuel; [auto with go|intros ?]). done. Qed.
#[local] Hint Resolve special_not_fuel : go.

(** The length of a special command is the one its detection read. *)
Lemma special_length s rest c :
  0 <= s_parseOffset s <= len (vis (s_data s)) -> rest = drop (Z.to_nat (s_parseOffset s)) (vis (s_data s)) ->
  isSpecialPgsqlCommand rest = Ret (Some c) ->
  exists n b, read32 s (s_parseOffset s) = Ret n /\ str_slice rest 0 4 = Ret b /\ Bytes_Ntohl b = Ret n /\
    8 <= len rest /\ (c = SSLRequest -> n = 8) /\ (c = CancelRequest -> n = 16).
Proof.
  intros Ho Hr. unfold isSpecialPgsqlCommand. case_decide as Hl; [done|]. subst rest.
  rewrite len_drop in Hl by lia. set (rest := drop _ _).
  assert (len rest = len (vis (s_data s)) - s_parseOffset s) as Hlr by (subst rest; rewrite len_drop; lia).
  unfold str_slice. rewrite decide_True by lia. cbn [obind].
  destruct (sl_slice_vis (s_data s) (s_parseOffset s) (s_parseOffset s + 4)) as (t & Et & Ev); [lia..|].
  assert (vis t = sub rest 0 4) as Ev'.
  { rewrite Ev. unfold sub. subst rest. do 2 f_equal. lia. }
  unfold read32. rewrite Et. cbn [obind]. rewrite Ev'.
  destruct (Bytes_Ntohl_4 (sub rest 0 4)) as [n En]; [rewrite len_sub; lia|]. rewrite En. cbn [obind].
  rewrite decide_True by lia. cbn [obind].
  destruct (Bytes_Ntohl (sub rest 4 8)) as [code| |]; cbn [obind]; [|done..]. intros [= Hc].
  exists n, (sub rest 0 4). do 3 (split; [done|]). split; [lia|]. repeat case_decide; naive_solver.
Qed.

Lemma start_state_ok s m :
  0 <= s_parseOffset s < len (vis (s_data s)) -> s_parseState s = PgsqlStartState -> turn_ok s m (start_state s m).
Proof.
  intros Ho Hs. unfold start_state.
  assert (forall s' m', 0 <= s_parseOffset s' -> s_parseState s' = PgsqlStartState -> pinv s' m') as Hp
    by (intros s' m' ? E; split; [done|by rewrite E]).
  case_decide as Ha; [split; [apply Hp; [lia|done]|by repeat split]|].
  unfold sl_from. rewrite decide_True by lia. cbn [obind vis]. set (rest := drop _ _).
  apply pgsql_turn_bind; [auto with go|]. intros [c|] Ec.
  - destruct (special_length s rest c ltac:(lia) eq_refl Ec) as (n & b & En & Eb & Ebn & Hl & H1 & H2).
    unfold special_command. rewrite En. cbn [obind]. pose proof (read32_range _ _ _ En).
    case_decide; [|split; [apply Hp; [lia|done]|by repeat split]].
    destruct c.
    + specialize (H1 eq_refl). subst n. split; [apply Hp; [cbn; lia|done]|]. do 2 (split; [done|]). cbn. lia.
    + split; [apply Hp; [cbn; lia|done]|]. split; [done|].
      destruct (decide (n = 0)) as [->|].
      * right. destruct (special_zero rest Hl Ec) as [post Ep]; [by exists b|].
        exists (take (Z.to_nat (s_parseOffset s)) (vis (s_data s))), post. rewrite <- Ep. unfold rest. by rewrite take_drop.
      * left. unfold parser_measure. cbn. rewrite Hs. lia.
    + specialize (H2 eq_refl). subst n. split; [apply Hp; [cbn; lia|done]|]. split; [done|].
      left. unfold parser_measure. cbn. rewrite Hs. lia.
  - apply pgsql_turn_bind; [auto with go|]. intros typ _.
    destruct (s_expectSSLResponse s && _).
    + split; [apply Hp; [cbn; lia|done]|]. do 2 (split; [done|]). cbn. lia.
    + apply pgsql_turn_bind; [auto with go|]. intros n En. apply read32_range in En.
      apply typed_message_ok; [lia|done|lia|lia].
Qed.

Lemma get_data_state_ok pgsql s m :
  pinv s m -> s_parseOffset s < len (vis (s_data s)) -> s_parseState s = PgsqlGetDataState ->
  turn_ok s m (get_data_state pgsql s m).
Proof.
  intros [Ho Hm] Hl Hs. specialize (Hm Hs). unfold get_data_state.
  assert (pinv s m) as Hp by (by split).
  case_decide as Ha; [split; [done|by repeat split]|]. unfold available in Ha.
  apply pgsql_turn_bind; [auto with go|]. intros typ _. apply pgsql_turn_bind; [auto with go|]. intros n En.
  apply read32_range in En. destruct (Byte.eqb typ "D"); [|destruct (Byte.eqb typ "C")].
  - case_decide; [|split; [done|by repeat split]].
    destruct (pgsqlRowsParser_ok pgsql (skip 5 s) m) as [Hf Hok]. apply pgsql_turn_bind; [done|]. intros [s' m'] E.
    destruct (Hok _ _ E) as [(H1 & H2 & H3) H4]. cbn in H1. unfold turn_ok, go_on, pinv, parser_measure. cbn [fst].
    rewrite H4, H2, H3. cbn. repeat split; [lia..|]. left. rewrite Hs. lia.
  - pose proof (command_complete_ok s m n Ho ltac:(lia) ltac:(lia)) as H.
    destruct (command_complete n s m) as [[?|[[s' m'] [ok c]]]| |]; cbn [obind]; try done.
    destruct H as (H1 & H2 & H3 & -> & H5 & H6). destruct c; unfold turn_ok.
    + split; [split; cbn; [lia|done]|done].
    + destruct H6 as [-> ->]. split; [done|]. do 2 (split; [done|]). done.
  - unfold turn_ok, go_on, pinv, parser_measure. cbn. split; [split; [done|done]|]. split; [done|]. left. rewrite Hs. lia.
Qed.

Lemma pgsql_step_ok pgsql s m : pinv s m -> turn_ok s m (parser_step pgsql (s, m)).
Proof.
  intros Hp. unfold parser_step. case_decide; [|split; [done|do 2 (split; [done|]); done]].
  destruct (s_parseState s) eqn:E; [apply start_state_ok; [destruct Hp; lia|done]|by apply get_data_state_ok].
Qed.

Lemma has_zero_drop n data : has_zero_startup (drop n data) -> has_zero_startup data.
Proof.
  intros (pre & post & E). exists (take n data ++ pre), post. by rewrite <- app_assoc, <- E, take_drop.
Qed.

(** A stream between packets. *)
Definition stream_ok (s : PgsqlStream) : Prop :=
  match s_message s with
  | Some m => pinv s m
  | None => s_parseOffset s = 0 /\ s_parseState s = PgsqlStartState
  end.

Lemma pgsql_parser_ok fuel pgsql s m :
  s_message s = Some m -> pinv s m -> (2 * length (vis (s_data s)) + 1 < fuel)%nat ->
  match pgsqlMessageParser fuel pgsql s with
  | Ret (s', (ok, complete)) =>
      exists m', s_message s' = Some m' /\ pinv s' m' /\ s_data s' = s_data s /\ ok = true /\
        (complete = true -> 0 <= m_start m' < m_end m')
  | Panic => True
  | OutOfFuel => has_zero_startup (vis (s_data s))
  end.
Proof.
  intros Em Hp Hn. unfold pgsqlMessageParser. rewrite Em.
  set (Inv := fun x : PgsqlStream * PgsqlMessage => pinv (fst x) (snd x) /\ s_data (fst x) = s_data s).
  destruct (loop _ _ _) as [[[s' m'] [ok c]]| |] eqn:E; cbn [obind]; [|done|].
  - apply (loop_inv _ Inv (fun y => turn_ok s m (Ret (inr y)))) in E; [|..|done].
    + destruct E as (H1 & H2 & H3 & H4). by exists m'.
    + intros [t n] [t' n'] [H1 H2] Es. pose proof (pgsql_step_ok pgsql t n H1) as H. rewrite Es in H.
      destruct H as (H3 & H4 & _). split; [done|cbn in *; congruence].
    + intros [t n] [[t' n'] [ok' c']] [H1 H2] Es. pose proof (pgsql_step_ok pgsql t n H1) as H. rewrite Es in H.
      unfold turn_ok in *. cbn in H2. by rewrite <- H2.
  - apply (loop_stuck _ Inv (fun x => has_zero_startup (vis (s_data (fst x)))) parser_measure) in E.
    + destruct E as (t & [_ Ht] & Hz). by rewrite <- Ht.
    + intros [t n] [H1 H2] Es. pose proof (pgsql_step_ok pgsql t n H1) as H. by rewrite Es in H.
    + intros [t n] [t' n'] [H1 H2] Es. pose proof (pgsql_step_ok pgsql t n H1) as H. rewrite Es in H.
      destruct H as (H3 & H4 & H5). split; [|done]. split; [done|cbn in *; congruence].
    + done.
    + destruct Hp as [Hp _]. unfold parser_measure, len. cbn. destruct (s_parseState s); lia.
Qed.

Section Total.
Context {UC : Unicode} {W : Type} {PW : ProcWatcher W} {RT : Runtime}.

Definition other_ok (other : option PgsqlStream) : Prop := forall s, other = Some s -> stream_ok s.

(** [deliver] keeps what the parser reads of the two streams. *)
Lemma deliver_ok tcptuple dir m (x : parse_state (W := W)) r s' other' st' :
  other_ok (snd (fst x)) -> deliver tcptuple dir m x = (r, (s', other', st')) ->
  s_data s' = s_data (fst (fst x)) /\ s_message s' = s_message (fst (fst x)) /\ other_ok other'.
Proof.
  destruct x as [[s other] st]. cbn [fst snd]. intros Ho. unfold deliver.
  repeat case_match; intros [= <- <- <- <-]; try done. split; [done|]. split; [done|].
  intros o' [= <-]. exact (Ho _ eq_refl).
Qed.

Lemma parse_step_shrinks fuel ts tcptuple dir s other (st : Pgsql * W) :
  stream_ok s -> other_ok other -> (2 * length (vis (s_data s)) + 1 < fuel)%nat ->
  match parse_step fuel ts tcptuple dir (s, other, st) with
  | Ret (inl (s', other', _)) =>
      stream_ok s' /\ other_ok other' /\
      exists k, (0 < k <= length (vis (s_data s)))%nat /\ vis (s_data s') = drop k (vis (s_data s))
  | Ret (inr (Keep s' other', _)) => stream_ok s' /\ other_ok other'
  | Ret (inr (Drop other', _)) => other_ok other'
  | Ret (inr (Recovered, _)) => True
  | Panic => False
  | OutOfFuel => has_zero_startup (vis (s_data s))
  end.
Proof.
  intros Hs Ho Hn. unfold parse_step. case_decide as Hl; [|done]. cbv zeta.
  set (s1 := match s_message s with Some _ => s | None => _ end).
  assert (exists m, s_message s1 = Some m /\ pinv s1 m /\ s_data s1 = s_data s) as (m & Em & Hp & Hd).
  { subst s1. unfold stream_ok in Hs. destruct (s_message s) as [m|] eqn:E; [by exists m|].
    exists (newMessage ts). destruct Hs as [H1 H2]. unfold pinv. cbn. rewrite H1, H2. repeat split; done || lia. }
  rewrite <- Hd in Hn. pose proof (pgsql_parser_ok fuel (fst st) s1 m Em Hp Hn) as H.
  destruct (pgsqlMessageParser _ _ _) as [[s2 [ok c]]| |]; [|done|by rewrite <- Hd].
  destruct H as (m' & Em' & Hp' & Hd' & -> & Hc). cbn [negb]. destruct c.
  - rewrite Em'. specialize (Hc eq_refl). unfold ship. destruct (sl_slice _ _ _); [|done..].
    destruct (deliver _ _ _ _) as [r [[s3 o3] st3]] eqn:Ed. destruct r; [|done..].
    destruct (deliver_ok _ _ _ (s2, other, st) _ _ _ _ Ho Ed) as (E1 & E2 & Ho3). cbn [fst] in E1, E2.
    unfold PrepareForNewMessage. rewrite E2, Em', E1. unfold sl_from. case_decide as Hr; cbn [obind]; [|done].
    split; [done|]. split; [done|]. exists (Z.to_nat (m_end m')). rewrite Hd', Hd in *. unfold len in Hr. cbn. split; [lia|done].
  - split; [|done]. unfold stream_ok. by rewrite Em'.
Qed.

Lemma pgsql_loop_ok fuel n ts tcptuple dir s other (st : Pgsql * W) :
  stream_ok s -> other_ok other -> (2 * length (vis (s_data s)) + 1 < fuel)%nat -> (length (vis (s_data s)) < n)%nat ->
  match loop (parse_step fuel ts tcptuple dir) n (s, other, st) with
  | Ret (Keep s' other', _) => stream_ok s' /\ other_ok other'
  | Ret (Drop other', _) => other_ok other'
  | Ret (Recovered, _) => True
  | Panic => False
  | OutOfFuel => has_zero_startup (vis (s_data s))
  end.
Proof.
  revert s other st. induction n as [|n IH]; intros s other st Hs Ho Hf Hn; [lia|]. rewrite loop_S.
  pose proof (parse_step_shrinks fuel ts tcptuple dir s other st Hs Ho Hf) as H.
  destruct (parse_step fuel ts tcptuple dir (s, other, st)) as [[[[s' other'] st']|[[] ?]]| |]; try done.
  destruct H as (Hs' & Ho' & k & Hk & E). pose proof (length_drop (vis (s_data s)) k) as Hld. rewrite <- E in Hld.
  specialize (IH s' other' st' Hs' Ho' ltac:(lia) ltac:(lia)).
  destruct (loop _ _ _); try done. rewrite E in IH. by apply has_zero_drop in IH.
Qed.

Definition priv_ok (private : option pgsqlPrivateData) : Prop :=
  forall dir, match get2 (default nil2 private) dir with Ret o => other_ok o | _ => True end.

Lemma pgsql_priv_nil : priv_ok None.
Proof. intros d. cbn. unfold get2. repeat case_decide; by intros. Qed.

Lemma pgsql_priv_set2 priv dir o : priv_ok (Some priv) -> other_ok o -> priv_ok (Some (set2 priv dir o)).
Proof.
  intros Hp Ho d. pose proof (Hp 0) as H0. pose proof (Hp 1) as H1. cbn in *. unfold set2, get2.
  by repeat case_decide.
Qed.

Lemma pgsql_received_ok pkt tcptuple old other : other_ok old -> stream_ok (expect_ssl other (received pkt tcptuple old)).
Proof.
  intros H. assert (stream_ok (received pkt tcptuple old)) as Hr.
  { destruct old as [s|]; [exact (H s eq_refl)|]. unfold stream_ok, pinv. cbn. done. }
  unfold expect_ssl. destruct other as [o|]; [|done]. by destruct (s_seenSSLRequest o).
Qed.

(** The bytes that [Parse] works on. *)
Definition stream_bytes (pkt : Packet) (old : option PgsqlStream) : bytes :=
  match old with Some s => vis (s_data s) | None => [] end ++ vis (pk_Payload pkt).

Lemma received_bytes pkt tcptuple old other :
  vis (s_data (expect_ssl other (received pkt tcptuple old))) = stream_bytes pkt old.
Proof.
  assert (vis (s_data (received pkt tcptuple old)) = stream_bytes pkt old) as E
    by (destruct old as [s|]; [apply append_vis|done]).
  rewrite <- E. unfold expect_ssl. destruct other as [o|]; [|done]. by destruct (s_seenSSLRequest o).
Qed.

(** C15: on any packet [Parse] gives a result with well-formed streams when its bytes (with
    those already buffered) hold no startup message that announces length zero;
    a fuel of twice their number is enough. *)
Theorem pgsql_Parse_total fuel pkt tcptuple dir private (st : Pgsql * W) old :
  valid_dir dir -> priv_ok private -> get2 (default nil2 private) dir = Ret old ->
  (2 * length (stream_bytes pkt old) + 1 < fuel)%nat ->
  ~ has_zero_startup (stream_bytes pkt old) ->
  exists private' st', Parse fuel pkt tcptuple dir private st = Ret (private', st') /\ priv_ok private'.
Proof.
  intros Hdir Hp Eo Hf Hz. unfold Parse. rewrite Eo.
  assert (exists other, get2 (default nil2 private) (1 - dir) = Ret other) as [other Ex]
    by (destruct Hdir as [-> | ->]; eexists; reflexivity).
  rewrite Ex. pose proof (Hp dir) as Hold. rewrite Eo in Hold. pose proof (Hp (1 - dir)) as Hoth. rewrite Ex in Hoth.
  assert (priv_ok (Some (default nil2 private))) as Hp' by exact Hp.
  destruct (too_large _ _); [eexists _, _; split; [reflexivity|by apply pgsql_priv_set2]|].
  unfold parse_loop. set (s := expect_ssl other (received pkt tcptuple old)).
  pose proof (received_bytes pkt tcptuple old other) as Eb. fold s in Eb.
  pose proof (pgsql_loop_ok fuel (S (length (vis (s_data s)))) (pk_Ts pkt) tcptuple dir s other st) as H.
  rewrite Eb in *. specialize (H (pgsql_received_ok _ _ _ _ Hold) Hoth Hf ltac:(lia)).
  destruct (loop _ _ _) as [[e st']| |]; [|done..]. cbn [obind]. eexists _, _. split; [reflexivity|].
  destruct e as [s' o'|o'|]; [..|exact pgsql_priv_nil]; repeat apply pgsql_priv_set2; try done; try apply H;
    intros ? [=]; subst; exact (proj1 H).
Qed.

End Total.

(** * Examples *)

#[local] Existing Instance Demo.unicode.
#[local] Existing Instance Demo.runtime.
#[local] Existing Instance Demo.watcher.

Definition demo_pgsql : Pgsql :=
  Init {| Ports := []; maxStoreRows := 0; maxRowLength := 0; Send_request := true; Send_response := true;
          transactionsMap := ∅; allocated := 0; results := None |} false
    {| cfg_Ports := [5432]; cfg_Max_row_length := None; cfg_Max_rows := Some 1;
       cfg_Send_request := None; cfg_Send_response := Some true |} (Some []).

(** A query packet: [;] and a terminator. *)
Definition demo_packet : Packet := Demo.packet 0 ("Q"%byte :: be32 6 ++ [x3b; x00]).

Lemma pgsql_Parse_total_witness :
  exists private' st', Parse 16 demo_packet Demo.tuple 1 None (demo_pgsql, tt) = Ret (private', st') /\ priv_ok private'.
Proof.
  apply (pgsql_Parse_total 16 demo_packet Demo.tuple 1 None (demo_pgsql, tt) None).
  - by right.
  - exact pgsql_priv_nil.
  - reflexivity.
  - cbn. lia.
  - intros (pre & post & E). apply (f_equal length) in E. rewrite !length_app in E. cbn in E. lia.
Defined.

(** Two queries of one request, the SSL exchange, and an error response. *)
Example pgsql_two_queries :
  pgsqlQueryParser (bs " select 1; ;update t ") = [bs "select 1"; bs "update t"].
Proof. by vm_compute. Qed.

Example pgsql_method : getQueryMethod (bs "select 1") = bs "SELECT" /\ getQueryMethod (bs "commit") = bs "COMMIT".
Proof. by vm_compute. Qed.

(** The error parser reads to the end of the data: the message after a terminated list
    of fields that lacks its terminator is swallowed. *)
Example pgsql_error_overread :
  match pgsqlMessageParser 3 demo_pgsql
    {| s_tcptuple := Demo.tuple; s_data := mkSlice ("E"%byte :: be32 9 ++ bs "Mbad" ++ [x00] ++ bs "Ctail" ++ [x00; x00]) [];
       s_parseOffset := 0; s_parseState := PgsqlStartState; s_seenSSLRequest := false; s_expectSSLResponse := false;
       s_message := Some (newMessage 0) |} with
  | Ret (s, (true, true)) =>
      match s_message s with Some m => m_ErrorInfo m = bs "bad" /\ m_ErrorCode m = bs "tail" /\ m_end m = 17 | None => False end
  | _ => False
  end.
Proof. by vm_compute. Qed.

(** An SSL request is answered by one byte, which the parser does not look at before
    it has five. *)
Example pgsql_ssl_waits :
  match pgsqlMessageParser 3 demo_pgsql
    {| s_tcptuple := Demo.tuple; s_data := mkSlice [x4e] []; s_parseOffset := 0; s_parseState := PgsqlStartState;
       s_seenSSLRequest := false; s_expectSSLResponse := true; s_message := Some (newMessage 0) |} with
  | Ret (_, r) => r = (true, false)
  | _ => False
  end.
Proof. by vm_compute. Qed.
