(* ===== verification/PgsqlMessages.v ===== *)
(** The PostgreSQL message parser against the wire format: queries and result sets
    are read back from their encodings, and the input on which the parser does
    not end. *)
From S2P Require Import Pgsql.

(** * The wire format *)

(** A message: its type, its length (which counts itself) and its body. *)
Definition encode_message (typ : byte) (body : bytes) : bytes := typ :: be32 (len body + 4) ++ body.

Definition encode_query (query : bytes) : bytes := encode_message "Q" (query ++ [x00]).

(** A column: its name, 16 bytes of type information, and its format. *)
Record field := { f_name : bytes; f_meta : bytes; f_format : Z }.
Definition field_ok (f : field) : Prop :=
  x00 ∉ f_name f /\ length (f_meta f) = 16%nat /\ 0 <= f_format f < 256.
Definition encode_field (f : field) : bytes := f_name f ++ x00 :: f_meta f ++ be16 (f_format f).
Definition encode_description (fields : list field) : bytes :=
  encode_message "T" (be16 (len fields) ++ concat (map encode_field fields)).

(** A value of a row, [None] for NULL. *)
Definition encode_cell (v : option bytes) : bytes :=
  match v with None => be32 (2 ^ 32 - 1) | Some v => be32 (len v) ++ v end.
Definition encode_row (row : list (option bytes)) : bytes :=
  encode_message "D" (be16 (len row) ++ concat (map encode_cell row)).
Definition row_ok (fields : list field) (row : list (option bytes)) : Prop :=
  length row = length fields /\ len (encode_row row) < 2 ^ 31.

Definition encode_completion (tag : bytes) : bytes := encode_message "C" (tag ++ [x00]).

(** What the parser makes of a value: nothing of a NULL and of a binary value. *)
Definition cell_text (f : field) (v : option bytes) : bytes :=
  if decide (f_format f = 0) then default [] v else [].
Definition row_text (limit : Z) (fields : list field) (row : list (option bytes)) : list bytes :=
  cut_row limit 0 (zip_with cell_text fields row).

(** * Reading *)

(** The stream at [pre | rest]. *)
Definition at_pos (s : PgsqlStream) (pre rest : bytes) : Prop :=
  vis (s_data s) = pre ++ rest /\ s_parseOffset s = len pre.

Lemma slice_pos d pre b post :
  vis d = pre ++ b ++ post -> exists t, sl_slice d (len pre) (len pre + len b) = Ret t /\ vis t = b.
Proof.
  intros E. destruct (sl_slice_vis d (len pre) (len pre + len b)) as (t & -> & Et).
  - pose proof (len_nonneg pre). pose proof (len_nonneg b). lia.
  - rewrite E, !len_app. pose proof (len_nonneg post). lia.
  - exists t. split; [done|]. by rewrite Et, E, sub_mid.
Qed.

Lemma read16_pos s pre n post :
  vis (s_data s) = pre ++ be16 n ++ post -> 0 <= n < 2 ^ 16 -> read16 s (len pre) = Ret n.
Proof.
  intros E Hn. destruct (slice_pos _ _ _ _ E) as (t & Et & Ev). unfold read16.
  change (len (be16 n)) with 2 in Et. rewrite Et. cbn [obind]. rewrite Ev.
  unfold be16. rewrite Bytes_Ntohs_val, !u8_to_byte, Z.shiftr_div_pow2 by lia. f_equal.
  Z.to_euclidean_division_equations. lia.
Qed.

Lemma read32_pos s pre n post :
  vis (s_data s) = pre ++ be32 n ++ post -> 0 <= n < 2 ^ 32 -> read32 s (len pre) = Ret n.
Proof.
  intros E Hn. destruct (slice_pos _ _ _ _ E) as (t & Et & Ev). unfold read32.
  change (len (be32 n)) with 4 in Et. rewrite Et. cbn [obind]. rewrite Ev.
  rewrite <- (app_nil_r (be32 n)), Bytes_Ntohl_be32. by rewrite Z.mod_small.
Qed.

Lemma Index_nul name post : x00 ∉ name -> Index (name ++ x00 :: post) [x00] = len name.
Proof.
  intros Hn. unfold Index. assert (index_nat (name ++ x00 :: post) [x00] = Some (length name)) as ->; [|done].
  induction name as [|c name IH]; [done|]. apply not_elem_of_cons in Hn as [Hc Hn].
  cbn [index_nat app has_prefix length].
  destruct (Byte.eqb x00 c) eqn:E; [apply beqb_eq in E; congruence|].
  cbn [andb]. by rewrite IH.
Qed.

Lemma cstring_pos s pre name post :
  vis (s_data s) = pre ++ name ++ x00 :: post -> x00 ∉ name -> read_cstring s (len pre) = Ret name.
Proof.
  intros E Hn. unfold read_cstring, sl_from. rewrite E, decide_True by len_lia. cbn [obind vis].
  rewrite drop_len_app. unfold ReadString. rewrite Index_nul by done. pose proof (len_nonneg name).
  rewrite decide_False by lia. cbn [fst]. f_equal. apply (sub_mid [] name).
Qed.

Lemma len_be16 n : len (be16 n) = 2.
Proof. done. Qed.
Lemma len_be32 n : len (be32 n) = 4.
Proof. done. Qed.
#[local] Hint Rewrite len_be16 len_be32 : go_len.

Lemma len_encode_field f : field_ok f -> len (encode_field f) = len (f_name f) + 19.
Proof. intros (_ & H & _). unfold encode_field. autorewrite with go_len. unfold len at 2. rewrite H. lia. Qed.

Lemma len_message typ body : len (encode_message typ body) = len body + 5.
Proof. unfold encode_message. len_lia. Qed.

(** The stream with its offset after [pre]. *)
Definition to_pos (s : PgsqlStream) (pre : bytes) : PgsqlStream := s <| s_parseOffset := len pre |>.

Lemma read_fields_encoded fields s m pre post names formats :
  vis (s_data s) = pre ++ concat (map encode_field fields) ++ post -> Forall field_ok fields ->
  read_fields (length fields) (to_pos s pre) m names formats =
    Ret (to_pos s (pre ++ concat (map encode_field fields)),
         m <| m_NumberOfFields := m_NumberOfFields m + len fields |>,
         names ++ map f_name fields, formats ++ map f_format fields).
Proof.
  revert s m pre names formats. induction fields as [|f fields IH]; intros s m pre names formats E Hok.
  - cbn. rewrite !app_nil_r. change (len []) with 0. rewrite Z.add_0_r. by destruct m.
  - apply Forall_cons_1 in Hok as [Hf Hok]. pose proof Hf as (Hn & Hm & Hfmt).
    assert (len (f_meta f) = 16) as Hm16 by (unfold len; lia). cbn [length read_fields].
    change (s_parseOffset (to_pos s pre)) with (len pre).
    cbn [map concat] in E. rewrite <- app_assoc in E.
    rewrite (cstring_pos _ pre (f_name f) (f_meta f ++ be16 (f_format f) ++ concat (map encode_field fields) ++ post))
      by (done || (cbn; rewrite E; unfold encode_field; by rewrite <- !app_assoc, <- app_comm_cons, <- !app_assoc)).
    cbn [obind]. set (pre1 := pre ++ f_name f ++ x00 :: f_meta f).
    assert (len pre + (len (f_name f) + 1) + 4 + 2 + 4 + 2 + 4 = len pre1) as ->.
    { subst pre1. autorewrite with go_len. lia. }
    rewrite (read16_pos _ pre1 (f_format f) (concat (map encode_field fields) ++ post)).
    2: { cbn. rewrite E. unfold pre1, encode_field. by rewrite <- !app_assoc, <- !app_comm_cons, <- !app_assoc. }
    2: lia.
    cbn [obind]. rewrite Z.mod_small by lia.
    change (to_pos s pre <| s_parseOffset := len pre1 + 2 |>) with (s <| s_parseOffset := len pre1 + 2 |>).
    assert (s <| s_parseOffset := len pre1 + 2 |> = to_pos s (pre ++ encode_field f)) as ->.
    { unfold to_pos. do 2 f_equal. rewrite len_app, len_encode_field by done. subst pre1.
      autorewrite with go_len. lia. }
    rewrite IH; [|by rewrite E, <- app_assoc|done].
    cbn [map concat]. rewrite <- !app_assoc. cbn [app].
    change (m_NumberOfFields (m <| m_NumberOfFields := ?x |>)) with x.
    rewrite len_cons, Z.add_assoc. done.
Qed.

Lemma fields_encoded fields s m pre post :
  vis (s_data s) = pre ++ (be16 (len fields) ++ concat (map encode_field fields)) ++ post ->
  Forall field_ok fields -> len fields < 2 ^ 16 ->
  pgsqlFieldsParser (to_pos s pre) m =
    Ret (to_pos s (pre ++ be16 (len fields) ++ concat (map encode_field fields)),
         m <| m_NumberOfFields := m_NumberOfFields m + len fields |>
           <| m_Fields := map f_name fields |> <| m_FieldsFormat := map f_format fields |>).
Proof.
  intros E Hok Hl. unfold pgsqlFieldsParser. change (s_parseOffset (to_pos s pre)) with (len pre).
  rewrite <- app_assoc in E. rewrite (read16_pos (to_pos s pre) _ _ _ E) by len_lia. cbn [obind].
  assert (to_pos s pre <| s_parseOffset := len pre + 2 |> = to_pos s (pre ++ be16 (len fields))) as ->
    by (unfold to_pos; rewrite len_app, len_be16; done).
  unfold len at 1. rewrite Nat2Z.id, (read_fields_encoded fields s m _ post); [|by rewrite E, <- app_assoc|done].
  cbn [obind app]. by rewrite <- app_assoc.
Qed.

Lemma len_cell v : len (encode_cell v) = 4 + len (default [] v).
Proof. destruct v; cbn [encode_cell default]; [by rewrite len_app|done]. Qed.

(** The value and the length field of a cell. *)
Lemma cell_encoded s pre f v post :
  vis (s_data s) = pre ++ encode_cell v ++ post -> len (default [] v) < 2 ^ 31 ->
  exists n, read32 (to_pos s pre) (len pre) = Ret n /\
    column_value (s <| s_parseOffset := len pre + 4 |>) (f_format f) (int32_of n) = Ret (cell_text f v) /\
    (if decide (int32_of n > 0) then len pre + 4 + int32_of n else len pre + 4) = len (pre ++ encode_cell v).
Proof.
  intros E Hl. destruct v as [v|]; cbn [encode_cell] in *.
  - change (default [] (Some v)) with v in Hl. pose proof (len_nonneg v). rewrite <- app_assoc in E. exists (len v).
    split; [by eapply (read32_pos (to_pos s pre)); [exact E|lia]|].
    rewrite wrapS_small by (done || (change (32 - 1) with 31; lia)). rewrite !len_app, len_be32. unfold column_value, cell_text.
    split; [|case_decide; lia]. change (default [] (Some v)) with v.
    case_decide as H1; [rewrite decide_True by tauto|].
    + destruct (slice_pos (s_data s) (pre ++ be32 (len v)) v post) as (t & Et & Ev); [by rewrite E, <- app_assoc|].
      rewrite len_app, len_be32 in Et. cbn. by rewrite Et, <- Ev.
    + case_decide; [|done]. assert (len v = 0) as Hz by (destruct (decide (len v > 0)); [tauto|lia]).
      destruct v; [done|]. rewrite len_cons in Hz. pose proof (len_nonneg v). lia.
  - exists (2 ^ 32 - 1). split; [by eapply (read32_pos (to_pos s pre)); [exact E|lia]|].
    change (int32_of (2 ^ 32 - 1)) with (-1). unfold column_value, cell_text. rewrite len_app, len_be32.
    split; [|done]. rewrite decide_False by lia. by case_decide.
Qed.

Lemma cut_row_full limit used values : limit <= used -> cut_row limit used values = [].
Proof. intros H. destruct values; [done|]. cbn. by rewrite decide_False by lia. Qed.

Lemma columns_encoded fields cells done_formats m s pre post row used limit :
  m_FieldsFormat m = done_formats ++ map f_format fields -> length cells = length fields ->
  vis (s_data s) = pre ++ concat (map encode_cell cells) ++ post ->
  len (concat (map encode_cell cells)) < 2 ^ 31 -> 0 <= used ->
  read_columns (length cells) limit m (len done_formats) (to_pos s pre) row used =
    Ret (to_pos s (pre ++ concat (map encode_cell cells)), row ++ cut_row limit used (zip_with cell_text fields cells)).
Proof.
  revert fields done_formats pre row used. induction cells as [|v cells IH];
    intros fields done_formats pre row used Ef Hlen E Hl Hu.
  - destruct fields; [|done]. cbn. by rewrite !app_nil_r.
  - destruct fields as [|f fields]; [done|]. cbn [length read_columns].
    change (s_parseOffset (to_pos s pre)) with (len pre).
    cbn [map concat] in *. rewrite len_app, len_cell in Hl.
    rewrite <- app_assoc in E. pose proof (len_nonneg (concat (map encode_cell cells))).
    destruct (cell_encoded s pre f v _ E) as (n & -> & Hv & Hoff); [lia|]. cbn [obind].
    rewrite Ef, at_mid. cbn [obind].
    change (to_pos s pre <| s_parseOffset := len pre + 4 |>) with (s <| s_parseOffset := len pre + 4 |>).
    rewrite Hv. cbn [obind].
    assert ((if decide (int32_of n > 0)
       then s <| s_parseOffset := len pre + 4 |> <| s_parseOffset := s_parseOffset (s <| s_parseOffset := len pre + 4 |>) + int32_of n |>
       else s <| s_parseOffset := len pre + 4 |>) = to_pos s (pre ++ encode_cell v)) as ->.
    { unfold to_pos. rewrite <- Hoff. by case_decide. }
    clear Hoff Hv. pose proof (len_nonneg (default [] v)).
    set (value := cell_text f v). set (value' := take (Z.to_nat (limit - used)) value).
    assert (vis (s_data s) = (pre ++ encode_cell v) ++ concat (map encode_cell cells) ++ post) as E2
      by (by rewrite E, <- app_assoc).
    assert (m_FieldsFormat m = (done_formats ++ [f_format f]) ++ map f_format fields) as Ef2
      by (by rewrite Ef, <- app_assoc).
    assert (len done_formats + 1 = len (done_formats ++ [f_format f])) as -> by (by rewrite len_app).
    injection Hlen as Hlen. cbn [zip_with cut_row]. fold value value'. cbv zeta. case_decide.
    + assert ((if decide (used + len value > limit) then str_slice value 0 (limit - used) else Ret value) = Ret value') as ->.
      { subst value'. case_decide.
        - unfold str_slice, sub. rewrite decide_True by lia. change (Z.to_nat 0) with 0%nat. rewrite Z.sub_0_r. done.
        - rewrite take_ge; [done|unfold len in *; lia]. }
      cbn [obind]. pose proof (len_nonneg value').
      rewrite (IH fields) by (done || lia). by rewrite <- !app_assoc.
    + cbn [obind]. rewrite (IH fields) by (done || lia). rewrite cut_row_full by lia. by rewrite <- !app_assoc.
Qed.

(** * Turns of the parser *)

Lemma keep_row {A} (max : Z) (rows : list A) r :
  (if decide (len (take (Z.to_nat max) rows) < max) then take (Z.to_nat max) rows ++ [r] else take (Z.to_nat max) rows)
  = take (Z.to_nat max) (rows ++ [r]).
Proof.
  rewrite take_app. unfold len. rewrite length_take. case_decide.
  - rewrite (take_ge [r]); [done|cbn; lia].
  - replace (Z.to_nat max - length rows)%nat with 0%nat by lia. cbn. by rewrite app_nil_r.
Qed.

(** The message after [rows], the rows before them being [before]. *)
Definition with_rows (pgsql : Pgsql) (fields : list field) (before : list (list bytes))
    (rows : list (list (option bytes))) (m : PgsqlMessage) : PgsqlMessage :=
  m <| m_NumberOfRows := m_NumberOfRows m + len rows |>
    <| m_Rows := take (Z.to_nat (maxStoreRows pgsql))
                   (before ++ map (row_text (maxRowLength pgsql) fields) rows) |>.

Lemma row_encoded pgsql fields row before m s pre post :
  m_FieldsFormat m = map f_format fields -> m_Rows m = take (Z.to_nat (maxStoreRows pgsql)) before ->
  vis (s_data s) = pre ++ (be16 (len row) ++ concat (map encode_cell row)) ++ post ->
  row_ok fields row -> len fields < 2 ^ 16 ->
  pgsqlRowsParser pgsql (to_pos s pre) m =
    Ret (to_pos s (pre ++ be16 (len row) ++ concat (map encode_cell row)), with_rows pgsql fields before [row] m).
Proof.
  intros Ef Er E [Hlen Hl] Hn. assert (len row = len fields) as Hlf by (unfold len; by rewrite Hlen).
  unfold pgsqlRowsParser. change (s_parseOffset (to_pos s pre)) with (len pre).
  rewrite <- app_assoc in E. rewrite (read16_pos (to_pos s pre) _ _ _ E) by len_lia. cbn [obind].
  assert (to_pos s pre <| s_parseOffset := len pre + 2 |> = to_pos s (pre ++ be16 (len row))) as ->
    by (unfold to_pos; rewrite len_app, len_be16; done).
  unfold encode_row in Hl. rewrite len_message, len_app, len_be16 in Hl.
  unfold len at 1. rewrite Nat2Z.id.
  rewrite (columns_encoded fields row [] m s _ post [] 0) by (done || lia || (by rewrite E, <- app_assoc)).
  cbn [obind app]. rewrite <- app_assoc. unfold with_rows. change (len [row]) with 1. cbn [map].
  change (m_Rows (m <| m_NumberOfRows := ?x |>)) with (m_Rows m). rewrite Er, <- keep_row.
  case_decide; [done|]. rewrite <- Er. by destruct m.
Qed.

Lemma message_pos pre typ body post :
  pre ++ encode_message typ body ++ post = (pre ++ [typ]) ++ be32 (len body + 4) ++ body ++ post.
Proof. unfold encode_message. by rewrite <- !app_assoc. Qed.

(** The header of the message at the offset. *)
Lemma header_read s pre typ body post :
  vis (s_data s) = pre ++ encode_message typ body ++ post -> len body + 4 < 2 ^ 32 ->
  at_ (vis (s_data s)) (len pre) = Ret typ /\ read32 (to_pos s pre) (len pre + 1) = Ret (len body + 4) /\
  available (to_pos s pre) = len body + 5 + len post.
Proof.
  intros E Hl. split; [by rewrite E, at_pre0|]. split.
  - assert (len pre + 1 = len (pre ++ [typ])) as -> by (by rewrite len_app).
    eapply (read32_pos (to_pos s pre)); [by rewrite <- message_pos|len_lia].
  - unfold available. cbn. rewrite E, !len_app, len_message. lia.
Qed.

Lemma skip_pos n s pre b : len b = n -> skip n (to_pos s pre) = to_pos s (pre ++ b).
Proof. intros <-. unfold skip, to_pos. cbn. by rewrite len_app. Qed.

Lemma data_row_turn pgsql fields row before m s pre post :
  m_FieldsFormat m = map f_format fields -> m_Rows m = take (Z.to_nat (maxStoreRows pgsql)) before ->
  vis (s_data s) = pre ++ encode_row row ++ post -> s_parseState s = PgsqlGetDataState ->
  row_ok fields row -> len fields < 2 ^ 16 ->
  parser_step pgsql (to_pos s pre, m) =
    go_on (to_pos s (pre ++ encode_row row)) (with_rows pgsql fields before [row] m).
Proof.
  intros Ef Er E Hs Hok Hn. unfold encode_row in E. set (body := be16 _ ++ _) in E.
  assert (len body + 5 < 2 ^ 31) as Hb by (destruct Hok as [_ H]; unfold encode_row in H; by rewrite len_message in H).
  destruct (header_read s pre _ _ _ E) as (Ht & Hr & Ha); [lia|]. unfold parser_step.
  pose proof (len_nonneg body). pose proof (len_nonneg post). pose proof Ha as Ha'. unfold available in Ha'.
  rewrite decide_True by lia. change (s_parseState (to_pos s pre)) with (s_parseState s). rewrite Hs.
  unfold get_data_state. change (s_parseOffset (to_pos s pre)) with (len pre).
  change (s_data (to_pos s pre)) with (s_data s).
  rewrite Ha, decide_False, Ht by lia. cbn [obind]. rewrite Hr. cbn [obind]. rewrite decide_True by lia.
  change (Byte.eqb "D" "D") with true. cbv iota.
  rewrite (skip_pos 5 s pre ("D"%byte :: be32 (len body + 4))) by done.
  rewrite (row_encoded pgsql fields row before m s _ post); try done.
  - cbn [obind]. unfold encode_row, encode_message. fold body. by rewrite <- app_assoc, <- app_comm_cons.
  - rewrite E. unfold encode_message. by rewrite <- !app_assoc, <- !app_comm_cons, <- app_assoc.
Qed.

Lemma data_rows_turns pgsql fields rows before m s pre post :
  m_FieldsFormat m = map f_format fields -> m_Rows m = take (Z.to_nat (maxStoreRows pgsql)) before ->
  vis (s_data s) = pre ++ concat (map encode_row rows) ++ post -> s_parseState s = PgsqlGetDataState ->
  Forall (row_ok fields) rows -> len fields < 2 ^ 16 ->
  iter (parser_step pgsql) (length rows) (to_pos s pre, m) =
    Some (to_pos s (pre ++ concat (map encode_row rows)), with_rows pgsql fields before rows m).
Proof.
  intros Ef Er E Hs Hok Hn. revert before m pre Ef Er E.
  induction rows as [|row rows IH]; intros before m pre Ef Er E.
  - cbn. unfold with_rows. cbn [map]. rewrite !app_nil_r, <- Er. change (len []) with 0. rewrite Z.add_0_r. by destruct m.
  - apply Forall_cons_1 in Hok as [Hr Hok]. cbn [map concat] in E. rewrite <- app_assoc in E.
    cbn [length iter]. rewrite (data_row_turn pgsql fields row before m s pre _ Ef Er E Hs Hr Hn). unfold go_on.
    set (row' := row_text (maxRowLength pgsql) fields row).
    rewrite (IH Hok (before ++ [row'])); [|done..|by rewrite E, <- app_assoc].
    cbn [map concat]. rewrite <- app_assoc. do 2 f_equal. unfold with_rows. cbn [map].
    rewrite <- app_assoc. change (len [row]) with 1. rewrite (len_cons row).
    change (m_NumberOfRows (?x <| m_NumberOfRows := ?y |> <| m_Rows := ?z |>)) with y.
    by rewrite Z.add_assoc.
Qed.

(** A typed message is not taken for a special command when bytes 4 to 7 are not the
    code of a startup message. *)
Lemma typed_not_special c n t :
  0 < u8 c -> (to_byte n = x00 -> forall p, t <> [x03; x00; x00] ++ p) ->
  isSpecialPgsqlCommand (c :: be32 n ++ t) = Ret None.
Proof.
  intros Hc Ht. destruct t as [|t0 [|t1 [|t2 t]]]; [done..|].
  unfold be32. cbn [app]. set (a1 := to_byte (Z.shiftr n 24)). set (a2 := to_byte _). set (a3 := to_byte (Z.shiftr n 8)).
  set (a4 := to_byte n) in *. set (data := c :: _).
  assert (8 <= len data) as Hl by (subst data; rewrite !len_cons; pose proof (len_nonneg t); lia).
  unfold isSpecialPgsqlCommand. rewrite decide_False by lia.
  assert (str_slice data 0 4 = Ret [c; a1; a2; a3]) as ->
    by (unfold str_slice; rewrite decide_True by lia; done).
  assert (str_slice data 4 8 = Ret [a4; t0; t1; t2]) as ->
    by (unfold str_slice; rewrite decide_True by lia; done).
  cbn [obind]. rewrite !Bytes_Ntohl_val. cbn [obind].
  pose proof (u8_bound a1). pose proof (u8_bound a2). pose proof (u8_bound a3). pose proof (u8_bound a4).
  pose proof (u8_bound t0). pose proof (u8_bound t1). pose proof (u8_bound t2).
  do 2 (rewrite decide_False by lia). case_decide as Hz; [exfalso|done].
  assert (a4 = x00 /\ t0 = x03 /\ t1 = x00 /\ t2 = x00) as (E & -> & -> & ->); [|by apply (Ht E t)].
  repeat split; apply u8_inj; change (u8 x00) with 0; change (u8 x03) with 3; lia.
Qed.

(** The turn at a typed message. *)
Lemma typed_turn pgsql s m pre typ body post :
  vis (s_data s) = pre ++ encode_message typ body ++ post -> len body + 4 < 2 ^ 32 ->
  s_parseState s = PgsqlStartState -> 0 < u8 typ -> Byte.eqb typ "N" = false -> Byte.eqb typ "S" = false ->
  (to_byte (len body + 4) = x00 -> forall p, body ++ post <> [x03; x00; x00] ++ p) ->
  parser_step pgsql (to_pos s pre, m) = typed_message typ (len body + 4) (to_pos s pre) m.
Proof.
  intros E Hl Hs Hc Hn1 Hn2 Hcode. destruct (header_read s pre _ _ _ E Hl) as (Ht & Hr & Ha).
  unfold parser_step. pose proof (len_nonneg body). pose proof (len_nonneg post).
  pose proof Ha as Ha'. unfold available in Ha'. rewrite decide_True by lia.
  change (s_parseState (to_pos s pre)) with (s_parseState s). rewrite Hs. unfold start_state.
  rewrite Ha, decide_False by lia. unfold sl_from. change (s_parseOffset (to_pos s pre)) with (len pre) in *.
  change (s_data (to_pos s pre)) with (s_data s) in *. pose proof (len_nonneg pre).
  rewrite decide_True by lia. cbn [obind vis]. rewrite E, drop_len_app.
  unfold encode_message at 1. rewrite <- app_comm_cons, <- app_assoc, typed_not_special by done. cbn [obind].
  rewrite <- E, Ht. cbn [obind]. rewrite Hn1, Hn2, andb_false_r, Hr. done.
Qed.

(** * Round trips *)

(** With the stream at the start of [bytes_read ++ rest], the parser returns message
    [m] and leaves a stream that holds [rest]. *)
Definition message_read (fuel : nat) (pgsql : Pgsql) (s : PgsqlStream) (m : PgsqlMessage) (rest : bytes) : Prop :=
  exists s' next, pgsqlMessageParser fuel pgsql s = Ret (s', (true, true)) /\ s_message s' = Some m /\
    PrepareForNewMessage s' = Ret next /\ vis (s_data next) = rest /\ s_parseOffset next = 0 /\
    s_parseState next = PgsqlStartState /\ s_message next = None.

Lemma message_read_intro fuel k pgsql s m s1 m1 s' m' pre rest :
  s_message s = Some m -> iter (parser_step pgsql) k (s, m) = Some (s1, m1) ->
  parser_step pgsql (s1, m1) = complete s' m' -> (k < fuel)%nat ->
  vis (s_data s') = pre ++ rest -> m_end m' = len pre ->
  message_read fuel pgsql s m' rest.
Proof.
  intros Em Hi Hs Hk Hd He. unfold message_read, pgsqlMessageParser. rewrite Em.
  assert (fuel = (k + S (fuel - k - 1))%nat) as -> by lia. rewrite (loop_iter _ _ _ _ _ Hi), loop_S, Hs. cbn [obind].
  eexists _, _. split; [reflexivity|]. split; [reflexivity|]. unfold PrepareForNewMessage, sl_from.
  change (s_message (s' <| s_message := Some m' |>)) with (Some m').
  change (s_data (s' <| s_message := Some m' |>)) with (s_data s'). cbv iota beta.
  rewrite He, Hd, decide_True by len_lia. cbn [obind]. split; [reflexivity|]. cbn. by rewrite drop_len_app.
Qed.

Lemma to_pos_start s : s_parseOffset s = 0 -> to_pos s [] = s.
Proof. intros E. unfold to_pos. destruct s. cbn in *. by rewrite E. Qed.

(** A query message is read back: its text, that it is a request to export, its
    bounds, and the bytes after it are left for the next message. *)
Theorem pgsql_query_roundtrip fuel pgsql s m query rest :
  s_message s = Some m -> s_parseOffset s = 0 -> s_parseState s = PgsqlStartState ->
  vis (s_data s) = encode_query query ++ rest -> x00 ∉ query -> len query + 5 < 2 ^ 32 -> (0 < fuel)%nat ->
  message_read fuel pgsql s
    (m <| m_start := 0 |> <| m_IsRequest := true |> <| m_end := len (encode_query query) |>
       <| m_Query := query |> <| m_toExport := true |>) rest.
Proof.
  intros Em Ho Hs E Hq Hl Hf. set (body := query ++ [x00]).
  assert (len body = len query + 1) as Hb by (subst body; by rewrite len_app).
  pose proof (len_nonneg query). pose proof (len_nonneg rest).
  assert (vis (s_data s) = [] ++ encode_message "Q" body ++ rest) as E' by exact E.
  assert (parser_step pgsql (to_pos s [], m) = typed_message "Q" (len body + 4) (to_pos s []) m) as Hstep.
  { eapply typed_turn; [exact E'|lia|done|cbn; lia|done|done|]. intros Hz p Hp.
    destruct query as [|q0 [|q1 query]]; [done|done|]. injection Hp as -> -> _. set_solver. }
  destruct (header_read s [] _ _ _ E') as (_ & _ & Ha); [lia|].
  unfold typed_message in Hstep. rewrite Ha in Hstep. change (Byte.eqb "Q" "Q") with true in Hstep. cbv zeta iota in Hstep.
  rewrite bool_decide_true in Hstep by lia.
  rewrite (skip_pos (1 + (len body + 4)) s [] (encode_message "Q" body)) in Hstep by (rewrite len_message; lia).
  destruct (slice_pos (s_data s) ("Q"%byte :: be32 (len body + 4)) query (x00 :: rest)) as (t & Et & Ev).
  { rewrite E'. unfold encode_message, body. cbn [app]. by rewrite <- !app_assoc, <- !app_comm_cons. }
  rewrite <- (to_pos_start s Ho) in Em |- *. eapply (message_read_intro fuel 0); [exact Em|reflexivity| |done| |].
  - rewrite Hstep. change (m_start (?x <| m_start := ?y |> <| m_IsRequest := _ |> <| m_end := _ |>)) with y.
    change (m_end (?x <| m_end := ?y |>)) with y.
    change (s_parseOffset (to_pos s ([] ++ encode_message "Q" body))) with (len (encode_query query)).
    change (s_data (to_pos s ?x)) with (s_data s). change (s_parseOffset (to_pos s [])) with 0.
    assert (len (encode_query query) - 1 = len ("Q"%byte :: be32 (len body + 4)) + len query) as ->
      by (unfold encode_query; rewrite len_message, len_cons, len_be32; fold body; lia).
    change (0 + 5) with (len ("Q"%byte :: be32 (len body + 4))). rewrite Et. cbn [obind]. rewrite Ev.
    reflexivity.
  - exact E.
  - reflexivity.
Qed.

Lemma description_turn pgsql s m pre fields post :
  vis (s_data s) = pre ++ encode_description fields ++ post -> s_parseState s = PgsqlStartState ->
  Forall field_ok fields -> len fields < 768 -> len (encode_description fields) < 2 ^ 32 ->
  parser_step pgsql (to_pos s pre, m) =
    go_on (to_pos (s <| s_parseState := PgsqlGetDataState |>) (pre ++ encode_description fields))
      (m <| m_start := len pre |> <| m_IsRequest := false |> <| m_IsOK := true |> <| m_toExport := true |>
         <| m_NumberOfFields := m_NumberOfFields m + len fields |>
         <| m_Fields := map f_name fields |> <| m_FieldsFormat := map f_format fields |>).
Proof.
  intros E Hs Hok Hf Hl. unfold encode_description in E, Hl. set (body := be16 _ ++ _) in E, Hl.
  rewrite len_message in Hl. pose proof (len_nonneg fields). pose proof (len_nonneg post).
  rewrite (typed_turn pgsql s m pre "T" body post E); [|lia|done|cbn; lia|done|done|].
  2: { intros _ p Hp. subst body. unfold be16 in Hp. cbn [app] in Hp. injection Hp as Hp _.
       apply (f_equal u8) in Hp. rewrite u8_to_byte, Z.shiftr_div_pow2 in Hp by lia.
       change (u8 x03) with 3 in Hp. Z.to_euclidean_division_equations. lia. }
  destruct (header_read s pre _ _ _ E) as (_ & _ & Ha); [lia|].
  unfold typed_message. rewrite Ha, bool_decide_true by lia.
  change (Byte.eqb "T" "Q") with false. change (Byte.eqb "T" "T") with true. cbv zeta iota.
  rewrite (skip_pos 5 s pre ("T"%byte :: be32 (len body + 4))) by done.
  rewrite (fields_encoded fields s _ _ post) by
    (done || lia || (rewrite E; unfold encode_message; by rewrite <- !app_assoc, <- !app_comm_cons, <- app_assoc)).
  cbn [obind]. unfold encode_description, encode_message. fold body. by rewrite <- app_assoc, <- app_comm_cons.
Qed.

Lemma completion_turn pgsql s m pre tag post :
  vis (s_data s) = pre ++ encode_completion tag ++ post -> s_parseState s = PgsqlGetDataState ->
  len tag + 5 < 2 ^ 32 ->
  parser_step pgsql (to_pos s pre, m) =
    complete (to_pos (s <| s_parseState := PgsqlStartState |>) (pre ++ encode_completion tag))
      (close (to_pos s (pre ++ encode_completion tag)) m).
Proof.
  intros E Hs Hl. unfold encode_completion in *. set (body := tag ++ [x00]) in *.
  assert (len body = len tag + 1) as Hb by (subst body; by rewrite len_app).
  destruct (header_read s pre _ _ _ E) as (Ht & Hr & Ha); [lia|].
  pose proof (len_nonneg tag). pose proof (len_nonneg post). pose proof (len_nonneg pre).
  unfold parser_step. pose proof Ha as Ha'. unfold available in Ha'. rewrite decide_True by lia.
  change (s_parseState (to_pos s pre)) with (s_parseState s). rewrite Hs. unfold get_data_state.
  change (s_parseOffset (to_pos s pre)) with (len pre). change (s_data (to_pos s pre)) with (s_data s).
  rewrite Ha, decide_False, Ht by lia. cbn [obind]. rewrite Hr. cbn [obind].
  change (Byte.eqb "C" "D") with false. change (Byte.eqb "C" "C") with true. cbv iota.
  unfold command_complete. rewrite Ha, decide_True by lia. cbv zeta.
  rewrite (skip_pos 1 s pre ["C"%byte]) by done. change (s_data (to_pos s ?x)) with (s_data s).
  change (s_parseOffset (to_pos s ?x)) with (len x). rewrite len_app. change (len ["C"%byte]) with 1.
  destruct (sl_slice_vis (s_data s) (len pre + 1 + 4) (len pre + 1 + (len body + 4) - 1)) as (t & -> & _);
    [lia|rewrite E, !len_app, len_message; lia|].
  cbn [obind]. rewrite (skip_pos (len body + 4) s _ (be32 (len body + 4) ++ body)) by (rewrite len_app, len_be32; lia).
  unfold encode_message. rewrite <- !app_assoc. reflexivity.
Qed.

(** The result set on the wire. *)
Definition encode_result (fields : list field) (rows : list (list (option bytes))) (tag : bytes) : bytes :=
  encode_description fields ++ concat (map encode_row rows) ++ encode_completion tag.

(** C14: a result set is read back: the column names, the number of columns and rows, and
    the rows, up to the configured number and length, with empty text for NULL
    and for binary columns. *)
Theorem pgsql_resultset_roundtrip fuel pgsql s ts fields rows tag rest :
  s_message s = Some (newMessage ts) -> s_parseOffset s = 0 -> s_parseState s = PgsqlStartState ->
  vis (s_data s) = encode_result fields rows tag ++ rest ->
  Forall field_ok fields -> len fields < 768 -> Forall (row_ok fields) rows ->
  len (encode_description fields) < 2 ^ 32 -> len tag + 5 < 2 ^ 32 -> len (encode_result fields rows tag) < 2 ^ 64 ->
  (length rows + 1 < fuel)%nat ->
  message_read fuel pgsql s
    (newMessage ts <| m_IsOK := true |> <| m_toExport := true |>
       <| m_NumberOfFields := len fields |> <| m_Fields := map f_name fields |>
       <| m_FieldsFormat := map f_format fields |> <| m_NumberOfRows := len rows |>
       <| m_Rows := take (Z.to_nat (maxStoreRows pgsql)) (map (row_text (maxRowLength pgsql) fields) rows) |>
       <| m_end := len (encode_result fields rows tag) |> <| m_Size := len (encode_result fields rows tag) |>) rest.
Proof.
  intros Em Ho Hs E Hok Hf Hrows Hd Htag Hall Hfuel.
  set (desc := encode_description fields) in *. set (data := concat (map encode_row rows)).
  set (s1 := s <| s_parseState := PgsqlGetDataState |>).
  assert (vis (s_data s) = (desc ++ data) ++ encode_completion tag ++ rest) as E2
    by (rewrite E; unfold encode_result; fold desc data; by rewrite <- !app_assoc).
  pose proof (description_turn pgsql s (newMessage ts) [] fields (data ++ encode_completion tag ++ rest)
    ltac:(rewrite E2, <- app_assoc; reflexivity) Hs Hok Hf Hd) as Hstep.
  set (m1 := newMessage ts <| m_start := _ |> <| m_IsRequest := _ |> <| m_IsOK := _ |> <| m_toExport := _ |>
    <| m_NumberOfFields := _ |> <| m_Fields := _ |> <| m_FieldsFormat := _ |>) in Hstep.
  assert (m_Rows m1 = take (Z.to_nat (maxStoreRows pgsql)) []) as Hm1 by (by rewrite take_nil).
  assert (len fields < 2 ^ 16) as Hf16 by lia.
  pose proof (data_rows_turns pgsql fields rows [] m1 s1 desc (encode_completion tag ++ rest)
    eq_refl Hm1 ltac:(rewrite app_assoc; exact E2) eq_refl Hrows Hf16) as Hiter. fold data in Hiter.
  set (m2 := with_rows pgsql fields [] rows m1) in Hiter.
  pose proof (completion_turn pgsql s1 m2 (desc ++ data) tag rest E2 eq_refl Htag) as Hend.
  assert ((desc ++ data) ++ encode_completion tag = encode_result fields rows tag) as Er
    by (unfold encode_result; fold desc data; by rewrite <- !app_assoc).
  rewrite Er in Hend.
  rewrite <- (to_pos_start s Ho) in Em |- *.
  epose proof (message_read_intro fuel (S (length rows)) pgsql (to_pos s []) (newMessage ts) _ _ _ _
    (encode_result fields rows tag) rest Em _ Hend ltac:(lia) E eq_refl) as Hr.
  Unshelve. 2: { cbn [iter]. rewrite Hstep. exact Hiter. }
  assert (close (to_pos s1 (encode_result fields rows tag)) m2 =
    newMessage ts <| m_IsOK := true |> <| m_toExport := true |>
       <| m_NumberOfFields := len fields |> <| m_Fields := map f_name fields |>
       <| m_FieldsFormat := map f_format fields |> <| m_NumberOfRows := len rows |>
       <| m_Rows := take (Z.to_nat (maxStoreRows pgsql)) (map (row_text (maxRowLength pgsql) fields) rows) |>
       <| m_end := len (encode_result fields rows tag) |> <| m_Size := len (encode_result fields rows tag) |>) as <-; [|exact Hr].
  unfold close. change (m_end (m2 <| m_end := ?x |>)) with x. change (m_start (m2 <| m_end := ?x |>)) with 0.
  change (s_parseOffset (to_pos s1 ?x)) with (len x). rewrite Z.sub_0_r.
  rewrite wrapU_small by (pose proof (len_nonneg (encode_result fields rows tag)); lia). reflexivity.
Qed.

(** * The startup message of length zero *)

(** C16: a connection whose first bytes are a startup message that announces length 0 (and
    protocol 3.0) makes the parser loop for ever: no fuel is enough. *)
Theorem pgsql_startup_hang {UC : Unicode} {W : Type} {PW : ProcWatcher W} {RT : Runtime} fuel pkt tcptuple dir private (st : Pgsql * W) post :
  valid_dir dir -> get2 (default nil2 private) dir = Ret None -> vis (pk_Payload pkt) = zero_startup ++ post ->
  Parse fuel pkt tcptuple dir private st = OutOfFuel.
Proof.
  intros Hdir Eo E. unfold Parse. rewrite Eo.
  assert (exists other, get2 (default nil2 private) (1 - dir) = Ret other) as [other ->]
    by (destruct Hdir as [-> | ->]; eexists; reflexivity).
  cbv zeta. cbn [too_large]. unfold parse_loop. set (s := expect_ssl other (received pkt tcptuple None)).
  assert (vis (s_data s) = zero_startup ++ post /\ s_parseOffset s = 0 /\ s_parseState s = PgsqlStartState /\
    s_message s = Some (newMessage (pk_Ts pkt))) as (Ed & Ho & Hs & Em).
  { subst s. unfold expect_ssl. destruct other as [o|]; [destruct (s_seenSSLRequest o)|]; by repeat split. }
  rewrite loop_S. unfold parse_step at 1.
  assert (8 <= len (vis (s_data s))) as Hl by (rewrite Ed, len_app; pose proof (len_nonneg post); change (len zero_startup) with 8; lia).
  rewrite decide_True by lia. cbv zeta. rewrite Em. unfold pgsqlMessageParser. rewrite Em.
  rewrite (loop_cycle (parser_step (fst st)) 1); [done|lia|]. cbn [iter].
  assert (parser_step (fst st) (s, newMessage (pk_Ts pkt)) = go_on (skip 0 s) (newMessage (pk_Ts pkt))) as ->.
  { unfold parser_step. rewrite Ho, decide_True, Hs by lia. unfold start_state, available. rewrite Ho, decide_False by lia.
    unfold sl_from. rewrite decide_True by lia. cbn [obind vis]. change (drop (Z.to_nat 0) ?x) with x.
    assert (isSpecialPgsqlCommand (vis (s_data s)) = Ret (Some StartupMessage)) as ->.
    { rewrite Ed. unfold isSpecialPgsqlCommand. rewrite Ed in Hl. rewrite decide_False by lia.
      unfold str_slice. by rewrite !decide_True by lia. }
    cbn [obind]. unfold special_command. rewrite Ho. change 0 with (len (@nil byte)) at 1.
    rewrite (read32_pos s [] 0 (drop 4 zero_startup ++ post)) by (lia || (rewrite Ed; done)). cbn [obind].
    rewrite decide_True by (unfold available; lia). done. }
  unfold go_on. do 2 f_equal. unfold skip. rewrite Ho. destruct s. cbn in *. by rewrite Ho.
Qed.

(** * Examples *)

#[local] Existing Instance Demo.unicode.
#[local] Existing Instance Demo.runtime.
#[local] Existing Instance Demo.watcher.

Definition demo_stream (data : bytes) : PgsqlStream :=
  {| s_tcptuple := Demo.tuple; s_data := mkSlice data []; s_parseOffset := 0; s_parseState := PgsqlStartState;
     s_seenSSLRequest := false; s_expectSSLResponse := false; s_message := Some (newMessage 7) |}.

Lemma pgsql_query_roundtrip_witness :
  message_read 1 demo_pgsql (demo_stream (encode_query (bs "select 1") ++ [x01]))
    (newMessage 7 <| m_start := 0 |> <| m_IsRequest := true |> <| m_end := 14 |>
       <| m_Query := bs "select 1" |> <| m_toExport := true |>) [x01].
Proof.
  apply (pgsql_query_roundtrip 1 demo_pgsql (demo_stream (encode_query (bs "select 1") ++ [x01])) (newMessage 7)
    (bs "select 1") [x01]); try reflexivity; [|lia].
  apply (bool_decide_unpack _). by vm_compute.
Defined.

Definition demo_fields : list field :=
  [{| f_name := bs "a"; f_meta := replicate 16 x01; f_format := 0 |};
   {| f_name := bs "b"; f_meta := replicate 16 x02; f_format := 1 |}].
Definition demo_rows : list (list (option bytes)) := [[Some (bs "x"); Some (bs "y")]; [None; Some (bs "z")]].
Definition demo_result : bytes := encode_result demo_fields demo_rows (bs "SELECT 2").

Lemma pgsql_resultset_roundtrip_witness :
  message_read 4 demo_pgsql (demo_stream (demo_result ++ [x02]))
    (newMessage 7 <| m_IsOK := true |> <| m_toExport := true |> <| m_NumberOfFields := 2 |>
       <| m_Fields := [bs "a"; bs "b"] |> <| m_FieldsFormat := [0; 1] |> <| m_NumberOfRows := 2 |>
       <| m_Rows := [[bs "x"; []]] |> <| m_end := len demo_result |> <| m_Size := len demo_result |>) [x02].
Proof.
  apply (pgsql_resultset_roundtrip 4 demo_pgsql (demo_stream (demo_result ++ [x02])) 7 demo_fields demo_rows
    (bs "SELECT 2") [x02]); try reflexivity; [| |cbn; lia].
  - repeat constructor; cbn; try lia; apply (bool_decide_unpack _); by vm_compute.
  - repeat constructor.
Defined.

Lemma pgsql_startup_hang_witness :
  Parse 1000 (Demo.packet 0 (zero_startup ++ bs "user")) Demo.tuple 1 None (demo_pgsql, tt) = OutOfFuel.
Proof.
  apply (pgsql_startup_hang 1000 (Demo.packet 0 (zero_startup ++ bs "user")) Demo.tuple 1 None (demo_pgsql, tt) (bs "user"));
    [by right|reflexivity|reflexivity].
Defined.
