(* ===== verification/PgsqlTransactions.v ===== *)
(** PostgreSQL transactions: the map of queues that the plugin keeps refines one global
    list of waiting queries, for any interleaving of messages of any connections
    and of timers. *)
From S2P Require Import Pgsql.
From stdpp Require Import list.
#[local] Open Scope Z_scope.

Section Transactions.
Context {UC : Unicode} {W : Type} {PW : ProcWatcher W}.

(** * Specification *)

(** The queries that wait for a response, over all connections and in order of
    arrival; how many there have been; the completed pairs of a query and its
    response, in order of completion. *)
Record spec := {
  waiting : list PgsqlTransaction;
  seen : nat;
  completed : list (PgsqlTransaction * PgsqlMessage);
  watcher : W
}.

Definition key_of (t : PgsqlTransaction) : bytes := TcpHashable (t_tuple t).

(** The first query of a connection, and the others. *)
Fixpoint take_first (key : bytes) (l : list PgsqlTransaction) : option (PgsqlTransaction * list PgsqlTransaction) :=
  match l with
  | [] => None
  | t :: l =>
      if decide (key_of t = key) then Some (t, l)
      else '(u, l') ← take_first key l; Some (u, t :: l')
  end.

(** The transactions of a list of queries, numbered from [n]. *)
Fixpoint calls (n : nat) (m : PgsqlMessage) (tuple : TcpTuple) (c : CmdlineTuple) (queries : list bytes)
    : list PgsqlTransaction :=
  match queries with
  | [] => []
  | q :: queries => newTransaction n m tuple c q :: calls (S n) m tuple c queries
  end.

(** A message of a connection, in a direction, or the timer of the transaction with a
    number and a connection. *)
Inductive action :=
| AMessage (m : PgsqlMessage) (tuple : TcpTuple) (dir : Z)
| ATimer (t : PgsqlTransaction).

Definition spec_message (s : spec) (m : PgsqlMessage) (tuple : TcpTuple) (dir : Z) : spec :=
  let '(c, w) := FindProcessesTuple (IpPort tuple) (watcher s) in
  let m := m <| m_TcpTuple := Some tuple |> <| m_Direction := dir |> <| m_CmdlineTuple := Some c |> in
  if m_IsRequest m then
    let new := calls (seen s) m tuple c (pgsqlQueryParser (m_Query m)) in
    {| waiting := waiting s ++ new; seen := (seen s + length new)%nat; completed := completed s; watcher := w |}
  else
    match take_first (TcpHashable tuple) (waiting s) with
    | None => {| waiting := waiting s; seen := seen s; completed := completed s; watcher := w |}
    | Some (t, l) => {| waiting := l; seen := seen s; completed := completed s ++ [(t, m)]; watcher := w |}
    end.

Definition spec_step (s : spec) (a : action) : spec :=
  match a with
  | AMessage m tuple dir => spec_message s m tuple dir
  | ATimer t =>
      {| waiting := filter (fun u => ~ (t_ptr u = t_ptr t /\ key_of u = key_of t)) (waiting s);
         seen := seen s; completed := completed s; watcher := watcher s |}
  end.

(** The event of a completed pair. *)
Definition event (send_request send_response : bool) (x : PgsqlTransaction * PgsqlMessage) : MapStr :=
  let '(t, m) := x in
  list_to_map (
    [(bs "dst", MEndpoint (t_Dst t)); (bs "src", MEndpoint (t_Src t)); (bs "timestamp", MTime (t_ts t));
     (bs "pgsql", MMap (response_fields m)); (bs "bytes_out", MInt (m_Size m));
     (bs "method", MStr (t_Method t)); (bs "query", MStr (t_Query t))] ++
    (if send_response then [(bs "response", MStr (DumpInCSVFormat (m_Fields m) (m_Rows m)))] else []) ++
    (if send_request then [(bs "request", MStr (t_Request_raw t))] else []) ++
    [(bs "responsetime", MInt (millis32 (time_Sub (m_Ts m) (t_ts t))));
     (bs "status", MStr (if m_IsError m then ERROR_STATUS else OK_STATUS));
     (bs "type", MStr (bs "pgsql"))]).

(** * Implementation *)

Definition exec (st : Pgsql * W) (a : action) : outcome (Pgsql * W) :=
  match a with
  | AMessage m tuple dir =>
      let '(r, st) := handlePgsql st m tuple dir in let! _ := r in Ret st
  | ATimer t => let! pgsql := expireTransaction (fst st) t in Ret (pgsql, snd st)
  end.

Fixpoint execs (st : Pgsql * W) (acts : list action) : outcome (Pgsql * W) :=
  match acts with
  | [] => Ret st
  | a :: acts => let! st := exec st a in execs st acts
  end.

(** The plugin's queues are the global list, sorted by connection. *)
Definition refines (st : Pgsql * W) (s : spec) : Prop :=
  (forall key, pending (fst st) key = filter (fun t => key_of t = key) (waiting s)) /\
  allocated (fst st) = seen s /\ snd st = watcher s /\
  results (fst st) = Some (map (event (Send_request (fst st)) (Send_response (fst st))) (completed s)).

(** The waiting queries have different numbers, and no response yet. *)
Definition spec_ok (s : spec) : Prop :=
  NoDup (t_ptr <$> waiting s) /\ Forall (fun t => (t_ptr t < seen s)%nat /\ t_Pgsql t = Some ∅) (waiting s).

(** * Lists *)

Lemma sublist_kept {A} (f : A -> nat) (P : A -> Prop) k l :
  sublist k l -> NoDup (f <$> l) -> Forall P l -> NoDup (f <$> k) /\ Forall P k.
Proof.
  intros Hs Hd Hl. split; [eapply sublist_NoDup; [exact Hd|by apply fmap_sublist]|].
  clear Hd. induction Hs; decompose_Forall_hyps; auto.
Qed.

Lemma take_first_spec key l :
  match take_first key l with
  | None => filter (fun t => key_of t = key) l = []
  | Some (t, l') =>
      exists l1 l2, l = l1 ++ t :: l2 /\ l' = l1 ++ l2 /\ key_of t = key /\
        filter (fun t => key_of t = key) l1 = []
  end.
Proof.
  induction l as [|t l IH]; [done|]. cbn [take_first]. case_decide as E.
  - by exists [], l.
  - destruct (take_first key l) as [[u l']|]; cbn [mbind option_bind].
    + destruct IH as (l1 & l2 & -> & -> & Hu & Hf). exists (t :: l1), l2. repeat split; try done.
      by rewrite filter_cons_False.
    + by rewrite filter_cons_False.
Qed.

Lemma calls_key n m tuple c queries key :
  filter (fun t => key_of t = key) (calls n m tuple c queries) =
  if decide (TcpHashable tuple = key) then calls n m tuple c queries else [].
Proof.
  revert n. induction queries as [|q queries IH]; intros n; cbn [calls]; [by case_decide|].
  assert (key_of (newTransaction n m tuple c q) = TcpHashable tuple) as E
    by (unfold newTransaction; by destruct (endpoints _ _ _)).
  case_decide; [rewrite filter_cons_True by congruence|rewrite filter_cons_False by congruence];
    by rewrite IH.
Qed.

Lemma calls_ok n m tuple c queries :
  Forall (fun t => (n <= t_ptr t < n + length queries)%nat /\ t_Pgsql t = Some ∅) (calls n m tuple c queries) /\
  NoDup (t_ptr <$> calls n m tuple c queries) /\ length (calls n m tuple c queries) = length queries.
Proof.
  revert n. induction queries as [|q queries IH]; intros n; cbn [calls]; [split; [done|split; [constructor|done]]|].
  destruct (IH (S n)) as (H1 & H2 & H3).
  assert (t_ptr (newTransaction n m tuple c q) = n /\ t_Pgsql (newTransaction n m tuple c q) = Some ∅) as [E1 E2]
    by (unfold newTransaction; by destruct (endpoints _ _ _)).
  split; [|split].
  - constructor; [rewrite E1, E2; cbn; split; [lia|done]|].
    eapply Forall_impl; [exact H1|]. cbn. intros t [? ?]. split; [lia|done].
  - cbn. constructor; [|done]. rewrite E1. intros (t & Et & Hin)%list_elem_of_fmap.
    rewrite list.Forall_forall in H1. apply H1 in Hin. lia.
  - cbn. by rewrite H3.
Qed.

Lemma index_of_filter ptr l :
  NoDup (t_ptr <$> l) ->
  match index_of ptr l with
  | Some i => (exists t, l !! i = Some t /\ t_ptr t = ptr) /\ take i l ++ drop (S i) l = filter (fun t => t_ptr t <> ptr) l
  | None => filter (fun t => t_ptr t <> ptr) l = l
  end.
Proof.
  induction l as [|t l IH]; [done|]. cbn [index_of fmap list_fmap]. intros [Hn Hd]%list.NoDup_cons. specialize (IH Hd).
  case_decide as E.
  - split; [by exists t|]. rewrite filter_cons_False by (intros H; by apply H). cbn [take drop app]. symmetry.
    apply filter_all. rewrite list.Forall_forall. intros u Hu Ep. apply Hn, list_elem_of_fmap. exists u. split; [congruence|exact Hu].
  - destruct (index_of ptr l) as [i|]; cbn [fmap option_fmap option_map].
    + destruct IH as [? IH]. split; [done|]. rewrite filter_cons_True by done. cbn [take drop app]. by f_equal.
    + rewrite filter_cons_True by done. by f_equal.
Qed.

(** * The simulation *)

Lemma pending_insert pgsql k l key :
  pending (pgsql <| transactionsMap := <[k := l]> (transactionsMap pgsql) |>) key =
  if decide (k = key) then l else pending pgsql key.
Proof.
  unfold pending. cbn [transactionsMap set_field]. case_decide as E;
    [subst; by rewrite lookup_insert_eq|by rewrite lookup_insert_ne].
Qed.

Lemma pending_delete pgsql k key :
  pending (pgsql <| transactionsMap := delete k (transactionsMap pgsql) |>) key =
  if decide (k = key) then [] else pending pgsql key.
Proof.
  unfold pending. cbn [transactionsMap set_field]. case_decide as E;
    [subst; by rewrite lookup_delete_eq|by rewrite lookup_delete_ne].
Qed.

(** Two plugins that differ in the queues only. *)
Definition same_rest (p q : Pgsql) : Prop :=
  allocated p = allocated q /\ results p = results q /\
  Send_request p = Send_request q /\ Send_response p = Send_response q.

Lemma add_queries_spec m tuple c queries pgsql :
  let pgsql' := foldl (add_query m tuple c) pgsql queries in
  (forall key, pending pgsql' key =
     if decide (TcpHashable tuple = key) then pending pgsql key ++ calls (allocated pgsql) m tuple c queries
     else pending pgsql key) /\
  allocated pgsql' = (allocated pgsql + length queries)%nat /\ results pgsql' = results pgsql /\
  Send_request pgsql' = Send_request pgsql /\ Send_response pgsql' = Send_response pgsql.
Proof.
  revert pgsql. induction queries as [|q queries IH]; intros pgsql; cbn [foldl calls].
  - split; [intros key; case_decide; by rewrite ?app_nil_r|]. by rewrite Nat.add_0_r.
  - destruct (IH (add_query m tuple c pgsql q)) as (H1 & H2 & H3). split; [|split; [rewrite H2; cbn; lia|exact H3]].
    intros key. rewrite H1. unfold add_query.
    change (pending (pgsql <| allocated := ?n |> <| transactionsMap := ?x |>) key)
      with (pending (pgsql <| transactionsMap := x |>) key).
    rewrite pending_insert. case_decide as E; [|done]. subst. cbn. by rewrite <- app_assoc.
Qed.

Lemma request_spec pgsql m tuple c :
  let pgsql' := receivedPgsqlRequest pgsql m tuple c in
  let new := calls (allocated pgsql) m tuple c (pgsqlQueryParser (m_Query m)) in
  (forall key, pending pgsql' key =
     if decide (TcpHashable tuple = key) then pending pgsql key ++ new else pending pgsql key) /\
  allocated pgsql' = (allocated pgsql + length new)%nat /\ results pgsql' = results pgsql /\
  Send_request pgsql' = Send_request pgsql /\ Send_response pgsql' = Send_response pgsql.
Proof.
  cbv zeta. rewrite (proj2 (proj2 (calls_ok _ _ _ _ _))). unfold receivedPgsqlRequest.
  destruct (transactionsMap pgsql !! TcpHashable tuple) as [l|] eqn:E; [apply add_queries_spec|].
  set (pgsql1 := pgsql <| transactionsMap := _ |>).
  destruct (add_queries_spec m tuple c (pgsqlQueryParser (m_Query m)) pgsql1) as (H1 & H2).
  split; [|exact H2]. intros key. rewrite H1.
  assert (pending pgsql1 key = pending pgsql key) as ->; [|done].
  unfold pgsql1. rewrite pending_insert. case_decide as Ek; [|done]. subst. unfold pending. by rewrite E.
Qed.

(** Removal of one transaction from the queue of its connection. *)
Lemma remove_spec pgsql tuple i t :
  pending pgsql (TcpHashable tuple) !! i = Some t -> key_of t = TcpHashable tuple ->
  exists pgsql', removeTransaction pgsql tuple i = Ret (t, pgsql') /\ same_rest pgsql' pgsql /\
    forall key, pending pgsql' key =
      if decide (TcpHashable tuple = key)
      then take i (pending pgsql key) ++ drop (S i) (pending pgsql key) else pending pgsql key.
Proof.
  intros Ei Ek. unfold removeTransaction. rewrite Ei. eexists. split; [reflexivity|].
  destruct (take i _ ++ drop (S i) _) as [|u l] eqn:El.
  - split; [done|]. intros key. change (TcpHashable (t_tuple t)) with (key_of t). rewrite Ek, pending_delete.
    case_decide; [|done]. by subst.
  - split; [done|]. intros key. rewrite pending_insert. case_decide; [|done]. by subst.
Qed.

Lemma publish_spec pgsql t m l :
  t_Pgsql t = Some ∅ -> results pgsql = Some l ->
  publishTransaction pgsql (answered t m ∅) =
    (Ret tt, pgsql <| results := Some (l ++ [event (Send_request pgsql) (Send_response pgsql) (t, m)]) |>).
Proof.
  intros Et Er. unfold publishTransaction. rewrite Er.
  assert (default ∅ (t_Pgsql (answered t m ∅)) = response_fields m) as ->
    by (unfold answered, Update; cbn; by rewrite (right_id_L ∅ (∪))).
  assert (response_fields m !! bs "iserror" = Some (MBool (m_IsError m))) as ->
    by (unfold response_fields; apply lookup_insert_eq).
  unfold event. by destruct (Send_request pgsql), (Send_response pgsql).
Qed.
Lemma spec_message_ok s m tuple dir : spec_ok s -> spec_ok (spec_message s m tuple dir).
Proof.
  intros [Hd Ha]. unfold spec_message. destruct (FindProcessesTuple _ _) as [c w]. cbv zeta.
  set (m' := m <| m_TcpTuple := _ |> <| m_Direction := _ |> <| m_CmdlineTuple := _ |>).
  destruct (m_IsRequest m').
  - destruct (calls_ok (seen s) m' tuple c (pgsqlQueryParser (m_Query m'))) as (H1 & H2 & H3).
    set (new := calls _ _ _ _ _) in *. split; cbn [waiting seen].
    + rewrite fmap_app. apply NoDup_app. split; [done|]. split; [|done].
      intros ptr (t & -> & Ht)%list_elem_of_fmap (u & Eu & Hu)%list_elem_of_fmap.
      rewrite list.Forall_forall in Ha, H1. apply Ha in Ht. apply H1 in Hu. lia.
    + apply Forall_app. rewrite H3. split; eapply Forall_impl; [exact Ha| |exact H1|]; intros t [? ?]; (split; [lia|done]).
  - pose proof (take_first_spec (TcpHashable tuple) (waiting s)) as H.
    destruct (take_first _ _) as [[t l]|]; [|by split]. destruct H as (l1 & l2 & E & -> & _ & _).
    unfold spec_ok. cbn [waiting seen]. rewrite E in Hd, Ha.
    assert (sublist (l1 ++ l2) (l1 ++ t :: l2)) as Hs by (apply sublist_app; [done|by constructor]).
    by apply (sublist_kept t_ptr _ _ _ Hs).
Qed.

Lemma spec_step_ok s a : spec_ok s -> spec_ok (spec_step s a).
Proof.
  destruct a as [m tuple dir|t]; [apply spec_message_ok|]. intros [Hd Ha].
  by apply (sublist_kept t_ptr _ _ _ (sublist_filter _ _)).
Qed.

Lemma message_refines st s m tuple dir :
  refines st s -> spec_ok s ->
  exists st', exec st (AMessage m tuple dir) = Ret st' /\ refines st' (spec_message s m tuple dir) /\
    Send_request (fst st') = Send_request (fst st) /\ Send_response (fst st') = Send_response (fst st).
Proof.
  destruct st as [p w]. intros (Hp & Hn & Hw & Hr) [Hd Ha]. cbn [fst snd] in *. cbn [exec].
  unfold handlePgsql, spec_message. rewrite Hw. destruct (FindProcessesTuple _ _) as [c w']. cbv zeta.
  set (m' := m <| m_TcpTuple := _ |> <| m_Direction := _ |> <| m_CmdlineTuple := _ |>).
  destruct (m_IsRequest m').
  - eexists. split; [reflexivity|]. cbn [fst]. destruct (request_spec p m' tuple c) as (H1 & H2 & H3 & H4 & H5).
    rewrite Hn in H1, H2. split; [|done]. repeat split; cbn [fst snd waiting seen completed watcher]; [|done|].
    + intros key. rewrite H1, filter_app, calls_key, Hp. case_decide; [done|]. by rewrite app_nil_r.
    + by rewrite H3, H4, H5.
  - unfold receivedPgsqlResponse. pose proof (take_first_spec (TcpHashable tuple) (waiting s)) as H.
    destruct (take_first _ _) as [[t l]|].
    + destruct H as (l1 & l2 & E & -> & Ek & El1).
      assert (pending p (TcpHashable tuple) = t :: filter (fun t => key_of t = TcpHashable tuple) l2) as Ep
        by (rewrite Hp, E, filter_app, El1, filter_cons_True by done; done).
      destruct (remove_spec p tuple 0 t) as (p' & -> & (R1 & R2 & R3 & R4) & Hp'); [by rewrite Ep|done|].
      rewrite Ep. assert (t_Pgsql t = Some ∅) as Et.
      { rewrite list.Forall_forall in Ha. apply Ha. rewrite E. set_solver. }
      rewrite Et, (publish_spec p' t m' (map (event (Send_request p) (Send_response p)) (completed s))) by congruence.
      cbn [obind]. eexists. split; [reflexivity|]. cbn [fst]. split; [|done]. repeat split; cbn [fst snd waiting seen completed watcher].
      * intros key. change (pending (p' <| results := ?x |>) key) with (pending p' key).
        rewrite Hp', Hp, E, !filter_app. case_decide as E'.
        -- subst key. by rewrite El1, filter_cons_True by done.
        -- rewrite filter_cons_False by congruence. done.
      * by rewrite <- Hn.
      * cbn. by rewrite map_app, R3, R4.
    + rewrite Hp, H. cbn [obind]. eexists. split; [reflexivity|]. by split.
Qed.

Lemma timer_refines st s t :
  refines st s -> spec_ok s ->
  exists st', exec st (ATimer t) = Ret st' /\ refines st' (spec_step s (ATimer t)) /\
    Send_request (fst st') = Send_request (fst st) /\ Send_response (fst st') = Send_response (fst st).
Proof.
  destruct st as [p w]. intros (Hp & Hn & Hw & Hr) [Hd Ha]. cbn [fst snd] in *. cbn [exec fst snd].
  set (key := key_of t).
  assert (exists p', (match index_of (t_ptr t) (pending p key) with
      | Some i => let! '(_, q) := removeTransaction p (t_tuple t) i in Ret q
      | None => Ret p end) = Ret p' /\ same_rest p' p /\
      forall k, pending p' k = filter (fun u => ~ (t_ptr u = t_ptr t /\ key_of u = key)) (pending p k)) as (p' & E1 & Hs & Hp').
  { assert (NoDup (t_ptr <$> pending p key)) as Hnd
      by (rewrite Hp; eapply sublist_NoDup; [exact Hd|apply fmap_sublist, sublist_filter]).
    assert (forall k, Forall (fun u => key_of u = k) (pending p k)) as Hkeys
      by (intros k; rewrite Hp; apply list.Forall_forall; intros u [? _]%list_elem_of_filter; done).
    assert (forall k, k <> key -> filter (fun u => ~ (t_ptr u = t_ptr t /\ key_of u = key)) (pending p k) = pending p k) as Hother.
    { intros k Hk. apply filter_all. eapply Forall_impl; [exact (Hkeys k)|]. intros u Hu [_ Hc]. congruence. }
    assert (filter (fun u => ~ (t_ptr u = t_ptr t /\ key_of u = key)) (pending p key) =
      filter (fun u => t_ptr u <> t_ptr t) (pending p key)) as Hkey.
    { pose proof (Hkeys key) as H. induction (pending p key) as [|u l IH]; [done|].
      apply Forall_cons_1 in H as [Hu Hl]. apply NoDup_cons in Hnd as [_ Hnd].
      rewrite !filter_cons, (IH Hnd Hl). repeat case_decide; tauto. }
    pose proof (index_of_filter (t_ptr t) (pending p key) Hnd) as Hi.
    destruct (index_of _ _) as [i|].
    - destruct Hi as ((u & Eu & _) & Hi). destruct (remove_spec p (t_tuple t) i u) as (p' & -> & Hs & Hp'); [done| |].
      { pose proof (Hkeys key) as H. rewrite list.Forall_forall in H. apply H. by eapply list_elem_of_lookup_2. }
      exists p'. split; [done|]. split; [done|]. intros k. rewrite Hp'. change (TcpHashable (t_tuple t)) with key.
      case_decide as Ek; [subst k; by rewrite Hkey|by rewrite Hother].
    - exists p. split; [done|]. split; [done|]. intros k. destruct (decide (k = key)) as [->|]; [by rewrite Hkey|by rewrite Hother]. }
  unfold expireTransaction. change (TcpHashable (t_tuple t)) with key. rewrite E1. cbn [obind].
  eexists. split; [reflexivity|]. cbn [fst]. set (q := match pending p' key with [] => _ | _ => p' end).
  assert (same_rest q p /\ forall k, pending q k = pending p' k) as [(R1 & R2 & R3 & R4) Hq].
  { subst q. destruct (pending p' key) eqn:E; [|done]. split; [exact Hs|]. intros k. rewrite pending_delete.
    case_decide; [by subst|done]. }
  split; [|done]. repeat split; cbn [fst snd spec_step waiting seen completed watcher]; [|congruence|done|congruence].
  intros k. rewrite Hq, Hp', Hp, !list_filter_filter. apply list_filter_iff. naive_solver.
Qed.

(** C13: started from empty queues, the plugin does not panic on any sequence of messages and
    timers, and behaves as one list of waiting queries: each query of a request
    is appended, a response takes the oldest query of its connection and makes
    one event of the pair, a timer removes its own query only. *)
Theorem pgsql_fifo_refinement acts st s :
  refines st s -> spec_ok s ->
  exists st', execs st acts = Ret st' /\ refines st' (foldl spec_step s acts) /\ spec_ok (foldl spec_step s acts).
Proof.
  revert st s. induction acts as [|a acts IH]; intros st s Hr Hok; cbn [execs foldl]; [by exists st|].
  assert (exists st', exec st a = Ret st' /\ refines st' (spec_step s a)) as (st' & -> & Hr').
  { destruct a as [m tuple dir|t];
      [destruct (message_refines st s m tuple dir Hr Hok) as (st' & ? & ? & _)|
       destruct (timer_refines st s t Hr Hok) as (st' & ? & ? & _)]; by exists st'. }
  cbn [obind]. apply IH; [done|by apply spec_step_ok].
Qed.

(** A request that holds no query (such as [;]) on a connection without pending queries
    leaves an empty list in the map: no transaction and no timer is created, so
    nothing but a later query on the same connection removes it; responses do not. *)
Theorem pgsql_empty_request_leak pgsql m tuple c :
  pgsqlQueryParser (m_Query m) = [] -> transactionsMap pgsql !! TcpHashable tuple = None ->
  let pgsql' := receivedPgsqlRequest pgsql m tuple c in
  transactionsMap pgsql' = <[TcpHashable tuple := []]> (transactionsMap pgsql) /\ allocated pgsql' = allocated pgsql /\
  forall resp, receivedPgsqlResponse pgsql' resp tuple = (Ret tt, pgsql').
Proof.
  intros Hq Hn. unfold receivedPgsqlRequest. rewrite Hq, Hn. cbn [foldl]. split; [done|]. split; [done|].
  intros resp. unfold receivedPgsqlResponse, pending. cbn [transactionsMap set_field]. by rewrite lookup_insert_eq.
Qed.

End Transactions.

(** * Examples *)

#[local] Existing Instance Demo.unicode.
#[local] Existing Instance Demo.watcher.

Definition demo_request : PgsqlMessage :=
  newMessage 1000000 <| m_IsRequest := true |> <| m_Query := bs "select 1; select 2" |>.
Definition demo_answer : PgsqlMessage := newMessage 3000000 <| m_IsOK := true |> <| m_NumberOfRows := 1 |>.
Definition demo_spec : spec := {| waiting := []; seen := 0; completed := []; watcher := tt |}.

(** Two queries, one response, the timer of the first query (which is gone) and another
    response. *)
Definition demo_acts : list action :=
  [AMessage demo_request Demo.tuple 1; AMessage demo_answer Demo.tuple 0;
   ATimer (newTransaction 0 demo_request Demo.tuple {| ct_Src := []; ct_Dst := [] |} (bs "select 1"));
   AMessage demo_answer Demo.tuple 0].

Lemma demo_refines : refines (demo_pgsql, tt) demo_spec.
Proof. by repeat split. Qed.

Lemma demo_spec_ok : spec_ok demo_spec.
Proof. split; constructor. Qed.

Example demo_completed :
  (fun x => (t_Query (fst x), m_NumberOfRows (snd x))) <$> completed (foldl spec_step demo_spec demo_acts) =
    [(bs "select 1", 1); (bs "select 2", 1)].
Proof. by vm_compute. Qed.

Lemma pgsql_fifo_refinement_witness :
  exists st', execs (demo_pgsql, tt) demo_acts = Ret st' /\ refines st' (foldl spec_step demo_spec demo_acts) /\
    spec_ok (foldl spec_step demo_spec demo_acts).
Proof. apply (pgsql_fifo_refinement demo_acts (demo_pgsql, tt) demo_spec demo_refines demo_spec_ok). Defined.

Lemma pgsql_empty_request_leak_witness :
  let pgsql' := receivedPgsqlRequest demo_pgsql (newMessage 0 <| m_Query := bs " ;" |>) Demo.tuple {| ct_Src := []; ct_Dst := [] |} in
  transactionsMap pgsql' = <[TcpHashable Demo.tuple := []]> ∅ /\ allocated pgsql' = 0%nat /\
  forall resp, receivedPgsqlResponse pgsql' resp Demo.tuple = (Ret tt, pgsql').
Proof.
  apply (pgsql_empty_request_leak demo_pgsql (newMessage 0 <| m_Query := bs " ;" |>) Demo.tuple {| ct_Src := []; ct_Dst := [] |});
    by vm_compute.
Defined.
