(* ===== verification/ThriftIdl.v ===== *)
(** The Thrift IDL (src/protos/thrift/thrift_idl.go): the table of methods built from
    the files that the vendored go-thrift parser reads. *)
From S2P Require Export Protos.
From stdpp Require Import list.
#[local] Open Scope Z_scope.

(** * The parser's types (go-thrift/parser/types.go), as far as they are used; the
    services of a file and the methods of a service are maps, here in the order in
    which Go iterates over them. *)
Record Field := { f_Id : Z; f_Name : bytes }.
Record Method := { me_Name : bytes; me_Arguments : list Field; me_Exceptions : list Field }.
Record Service := { sv_Name : bytes; sv_Methods : list Method }.
Record ThriftFile := { tf_Services : list Service }.

(** [parser.Parser.ParseFile]: the file and the files it includes, by name, or an error.
    The order of Go's iteration over a map is not specified. *)
Class IdlParser := ParseFile : bytes -> option (list (bytes * ThriftFile)).
Class MapIteration := map_order : forall A, gmap bytes A -> list (bytes * A).
Arguments map_order {_ A} m.

Record ThriftIdlMethod := {
  im_Service : Service;
  im_Method : Method;
  im_Params : list (option bytes);        (* a nil pointer is None *)
  im_Exceptions : list (option bytes)
}.

Record ThriftIdl := { MethodsByName : gmap bytes ThriftIdlMethod }.

Definition max_id (fields : list Field) : Z := foldl (fun m f => if decide (f_Id f > m) then f_Id f else m) 0 fields.

(** The second loop of [fieldsToArrayById]; a negative id is out of range. *)
Fixpoint set_names (fields : list Field) (output : list (option bytes)) : outcome (list (option bytes)) :=
  match fields with
  | [] => Ret output
  | field :: fields =>
      if decide (len (f_Name field) > 0) then
        if decide (0 <= f_Id field < len output)
        then set_names fields (<[Z.to_nat (f_Id field) := Some (f_Name field)]> output)
        else Panic
      else set_names fields output
  end.

Definition fieldsToArrayById (fields : list Field) : outcome (list (option bytes)) :=
  match fields with
  | [] => Ret []
  | _ => set_names fields (replicate (Z.to_nat (max_id fields + 1)) None)
  end.

Definition add_method (service : Service) (output : outcome (gmap bytes ThriftIdlMethod)) (method : Method)
    : outcome (gmap bytes ThriftIdlMethod) :=
  let! output := output in
  let! params := fieldsToArrayById (me_Arguments method) in
  let! exceptions := fieldsToArrayById (me_Exceptions method) in
  Ret (<[me_Name method := {| im_Service := service; im_Method := method;
                              im_Params := params; im_Exceptions := exceptions |}]> output).

Section Files.
Context {IP : IdlParser} {MI : MapIteration}.

Definition BuildMethodsMap (thrift_files : gmap bytes ThriftFile) : outcome (gmap bytes ThriftIdlMethod) :=
  foldl (fun output x =>
    foldl (fun output service => foldl (add_method service) output (sv_Methods service)) output (tf_Services (snd x)))
    (Ret ∅) (map_order thrift_files).

(** The files read, or an error at the first file that does not parse. *)
Fixpoint read_files (files : list bytes) (output : gmap bytes ThriftFile) : option (gmap bytes ThriftFile) :=
  match files with
  | [] => Some output
  | file :: files =>
      match ParseFile file with
      | None => None
      | Some files_map => read_files files (foldl (fun output x => <[fst x := snd x]> output) output files_map)
      end
  end.
Definition ReadFiles (files : list bytes) : option (gmap bytes ThriftFile) := read_files files ∅.

Definition FindMethod (thriftidl : ThriftIdl) (name : bytes) : option ThriftIdlMethod :=
  MethodsByName thriftidl !! name.

(** The table, [None] for nil; [None] outside is an error. *)
Definition NewThriftIdl (idl_files : list bytes) : outcome (option (option ThriftIdl)) :=
  match idl_files with
  | [] => Ret (Some None)
  | _ =>
      match ReadFiles idl_files with
      | None => Ret None
      | Some thrift_files =>
          let! methods := BuildMethodsMap thrift_files in
          Ret (Some (Some {| MethodsByName := methods |}))
      end
  end.
End Files.

(** * Names of fields *)

Lemma max_id_go fields m : m <= foldl (fun m f => if decide (f_Id f > m) then f_Id f else m) m fields /\
  Forall (fun f => f_Id f <= foldl (fun m f => if decide (f_Id f > m) then f_Id f else m) m fields) fields.
Proof.
  revert m. induction fields as [|f fields IH]; intros m; cbn [foldl]; [split; [lia|constructor]|].
  destruct (IH (if decide (f_Id f > m) then f_Id f else m)) as [H1 H2].
  split; [case_decide; lia|]. constructor; [case_decide; lia|exact H2].
Qed.

Lemma max_id_bound fields : 0 <= max_id fields /\ Forall (fun f => f_Id f <= max_id fields) fields.
Proof. apply max_id_go. Qed.

Lemma set_names_spec fields output :
  Forall (fun f => 0 <= f_Id f < len output /\ f_Name f <> []) fields -> NoDup (f_Id <$> fields) ->
  exists out, set_names fields output = Ret out /\
    (forall f, f ∈ fields -> out !! Z.to_nat (f_Id f) = Some (Some (f_Name f))) /\
    (forall i, Z.of_nat i ∉ f_Id <$> fields -> out !! i = output !! i).
Proof.
  revert output. induction fields as [|f fields IH]; intros output Hok Hd.
  - exists output. split; [done|]. split; [|done]. intros f Hf. by apply not_elem_of_nil in Hf.
  - apply Forall_cons_1 in Hok as [[Hf Hne] Hok]. apply NoDup_cons in Hd as [Hnew Hd]. cbn [set_names].
    assert (len (f_Name f) > 0) by (destruct (f_Name f) as [|c n]; [done|rewrite len_cons; pose proof (len_nonneg n); lia]).
    rewrite decide_True, decide_True by done.
    destruct (IH (<[Z.to_nat (f_Id f) := Some (f_Name f)]> output)) as (out & E & Ha & Hb); [|done|].
    { eapply Forall_impl; [exact Hok|]. intros g. unfold len. by rewrite length_insert. }
    exists out. split; [done|]. split.
    + intros g Hg. apply elem_of_cons in Hg as [->|Hg]; [|by apply Ha].
      rewrite Hb by (by rewrite Z2Nat.id by lia). rewrite list_lookup_insert_eq; [done|]. unfold len in Hf. lia.
    + intros i Hi. cbn in Hi. apply not_elem_of_cons in Hi as [Hi1 Hi2]. rewrite Hb by done.
      apply list_lookup_insert_ne. lia.
Qed.

(** With distinct ids that are not negative the array has the name of each field at the
    index of its id, and nothing at the other indices. *)
Lemma fieldsToArrayById_spec fields :
  Forall (fun f => 0 <= f_Id f /\ f_Name f <> []) fields -> NoDup (f_Id <$> fields) ->
  exists out, fieldsToArrayById fields = Ret out /\
    (forall f, f ∈ fields -> out !! Z.to_nat (f_Id f) = Some (Some (f_Name f))) /\
    (forall i name, out !! i = Some (Some name) -> Z.of_nat i ∈ f_Id <$> fields).
Proof.
  intros Hok Hd. destruct (max_id_bound fields) as [H0 Hmax].
  destruct fields as [|f0 fs].
  { exists []. split; [done|]. split; [intros f Hf; by apply not_elem_of_nil in Hf|done]. }
  set (fields := f0 :: fs) in *.
  change (fieldsToArrayById fields) with (set_names fields (replicate (Z.to_nat (max_id fields + 1)) None)).
  destruct (set_names_spec fields (replicate (Z.to_nat (max_id fields + 1)) None)) as (out & E & Ha & Hb); [|done|].
  { apply Forall_forall. intros f Hf. rewrite Forall_forall in Hok, Hmax. specialize (Hok f Hf). specialize (Hmax f Hf).
    split; [|apply Hok]. unfold len. rewrite length_replicate. cbv beta in Hmax. lia. }
  exists out. split; [done|]. split; [done|]. intros i name Hi.
  destruct (decide (Z.of_nat i ∈ f_Id <$> fields)) as [|Hn]; [done|]. rewrite Hb in Hi by done.
  apply lookup_replicate in Hi as [? _]. done.
Qed.
