(* ===== verification/Thrift.v ===== *)
(** The Thrift protocol plugin (src/protos/thrift/thrift.go): the readers of values,
    the message parser, transactions and their publication, and the stream
    handler. *)
From S2P Require Export GoText ThriftIdl.

(** * Data *)

Record ThriftField := { fd_Type : Z; fd_Id : Z; fd_Value : bytes }.

Record ThriftMessage := {
  m_Ts : Z;
  m_TcpTuple : option TcpTuple;          (* None: the zero tuple *)
  m_CmdlineTuple : option CmdlineTuple;  (* None: nil *)
  m_Direction : Z;
  m_start : Z;
  m_fields : list ThriftField;
  m_IsRequest : bool;
  m_HasException : bool;
  m_Version : Z;
  m_Type : Z;
  m_Method : bytes;
  m_SeqId : Z;
  m_Params : bytes;
  m_ReturnValue : bytes;
  m_Exceptions : bytes;
  m_FrameSize : Z;
  m_Service : bytes
}.
#[export] Instance eta_ThriftMessage : Settable ThriftMessage := fun r =>
  {| m_Ts := m_Ts r; m_TcpTuple := m_TcpTuple r; m_CmdlineTuple := m_CmdlineTuple r;
     m_Direction := m_Direction r; m_start := m_start r; m_fields := m_fields r;
     m_IsRequest := m_IsRequest r; m_HasException := m_HasException r; m_Version := m_Version r;
     m_Type := m_Type r; m_Method := m_Method r; m_SeqId := m_SeqId r; m_Params := m_Params r;
     m_ReturnValue := m_ReturnValue r; m_Exceptions := m_Exceptions r; m_FrameSize := m_FrameSize r;
     m_Service := m_Service r |}.

(** [&ThriftMessage{Ts: ts}]. *)
Definition newMessage (ts : Z) : ThriftMessage :=
  {| m_Ts := ts; m_TcpTuple := None; m_CmdlineTuple := None; m_Direction := 0; m_start := 0; m_fields := [];
     m_IsRequest := false; m_HasException := false; m_Version := 0; m_Type := 0; m_Method := []; m_SeqId := 0;
     m_Params := []; m_ReturnValue := []; m_Exceptions := []; m_FrameSize := 0; m_Service := [] |}.

Inductive ThriftState := ThriftStartState | ThriftFieldState.

Record ThriftStream := {
  s_tcptuple : TcpTuple;
  s_data : bytes;
  s_parseOffset : Z;
  s_parseState : ThriftState;
  s_skipInput : bool;
  s_message : option ThriftMessage       (* None: nil *)
}.
#[export] Instance eta_ThriftStream : Settable ThriftStream := fun r =>
  {| s_tcptuple := s_tcptuple r; s_data := s_data r; s_parseOffset := s_parseOffset r;
     s_parseState := s_parseState r; s_skipInput := s_skipInput r; s_message := s_message r |}.

(** A transaction; [t_ptr] is its identity, which its timer holds. *)
Record ThriftTransaction := {
  t_ptr : nat;
  t_Type : bytes;
  t_tuple : TcpTuple;
  t_Src : Endpoint;
  t_Dst : Endpoint;
  t_ResponseTime : Z;
  t_Ts : Z;
  t_JsTs : Z;
  t_ts : Z;
  t_cmdline : option CmdlineTuple;
  t_Request : option ThriftMessage;      (* None: nil *)
  t_Reply : option ThriftMessage
}.
#[export] Instance eta_ThriftTransaction : Settable ThriftTransaction := fun r =>
  {| t_ptr := t_ptr r; t_Type := t_Type r; t_tuple := t_tuple r; t_Src := t_Src r; t_Dst := t_Dst r;
     t_ResponseTime := t_ResponseTime r; t_Ts := t_Ts r; t_JsTs := t_JsTs r; t_ts := t_ts r;
     t_cmdline := t_cmdline r; t_Request := t_Request r; t_Reply := t_Reply r |}.

Definition ThriftVersionMask : Z := 0xffff0000.
Definition ThriftVersion1 : Z := 0x80010000.
Definition ThriftTypeMask : Z := 0x000000ff.

Definition ThriftTypeStop : Z := 0.
Definition ThriftTypeBool : Z := 2.
Definition ThriftTypeByte : Z := 3.
Definition ThriftTypeDouble : Z := 4.
Definition ThriftTypeI16 : Z := 6.
Definition ThriftTypeI32 : Z := 8.
Definition ThriftTypeI64 : Z := 10.
Definition ThriftTypeString : Z := 11.
Definition ThriftTypeStruct : Z := 12.
Definition ThriftTypeMap : Z := 13.
Definition ThriftTypeSet : Z := 14.
Definition ThriftTypeList : Z := 15.

Definition ThriftMsgTypeCall : Z := 1.
Definition ThriftMsgTypeReply : Z := 2.
Definition ThriftMsgTypeException : Z := 3.
Definition ThriftMsgTypeOneway : Z := 4.

Definition ThriftTBinary : Z := 1.
Definition ThriftTSocket : Z := 1.
Definition ThriftTFramed : Z := 2.

(** The plugin.  In [transMap] an entry can be nil ([Some None]).  [PublishQueue] holds
    what was sent on the queue and not yet taken by [publishTransactions];
    [results] what was sent on the channel, [None] for nil; [timers] the
    transactions with a running timer; [allocated] the number of transactions. *)
Record Thrift := {
  Ports : list Z;
  StringMaxSize : Z;
  CollectionMaxSize : Z;
  DropAfterNStructFields : Z;
  CaptureReply : bool;
  ObfuscateStrings : bool;
  Send_request : bool;
  Send_response : bool;
  TransportType : Z;
  ProtocolType : Z;
  transMap : gmap bytes (option ThriftTransaction);
  PublishQueue : list ThriftTransaction;
  results : option (list MapStr);
  Idl : option ThriftIdl;
  timers : list ThriftTransaction;
  allocated : nat
}.
#[export] Instance eta_Thrift : Settable Thrift := fun r =>
  {| Ports := Ports r; StringMaxSize := StringMaxSize r; CollectionMaxSize := CollectionMaxSize r;
     DropAfterNStructFields := DropAfterNStructFields r; CaptureReply := CaptureReply r;
     ObfuscateStrings := ObfuscateStrings r; Send_request := Send_request r; Send_response := Send_response r;
     TransportType := TransportType r; ProtocolType := ProtocolType r; transMap := transMap r;
     PublishQueue := PublishQueue r; results := results r; Idl := Idl r; timers := timers r;
     allocated := allocated r |}.

(** [config.Thrift]: a nil pointer is an option not set. *)
Record ConfigThrift := {
  cfg_Ports : list Z;
  cfg_String_max_size : option Z;
  cfg_Collection_max_size : option Z;
  cfg_Drop_after_n_struct_fields : option Z;
  cfg_Transport_type : option bytes;
  cfg_Protocol_type : option bytes;
  cfg_Capture_reply : option bool;
  cfg_Obfuscate_strings : option bool;
  cfg_Idl_files : list bytes;
  cfg_Send_request : option bool;
  cfg_Send_response : option bool
}.

Definition InitDefaults (thrift : Thrift) : Thrift :=
  thrift <| StringMaxSize := 200 |> <| CollectionMaxSize := 15 |> <| DropAfterNStructFields := 500 |>
         <| TransportType := ThriftTSocket |> <| ProtocolType := ThriftTBinary |> <| CaptureReply := true |>
         <| ObfuscateStrings := false |> <| Send_request := false |> <| Send_response := false |>.

Inductive config_error := TransportNotKnown | ProtocolNotKnown | IdlError.

Section Config.
Context {IP : IdlParser} {MI : MapIteration}.

(** The settings before the first error are kept. *)
Definition readConfig (thrift : Thrift) (config : ConfigThrift) : outcome (Thrift * option config_error) :=
  let thrift := thrift <| Ports := cfg_Ports config |> in
  let thrift := match cfg_String_max_size config with Some n => thrift <| StringMaxSize := n |> | None => thrift end in
  let thrift := match cfg_Collection_max_size config with
                | Some n => thrift <| CollectionMaxSize := n |> | None => thrift end in
  let thrift := match cfg_Drop_after_n_struct_fields config with
                | Some n => thrift <| DropAfterNStructFields := n |> | None => thrift end in
  let transport := match cfg_Transport_type config with
                   | None => Some (TransportType thrift)
                   | Some t => if decide (t = bs "socket") then Some ThriftTSocket
                               else if decide (t = bs "framed") then Some ThriftTFramed else None
                   end in
  match transport with
  | None => Ret (thrift, Some TransportNotKnown)
  | Some transport =>
      let thrift := thrift <| TransportType := transport |> in
      let protocol := match cfg_Protocol_type config with
                      | None => Some (ProtocolType thrift)
                      | Some p => if decide (p = bs "binary") then Some ThriftTBinary else None
                      end in
      match protocol with
      | None => Ret (thrift, Some ProtocolNotKnown)
      | Some protocol =>
          let thrift := thrift <| ProtocolType := protocol |> in
          let thrift := match cfg_Capture_reply config with Some b => thrift <| CaptureReply := b |> | None => thrift end in
          let thrift := match cfg_Obfuscate_strings config with
                        | Some b => thrift <| ObfuscateStrings := b |> | None => thrift end in
          let! idl := if decide (len (cfg_Idl_files config) > 0) then NewThriftIdl (cfg_Idl_files config)
                      else Ret (Some (Idl thrift)) in
          match idl with
          | None => Ret (thrift <| Idl := None |>, Some IdlError)
          | Some idl =>
              let thrift := thrift <| Idl := idl |> in
              let thrift := match cfg_Send_request config with
                            | Some b => thrift <| Send_request := b |> | None => thrift end in
              let thrift := match cfg_Send_response config with
                            | Some b => thrift <| Send_response := b |> | None => thrift end in
              Ret (thrift, None)
          end
      end
  end.

(** In test mode the queue and the channel are left to the test. *)
Definition Init (thrift : Thrift) (test_mode : bool) (config : ConfigThrift) (results_chan : option (list MapStr))
    : outcome (Thrift * option config_error) :=
  let thrift := InitDefaults thrift in
  let! '(thrift, err) := if test_mode then Ret (thrift, None) else readConfig thrift config in
  match err with
  | Some _ => Ret (thrift, err)
  | None =>
      let thrift := thrift <| transMap := ∅ |> in
      Ret (if test_mode then thrift else thrift <| PublishQueue := [] |> <| results := results_chan |>, None)
  end.
End Config.

(** * Readers of values *)

(** A reader gives the text of the value, whether the data is valid, whether it is
    complete, and the number of bytes read. *)
Abbreviation reading := (bytes * bool * bool * Z)%type.
Abbreviation ThriftFieldReader := (bytes -> outcome reading).
Definition not_complete : reading := ([], true, false, 0).
Definition not_ok : reading := ([], false, false, 0).
Definition read_all (value : bytes) (off : Z) : reading := (value, true, true, off).

Section Readers.
Context {PT : PrintTable} {FT : FloatText} (thrift : Thrift).

Definition readString (data : bytes) : outcome reading :=
  if decide (len data < 4) then Ret not_complete
  else
    let! b := str_slice data 0 4 in
    let! sz := Bytes_Ntohl b in
    if decide (int32_of sz < 0) then Ret not_ok
    else
      let! rest := str_from data 4 in
      if decide (len rest < sz) then Ret not_complete
      else
        let! value :=
          if decide (sz > StringMaxSize thrift)
          then let! v := str_slice data 4 (4 + StringMaxSize thrift) in Ret (v ++ bs "...")
          else str_slice data 4 (4 + sz) in
        Ret (read_all value (4 + sz)).

(** The text of a string value. *)
Definition quoted (value : bytes) : bytes :=
  if decide (value = []) then [x22; x22]
  else if ObfuscateStrings thrift then [x22; x2a; x22]
  else if ValidString value then Quote value
  else EncodeToString value.

Definition readAndQuoteString (data : bytes) : outcome reading :=
  let! '(value, ok, complete, off) := readString data in
  Ret (quoted value, ok, complete, off).

Definition readBool (data : bytes) : outcome reading :=
  if decide (len data < 1) then Ret not_complete
  else let! b := at_ data 0 in Ret (read_all (if decide (u8 b = 0) then bs "false" else bs "true") 1).

Definition readByte (data : bytes) : outcome reading :=
  if decide (len data < 1) then Ret not_complete
  else let! b := at_ data 0 in Ret (read_all (Itoa (u8 b)) 1).

Definition readDouble (data : bytes) : outcome reading :=
  if decide (len data < 8) then Ret not_complete
  else let! b := str_slice data 0 8 in let! bits := Bytes_Ntohll b in Ret (read_all (FormatFloat bits) 8).

Definition readI16 (data : bytes) : outcome reading :=
  if decide (len data < 2) then Ret not_complete
  else let! b := str_slice data 0 2 in let! i16 := Bytes_Ntohs b in Ret (read_all (Itoa i16) 2).

Definition readI32 (data : bytes) : outcome reading :=
  if decide (len data < 4) then Ret not_complete
  else let! b := str_slice data 0 4 in let! i32 := Bytes_Ntohl b in Ret (read_all (Itoa i32) 4).

Definition readI64 (data : bytes) : outcome reading :=
  if decide (len data < 8) then Ret not_complete
  else let! b := str_slice data 0 8 in let! i64 := Bytes_Ntohll b in Ret (read_all (Itoa (int64_of i64)) 8).

(** The [i]-th text of a collection: one more, an ellipsis, or nothing. *)
Definition collect (i : Z) (fields : list bytes) (text : bytes) : list bytes :=
  if decide (i < CollectionMaxSize thrift) then fields ++ [text]
  else if decide (i = CollectionMaxSize thrift) then fields ++ [bs "..."]
  else fields.

(** A turn of a collection's loop: the state is the index, the offset and the texts. *)
Definition collection : Type := Z * Z * list bytes.

Definition list_step (funcReader : ThriftFieldReader) (data : bytes) (sz : Z) (x : collection)
    : outcome (collection + reading) :=
  let '(i, offset, fields) := x in
  if decide (i < sz) then
    let! rest := str_from data offset in
    let! '(value, ok, complete, bytesRead) := funcReader rest in
    if negb ok then Ret (inr not_ok)
    else if negb complete then Ret (inr not_complete)
    else Ret (inl (i + 1, offset + bytesRead, collect i fields value))
  else Ret (inr (read_all (Join fields (bs ", ")) offset)).

(** Every value of a collection takes at least one byte, which bounds the turns. *)
Definition readListOrSet (funcReaders : Z -> option ThriftFieldReader) (data : bytes) : outcome reading :=
  if decide (len data < 5) then Ret not_complete
  else
    let! type_ := at_ data 0 in
    match funcReaders (u8 type_) with
    | None => Ret not_ok
    | Some funcReader =>
        let! b := str_slice data 1 5 in
        let! sz := Bytes_Ntohl b in
        if decide (sz < 0) then Ret not_ok
        else loop (list_step funcReader data sz) (S (S (length data))) (0, 5, [])
    end.

(** A text in brackets, unless it is empty. *)
Definition bracket (l r : byte) (x : reading) : reading :=
  let '(value, ok, complete, off) := x in
  (if decide (value = []) then value else l :: value ++ [r], ok, complete, off).

Definition readSet (funcReaders : Z -> option ThriftFieldReader) (data : bytes) : outcome reading :=
  let! x := readListOrSet funcReaders data in Ret (bracket x7b x7d x).
Definition readList (funcReaders : Z -> option ThriftFieldReader) (data : bytes) : outcome reading :=
  let! x := readListOrSet funcReaders data in Ret (bracket x5b x5d x).

Definition map_step (funcReaderKey funcReaderValue : ThriftFieldReader) (data : bytes) (sz : Z) (x : collection)
    : outcome (collection + reading) :=
  let '(i, offset, fields) := x in
  if decide (i < sz) then
    let! rest := str_from data offset in
    let! '(key, ok, complete, bytesRead) := funcReaderKey rest in
    if negb ok then Ret (inr not_ok)
    else if negb complete then Ret (inr not_complete)
    else
      let offset := offset + bytesRead in
      let! rest := str_from data offset in
      let! '(value, ok, complete, bytesRead) := funcReaderValue rest in
      if negb ok then Ret (inr not_ok)
      else if negb complete then Ret (inr not_complete)
      else Ret (inl (i + 1, offset + bytesRead, collect i fields (key ++ bs ": " ++ value)))
  else Ret (inr (read_all (x7b :: Join fields (bs ", ") ++ [x7d]) offset)).

Definition readMap (funcReaders : Z -> option ThriftFieldReader) (data : bytes) : outcome reading :=
  if decide (len data < 6) then Ret not_complete
  else
    let! type_key := at_ data 0 in
    let! type_value := at_ data 1 in
    match funcReaders (u8 type_key) with
    | None => Ret not_ok
    | Some funcReaderKey =>
        match funcReaders (u8 type_value) with
        | None => Ret not_ok
        | Some funcReaderValue =>
            let! b := str_slice data 2 6 in
            let! sz := Bytes_Ntohl b in
            if decide (sz < 0) then Ret not_ok
            else loop (map_step funcReaderKey funcReaderValue data sz) (S (S (length data))) (0, 6, [])
        end
    end.

(** [fieldnames[id]], when the names are to be resolved and there is one. *)
Definition field_name (resolve_names : bool) (fieldnames : list (option bytes)) (id : Z) : option bytes :=
  if resolve_names then match fieldnames !! Z.to_nat id with Some name => name | None => None end else None.

(** The entries of [formatStruct] from index [i] on. *)
Fixpoint struct_entries (i : Z) (resolve_names : bool) (fieldnames : list (option bytes)) (fields : list ThriftField)
    : list bytes :=
  match fields with
  | [] => []
  | field :: fields =>
      if decide (i = CollectionMaxSize thrift) then [bs "..."]
      else
        let name := match field_name resolve_names fieldnames (fd_Id field) with
                    | Some name => name
                    | None => Itoa (fd_Id field)
                    end in
        (name ++ bs ": " ++ fd_Value field) :: struct_entries (i + 1) resolve_names fieldnames fields
  end.

Definition formatStruct (fields : list ThriftField) (resolve_names : bool) (fieldnames : list (option bytes)) : bytes :=
  x28 :: Join (struct_entries 0 resolve_names fieldnames fields) (bs ", ") ++ [x29].

(** A turn of the loop of [readStruct].  The emptiness test is on the whole data, not on
    what is left of it. *)
Definition struct_step (funcReaders : Z -> option ThriftFieldReader) (data : bytes)
    (x : Z * Z * list ThriftField) : outcome (Z * Z * list ThriftField + reading) :=
  let '(i, offset, fields) := x in
  if decide (i >= DropAfterNStructFields thrift) then Ret (inr not_ok)
  else if decide (len data < 1) then Ret (inr not_complete)
  else
    let! type_ := at_ data offset in
    let offset := offset + 1 in
    if decide (u8 type_ = ThriftTypeStop) then
      Ret (inr (read_all (formatStruct fields false []) offset))
    else
      let! rest := str_from data offset in
      if decide (len rest < 2) then Ret (inr not_complete)
      else
        let! b := str_slice data offset (offset + 2) in
        let! id := Bytes_Ntohs b in
        let offset := offset + 2 in
        match funcReaders (u8 type_) with
        | None => Ret (inr not_ok)
        | Some funcReader =>
            let! rest := str_from data offset in
            let! '(value, ok, complete, bytesRead) := funcReader rest in
            if negb ok then Ret (inr not_ok)
            else if negb complete then Ret (inr not_complete)
            else Ret (inl (i + 1, offset + bytesRead,
                           fields ++ [{| fd_Type := u8 type_; fd_Id := id; fd_Value := value |}]))
        end.

Definition readStruct (funcReaders : Z -> option ThriftFieldReader) (data : bytes) : outcome reading :=
  loop (struct_step funcReaders data) (S (S (length data))) (0, 0, []).

(** The readers of the values inside a collection are those of one level less; a value
    is longer than the values inside it, so the length of the data is enough
    levels. *)
Fixpoint funcReadersByType (levels : nat) (type_ : Z) : option ThriftFieldReader :=
  let inner := match levels with
               | O => fun _ => Some (fun _ => OutOfFuel)
               | S levels => funcReadersByType levels
               end in
  if decide (type_ = ThriftTypeBool) then Some readBool
  else if decide (type_ = ThriftTypeByte) then Some readByte
  else if decide (type_ = ThriftTypeDouble) then Some readDouble
  else if decide (type_ = ThriftTypeI16) then Some readI16
  else if decide (type_ = ThriftTypeI32) then Some readI32
  else if decide (type_ = ThriftTypeI64) then Some readI64
  else if decide (type_ = ThriftTypeString) then Some readAndQuoteString
  else if decide (type_ = ThriftTypeList) then Some (readList inner)
  else if decide (type_ = ThriftTypeSet) then Some (readSet inner)
  else if decide (type_ = ThriftTypeMap) then Some (readMap inner)
  else if decide (type_ = ThriftTypeStruct) then Some (readStruct inner)
  else None.

(** * The message parser *)

(** The name and the sequence number, after the version of a message. *)
Definition readMessageBegin (s : ThriftStream) (m : ThriftMessage) : outcome (ThriftStream * ThriftMessage * (bool * bool)) :=
  let! rest := str_from (s_data s) (s_parseOffset s) in
  if decide (len rest < 9) then Ret (s, m, (true, false))
  else
    let! b := str_slice (s_data s) (s_parseOffset s) (s_parseOffset s + 4) in
    let! sz := Bytes_Ntohl b in
    let finish (s : ThriftStream) (m : ThriftMessage) :=
      Ret (s, m <| m_IsRequest := bool_decide (m_Type m = ThriftMsgTypeCall \/ m_Type m = ThriftMsgTypeOneway) |>, (true, true)) in
    if decide (int32_of sz < 0) then
      let m := m <| m_Version := Z.land sz ThriftVersionMask |> in
      let offset := s_parseOffset s + 4 in
      let m := m <| m_Type := Z.land sz ThriftTypeMask |> in
      let! rest := str_from (s_data s) offset in
      let! '(method, ok, complete, off) := readString rest in
      let m := m <| m_Method := method |> in
      if negb ok then Ret (s, m, (false, false))
      else if negb complete then Ret (s, m, (true, false))
      else
        let offset := offset + off in
        let! rest := str_from (s_data s) offset in
        if decide (len rest < 4) then Ret (s, m, (true, false))
        else
          let! b := str_slice (s_data s) offset (offset + 4) in
          let! seq := Bytes_Ntohl b in
          finish (s <| s_parseOffset := offset + 4 |>) (m <| m_SeqId := seq |>)
    else
      let offset := s_parseOffset s in
      let! rest := str_from (s_data s) offset in
      let! '(method, ok, complete, off) := readString rest in
      let m := m <| m_Method := method |> in
      if negb ok then Ret (s, m, (false, false))
      else if negb complete then Ret (s, m, (true, false))
      else
        let offset := offset + off in
        let! rest := str_from (s_data s) offset in
        if decide (len rest < 5) then Ret (s, m, (true, false))
        else
          let! type_ := at_ (s_data s) offset in
          let offset := offset + 1 in
          let! b := str_slice (s_data s) offset (offset + 4) in
          let! seq := Bytes_Ntohl b in
          finish (s <| s_parseOffset := offset + 4 |>) (m <| m_Type := u8 type_ |> <| m_SeqId := seq |>).

(** (ok, complete, field), the field [None] for nil. *)
Definition readField (s : ThriftStream) : outcome (ThriftStream * (bool * bool * option ThriftField)) :=
  if decide (len (s_data s) = 0) then Ret (s, (true, false, None))
  else
    let! type_ := at_ (s_data s) (s_parseOffset s) in
    let offset := s_parseOffset s + 1 in
    if decide (u8 type_ = ThriftTypeStop) then Ret (s <| s_parseOffset := offset |>, (true, true, None))
    else
      let! rest := str_from (s_data s) offset in
      if decide (len rest < 2) then Ret (s, (true, false, None))
      else
        let! b := str_slice (s_data s) offset (offset + 2) in
        let! id := Bytes_Ntohs b in
        let offset := offset + 2 in
        match funcReadersByType (length (s_data s)) (u8 type_) with
        | None => Ret (s, (false, false, None))
        | Some funcReader =>
            let! rest := str_from (s_data s) offset in
            let! '(value, ok, complete, off) := funcReader rest in
            if negb ok then Ret (s, (false, false, None))
            else if negb complete then Ret (s, (true, false, None))
            else Ret (s <| s_parseOffset := offset + off |>,
                      (true, false, Some {| fd_Type := u8 type_; fd_Id := id; fd_Value := value |}))
        end.

(** What the end of a message makes of its fields. *)
Definition message_done (m : ThriftMessage) : ThriftMessage :=
  let method := match Idl thrift with Some idl => FindMethod idl (m_Method m) | None => None end in
  if m_IsRequest m then
    match method with
    | Some method => m <| m_Params := formatStruct (m_fields m) true (im_Params method) |>
                       <| m_Service := sv_Name (im_Service method) |>
    | None => m <| m_Params := formatStruct (m_fields m) false [] |>
    end
  else
    match m_fields m with
    | [] => m
    | field :: _ =>
        if decide (fd_Id field = 0) then m <| m_ReturnValue := fd_Value field |> <| m_Exceptions := [] |>
        else
          let m := m <| m_ReturnValue := [] |> in
          let m := match method with
                   | Some method => m <| m_Exceptions := formatStruct (m_fields m) true (im_Exceptions method) |>
                   | None => m <| m_Exceptions := formatStruct (m_fields m) false [] |>
                   end in
          m <| m_HasException := true |>
    end.

(** A turn of the parser: go on, or return (ok, complete). *)
Definition turn : Type := outcome (ThriftStream * ThriftMessage + ThriftStream * ThriftMessage * (bool * bool)).

Definition start_state (s : ThriftStream) (m : ThriftMessage) : turn :=
  let m := m <| m_start := s_parseOffset s |> in
  let begin_message (s : ThriftStream) (m : ThriftMessage) : turn :=
    let! '(s, m, (ok, complete)) := readMessageBegin s m in
    if negb ok then Ret (inr (s, m, (false, false)))
    else if negb complete then Ret (inr (s, m, (true, false)))
    else if negb (m_IsRequest m) && negb (CaptureReply thrift) then
      Ret (inr (s, m <| m_ReturnValue := [] |> <| m_Exceptions := [] |>, (true, true)))
    else Ret (inl (s <| s_parseState := ThriftFieldState |>, m)) in
  if decide (TransportType thrift = ThriftTFramed) then
    if decide (len (s_data s) < 4) then Ret (inr (s, m, (true, false)))
    else
      let! b := str_slice (s_data s) 0 4 in
      let! size := Bytes_Ntohl b in
      begin_message (s <| s_parseOffset := 4 |>) (m <| m_FrameSize := size |>)
  else begin_message s m.

Definition field_state (s : ThriftStream) (m : ThriftMessage) : turn :=
  let! '(s, (ok, complete, field)) := readField s in
  if negb ok then Ret (inr (s, m, (false, false)))
  else if complete : bool then Ret (inr (s, message_done m, (true, true)))
  else
    match field with
    | None => Ret (inr (s, m, (true, false)))
    | Some field => Ret (inl (s, m <| m_fields := m_fields m ++ [field] |>))
    end.

Definition parser_step (x : ThriftStream * ThriftMessage) : turn :=
  let '(s, m) := x in
  if decide (s_parseOffset s < len (s_data s)) then
    match s_parseState s with
    | ThriftStartState => start_state s m
    | ThriftFieldState => field_state s m
    end
  else Ret (inr (s, m, (true, false))).

(** One turn for the beginning of the message, and one for every field. *)
Definition messageParser (s : ThriftStream) : outcome (ThriftStream * (bool * bool)) :=
  match s_message s with
  | None => Panic
  | Some m =>
      let! '(s, m, r) := loop parser_step (S (S (length (s_data s)))) (s, m) in
      Ret (s <| s_message := Some m |>, r)
  end.

End Readers.

Definition PrepareForNewMessage (flush : bool) (stream : ThriftStream) : outcome ThriftStream :=
  let! data := if flush then Ret [] else str_from (s_data stream) (s_parseOffset stream) in
  Ret (stream <| s_data := data |> <| s_parseOffset := 0 |> <| s_message := None |>
              <| s_parseState := ThriftStartState |>).

(** * Transactions *)

Definition stop_timer (ptr : nat) (ts : list ThriftTransaction) : list ThriftTransaction :=
  List.filter (fun t => negb (bool_decide (t_ptr t = ptr))) ts.

(** The transaction of a tuple, [None] for nil and for no entry. *)
Definition pending (thrift : Thrift) (key : bytes) : option ThriftTransaction :=
  match transMap thrift !! key with Some (Some t) => Some t | _ => None end.

Definition newTransaction (ptr : nat) (msg : ThriftMessage) (tuple : TcpTuple) (cmdline : CmdlineTuple)
    : ThriftTransaction :=
  let '(src, dst) := endpoints tuple cmdline (m_Direction msg) in
  {| t_ptr := ptr; t_Type := bs "thrift"; t_tuple := tuple; t_Src := src; t_Dst := dst; t_ResponseTime := 0;
     t_Ts := micros (m_Ts msg); t_JsTs := m_Ts msg; t_ts := m_Ts msg; t_cmdline := None;
     t_Request := Some msg; t_Reply := None |}.

(** [msg.TcpTuple] and [msg.CmdlineTuple] are set by [Parse] and are arguments here.  The
    timer of the transaction that is replaced keeps running. *)
Definition receivedRequest (thrift : Thrift) (msg : ThriftMessage) (tuple : TcpTuple) (cmdline : CmdlineTuple) : Thrift :=
  let thrift := match pending thrift (TcpHashable tuple) with
                | Some trans => thrift <| PublishQueue := PublishQueue thrift ++ [trans] |>
                | None => thrift
                end in
  let trans := newTransaction (allocated thrift) msg tuple cmdline in
  thrift <| allocated := S (allocated thrift) |>
         <| transMap := <[TcpHashable tuple := Some trans]> (transMap thrift) |>
         <| timers := timers thrift ++ [trans] |>.

(** A request's message is there in every transaction; without it the comparison would
    be a nil dereference. *)
Definition receivedReply (thrift : Thrift) (msg : ThriftMessage) (tuple : TcpTuple) : outcome Thrift :=
  match pending thrift (TcpHashable tuple) with
  | None => Ret thrift
  | Some trans =>
      match t_Request trans with
      | None => Panic
      | Some request =>
          if decide (m_Method request <> m_Method msg) then Ret thrift
          else
            let trans := trans <| t_Reply := Some msg |>
                               <| t_ResponseTime := millis32 (time_Sub (m_Ts msg) (t_ts trans)) |> in
            Ret (thrift <| PublishQueue := PublishQueue thrift ++ [trans] |>
                        <| transMap := <[TcpHashable tuple := None]> (transMap thrift) |>
                        <| timers := stop_timer (t_ptr trans) (timers thrift) |>)
      end
  end.

Definition handleThrift (thrift : Thrift) (msg : ThriftMessage) (tuple : TcpTuple) (cmdline : CmdlineTuple)
    : outcome Thrift :=
  if m_IsRequest msg then Ret (receivedRequest thrift msg tuple cmdline) else receivedReply thrift msg tuple.

Definition expireTransaction (thrift : Thrift) (trans : ThriftTransaction) : Thrift :=
  thrift <| transMap := delete (TcpHashable (t_tuple trans)) (transMap thrift) |>.

(** A running timer fires. *)
Definition fire (thrift : Thrift) (trans : ThriftTransaction) : Thrift :=
  expireTransaction (thrift <| timers := stop_timer (t_ptr trans) (timers thrift) |>) trans.

(** The event of one transaction. *)
Definition publish_event (thrift : Thrift) (t : ThriftTransaction) : MapStr :=
  let event : MapStr := {[bs "type" := MStr (bs "thrift")]} in
  let failed := match t_Reply t with Some reply => m_HasException reply | None => false end in
  let event := <[bs "status" := MStr (if failed then ERROR_STATUS else OK_STATUS)]> event in
  let event := <[bs "responsetime" := MInt (t_ResponseTime t)]> event in
  let '(event, thriftmap) :=
    match t_Request t with
    | None => (event, ∅ : MapStr)
    | Some request =>
        let query := m_Method request ++ m_Params request in
        let event := <[bs "method" := MStr (m_Method request)]> event in
        let event := <[bs "path" := MStr (m_Service request)]> event in
        let event := <[bs "query" := MStr query]> event in
        let event := <[bs "bytes_in" := MInt (m_FrameSize request)]> event in
        let thriftmap : MapStr := {[bs "params" := MStr (m_Params request)]} in
        let thriftmap := if decide (len (m_Service request) > 0)
                         then <[bs "service" := MStr (m_Service request)]> thriftmap else thriftmap in
        (if Send_request thrift then <[bs "request" := MStr query]> event else event, thriftmap)
    end in
  let '(event, thriftmap) :=
    match t_Reply t with
    | Some reply =>
        let thriftmap := <[bs "return_value" := MStr (m_ReturnValue reply)]> thriftmap in
        let thriftmap := if decide (len (m_Exceptions reply) > 0)
                         then <[bs "exceptions" := MStr (m_Exceptions reply)]> thriftmap else thriftmap in
        let event := <[bs "bytes_out" := MInt (m_FrameSize reply)]> event in
        (if Send_response thrift then
           if m_HasException reply then <[bs "response" := MStr (bs "Exceptions: " ++ m_Exceptions reply)]> event
           else <[bs "response" := MStr (m_ReturnValue reply)]> event
         else event, thriftmap)
    | None => (<[bs "bytes_out" := MInt 0]> event, thriftmap)
    end in
  let event := <[bs "thrift" := MMap thriftmap]> event in
  let event := <[bs "timestamp" := MTime (t_ts t)]> event in
  let event := <[bs "src" := MEndpoint (t_Src t)]> event in
  <[bs "dst" := MEndpoint (t_Dst t)]> event.

(** One turn of the loop of [publishTransactions], when the queue is not empty. *)
Definition publish_next (thrift : Thrift) : Thrift :=
  match PublishQueue thrift with
  | [] => thrift
  | t :: queue =>
      thrift <| PublishQueue := queue |>
             <| results := match results thrift with
                           | Some sent => Some (sent ++ [publish_event thrift t])
                           | None => None
                           end |>
  end.

(** * The stream handler *)

Abbreviation thriftPrivateData := (pair2 ThriftStream).

Section Procs.
Context {PT : PrintTable} {FT : FloatText} {W : Type} {PW : ProcWatcher W}.

(** How the message loop of [Parse] ends: with both streams, with this direction's
    dropped, or in a panic, after which the recovered [Parse] returns nil. *)
Inductive parse_end :=
| Keep (s : ThriftStream) (other : option ThriftStream)
| Drop (other : option ThriftStream)
| Recovered.

(** [x] holds the stream, the stream of the other direction and the plugin. *)
Definition parse_state : Type := ThriftStream * option ThriftStream * (Thrift * W).

(** A complete message: without capture of replies, a request enables the other
    direction and a reply suspends this one. *)
Definition complete_message (tcptuple : TcpTuple) (dir : Z) (m : ThriftMessage) (x : parse_state)
    : outcome (parse_state + parse_end * (Thrift * W)) :=
  let '(stream, other, (thrift, w)) := x in
  let '(stream, other, flush) :=
    if m_IsRequest m then
      (stream, if CaptureReply thrift then other else (fun o => o <| s_skipInput := false |>) <$> other, false)
    else if CaptureReply thrift then (stream, other, false)
    else (stream <| s_skipInput := true |>, other, true) in
  let '(cmdline, w) := FindProcessesTuple (IpPort tcptuple) w in
  let m := m <| m_TcpTuple := Some tcptuple |> <| m_Direction := dir |> <| m_CmdlineTuple := Some cmdline |> in
  let m := if decide (m_FrameSize m = 0)
           then m <| m_FrameSize := uint32_of (s_parseOffset stream - m_start m) |> else m in
  match handleThrift thrift m tcptuple cmdline with
  | Ret thrift =>
      match PrepareForNewMessage flush stream with
      | Ret stream => Ret (inl (stream, other, (thrift, w)))
      | _ => Ret (inr (Recovered, (thrift, w)))
      end
  | _ => Ret (inr (Recovered, (thrift, w)))
  end.

Definition parse_step (ts : Z) (tcptuple : TcpTuple) (dir : Z) (x : parse_state)
    : outcome (parse_state + parse_end * (Thrift * W)) :=
  let '(stream, other, st) := x in
  if decide (len (s_data stream) > 0) then
    let stream := match s_message stream with
                  | None => stream <| s_message := Some (newMessage ts) |>
                  | Some _ => stream
                  end in
    match messageParser (fst st) stream with
    | OutOfFuel => OutOfFuel
    | Panic => Ret (inr (Recovered, st))
    | Ret (stream, (ok, complete)) =>
        if negb ok then Ret (inr (Drop other, st))
        else if complete : bool then
          match s_message stream with
          | Some m => complete_message tcptuple dir m (stream, other, st)
          | None => Ret (inr (Recovered, st))
          end
        else Ret (inr (Keep stream other, st))
    end
  else Ret (inr (Keep stream other, st)).

Definition parse_loop (ts : Z) (tcptuple : TcpTuple) (dir : Z) (stream : ThriftStream)
    (other : option ThriftStream) (st : Thrift * W) : outcome (parse_end * (Thrift * W)) :=
  loop (parse_step ts tcptuple dir) (S (length (s_data stream))) (stream, other, st).

(** The stream with the packet's bytes. *)
Definition received (pkt : Packet) (tcptuple : TcpTuple) (old : option ThriftStream) : ThriftStream :=
  match old with
  | None => {| s_tcptuple := tcptuple; s_data := vis (pk_Payload pkt); s_parseOffset := 0;
               s_parseState := ThriftStartState; s_skipInput := false; s_message := Some (newMessage (pk_Ts pkt)) |}
  | Some stream => stream <| s_data := s_data stream ++ vis (pk_Payload pkt) |>
  end.
Definition suspended (old : option ThriftStream) : bool :=
  match old with Some stream => s_skipInput stream | None => false end.
Definition too_large (old : option ThriftStream) (stream : ThriftStream) : bool :=
  match old with
  | None => false
  | Some _ => bool_decide (len (s_data stream) > TCP_MAX_DATA_IN_STREAM)
  end.

(** [private] is [None] for nil and for another protocol's data. *)
Definition Parse (pkt : Packet) (tcptuple : TcpTuple) (dir : Z) (private : option thriftPrivateData) (st : Thrift * W)
    : outcome (option thriftPrivateData * (Thrift * W)) :=
  let priv := default nil2 private in
  match get2 priv dir, get2 priv (1 - dir) with
  | Ret old, Ret other =>
      if suspended old then Ret (Some priv, st)
      else
        let stream := received pkt tcptuple old in
        if too_large old stream then Ret (Some (set2 priv dir None), st)
        else
          let! '(e, st) := parse_loop (pk_Ts pkt) tcptuple dir stream other st in
          Ret (match e with
               | Keep s other => Some (set2 (set2 priv dir (Some s)) (1 - dir) other)
               | Drop other => Some (set2 (set2 priv dir None) (1 - dir) other)
               | Recovered => None
               end, st)
  | _, _ => Ret (None, st)
  end.

Definition ReceivedFin (tcptuple : TcpTuple) (dir : Z) (private : option thriftPrivateData) (thrift : Thrift)
    : option thriftPrivateData * Thrift :=
  match pending thrift (TcpHashable tcptuple) with
  | Some trans =>
      match t_Request trans, t_Reply trans with
      | Some _, None =>
          (private, thrift <| PublishQueue := PublishQueue thrift ++ [trans] |>
                           <| transMap := delete (TcpHashable (t_tuple trans)) (transMap thrift) |>
                           <| timers := stop_timer (t_ptr trans) (timers thrift) |>)
      | _, _ => (private, thrift)
      end
  | None => (private, thrift)
  end.

Definition GapInStream (tcptuple : TcpTuple) (dir : Z) (private : option thriftPrivateData)
    : option thriftPrivateData := private.

End Procs.

(** * Termination *)

(** A reading within the data: at least one byte, at most all of it. *)
Definition reading_ok (data : bytes) (o : outcome reading) : Prop :=
  match o with
  | Ret (_, true, true, off) => 1 <= off <= len data
  | Ret _ => True
  | Panic => True
  | OutOfFuel => False
  end.

Lemma reading_bind {A} data (o : outcome A) (k : A -> outcome reading) :
  o <> OutOfFuel -> (forall a, o = Ret a -> reading_ok data (k a)) -> reading_ok data (obind o k).
Proof. intros Hn Hk. destruct o; [by apply Hk|done|done]. Qed.

Lemma thrift_Ntohs_fuel b : Bytes_Ntohs b <> OutOfFuel.
Proof. unfold Bytes_Ntohs. pose proof (at_not_fuel b 0). pose proof (at_not_fuel b 1). by destruct (at_ b 0), (at_ b 1). Qed.
Lemma thrift_Ntohl_fuel b : Bytes_Ntohl b <> OutOfFuel.
Proof.
  unfold Bytes_Ntohl. pose proof (at_not_fuel b 0). pose proof (at_not_fuel b 1).
  pose proof (at_not_fuel b 2). pose proof (at_not_fuel b 3). by destruct (at_ b 0), (at_ b 1), (at_ b 2), (at_ b 3).
Qed.
Lemma thrift_Ntohll_fuel b : Bytes_Ntohll b <> OutOfFuel.
Proof.
  unfold Bytes_Ntohll. pose proof (thrift_Ntohl_fuel b). pose proof (at_not_fuel b 4). pose proof (at_not_fuel b 5).
  pose proof (at_not_fuel b 6). pose proof (at_not_fuel b 7).
  by destruct (Bytes_Ntohl b), (at_ b 4), (at_ b 5), (at_ b 6), (at_ b 7).
Qed.
#[local] Hint Resolve thrift_Ntohs_fuel thrift_Ntohl_fuel thrift_Ntohll_fuel : go.

Section ReadersOk.
Context {PT : PrintTable} {FT : FloatText} (thrift : Thrift).

Lemma readString_ok data : reading_ok data (readString thrift data).
Proof.
  unfold readString. case_decide; [done|]. apply reading_bind; [auto with go|]. intros b _.
  apply reading_bind; [auto with go|]. intros sz E. apply Bytes_Ntohl_range in E.
  case_decide; [done|]. rewrite str_from_ok by lia. cbn [obind].
  rewrite len_drop by lia. case_decide; [done|]. apply reading_bind.
  - case_decide; [|auto with go]. pose proof (str_slice_not_fuel data 4 (4 + StringMaxSize thrift)).
    by destruct (str_slice _ _ _).
  - intros v _. cbn. lia.
Qed.

Lemma readAndQuoteString_ok data : reading_ok data (readAndQuoteString thrift data).
Proof.
  unfold readAndQuoteString. pose proof (readString_ok data) as H.
  by destruct (readString thrift data) as [[[[v []] []] off]| |].
Qed.

(** The readers of fixed-size values. *)
Lemma fixed_ok {A} data n (o : outcome A) (f : A -> bytes) :
  0 < n -> o <> OutOfFuel ->
  reading_ok data (if decide (len data < n) then Ret not_complete else let! x := o in Ret (read_all (f x) n)).
Proof. intros Hn Ho. case_decide; [done|]. destruct o; cbn; [lia|done|done]. Qed.

Lemma slice_fuel {A} data lo hi (k : bytes -> outcome A) :
  (forall b, k b <> OutOfFuel) -> (let! b := str_slice data lo hi in k b) <> OutOfFuel.
Proof. intros H. pose proof (str_slice_not_fuel data lo hi). destruct (str_slice _ _ _); cbn; auto. Qed.

Lemma simple_ok data :
  reading_ok data (readBool data) /\ reading_ok data (readByte data) /\ reading_ok data (readDouble data) /\
  reading_ok data (readI16 data) /\ reading_ok data (readI32 data) /\ reading_ok data (readI64 data).
Proof.
  assert (forall A n lo hi (g : bytes -> outcome A) (f : A -> bytes), 0 < n -> (forall b, g b <> OutOfFuel) ->
    reading_ok data (if decide (len data < n) then Ret not_complete
      else let! b := str_slice data lo hi in let! x := g b in Ret (read_all (f x) n))) as Hs.
  { intros A n lo hi g f Hn Hg. pose proof (fixed_ok data n (let! b := str_slice data lo hi in g b) f Hn
      (slice_fuel data lo hi g Hg)) as H. case_decide; [done|]. by destruct (str_slice _ _ _). }
  repeat split.
  - by apply (fixed_ok data 1 (at_ data 0) (fun b => if decide (u8 b = 0) then bs "false" else bs "true")); auto with go.
  - by apply (fixed_ok data 1 (at_ data 0) (fun b => Itoa (u8 b))); auto with go.
  - apply Hs; auto with go; lia.
  - apply (Hs _ _ _ _ _ Itoa); auto with go; lia.
  - apply (Hs _ _ _ _ _ Itoa); auto with go; lia.
  - apply (Hs _ _ _ _ _ (fun x => Itoa (int64_of x))); auto with go; lia.
Qed.

(** A loop that moves an offset forward within the data. *)
Lemma reading_loop {S} (step : S -> outcome (S + reading)) (pos : S -> Z) lo data s :
  0 <= lo ->
  (forall t, lo <= pos t <= len data ->
     match step t with
     | Ret (inl t') => pos t < pos t' <= len data
     | Ret (inr r) => reading_ok data (Ret r)
     | Panic => True
     | OutOfFuel => False
     end) ->
  lo <= pos s <= len data -> reading_ok data (loop step (Datatypes.S (Datatypes.S (length data))) s).
Proof.
  intros Hlo Hstep Hs.
  assert (loop step (Datatypes.S (Datatypes.S (length data))) s <> OutOfFuel) as Hf.
  { apply (loop_fuel _ (fun t => lo <= pos t <= len data) (fun t => Z.to_nat (len data - pos t))); [| |done|unfold len; lia].
    - intros t Ht E. specialize (Hstep t Ht). by rewrite E in Hstep.
    - intros t t' Ht E. specialize (Hstep t Ht). rewrite E in Hstep. lia. }
  destruct (loop _ _ _) as [r| |] eqn:E; [|done..].
  apply (loop_inv step (fun t => lo <= pos t <= len data) (fun r => reading_ok data (Ret r))) in E; [done|..|done].
  - intros t t' Ht Et. specialize (Hstep t Ht). rewrite Et in Hstep. lia.
  - intros t r' Ht Et. specialize (Hstep t Ht). by rewrite Et in Hstep.
Qed.

(** The readers of what is inside [data]. *)
Definition inner_ok (data : bytes) (rd : Z -> option ThriftFieldReader) : Prop :=
  forall ty r rest, rd ty = Some r -> len rest < len data -> reading_ok rest (r rest).

(** One value read at an offset. *)
Lemma inner_read data rd ty r off :
  inner_ok data rd -> rd ty = Some r -> 0 < off <= len data ->
  exists rest, str_from data off = Ret rest /\
    match r rest with
    | Ret (_, true, true, n) => 1 <= n <= len data - off
    | OutOfFuel => False
    | _ => True
    end.
Proof.
  intros Hi Er Ho. rewrite str_from_ok by lia. eexists. split; [reflexivity|].
  pose proof (len_drop data off ltac:(lia)) as Hl. specialize (Hi ty r _ Er ltac:(rewrite Hl; lia)).
  destruct (r _) as [[[[v []] []] n]| |]; try done. cbn in Hi. lia.
Qed.

Lemma readListOrSet_ok data rd : inner_ok data rd -> reading_ok data (readListOrSet thrift rd data).
Proof.
  intros Hi. unfold readListOrSet. case_decide; [done|]. apply reading_bind; [auto with go|]. intros ty _.
  destruct (rd (u8 ty)) as [r|] eqn:Er; [|done]. apply reading_bind; [auto with go|]. intros b _.
  apply reading_bind; [auto with go|]. intros sz _. case_decide; [done|].
  apply (reading_loop _ (fun x => snd (fst x)) 5); [lia| |cbn; lia].
  intros [[i off] fields] Ho. cbn in Ho. unfold list_step. case_decide; [|cbn; lia].
  destruct (inner_read data rd (u8 ty) r off Hi Er ltac:(lia)) as (rest & -> & H'). cbn [obind].
  destruct (r rest) as [[[[v []] []] n]| |]; try done. cbn in *. lia.
Qed.

Lemma bracket_ok data l r o : reading_ok data o -> reading_ok data (let! x := o in Ret (bracket l r x)).
Proof. destruct o as [[[[v []] []] n]| |]; done. Qed.

Lemma readMap_ok data rd : inner_ok data rd -> reading_ok data (readMap thrift rd data).
Proof.
  intros Hi. unfold readMap. case_decide; [done|]. apply reading_bind; [auto with go|]. intros tk _.
  apply reading_bind; [auto with go|]. intros tv _.
  destruct (rd (u8 tk)) as [rk|] eqn:Ek; [|done]. destruct (rd (u8 tv)) as [rv|] eqn:Ev; [|done].
  apply reading_bind; [auto with go|]. intros b _.
  apply reading_bind; [auto with go|]. intros sz _. case_decide; [done|].
  apply (reading_loop _ (fun x => snd (fst x)) 6); [lia| |cbn; lia].
  intros [[i off] fields] Ho. cbn in Ho. unfold map_step. case_decide; [|cbn; lia].
  destruct (inner_read data rd _ rk off Hi Ek ltac:(lia)) as (rest & -> & H'). cbn [obind].
  destruct (rk rest) as [[[[v []] []] n]| |]; try done. cbn [obind negb].
  destruct (inner_read data rd _ rv (off + n) Hi Ev ltac:(lia)) as (rest2 & -> & H2). cbn [obind].
  destruct (rv rest2) as [[[[v2 []] []] n2]| |]; try done. cbn in *. lia.
Qed.

Lemma readStruct_ok data rd : inner_ok data rd -> reading_ok data (readStruct thrift rd data).
Proof.
  intros Hi. unfold readStruct.
  apply (reading_loop _ (fun x => snd (fst x)) 0); [lia| |cbn; pose proof (len_nonneg data); lia].
  intros [[i off] fields] Ho. cbn in Ho. unfold struct_step. case_decide; [done|]. case_decide; [done|].
  destruct (decide (off < len data)) as [Hl|]; [|rewrite at_panic by lia; done].
  destruct (at_ok data off) as (ty & -> & _); [lia|]. cbn [obind]. case_decide; [cbn; lia|].
  rewrite str_from_ok by lia. cbn [obind]. rewrite len_drop by lia. case_decide; [done|].
  unfold str_slice at 1. rewrite decide_True by lia. cbn [obind].
  destruct (Bytes_Ntohs _) as [id| |] eqn:En; [|done|by apply thrift_Ntohs_fuel in En]. cbn [obind].
  destruct (rd (u8 ty)) as [r|] eqn:Er; [|done].
  destruct (inner_read data rd _ r (off + 1 + 2) Hi Er ltac:(lia)) as (rest & -> & H'). cbn [obind].
  destruct (r rest) as [[[[v []] []] n]| |]; try done. cbn in *. lia.
Qed.

Lemma readers_ok levels data ty r :
  (length data <= levels)%nat -> funcReadersByType thrift levels ty = Some r -> reading_ok data (r data).
Proof.
  revert data ty r. induction levels as [|n IH]; intros data ty r Hl.
  all: cbn [funcReadersByType];
    match goal with |- context [readList _ ?i] => set (inner := i) end;
    assert (inner_ok data inner) as Hi by (intros ty' r' rest E Hr; unfold len in Hr; first [lia|eapply IH; [lia|exact E]]);
    repeat case_decide; intros E; try discriminate E; injection E as <-;
    first [apply simple_ok|apply readAndQuoteString_ok|by apply bracket_ok, readListOrSet_ok|by apply readMap_ok|by apply readStruct_ok].
Qed.
End ReadersOk.

Section ParserOk.
Context {PT : PrintTable} {FT : FloatText} (thrift : Thrift).

(** A stream whose offset lies in its data. *)
Definition offset_ok (s : ThriftStream) : Prop := 0 <= s_parseOffset s <= len (s_data s).

(** [s'] is [s] moved on within its data. *)
Definition advanced (s s' : ThriftStream) : Prop :=
  offset_ok s' /\ s_data s' = s_data s /\ s_parseState s' = s_parseState s /\ s_parseOffset s < s_parseOffset s'.

Definition begin_ok (s : ThriftStream) (o : outcome (ThriftStream * ThriftMessage * (bool * bool))) : Prop :=
  match o with
  | Ret (s', _, (true, true)) => advanced s s'
  | Ret (s', _, _) => s' = s
  | Panic => True
  | OutOfFuel => False
  end.

Lemma begin_bind {A} s (o : outcome A) k :
  o <> OutOfFuel -> (forall a, o = Ret a -> begin_ok s (k a)) -> begin_ok s (obind o k).
Proof. intros Hn Hk. destruct o; [by apply Hk|done|done]. Qed.

(** A string read at an offset of the stream. *)
Lemma string_at s off :
  0 <= off <= len (s_data s) ->
  exists rest, str_from (s_data s) off = Ret rest /\ len rest = len (s_data s) - off /\
    match readString thrift rest with
    | Ret (_, true, true, n) => 1 <= n <= len (s_data s) - off
    | OutOfFuel => False
    | _ => True
    end.
Proof.
  intros Ho. rewrite str_from_ok by lia. eexists. split; [reflexivity|]. rewrite len_drop by lia. split; [done|].
  pose proof (readString_ok thrift (drop (Z.to_nat off) (s_data s))) as H.
  destruct (readString _ _) as [[[[v []] []] n]| |]; try done. cbn in H. rewrite len_drop in H by lia. lia.
Qed.

Lemma readMessageBegin_ok s m : offset_ok s -> begin_ok s (readMessageBegin thrift s m).
Proof.
  intros Ho. unfold offset_ok in Ho. unfold readMessageBegin. rewrite str_from_ok by lia. cbn [obind].
  rewrite len_drop by lia. case_decide as H9; [done|].
  apply begin_bind; [auto with go|]. intros b _. apply begin_bind; [auto with go|]. intros sz _.
  cbv zeta. case_decide.
  - destruct (string_at s (s_parseOffset s + 4)) as (rest & -> & Hl & Hr); [lia|]. cbn [obind].
    destruct (readString thrift rest) as [[[[v []] []] n]| |]; try done. cbn [obind negb].
    rewrite str_from_ok by lia. cbn [obind]. rewrite len_drop by lia. case_decide; [done|].
    apply begin_bind; [auto with go|]. intros b2 _. apply begin_bind; [auto with go|]. intros seq _.
    unfold begin_ok, advanced, offset_ok. cbn. repeat split; lia.
  - destruct (string_at s (s_parseOffset s)) as (rest & E & Hl & Hr); [lia|].
    rewrite str_from_ok in E by lia. injection E as E. rewrite E. cbn [obind].
    destruct (readString thrift rest) as [[[[v []] []] n]| |]; try done. cbn [obind negb].
    rewrite str_from_ok by lia. cbn [obind]. rewrite len_drop by lia. case_decide; [done|].
    apply begin_bind; [auto with go|]. intros t _.
    apply begin_bind; [auto with go|]. intros b2 _. apply begin_bind; [auto with go|]. intros seq _.
    unfold begin_ok, advanced, offset_ok. cbn. repeat split; lia.
Qed.

Lemma readField_ok s :
  0 <= s_parseOffset s < len (s_data s) ->
  match readField thrift s with
  | Ret (s', (ok, complete, field)) =>
      if complete || bool_decide (is_Some field) then ok = true /\ advanced s s' else s' = s
  | Panic => True
  | OutOfFuel => False
  end.
Proof.
  intros Ho. unfold readField. case_decide; [done|].
  destruct (at_ok (s_data s) (s_parseOffset s)) as (ty & -> & _); [lia|]. cbn [obind].
  case_decide; [cbn; unfold advanced, offset_ok; cbn; repeat split; lia|].
  rewrite str_from_ok by lia. cbn [obind]. rewrite len_drop by lia. case_decide; [done|].
  unfold str_slice at 1. rewrite decide_True by lia. cbn [obind].
  destruct (Bytes_Ntohs _) as [id| |] eqn:En; [|done|by apply thrift_Ntohs_fuel in En]. cbn [obind].
  destruct (funcReadersByType _ _ _) as [r|] eqn:Er; [|done].
  rewrite str_from_ok by lia. cbn [obind]. set (rest := drop _ _).
  assert (len rest = len (s_data s) - (s_parseOffset s + 1 + 2)) as Hl by (subst rest; rewrite len_drop; lia).
  pose proof (readers_ok thrift (length (s_data s)) rest (u8 ty) r ltac:(subst rest; rewrite length_drop; lia) Er) as Hr.
  destruct (r rest) as [[[[v []] []] n]| |]; try done. cbn in Hr. cbn. unfold advanced, offset_ok. cbn. repeat split; lia.
Qed.

(** What a turn may do. *)
Definition turn_ok (s : ThriftStream) (t : turn) : Prop :=
  match t with
  | Ret (inl (s', _)) =>
      offset_ok s' /\ s_data s' = s_data s /\ s_parseState s' = ThriftFieldState /\
      (s_parseState s = ThriftFieldState -> s_parseOffset s < s_parseOffset s')
  | Ret (inr (s', _, (ok, complete))) =>
      offset_ok s' /\ s_data s' = s_data s /\ (complete = true -> ok = true /\ 0 < s_parseOffset s')
  | Panic => True
  | OutOfFuel => False
  end.

Lemma thrift_step_ok s m : offset_ok s -> turn_ok s (parser_step thrift (s, m)).
Proof.
  intros Ho. unfold offset_ok in Ho. unfold parser_step.
  case_decide as Hl; [|split; [done|split; done]].
  destruct (s_parseState s) eqn:Es.
  - unfold start_state. cbv zeta. set (m1 := m <| m_start := _ |>).
    assert (forall s1 m2, offset_ok s1 -> s_data s1 = s_data s ->
      turn_ok s (let! '(s, m, (ok, complete)) := readMessageBegin thrift s1 m2 in
        if negb ok then Ret (inr (s, m, (false, false)))
        else if negb complete then Ret (inr (s, m, (true, false)))
        else if negb (m_IsRequest m) && negb (CaptureReply thrift) then
          Ret (inr (s, m <| m_ReturnValue := [] |> <| m_Exceptions := [] |>, (true, true)))
        else Ret (inl (s <| s_parseState := ThriftFieldState |>, m)))) as Hb.
    { intros s1 m2 Ho1 Hd. pose proof (readMessageBegin_ok s1 m2 Ho1) as H.
      destruct (readMessageBegin thrift s1 m2) as [[[s2 m3] [[] []]]| |]; cbn [obind negb]; try done; cbn in H;
        try (subst s2; split; [done|split; [done|done]]).
      destruct H as (H1 & H2 & H3 & H4). unfold offset_ok in Ho1.
      destruct (negb (m_IsRequest m3) && negb (CaptureReply thrift)).
      - split; [done|]. split; [congruence|]. intros _. split; [done|lia].
      - split; [exact H1|]. split; [cbn; congruence|]. split; [done|]. intros E. congruence. }
    case_decide; [|by apply Hb]. case_decide as H4; [split; [done|split; done]|].
    unfold str_slice at 1. rewrite decide_True by lia. cbn [obind].
    destruct (Bytes_Ntohl _) as [size| |] eqn:En; [|done|by apply thrift_Ntohl_fuel in En]. cbn [obind].
    apply Hb; [unfold offset_ok; cbn; lia|done].
  - unfold field_state. pose proof (readField_ok s ltac:(lia)) as H.
    destruct (readField thrift s) as [[s2 [[ok c] field]]| |]; cbn [obind]; try done.
    destruct c; cbn [orb] in H.
    + destruct H as [-> (H1 & H2 & H3 & H4)]. cbn [negb]. split; [done|]. split; [done|]. intros _. split; [done|lia].
    + destruct field as [f|]; cbn in H.
      * destruct H as [-> (H1 & H2 & H3 & H4)]. cbn [negb]. split; [done|]. split; [done|]. split; [congruence|]. by intros.
      * subst s2. destruct ok; cbn [negb]; (split; [done|split; done]).
Qed.

Lemma thrift_parser_ok s m :
  s_message s = Some m -> offset_ok s ->
  match messageParser thrift s with
  | Ret (s', (ok, complete)) =>
      offset_ok s' /\ s_data s' = s_data s /\ is_Some (s_message s') /\ (complete = true -> ok = true /\ 0 < s_parseOffset s')
  | Panic => True
  | OutOfFuel => False
  end.
Proof.
  intros Em Ho. unfold messageParser. rewrite Em.
  set (Inv := fun x : ThriftStream * ThriftMessage => offset_ok (fst x) /\ s_data (fst x) = s_data s).
  assert (loop (parser_step thrift) (S (S (length (s_data s)))) (s, m) <> OutOfFuel) as Hf.
  { apply (loop_fuel _ Inv (fun x => match s_parseState (fst x) with
      | ThriftStartState => S (length (s_data s))
      | ThriftFieldState => Z.to_nat (len (s_data s) - s_parseOffset (fst x)) end)); [| |done|].
    - intros [t n] [Ht _] E. pose proof (thrift_step_ok t n Ht) as H. by rewrite E in H.
    - intros [t n] [t' n'] [Ht Hd] E. pose proof (thrift_step_ok t n Ht) as H. rewrite E in H.
      destruct H as (H1 & H2 & H3 & H4). cbn [fst] in *. split; [split; [done|cbn; congruence]|]. rewrite H3.
      unfold offset_ok in *. rewrite H2, Hd in *. unfold len in *. destruct (s_parseState t); [lia|]. specialize (H4 eq_refl). lia.
    - unfold offset_ok in Ho. cbn. unfold len in *. destruct (s_parseState s); lia. }
  destruct (loop _ _ _) as [[[s' m'] [ok c]]| |] eqn:E; cbn [obind]; [|done..].
  apply (loop_inv _ Inv (fun y => turn_ok s (Ret (inr y)))) in E; [|..|done].
  - destruct E as (H1 & H2 & H3). split; [done|]. split; [done|]. split; [by eexists|done].
  - intros [t n] [t' n'] [H1 H2] Es. pose proof (thrift_step_ok t n H1) as H. rewrite Es in H.
    destruct H as (H3 & H4 & _). split; [done|cbn in *; congruence].
  - intros [t n] [[t' n'] [ok' c']] [H1 H2] Es. pose proof (thrift_step_ok t n H1) as H. rewrite Es in H.
    cbn in H2. unfold turn_ok in *. by rewrite <- H2.
Qed.
End ParserOk.

Section Total.
Context {PT : PrintTable} {FT : FloatText} {W : Type} {PW : ProcWatcher W}.

Definition priv_ok (private : option thriftPrivateData) : Prop :=
  forall dir s, get2 (default nil2 private) dir = Ret (Some s) -> offset_ok s.
Definition other_ok (other : option ThriftStream) : Prop := forall s, other = Some s -> offset_ok s.

Lemma thrift_complete_ok tcptuple dir m s other (st : Thrift * W) :
  offset_ok s -> 0 < s_parseOffset s -> other_ok other ->
  match complete_message tcptuple dir m (s, other, st) with
  | Ret (inl (s', other', _)) =>
      offset_ok s' /\ other_ok other' /\ s_message s' = None /\ (length (s_data s') < length (s_data s))%nat
  | Ret (inr (Recovered, _)) => True
  | _ => False
  end.
Proof.
  intros Ho Hp Hx. destruct st as [thrift w]. unfold complete_message.
  set (x := if m_IsRequest m then _ else _).
  assert (exists s1 o1 fl, x = (s1, o1, fl) /\ s_data s1 = s_data s /\ s_parseOffset s1 = s_parseOffset s /\ other_ok o1)
    as (s1 & o1 & fl & -> & Hd & Hoff & Ho1).
  { subst x. destruct (m_IsRequest m), (CaptureReply thrift); eexists _, _, _; (split; [reflexivity|]); do 2 (split; [done|]); try done.
    destruct other as [o|]; [|done]. intros t [= <-]. exact (Hx _ eq_refl). }
  destruct (FindProcessesTuple _ w) as [c w']. destruct (handleThrift _ _ _ _); [|done|].
  2: { done. }
  unfold PrepareForNewMessage. unfold offset_ok in Ho. destruct fl; cbn [obind].
  - split; [unfold offset_ok; cbn; done|]. split; [done|]. split; [done|]. cbn. unfold len in Ho. lia.
  - rewrite Hoff, Hd, str_from_ok by lia. cbn [obind]. unfold offset_ok. cbn. rewrite length_drop.
    pose proof (len_nonneg (drop (Z.to_nat (s_parseOffset s)) (s_data s))). unfold len in *.
    split; [lia|]. do 2 (split; [done|]). lia.
Qed.

Lemma thrift_loop_ok n ts tcptuple dir s other (st : Thrift * W) :
  offset_ok s -> other_ok other -> (length (s_data s) < n)%nat ->
  match loop (parse_step ts tcptuple dir) n (s, other, st) with
  | Ret (Keep s' other', _) => offset_ok s' /\ other_ok other'
  | Ret (Drop other', _) => other_ok other'
  | Ret (Recovered, _) => True
  | _ => False
  end.
Proof.
  revert s other st. induction n as [|n IH]; intros s other st Hs Ho Hn; [lia|]. rewrite loop_S. unfold parse_step.
  case_decide; [|done]. cbv zeta. set (s1 := match s_message s with Some _ => s | None => _ end).
  assert (exists m, s_message s1 = Some m /\ offset_ok s1 /\ s_data s1 = s_data s) as (m & Em & Hs1 & Hd).
  { subst s1. destruct (s_message s) as [m|] eqn:E; [by exists m|]. by eexists. }
  pose proof (thrift_parser_ok (fst st) s1 m Em Hs1) as H'.
  destruct (messageParser (fst st) s1) as [[s2 [ok c]]| |]; [|done..].
  destruct H' as (H1 & H2 & (m2 & E2) & H4). destruct ok; cbn [negb]; [|done].
  destruct c; [|done]. rewrite E2. destruct (H4 eq_refl) as [_ H5].
  pose proof (thrift_complete_ok tcptuple dir m2 s2 other st H1 H5 Ho) as H6.
  destruct (complete_message _ _ _ _) as [[[[s3 o3] st3]|[[] st3]]| |]; try done.
  destruct H6 as (H7 & H8 & _ & H9). apply IH; [done..|]. rewrite H2, Hd in H9. lia.
Qed.

Lemma thrift_priv_set2 priv dir o : priv_ok (Some priv) -> other_ok o -> priv_ok (Some (set2 priv dir o)).
Proof.
  intros Hp Ho d s. pose proof (Hp 0 s) as H0. pose proof (Hp 1 s) as H1. cbn in *. unfold set2, get2 in *.
  repeat case_decide; try lia; cbn; intros E; first [by apply Ho; injection E|by apply H0|by apply H1].
Qed.

(** C19: [Parse] on any packet gives a result: the values nested in a message, the fields of a
    struct and the messages of a packet are all read in a bounded number of steps,
    and what is kept for the next packet has its offset within its data. *)
Theorem thrift_Parse_total pkt tcptuple dir private (st : Thrift * W) :
  priv_ok private ->
  exists private' st', Parse pkt tcptuple dir private st = Ret (private', st') /\ priv_ok private'.
Proof.
  intros Hp. unfold Parse. assert (priv_ok (Some (default nil2 private))) as Hp' by exact Hp.
  assert (priv_ok None) as Hnone by (intros d s; cbn; unfold get2; by repeat case_decide).
  destruct (get2 (default nil2 private) dir) as [old| |] eqn:Eo; [|by eexists _, _..].
  destruct (get2 (default nil2 private) (1 - dir)) as [other| |] eqn:Ex; [|by eexists _, _..].
  assert (other_ok old) as Hold by (intros s ->; by apply (Hp dir)).
  assert (other_ok other) as Hoth by (intros s ->; by apply (Hp (1 - dir))).
  assert (other_ok None) as Hn by (by intros s).
  destruct (suspended old); [by eexists _, _|].
  destruct (too_large _ _); [eexists _, _; split; [reflexivity|by apply thrift_priv_set2]|].
  unfold parse_loop. set (s := received pkt tcptuple old).
  assert (offset_ok s) as Hs.
  { subst s. destruct old as [s|]; unfold offset_ok; cbn; [|pose proof (len_nonneg (vis (pk_Payload pkt))); lia].
    specialize (Hold s eq_refl). unfold offset_ok in Hold. rewrite len_app. pose proof (len_nonneg (vis (pk_Payload pkt))). lia. }
  pose proof (thrift_loop_ok (S (length (s_data s))) (pk_Ts pkt) tcptuple dir s other st Hs Hoth ltac:(lia)) as H.
  destruct (loop _ _ _) as [[e st']| |]; [|done..]. cbn [obind]. eexists _, _. split; [reflexivity|].
  destruct e as [s' o'|o'|]; [..|done]; repeat apply thrift_priv_set2; try done; try apply H.
  intros ? [=]; subst; apply (proj1 H).
Qed.
End Total.
