(* ===== verification/ThriftValues.v ===== *)
(** Thrift values and messages: what the sender encodes in the binary protocol is what
    the readers turn into text, at every depth of nesting. *)
From S2P Require Import Thrift.

(** * Values and their encoding *)

Inductive tvalue :=
| VBool (b : bool)
| VByte (z : Z)
| VDouble (bits : Z)
| VI16 (z : Z)
| VI32 (z : Z)
| VI64 (z : Z)
| VString (s : bytes)
| VStruct (fields : list (Z * tvalue))
| VMap (kt vt : Z) (entries : list (tvalue * tvalue))
| VSet (ty : Z) (vs : list tvalue)
| VList (ty : Z) (vs : list tvalue).

Definition type_of (v : tvalue) : Z :=
  match v with
  | VBool _ => ThriftTypeBool | VByte _ => ThriftTypeByte | VDouble _ => ThriftTypeDouble
  | VI16 _ => ThriftTypeI16 | VI32 _ => ThriftTypeI32 | VI64 _ => ThriftTypeI64
  | VString _ => ThriftTypeString | VStruct _ => ThriftTypeStruct | VMap _ _ _ => ThriftTypeMap
  | VSet _ _ => ThriftTypeSet | VList _ _ => ThriftTypeList
  end.

Fixpoint encode (v : tvalue) : bytes :=
  match v with
  | VBool b => [if b then x01 else x00]
  | VByte z => [to_byte z]
  | VDouble bits => be64 bits
  | VI16 z => be16 z
  | VI32 z => be32 z
  | VI64 z => be64 z
  | VString s => be32 (len s) ++ s
  | VStruct fields =>
      concat (map (fun x => to_byte (type_of (snd x)) :: be16 (fst x) ++ encode (snd x)) fields) ++ [x00]
  | VMap kt vt entries =>
      to_byte kt :: to_byte vt :: be32 (len entries) ++ concat (map (fun x => encode (fst x) ++ encode (snd x)) entries)
  | VSet ty vs => to_byte ty :: be32 (len vs) ++ concat (map encode vs)
  | VList ty vs => to_byte ty :: be32 (len vs) ++ concat (map encode vs)
  end.

Fixpoint depth (v : tvalue) : nat :=
  match v with
  | VStruct fields => S (list_max (map (fun x => depth (snd x)) fields))
  | VMap _ _ entries => S (list_max (map (fun x => Nat.max (depth (fst x)) (depth (snd x))) entries))
  | VSet _ vs => S (list_max (map depth vs))
  | VList _ vs => S (list_max (map depth vs))
  | _ => 0%nat
  end.

Definition known_type (ty : Z) : bool := existsb (Z.eqb ty) [2; 3; 4; 6; 8; 10; 11; 12; 13; 14; 15].

Section Values.
Context {PT : PrintTable} {FT : FloatText} (thrift : Thrift).

(** A value that fits the format: its integers in range, its collections of one type,
    its structs below the limit. *)
Fixpoint wf (v : tvalue) : bool :=
  match v with
  | VBool _ => true
  | VByte z => bool_decide (- 2 ^ 7 <= z < 2 ^ 7)
  | VDouble bits => bool_decide (0 <= bits < 2 ^ 64)
  | VI16 z => bool_decide (- 2 ^ 15 <= z < 2 ^ 15)
  | VI32 z => bool_decide (- 2 ^ 31 <= z < 2 ^ 31)
  | VI64 z => bool_decide (- 2 ^ 63 <= z < 2 ^ 63)
  | VString s => bool_decide (len s < 2 ^ 31)
  | VStruct fields =>
      forallb (fun x => bool_decide (0 <= fst x < 2 ^ 16) && wf (snd x)) fields &&
      bool_decide (len fields < DropAfterNStructFields thrift)
  | VMap kt vt entries =>
      known_type kt && known_type vt &&
      forallb (fun x => Z.eqb (type_of (fst x)) kt && wf (fst x) && Z.eqb (type_of (snd x)) vt && wf (snd x)) entries &&
      bool_decide (len entries < 2 ^ 32)
  | VSet ty vs | VList ty vs =>
      known_type ty && forallb (fun v => Z.eqb (type_of v) ty && wf v) vs && bool_decide (len vs < 2 ^ 32)
  end.

(** * The text of a value *)

Definition cut_string (s : bytes) : bytes :=
  if decide (len s > StringMaxSize thrift) then take (Z.to_nat (StringMaxSize thrift)) s ++ bs "..." else s.

(** A string in quotes: an empty one, a star in its place when strings are to be hidden, the
    Go literal of valid UTF-8, and the hexadecimal digits of anything else, without quotes. *)
Definition string_text (s : bytes) : bytes :=
  match s with
  | [] => [x22; x22]
  | _ :: _ =>
      if ObfuscateStrings thrift then x22 :: bs "*" ++ [x22]
      else if ValidString (cut_string s) then Quote (cut_string s)
      else EncodeToString (cut_string s)
  end.

(** The first texts of a collection, and an ellipsis when there are more. *)
Definition ellipsis (ts : list bytes) : list bytes :=
  if decide (len ts <= CollectionMaxSize thrift) then ts
  else take (Z.to_nat (CollectionMaxSize thrift)) ts ++ [bs "..."].

Definition in_brackets (l r : byte) (t : bytes) : bytes := if decide (t = []) then t else l :: t ++ [r].

(** Integers of up to 32 bits are printed as if they were unsigned. *)
Fixpoint text (v : tvalue) : bytes :=
  match v with
  | VBool b => if b then bs "true" else bs "false"
  | VByte z => Itoa (z mod 2 ^ 8)
  | VDouble bits => FormatFloat bits
  | VI16 z => Itoa (z mod 2 ^ 16)
  | VI32 z => Itoa (z mod 2 ^ 32)
  | VI64 z => Itoa z
  | VString s => string_text s
  | VStruct fields =>
      x28 :: Join (ellipsis (map (fun x => Itoa (fst x) ++ bs ": " ++ text (snd x)) fields)) (bs ", ") ++ [x29]
  | VMap _ _ entries =>
      x7b :: Join (ellipsis (map (fun x => text (fst x) ++ bs ": " ++ text (snd x)) entries)) (bs ", ") ++ [x7d]
  | VSet _ vs => in_brackets x7b x7d (Join (ellipsis (map text vs)) (bs ", "))
  | VList _ vs => in_brackets x5b x5d (Join (ellipsis (map text vs)) (bs ", "))
  end.

(** * Limits *)

(** What [collect] adds from index [i] on. *)
Fixpoint gather (i : Z) (ts : list bytes) : list bytes :=
  match ts with
  | [] => []
  | t :: ts => collect thrift i [] t ++ gather (i + 1) ts
  end.

Lemma collect_app i acc t : collect thrift i acc t = acc ++ collect thrift i [] t.
Proof. unfold collect. repeat case_decide; cbn; by rewrite ?app_nil_r. Qed.

Lemma gather_spec i ts :
  0 <= i -> gather i ts =
    if decide (i + len ts <= CollectionMaxSize thrift) then ts
    else if decide (i <= CollectionMaxSize thrift) then take (Z.to_nat (CollectionMaxSize thrift - i)) ts ++ [bs "..."]
    else [].
Proof.
  revert i. induction ts as [|t ts IH]; intros i Hi; cbn [gather].
  - rewrite len_nil. repeat case_decide; try done; lia.
  - rewrite IH, len_cons by lia. unfold collect. pose proof (len_nonneg ts). set (max := CollectionMaxSize thrift).
    destruct (decide (i < max)).
    + replace (Z.to_nat (max - i)) with (S (Z.to_nat (max - (i + 1)))) by lia. cbn [take app].
      repeat case_decide; try lia; done.
    + destruct (decide (i = max)) as [->|].
      * rewrite !decide_False by lia. rewrite Z.sub_diag. cbn. rewrite decide_True by lia. done.
      * rewrite !decide_False by lia. done.
Qed.

Lemma gather_ellipsis ts : 0 <= CollectionMaxSize thrift -> gather 0 ts = ellipsis ts.
Proof. intros H. rewrite gather_spec by lia. unfold ellipsis. rewrite Z.add_0_l, Z.sub_0_r. by rewrite (decide_True (P := 0 <= _)). Qed.

(** The name of a field in a struct's text. *)
Definition entry_text (resolve : bool) (names : list (option bytes)) (f : ThriftField) : bytes :=
  (match field_name resolve names (fd_Id f) with Some name => name | None => Itoa (fd_Id f) end) ++ bs ": " ++ fd_Value f.

Lemma struct_entries_gather i resolve names fields :
  i <= CollectionMaxSize thrift ->
  struct_entries thrift i resolve names fields = gather i (map (entry_text resolve names) fields).
Proof.
  revert i. induction fields as [|f fields IH]; intros i Hi; [done|]. cbn [struct_entries map gather].
  unfold collect. case_decide as E.
  - rewrite decide_False by lia. subst i. cbn [app].
    assert (forall j ts, CollectionMaxSize thrift < j -> gather j ts = []) as ->; [|done|lia].
    intros j ts. revert j. induction ts as [|t ts IHt]; intros j Hj; [done|]. cbn. unfold collect.
    rewrite !decide_False by lia. apply IHt. lia.
  - rewrite decide_True by lia. cbn [app]. f_equal. apply IH. lia.
Qed.

Lemma formatStruct_text resolve names fields :
  0 <= CollectionMaxSize thrift ->
  formatStruct thrift fields resolve names =
    x28 :: Join (ellipsis (map (entry_text resolve names) fields)) (bs ", ") ++ [x29].
Proof. intros H. unfold formatStruct. by rewrite struct_entries_gather, gather_ellipsis. Qed.

(** * Reading back *)

Definition reads (r : ThriftFieldReader) (enc t : bytes) : Prop :=
  forall rest, r (enc ++ rest) = Ret (read_all t (len enc)).

Lemma slice_at (pre b post : bytes) : str_slice (pre ++ b ++ post) (len pre) (len pre + len b) = Ret b.
Proof. apply str_slice_mid. Qed.

Lemma from_at (pre post : bytes) : str_from (pre ++ post) (len pre) = Ret post.
Proof. rewrite str_from_ok by len_lia. by rewrite drop_len_app. Qed.

Lemma slice_head b post n : len b = n -> str_slice (b ++ post) 0 n = Ret b.
Proof. intros <-. apply (str_slice_mid [] b post). Qed.

Lemma mod_be16 n : be16 (n mod 2 ^ 16) = be16 n.
Proof.
  unfold be16. f_equal; [|f_equal]; apply u8_inj; rewrite !u8_to_byte, ?Z.shiftr_div_pow2 by lia;
    Z.to_euclidean_division_equations; lia.
Qed.

Lemma Ntohs_be16 n s : Bytes_Ntohs (be16 n ++ s) = Ret (n mod 2 ^ 16).
Proof.
  unfold be16. cbn [app]. rewrite Bytes_Ntohs_val, !u8_to_byte, Z.shiftr_div_pow2 by lia. f_equal.
  Z.to_euclidean_division_equations. lia.
Qed.

Lemma Ntohll_be64 n s : Bytes_Ntohll (be64 n ++ s) = Ret (n mod 2 ^ 64).
Proof.
  assert (be64 n = be64 (n mod 2 ^ 64)) as ->; [|by rewrite Bytes_Ntohll_be64 by (apply Z.mod_pos_bound; lia)].
  unfold be64, be32.
  assert (forall a b, a mod 256 = b mod 256 -> to_byte a = to_byte b) as H
    by (intros a b E; apply u8_inj; by rewrite !u8_to_byte).
  cbn [app]. repeat (apply (f_equal2 cons); [apply H; rewrite ?Z.shiftr_shiftr, ?Z.shiftr_div_pow2 by lia;
    Z.to_euclidean_division_equations; lia|]). done.
Qed.

Lemma reads_simple v n (dec : bytes -> outcome Z) (fmt : Z -> bytes) (r : ThriftFieldReader) x b :
  0 < n -> encode v = b -> len b = n -> dec b = Ret x -> text v = fmt x ->
  (forall data, r data = if decide (len data < n) then Ret not_complete
     else let! b := str_slice data 0 n in let! x := dec b in Ret (read_all (fmt x) n)) ->
  reads r (encode v) (text v).
Proof.
  intros Hn Ee El Ed Et Er rest. pose proof (len_nonneg rest).
  rewrite Er, Ee, Et, decide_False by (rewrite len_app; lia).
  rewrite slice_head by done. cbn [obind]. rewrite Ed. cbn [obind]. by rewrite El.
Qed.

Lemma quoted_text s : 0 <= StringMaxSize thrift -> quoted thrift (cut_string s) = string_text s.
Proof.
  intros Hm. unfold quoted, string_text. destruct s as [|c s].
  - unfold cut_string. by rewrite (decide_False (P := len [] > _)) by (rewrite len_nil; lia).
  - rewrite decide_False; [done|]. unfold cut_string. case_decide; [|done]. by intros [_ [=]]%app_eq_nil.
Qed.

Lemma at_head c (post : bytes) : at_ (c :: post) 0 = Ret c.
Proof. done. Qed.

Lemma readString_encoded s rest :
  len s < 2 ^ 31 -> 0 <= StringMaxSize thrift ->
  readString thrift ((be32 (len s) ++ s) ++ rest) = Ret (read_all (cut_string s) (4 + len s)).
Proof.
  intros Hl Hmax. pose proof (len_nonneg s). pose proof (len_nonneg rest). rewrite <- app_assoc. unfold readString.
  rewrite decide_False by (rewrite !len_app; change (len (be32 (len s))) with 4; lia).
  rewrite slice_head by done. cbn [obind]. rewrite <- (app_nil_r (be32 (len s))) at 1.
  rewrite Bytes_Ntohl_be32, Z.mod_small by lia. cbn [obind].
  rewrite wrapS_small by (done || (change (32 - 1) with 31; lia)). rewrite decide_False by lia.
  change 4 with (len (be32 (len s))) at 1. rewrite from_at. cbn [obind].
  rewrite decide_False by (rewrite len_app; lia). unfold cut_string. case_decide as Hc.
  - pose proof (str_slice_mid (be32 (len s)) (take (Z.to_nat (StringMaxSize thrift)) s)
      (drop (Z.to_nat (StringMaxSize thrift)) s ++ rest)) as E.
    rewrite (app_assoc (take _ s)), take_drop in E. change (len (be32 (len s))) with 4 in E.
    assert (len (take (Z.to_nat (StringMaxSize thrift)) s) = StringMaxSize thrift) as El
      by (unfold len in *; rewrite length_take; lia).
    rewrite El in E. rewrite E. done.
  - change 4 with (len (be32 (len s))) at 1 2. by rewrite slice_at.
Qed.

(** A loop over items, whose state is a function of the items done. *)
Lemma loop_items {A S R} (step : S -> outcome (S + R)) (st : list A -> S) (all : list A) n :
  (forall before x after, all = before ++ x :: after -> step (st before) = Ret (inl (st (before ++ [x])))) ->
  (length all <= n)%nat -> loop step n (st []) = loop step (n - length all) (st all).
Proof.
  intros Hstep.
  assert (forall after before n, all = before ++ after -> (length after <= n)%nat ->
    loop step n (st before) = loop step (n - length after) (st all)) as H; [|by apply (H all [])].
  induction after as [|x after IH]; intros before n' E Hn.
  - rewrite app_nil_r in E. subst before. by rewrite Nat.sub_0_r.
  - destruct n' as [|n']; [cbn in Hn; lia|]. rewrite loop_S, (Hstep before x after E). cbn [length Nat.sub] in *.
    apply IH; [by rewrite <- app_assoc|lia].
Qed.

(** The same, when the loop ends after the last item. *)
Lemma loop_items_end {A S R} (step : S -> outcome (S + R)) (st : list A -> S) (all : list A) r n :
  (forall before x after, all = before ++ x :: after -> step (st before) = Ret (inl (st (before ++ [x])))) ->
  step (st all) = Ret (inr r) -> (length all < n)%nat -> loop step n (st []) = Ret r.
Proof.
  intros Hstep Hend Hn. rewrite (loop_items _ _ all) by (done || lia).
  replace (n - length all)%nat with (Datatypes.S (n - length all - 1)) by lia. by rewrite loop_S, Hend.
Qed.

Lemma gather_snoc i ts t : gather i (ts ++ [t]) = collect thrift (i + len ts) (gather i ts) t.
Proof.
  revert i. induction ts as [|u ts IH]; intros i; cbn [app gather].
  - rewrite app_nil_r. change (len []) with 0. by rewrite Z.add_0_r.
  - rewrite IH, len_cons, Z.add_assoc, (collect_app _ (gather (i + 1) ts)).
    rewrite (collect_app _ (collect thrift i [] u ++ _)). by rewrite app_assoc.
Qed.

Lemma concat_snoc {A} (f : A -> bytes) l x : concat (map f (l ++ [x])) = concat (map f l) ++ f x.
Proof. by rewrite map_app, concat_app; cbn; rewrite app_nil_r. Qed.

Lemma gather_map_snoc {A} (f : A -> bytes) l x :
  gather 0 (map f (l ++ [x])) = collect thrift (len l) (gather 0 (map f l)) (f x).
Proof. rewrite map_app. cbn [map]. by rewrite gather_snoc, len_map, Z.add_0_l. Qed.

(** The bytes of the items take at least one byte each. *)
Lemma items_length {A} (enc : A -> bytes) l :
  (forall x, In x l -> 1 <= len (enc x)) -> (length l <= length (concat (map enc l)))%nat.
Proof.
  induction l as [|x l IH]; intros H; [done|]. cbn. rewrite length_app.
  pose proof (H x (or_introl eq_refl)) as Hx. unfold len in Hx. specialize (IH (fun y Hy => H y (or_intror Hy))). lia.
Qed.

Lemma item_split {A} (enc : A -> bytes) pre all before x after post :
  all = before ++ x :: after ->
  pre ++ concat (map enc all) ++ post =
  (pre ++ concat (map enc before)) ++ enc x ++ concat (map enc after) ++ post.
Proof. intros ->. rewrite map_app, concat_app. cbn. by rewrite <- !app_assoc. Qed.

Lemma list_loop {A} (enc txt : A -> bytes) r pre l post :
  (forall x, In x l -> reads r (enc x) (txt x)) -> (forall x, In x l -> 1 <= len (enc x)) ->
  0 <= CollectionMaxSize thrift ->
  let data := pre ++ concat (map enc l) ++ post in
  loop (list_step thrift r data (len l)) (S (S (length data))) (0, len pre, []) =
    Ret (read_all (Join (ellipsis (map txt l)) (bs ", ")) (len (pre ++ concat (map enc l)))).
Proof.
  intros Hr Hl Hm data.
  set (st := fun before : list A => (len before, len (pre ++ concat (map enc before)), gather 0 (map txt before))).
  change (0, len pre, []) with (0, len pre, @nil bytes). replace (0, len pre, []) with (st []).
  2: { subst st. cbn. by rewrite app_nil_r. }
  apply (loop_items_end _ st l).
  - intros before x after E. subst st. unfold list_step. cbv beta.
    rewrite decide_True by (rewrite E, len_app, len_cons; pose proof (len_nonneg after); lia).
    subst data. rewrite (item_split enc pre l before x after post E), from_at. cbn [obind].
    rewrite (Hr x) by (rewrite E; apply in_elt). cbn [obind negb read_all].
    by rewrite gather_map_snoc, concat_snoc, app_assoc, (len_app _ (enc x)), (len_app before).
  - subst st. unfold list_step. cbv beta. rewrite decide_False by lia. by rewrite gather_ellipsis.
  - pose proof (items_length enc l Hl). subst data. rewrite !length_app. lia.
Qed.

Lemma map_loop {A} (enck txtk encv txtv : A -> bytes) rk rv pre l post :
  (forall x, In x l -> reads rk (enck x) (txtk x)) -> (forall x, In x l -> reads rv (encv x) (txtv x)) ->
  (forall x, In x l -> 1 <= len (enck x)) -> 0 <= CollectionMaxSize thrift ->
  let enc := fun x => enck x ++ encv x in
  let data := pre ++ concat (map enc l) ++ post in
  loop (map_step thrift rk rv data (len l)) (S (S (length data))) (0, len pre, []) =
    Ret (read_all (x7b :: Join (ellipsis (map (fun x => txtk x ++ bs ": " ++ txtv x) l)) (bs ", ") ++ [x7d])
      (len (pre ++ concat (map enc l)))).
Proof.
  intros Hk Hv Hl Hm enc data. set (txt := fun x => txtk x ++ bs ": " ++ txtv x).
  set (st := fun before : list A => (len before, len (pre ++ concat (map enc before)), gather 0 (map txt before))).
  replace (0, len pre, []) with (st []); [|subst st; cbn; by rewrite app_nil_r].
  apply (loop_items_end _ st l).
  - intros before x after E. subst st. unfold map_step. cbv beta.
    rewrite decide_True by (rewrite E, len_app, len_cons; pose proof (len_nonneg after); lia).
    subst data. rewrite (item_split enc pre l before x after post E), from_at. cbn [obind].
    change (enc x) with (enck x ++ encv x). rewrite <- (app_assoc (enck x)).
    rewrite (Hk x) by (rewrite E; apply in_elt). cbn [obind negb read_all]. cbv zeta.
    rewrite <- len_app, (app_assoc _ (enck x)), from_at. cbn [obind].
    rewrite (Hv x) by (rewrite E; apply in_elt). cbn [obind negb read_all].
    rewrite gather_map_snoc, concat_snoc, (len_app before).
    change (enc x) with (enck x ++ encv x). rewrite <- len_app. by rewrite <- !app_assoc.
  - subst st. unfold map_step. cbv beta. rewrite decide_False by lia. by rewrite gather_ellipsis.
  - assert (forall x, In x l -> 1 <= len (enc x)) as Hl'
      by (intros x Hx; subst enc; cbv beta; rewrite len_app; specialize (Hl x Hx); pose proof (len_nonneg (encv x)); lia).
    pose proof (items_length enc l Hl'). subst data. rewrite !length_app. lia.
Qed.

(** A field as the readers see it. *)
Definition mk_field (x : Z * tvalue) : ThriftField :=
  {| fd_Type := type_of (snd x); fd_Id := fst x; fd_Value := text (snd x) |}.
Definition encode_field (x : Z * tvalue) : bytes :=
  to_byte (type_of (snd x)) :: be16 (fst x) ++ encode (snd x).

Lemma type_of_range v : 2 <= type_of v <= 15.
Proof. destruct v; split; by vm_compute. Qed.

Lemma u8_type v : u8 (to_byte (type_of v)) = type_of v.
Proof. pose proof (type_of_range v). rewrite u8_to_byte, Z.mod_small; lia. Qed.

Lemma encode_field_split pre x post :
  pre ++ encode_field x ++ post =
  (pre ++ [to_byte (type_of (snd x))]) ++ be16 (fst x) ++ encode (snd x) ++ post.
Proof. unfold encode_field. rewrite <- app_comm_cons, <- !app_assoc. done. Qed.

(** The fields of a struct are read one by one, whatever follows them. *)
Lemma struct_fields rd l post :
  (forall x, In x l -> 0 <= fst x < 2 ^ 16) ->
  (forall x, In x l -> exists r, rd (type_of (snd x)) = Some r /\ reads r (encode (snd x)) (text (snd x))) ->
  len l <= DropAfterNStructFields thrift ->
  let data := concat (map encode_field l) ++ post in
  exists n, (1 < n)%nat /\
    readStruct thrift rd data =
      loop (struct_step thrift rd data) n (len l, len (concat (map encode_field l)), map mk_field l).
Proof.
  intros Hid Hr Hmax data.
  set (st := fun before : list (Z * tvalue) => (len before, len (concat (map encode_field before)), map mk_field before)).
  assert (length l <= length data)%nat as Hl.
  { subst data. rewrite length_app. assert (length l <= length (concat (map encode_field l)))%nat; [|lia].
    apply items_length. intros x _. unfold encode_field. rewrite len_cons, len_app.
    pose proof (len_nonneg (be16 (fst x))). pose proof (len_nonneg (encode (snd x))). lia. }
  exists (S (S (length data)) - length l)%nat. split; [lia|]. unfold readStruct.
  apply (loop_items (struct_step thrift rd data) st l); [|lia].
  intros before x after E. subst st. unfold struct_step. cbv beta.
  rewrite decide_False by (rewrite E, len_app, len_cons in Hmax; pose proof (len_nonneg after); lia).
  set (P := concat (map encode_field before)). set (tail := concat (map encode_field after) ++ post).
  assert (data = P ++ encode_field x ++ tail) as Ed by exact (item_split encode_field [] l before x after post E).
  clearbody data. subst data.
  set (ty := to_byte (type_of (snd x))). assert (u8 ty = type_of (snd x)) as Hu by apply u8_type.
  rewrite decide_False by (rewrite !len_app; unfold encode_field; rewrite len_cons; pose proof (len_nonneg P);
    pose proof (len_nonneg tail); pose proof (len_nonneg (be16 (fst x) ++ encode (snd x))); lia).
  change (encode_field x ++ tail) with (ty :: be16 (fst x) ++ encode (snd x) ++ tail) at 1.
  rewrite at_mid. cbn [obind]. cbv zeta. rewrite !Hu.
  pose proof (type_of_range (snd x)). rewrite decide_False by (change ThriftTypeStop with 0; lia).
  rewrite encode_field_split. fold ty.
  assert (len P + 1 = len (P ++ [ty])) as -> by (by rewrite len_app).
  rewrite from_at. cbn [obind]. rewrite decide_False by
    (rewrite !len_app; change (len (be16 (fst x))) with 2; pose proof (len_nonneg (encode (snd x)));
     pose proof (len_nonneg tail); lia).
  change 2 with (len (be16 (fst x))) at 1. rewrite slice_at. cbn [obind].
  rewrite <- (app_nil_r (be16 (fst x))) at 1. rewrite Ntohs_be16. cbn [obind].
  destruct (Hr x) as (r & -> & Hx); [rewrite E; apply in_elt|].
  assert (len (P ++ [ty]) + 2 = len ((P ++ [ty]) ++ be16 (fst x))) as -> by (by rewrite (len_app (P ++ [ty]))).
  rewrite (app_assoc (P ++ [ty])), from_at. cbn [obind]. rewrite (Hx tail). cbn [obind negb read_all].
  rewrite Z.mod_small by (apply Hid; rewrite E; apply in_elt).
  rewrite concat_snoc, map_app, (len_app before). cbn [map]. change (mk_field x) with
    {| fd_Type := type_of (snd x); fd_Id := fst x; fd_Value := text (snd x) |}.
  fold P. rewrite <- len_app. unfold encode_field. by rewrite <- !app_assoc.
Qed.

Lemma struct_loop rd l post :
  (forall x, In x l -> 0 <= fst x < 2 ^ 16) ->
  (forall x, In x l -> exists r, rd (type_of (snd x)) = Some r /\ reads r (encode (snd x)) (text (snd x))) ->
  len l < DropAfterNStructFields thrift ->
  readStruct thrift rd (concat (map encode_field l) ++ [x00] ++ post) =
    Ret (read_all (formatStruct thrift (map mk_field l) false []) (len (concat (map encode_field l)) + 1)).
Proof.
  intros Hid Hr Hmax. destruct (struct_fields rd l ([x00] ++ post) Hid Hr ltac:(lia)) as (n & Hn & ->).
  destruct n as [|n]; [lia|]. rewrite loop_S. unfold struct_step. rewrite decide_False by lia.
  rewrite decide_False by (rewrite !len_app; pose proof (len_nonneg (concat (map encode_field l)));
    pose proof (len_nonneg post); change (len [x00]) with 1; lia).
  change ([x00] ++ post) with (x00 :: post). rewrite at_mid. cbn [obind]. by rewrite decide_True by done.
Qed.

(** When the data ends after a field, the reader indexes past the end. *)
Lemma struct_exhausted rd l :
  (forall x, In x l -> 0 <= fst x < 2 ^ 16) ->
  (forall x, In x l -> exists r, rd (type_of (snd x)) = Some r /\ reads r (encode (snd x)) (text (snd x))) ->
  len l < DropAfterNStructFields thrift -> l <> [] ->
  readStruct thrift rd (concat (map encode_field l)) = Panic.
Proof.
  intros Hid Hr Hmax Hne. destruct (struct_fields rd l [] Hid Hr ltac:(lia)) as (n & Hn & E).
  rewrite app_nil_r in E. rewrite E. destruct n as [|n]; [lia|]. rewrite loop_S. unfold struct_step.
  rewrite decide_False by lia. rewrite decide_False.
  - by rewrite at_panic by lia.
  - destruct l as [|x l]; [done|]. cbn [map concat]. unfold encode_field. rewrite <- app_comm_cons, len_cons.
    pose proof (len_nonneg ((be16 (fst x) ++ encode (snd x)) ++ concat (map encode_field l))). unfold encode_field in *. lia.
Qed.

Lemma len_encode v : 1 <= len (encode v).
Proof.
  destruct v; cbn [encode]; rewrite ?len_cons, ?len_app; try done;
    try (pose proof (len_nonneg s); change (len (be32 (len s))) with 4; lia);
    try (pose proof (len_nonneg (concat (map encode vs)))); try (pose proof (len_nonneg (be32 (len vs)))); try lia.
  - pose proof (len_nonneg (concat (map (fun x => to_byte (type_of (snd x)) :: be16 (fst x) ++ encode (snd x)) fields))).
    change (len [x00]) with 1. lia.
  - pose proof (len_nonneg (be32 (len entries))).
    pose proof (len_nonneg (concat (map (fun x => encode (fst x) ++ encode (snd x)) entries))). lia.
Qed.

Lemma Ntohl_length n : 0 <= n < 2 ^ 32 -> Bytes_Ntohl (be32 n) = Ret n.
Proof. intros Hn. rewrite <- (app_nil_r (be32 n)), Bytes_Ntohl_be32. by rewrite Z.mod_small. Qed.

Lemma list_reads rd ty l r rest :
  0 <= ty < 256 -> rd ty = Some r -> (forall v, In v l -> reads r (encode v) (text v)) -> len l < 2 ^ 32 ->
  0 <= CollectionMaxSize thrift ->
  readListOrSet thrift rd ((to_byte ty :: be32 (len l) ++ concat (map encode l)) ++ rest) =
    Ret (read_all (Join (ellipsis (map text l)) (bs ", ")) (len (to_byte ty :: be32 (len l) ++ concat (map encode l)))).
Proof.
  intros Ht Er Hr Hl Hm. pose proof (list_loop encode text r (to_byte ty :: be32 (len l)) l rest Hr (fun v _ => len_encode v) Hm) as H.
  cbv zeta in H. rewrite app_comm_cons, <- app_assoc. set (data := (to_byte ty :: be32 (len l)) ++ _) in *.
  unfold readListOrSet. pose proof (len_nonneg (concat (map encode l))). pose proof (len_nonneg rest). pose proof (len_nonneg l).
  rewrite decide_False by (subst data; rewrite !len_app, len_cons; change (len (be32 (len l))) with 4; lia).
  change (at_ data 0) with (Ret (to_byte ty)). cbn [obind]. rewrite u8_to_byte, Z.mod_small, Er by lia.
  assert (str_slice data 1 5 = Ret (be32 (len l))) as -> by exact (slice_at [to_byte ty] (be32 (len l)) (concat (map encode l) ++ rest)).
  cbn [obind]. rewrite (Ntohl_length (len l)) by lia. cbn [obind]. rewrite decide_False by lia. exact H.
Qed.

Lemma map_reads rd kt vt l rk rv rest :
  0 <= kt < 256 -> 0 <= vt < 256 -> rd kt = Some rk -> rd vt = Some rv ->
  (forall x, In x l -> reads rk (encode (fst x)) (text (fst x)) /\ reads rv (encode (snd x)) (text (snd x))) ->
  len l < 2 ^ 32 -> 0 <= CollectionMaxSize thrift ->
  readMap thrift rd (encode (VMap kt vt l) ++ rest) = Ret (read_all (text (VMap kt vt l)) (len (encode (VMap kt vt l)))).
Proof.
  intros Hk Hv Ek Ev Hr Hl Hm.
  pose proof (map_loop (fun x => encode (fst x)) (fun x => text (fst x)) (fun x => encode (snd x)) (fun x => text (snd x))
    rk rv (to_byte kt :: to_byte vt :: be32 (len l)) l rest
    (fun x Hx => proj1 (Hr x Hx)) (fun x Hx => proj2 (Hr x Hx)) (fun x _ => len_encode (fst x)) Hm) as H.
  cbv zeta in H. cbn [encode text]. set (enc := fun x : tvalue * tvalue => encode (fst x) ++ encode (snd x)) in *.
  rewrite (app_comm_cons (be32 _)), (app_comm_cons (to_byte vt :: be32 _)), <- app_assoc.
  set (data := (to_byte kt :: to_byte vt :: be32 (len l)) ++ _) in *.
  unfold readMap. pose proof (len_nonneg (concat (map enc l))). pose proof (len_nonneg rest). pose proof (len_nonneg l).
  rewrite decide_False by (subst data; rewrite !len_app, !len_cons; change (len (be32 (len l))) with 4; lia).
  change (at_ data 0) with (Ret (to_byte kt)). change (at_ data 1) with (Ret (to_byte vt)). cbn [obind].
  rewrite !u8_to_byte, !Z.mod_small, Ek, Ev by lia.
  assert (str_slice data 2 6 = Ret (be32 (len l))) as ->
    by exact (slice_at [to_byte kt; to_byte vt] (be32 (len l)) (concat (map enc l) ++ rest)).
  cbn [obind]. rewrite (Ntohl_length (len l)) by lia. cbn [obind]. rewrite decide_False by lia. exact H.
Qed.

Lemma known_type_cases ty : known_type ty = true -> In ty [2; 3; 4; 6; 8; 10; 11; 12; 13; 14; 15].
Proof. unfold known_type. rewrite existsb_exists. intros (x & Hx & ->%Z.eqb_eq). exact Hx. Qed.

Lemma known_reader levels ty : known_type ty = true -> is_Some (funcReadersByType thrift levels ty) /\ 0 <= ty < 256.
Proof.
  intros H%known_type_cases. cbn in H. split; [|lia].
  repeat (destruct H as [<-|H]; [destruct levels; eexists; reflexivity|]). done.
Qed.

Lemma depth_max {A} (f : A -> nat) l x : In x l -> (f x <= list_max (map f l))%nat.
Proof. intros H. pose proof (proj1 (list_max_le (map f l) _) (le_n _)) as F. rewrite Forall_forall in F. apply F. by apply in_map. Qed.

(** The readers of one level, on every value of that depth. *)
Definition level_ok (levels : nat) : Prop :=
  forall v, wf v = true -> (depth v <= levels)%nat ->
  exists r, funcReadersByType thrift levels (type_of v) = Some r /\ reads r (encode v) (text v).

Lemma level_reads levels ty v r :
  level_ok levels -> type_of v = ty -> wf v = true -> (depth v <= levels)%nat ->
  funcReadersByType thrift levels ty = Some r -> reads r (encode v) (text v).
Proof. intros H <- Hw Hd Er. destruct (H v Hw Hd) as (r' & Er' & Hr). congruence. Qed.

Lemma in_all {A} (P : A -> bool) l x : forallb P l = true -> In x l -> P x = true.
Proof. rewrite forallb_forall. auto. Qed.

(** The simple values, whose readers do not depend on the level. *)
Lemma simple_reads levels v :
  wf v = true -> depth v = 0%nat -> 0 <= StringMaxSize thrift ->
  exists r, funcReadersByType thrift levels (type_of v) = Some r /\ reads r (encode v) (text v).
Proof.
  intros Hw Hd Hs. destruct v as [b|z|bits|z|z|z|str| | | |]; try discriminate Hd; cbn [wf] in Hw;
    try (rewrite bool_decide_eq_true in Hw);
    (eexists; split; [destruct levels; reflexivity|]).
  - intros rest. unfold readBool. cbn [encode app]. rewrite decide_False by (rewrite len_cons; pose proof (len_nonneg rest); lia).
    rewrite at_head. cbn [obind]. by destruct b.
  - intros rest. unfold readByte. cbn [encode app]. rewrite decide_False by (rewrite len_cons; pose proof (len_nonneg rest); lia).
    rewrite at_head. cbn [obind]. by rewrite u8_to_byte.
  - apply (reads_simple (VDouble bits) 8 Bytes_Ntohll FormatFloat readDouble bits (be64 bits)); try done.
    rewrite <- (app_nil_r (be64 bits)), Ntohll_be64. by rewrite Z.mod_small.
  - apply (reads_simple (VI16 z) 2 Bytes_Ntohs Itoa readI16 (z mod 2 ^ 16) (be16 z)); try done.
    rewrite <- (app_nil_r (be16 z)). apply Ntohs_be16.
  - apply (reads_simple (VI32 z) 4 Bytes_Ntohl Itoa readI32 (z mod 2 ^ 32) (be32 z)); try done.
    rewrite <- (app_nil_r (be32 z)). apply Bytes_Ntohl_be32.
  - apply (reads_simple (VI64 z) 8 Bytes_Ntohll (fun x => Itoa (int64_of x)) readI64 (z mod 2 ^ 64) (be64 z)); try done.
    + rewrite <- (app_nil_r (be64 z)). apply Ntohll_be64.
    + cbn [text]. f_equal. unfold wrapS. change (64 - 1) with 63. Z.to_euclidean_division_equations. lia.
  - intros rest. unfold readAndQuoteString. cbn [encode]. rewrite readString_encoded by done. cbn [obind read_all].
    cbn [text]. rewrite len_app, quoted_text by done. reflexivity.
Qed.

Lemma level_all levels :
  0 <= StringMaxSize thrift -> 0 <= CollectionMaxSize thrift -> level_ok levels.
Proof.
  intros Hs Hm. induction levels as [|n IH]; intros v Hw Hd.
  - apply simple_reads; [done|lia|done].
  - destruct v as [b|z|bits|z|z|z|str|fields|kt vt entries|ty vs|ty vs]; try (apply simple_reads; done);
      cbn [depth] in Hd; apply le_S_n in Hd; cbn [wf] in Hw; (eexists; split; [reflexivity|]).
    + apply andb_true_iff in Hw as [Hf Hmax%bool_decide_eq_true_1]. intros rest. cbn [encode]. rewrite <- app_assoc.
      change (fun x => to_byte (type_of (snd x)) :: be16 (fst x) ++ encode (snd x)) with encode_field.
      rewrite struct_loop; [|..|done].
      * rewrite formatStruct_text by done. cbn [text]. rewrite map_map, len_app. reflexivity.
      * intros x Hx. apply (in_all _ _ _ Hf), andb_true_iff in Hx as [Hx%bool_decide_eq_true_1 _]. exact Hx.
      * intros x Hx. pose proof (in_all _ _ _ Hf Hx) as [_ Hwx]%andb_true_iff. apply IH; [done|].
        pose proof (depth_max (fun x => depth (snd x)) fields x Hx). lia.
    + apply andb_true_iff in Hw as [[[Hk Hv]%andb_true_iff Hf]%andb_true_iff Hl%bool_decide_eq_true_1].
      destruct (known_reader n kt Hk) as [[rk Ek] Hkr]. destruct (known_reader n vt Hv) as [[rv Ev] Hvr].
      intros rest. apply (map_reads _ kt vt entries rk rv); try done.
      intros x Hx. pose proof (in_all _ _ _ Hf Hx) as [[[E1%Z.eqb_eq W1]%andb_true_iff E2%Z.eqb_eq]%andb_true_iff W2]%andb_true_iff.
      pose proof (depth_max (fun x => Nat.max (depth (fst x)) (depth (snd x))) entries x Hx) as Hdx. cbv beta in Hdx.
      split; [apply (level_reads n kt)|apply (level_reads n vt)]; try done; lia.
    + apply andb_true_iff in Hw as [[Hk Hf]%andb_true_iff Hl%bool_decide_eq_true_1].
      destruct (known_reader n ty Hk) as [[r Er] Hr]. intros rest. unfold readSet. cbn [encode].
      rewrite (list_reads _ ty vs r rest); try done.
      intros v Hv. pose proof (in_all _ _ _ Hf Hv) as [E%Z.eqb_eq W]%andb_true_iff.
      pose proof (depth_max depth vs v Hv). apply (level_reads n ty); done || lia.
    + apply andb_true_iff in Hw as [[Hk Hf]%andb_true_iff Hl%bool_decide_eq_true_1].
      destruct (known_reader n ty Hk) as [[r Er] Hr]. intros rest. unfold readList. cbn [encode].
      rewrite (list_reads _ ty vs r rest); try done.
      intros v Hv. pose proof (in_all _ _ _ Hf Hv) as [E%Z.eqb_eq W]%andb_true_iff.
      pose proof (depth_max depth vs v Hv). apply (level_reads n ty); done || lia.
Qed.

(** C17: whatever the nesting, the reader of a value's type turns the value's encoding into its
    text and moves past exactly its bytes: strings quoted, cut at the configured size and
    hidden when the configuration says so, collections cut at the configured number of
    entries, bytes and integers of 16 and 32 bits as unsigned numbers. *)
Theorem thrift_value_roundtrip levels v rest :
  0 <= StringMaxSize thrift -> 0 <= CollectionMaxSize thrift ->
  wf v = true -> (depth v <= levels)%nat ->
  exists r, funcReadersByType thrift levels (type_of v) = Some r /\
    r (encode v ++ rest) = Ret (text v, true, true, len (encode v)).
Proof. intros Hs Hm Hw Hd. destruct (level_all levels Hs Hm v Hw Hd) as (r & Er & Hr). exists r. split; [done|apply Hr]. Qed.
End Values.
