(* ===== verification/ThriftMessages.v ===== *)
(** Thrift messages: a call or a reply, as a client or a server writes it on a plain
    socket or in a frame, is what the message parser reports, and the stream is
    left right after it. *)
From S2P Require Import Thrift ThriftValues.

(** * The wire format *)

(** A message of the strict binary protocol, with version. *)
Definition encode_body (typ : Z) (name : bytes) (seq : Z) (fields : list (Z * tvalue)) : bytes :=
  be32 (ThriftVersion1 + typ) ++ (be32 (len name) ++ name) ++ be32 seq ++
  concat (map encode_field fields) ++ [x00].

Section Messages.
Context {PT : PrintTable} {FT : FloatText} (thrift : Thrift).

(** The frame's header, in framed transport. *)
Definition frame_header (size : Z) : bytes :=
  if decide (TransportType thrift = ThriftTFramed) then be32 size else [].

Definition encode_thrift (typ : Z) (name : bytes) (seq : Z) (fields : list (Z * tvalue)) : bytes :=
  let body := encode_body typ name seq fields in frame_header (len body) ++ body.

Definition fields_ok (fields : list (Z * tvalue)) : Prop :=
  forall x, In x fields -> 0 <= fst x < 2 ^ 16 /\ wf thrift (snd x) = true.

(** * Levels *)

Lemma concat_ge {A} (f : A -> bytes) l x : In x l -> (length (f x) <= length (concat (map f l)))%nat.
Proof.
  induction l as [|y l IH]; [done|]. intros [->|H]; cbn; rewrite length_app; [lia|]. specialize (IH H). lia.
Qed.

Lemma list_max_bound {A} (f : A -> nat) l n : (forall x, In x l -> (f x <= n)%nat) -> (list_max (map f l) <= n)%nat.
Proof.
  intros H. apply list_max_le, Forall_forall. intros y (x & <- & Hx)%in_map_iff. by apply H.
Qed.

(** A value is at least as long as it is deep, so the length of the data is enough levels. *)
Lemma depth_encode v : (depth v <= length (encode v))%nat.
Proof.
  enough (forall n v, (depth v <= n)%nat -> (depth v <= length (encode v))%nat) as H by by eapply H.
  clear v. induction n as [|n IH]; intros v Hd.
  - pose proof (len_encode v) as H. unfold len in H. lia.
  - assert (0 < length (encode v))%nat as H0 by (pose proof (len_encode v) as H; unfold len in H; lia).
    destruct v as [b|z|bits|z|z|z|str|fields|kt vt entries|ty vs|ty vs]; try (cbn [depth]; lia);
      cbn [depth] in Hd |- *; cbn [encode].
    + change (fun x => to_byte (type_of (snd x)) :: be16 (fst x) ++ encode (snd x)) with encode_field.
      rewrite length_app. cbn [length]. enough (list_max (map (fun x => depth (snd x)) fields) <= length (concat (map encode_field fields)))%nat by lia.
      apply list_max_bound. intros x Hx. pose proof (depth_max (fun x => depth (snd x)) fields x Hx).
      pose proof (concat_ge encode_field fields x Hx) as Hc. specialize (IH (snd x) ltac:(lia)).
      unfold encode_field at 1 in Hc. cbn [length] in Hc. rewrite length_app in Hc. lia.
    + cbn [length]. rewrite length_app. set (enc := fun x : tvalue * tvalue => encode (fst x) ++ encode (snd x)).
      enough (list_max (map (fun x => Nat.max (depth (fst x)) (depth (snd x))) entries) <= length (concat (map enc entries)))%nat by lia.
      apply list_max_bound. intros x Hx. pose proof (depth_max (fun x => Nat.max (depth (fst x)) (depth (snd x))) entries x Hx) as Hm.
      pose proof (concat_ge enc entries x Hx) as Hc. subst enc. cbv beta in Hc, Hm. rewrite length_app in Hc.
      pose proof (IH (fst x) ltac:(lia)). pose proof (IH (snd x) ltac:(lia)). lia.
    + cbn [length]. rewrite length_app. enough (list_max (map depth vs) <= length (concat (map encode vs)))%nat by lia.
      apply list_max_bound. intros x Hx. pose proof (depth_max depth vs x Hx). pose proof (concat_ge encode vs x Hx).
      specialize (IH x ltac:(lia)). lia.
    + cbn [length]. rewrite length_app. enough (list_max (map depth vs) <= length (concat (map encode vs)))%nat by lia.
      apply list_max_bound. intros x Hx. pose proof (depth_max depth vs x Hx). pose proof (concat_ge encode vs x Hx).
      specialize (IH x ltac:(lia)). lia.
Qed.

(** * Turns of the parser *)

Definition to_pos (s : ThriftStream) (pre : bytes) : ThriftStream := s <| s_parseOffset := len pre |>.

Hypothesis StringMax_ok : 0 <= StringMaxSize thrift.
Hypothesis CollectionMax_ok : 0 <= CollectionMaxSize thrift.

Lemma field_turn s m pre x post :
  s_data s = pre ++ encode_field x ++ post -> s_parseState s = ThriftFieldState ->
  0 <= fst x < 2 ^ 16 -> wf thrift (snd x) = true ->
  parser_step thrift (to_pos s pre, m) =
    Ret (inl (to_pos s (pre ++ encode_field x), m <| m_fields := m_fields m ++ [mk_field thrift x] |>)).
Proof.
  intros E Hs Hid Hw. pose proof (len_nonneg post). pose proof (len_encode (snd x)).
  assert (len (encode_field x) = 3 + len (encode (snd x))) as Hlx
    by (unfold encode_field; rewrite len_cons, len_app; change (len (be16 (fst x))) with 2; lia).
  unfold parser_step. rewrite decide_True by (cbn; rewrite E, !len_app; lia).
  change (s_parseState (to_pos s pre)) with (s_parseState s). rewrite Hs. unfold field_state, readField.
  change (s_data (to_pos s pre)) with (s_data s). change (s_parseOffset (to_pos s pre)) with (len pre).
  rewrite decide_False by (rewrite E, !len_app; pose proof (len_nonneg pre); lia).
  set (ty := to_byte (type_of (snd x))). assert (u8 ty = type_of (snd x)) as Hu by apply u8_type.
  rewrite E at 1. change (encode_field x ++ post) with (ty :: be16 (fst x) ++ encode (snd x) ++ post) at 1.
  rewrite at_mid. cbn [obind]. cbv zeta. rewrite !Hu. pose proof (type_of_range (snd x)).
  rewrite decide_False by (change ThriftTypeStop with 0; lia).
  assert (len pre + 1 = len (pre ++ [ty])) as -> by (by rewrite len_app).
  rewrite encode_field_split in E. fold ty in E.
  rewrite E at 1. rewrite from_at. cbn [obind].
  rewrite decide_False by (rewrite !len_app; change (len (be16 (fst x))) with 2; lia).
  assert (len (pre ++ [ty]) + 2 = len (pre ++ [ty]) + len (be16 (fst x))) as E2 by done.
  rewrite E2, E at 1. rewrite slice_at. cbn [obind].
  rewrite <- (app_nil_r (be16 (fst x))) at 1. rewrite Ntohs_be16, Z.mod_small by lia. cbn [obind].
  pose proof (depth_encode (snd x)) as Hdepth.
  destruct (level_all thrift (length (s_data s)) StringMax_ok CollectionMax_ok (snd x) Hw) as (r & -> & Hr); [rewrite E, !length_app; lia|].
  rewrite !E2, <- len_app. assert (s_data s = ((pre ++ [ty]) ++ be16 (fst x)) ++ encode (snd x) ++ post) as E3
    by (rewrite E; by rewrite <- !app_assoc).
  rewrite E3 at 1. rewrite from_at. cbn [obind]. rewrite (Hr post). cbn [obind negb read_all].
  unfold to_pos. rewrite <- len_app. do 3 f_equal. unfold encode_field. fold ty. by rewrite <- !app_assoc.
Qed.

Lemma fields_turns fields s m pre post :
  s_data s = pre ++ concat (map encode_field fields) ++ post -> s_parseState s = ThriftFieldState -> fields_ok fields ->
  iter (parser_step thrift) (length fields) (to_pos s pre, m) =
    Some (to_pos s (pre ++ concat (map encode_field fields)), m <| m_fields := m_fields m ++ map (mk_field thrift) fields |>).
Proof.
  intros E Hs. revert m pre E. induction fields as [|x fields IH]; intros m pre E Hok.
  - cbn. rewrite !app_nil_r. by destruct m.
  - cbn [map concat] in E |- *. rewrite <- app_assoc in E. destruct (Hok x (or_introl eq_refl)) as [Hid Hw].
    cbn [length iter]. rewrite (field_turn s m pre x _ E Hs Hid Hw).
    rewrite (IH _ (pre ++ encode_field x)); [|by rewrite E, <- app_assoc|intros y Hy; apply Hok; by right].
    rewrite <- app_assoc. change (m_fields (m <| m_fields := ?l |>)) with l. by rewrite <- app_assoc.
Qed.

Lemma stop_turn s m pre post :
  s_data s = pre ++ x00 :: post -> s_parseState s = ThriftFieldState ->
  parser_step thrift (to_pos s pre, m) = Ret (inr (to_pos s (pre ++ [x00]), message_done thrift m, (true, true))).
Proof.
  intros E Hs. unfold parser_step. pose proof (len_nonneg post). pose proof (len_nonneg pre).
  rewrite decide_True by (cbn; rewrite E, len_app, len_cons; lia).
  change (s_parseState (to_pos s pre)) with (s_parseState s). rewrite Hs. unfold field_state, readField.
  change (s_data (to_pos s pre)) with (s_data s). change (s_parseOffset (to_pos s pre)) with (len pre).
  rewrite decide_False by (rewrite E, len_app, len_cons; lia). rewrite E at 1. rewrite at_mid. cbn [obind].
  rewrite decide_True by done. cbn [obind negb]. unfold to_pos. by rewrite len_app.
Qed.

Definition message_type (typ : Z) : Prop := In typ [1; 2; 3; 4].

Lemma version_word typ : message_type typ ->
  0 <= ThriftVersion1 + typ < 2 ^ 32 /\ int32_of (ThriftVersion1 + typ) < 0 /\
  Z.land (ThriftVersion1 + typ) ThriftVersionMask = ThriftVersion1 /\ Z.land (ThriftVersion1 + typ) ThriftTypeMask = typ.
Proof.
  unfold message_type. cbn [In]. intros H.
  repeat (destruct H as [<-|H]; [repeat split; try done; by vm_compute|]). done.
Qed.

(** The message after its beginning has been read at [start]. *)
Definition begun (m : ThriftMessage) (typ : Z) (name : bytes) (seq : Z) : ThriftMessage :=
  m <| m_Version := ThriftVersion1 |> <| m_Type := typ |> <| m_Method := cut_string thrift name |>
    <| m_SeqId := seq |> <| m_IsRequest := bool_decide (typ = ThriftMsgTypeCall \/ typ = ThriftMsgTypeOneway) |>.

Definition encode_begin (typ : Z) (name : bytes) (seq : Z) : bytes :=
  be32 (ThriftVersion1 + typ) ++ (be32 (len name) ++ name) ++ be32 seq.

Lemma readMessageBegin_encoded s m pre typ name seq post :
  s_data s = pre ++ encode_begin typ name seq ++ post -> message_type typ -> len name < 2 ^ 31 -> 0 <= seq < 2 ^ 32 ->
  readMessageBegin thrift (to_pos s pre) m =
    Ret (to_pos s (pre ++ encode_begin typ name seq), begun m typ name seq, (true, true)).
Proof.
  intros E Ht Hn Hq. destruct (version_word typ Ht) as (Hw & Hneg & Hv & Htyp).
  unfold encode_begin in E. rewrite <- !app_assoc in E. set (w := be32 (ThriftVersion1 + typ)) in E.
  pose proof (len_nonneg name). pose proof (len_nonneg post). pose proof (len_nonneg pre).
  assert (len w = 4) as Hlw by done. assert (len (be32 (len name)) = 4) as Hln by done. assert (len (be32 seq) = 4) as Hls by done.
  unfold readMessageBegin. change (s_data (to_pos s pre)) with (s_data s). change (s_parseOffset (to_pos s pre)) with (len pre).
  rewrite E at 1. rewrite from_at. cbn [obind]. rewrite decide_False by (rewrite !len_app; lia).
  change 4 with (len w) at 1. rewrite E at 1. rewrite slice_at. cbn [obind]. unfold w at 1.
  rewrite Ntohl_length by done. cbn [obind]. cbv zeta. rewrite decide_True by done.
  rewrite <- Hlw at 1. rewrite <- len_app.
  assert (s_data s = (pre ++ w) ++ (be32 (len name) ++ name) ++ be32 seq ++ post) as E1
    by (rewrite E; by rewrite <- !app_assoc).
  rewrite E1 at 1. rewrite from_at. cbn [obind]. rewrite readString_encoded by done. cbn [obind negb read_all].
  set (P := (pre ++ w) ++ be32 (len name) ++ name).
  assert (len pre + 4 + (4 + len name) = len P) as -> by (subst P; rewrite !len_app; lia).
  assert (s_data s = P ++ be32 seq ++ post) as E2 by (rewrite E1; subst P; by rewrite <- !app_assoc).
  rewrite E2 at 1. rewrite from_at. cbn [obind]. rewrite decide_False by (rewrite len_app; lia).
  assert (len P + 4 = len P + len (be32 seq)) as Ep by lia. rewrite !Ep, E2 at 1. rewrite slice_at. cbn [obind].
  rewrite Ntohl_length by done. cbn [obind]. rewrite Hv, Htyp. unfold to_pos, begun. rewrite Ep, <- len_app.
  subst P. unfold encode_begin. fold w. by rewrite <- !app_assoc.
Qed.

(** The message when its fields are about to be read. *)
Definition started (ts size typ : Z) (name : bytes) (seq : Z) : ThriftMessage :=
  let m := newMessage ts in
  let m := if decide (TransportType thrift = ThriftTFramed) then m <| m_FrameSize := size |> else m in
  begun m typ name seq.

Lemma start_turn s ts size typ name seq post :
  s_data s = frame_header size ++ encode_begin typ name seq ++ post -> s_parseOffset s = 0 ->
  s_parseState s = ThriftStartState ->
  message_type typ -> len name < 2 ^ 31 -> 0 <= seq < 2 ^ 32 -> 0 <= size < 2 ^ 32 ->
  CaptureReply thrift = true \/ typ = ThriftMsgTypeCall \/ typ = ThriftMsgTypeOneway ->
  parser_step thrift (s, newMessage ts) =
    Ret (inl (to_pos (s <| s_parseState := ThriftFieldState |>) (frame_header size ++ encode_begin typ name seq),
              started ts size typ name seq)).
Proof.
  intros E Ho Hs Ht Hn Hq Hl Hc.
  pose proof (len_nonneg post). pose proof (len_nonneg (frame_header size)). pose proof (len_nonneg (be32 (len name) ++ name)).
  assert (8 <= len (encode_begin typ name seq)) as Hb by (unfold encode_begin; rewrite !len_app in *;
    change (len (be32 (ThriftVersion1 + typ))) with 4; change (len (be32 seq)) with 4; lia).
  unfold parser_step. rewrite Ho, decide_True by (rewrite E, !len_app; lia). rewrite Hs. unfold start_state. cbv zeta. rewrite Ho.
  change (newMessage ts <| m_start := 0 |>) with (newMessage ts).
  assert (forall s1 m1, s_data s1 = s_data s ->
    s1 = to_pos s1 (frame_header size) ->
    (let! '(s, m, (ok, complete)) := readMessageBegin thrift s1 m1 in
     if negb ok then Ret (inr (s, m, (false, false)))
     else if negb complete then Ret (inr (s, m, (true, false)))
     else if negb (m_IsRequest m) && negb (CaptureReply thrift) then
       Ret (inr (s, m <| m_ReturnValue := [] |> <| m_Exceptions := [] |>, (true, true)))
     else Ret (inl (s <| s_parseState := ThriftFieldState |>, m))) =
    Ret (inl (to_pos s1 (frame_header size ++ encode_begin typ name seq) <| s_parseState := ThriftFieldState |>,
              begun m1 typ name seq))) as Hbegin.
  { intros s1 m1 Hd Hp. rewrite Hp.
    rewrite (readMessageBegin_encoded s1 m1 (frame_header size) typ name seq post) by (done || by rewrite Hd).
    cbn [obind negb]. change (m_IsRequest (begun m1 typ name seq)) with
      (bool_decide (typ = ThriftMsgTypeCall \/ typ = ThriftMsgTypeOneway)).
    destruct Hc as [Hc|Hc]; [rewrite Hc, andb_false_r|rewrite (bool_decide_true _ Hc)]; done. }
  unfold started. unfold frame_header in *. case_decide as Hf.
  - rewrite decide_False by (rewrite E, !len_app; change (len (be32 size)) with 4; lia).
    rewrite E at 1. rewrite (slice_head _ _ 4) by done.
    cbn [obind]. rewrite Ntohl_length by lia. cbn [obind]. rewrite Hbegin; done.
  - rewrite Hbegin; [done|done|]. unfold to_pos. destruct s. cbn in Ho |- *. by rewrite Ho.
Qed.

(** The names of a method's parameters or exceptions, when the IDL knows the method. *)
Definition idl_names (sel : ThriftIdlMethod -> list (option bytes)) (name : bytes) : bool * list (option bytes) :=
  match Idl thrift with
  | Some idl => match FindMethod idl name with Some m => (true, sel m) | None => (false, []) end
  | None => (false, [])
  end.

(** The text of the fields of a message. *)
Definition fields_text (names : bool * list (option bytes)) (fields : list (Z * tvalue)) : bytes :=
  x28 :: Join (ellipsis thrift (map (fun x => entry_text (fst names) (snd names) (mk_field thrift x)) fields)) (bs ", ") ++ [x29].

Lemma formatStruct_fields names fields :
  formatStruct thrift (map (mk_field thrift) fields) (fst names) (snd names) = fields_text names fields.
Proof. rewrite formatStruct_text by done. unfold fields_text. by rewrite map_map. Qed.

(** What the IDL says of a method, and its name for a parameter: the number if it has none. *)
Definition known_method (name : bytes) : option ThriftIdlMethod :=
  match Idl thrift with Some idl => MethodsByName idl !! name | None => None end.
Definition param_name (name : bytes) (id : Z) : bytes :=
  match known_method name with
  | Some m => match im_Params m !! Z.to_nat id with Some (Some param) => param | _ => Itoa id end
  | None => Itoa id
  end.
(** The parameters in parentheses, each under its name. *)
Definition params_text (name : bytes) (fields : list (Z * tvalue)) : bytes :=
  bs "(" ++ Join (ellipsis thrift (map (fun x => param_name name (fst x) ++ bs ": " ++ text thrift (snd x)) fields)) (bs ", ") ++ bs ")".

Lemma fields_params name fields : fields_text (idl_names im_Params name) fields = params_text name fields.
Proof.
  unfold fields_text, params_text. cbn [app bs]. do 4 f_equal. apply map_ext. intros [id v].
  unfold entry_text, param_name, known_method, idl_names, field_name, mk_field, FindMethod. cbn [fst snd fd_Id fd_Value].
  destruct (Idl thrift) as [idl|]; [destruct (MethodsByName idl !! name) as [im|]|]; cbn [fst snd]; try done.
  by destruct (im_Params im !! Z.to_nat id) as [[|]|].
Qed.

Lemma message_turns s ts typ name seq fields rest :
  s_message s = Some (newMessage ts) -> s_data s = encode_thrift typ name seq fields ++ rest ->
  s_parseOffset s = 0 -> s_parseState s = ThriftStartState ->
  message_type typ -> len name < 2 ^ 31 -> 0 <= seq < 2 ^ 32 -> len (encode_body typ name seq fields) < 2 ^ 32 ->
  CaptureReply thrift = true \/ typ = ThriftMsgTypeCall \/ typ = ThriftMsgTypeOneway -> fields_ok fields ->
  exists s', messageParser thrift s = Ret (s', (true, true)) /\ s_data s' = s_data s /\
    s_parseOffset s' = len (encode_thrift typ name seq fields) /\
    s_message s' = Some (message_done thrift (started ts (len (encode_body typ name seq fields)) typ name seq <| m_fields := map (mk_field thrift) fields |>)).
Proof.
  intros Em E Ho Hs Ht Hn Hq Hl Hc Hok.
  set (body := encode_body typ name seq fields) in *. set (pre := frame_header (len body) ++ encode_begin typ name seq).
  assert (encode_thrift typ name seq fields = pre ++ concat (map encode_field fields) ++ [x00]) as Ee.
  { unfold encode_thrift. fold body. cbv zeta. unfold pre, body, encode_body, encode_begin. by rewrite <- !app_assoc. }
  pose proof (start_turn s ts (len body) typ name seq (concat (map encode_field fields) ++ x00 :: rest)
    ltac:(rewrite E, Ee; unfold pre; by rewrite <- !app_assoc) Ho Hs Ht Hn Hq ltac:(pose proof (len_nonneg body); lia) Hc) as H1.
  fold pre in H1.
  set (s1 := s <| s_parseState := ThriftFieldState |>) in *. set (m1 := started ts (len body) typ name seq) in *.
  assert (s_data s1 = pre ++ concat (map encode_field fields) ++ x00 :: rest) as E1.
  { change (s_data s1) with (s_data s). rewrite E, Ee. by rewrite <- !app_assoc. }
  pose proof (fields_turns fields s1 m1 pre _ E1 eq_refl Hok) as H2.
  assert (m1 <| m_fields := m_fields m1 ++ map (mk_field thrift) fields |> = m1 <| m_fields := map (mk_field thrift) fields |>) as Em1
    by (subst m1; unfold started; by case_decide).
  rewrite Em1 in H2. set (m2 := m1 <| m_fields := map (mk_field thrift) fields |>) in *.
  pose proof (stop_turn s1 m2 (pre ++ concat (map encode_field fields)) rest ltac:(by rewrite E1, <- app_assoc) eq_refl) as H3.
  assert (offset_ok s) as Hoff by (unfold offset_ok; rewrite Ho; pose proof (len_nonneg (s_data s)); lia).
  pose proof (thrift_parser_ok thrift s (newMessage ts) Em Hoff) as Hfuel.
  unfold messageParser in Hfuel |- *. rewrite Em in Hfuel |- *.
  assert (loop (parser_step thrift) (S (S (length (s_data s)))) (s, newMessage ts) =
    Ret (to_pos s1 ((pre ++ concat (map encode_field fields)) ++ [x00]), message_done thrift m2, (true, true))) as ->.
  { apply (loop_iter_Ret _ _ (S (length fields)) _ (to_pos s1 (pre ++ concat (map encode_field fields)), m2)).
    - cbn [iter]. rewrite H1. exact H2.
    - exact H3.
    - intros Hx. rewrite Hx in Hfuel. exact Hfuel. }
  cbn [obind]. eexists. split; [reflexivity|]. split; [done|]. split; [|done].
  cbn. by rewrite Ee, <- !app_assoc.
Qed.

(** C20: a call is read back, framed or not: the method's name, the sequence number, its
    parameters under the names that the IDL gives them (or their numbers) and the
    service of the method; and the bytes after it are left for the next message. *)
Theorem thrift_call_roundtrip s ts typ name seq fields rest :
  s_message s = Some (newMessage ts) -> s_data s = encode_thrift typ name seq fields ++ rest ->
  s_parseOffset s = 0 -> s_parseState s = ThriftStartState ->
  typ = ThriftMsgTypeCall \/ typ = ThriftMsgTypeOneway -> len name <= StringMaxSize thrift -> len name < 2 ^ 31 ->
  0 <= seq < 2 ^ 32 -> len (encode_body typ name seq fields) < 2 ^ 32 -> fields_ok fields ->
  exists s' m' next, messageParser thrift s = Ret (s', (true, true)) /\ s_message s' = Some m' /\
    m_IsRequest m' = true /\ m_Method m' = name /\ m_SeqId m' = seq /\ m_Type m' = typ /\
    m_Params m' = params_text name fields /\
    m_Service m' = match known_method name with Some m => sv_Name (im_Service m) | None => [] end /\
    PrepareForNewMessage false s' = Ret next /\ s_data next = rest /\ s_parseOffset next = 0 /\
    s_parseState next = ThriftStartState.
Proof.
  intros Em E Ho Hs Ht Hname Hn Hq Hl Hok.
  assert (message_type typ) as Hmt by (unfold message_type; cbn; destruct Ht as [-> | ->]; auto).
  destruct (message_turns s ts typ name seq fields rest Em E Ho Hs Hmt Hn Hq Hl (or_intror Ht) Hok) as (s' & Hp & Hd & Hoff & Hm).
  set (m0 := started ts (len (encode_body typ name seq fields)) typ name seq <| m_fields := map (mk_field thrift) fields |>) in *.
  assert (m_Method m0 = name) as Hmeth.
  { change (m_Method m0) with (cut_string thrift name). unfold cut_string. by rewrite decide_False by lia. }
  assert (m_IsRequest m0 = true) as Hreq by (subst m0; unfold started; cbn; by rewrite bool_decide_true).
  assert (m_SeqId m0 = seq /\ m_Type m0 = typ /\ m_Service m0 = [] /\ m_fields m0 = map (mk_field thrift) fields) as (Hseq & Htyp & Hsv & Hf)
    by (subst m0; unfold started; cbn; by case_decide).
  eexists s', _, _. split; [exact Hp|]. split; [exact Hm|]. unfold message_done. rewrite Hreq, Hmeth, Hf.
  unfold PrepareForNewMessage. rewrite Hd, Hoff, E, str_from_ok by len_lia. rewrite drop_len_app. cbn [obind].
  rewrite <- fields_params. unfold idl_names, known_method, FindMethod.
  destruct (Idl thrift) as [idl|]; [destruct (MethodsByName idl !! name) as [im|]|]; cbn; split_and!; try done;
    first [exact (formatStruct_fields (true, im_Params im) fields)|exact (formatStruct_fields (false, []) fields)].
Qed.

Lemma next_message s pre rest :
  s_data s = pre ++ rest -> s_parseOffset s = len pre ->
  exists next, PrepareForNewMessage false s = Ret next /\ s_data next = rest /\ s_parseOffset next = 0 /\
    s_parseState next = ThriftStartState.
Proof.
  intros Hd Ho. unfold PrepareForNewMessage. rewrite Hd, Ho, str_from_ok by len_lia. rewrite drop_len_app.
  eexists. split; [reflexivity|]. done.
Qed.

(** The end of a reply that has fields. *)
Lemma done_reply m f fs :
  m_IsRequest m = false -> m_fields m = f :: fs ->
  (fd_Id f = 0 -> message_done thrift m = m <| m_ReturnValue := fd_Value f |> <| m_Exceptions := [] |>) /\
  (fd_Id f <> 0 -> message_done thrift m =
     m <| m_ReturnValue := [] |>
       <| m_Exceptions := formatStruct thrift (f :: fs) (fst (idl_names im_Exceptions (m_Method m)))
                            (snd (idl_names im_Exceptions (m_Method m))) |>
       <| m_HasException := true |>).
Proof.
  intros Hr Hf. unfold message_done, idl_names. rewrite Hr, Hf. split; intros Hid.
  - by rewrite decide_True by done.
  - rewrite decide_False by done. cbv zeta. change (m_fields (m <| m_ReturnValue := [] |>)) with (m_fields m). rewrite Hf.
    destruct (Idl thrift) as [idl|]; [by destruct (FindMethod idl (m_Method m))|done].
Qed.

(** A reply is read back, framed or not: no field is a void result, field 0 is the
    return value, and a reply that starts with another field is a failure whose
    fields are reported as exceptions under the names of the IDL. *)
Theorem thrift_reply_roundtrip s ts typ name seq fields rest :
  s_message s = Some (newMessage ts) -> s_data s = encode_thrift typ name seq fields ++ rest ->
  s_parseOffset s = 0 -> s_parseState s = ThriftStartState -> CaptureReply thrift = true ->
  typ = ThriftMsgTypeReply \/ typ = ThriftMsgTypeException -> len name <= StringMaxSize thrift -> len name < 2 ^ 31 ->
  0 <= seq < 2 ^ 32 -> len (encode_body typ name seq fields) < 2 ^ 32 -> fields_ok fields ->
  exists s' m' next, messageParser thrift s = Ret (s', (true, true)) /\ s_message s' = Some m' /\
    m_IsRequest m' = false /\ m_Method m' = name /\ m_SeqId m' = seq /\
    match fields with
    | [] => m_ReturnValue m' = [] /\ m_Exceptions m' = [] /\ m_HasException m' = false
    | (id, v) :: _ =>
        if decide (id = 0)
        then m_ReturnValue m' = text thrift v /\ m_Exceptions m' = [] /\ m_HasException m' = false
        else m_ReturnValue m' = [] /\ m_Exceptions m' = fields_text (idl_names im_Exceptions name) fields /\
             m_HasException m' = true
    end /\
    PrepareForNewMessage false s' = Ret next /\ s_data next = rest /\ s_parseOffset next = 0 /\
    s_parseState next = ThriftStartState.
Proof.
  intros Em E Ho Hs Hcap Ht Hname Hn Hq Hl Hok.
  assert (message_type typ) as Hmt by (unfold message_type; cbn; destruct Ht as [-> | ->]; auto).
  destruct (message_turns s ts typ name seq fields rest Em E Ho Hs Hmt Hn Hq Hl (or_introl Hcap) Hok) as (s' & Hp & Hd & Hoff & Hm).
  set (m0 := started ts (len (encode_body typ name seq fields)) typ name seq <| m_fields := map (mk_field thrift) fields |>) in *.
  assert (m_Method m0 = name) as Hmeth.
  { change (m_Method m0) with (cut_string thrift name). unfold cut_string. by rewrite decide_False by lia. }
  assert (m_IsRequest m0 = false) as Hreq.
  { subst m0. unfold started. cbn. apply bool_decide_false. by destruct Ht as [-> | ->]; intros [|]. }
  assert (m_SeqId m0 = seq /\ m_fields m0 = map (mk_field thrift) fields /\ m_ReturnValue m0 = [] /\ m_Exceptions m0 = [] /\
    m_HasException m0 = false) as (Hseq & Hf & Hr & He & Hx) by (subst m0; unfold started; cbn; by case_decide).
  destruct (next_message s' (encode_thrift typ name seq fields) rest) as (next & Hnx); [by rewrite Hd|done|].
  clearbody m0. exists s', (message_done thrift m0), next. split; [exact Hp|]. split; [exact Hm|].
  destruct fields as [|[id v] fields].
  { assert (message_done thrift m0 = m0) as -> by (unfold message_done; by rewrite Hreq, Hf).
    split_and!; first [assumption|apply Hnx]. }
  pose proof (done_reply m0 _ _ Hreq Hf) as [Hzero Hnz].
  change (fd_Id (mk_field thrift (id, v))) with id in *. change (fd_Value (mk_field thrift (id, v))) with (text thrift v) in *.
  case_decide as Hid; [rewrite (Hzero Hid)|rewrite (Hnz Hid), Hmeth];
    cbn [m_IsRequest m_Method m_SeqId m_ReturnValue m_Exceptions m_HasException set_field];
    split_and!; first [assumption|apply Hnx|reflexivity|exact (formatStruct_fields _ ((id, v) :: fields))].
Qed.

(** * A struct cut between two of its fields *)

Lemma struct_field_panics s m pre id l :
  s_data s = pre ++ to_byte ThriftTypeStruct :: be16 id ++ concat (map encode_field l) -> s_parseState s = ThriftFieldState ->
  fields_ok l -> len l < DropAfterNStructFields thrift -> l <> [] ->
  parser_step thrift (to_pos s pre, m) = Panic.
Proof.
  intros E Hs Hok Hmax Hne. set (body := concat (map encode_field l)) in *. set (ty := to_byte ThriftTypeStruct) in *.
  pose proof (len_nonneg pre). pose proof (len_nonneg body).
  assert (len (s_data s) = len pre + 3 + len body) as Hlen
    by (rewrite E, len_app, len_cons, len_app; change (len (be16 id)) with 2; lia).
  unfold parser_step. rewrite decide_True by (cbn; lia).
  change (s_parseState (to_pos s pre)) with (s_parseState s). rewrite Hs. unfold field_state, readField.
  change (s_data (to_pos s pre)) with (s_data s). change (s_parseOffset (to_pos s pre)) with (len pre).
  rewrite decide_False by lia. rewrite E at 1. rewrite at_mid. cbn [obind]. cbv zeta.
  change (u8 ty) with ThriftTypeStruct. rewrite decide_False by done.
  assert (s_data s = (pre ++ [ty]) ++ be16 id ++ body) as E1 by (by rewrite E, <- app_assoc).
  assert (len pre + 1 = len (pre ++ [ty])) as -> by (by rewrite len_app).
  rewrite E1 at 1. rewrite from_at. cbn [obind].
  rewrite decide_False by (rewrite len_app; change (len (be16 id)) with 2; lia).
  assert (len (pre ++ [ty]) + 2 = len (pre ++ [ty]) + len (be16 id)) as E2 by done.
  rewrite !E2. rewrite E1 at 1. rewrite slice_at. cbn [obind].
  rewrite <- (app_nil_r (be16 id)) at 1. rewrite Ntohs_be16. cbn [obind].
  assert (exists n, length (s_data s) = S n) as [n En].
  { destruct (s_data s) eqn:Ed; [|by eexists]. exfalso. rewrite len_nil in Hlen. lia. }
  rewrite En. change (funcReadersByType thrift (S n) ThriftTypeStruct) with (Some (readStruct thrift (funcReadersByType thrift n))).
  cbv iota beta. rewrite <- len_app. assert (s_data s = ((pre ++ [ty]) ++ be16 id) ++ body) as E3
    by (rewrite E1; by rewrite <- !app_assoc).
  rewrite E3 at 1. rewrite from_at. cbn [obind]. unfold body. rewrite struct_exhausted; [done|..|done|done].
  - intros x Hx. apply (Hok x Hx).
  - intros x Hx. destruct (Hok x Hx) as [_ Hw].
    apply (level_all thrift n StringMax_ok CollectionMax_ok (snd x) Hw).
    pose proof (depth_encode (snd x)). pose proof (concat_ge encode_field l x Hx) as Hc. fold body in Hc.
    unfold encode_field in Hc. cbn [length] in Hc. rewrite length_app in Hc. unfold len in Hlen. lia.
Qed.

(** A call whose first argument is a struct, cut between two fields of the struct by the
    end of the first packet of a connection, makes the parser index past the data: the
    recovered [Parse] forgets the connection, and the bytes that follow are parsed as the
    start of a message. *)
Theorem thrift_struct_split {W : Type} {PW : ProcWatcher W} pkt tcptuple dir (st : Thrift * W) size name seq id l :
  fst st = thrift -> valid_dir dir ->
  vis (pk_Payload pkt) = frame_header size ++ encode_begin ThriftMsgTypeCall name seq ++
    to_byte ThriftTypeStruct :: be16 id ++ concat (map encode_field l) ->
  len name < 2 ^ 31 -> 0 <= seq < 2 ^ 32 -> 0 <= size < 2 ^ 32 ->
  fields_ok l -> len l < DropAfterNStructFields thrift -> l <> [] ->
  Parse pkt tcptuple dir None st = Ret (None, st).
Proof.
  intros Est Hdir E Hn Hq Hsize Hok Hmax Hne. unfold Parse.
  assert (forall d, valid_dir d -> get2 (default nil2 (@None thriftPrivateData)) d = Ret None) as Hget
    by (intros d [-> | ->]; reflexivity).
  rewrite !Hget by (destruct Hdir as [-> | ->]; [by left|by right] || (destruct Hdir as [-> | ->]; [by right|by left])).
  cbn [suspended too_large]. cbv zeta. set (s := received pkt tcptuple None).
  set (post := to_byte ThriftTypeStruct :: be16 id ++ concat (map encode_field l)) in *.
  assert (s_data s = frame_header size ++ encode_begin ThriftMsgTypeCall name seq ++ post) as Ed by exact E.
  assert (len (s_data s) > 0) as Hl.
  { rewrite Ed, !len_app. pose proof (len_nonneg (frame_header size)). pose proof (len_nonneg (encode_begin ThriftMsgTypeCall name seq)).
    unfold post. rewrite len_cons. pose proof (len_nonneg (be16 id ++ concat (map encode_field l))). lia. }
  pose proof (start_turn s (pk_Ts pkt) size ThriftMsgTypeCall name seq post Ed eq_refl eq_refl
    ltac:(by left) Hn Hq Hsize (or_intror (or_introl eq_refl))) as H1.
  set (pre := frame_header size ++ encode_begin ThriftMsgTypeCall name seq) in *.
  assert (s_data (s <| s_parseState := ThriftFieldState |>) = pre ++ post) as Ed1
    by (unfold pre; rewrite <- !app_assoc; exact Ed).
  pose proof (struct_field_panics (s <| s_parseState := ThriftFieldState |>) (started (pk_Ts pkt) size ThriftMsgTypeCall name seq)
    pre id l Ed1
    eq_refl Hok Hmax Hne) as H2.
  unfold parse_loop. rewrite loop_S. unfold parse_step at 1. rewrite decide_True by done. cbv zeta.
  change (s_message s) with (Some (newMessage (pk_Ts pkt))). cbv iota. rewrite Est.
  unfold messageParser. change (s_message s) with (Some (newMessage (pk_Ts pkt))). cbv iota.
  rewrite loop_S, H1, loop_S, H2. reflexivity.
Qed.
End Messages.

(** * Examples *)

Definition demo_print : PrintTable := fun _ => true.
Definition demo_float : FloatText := fun _ => bs "0".
#[local] Existing Instance demo_print.
#[local] Existing Instance demo_float.

Definition demo_method : ThriftIdlMethod :=
  {| im_Service := {| sv_Name := bs "Calculator"; sv_Methods := [] |};
     im_Method := {| me_Name := bs "add"; me_Arguments := []; me_Exceptions := [] |};
     im_Params := [None; Some (bs "num1"); Some (bs "num2")]; im_Exceptions := [None; Some (bs "ouch")] |}.

Definition zero_thrift : Thrift :=
  {| Ports := []; StringMaxSize := 0; CollectionMaxSize := 0; DropAfterNStructFields := 0; CaptureReply := false;
     ObfuscateStrings := false; Send_request := false; Send_response := false; TransportType := 0; ProtocolType := 0;
     transMap := ∅; PublishQueue := []; results := Some []; Idl := None; timers := []; allocated := 0 |}.
Definition demo_thrift : Thrift :=
  InitDefaults zero_thrift <| CollectionMaxSize := 3 |>
    <| Idl := Some {| MethodsByName := {[bs "add" := demo_method]} |} |>.
Definition framed_thrift : Thrift := demo_thrift <| TransportType := ThriftTFramed |>.

(** Five numbers under strings in a map, in a struct, in a list. *)
Definition demo_value : tvalue :=
  VList 12 [VStruct [(1, VMap 11 6 [(VString (bs "a"), VI16 (-1)); (VString [], VI16 2)]); (7, VSet 2 [VBool true])];
            VStruct [(2, VI64 (-5))]; VStruct []; VStruct []].

Example demo_text :
  text demo_thrift demo_value =
    bs "[(1: {" ++ [x22] ++ bs "a" ++ [x22] ++ bs ": 65535, " ++ [x22; x22] ++ bs ": 2}, 7: {true}), (2: -5), (), ...]".
Proof. by vm_compute. Qed.

Lemma thrift_value_roundtrip_witness :
  exists r, funcReadersByType demo_thrift 3 (type_of demo_value) = Some r /\
    r (encode demo_value ++ [x2a]) = Ret (text demo_thrift demo_value, true, true, len (encode demo_value)).
Proof. apply (thrift_value_roundtrip demo_thrift 3 demo_value [x2a]); by vm_compute. Defined.

Definition demo_args : list (Z * tvalue) := [(1, VI32 1); (2, VI32 2)].
Definition demo_stream (data : bytes) : ThriftStream :=
  {| s_tcptuple := Demo.tuple; s_data := data; s_parseOffset := 0; s_parseState := ThriftStartState;
     s_skipInput := false; s_message := Some (newMessage 9) |}.

Definition demo_call : ThriftStream := demo_stream (encode_thrift framed_thrift 1 (bs "add") 5 demo_args ++ [x2a]).
Definition demo_failure_fields : list (Z * tvalue) := [(1, VString (bs "no"))].
Definition demo_failure : ThriftStream := demo_stream (encode_thrift demo_thrift 2 (bs "add") 5 demo_failure_fields ++ []).

Lemma demo_args_ok : fields_ok framed_thrift demo_args.
Proof. intros x [<-|[<-|[]]]; (split; [done|by vm_compute]). Qed.
Lemma demo_failure_ok : fields_ok demo_thrift demo_failure_fields.
Proof. intros x [<-|[]]; (split; [done|by vm_compute]). Qed.

Example demo_call_text :
  fields_text framed_thrift (idl_names framed_thrift im_Params (bs "add")) demo_args = bs "(num1: 1, num2: 2)" /\
  fields_text demo_thrift (idl_names demo_thrift im_Exceptions (bs "add")) demo_failure_fields =
    bs "(ouch: " ++ [x22] ++ bs "no" ++ [x22] ++ bs ")".
Proof. by vm_compute. Qed.

Lemma thrift_call_roundtrip_witness :
  exists s' m' next, messageParser framed_thrift demo_call = Ret (s', (true, true)) /\ s_message s' = Some m' /\
    m_Params m' = bs "(num1: 1, num2: 2)" /\ m_Service m' = bs "Calculator" /\
    PrepareForNewMessage false s' = Ret next /\ s_data next = [x2a].
Proof.
  destruct (thrift_call_roundtrip framed_thrift ltac:(by vm_compute) ltac:(by vm_compute)
    demo_call 9 1 (bs "add") 5 demo_args [x2a] eq_refl eq_refl eq_refl eq_refl (or_introl eq_refl)
    ltac:(by vm_compute) ltac:(by vm_compute) ltac:(lia) ltac:(by vm_compute) demo_args_ok)
    as (s' & m' & next & H1 & H2 & _ & _ & _ & _ & H3 & Hs & H4 & H5 & _).
  exists s', m', next. split; [exact H1|]. split; [exact H2|]. split; [rewrite H3; by vm_compute|].
  split; [rewrite Hs; by vm_compute|]. exact (conj H4 H5).
Defined.

Lemma thrift_reply_roundtrip_witness :
  exists s' m', messageParser demo_thrift demo_failure = Ret (s', (true, true)) /\ s_message s' = Some m' /\
    m_Exceptions m' = fields_text demo_thrift (idl_names demo_thrift im_Exceptions (bs "add")) demo_failure_fields /\
    m_HasException m' = true.
Proof.
  destruct (thrift_reply_roundtrip demo_thrift ltac:(by vm_compute) ltac:(by vm_compute)
    demo_failure 9 2 (bs "add") 5 demo_failure_fields [] eq_refl eq_refl eq_refl eq_refl eq_refl (or_introl eq_refl)
    ltac:(by vm_compute) ltac:(by vm_compute) ltac:(lia) ltac:(by vm_compute) demo_failure_ok)
    as (s' & m' & next & H1 & H2 & _ & _ & _ & (_ & H3 & H4) & _).
  exists s', m'. exact (conj H1 (conj H2 (conj H3 H4))).
Defined.

(** A struct argument cut after its first field. *)
Definition cut_call : Packet :=
  Demo.packet 3 (frame_header demo_thrift 0 ++ encode_begin 1 (bs "add") 5 ++
    to_byte 12 :: be16 1 ++ concat (map encode_field [(1, VI32 7)])).
#[local] Existing Instance Demo.watcher.

Lemma thrift_struct_split_witness : Parse cut_call Demo.tuple 1 None (demo_thrift, tt) = Ret (None, (demo_thrift, tt)).
Proof.
  apply (thrift_struct_split demo_thrift ltac:(by vm_compute) ltac:(by vm_compute) cut_call Demo.tuple 1 (demo_thrift, tt)
    0 (bs "add") 5 1 [(1, VI32 7)] eq_refl (or_intror eq_refl) eq_refl ltac:(by vm_compute) ltac:(lia) ltac:(lia)).
  - intros x [<-|[]]. split; [done|by vm_compute].
  - by vm_compute.
  - done.
Defined.

Definition demo_private : thriftPrivateData := {| dir0 := Some demo_call; dir1 := None |}.

Lemma thrift_Parse_total_witness :
  exists private' st', Parse cut_call Demo.tuple 0 (Some demo_private) (demo_thrift, tt) = Ret (private', st') /\
    priv_ok private'.
Proof.
  apply (thrift_Parse_total cut_call Demo.tuple 0 (Some demo_private) (demo_thrift, tt)).
  intros dir s. unfold get2. cbn [default dir0 dir1 id demo_private].
  repeat case_decide; try done. intros [= <-]. unfold offset_ok. split; [done|]. apply len_nonneg.
Defined.
