(* ===== verification/ThriftTransactions.v ===== *)
(** Thrift transactions: the invariant of the transactions map and of the timers under
    any interleaving of messages, connection ends, timers and publication, with the identity of
    every call; the event of a call and its reply; and the stale timer of a replaced call. *)
From S2P Require Import Thrift.
From stdpp Require Import list.
#[local] Open Scope Z_scope.

Definition key_of (t : ThriftTransaction) : bytes := TcpHashable (t_tuple t).

(** * The invariant *)

(** A pending call is filed under its own tuple, has its request and no reply, and has a
    running timer. *)
Definition pending_ok (thrift : Thrift) (key : bytes) (t : ThriftTransaction) : Prop :=
  key_of t = key /\ (exists m, t_Request t = Some m /\ m_IsRequest m = true) /\ t_Reply t = None /\
  exists u, u ∈ timers thrift /\ t_ptr u = t_ptr t /\ key_of u = key.

Definition Thrift_ok (thrift : Thrift) : Prop :=
  (forall key t, transMap thrift !! key = Some (Some t) -> pending_ok thrift key t) /\
  NoDup (t_ptr <$> timers thrift) /\ Forall (fun t => (t_ptr t < allocated thrift)%nat) (timers thrift).

Lemma pending_entry thrift key t : pending thrift key = Some t <-> transMap thrift !! key = Some (Some t).
Proof. unfold pending. destruct (transMap thrift !! key) as [[u|]|]; naive_solver. Qed.

Lemma stop_timer_filter ptr ts : stop_timer ptr ts = filter (fun t => t_ptr t <> ptr) ts.
Proof.
  induction ts as [|t ts IH]; [done|]. unfold stop_timer in *. cbn [List.filter]. rewrite filter_cons, IH.
  case_bool_decide; cbn [negb]; case_decide; naive_solver.
Qed.

Lemma stop_timer_ok ptr ts n :
  NoDup (t_ptr <$> ts) -> Forall (fun t => (t_ptr t < n)%nat) ts ->
  NoDup (t_ptr <$> stop_timer ptr ts) /\ Forall (fun t => (t_ptr t < n)%nat) (stop_timer ptr ts).
Proof.
  intros Hd Hl. rewrite stop_timer_filter. split.
  - eapply sublist_NoDup; [exact Hd|apply fmap_sublist, sublist_filter].
  - apply Forall_forall. intros t [_ Ht]%list_elem_of_filter. rewrite Forall_forall in Hl. by apply Hl.
Qed.

Lemma stop_timer_keeps ptr ts u : u ∈ ts -> t_ptr u <> ptr -> u ∈ stop_timer ptr ts.
Proof. intros Hu Hp. rewrite stop_timer_filter. by apply list_elem_of_filter. Qed.

(** Timers with the same number are the same. *)
Lemma timer_unique thrift u v :
  Thrift_ok thrift -> u ∈ timers thrift -> v ∈ timers thrift -> t_ptr u = t_ptr v -> u = v.
Proof.
  intros (_ & Hd & _) Hu Hv E. apply list_elem_of_lookup in Hu as [i Hi]. apply list_elem_of_lookup in Hv as [j Hj].
  assert (i = j) as ->; [|congruence].
  eapply NoDup_lookup; [exact Hd| |]; rewrite list_lookup_fmap; [by rewrite Hi|by rewrite Hj; cbn; rewrite E].
Qed.

(** Two pending calls have different timers. *)
Lemma pending_distinct thrift k1 k2 t1 t2 :
  Thrift_ok thrift -> transMap thrift !! k1 = Some (Some t1) -> transMap thrift !! k2 = Some (Some t2) ->
  t_ptr t1 = t_ptr t2 -> k1 = k2.
Proof.
  intros Hok H1 H2 E. pose proof Hok as (Hp & _).
  destruct (Hp _ _ H1) as (_ & _ & _ & u & Hu & Eu & Ku). destruct (Hp _ _ H2) as (_ & _ & _ & v & Hv & Ev & Kv).
  assert (u = v) as -> by (eapply timer_unique; try done; congruence). congruence.
Qed.

(** What happens to the plugin: a message is handled, a connection ends, a running timer
    fires, or the publisher takes the next transaction from the queue. *)
Inductive action :=
| AMessage (m : ThriftMessage) (tuple : TcpTuple) (cmdline : CmdlineTuple)
| AFin (tuple : TcpTuple)
| AFire (ptr : nat)
| APublish.

Definition exec (thrift : Thrift) (a : action) : outcome Thrift :=
  match a with
  | AMessage m tuple cmdline => handleThrift thrift m tuple cmdline
  | AFin tuple => Ret (snd (ReceivedFin tuple 0 None thrift))
  | AFire ptr =>
      Ret match List.find (fun t => bool_decide (t_ptr t = ptr)) (timers thrift) with
          | Some t => fire thrift t
          | None => thrift
          end
  | APublish => Ret (publish_next thrift)
  end.

Fixpoint execs (thrift : Thrift) (acts : list action) : outcome Thrift :=
  match acts with
  | [] => Ret thrift
  | a :: acts => let! thrift := exec thrift a in execs thrift acts
  end.

(** The calls that are received, with the tuples of their connections. *)
Definition received_of (a : action) : list (ThriftMessage * TcpTuple) :=
  match a with AMessage m tuple _ => if m_IsRequest m then [(m, tuple)] else [] | _ => [] end.
Definition received (acts : list action) : list (ThriftMessage * TcpTuple) := flat_map received_of acts.
Definition fires (acts : list action) : nat := length (List.filter (fun a => match a with AFire _ => true | _ => false end) acts).

(** The calls that the publisher takes from the queue on the way. *)
Definition taken (thrift : Thrift) (a : action) : list ThriftTransaction :=
  match a with APublish => take 1 (PublishQueue thrift) | _ => [] end.
Fixpoint published (thrift : Thrift) (acts : list action) : list ThriftTransaction :=
  match acts with
  | [] => []
  | a :: acts => taken thrift a ++ match exec thrift a with Ret thrift => published thrift acts | _ => [] end
  end.

(** The calls that wait for their reply, and those that wait or are queued. *)
Definition waiting (thrift : Thrift) : list ThriftTransaction := (map_to_list (omap (M := gmap bytes) id (transMap thrift))).*2.
Definition held (thrift : Thrift) : list ThriftTransaction := PublishQueue thrift ++ waiting thrift.

(** [t] is a call received on the way, its number telling which (the first one has number [n]),
    and its reply, if it has one, a reply of that method received on that connection. *)
Definition call_of (n : nat) (acts : list action) (t : ThriftTransaction) : Prop :=
  exists i m, received acts !! i = Some (m, t_tuple t) /\ t_ptr t = (n + i)%nat /\ t_Request t = Some m /\
    forall reply, t_Reply t = Some reply -> m_IsRequest reply = false /\ m_Method reply = m_Method m /\
      exists tuple c, AMessage reply tuple c ∈ acts /\ TcpHashable tuple = TcpHashable (t_tuple t).

Lemma omap_lookup (m : gmap bytes (option ThriftTransaction)) k : omap (M := gmap bytes) id m !! k = m !! k ≫= id.
Proof. by rewrite lookup_omap. Qed.

(** ** Each kind of step *)

Lemma newTransaction_fields n m tuple c :
  let t := newTransaction n m tuple c in
  t_ptr t = n /\ t_tuple t = tuple /\ t_Request t = Some m /\ t_Reply t = None /\ t_ts t = m_Ts m.
Proof. unfold newTransaction. by destruct (endpoints _ _ _). Qed.

Lemma thrift_request_ok thrift m tuple c :
  Thrift_ok thrift -> m_IsRequest m = true -> Thrift_ok (receivedRequest thrift m tuple c).
Proof.
  intros (Hp & Hd & Hl) Hm. unfold receivedRequest.
  set (th := match pending thrift _ with Some _ => _ | None => thrift end).
  assert (transMap th = transMap thrift /\ timers th = timers thrift /\ allocated th = allocated thrift) as (E1 & E2 & E3)
    by (subst th; by destruct (pending thrift _)).
  cbv zeta. destruct (newTransaction_fields (allocated th) m tuple c) as (T1 & T2 & T3 & T4 & _). cbv zeta in *.
  set (t := newTransaction (allocated th) m tuple c) in *. unfold Thrift_ok. cbn [transMap timers allocated set_field].
  rewrite E1, E2. rewrite E3 in *. split; [|split].
  - intros key u. rewrite lookup_insert. case_decide as Ek.
    + intros [= <-]. unfold pending_ok. cbn [timers set_field]. unfold key_of. rewrite T2, T4. split; [done|].
      split; [by exists m|]. split; [done|]. exists t. rewrite elem_of_app, list_elem_of_singleton, T2. auto.
    + intros Hu. destruct (Hp _ _ Hu) as (H1 & H2 & H3 & v & Hv & H4). repeat split; try done.
      exists v. cbn [timers set_field]. rewrite elem_of_app. auto.
  - rewrite fmap_app. apply NoDup_app. split; [done|]. split; [|apply NoDup_singleton].
    intros ptr (u & -> & Hu)%list_elem_of_fmap Hin. cbn in Hin. apply list_elem_of_singleton in Hin.
    rewrite Forall_forall in Hl. apply Hl in Hu. lia.
  - apply Forall_app. split; [eapply Forall_impl; [exact Hl|]; cbn; lia|]. constructor; [lia|constructor].
Qed.

(** An entry of the map goes, with the timer numbered [ptr] of the same key. *)
Lemma removed_ok thrift thrift' key ptr :
  Thrift_ok thrift -> (forall v, v ∈ timers thrift -> t_ptr v = ptr -> key_of v = key) ->
  (forall k, k <> key -> transMap thrift' !! k = transMap thrift !! k) -> transMap thrift' !! key ≫= id = None ->
  timers thrift' = stop_timer ptr (timers thrift) -> allocated thrift' = allocated thrift -> Thrift_ok thrift'.
Proof.
  intros (Hp & Hd & Hl) Hk Hne Heq Htm Ha.
  destruct (stop_timer_ok ptr _ _ Hd Hl) as [H1 H2]. unfold Thrift_ok. rewrite Htm, Ha. split; [|done].
  intros k u Hu. destruct (decide (k = key)) as [->|Hkk]; [by rewrite Hu in Heq|]. rewrite Hne in Hu by done.
  destruct (Hp _ _ Hu) as (P1 & P2 & P3 & v & Hv & P4 & P5). repeat split; try done. exists v. rewrite Htm.
  split; [|done]. apply stop_timer_keeps; [done|]. intros E. apply Hkk. rewrite <- P5. by apply Hk.
Qed.

(** The timer of a pending call is of its key. *)
Lemma pending_timer thrift key t v :
  Thrift_ok thrift -> transMap thrift !! key = Some (Some t) -> v ∈ timers thrift -> t_ptr v = t_ptr t -> key_of v = key.
Proof.
  intros Hok Ht Hv E. destruct (proj1 Hok _ _ Ht) as (_ & _ & _ & u & Hu & Eu & <-). f_equal.
  eapply timer_unique; try done. congruence.
Qed.

(** The calls that wait when one entry of the map changes. *)
Lemma waiting_removed thrift thrift' key :
  (forall k, k <> key -> transMap thrift' !! k = transMap thrift !! k) -> transMap thrift' !! key ≫= id = None ->
  waiting thrift ≡ₚ option_list (pending thrift key) ++ waiting thrift'.
Proof.
  intros Hne Heq. unfold waiting.
  assert (omap (M := gmap bytes) id (transMap thrift') = delete key (omap (M := gmap bytes) id (transMap thrift))) as ->.
  { apply map_eq. intros k. rewrite omap_lookup, lookup_delete. case_decide as E; [by subst|].
    by rewrite omap_lookup, Hne by done. }
  pose proof (omap_lookup (transMap thrift) key) as E. unfold pending.
  destruct (transMap thrift !! key) as [[t|]|]; cbn [mbind option_bind id option_list app] in *; [|by rewrite delete_id..].
  by rewrite <- (map_to_list_delete _ key t E).
Qed.

Lemma waiting_added thrift thrift' key t :
  transMap thrift' = <[key := Some t]> (transMap thrift) ->
  option_list (pending thrift key) ++ waiting thrift' ≡ₚ t :: waiting thrift.
Proof.
  intros E. set (th := thrift <| transMap := delete key (transMap thrift) |>).
  assert (waiting thrift ≡ₚ option_list (pending thrift key) ++ waiting th) as ->.
  { apply waiting_removed; unfold th; cbn [transMap set_field]; [|by rewrite lookup_delete_eq].
    intros k Hk. by rewrite lookup_delete_ne. }
  assert (waiting thrift' ≡ₚ t :: waiting th) as ->; [|by rewrite Permutation_middle].
  assert (pending thrift' key = Some t) as Ep by (unfold pending; by rewrite E, lookup_insert_eq).
  rewrite (waiting_removed thrift' th key), Ep; [done|..]; unfold th; cbn [transMap set_field]; [|by rewrite lookup_delete_eq].
  intros k Hk. by rewrite E, lookup_delete_ne, lookup_insert_ne.
Qed.

Lemma held_request thrift m tuple c :
  held (receivedRequest thrift m tuple c) ≡ₚ newTransaction (allocated thrift) m tuple c :: held thrift.
Proof.
  unfold receivedRequest. cbv zeta.
  set (th := match pending thrift _ with Some _ => _ | None => thrift end).
  assert (transMap th = transMap thrift /\ allocated th = allocated thrift /\
    PublishQueue th = PublishQueue thrift ++ option_list (pending thrift (TcpHashable tuple))) as (E1 & E2 & E3)
    by (subst th; destruct (pending thrift _); cbn [option_list]; by rewrite ?app_nil_r).
  clearbody th. rewrite E2. set (t := newTransaction _ _ _ _).
  set (thrift' := th <| allocated := _ |> <| transMap := _ |> <| timers := _ |>).
  assert (option_list (pending thrift (TcpHashable tuple)) ++ waiting thrift' ≡ₚ t :: waiting thrift) as H
    by (apply waiting_added; unfold thrift'; cbn [transMap set_field]; by rewrite E1).
  unfold held. change (PublishQueue thrift') with (PublishQueue th). rewrite E3, <- app_assoc, H. by rewrite Permutation_middle.
Qed.

(** The reply of a request, as it is published. *)
Definition answered (t : ThriftTransaction) (reply : ThriftMessage) : ThriftTransaction :=
  t <| t_Reply := Some reply |> <| t_ResponseTime := millis32 (time_Sub (m_Ts reply) (t_ts t)) |>.

(** A reply either changes nothing or answers the call that waits. *)
Lemma reply_ok thrift m tuple :
  Thrift_ok thrift -> exists thrift', receivedReply thrift m tuple = Ret thrift' /\ Thrift_ok thrift' /\
    (thrift' = thrift \/ exists t req l, transMap thrift !! TcpHashable tuple = Some (Some t) /\
       t_Request t = Some req /\ m_Method req = m_Method m /\ held thrift ≡ₚ t :: l /\ held thrift' ≡ₚ answered t m :: l /\
       thrift' = thrift <| PublishQueue := PublishQueue thrift' |> <| transMap := transMap thrift' |> <| timers := timers thrift' |>).
Proof.
  intros Hok. unfold receivedReply. destruct (pending thrift (TcpHashable tuple)) as [t|] eqn:Hpend; [|exists thrift; auto].
  pose proof Hpend as Ht. apply pending_entry in Ht. destruct (proj1 Hok _ _ Ht) as (_ & (req & Hreq & _) & _). rewrite Hreq.
  case_decide as Hm; [exists thrift; auto|]. eexists. split; [reflexivity|]. cbv zeta. fold (answered t m).
  set (thrift' := thrift <| PublishQueue := _ |> <| transMap := _ |> <| timers := _ |>).
  assert (forall k, k <> TcpHashable tuple -> transMap thrift' !! k = transMap thrift !! k) as Hne
    by (intros k Hk; unfold thrift'; cbn [transMap set_field]; by rewrite lookup_insert_ne).
  assert (transMap thrift' !! TcpHashable tuple ≫= id = None) as Heq
    by (unfold thrift'; cbn [transMap set_field]; by rewrite lookup_insert_eq).
  split.
  - apply (removed_ok thrift thrift' (TcpHashable tuple) (t_ptr t)); try done.
    intros v. by apply pending_timer.
  - right. exists t, req, (PublishQueue thrift ++ waiting thrift'). split; [done|]. split; [done|].
    split; [by destruct (decide (m_Method req = m_Method m))|]. split; [|split; [|done]].
    + unfold held. rewrite (waiting_removed thrift thrift' _ Hne Heq), Hpend. cbn [option_list app].
      symmetry. apply Permutation_middle.
    + unfold held. change (PublishQueue thrift') with (PublishQueue thrift ++ [answered t m]).
      rewrite <- app_assoc. symmetry. apply (Permutation_middle _ (waiting thrift')).
Qed.

Lemma fin_ok thrift tuple :
  Thrift_ok thrift -> let thrift' := snd (ReceivedFin tuple 0 None thrift) in
    Thrift_ok thrift' /\ held thrift' ≡ₚ held thrift /\
    thrift' = thrift <| PublishQueue := PublishQueue thrift' |> <| transMap := transMap thrift' |> <| timers := timers thrift' |>.
Proof.
  intros Hok. unfold ReceivedFin. destruct (pending thrift (TcpHashable tuple)) as [t|] eqn:Hpend; [|by destruct thrift].
  pose proof Hpend as Ht. apply pending_entry in Ht. destruct (proj1 Hok _ _ Ht) as (Ekey & (req & -> & _) & -> & _).
  cbn [snd]. change (TcpHashable (t_tuple t)) with (key_of t). rewrite Ekey.
  set (thrift' := thrift <| PublishQueue := _ |> <| transMap := _ |> <| timers := _ |>).
  assert (forall k, k <> TcpHashable tuple -> transMap thrift' !! k = transMap thrift !! k) as Hne
    by (intros k Hk; unfold thrift'; cbn [transMap set_field]; by rewrite lookup_delete_ne).
  assert (transMap thrift' !! TcpHashable tuple ≫= id = None) as Heq
    by (unfold thrift'; cbn [transMap set_field]; by rewrite lookup_delete_eq).
  split; [|split; [|done]].
  - apply (removed_ok thrift thrift' (TcpHashable tuple) (t_ptr t)); try done. intros v. by apply pending_timer.
  - unfold held. rewrite (waiting_removed thrift thrift' _ Hne Heq), Hpend.
    change (PublishQueue thrift') with (PublishQueue thrift ++ [t]). by rewrite <- app_assoc.
Qed.

Lemma fire_ok thrift u :
  Thrift_ok thrift -> u ∈ timers thrift ->
  Thrift_ok (fire thrift u) /\ exists l, held thrift ≡ₚ l ++ held (fire thrift u) /\ (length l <= 1)%nat.
Proof.
  intros Hok Hu.
  assert (forall k, k <> key_of u -> transMap (fire thrift u) !! k = transMap thrift !! k) as Hne
    by (intros k Hk; unfold fire, expireTransaction; cbn [transMap set_field]; by rewrite lookup_delete_ne).
  assert (transMap (fire thrift u) !! key_of u ≫= id = None) as Heq
    by (unfold fire, expireTransaction; cbn [transMap set_field]; unfold key_of; by rewrite lookup_delete_eq).
  split.
  - apply (removed_ok thrift _ (key_of u) (t_ptr u)); try done. intros v Hv E. f_equal. by eapply timer_unique.
  - exists (option_list (pending thrift (key_of u))). split; [|destruct (pending thrift _); cbn; lia].
    unfold held. rewrite (waiting_removed thrift _ _ Hne Heq).
    change (PublishQueue (fire thrift u)) with (PublishQueue thrift). by rewrite !app_assoc, (Permutation_app_comm (option_list _)).
Qed.

(** ** The invariant of a run *)

(** After [acts], with the calls of [log] published: the calls known are received ones, each
    only once, and all of them but those that a timer removed. *)
Definition tracked (n : nat) (acts : list action) (calls : list ThriftTransaction) : Prop :=
  Forall (call_of n acts) calls /\ NoDup (t_ptr <$> calls) /\ (length (received acts) <= length calls + fires acts)%nat.

Lemma received_snoc acts a : received (acts ++ [a]) = received acts ++ received_of a.
Proof. unfold received. by rewrite flat_map_app; cbn; rewrite app_nil_r. Qed.

Lemma fires_snoc acts a : fires (acts ++ [a]) = (fires acts + fires [a])%nat.
Proof. unfold fires. by rewrite List.filter_app, length_app. Qed.

Lemma call_of_snoc n acts a t : call_of n acts t -> call_of n (acts ++ [a]) t.
Proof.
  intros (i & m & Hi & Hp & Hr & Hreply). exists i, m. rewrite received_snoc.
  split; [by apply lookup_app_l_Some|]. split; [done|]. split; [done|]. intros reply E.
  destruct (Hreply reply E) as (H1 & H2 & tuple & c & H3 & H4). split; [done|]. split; [done|].
  exists tuple, c. split; [apply elem_of_app; by left|done].
Qed.

#[local] Instance tracked_perm n acts : Proper ((≡ₚ) ==> impl) (tracked n acts).
Proof.
  intros l1 l2 E (Hc & Hd & Hl). split; [by rewrite <- E|]. split; [by rewrite <- E|]. by rewrite <- (Permutation_length E).
Qed.

(** A step that only moves calls, or loses one when a timer fires. *)
Lemma tracked_moved n acts a calls l calls' :
  tracked n acts calls -> calls ≡ₚ l ++ calls' -> (length l <= fires [a])%nat -> received_of a = [] ->
  tracked n (acts ++ [a]) calls'.
Proof.
  intros Htr Hp Hlen Hr. destruct (tracked_perm n acts _ _ Hp Htr) as (Hc & Hd & Hl). apply Forall_app in Hc as [_ Hc].
  rewrite fmap_app in Hd. apply NoDup_app in Hd as (_ & _ & Hd). split; [|split; [done|]].
  - eapply Forall_impl; [exact Hc|]. intros t. apply call_of_snoc.
  - rewrite received_snoc, Hr, app_nil_r, fires_snoc. rewrite length_app in Hl. lia.
Qed.

Lemma tracked_request n acts m tuple c calls :
  tracked n acts calls -> m_IsRequest m = true ->
  tracked n (acts ++ [AMessage m tuple c]) (newTransaction (n + length (received acts)) m tuple c :: calls).
Proof.
  intros (Hc & Hd & Hl) Hm. destruct (newTransaction_fields (n + length (received acts)) m tuple c) as (T1 & T2 & T3 & T4 & _).
  cbv zeta in *. set (t := newTransaction _ _ _ _) in *.
  assert (received (acts ++ [AMessage m tuple c]) = received acts ++ [(m, tuple)]) as Er
    by (rewrite received_snoc; cbn; by rewrite Hm).
  split; [|split].
  - constructor; [|eapply Forall_impl; [exact Hc|]; intros ?; apply call_of_snoc].
    exists (length (received acts)), m. rewrite Er, T2, T4. split; [by apply list_lookup_middle|]. done.
  - cbn [fmap list_fmap]. constructor; [|done]. rewrite T1. intros (u & E & Hu)%list_elem_of_fmap.
    rewrite Forall_forall in Hc. destruct (Hc u Hu) as (i & m' & Hi & Hp & _). apply lookup_lt_Some in Hi. lia.
  - rewrite Er, fires_snoc, length_app. cbn. lia.
Qed.

Lemma tracked_answer n acts m tuple c calls calls' t req l :
  tracked n acts calls -> m_IsRequest m = false -> t_Request t = Some req -> m_Method req = m_Method m ->
  TcpHashable (t_tuple t) = TcpHashable tuple -> calls ≡ₚ t :: l -> calls' ≡ₚ answered t m :: l ->
  tracked n (acts ++ [AMessage m tuple c]) calls'.
Proof.
  intros Htr Hm Hreq Hmeth Ht E E'. destruct (tracked_perm n acts _ _ E Htr) as (Hc & Hd & Hl).
  apply (tracked_perm _ _ _ _ (symmetry E')).
  apply Forall_cons in Hc as [(i & req' & Hi & Hp & Hr & _) Hc]. split; [|split; [exact Hd|]].
  - constructor; [|eapply Forall_impl; [exact Hc|]; intros ?; apply call_of_snoc].
    exists i, req'. rewrite received_snoc. split; [by apply lookup_app_l_Some|]. split; [done|]. split; [done|].
    intros reply [= <-]. assert (req' = req) as -> by congruence. split; [done|]. split; [done|].
    exists tuple, c. split; [|done]. apply elem_of_app. right. by apply list_elem_of_singleton.
  - rewrite received_snoc, fires_snoc. cbn. rewrite Hm, app_nil_r. cbn in Hl. lia.
Qed.


Lemma publish_ok thrift :
  Thrift_ok thrift -> Thrift_ok (publish_next thrift) /\ held thrift = taken thrift APublish ++ held (publish_next thrift).
Proof.
  intros Hok. unfold publish_next, held. cbn [taken]. destruct (PublishQueue thrift) as [|t q] eqn:E; [|by split].
  split; [done|]. by rewrite E.
Qed.

(** What a step does to the events: those of the calls taken from the queue are sent. *)
Definition sends (thrift : Thrift) (a : action) (thrift' : Thrift) : Prop :=
  Send_request thrift' = Send_request thrift /\ Send_response thrift' = Send_response thrift /\
  results thrift' = (fun sent => sent ++ map (publish_event thrift) (taken thrift a)) <$> results thrift.

Lemma sends_nothing thrift a thrift' :
  taken thrift a = [] -> Send_request thrift' = Send_request thrift -> Send_response thrift' = Send_response thrift ->
  results thrift' = results thrift -> sends thrift a thrift'.
Proof. intros Ht H1 H2 H3. split; [done|]. split; [done|]. rewrite Ht, H3. by destruct (results thrift); cbn; rewrite ?app_nil_r. Qed.

Lemma publish_sends thrift : sends thrift APublish (publish_next thrift).
Proof.
  unfold sends, publish_next. cbn [taken]. destruct (PublishQueue thrift) as [|t q]; [|by destruct (results thrift)].
  by destruct (results thrift); cbn; rewrite ?app_nil_r.
Qed.

Lemma action_ok n acts a log thrift :
  Thrift_ok thrift -> allocated thrift = (n + length (received acts))%nat -> tracked n acts (log ++ held thrift) ->
  exists thrift', exec thrift a = Ret thrift' /\ Thrift_ok thrift' /\
    allocated thrift' = (n + length (received (acts ++ [a])))%nat /\
    tracked n (acts ++ [a]) ((log ++ taken thrift a) ++ held thrift') /\ sends thrift a thrift'.
Proof.
  intros Hok Ha Ht. rewrite received_snoc. destruct a as [m tuple c|tuple|ptr|]; cbn [exec taken received_of]; rewrite ?app_nil_r.
  - unfold handleThrift. destruct (m_IsRequest m) eqn:Em.
    + eexists. split; [reflexivity|]. split; [by apply thrift_request_ok|]. split.
      { rewrite length_app. unfold receivedRequest. destruct (pending thrift (TcpHashable tuple)); cbn; lia. }
      split; [|apply sends_nothing; unfold receivedRequest; by destruct (pending thrift (TcpHashable tuple))].
      eapply tracked_perm; [|by apply tracked_request; [exact Ht|exact Em]].
      rewrite (held_request thrift m tuple c), Ha. apply Permutation_middle.
    + destruct (reply_ok thrift m tuple Hok) as (th & -> & H1 & [->|(t & req & l & Hmap & Hreq & Hm & E & E' & Eth)]).
      * exists thrift. rewrite app_nil_r. split; [done|]. split; [done|]. split; [done|]. split; [|by apply sends_nothing].
        by apply (tracked_moved n acts _ (log ++ held thrift) []); [..|cbn; rewrite Em].
      * exists th. rewrite app_nil_r. split; [done|]. split; [done|]. split; [by rewrite Eth|].
        split; [|rewrite Eth; by apply sends_nothing].
        apply (tracked_answer n acts m tuple c (log ++ held thrift) _ t req (log ++ l)); try done.
        -- by destruct (proj1 Hok _ _ Hmap) as [Ek _].
        -- rewrite E. symmetry. apply Permutation_middle.
        -- rewrite E'. symmetry. apply Permutation_middle.
  - destruct (fin_ok thrift tuple Hok) as (H1 & H2 & Eth). set (th := snd _) in *. exists th. split; [done|]. split; [done|].
    split; [by rewrite Eth|]. split; [|rewrite Eth; by apply sends_nothing].
    apply (tracked_moved n acts _ (log ++ held thrift) []); try done. cbn [app]; by rewrite H2.
  - eexists. split; [reflexivity|]. destruct (List.find _ _) as [u|] eqn:Ef.
    + apply List.find_some in Ef as [Hu _]. apply list_elem_of_In in Hu. destruct (fire_ok thrift u Hok Hu) as (H1 & l & E & Hl).
      split; [done|]. split; [done|]. split; [|by apply sends_nothing].
      apply (tracked_moved n acts _ (log ++ held thrift) l); try done. rewrite E, !app_assoc. by rewrite (Permutation_app_comm log l).
    + split; [done|]. split; [done|]. split; [|by apply sends_nothing].
      by apply (tracked_moved n acts _ (log ++ held thrift) []); try done; cbn; lia.
  - eexists. split; [reflexivity|]. destruct (publish_ok thrift Hok) as [H1 E]. split; [done|].
    split; [unfold publish_next; by destruct (PublishQueue thrift)|]. split; [|apply publish_sends].
    apply (tracked_moved n acts _ (log ++ held thrift) []); try done. rewrite E. by rewrite <- app_assoc.
Qed.

Lemma publish_event_same thrift thrift' t :
  Send_request thrift' = Send_request thrift -> Send_response thrift' = Send_response thrift ->
  publish_event thrift' t = publish_event thrift t.
Proof. intros E1 E2. unfold publish_event. by rewrite E1, E2. Qed.

Lemma thrift_run_ok acts : forall n done log thrift,
  Thrift_ok thrift -> allocated thrift = (n + length (received done))%nat -> tracked n done (log ++ held thrift) ->
  exists thrift', execs thrift acts = Ret thrift' /\ Thrift_ok thrift' /\
    tracked n (done ++ acts) ((log ++ published thrift acts) ++ held thrift') /\
    results thrift' = (fun sent => sent ++ map (publish_event thrift) (published thrift acts)) <$> results thrift.
Proof.
  induction acts as [|a acts IH]; intros n done log thrift Hok Ha Ht; cbn [execs published].
  { exists thrift. rewrite !app_nil_r. split; [reflexivity|]. split; [exact Hok|]. split; [exact Ht|].
    by destruct (results thrift); cbn; rewrite ?app_nil_r. }
  destruct (action_ok n done a log thrift Hok Ha Ht) as (th & -> & Hok' & Ha' & Ht' & Hs1 & Hs2 & Hr). cbn [obind].
  destruct (IH n (done ++ [a]) (log ++ taken thrift a) th Hok' Ha' Ht') as (th' & E & Hok'' & Ht'' & Hr'').
  exists th'. split; [exact E|]. split; [exact Hok''|].
  split; [rewrite <- app_assoc, <- (app_assoc log) in Ht''; exact Ht''|]. rewrite Hr'', Hr. destruct (results thrift); [|done]. cbn. f_equal.
  rewrite map_app, <- app_assoc. f_equal. f_equal. apply map_ext. intros t. by apply publish_event_same.
Qed.

(** C18: from a plugin that has seen nothing, whatever the order in which messages arrive,
    connections end, timers fire and the publisher runs: the plugin does not panic; every
    pending call stays filed under its own tuple with a running timer and without a reply;
    the events sent are those of the calls taken from the queue; these, the queued and the
    pending ones are received calls, each with a reply of its own method and connection or
    with none, and no received call is among them twice; and none of the received calls is
    missing but one at most for each timer that fired. *)
Theorem thrift_transactions_invariant acts thrift :
  transMap thrift = ∅ -> PublishQueue thrift = [] -> timers thrift = [] ->
  exists thrift', execs thrift acts = Ret thrift' /\ Thrift_ok thrift' /\
    results thrift' = (fun sent => sent ++ map (publish_event thrift) (published thrift acts)) <$> results thrift /\
    let calls := published thrift acts ++ held thrift' in
    Forall (call_of (allocated thrift) acts) calls /\ NoDup (t_ptr <$> calls) /\
    (length (received acts) <= length calls + fires acts)%nat.
Proof.
  intros Hm Hq Ht.
  assert (Thrift_ok thrift) as Hok by (unfold Thrift_ok; rewrite Hm, Ht; split; [by intros|split; constructor]).
  assert (held thrift = []) as Hh by (unfold held, waiting; rewrite Hm, Hq; by rewrite omap_empty, map_to_list_empty).
  destruct (thrift_run_ok acts (allocated thrift) [] [] thrift Hok) as (th & E & H1 & H2 & H3);
    [cbn; lia|rewrite Hh; split; [constructor|split; [constructor|cbn; lia]]|].
  exists th. split; [exact E|]. split; [exact H1|]. split; [exact H3|]. exact H2.
Qed.

(** * A call and its reply *)

Lemma find_timer thrift t :
  Thrift_ok thrift -> t ∈ timers thrift ->
  List.find (fun u => bool_decide (t_ptr u = t_ptr t)) (timers thrift) = Some t.
Proof.
  intros Hok Ht. destruct (List.find _ _) as [u|] eqn:E.
  - apply List.find_some in E as [Hu E]. apply bool_decide_eq_true in E. apply list_elem_of_In in Hu.
    f_equal. by eapply timer_unique.
  - pose proof (List.find_none _ _ E t) as H. cbn in H. rewrite bool_decide_true in H by done.
    apply list_elem_of_In in Ht. by specialize (H Ht).
Qed.

Lemma receivedRequest_first thrift m tuple c :
  pending thrift (TcpHashable tuple) = None ->
  receivedRequest thrift m tuple c =
    let t := newTransaction (allocated thrift) m tuple c in
    thrift <| allocated := S (allocated thrift) |> <| transMap := <[TcpHashable tuple := Some t]> (transMap thrift) |>
           <| timers := timers thrift ++ [t] |>.
Proof. intros E. unfold receivedRequest. by rewrite E. Qed.

(** The fields of the event of a call with its reply. *)
Lemma event_fields thrift t req reply :
  t_Request t = Some req ->
  let event := publish_event thrift (answered t reply) in
  event !! bs "status" = Some (MStr (if m_HasException reply then ERROR_STATUS else OK_STATUS)) /\
  event !! bs "responsetime" = Some (MInt (millis32 (time_Sub (m_Ts reply) (t_ts t)))) /\
  event !! bs "query" = Some (MStr (m_Method req ++ m_Params req)) /\
  event !! bs "bytes_in" = Some (MInt (m_FrameSize req)) /\
  event !! bs "bytes_out" = Some (MInt (m_FrameSize reply)) /\
  exists fields, event !! bs "thrift" = Some (MMap fields) /\
    fields !! bs "params" = Some (MStr (m_Params req)) /\
    fields !! bs "return_value" = Some (MStr (m_ReturnValue reply)).
Proof.
  intros E. cbv zeta. unfold publish_event. change (t_Request (answered t reply)) with (t_Request t). rewrite E.
  change (t_Reply (answered t reply)) with (Some reply).
  change (t_ResponseTime (answered t reply)) with (millis32 (time_Sub (m_Ts reply) (t_ts t))).
  destruct (Send_request thrift), (Send_response thrift), (m_HasException reply); cbv iota zeta beta;
    (do 5 (split; [by map_lookups|])); (eexists; split; [by map_lookups|]);
    destruct (decide (len (m_Service req) > 0)), (decide (len (m_Exceptions reply) > 0)); (split; [by map_lookups|by map_lookups]).
Qed.

(** A call and the reply of the same method make one event, with the method, the parameters,
    the result and both sizes; the timer is stopped; the entry of the connection
    stays in the map as a nil pointer, and the end of the connection does not
    remove it. *)
Theorem thrift_exchange_published thrift req reply tuple c l :
  Thrift_ok thrift -> pending thrift (TcpHashable tuple) = None -> PublishQueue thrift = [] -> results thrift = Some l ->
  m_IsRequest req = true -> m_IsRequest reply = false -> m_Method reply = m_Method req ->
  exists thrift' event,
    execs thrift [AMessage req tuple c; AMessage reply tuple c; APublish; AFin tuple] = Ret thrift' /\
    results thrift' = Some (l ++ [event]) /\ PublishQueue thrift' = [] /\ timers thrift' = timers thrift /\
    transMap thrift' !! TcpHashable tuple = Some None /\
    event !! bs "status" = Some (MStr (if m_HasException reply then ERROR_STATUS else OK_STATUS)) /\
    event !! bs "responsetime" = Some (MInt (millis32 (time_Sub (m_Ts reply) (m_Ts req)))) /\
    event !! bs "query" = Some (MStr (m_Method req ++ m_Params req)) /\
    event !! bs "bytes_in" = Some (MInt (m_FrameSize req)) /\
    event !! bs "bytes_out" = Some (MInt (m_FrameSize reply)) /\
    exists fields, event !! bs "thrift" = Some (MMap fields) /\
      fields !! bs "params" = Some (MStr (m_Params req)) /\
      fields !! bs "return_value" = Some (MStr (m_ReturnValue reply)).
Proof.
  intros Hok Hp Hq Hr Hreq Hrep Hm. cbn [execs exec]. unfold handleThrift at 1. rewrite Hreq. cbn [obind].
  rewrite receivedRequest_first by done. cbv zeta.
  destruct (newTransaction_fields (allocated thrift) req tuple c) as (T1 & T2 & T3 & T4 & T5). cbv zeta in *.
  set (t := newTransaction _ _ _ _) in *. unfold handleThrift. rewrite Hrep. unfold receivedReply, pending.
  cbn [transMap set_field]. rewrite lookup_insert_eq, T3, decide_False by (intros []; congruence). cbn [obind]. cbv zeta.
  change (t <| t_Reply := Some reply |> <| t_ResponseTime := ?x |>) with (answered t reply).
  change (t_ptr (answered t reply)) with (t_ptr t).
  cbn [PublishQueue timers set_field]. rewrite Hq. cbn [app].
  unfold publish_next. cbn [PublishQueue results set_field obind]. rewrite Hr.
  unfold ReceivedFin, pending. cbn [transMap set_field]. rewrite lookup_insert_eq. cbn [snd].
  eexists _, (publish_event thrift (answered t reply)). split; [reflexivity|].
  cbn [results PublishQueue timers transMap set_field]. split; [reflexivity|]. split; [done|]. split.
  { rewrite stop_timer_filter, filter_app, filter_cons_False, filter_nil, app_nil_r by (intros Hn; by apply Hn).
    rewrite filter_all; [done|]. destruct Hok as (_ & _ & Hl). eapply Forall_impl; [exact Hl|]. cbn. lia. }
  split; [by apply lookup_insert_eq|]. rewrite <- T5. exact (event_fields thrift t req reply T3).
Qed.

(** The timer of a call that a second call replaced is not stopped: when it fires it
    removes the second call, whose reply is then ignored; the first call is
    published without a reply, the second never. *)
Theorem thrift_stale_timer thrift m1 m2 reply tuple c1 c2 :
  Thrift_ok thrift -> pending thrift (TcpHashable tuple) = None ->
  m_IsRequest m1 = true -> m_IsRequest m2 = true -> m_IsRequest reply = false ->
  exists thrift',
    execs thrift [AMessage m1 tuple c1; AMessage m2 tuple c2; AFire (allocated thrift); AMessage reply tuple c2; AFin tuple] = Ret thrift' /\
    PublishQueue thrift' = PublishQueue thrift ++ [newTransaction (allocated thrift) m1 tuple c1] /\
    transMap thrift' = delete (TcpHashable tuple) (transMap thrift) /\
    results thrift' = results thrift.
Proof.
  intros Hok Hp H1 H2 Hrep. cbn [execs exec]. unfold handleThrift. rewrite H1. cbn [obind].
  pose proof (thrift_request_ok thrift m1 tuple c1 Hok H1) as Hok1.
  pose proof (receivedRequest_first thrift m1 tuple c1 Hp) as Er. cbv zeta in Er. rewrite Er in *. clear Er.
  destruct (newTransaction_fields (allocated thrift) m1 tuple c1) as (T1 & T2 & _). cbv zeta in *.
  set (t := newTransaction (allocated thrift) m1 tuple c1) in *.
  set (th1 := thrift <| allocated := _ |> <| transMap := _ |> <| timers := _ |>) in *.
  assert (t ∈ timers th1) as Ht by (apply elem_of_app; right; by apply list_elem_of_singleton).
  rewrite H2. cbn [obind]. pose proof (thrift_request_ok th1 m2 tuple c2 Hok1 H2) as Hok2.
  set (th2 := receivedRequest th1 m2 tuple c2) in *.
  assert (pending th1 (TcpHashable tuple) = Some t) as Ep
    by (unfold pending, th1; cbn [transMap set_field]; by rewrite lookup_insert_eq).
  assert (timers th2 = timers th1 ++ [newTransaction (allocated th1) m2 tuple c2] /\
    PublishQueue th2 = PublishQueue thrift ++ [t] /\ results th2 = results thrift /\
    transMap th2 = <[TcpHashable tuple := Some (newTransaction (allocated th1) m2 tuple c2)]> (transMap th1)) as (E1 & E2 & E3 & E4)
    by (unfold th2, receivedRequest; rewrite Ep; done).
  assert (t ∈ timers th2) as Ht2 by (rewrite E1; apply elem_of_app; by left).
  pose proof (find_timer th2 t Hok2 Ht2) as Ef. rewrite T1 in Ef. rewrite Ef, Hrep. clearbody th2.
  assert (transMap (fire th2 t) = delete (TcpHashable tuple) (transMap thrift)) as Em.
  { unfold fire, expireTransaction. cbn [transMap set_field]. rewrite T2, E4, delete_insert_eq.
    unfold th1. cbn [transMap set_field]. by rewrite delete_insert_eq. }
  assert (pending (fire th2 t) (TcpHashable tuple) = None) as Ep2 by (unfold pending; by rewrite Em, lookup_delete_eq).
  cbn [obind]. unfold receivedReply, ReceivedFin. rewrite Ep2. cbn [obind snd]. rewrite Ep2. cbn [snd].
  eexists. split; [reflexivity|]. split; [exact E2|]. split; [exact Em|exact E3].
Qed.

(** * Examples *)

Definition demo_req : ThriftMessage :=
  newMessage 1000000 <| m_IsRequest := true |> <| m_Method := bs "add" |> <| m_Params := bs "(1, 2)" |> <| m_FrameSize := 30 |>.
Definition demo_reply : ThriftMessage :=
  newMessage 3000000 <| m_Method := bs "add" |> <| m_ReturnValue := bs "3" |> <| m_FrameSize := 20 |>.
Definition demo_cmd : CmdlineTuple := {| ct_Src := bs "client"; ct_Dst := [] |}.
Definition demo_start : Thrift :=
  {| Ports := [9090]; StringMaxSize := 200; CollectionMaxSize := 15; DropAfterNStructFields := 500; CaptureReply := true;
     ObfuscateStrings := false; Send_request := false; Send_response := true; TransportType := ThriftTSocket;
     ProtocolType := ThriftTBinary; transMap := ∅; PublishQueue := []; results := Some []; Idl := None; timers := [];
     allocated := 0 |}.

Lemma demo_start_ok : Thrift_ok demo_start.
Proof. split; [by intros ? ? [=]|split; constructor]. Qed.

Definition demo_acts : list action :=
  [AMessage demo_req Demo.tuple demo_cmd; AMessage demo_reply Demo.tuple demo_cmd; APublish; AFin Demo.tuple].

(** Two calls on one connection, the second before the reply to the first; then a reply. *)
Definition busy_acts : list action :=
  [AMessage demo_req Demo.tuple demo_cmd; AMessage demo_req Demo.tuple demo_cmd; APublish;
   AMessage demo_reply Demo.tuple demo_cmd; APublish].

Example busy_published :
  map (fun t => (t_ptr t, bool_decide (t_Reply t = None))) (published demo_start busy_acts) = [(0%nat, true); (1%nat, false)].
Proof. by vm_compute. Qed.

Lemma thrift_transactions_invariant_witness :
  exists thrift', execs demo_start busy_acts = Ret thrift' /\ Thrift_ok thrift' /\
    NoDup (t_ptr <$> published demo_start busy_acts ++ held thrift') /\
    results thrift' = Some (map (publish_event demo_start) (published demo_start busy_acts)).
Proof.
  destruct (thrift_transactions_invariant busy_acts demo_start eq_refl eq_refl eq_refl) as (th & E & H1 & H2 & _ & H3 & _).
  exists th. split; [exact E|]. split; [exact H1|]. split; [exact H3|]. exact H2.
Defined.

Lemma thrift_exchange_published_witness :
  exists thrift' event, execs demo_start demo_acts = Ret thrift' /\ results thrift' = Some [event] /\
    transMap thrift' !! TcpHashable Demo.tuple = Some None /\
    event !! bs "query" = Some (MStr (bs "add(1, 2)")).
Proof.
  destruct (thrift_exchange_published demo_start demo_req demo_reply Demo.tuple demo_cmd [] demo_start_ok
    eq_refl eq_refl eq_refl eq_refl eq_refl eq_refl) as (th & ev & E1 & E2 & _ & _ & E3 & _ & _ & E4 & _).
  exists th, ev. exact (conj E1 (conj E2 (conj E3 E4))).
Defined.

Lemma thrift_stale_timer_witness :
  exists thrift',
    execs demo_start [AMessage demo_req Demo.tuple demo_cmd; AMessage demo_req Demo.tuple demo_cmd; AFire 0;
      AMessage demo_reply Demo.tuple demo_cmd; AFin Demo.tuple] = Ret thrift' /\
    PublishQueue thrift' = [newTransaction 0 demo_req Demo.tuple demo_cmd] /\ results thrift' = Some [].
Proof.
  destruct (thrift_stale_timer demo_start demo_req demo_req demo_reply Demo.tuple demo_cmd demo_cmd demo_start_ok
    eq_refl eq_refl eq_refl eq_refl) as (th & E1 & E2 & _ & E3).
  exists th. exact (conj E1 (conj E2 E3)).
Defined.
