(* ===== verification/Http.v ===== *)
(** The HTTP protocol plugin (src/protos/http/http.go): the message parser, the
    treatment of headers, bodies and parameters, transactions and their
    publication, and the stream handler. *)
From S2P Require Export Protos GoUrl.

(** * Data *)

Inductive HttpState :=
| START | FLINE | HEADERS | BODY | BODY_CHUNKED_START | BODY_CHUNKED | BODY_CHUNKED_WAIT_FINAL_CRLF.

Record HttpMessage := {
  m_Ts : Z;
  m_hasContentLength : bool;
  m_headerOffset : Z;
  m_bodyOffset : Z;
  m_version_major : Z;
  m_version_minor : Z;
  m_connection : bytes;
  m_chunked_length : Z;
  m_chunked_body : bytes;
  m_IsRequest : bool;
  m_TcpTuple : option TcpTuple;          (* None: the zero tuple *)
  m_CmdlineTuple : option CmdlineTuple;  (* None: nil *)
  m_Direction : Z;
  m_FirstLine : bytes;
  m_RequestUri : bytes;
  m_Method : bytes;
  m_StatusCode : Z;
  m_StatusPhrase : bytes;
  m_Real_ip : bytes;
  m_ContentLength : Z;
  m_ContentType : bytes;
  m_TransferEncoding : bytes;
  m_Headers : option (gmap bytes bytes); (* None: nil *)
  m_Body : bytes;
  m_Raw : slice;                         (* part of the stream's data *)
  m_start : Z;
  m_end : Z
}.
#[export] Instance eta_HttpMessage : Settable HttpMessage := fun r =>
  {| m_Ts := m_Ts r; m_hasContentLength := m_hasContentLength r; m_headerOffset := m_headerOffset r;
     m_bodyOffset := m_bodyOffset r; m_version_major := m_version_major r; m_version_minor := m_version_minor r;
     m_connection := m_connection r; m_chunked_length := m_chunked_length r; m_chunked_body := m_chunked_body r;
     m_IsRequest := m_IsRequest r; m_TcpTuple := m_TcpTuple r; m_CmdlineTuple := m_CmdlineTuple r;
     m_Direction := m_Direction r; m_FirstLine := m_FirstLine r; m_RequestUri := m_RequestUri r;
     m_Method := m_Method r; m_StatusCode := m_StatusCode r; m_StatusPhrase := m_StatusPhrase r;
     m_Real_ip := m_Real_ip r; m_ContentLength := m_ContentLength r; m_ContentType := m_ContentType r;
     m_TransferEncoding := m_TransferEncoding r; m_Headers := m_Headers r; m_Body := m_Body r;
     m_Raw := m_Raw r; m_start := m_start r; m_end := m_end r |}.

(** [&HttpMessage{Ts: ts}]. *)
Definition newMessage (ts : Z) : HttpMessage :=
  {| m_Ts := ts; m_hasContentLength := false; m_headerOffset := 0; m_bodyOffset := 0; m_version_major := 0;
     m_version_minor := 0; m_connection := []; m_chunked_length := 0; m_chunked_body := []; m_IsRequest := false;
     m_TcpTuple := None; m_CmdlineTuple := None; m_Direction := 0; m_FirstLine := []; m_RequestUri := [];
     m_Method := []; m_StatusCode := 0; m_StatusPhrase := []; m_Real_ip := []; m_ContentLength := 0;
     m_ContentType := []; m_TransferEncoding := []; m_Headers := None; m_Body := []; m_Raw := mkSlice [] [];
     m_start := 0; m_end := 0 |}.

Record HttpStream := {
  s_tcptuple : TcpTuple;
  s_data : slice;
  s_parseOffset : Z;
  s_parseState : HttpState;
  s_bodyReceived : Z;
  s_message : option HttpMessage         (* None: nil *)
}.
#[export] Instance eta_HttpStream : Settable HttpStream := fun r =>
  {| s_tcptuple := s_tcptuple r; s_data := s_data r; s_parseOffset := s_parseOffset r;
     s_parseState := s_parseState r; s_bodyReceived := s_bodyReceived r; s_message := s_message r |}.

Record HttpTransaction := {
  t_Type : bytes;
  t_tuple : TcpTuple;
  t_Src : Endpoint;
  t_Dst : Endpoint;
  t_Real_ip : bytes;
  t_ResponseTime : Z;
  t_Ts : Z;
  t_JsTs : Z;
  t_ts : Z;
  t_cmdline : option CmdlineTuple;
  t_Method : bytes;
  t_RequestUri : bytes;
  t_Params : bytes;
  t_Path : bytes;
  t_Http : option MapStr;                (* None: nil *)
  t_Request_raw : bytes;
  t_Response_raw : bytes;
  t_timer : bool                         (* a running timer that will expire the transaction *)
}.
#[export] Instance eta_HttpTransaction : Settable HttpTransaction := fun r =>
  {| t_Type := t_Type r; t_tuple := t_tuple r; t_Src := t_Src r; t_Dst := t_Dst r; t_Real_ip := t_Real_ip r;
     t_ResponseTime := t_ResponseTime r; t_Ts := t_Ts r; t_JsTs := t_JsTs r; t_ts := t_ts r;
     t_cmdline := t_cmdline r; t_Method := t_Method r; t_RequestUri := t_RequestUri r; t_Params := t_Params r;
     t_Path := t_Path r; t_Http := t_Http r; t_Request_raw := t_Request_raw r; t_Response_raw := t_Response_raw r;
     t_timer := t_timer r |}.

Definition noEndpoint : Endpoint := mkEndpoint [] 0 [].

(** [&HttpTransaction{Type: "http", tuple: msg.TcpTuple}]. *)
Definition newTransaction (tuple : TcpTuple) : HttpTransaction :=
  {| t_Type := bs "http"; t_tuple := tuple; t_Src := noEndpoint; t_Dst := noEndpoint; t_Real_ip := [];
     t_ResponseTime := 0; t_Ts := 0; t_JsTs := 0; t_ts := 0; t_cmdline := None; t_Method := []; t_RequestUri := [];
     t_Params := []; t_Path := []; t_Http := None; t_Request_raw := []; t_Response_raw := []; t_timer := false |}.

(** The plugin; [results] is what has been sent on the channel, [None] for a nil
    channel.  A key of [Headers_whitelist] always has the value true. *)
Record Http := {
  Ports : list Z;
  Send_request : bool;
  Send_response : bool;
  Send_headers : bool;
  Send_all_headers : bool;
  Headers_whitelist : gset bytes;
  Split_cookie : bool;
  Real_ip_header : bytes;
  Hide_keywords : list bytes;
  Strip_authorization : bool;
  transactionsMap : gmap bytes HttpTransaction;
  results : option (list MapStr)
}.
#[export] Instance eta_Http : Settable Http := fun r =>
  {| Ports := Ports r; Send_request := Send_request r; Send_response := Send_response r;
     Send_headers := Send_headers r; Send_all_headers := Send_all_headers r;
     Headers_whitelist := Headers_whitelist r; Split_cookie := Split_cookie r; Real_ip_header := Real_ip_header r;
     Hide_keywords := Hide_keywords r; Strip_authorization := Strip_authorization r;
     transactionsMap := transactionsMap r; results := results r |}.

(** [config.Http]: a nil pointer is an option not set. *)
Record ConfigHttp := {
  cfg_Ports : list Z;
  cfg_Send_all_headers : option bool;
  cfg_Send_headers : list bytes;
  cfg_Split_cookie : option bool;
  cfg_Real_ip_header : option bytes;
  cfg_Include_body_for : list bytes;
  cfg_Hide_keywords : list bytes;
  cfg_Strip_authorization : option bool;
  cfg_Send_request : option bool;
  cfg_Send_response : option bool
}.

Definition InitDefaults (http : Http) : Http :=
  http <| Send_request := false |> <| Send_response := false |> <| Strip_authorization := false |>.

Section Config.
Context {UC : Unicode}.

(** It never gives an error.  The value of [Send_all_headers] is not read. *)
Definition SetFromConfig (http : Http) (config : ConfigHttp) : Http :=
  let http := http <| Ports := cfg_Ports config |> in
  let http := match cfg_Send_request config with Some b => http <| Send_request := b |> | None => http end in
  let http := match cfg_Send_response config with Some b => http <| Send_response := b |> | None => http end in
  let http := http <| Hide_keywords := cfg_Hide_keywords config |> in
  let http := match cfg_Strip_authorization config with
              | Some b => http <| Strip_authorization := b |> | None => http end in
  let http := match cfg_Send_all_headers config with
              | Some _ => http <| Send_headers := true |> <| Send_all_headers := true |>
              | None =>
                  match cfg_Send_headers config with
                  | [] => http
                  | hdrs => http <| Send_headers := true |>
                                 <| Headers_whitelist := list_to_set (map ToLower hdrs) |>
                  end
              end in
  let http := match cfg_Split_cookie config with Some b => http <| Split_cookie := b |> | None => http end in
  match cfg_Real_ip_header config with
  | Some h => http <| Real_ip_header := ToLower h |> | None => http end.

Definition Init (http : Http) (test_mode : bool) (config : ConfigHttp) (chan : option (list MapStr)) : Http :=
  let http := InitDefaults http in
  let http := if test_mode then http else SetFromConfig http config in
  http <| transactionsMap := ∅ |> <| results := chan |>.
End Config.

(** * The first line and the headers *)

Definition CRLF : bytes := [x0d; x0a].

(** [strconv.Atoi(string(b))]: a byte above 127 is a rune of two bytes, which is no
    number either. *)
Definition version_digit (b : byte) : Z := wrapU 8 (fst (Atoi [b])).

Definition parseVersion (s : bytes) : outcome (option (Z * Z)) :=
  if decide (len s < 3) then Ret None
  else
    let! a := at_ s 0 in
    let! b := at_ s 2 in
    Ret (Some (version_digit a, version_digit b)).

(** (code, phrase, whether there is no error). *)
Definition parseResponseStatus (s : bytes) : outcome (Z * bytes * bool) :=
  let p := Index s (bs " ") in
  if decide (p = -1) then Ret (0, [], false)
  else
    let! code := str_slice s 0 p in
    let status_code := uint16_of (fst (Atoi code)) in
    let p := LastIndex s " " in
    if decide (p = -1) then Ret (status_code, [], false)
    else
      let! phrase := str_from s (p + 1) in
      Ret (status_code, phrase, true).

(** The two kinds of first line: the message and the version, [None] when the line is
    not understood. *)
Definition response_line (m : HttpMessage) (fline : slice) : outcome (HttpMessage * option bytes) :=
  let m := m <| m_IsRequest := false |> in
  let! version := sl_slice fline 5 8 in
  let! rest := sl_from fline 9 in
  let! '(code, phrase, ok) := parseResponseStatus (vis rest) in
  let m := m <| m_StatusCode := code |> <| m_StatusPhrase := phrase |> in
  Ret (m, if ok : bool then Some (vis version) else None).

Definition request_line (m : HttpMessage) (fline : slice) : outcome (HttpMessage * option bytes) :=
  match Fields fline with
  | [method; uri; version] =>
      let m := m <| m_Method := vis method |> <| m_RequestUri := vis uri |> in
      let! p := sl_slice version 0 5 in
      if decide (vis p = bs "HTTP/") then
        let! v := sl_from version 5 in
        Ret (m <| m_IsRequest := true |> <| m_FirstLine := vis fline |>, Some (vis v))
      else Ret (m, None)
  | _ => Ret (m, None)
  end.

Section Parser.
Context {UC : Unicode} (http : Http).

(** What the parser needs to know of a header. *)
Definition note_header (m : HttpMessage) (headerName headerVal : bytes) : HttpMessage :=
  let m := if decide (headerName = bs "content-length")
           then m <| m_ContentLength := fst (Atoi headerVal) |> <| m_hasContentLength := true |>
           else if decide (headerName = bs "content-type") then m <| m_ContentType := headerVal |>
           else if decide (headerName = bs "transfer-encoding") then m <| m_TransferEncoding := headerVal |>
           else if decide (headerName = bs "connection") then m <| m_connection := headerVal |>
           else m in
  if decide (len (Real_ip_header http) > 0 /\ headerName = Real_ip_header http)
  then m <| m_Real_ip := headerVal |> else m.

(** [m.Headers], the entry for a header already seen extended. *)
Definition store_header (m : HttpMessage) (headerName headerVal : bytes) : HttpMessage :=
  if Send_headers http && (Send_all_headers http || bool_decide (headerName ∈ Headers_whitelist http)) then
    let hdrs := default ∅ (m_Headers m) in
    let val := match hdrs !! headerName with Some val => val ++ bs ", " ++ headerVal | None => headerVal end in
    m <| m_Headers := Some (<[headerName := val]> hdrs) |>
  else m.

(** A turn of the search for the end of a header whose colon is at [i].  The byte looked at
    for a continuation line is the line feed itself. *)
Definition header_turn (m : HttpMessage) (data : bytes) (i p : Z)
    : outcome (Z + HttpMessage * (bool * bool * Z)) :=
  if decide (p < len data) then
    let! rest := str_from data p in
    let q := Index rest CRLF in
    if decide (q = -1) then Ret (inr (m, (true, false, 0)))
    else
      let p := p + q in
      let! fold := (if decide (len data > p)
                    then let! c := at_ data (p + 1) in Ret (Byte.eqb c " " || Byte.eqb c x09)
                    else Ret false) in
      if fold : bool then Ret (inl (p + 2))
      else
        let! name := str_slice data 0 i in
        let! value := str_slice data (i + 1) p in
        let headerName := ToLower name in
        let headerVal := Trim value [x20; x09] in
        Ret (inr (store_header (note_header m headerName headerVal) headerName headerVal, (true, true, p + 2)))
  else Ret (inr (m, (true, false, len data))).

(** The message and (ok, complete, offset). *)
Definition parseHeader (m : HttpMessage) (data : bytes) : outcome (HttpMessage * (bool * bool * Z)) :=
  let m := m <| m_Headers := Some (default ∅ (m_Headers m)) |> in
  let i := Index data (bs ":") in
  if decide (i = -1) then Ret (m, (true, false, 0))
  else loop (header_turn m data i) (S (length data)) (i + 1).

(** * The message parser *)

(** A turn of the parser: go on, or return (ok, complete). *)
Definition turn : Type := outcome (HttpStream * HttpMessage + HttpStream * HttpMessage * (bool * bool)).
Definition wait (s : HttpStream) (m : HttpMessage) : turn := Ret (inr (s, m, (true, false))).
Definition fail (s : HttpStream) (m : HttpMessage) : turn := Ret (inr (s, m, (false, false))).
Definition finished (s : HttpStream) (m : HttpMessage) : turn :=
  Ret (inr (s, m <| m_end := s_parseOffset s |>, (true, true))).

(** [i] counts from the offset, the end of the slice from the beginning of the data: the
    offset is zero in this state. *)
Definition start_state (s : HttpStream) (m : HttpMessage) : turn :=
  let m := m <| m_start := s_parseOffset s |> in
  let! rest := sl_from (s_data s) (s_parseOffset s) in
  let i := Index (vis rest) CRLF in
  if decide (i = -1) then wait s m
  else
    let! fline := sl_slice (s_data s) (s_parseOffset s) i in
    if decide (len (vis fline) < 8) then fail s m
    else
      let! p := sl_slice fline 0 5 in
      let! '(m, version) := (if decide (vis p = bs "HTTP/") then response_line m fline else request_line m fline) in
      match version with
      | None => fail s m
      | Some version =>
          let! v := parseVersion version in
          let '(major, minor) := default (1, 0) v in
          let s := s <| s_parseOffset := i + 2 |> <| s_parseState := HEADERS |> in
          Ret (inl (s, m <| m_version_major := major |> <| m_version_minor := minor |>
                         <| m_headerOffset := s_parseOffset s |>))
      end.

(** Whether the data goes on with a CRLF. *)
Definition at_crlf (s : HttpStream) : outcome bool :=
  if decide (len (vis (s_data s)) - s_parseOffset s >= 2)
  then let! x := sl_slice (s_data s) (s_parseOffset s) (s_parseOffset s + 2) in Ret (bool_decide (vis x = CRLF))
  else Ret false.

(** The end of the headers: what the body is. *)
Definition end_of_headers (s : HttpStream) (m : HttpMessage) : turn :=
  if negb (m_IsRequest m) && bool_decide (100 <= m_StatusCode m < 200 \/ m_StatusCode m = 204 \/ m_StatusCode m = 304)
  then finished s m
  else if decide (m_TransferEncoding m = bs "chunked") then
    Ret (inl (s <| s_parseState := BODY_CHUNKED_START |>, m))
  else if decide (m_ContentLength m = 0 /\ (m_IsRequest m = true \/ m_hasContentLength m = true)) then finished s m
  else Ret (inl (s <| s_parseState := BODY |>, m)).

Definition headers_state (s : HttpStream) (m : HttpMessage) : turn :=
  let! eoh := at_crlf s in
  if eoh : bool then
    let s := s <| s_parseOffset := s_parseOffset s + 2 |> in
    end_of_headers s (m <| m_bodyOffset := s_parseOffset s |>)
  else
    let! rest := sl_from (s_data s) (s_parseOffset s) in
    let! '(m, (ok, hfcomplete, offset)) := parseHeader m (vis rest) in
    if negb ok then fail s m
    else if negb hfcomplete then wait s m
    else Ret (inl (s <| s_parseOffset := s_parseOffset s + offset |>, m)).

(** A message without length that lasts until the connection ends. *)
Definition until_close (m : HttpMessage) : bool :=
  negb (m_hasContentLength m) &&
  (bool_decide (m_connection m = bs "close") ||
   bool_decide (m_version_major m = 1 /\ m_version_minor m = 0 /\ m_connection m <> bs "keep-alive")).

Definition body_state (s : HttpStream) (m : HttpMessage) : turn :=
  let n := len (vis (s_data s)) - s_parseOffset s in
  if until_close m then
    wait (s <| s_bodyReceived := s_bodyReceived s + n |> <| s_parseOffset := len (vis (s_data s)) |>)
         (m <| m_ContentLength := int_of (m_ContentLength m + n) |>)
  else
    let missing := int_of (m_ContentLength m - s_bodyReceived s) in
    if decide (n >= missing) then
      finished (s <| s_parseOffset := int_of (s_parseOffset s + missing) |>) m
    else wait (s <| s_bodyReceived := s_bodyReceived s + n |> <| s_parseOffset := len (vis (s_data s)) |>) m.

(** The final CRLF of a chunked body. *)
Definition final_crlf (s : HttpStream) (m : HttpMessage) : turn :=
  let! a := at_ (vis (s_data s)) (s_parseOffset s) in
  let! b := at_ (vis (s_data s)) (s_parseOffset s + 1) in
  if decide (a = x0d /\ b = x0a) then finished (s <| s_parseOffset := s_parseOffset s + 2 |>) m
  else fail s m.

Definition state_body_chunked_wait_final_crlf (s : HttpStream) (m : HttpMessage) : turn :=
  let! rest := sl_from (s_data s) (s_parseOffset s) in
  if decide (len (vis rest) < 2) then wait s m else final_crlf s m.

Definition state_body_chunked_start (s : HttpStream) (m : HttpMessage) : turn :=
  let! rest := sl_from (s_data s) (s_parseOffset s) in
  let i := Index (vis rest) CRLF in
  if decide (i = -1) then wait s m
  else
    let! line := sl_slice (s_data s) (s_parseOffset s) (s_parseOffset s + i) in
    match Sscanf_hex (vis line) with
    | None => fail s m
    | Some n =>
        let m := m <| m_chunked_length := n |> in
        let s := s <| s_parseOffset := s_parseOffset s + (i + 2) |> in
        if decide (n = 0) then
          let! rest := sl_from (s_data s) (s_parseOffset s) in
          if decide (len (vis rest) < 2) then wait (s <| s_parseState := BODY_CHUNKED_WAIT_FINAL_CRLF |>) m
          else final_crlf s m
        else Ret (inl (s <| s_bodyReceived := 0 |> <| s_parseState := BODY_CHUNKED |>, m))
    end.

Definition state_body_chunked (s : HttpStream) (m : HttpMessage) : turn :=
  let! rest := sl_from (s_data s) (s_parseOffset s) in
  let n := len (vis rest) in
  let missing := int_of (m_chunked_length m - s_bodyReceived s) in
  if decide (n >= int_of (missing + 2)) then
    let! chunk := sl_slice (s_data s) (s_parseOffset s) (int_of (s_parseOffset s + missing)) in
    Ret (inl (s <| s_parseOffset := int_of (s_parseOffset s + (missing + 2)) |> <| s_parseState := BODY_CHUNKED_START |>,
              m <| m_chunked_body := m_chunked_body m ++ vis chunk |>
                <| m_ContentLength := int_of (m_ContentLength m + m_chunked_length m) |>))
  else if decide (n >= missing) then wait s m
  else
    wait (s <| s_bodyReceived := s_bodyReceived s + n |> <| s_parseOffset := len (vis (s_data s)) |>)
         (m <| m_chunked_body := m_chunked_body m ++ vis rest |>).

(** One turn of the loop; no state is called [FLINE]. *)
Definition parser_step (x : HttpStream * HttpMessage) : turn :=
  let '(s, m) := x in
  if decide (s_parseOffset s < len (vis (s_data s))) then
    match s_parseState s with
    | START => start_state s m
    | FLINE => Ret (inl (s, m))
    | HEADERS => headers_state s m
    | BODY => body_state s m
    | BODY_CHUNKED_START => state_body_chunked_start s m
    | BODY_CHUNKED => state_body_chunked s m
    | BODY_CHUNKED_WAIT_FINAL_CRLF => state_body_chunked_wait_final_crlf s m
    end
  else wait s m.

(** Every turn but the last consumes a byte, or moves the offset out of the data. *)
Definition messageParser (s : HttpStream) : outcome (HttpStream * (bool * bool)) :=
  match s_message s with
  | None => Panic
  | Some m =>
      let! '(s, m, r) := loop parser_step (S (S (length (vis (s_data s))))) (s, m) in
      Ret (s <| s_message := Some m |>, r)
  end.

End Parser.

Definition PrepareForNewMessage (stream : HttpStream) : outcome HttpStream :=
  match s_message stream with
  | None => Panic
  | Some m =>
      let! data := sl_from (s_data stream) (m_end m) in
      Ret (stream <| s_data := data |> <| s_parseState := START |> <| s_parseOffset := 0 |>
                  <| s_bodyReceived := 0 |> <| s_message := None |>)
  end.

(** * Headers and parameters to hide, cookies *)

(** Stars from [lo] to [hi]. *)
Definition mask (msg : slice) (lo hi : Z) : outcome slice :=
  if decide (lo < hi) then
    if decide (0 <= lo /\ hi <= len (vis msg)) then
      Ret (mkSlice (take (Z.to_nat lo) (vis msg) ++ replicate (Z.to_nat (hi - lo)) "*"%byte ++
                    drop (Z.to_nat hi) (vis msg)) (spare msg))
    else Panic
  else Ret msg.

Definition auth_text : bytes := bs "Authorization:".

(** The text of the authorization header is searched for in the bytes of the headers; the
    end of its line, [val_end_x], counts from the beginning of the header, but is
    used as if it counted from the first header. *)
Definition hide_bytes (m : HttpMessage) (msg : slice) : outcome slice :=
  let header_len := m_bodyOffset m - m_headerOffset m in
  let! headers := sl_slice msg (m_headerOffset m) (m_bodyOffset m) in
  let val_start_x := Index (vis headers) auth_text in
  if decide (val_start_x = -1) then Ret msg
  else
    let! header := sl_slice msg (m_headerOffset m + val_start_x) (m_bodyOffset m) in
    let val_end_x := Index (vis header) CRLF in
    let val_end_x := if decide (val_end_x < 0 \/ val_end_x > header_len) then header_len else val_end_x in
    mask msg (m_headerOffset m + val_start_x + len auth_text) (m_headerOffset m + val_end_x).

(** [m.Headers["authorization"] != ""]. *)
Definition authorized (m : HttpMessage) : bool :=
  match default ∅ (m_Headers m) !! bs "authorization" with Some v => negb (bool_decide (v = [])) | None => false end.

Definition hideHeaders (http : Http) (m : HttpMessage) (msg : slice) : outcome (HttpMessage * slice) :=
  if m_IsRequest m && (Strip_authorization http && authorized m) then
    let! msg := hide_bytes m msg in
    Ret (m <| m_Headers := Some (<[bs "authorization" := bs "*"]> (default ∅ (m_Headers m))) |>, msg)
  else Ret (m, msg).

Section Text.
Context {UC : Unicode}.

Definition isSecretParameter (http : Http) (key : bytes) : bool :=
  existsb (fun keyword => bool_decide (ToLower key = keyword)) (Hide_keywords http).

(** A key without values is not added. *)
Definition hideSecrets (http : Http) (values : Values) : Values :=
  map_imap (fun key array =>
    match array with
    | [] => None
    | _ => Some (map (fun value => if isSecretParameter http key then bs "xxxxx" else value) array)
    end) values.

(** The path, the parameters and whether there was an error. *)
Definition extractParameters (http : Http) (m : HttpMessage) (msg : slice) : outcome (bytes * bytes * bool) :=
  match UrlParse (m_RequestUri m) with
  | None => Ret ([], [], true)
  | Some (path, rawquery) =>
      let paramsMap := hideSecrets http (fst (ParseQuery rawquery)) in
      if decide (m_ContentLength m > 0 /\ Contains (m_ContentType m) (bs "urlencoded") = true) then
        let! body := sl_from msg (m_bodyOffset m) in
        let '(values, err) := ParseQuery (vis body) in
        if err : bool then Ret (path, [], true)
        else Ret (path, Encode (hideSecrets http values ∪ paramsMap), false)
      else Ret (path, Encode paramsMap, false)
  end.

(** The quotes are stripped, if present. *)
Definition parseCookieValue (raw : bytes) : outcome bytes :=
  if decide (len raw > 1) then
    let! a := at_ raw 0 in
    let! b := at_ raw (len raw - 1) in
    if decide (a = x22 /\ b = x22) then str_slice raw 1 (len raw - 1) else Ret raw
  else Ret raw.

Fixpoint add_cookies (cookies : gmap bytes bytes) (cstring : list bytes) : outcome (gmap bytes bytes) :=
  match cstring with
  | [] => Ret cookies
  | cval :: cstring =>
      match SplitN2 cval "=" with
      | [name; value] =>
          let! value := parseCookieValue (TrimSpace value) in
          add_cookies (<[ToLower (TrimSpace name) := value]> cookies) cstring
      | _ => add_cookies cookies cstring
      end
  end.
Definition splitCookiesHeader (headerVal : bytes) : outcome (gmap bytes bytes) :=
  add_cookies ∅ (Split headerVal ";").

(** The headers for the event; those of the header named [cookie] are split if so
    configured. *)
Definition header_values (hdrs : gmap bytes bytes) : mval := MMap (MStr <$> hdrs).
Definition event_headers (http : Http) (cookie : bytes) (hdrs : gmap bytes bytes) : outcome mval :=
  if Split_cookie http then
    match hdrs !! cookie with
    | Some val =>
        let! cookies := splitCookiesHeader val in
        Ret (MMap (<[cookie := header_values cookies]> (MStr <$> hdrs)))
    | None => Ret (header_values hdrs)
    end
  else Ret (header_values hdrs).
End Text.

Definition httpPrivateData : Type := pair2 HttpStream.

(** * Transactions *)

Section Handlers.
Context {UC : Unicode} {RT : Runtime} (config : ConfigHttp).

Definition shouldIncludeInBody (contenttype : bytes) : bool :=
  existsb (fun include => Contains contenttype include) (cfg_Include_body_for config).

(** The raw message without a body that is not wanted.  [append] writes the decoded body of
    a chunked message over the bytes of the message; the second result is the raw
    message as it is then. *)
Definition cutMessageBody (m : HttpMessage) : outcome (bytes * slice) :=
  let raw := m_Raw m in
  let! raw_msg_cut := sl_slice raw 0 (m_bodyOffset m) in
  if bool_decide (m_ContentType m = []) || shouldIncludeInBody (m_ContentType m) then
    if decide (len (m_chunked_body m) > 0) then
      let cut := append raw_msg_cut (m_chunked_body m) in
      Ret (vis cut,
           if decide (len (vis cut) <= cap raw) then
             let array := vis cut ++ spare cut in
             mkSlice (take (length (vis raw)) array) (drop (length (vis raw)) array)
           else raw)
    else
      let! body := sl_from raw (m_bodyOffset m) in
      Ret (vis raw_msg_cut ++ vis body, raw)
  else Ret (vis raw_msg_cut, raw).

Definition put (http : Http) (tuple : TcpTuple) (trans : HttpTransaction) : Http :=
  http <| transactionsMap := <[TcpHashable tuple := trans]> (transactionsMap http) |>.

(** The fields that are set before anything can panic. *)
Definition begin_transaction (http : Http) (msg : HttpMessage) (tuple : TcpTuple) (cmdline : CmdlineTuple) : HttpTransaction :=
  let trans := match transactionsMap http !! TcpHashable tuple with
               | Some trans => trans
               | None => newTransaction tuple
               end in
  let '(src, dst) := endpoints tuple cmdline (m_Direction msg) in
  trans <| t_ts := m_Ts msg |> <| t_Ts := micros (m_Ts msg) |> <| t_JsTs := m_Ts msg |>
        <| t_Src := src |> <| t_Dst := dst |>.

(** A panic leaves the transaction as it is at that point; the result is the raw message,
    whose bytes [cutMessageBody] may change. *)
Definition receivedHttpRequest (http : Http) (msg : HttpMessage) (tuple : TcpTuple) (cmdline : CmdlineTuple)
    : outcome slice * Http :=
  let trans := begin_transaction http msg tuple cmdline in
  let cut := if Send_request http
             then let! '(cut, raw) := cutMessageBody msg in Ret (Some cut, raw)
             else Ret (None, m_Raw msg) in
  match cut with
  | Panic => (Panic, put http tuple trans)
  | OutOfFuel => (OutOfFuel, put http tuple trans)
  | Ret (cut, raw) =>
      let trans := match cut with Some cut => trans <| t_Request_raw := cut |> | None => trans end in
      let trans := trans <| t_Method := m_Method msg |> <| t_RequestUri := m_RequestUri msg |>
                         <| t_Http := Some ∅ |> in
      let headers := if Send_headers http
                     then let! hdrs := event_headers http (bs "cookie") (default ∅ (m_Headers msg)) in
                          Ret ({[bs "request_headers" := hdrs]} : MapStr)
                     else Ret (∅ : MapStr) in
      match headers with
      | Panic => (Panic, put http tuple trans)
      | OutOfFuel => (OutOfFuel, put http tuple trans)
      | Ret headers =>
          let trans := trans <| t_Http := Some headers |> <| t_Real_ip := m_Real_ip msg |> in
          match extractParameters http msg raw with
          | Panic => (Panic, put http tuple trans)
          | OutOfFuel => (OutOfFuel, put http tuple trans)
          | Ret (path, params, _) =>
              (Ret raw, put http tuple (trans <| t_Path := path |> <| t_Params := params |> <| t_timer := true |>))
          end
      end
  end.

(** The timer's function. *)
Definition expireTransaction (http : Http) (trans : HttpTransaction) : Http :=
  http <| transactionsMap := delete (TcpHashable (t_tuple trans)) (transactionsMap http) |>.

(** The type assertion on the code panics when there is none. *)
Definition PublishTransaction (http : Http) (t : HttpTransaction) : outcome unit * Http :=
  match results http with
  | None => (Ret tt, http)
  | Some sent =>
      match default ∅ (t_Http t) !! bs "code" with
      | Some (MInt code) =>
          let event : MapStr := {[bs "type" := MStr (bs "http")]} in
          let event := <[bs "status" := MStr (if decide (code < 400) then OK_STATUS else ERROR_STATUS)]> event in
          let event := <[bs "responsetime" := MInt (t_ResponseTime t)]> event in
          let event := if Send_request http then <[bs "request" := MStr (t_Request_raw t)]> event else event in
          let event := if Send_response http then <[bs "response" := MStr (t_Response_raw t)]> event else event in
          let event := <[bs "http" := MMap (default ∅ (t_Http t))]> event in
          let event := if decide (len (t_Real_ip t) > 0) then <[bs "real_ip" := MStr (t_Real_ip t)]> event else event in
          let event := <[bs "method" := MStr (t_Method t)]> event in
          let event := <[bs "path" := MStr (t_Path t)]> event in
          let event := <[bs "query" := MStr (t_Method t ++ bs " " ++ t_Path t)]> event in
          let event := <[bs "params" := MStr (t_Params t)]> event in
          let event := <[bs "timestamp" := MTime (t_ts t)]> event in
          let event := <[bs "src" := MEndpoint (t_Src t)]> event in
          let event := <[bs "dst" := MEndpoint (t_Dst t)]> event in
          (Ret tt, http <| results := Some (sent ++ [event]) |>)
      | _ => (Panic, http)
      end
  end.

(** The response's part of the event. *)
Definition response_fields (http : Http) (msg : HttpMessage) : outcome MapStr :=
  let response : MapStr := {[bs "phrase" := MStr (m_StatusPhrase msg)]} in
  let response := <[bs "code" := MInt (m_StatusCode msg)]> response in
  let response := <[bs "content_length" := MInt (m_ContentLength msg)]> response in
  if Send_headers http then
    let! hdrs := event_headers http (bs "set-cookie") (default ∅ (m_Headers msg)) in
    Ret (<[bs "response_headers" := hdrs]> response)
  else Ret response.

Definition receivedHttpResponse (http : Http) (msg : HttpMessage) (tuple : TcpTuple) : outcome slice * Http :=
  match transactionsMap http !! TcpHashable tuple with
  | None => (Ret (m_Raw msg), http)
  | Some trans =>
      match t_Http trans with
      | None => (Ret (m_Raw msg), http)
      | Some fields =>
          match response_fields http msg with
          | Panic => (Panic, http)
          | OutOfFuel => (OutOfFuel, http)
          | Ret response =>
              let trans := trans <| t_Http := Some (Update fields response) |>
                                 <| t_ResponseTime := millis32 (time_Sub (m_Ts msg) (t_ts trans)) |> in
              let cut := if Send_response http
                         then let! '(cut, raw) := cutMessageBody msg in Ret (Some cut, raw)
                         else Ret (None, m_Raw msg) in
              match cut with
              | Panic => (Panic, put http tuple trans)
              | OutOfFuel => (OutOfFuel, put http tuple trans)
              | Ret (cut, raw) =>
                  let trans := match cut with Some cut => trans <| t_Response_raw := cut |> | None => trans end in
                  match PublishTransaction (put http tuple trans) trans with
                  | (Ret _, http) =>
                      (Ret raw, http <| transactionsMap := delete (TcpHashable (t_tuple trans)) (transactionsMap http) |>)
                  | (Panic, http) => (Panic, http)
                  | (OutOfFuel, http) => (OutOfFuel, http)
                  end
              end
          end
      end
  end.

(** * The stream handler *)

Section Procs.
Context {W : Type} {PW : ProcWatcher W}.

Definition handleHttp (st : Http * W) (m : HttpMessage) (tcptuple : TcpTuple) (dir : Z) (raw_msg : slice)
    : outcome slice * (Http * W) :=
  let '(http, w) := st in
  let '(cmdline, w) := FindProcessesTuple (IpPort tcptuple) w in
  let m := m <| m_TcpTuple := Some tcptuple |> <| m_Direction := dir |> <| m_CmdlineTuple := Some cmdline |>
             <| m_Raw := raw_msg |> in
  let '(r, http) := if m_IsRequest m then receivedHttpRequest http m tcptuple cmdline
                    else receivedHttpResponse http m tcptuple in
  (r, (http, w)).

(** The stream's data when its part from [lo] on, up to the end of the array, has become
    [part]. *)
Definition write_back (data : slice) (lo : Z) (part : slice) : slice :=
  let array := take (Z.to_nat lo) (vis data ++ spare data) ++ vis part ++ spare part in
  mkSlice (take (length (vis data)) array) (drop (length (vis data)) array).

(** [msg], the part of the data from the start of the message on, is published and the
    stream made ready for the next message. *)
Definition ship (tcptuple : TcpTuple) (dir : Z) (stream : HttpStream) (m : HttpMessage) (msg : outcome slice) (st : Http * W)
    : outcome HttpStream * (Http * W) :=
  match (let! msg := msg in hideHeaders (fst st) m msg) with
  | Ret (m, msg) =>
      let '(r, st) := handleHttp st m tcptuple dir msg in
      (let! raw := r in
       PrepareForNewMessage (stream <| s_message := Some m |>
                                    <| s_data := write_back (s_data stream) (m_start m) raw |>), st)
  | Panic => (Panic, st)
  | OutOfFuel => (OutOfFuel, st)
  end.

(** The stream with the packet's bytes. *)
Definition received (pkt : Packet) (tcptuple : TcpTuple) (old : option HttpStream) : HttpStream :=
  match old with
  | None => {| s_tcptuple := tcptuple; s_data := pk_Payload pkt; s_parseOffset := 0; s_parseState := START;
               s_bodyReceived := 0; s_message := Some (newMessage (pk_Ts pkt)) |}
  | Some stream => stream <| s_data := append (s_data stream) (vis (pk_Payload pkt)) |>
  end.
Definition too_large (old : option HttpStream) (stream : HttpStream) : bool :=
  match old with
  | None => false
  | Some _ => bool_decide (len (vis (s_data stream)) > TCP_MAX_DATA_IN_STREAM)
  end.

(** One message at most is shipped.  A panic is recovered, and the result then nil. *)
Definition Parse (pkt : Packet) (tcptuple : TcpTuple) (dir : Z) (private : option httpPrivateData) (st : Http * W)
    : outcome (option httpPrivateData * (Http * W)) :=
  let priv := default nil2 private in
  match get2 priv dir with
  | Ret old =>
      let stream := received pkt tcptuple old in
      if too_large old stream then Ret (Some (set2 priv dir None), st)
      else
        let stream := match s_message stream with
                      | Some _ => stream
                      | None => stream <| s_message := Some (newMessage (pk_Ts pkt)) |>
                      end in
        match messageParser (fst st) stream with
        | OutOfFuel => OutOfFuel
        | Panic => Ret (None, st)
        | Ret (stream, (ok, complete)) =>
            if negb ok then Ret (Some (set2 priv dir None), st)
            else if complete : bool then
              match s_message stream with
              | None => Ret (None, st)
              | Some m =>
                  let '(r, st) := ship tcptuple dir stream m (sl_slice (s_data stream) (m_start m) (m_end m)) st in
                  match r with
                  | Ret stream => Ret (Some (set2 priv dir (Some stream)), st)
                  | Panic => Ret (None, st)
                  | OutOfFuel => OutOfFuel
                  end
              end
            else Ret (Some (set2 priv dir (Some stream)), st)
        end
  | Panic => Ret (None, st)
  | OutOfFuel => OutOfFuel
  end.

(** Whatever was received is taken for complete.  There is no recover here. *)
Definition ReceivedFin (tcptuple : TcpTuple) (dir : Z) (private : option httpPrivateData) (st : Http * W)
    : outcome (option httpPrivateData) * (Http * W) :=
  match private with
  | None => (Ret None, st)
  | Some httpData =>
      match get2 httpData dir with
      | Ret (Some stream) =>
          match s_message stream with
          | None => (Ret (Some httpData), st)
          | Some m =>
              match sl_from (s_data stream) (m_start m) with
              | Ret msg =>
                  if decide (len (vis msg) > 0) then
                    let '(r, st) := ship tcptuple dir stream m (Ret msg) st in
                    (let! stream := r in Ret (Some (set2 httpData dir (Some stream))), st)
                  else (Ret (Some httpData), st)
              | Panic => (Panic, st)
              | OutOfFuel => (OutOfFuel, st)
              end
          end
      | Ret None => (Ret (Some httpData), st)
      | Panic => (Panic, st)
      | OutOfFuel => (OutOfFuel, st)
      end
  end.

Definition GapInStream (tcptuple : TcpTuple) (dir : Z) (private : option httpPrivateData)
    : option httpPrivateData := private.

End Procs.
End Handlers.

(** * Termination *)

Section Termination.
Context {UC : Unicode}.

Lemma header_loop_ok http m data i :
  0 <= i ->
  match loop (header_turn http m data i) (S (length data)) (i + 1) with
  | Ret (_, (_, true, off)) => 0 < off <= len data
  | OutOfFuel => False
  | _ => True
  end.
Proof.
  intros Hi. set (Inv := fun p : Z => 0 <= p).
  assert (forall p, Inv p -> match header_turn http m data i p with
    | Ret (inl p') => p < len data /\ p < p'
    | Ret (inr (_, (_, complete, off))) => complete = true -> 0 < off <= len data
    | OutOfFuel => False
    | Panic => True end) as Hturn.
  { intros p Hp. unfold Inv in Hp. unfold header_turn. case_decide as Hl; [|done]. rewrite str_from_ok by lia. cbn [obind].
    pose proof (Index_range (drop (Z.to_nat p) data) CRLF) as Hr. rewrite len_drop in Hr by lia. change (len CRLF) with 2 in Hr.
    case_decide as Hq; [done|]. destruct Hr as [Hr|Hr]; [done|]. cbv zeta. set (q := Index _ _) in *.
    rewrite decide_True by lia. destruct (at_ data (p + q + 1)) as [c| |] eqn:Ea; [|done|by apply at_not_fuel in Ea].
    cbn [obind]. destruct (_ || _); [split; lia|].
    destruct (str_slice data 0 i) eqn:E1; [|done|by apply str_slice_not_fuel in E1]. cbn [obind].
    destruct (str_slice data (i + 1) (p + q)) eqn:E2; [|done|by apply str_slice_not_fuel in E2]. cbn [obind]. lia. }
  assert (loop (header_turn http m data i) (S (length data)) (i + 1) <> OutOfFuel) as Hf.
  { apply (loop_fuel _ Inv (fun p => Z.to_nat (len data - p))).
    - intros p Hp E. specialize (Hturn p Hp). by rewrite E in Hturn.
    - intros p p' Hp E. specialize (Hturn p Hp). rewrite E in Hturn. unfold Inv in *. lia.
    - unfold Inv. lia.
    - unfold len. lia. }
  destruct (loop _ _ _) as [[m' [[ok complete] off]]| |] eqn:E; [|done..].
  apply (loop_inv _ Inv (fun r => let '(_, (_, complete, off)) := r in complete = true -> 0 < off <= len data)) in E.
  - destruct complete; [by apply E|done].
  - intros p p' Hp Es. specialize (Hturn p Hp). rewrite Es in Hturn. unfold Inv in *. lia.
  - intros p [m2 [[ok2 c2] off2]] Hp Es. specialize (Hturn p Hp). by rewrite Es in Hturn.
  - unfold Inv. lia.
Qed.

Lemma parseHeader_ok http m data :
  match parseHeader http m data with
  | Ret (_, (_, true, off)) => 0 < off <= len data
  | OutOfFuel => False
  | _ => True
  end.
Proof.
  unfold parseHeader. pose proof (Index_range data (bs ":")) as Hr. case_decide as Hi; [done|].
  apply header_loop_ok. destruct Hr; [done|lia].
Qed.

(** What a turn may do to the offset. *)
Definition turn_ok (s : HttpStream) (t : turn) : Prop :=
  match t with
  | Ret (inl (s', _)) =>
      s_parseState s' <> FLINE /\ s_data s' = s_data s /\ 0 <= s_parseOffset s /\
      (s_parseOffset s < s_parseOffset s' \/ s_parseOffset s' < 0)
  | Ret (inr (s', _, _)) => s_parseState s' <> FLINE /\ s_data s' = s_data s
  | Panic => True
  | OutOfFuel => False
  end.

Lemma http_turn_bind {A} s (o : outcome A) (k : A -> turn) :
  o <> OutOfFuel -> (forall a, o = Ret a -> turn_ok s (k a)) -> turn_ok s (obind o k).
Proof. intros Hn Hk. destruct o; [by apply Hk|done|done]. Qed.

Lemma sl_from_Ret s lo t : sl_from s lo = Ret t -> 0 <= lo <= len (vis s) /\ vis t = drop (Z.to_nat lo) (vis s).
Proof. unfold sl_from. case_decide; [|done]. by intros [= <-]. Qed.
Lemma sl_slice_Ret s lo hi t : sl_slice s lo hi = Ret t -> 0 <= lo <= hi /\ hi <= cap s.
Proof. unfold sl_slice. case_decide; [|done]. lia. Qed.

Lemma final_crlf_ok s s' m : s_parseState s' <> FLINE -> s_data s' = s_data s -> turn_ok s (final_crlf s' m).
Proof.
  intros H1 H2. unfold final_crlf. do 2 (apply http_turn_bind; [auto with go|intros ? _]). by case_decide.
Qed.

Lemma first_line_fuel m fline b :
  (if b : bool then response_line m fline else request_line m fline) <> OutOfFuel.
Proof.
  destruct b.
  - unfold response_line. pose proof (sl_slice_not_fuel fline 5 8). destruct (sl_slice fline 5 8); try done.
    cbn [obind]. pose proof (sl_from_not_fuel fline 9). destruct (sl_from fline 9) as [r| |]; try done. cbn [obind].
    unfold parseResponseStatus. case_decide; [done|]. pose proof (str_slice_not_fuel (vis r) 0 (Index (vis r) (bs " "))).
    destruct (str_slice _ _ _); try done. cbn [obind]. cbv zeta. case_decide; [done|].
    pose proof (str_from_not_fuel (vis r) (LastIndex (vis r) " " + 1)). by destruct (str_from _ _).
  - unfold request_line. destruct (Fields fline) as [|a [|b [|v [|? ?]]]]; try done.
    pose proof (sl_slice_not_fuel v 0 5). destruct (sl_slice v 0 5); try done. cbn [obind]. case_decide; [|done].
    pose proof (sl_from_not_fuel v 5). by destruct (sl_from v 5).
Qed.

Lemma parseVersion_fuel v : parseVersion v <> OutOfFuel.
Proof.
  unfold parseVersion. case_decide; [done|]. pose proof (at_not_fuel v 0). destruct (at_ v 0); try done. cbn [obind].
  pose proof (at_not_fuel v 2). by destruct (at_ v 2).
Qed.

Lemma http_start_state_ok s m : s_parseState s = START -> turn_ok s (start_state s m).
Proof.
  intros Es. unfold start_state. cbv zeta. apply http_turn_bind; [auto with go|]. intros rest [Ho _]%sl_from_Ret.
  assert (s_parseState s <> FLINE) by congruence. case_decide as Hi; [done|].
  apply http_turn_bind; [auto with go|]. intros fline [Hl _]%sl_slice_Ret. case_decide; [done|].
  apply http_turn_bind; [auto with go|]. intros p _.
  apply http_turn_bind; [case_decide; [apply (first_line_fuel _ _ true)|apply (first_line_fuel _ _ false)]|].
  intros [m' [version|]] _; [|done]. apply http_turn_bind; [apply parseVersion_fuel|]. intros v _.
  destruct (default (1, 0) v) as [major minor]. unfold turn_ok. cbn. repeat split; try done; lia.
Qed.

Lemma at_crlf_Ret s b : at_crlf s = Ret b -> b = true -> 0 <= s_parseOffset s.
Proof.
  unfold at_crlf. case_decide; [|by intros [= <-]]. destruct (sl_slice _ _ _) eqn:E; [|done..].
  apply sl_slice_Ret in E. intros _ _. lia.
Qed.

Lemma end_of_headers_ok s0 s m :
  s_parseState s <> FLINE -> s_data s = s_data s0 -> 0 <= s_parseOffset s0 < s_parseOffset s -> turn_ok s0 (end_of_headers s m).
Proof.
  intros H1 H2 H3. unfold end_of_headers. destruct (_ && _); [done|].
  repeat case_decide; unfold turn_ok; cbn; repeat split; try done; lia.
Qed.

Lemma headers_state_ok http s m : s_parseState s = HEADERS -> turn_ok s (headers_state http s m).
Proof.
  intros Es. assert (s_parseState s <> FLINE) by congruence. unfold headers_state. apply http_turn_bind.
  { unfold at_crlf. case_decide; [|done]. pose proof (sl_slice_not_fuel (s_data s) (s_parseOffset s) (s_parseOffset s + 2)).
    by destruct (sl_slice _ _ _). }
  intros eoh Heoh. destruct eoh.
  - pose proof (at_crlf_Ret s true Heoh eq_refl). cbv zeta. apply end_of_headers_ok; [done|done|cbn; lia].
  - apply http_turn_bind; [auto with go|]. intros rest [Ho _]%sl_from_Ret. pose proof (parseHeader_ok http m (vis rest)) as Hh.
    destruct (parseHeader http m (vis rest)) as [[m' [[ok c] off]]| |]; [|done..]. cbn [obind].
    destruct ok; [|done]. destruct c; [|done]. unfold turn_ok. cbn. repeat split; try done; lia.
Qed.

Lemma body_state_ok s m : s_parseState s = BODY -> turn_ok s (body_state s m).
Proof. intros Es. unfold body_state. cbv zeta. destruct (until_close m); [|case_decide]; unfold turn_ok; cbn; split; congruence. Qed.

Lemma chunked_start_ok s m : s_parseState s = BODY_CHUNKED_START -> turn_ok s (state_body_chunked_start s m).
Proof.
  intros Es. assert (s_parseState s <> FLINE) by congruence. unfold state_body_chunked_start.
  apply http_turn_bind; [auto with go|]. intros rest [Ho Er]%sl_from_Ret. cbv zeta.
  pose proof (Index_range (vis rest) CRLF) as Hr. case_decide; [done|]. destruct Hr as [|Hr]; [done|].
  apply http_turn_bind; [auto with go|]. intros line _. destruct (Sscanf_hex (vis line)) as [n|]; [|done].
  case_decide.
  - apply http_turn_bind; [auto with go|]. intros rest2 _. case_decide; [done|]. by apply final_crlf_ok.
  - unfold turn_ok. cbn. repeat split; try done; lia.
Qed.

(** Two more bytes than an offset in range, in machine arithmetic. *)
Lemma int_add2 x : 0 <= int_of x -> int_of (x + 2) = int_of x + 2 \/ int_of (x + 2) < 0.
Proof.
  unfold wrapS. change (2 ^ (64 - 1)) with 9223372036854775808. change (2 ^ 64) with 18446744073709551616.
  intros H. Z.to_euclidean_division_equations. lia.
Qed.

Lemma chunked_ok s m : s_parseState s = BODY_CHUNKED -> turn_ok s (state_body_chunked s m).
Proof.
  intros Es. assert (s_parseState s <> FLINE) by congruence. unfold state_body_chunked.
  apply http_turn_bind; [auto with go|]. intros rest [Ho Er]%sl_from_Ret. cbv zeta.
  set (missing := int_of (m_chunked_length m - s_bodyReceived s)). case_decide.
  - apply http_turn_bind; [auto with go|]. intros chunk [Hs _]%sl_slice_Ret. unfold turn_ok. cbn [s_parseState s_data s_parseOffset set_field].
    split; [done|]. split; [done|]. split; [lia|].
    pose proof (int_add2 (s_parseOffset s + missing) ltac:(lia)) as E.
    rewrite <- (Z.add_assoc (s_parseOffset s) missing 2) in E. lia.
  - case_decide; unfold turn_ok; cbn; done.
Qed.

Lemma http_step_ok http s m : s_parseState s <> FLINE -> turn_ok s (parser_step http (s, m)).
Proof.
  intros Hs. unfold parser_step. case_decide; [|done]. destruct (s_parseState s) eqn:Es; [..|].
  - by apply http_start_state_ok.
  - done.
  - by apply headers_state_ok.
  - by apply body_state_ok.
  - by apply chunked_start_ok.
  - by apply chunked_ok.
  - unfold state_body_chunked_wait_final_crlf. assert (s_parseState s <> FLINE) by congruence.
    apply http_turn_bind; [auto with go|]. intros rest _. case_decide; [done|]. by apply final_crlf_ok.
Qed.

(** A turn out of the data panics. *)
Lemma http_step_inside http s m s' m' :
  s_parseState s <> FLINE -> parser_step http (s, m) = Ret (inl (s', m')) -> 0 <= s_parseOffset s < len (vis (s_data s)).
Proof.
  intros Hs E. pose proof (http_step_ok http s m Hs) as H. rewrite E in H. destruct H as (_ & _ & Ho & _).
  unfold parser_step in E. case_decide; [lia|]. discriminate E.
Qed.

Definition parser_mu (s : HttpStream) : nat :=
  if decide (s_parseOffset s < 0) then 1
  else if decide (s_parseOffset s < len (vis (s_data s))) then S (Z.to_nat (len (vis (s_data s)) - s_parseOffset s)) else 0.

Lemma http_parser_ok http s m :
  s_message s = Some m -> s_parseState s <> FLINE ->
  match messageParser http s with
  | Ret (s', _) => s_parseState s' <> FLINE /\ is_Some (s_message s') /\ s_data s' = s_data s
  | Panic => True
  | OutOfFuel => False
  end.
Proof.
  intros Em Hs. unfold messageParser. rewrite Em.
  set (Inv := fun x : HttpStream * HttpMessage => s_parseState (fst x) <> FLINE /\ s_data (fst x) = s_data s).
  assert (loop (parser_step http) (S (S (length (vis (s_data s))))) (s, m) <> OutOfFuel) as Hf.
  { apply (loop_fuel _ Inv (fun x => parser_mu (fst x))); [| |done|].
    - intros [t n] [Ht _] E. pose proof (http_step_ok http t n Ht) as H. by rewrite E in H.
    - intros [t n] [t' n'] [Ht Hd] E. pose proof (http_step_ok http t n Ht) as H. rewrite E in H.
      destruct H as (H1 & H2 & H3 & H4). cbn [fst] in *. split; [split; [done|cbn; congruence]|].
      pose proof (http_step_inside http t n t' n' Ht E) as Hin. unfold parser_mu. rewrite H2.
      repeat case_decide; lia.
    - cbn [fst]. unfold parser_mu, len. repeat case_decide; lia. }
  destruct (loop _ _ _) as [[[s' m'] r]| |] eqn:E; cbn [obind]; [|done..].
  apply (loop_inv _ Inv (fun y => s_parseState (fst (fst y)) <> FLINE /\ s_data (fst (fst y)) = s_data s)) in E; [| | |done].
  - destruct E as [H1 H2]. split; [done|]. split; [by eexists|done].
  - intros [t n] [t' n'] [Ht Hd] Es. pose proof (http_step_ok http t n Ht) as H. rewrite Es in H.
    destruct H as (H1 & H2 & _). split; [done|cbn in *; congruence].
  - intros [t n] [[t' n'] r'] [Ht Hd] Es. pose proof (http_step_ok http t n Ht) as H. rewrite Es in H.
    destruct H as [H1 H2]. split; [done|cbn in *; congruence].
Qed.

(** ** What is done with a complete message *)

Lemma obind_fuel {A B} (o : outcome A) (k : A -> outcome B) :
  o <> OutOfFuel -> (forall a, o = Ret a -> k a <> OutOfFuel) -> obind o k <> OutOfFuel.
Proof. intros Hn Hk. destruct o; [by apply Hk|done|done]. Qed.

Lemma hideHeaders_fuel http m msg : hideHeaders http m msg <> OutOfFuel.
Proof.
  unfold hideHeaders. destruct (_ && _); [|done]. apply obind_fuel; [|done]. unfold hide_bytes.
  apply obind_fuel; [auto with go|]. intros h _. cbv zeta. case_decide; [done|].
  apply obind_fuel; [auto with go|]. intros h2 _. unfold mask. by repeat case_decide.
Qed.

Lemma cutMessageBody_fuel {RT : Runtime} config m : cutMessageBody config m <> OutOfFuel.
Proof.
  unfold cutMessageBody. cbv zeta. apply obind_fuel; [auto with go|]. intros head _.
  destruct (_ || _); [|done]. case_decide; [done|]. apply obind_fuel; [auto with go|done].
Qed.

Lemma add_cookies_fuel l cookies : add_cookies cookies l <> OutOfFuel.
Proof.
  revert cookies. induction l as [|c l IH]; intros cookies; [done|]. cbn [add_cookies].
  destruct (SplitN2 c "=") as [|n [|v [|? ?]]]; [apply IH|apply IH| |apply IH]. apply obind_fuel; [|intros; apply IH].
  unfold parseCookieValue. case_decide; [|done]. do 2 (apply obind_fuel; [auto with go|intros ? _]).
  case_decide; auto with go.
Qed.

Lemma event_headers_fuel http cookie hdrs : event_headers http cookie hdrs <> OutOfFuel.
Proof.
  unfold event_headers. destruct (Split_cookie http); [|done]. destruct (hdrs !! cookie); [|done].
  apply obind_fuel; [apply add_cookies_fuel|done].
Qed.

Lemma extractParameters_fuel http m msg : extractParameters http m msg <> OutOfFuel.
Proof.
  unfold extractParameters. destruct (UrlParse _) as [[path q]|]; [|done]. cbv zeta. case_decide; [|done].
  apply obind_fuel; [auto with go|]. intros body _. by destruct (ParseQuery (vis body)) as [v []].
Qed.

Lemma request_fuel {RT : Runtime} config http m tuple c : fst (receivedHttpRequest config http m tuple c) <> OutOfFuel.
Proof.
  unfold receivedHttpRequest. cbv zeta. pose proof (cutMessageBody_fuel config m) as H1.
  pose proof (event_headers_fuel http (bs "cookie") (default ∅ (m_Headers m))) as H2.
  destruct (Send_request http).
  1: destruct (cutMessageBody config m) as [[cut raw]| |]; cbn [obind]; try done.
  all: destruct (Send_headers http); [destruct (event_headers _ _ _); cbn [obind]; try done|];
    cbn [obind];
    match goal with |- context [extractParameters ?h ?n ?r] => pose proof (extractParameters_fuel h n r);
      destruct (extractParameters h n r) as [[[? ?] ?]| |] end; done.
Qed.

Lemma publish_fuel http t : fst (PublishTransaction http t) <> OutOfFuel.
Proof. unfold PublishTransaction. destruct (results http); [|done]. by destruct (_ !! _) as [[]|]. Qed.

Lemma http_response_fuel {RT : Runtime} config http m tuple : fst (receivedHttpResponse config http m tuple) <> OutOfFuel.
Proof.
  unfold receivedHttpResponse. destruct (transactionsMap http !! _) as [t|]; [|done]. destruct (t_Http t) as [f|]; [|done].
  assert (response_fields http m <> OutOfFuel) as H1.
  { unfold response_fields. cbv zeta. destruct (Send_headers http); [|done]. apply obind_fuel; [apply event_headers_fuel|done]. }
  destruct (response_fields http m) as [r| |]; try done. cbv zeta. pose proof (cutMessageBody_fuel config m) as H2.
  destruct (Send_response http).
  1: destruct (cutMessageBody config m) as [[cut raw]| |]; cbn [obind]; try done.
  all: match goal with |- context [PublishTransaction ?h ?t] => pose proof (publish_fuel h t);
      destruct (PublishTransaction h t) as [[[]| |] ?] end; done.
Qed.

Lemma ship_ok {RT : Runtime} config {W : Type} {PW : ProcWatcher W} tcptuple dir s m msg (st : Http * W) :
  msg <> OutOfFuel ->
  match fst (ship config tcptuple dir s m msg st) with
  | Ret s' => s_parseState s' = START /\ s_parseOffset s' = 0 /\ s_message s' = None
  | Panic => True
  | OutOfFuel => False
  end.
Proof.
  intros Hm. unfold ship. assert ((let! msg := msg in hideHeaders (fst st) m msg) <> OutOfFuel) as H
    by (apply obind_fuel; [done|intros; apply hideHeaders_fuel]).
  destruct (obind _ _) as [[m1 msg1]| |]; [|done..]. unfold handleHttp. destruct st as [http w].
  destruct (FindProcessesTuple _ w) as [c w']. cbv zeta.
  set (m2 := m1 <| m_TcpTuple := _ |> <| m_Direction := _ |> <| m_CmdlineTuple := _ |> <| m_Raw := _ |>).
  pose proof (request_fuel config http m2 tcptuple c) as H1. pose proof (http_response_fuel config http m2 tcptuple) as H2.
  destruct (m_IsRequest m2).
  1: destruct (receivedHttpRequest _ _ _ _ _) as [[raw| |] h]; try done.
  2: destruct (receivedHttpResponse _ _ _ _) as [[raw| |] h]; try done.
  all: cbn [fst obind]; unfold PrepareForNewMessage; cbn [s_message set_field s_data];
    match goal with |- context [sl_from ?a ?b] => pose proof (sl_from_not_fuel a b); destruct (sl_from a b) end; done.
Qed.

Definition priv_ok (private : option httpPrivateData) : Prop :=
  forall dir s, get2 (default nil2 private) dir = Ret (Some s) -> s_parseState s <> FLINE.

Lemma http_priv_set2 priv dir o :
  priv_ok (Some priv) -> (forall s, o = Some s -> s_parseState s <> FLINE) -> priv_ok (Some (set2 priv dir o)).
Proof.
  intros Hp Ho d s. pose proof (Hp 0 s) as H0. pose proof (Hp 1 s) as H1. cbn in *. unfold set2, get2 in *.
  repeat case_decide; try lia; cbn; intros E; first [by apply Ho; injection E|by apply H0|by apply H1].
Qed.

(** C21: [Parse] on any packet gives a result: panics are recovered and every loop of the
    parser ends, whatever the bytes and the length fields they hold. *)
Theorem http_Parse_total {RT : Runtime} config {W : Type} {PW : ProcWatcher W} pkt tcptuple dir private (st : Http * W) :
  priv_ok private ->
  exists private' st', Parse config pkt tcptuple dir private st = Ret (private', st') /\ priv_ok private'.
Proof.
  intros Hp. unfold Parse. assert (priv_ok (Some (default nil2 private))) as Hp' by exact Hp.
  assert (priv_ok None) as Hnone by (intros d s; cbn; unfold get2; by repeat case_decide).
  assert (forall priv, priv_ok (Some priv) -> priv_ok (Some (set2 priv dir None))) as Hdrop
    by (intros; by apply http_priv_set2).
  destruct (get2 (default nil2 private) dir) as [old| |] eqn:Eo; [|by eexists _, _|].
  2: { exfalso. revert Eo. unfold get2. by repeat case_decide. }
  destruct (too_large _ _); [eexists _, _; split; [reflexivity|by apply Hdrop]|].
  set (s := received pkt tcptuple old).
  assert (s_parseState s <> FLINE) as Hs by (subst s; destruct old as [s|]; [exact (Hp dir s Eo)|done]).
  set (s1 := match s_message s with Some _ => s | None => _ end).
  assert (exists m, s_message s1 = Some m /\ s_parseState s1 <> FLINE) as (m & Em & Hs1).
  { subst s1. destruct (s_message s) as [m|] eqn:E; [by exists m|]. by eexists. }
  pose proof (http_parser_ok (fst st) s1 m Em Hs1) as H'.
  destruct (messageParser (fst st) s1) as [[s2 [ok c]]| |]; [|by eexists _, _|done].
  destruct H' as (H1 & (m2 & E2) & _). destruct ok; cbn [negb]; [|eexists _, _; split; [reflexivity|by apply Hdrop]].
  destruct c; [|eexists _, _; split; [reflexivity|apply http_priv_set2; [done|by intros ? [= <-]]]]. rewrite E2.
  pose proof (ship_ok config tcptuple dir s2 m2 (sl_slice (s_data s2) (m_start m2) (m_end m2)) st ltac:(auto with go)) as H3.
  destruct (ship _ _ _ _ _ _ _) as [[s3| |] st3]; cbn [fst] in H3; [|by eexists _, _|done].
  eexists _, _. split; [reflexivity|]. apply http_priv_set2; [done|]. intros ? [= <-]. by rewrite (proj1 H3).
Qed.
End Termination.
