(* ===== verification/HttpPrivacy.v ===== *)
(** What the HTTP plugin hides: the authorization header in the raw request, and the
    values of secret parameters. *)
From S2P Require Import Http.
From stdpp Require Import list.
#[local] Open Scope Z_scope.

(** * The parameters *)

Section Parameters.
Context {UC : Unicode}.

Definition nonempty (v : Values) : Prop := map_Forall (fun _ vs => vs <> []) v.

Lemma parse_pairs_nonempty l v e : nonempty v -> nonempty (fst (foldl parse_pair (v, e) l)).
Proof.
  revert v e. induction l as [|s l IH]; intros v e Hv; [done|]. cbn [foldl]. unfold parse_pair at 2.
  destruct s as [|b s]; [by apply IH|]. destruct (pair_of (b :: s)) as [[k x]|]; [|by apply IH]. cbn [fst snd]. apply IH.
  unfold nonempty, GoUrl.Add. cbn [fst snd]. apply map_Forall_insert_2; [|done]. by destruct (default [] (v !! k)).
Qed.

Lemma ParseQuery_nonempty q : nonempty (fst (ParseQuery q)).
Proof. apply parse_pairs_nonempty, map_Forall_empty. Qed.

(** One value as it is published: five x in its place when the name of the parameter, in lower
    case, is among the configured ones. *)
Definition hidden_value (http : Http) (key value : bytes) : bytes :=
  if decide (ToLower key ∈ Hide_keywords http) then bs "xxxxx" else value.

Lemma isSecretParameter_spec http key : isSecretParameter http key = bool_decide (ToLower key ∈ Hide_keywords http).
Proof.
  unfold isSecretParameter. induction (Hide_keywords http) as [|k ks IH]; cbn [existsb]; [done|]. rewrite IH.
  apply eq_bool_prop_intro. rewrite orb_True, !bool_decide_spec. by rewrite elem_of_cons.
Qed.

Lemma hideSecrets_lookup http v key :
  nonempty v -> hideSecrets http v !! key = map (hidden_value http key) <$> v !! key.
Proof.
  intros Hv. unfold hideSecrets. rewrite map_lookup_imap. destruct (v !! key) as [vs|] eqn:E; [|done].
  specialize (Hv _ _ E). destruct vs as [|x vs]; [done|]. cbn [fmap option_fmap option_map]. do 2 f_equal; unfold hidden_value.
  - rewrite isSecretParameter_spec. by repeat case_decide.
Qed.

Lemma hideSecrets_nonempty http v : nonempty v -> nonempty (hideSecrets http v).
Proof.
  intros Hv key vs. rewrite hideSecrets_lookup by done. destruct (v !! key) as [ws|] eqn:E; [|done].
  specialize (Hv _ _ E). intros [= <-]. by destruct ws.
Qed.

(** The parameters of a request: those of a form override those of the URI. *)
Definition is_form (m : HttpMessage) : Prop :=
  m_ContentLength m > 0 /\ Contains (m_ContentType m) (bs "urlencoded") = true.
Definition request_params (m : HttpMessage) (rawquery body : bytes) : Values :=
  if decide (is_form m) then fst (ParseQuery body) ∪ fst (ParseQuery rawquery) else fst (ParseQuery rawquery).

(** C24: the published parameters, read back, are those of the URI and of the form; every value of
    a parameter whose name, in lower case, is one of the configured hide_keywords is replaced
    by five x, and every other value is as it was sent. *)
Theorem http_secrets_hidden http m msg path params :
  extractParameters http m msg = Ret (path, params, false) ->
  exists rawquery hidden, UrlParse (m_RequestUri m) = Some (path, rawquery) /\ ParseQuery params = (hidden, false) /\
    forall key, hidden !! key =
      map (hidden_value http key) <$> request_params m rawquery (drop (Z.to_nat (m_bodyOffset m)) (vis msg)) !! key.
Proof.
  unfold extractParameters. destruct (UrlParse _) as [[p rawquery]|]; [|done]. cbv zeta. unfold request_params, is_form.
  pose proof (ParseQuery_nonempty rawquery) as Hq. case_decide as Hf.
  - destruct (sl_from msg (m_bodyOffset m)) as [body| |] eqn:Eb; [|done..].
    apply sl_from_Ret in Eb as [_ Eb]. cbn [obind]. rewrite <- Eb.
    pose proof (ParseQuery_nonempty (vis body)) as Hb. destruct (ParseQuery (vis body)) as [values []]; [done|].
    cbn [fst] in Hb. intros [= <- <-]. eexists rawquery, _. split; [done|]. split.
    + apply ParseQuery_Encode. apply map_Forall_union_2; by apply hideSecrets_nonempty.
    + intros key. cbn [fst]. rewrite !lookup_union, !hideSecrets_lookup by done.
      by destruct (values !! key), (fst (ParseQuery rawquery) !! key).
  - intros [= <- <-]. eexists rawquery, _. split; [done|]. split.
    + apply ParseQuery_Encode. by apply hideSecrets_nonempty.
    + intros key. by apply hideSecrets_lookup.
Qed.
End Parameters.

(** * The authorization header *)

Lemma index_auth_line value rest :
  index_nat value CRLF = None ->
  Index (auth_text ++ value ++ CRLF ++ rest) CRLF = len auth_text + len value.
Proof.
  intros Hv. assert (index_nat (auth_text ++ value) CRLF = None) as H.
  { change (auth_text ++ value) with ([x41;x75;x74;x68;x6f;x72;x69;x7a;x61;x74;x69;x6f;x6e;x3a] ++ value).
    cbn [app]. unfold CRLF in *. cbn. by rewrite Hv. }
  unfold Index, CRLF in *. cbn [app]. rewrite app_assoc. rewrite index_nat_line by done.
  rewrite length_app. unfold len. lia.
Qed.

(** A part of the message by its position. *)
Lemma slice_between msg pre mid post :
  vis msg = pre ++ mid ++ post ->
  exists t, sl_slice msg (len pre) (len pre + len mid) = Ret t /\ vis t = mid.
Proof.
  intros E. destruct (sl_slice_vis msg (len pre) (len pre + len mid)) as (t & Et & Ev); [len_lia|rewrite E; len_lia|].
  exists t. split; [done|]. by rewrite Ev, E, sub_mid.
Qed.

(** With the authorization header after [before] bytes of other headers, the stars cover its
    value but for as many bytes at the end as there are before it: all of the value
    when it is the first header, none when the headers before it are as long as it. *)
Theorem http_authorization_masked http m msg first before value after rest :
  m_IsRequest m = true -> Strip_authorization http = true -> authorized m = true ->
  vis msg = first ++ (before ++ auth_text ++ value ++ CRLF ++ after) ++ rest ->
  m_headerOffset m = len first ->
  m_bodyOffset m = len first + len (before ++ auth_text ++ value ++ CRLF ++ after) ->
  Index (before ++ auth_text) auth_text = len before -> index_nat value CRLF = None ->
  let stars := (length value - length before)%nat in
  exists m' msg', hideHeaders http m msg = Ret (m', msg') /\
    vis msg' = first ++ (before ++ auth_text ++ (replicate stars "*"%byte ++ drop stars value) ++ CRLF ++ after) ++ rest /\
    m_Headers m' = Some (<[bs "authorization" := bs "*"]> (default ∅ (m_Headers m))).
Proof.
  intros Hreq Hstrip Hauth E Ho Hb Hi Hv. cbv zeta. unfold hideHeaders. rewrite Hreq, Hstrip, Hauth. cbn [andb].
  set (headers := before ++ auth_text ++ value ++ CRLF ++ after) in *. unfold hide_bytes. cbv zeta. rewrite Hb, Ho.
  destruct (slice_between msg first headers rest E) as (t & -> & Et). cbn [obind]. rewrite Et.
  assert (Index headers auth_text = len before) as ->.
  { unfold headers. rewrite app_assoc. rewrite Index_app; [done|]. rewrite Hi. pose proof (len_nonneg before). lia. }
  rewrite decide_False by (pose proof (len_nonneg before); lia).
  set (line := auth_text ++ value ++ CRLF ++ after) in *.
  assert (len headers = len before + len line) as Hlen by (unfold headers; by rewrite len_app).
  destruct (slice_between msg (first ++ before) line rest) as (u & Eu & Ev).
  { rewrite E. unfold headers. by rewrite <- !app_assoc. }
  rewrite Hlen. replace (len first + (len before + len line)) with (len (first ++ before) + len line) by len_lia.
  replace (len first + len before) with (len (first ++ before)) by len_lia. rewrite Eu. cbn [obind]. rewrite Ev.
  assert (Index line CRLF = len auth_text + len value) as -> by (by apply index_auth_line). pose proof (len_nonneg value). pose proof (len_nonneg after).
  assert (len line = len auth_text + len value + 2 + len after) as Hline by (unfold line; rewrite !len_app; change (len CRLF) with 2; lia).
  change (len auth_text) with 14 in *. pose proof (len_nonneg before). pose proof (len_nonneg first).
  rewrite decide_False by (rewrite len_app; lia). rewrite len_app.
  set (stars := (length value - length before)%nat).
  unfold Http.mask. case_decide as Hlt.
  - assert (len (vis msg) = len first + (len before + (14 + len value + 2 + len after)) + len rest) as Hm
      by (rewrite E, !len_app, Hlen, Hline; lia).
    pose proof (len_nonneg rest). rewrite decide_True by lia. cbn [obind]. eexists _, _. split; [reflexivity|]. split; [|done].
    cbn [vis]. rewrite E.
    assert (stars <= length value)%nat as Hle by (unfold stars; lia).
    assert (first ++ headers ++ rest = (first ++ before ++ auth_text) ++ take stars value ++ drop stars value ++ CRLF ++ after ++ rest) as ->.
    { unfold headers, line. rewrite (app_assoc (take stars value)), take_drop. by rewrite <- !app_assoc. }
    assert (length (take stars value) = stars) as Htk by (rewrite length_take; lia).
    assert (Z.to_nat (len first + len before + 14) = length (first ++ before ++ auth_text)) as ->
      by (rewrite !length_app; change (length auth_text) with 14%nat; unfold len; lia).
    rewrite take_app_length.
    assert (Z.to_nat (len first + (14 + len value) - (len first + len before + 14)) = stars) as -> by (unfold stars, len; lia).
    assert (Z.to_nat (len first + (14 + len value)) = length ((first ++ before ++ auth_text) ++ take stars value)) as ->.
    { rewrite (length_app (first ++ _)), Htk, !length_app. change (length auth_text) with 14%nat. unfold stars, len in *. lia. }
    rewrite (app_assoc (first ++ before ++ auth_text) (take stars value)), drop_app_length. by rewrite <- !app_assoc.
  - cbn [obind]. eexists _, _. split; [reflexivity|]. split; [|done]. cbn [vis]. rewrite E. unfold headers.
    assert (stars = 0%nat) as -> by (unfold stars, len in *; lia). done.
Qed.

(** ** When the headers are not sent *)

Section NoHeaders.
Context {UC : Unicode} (http : Http).

Definition bare (m : HttpMessage) : Prop := default ∅ (m_Headers m) = ∅.

Definition bare_turn (t : turn) : Prop :=
  match t with Ret (inl (_, m)) | Ret (inr (_, m, _)) => bare m | _ => True end.

Lemma bare_bind {A} (o : outcome A) (k : A -> turn) : (forall a, o = Ret a -> bare_turn (k a)) -> bare_turn (obind o k).
Proof. intros Hk. by destruct o; [apply Hk|..]. Qed.

Lemma bare_note m name v : bare m -> bare (note_header http m name v).
Proof. intros Hm. unfold note_header. cbv zeta. by repeat case_decide. Qed.

Lemma bare_header m data :
  Send_headers http = false -> bare m ->
  match parseHeader http m data with Ret (m', _) => bare m' | _ => True end.
Proof.
  intros Hs Hm. unfold parseHeader. set (m1 := m <| m_Headers := _ |>).
  assert (bare m1) as Hm1 by exact Hm. case_decide; [done|].
  destruct (loop _ _ _) as [[m' r]| |] eqn:E; [|done..].
  apply (loop_inv _ (fun _ => True) (fun y => bare (fst y))) in E; [done|done| |done].
  intros p [m2 r2] _. unfold header_turn. case_decide; [|by intros [= <- <-]].
  destruct (str_from data p); [|done..]. cbn [obind]. case_decide; [by intros [= <- <-]|]. cbv zeta.
  destruct (if decide _ then _ else _) as [[]| |]; [done| |done..]. cbn [obind].
  destruct (str_slice data 0 _); [|done..]. cbn [obind]. destruct (str_slice data _ _); [|done..]. cbn [obind].
  intros [= <- _]. unfold store_header. rewrite Hs. by apply bare_note.
Qed.

Lemma bare_first_line m fline b m' v :
  bare m -> (if b : bool then response_line m fline else request_line m fline) = Ret (m', v) -> bare m'.
Proof.
  intros Hm. destruct b.
  - unfold response_line. destruct (sl_slice fline 5 8); [|done..]. cbn [obind]. destruct (sl_from fline 9); [|done..].
    cbn [obind]. destruct (parseResponseStatus _) as [[[c p] []]| |]; [..|done|done]; by intros [= <- _].
  - unfold request_line. destruct (Fields fline) as [|a [|u [|w [|? ?]]]]; try (by intros [= <- _]).
    destruct (sl_slice w 0 5); [|done..]. cbn [obind]. case_decide; [|by intros [= <- _]].
    destruct (sl_from w 5); [|done..]. by intros [= <- _].
Qed.

Lemma bare_step s m : Send_headers http = false -> bare m -> bare_turn (parser_step http (s, m)).
Proof.
  intros Hs Hm. unfold parser_step. case_decide; [|done]. destruct (s_parseState s).
  - unfold start_state. cbv zeta. apply bare_bind. intros rest _. case_decide; [done|]. apply bare_bind. intros fline _.
    case_decide; [done|]. apply bare_bind. intros p _. apply bare_bind. intros [m1 v].
    destruct (decide (vis p = bs "HTTP/")); intros E;
      [eapply (bare_first_line _ _ true) in E|eapply (bare_first_line _ _ false) in E]; try exact Hm;
      (destruct v as [v|]; [|done]); apply bare_bind; intros w _; by destruct (default (1, 0) w).
  - done.
  - unfold headers_state. apply bare_bind. intros [] _.
    + unfold end_of_headers. destruct (_ && _); [done|]. by repeat case_decide.
    + apply bare_bind. intros rest _. pose proof (bare_header m (vis rest) Hs Hm) as Hh. apply bare_bind.
      intros [m1 [[ok c] off]] E. rewrite E in Hh. by destruct ok, c.
  - unfold body_state. cbv zeta. destruct (until_close m); [done|]. by case_decide.
  - unfold state_body_chunked_start. apply bare_bind. intros rest _. cbv zeta. case_decide; [done|]. apply bare_bind.
    intros line _. destruct (Sscanf_hex _); [|done]. case_decide; [|done]. apply bare_bind. intros r _. case_decide; [done|].
    unfold final_crlf. do 2 (apply bare_bind; intros ? _). by case_decide.
  - unfold state_body_chunked. apply bare_bind. intros rest _. cbv zeta. case_decide; [|by case_decide].
    by apply bare_bind.
  - unfold state_body_chunked_wait_final_crlf. apply bare_bind. intros rest _. case_decide; [done|].
    unfold final_crlf. do 2 (apply bare_bind; intros ? _). by case_decide.
Qed.

(** Unless the headers are exported too, the option to strip the authorization has no
    effect: whatever a request holds, the raw bytes that are published are those
    that were captured. *)
Theorem http_strip_needs_headers s m s' r m' msg :
  Send_headers http = false -> s_message s = Some m -> default ∅ (m_Headers m) = ∅ ->
  messageParser http s = Ret (s', r) -> s_message s' = Some m' ->
  default ∅ (m_Headers m') = ∅ /\ hideHeaders http m' msg = Ret (m', msg).
Proof.
  intros Hs Em Hm E Em'. assert (bare m') as Hb.
  { unfold messageParser in E. rewrite Em in E. destruct (loop _ _ _) as [[[s1 m1] r1]| |] eqn:El; [|done..].
    injection E as <- <-. injection Em' as <-.
    apply (loop_inv _ (fun x => bare (snd x)) (fun y => bare (snd (fst y)))) in El; [done| | |exact Hm].
    - intros [t n] [t' n'] Hn Es. pose proof (bare_step t n Hs Hn) as H. by rewrite Es in H.
    - intros [t n] [[t' n'] r'] Hn Es. pose proof (bare_step t n Hs Hn) as H. by rewrite Es in H. }
  split; [exact Hb|]. unfold hideHeaders, authorized. rewrite Hb, lookup_empty. by rewrite !andb_false_r.
Qed.
End NoHeaders.

(** * The end of the connection among the headers *)

(** With the option to strip the authorization, a connection that ends after the
    authorization header of a request and before the end of its headers makes
    [ReceivedFin] slice the headers from their beginning to offset zero, and panic. *)
Theorem http_fin_panics {UC : Unicode} {RT : Runtime} config {W : Type} {PW : ProcWatcher W} tcptuple dir priv s m (st : Http * W) :
  get2 priv dir = Ret (Some s) -> s_message s = Some m -> m_start m = 0 -> len (vis (s_data s)) > 0 ->
  m_IsRequest m = true -> Strip_authorization (fst st) = true -> authorized m = true ->
  m_bodyOffset m = 0 -> m_headerOffset m > 0 ->
  ReceivedFin config tcptuple dir (Some priv) st = (Panic, st).
Proof.
  intros Hg Em Hst Hl Hr Hs Ha Hb Ho. unfold ReceivedFin. rewrite Hg, Em, Hst.
  unfold sl_from. rewrite decide_True by lia. cbn [Z.to_nat drop vis]. rewrite decide_True by done.
  unfold ship. cbn [obind]. unfold hideHeaders. rewrite Hr, Hs, Ha. cbn [andb]. unfold hide_bytes.
  unfold sl_slice at 1. rewrite decide_False by (rewrite Hb; lia). done.
Qed.

(** * Examples *)

#[local] Existing Instance Demo.unicode.
#[local] Existing Instance Demo.runtime.
#[local] Existing Instance Demo.watcher.

Definition demo_config : ConfigHttp :=
  {| cfg_Ports := [80]; cfg_Send_all_headers := Some true; cfg_Send_headers := []; cfg_Split_cookie := Some true;
     cfg_Real_ip_header := None; cfg_Include_body_for := [bs "text"]; cfg_Hide_keywords := [bs "pass"];
     cfg_Strip_authorization := Some true; cfg_Send_request := Some true; cfg_Send_response := None |}.
Definition zero_http : Http :=
  {| Ports := []; Send_request := false; Send_response := false; Send_headers := false; Send_all_headers := false;
     Headers_whitelist := ∅; Split_cookie := false; Real_ip_header := []; Hide_keywords := []; Strip_authorization := false;
     transactionsMap := ∅; results := None |}.
Definition demo_http : Http := Init zero_http false demo_config (Some []).

Definition crlf (s : string) : bytes := bs s ++ CRLF.
Definition demo_head : bytes :=
  crlf "GET /login?user=me&Pass=secret HTTP/1.1" ++ crlf "Host: here" ++ crlf "Authorization: Basic abcdefgh".
Definition demo_data : bytes := demo_head ++ CRLF.

Definition parsed (http : Http) (data : bytes) : option (HttpMessage * slice) :=
  match messageParser http (received (Demo.packet 9 data) Demo.tuple None) with
  | Ret (s, _) => match s_message s with Some m => Some (m, s_data s) | None => None end
  | _ => None
  end.
Definition demo_message : HttpMessage := default (newMessage 0) (fst <$> parsed demo_http demo_data).

Lemma http_secrets_hidden_witness :
  exists rawquery hidden, UrlParse (m_RequestUri demo_message) = Some (bs "/login", rawquery) /\
    ParseQuery (bs "Pass=xxxxx&user=me") = (hidden, false) /\
    hidden !! bs "Pass" = Some [bs "xxxxx"] /\ hidden !! bs "user" = Some [bs "me"].
Proof.
  destruct (http_secrets_hidden demo_http demo_message (mkSlice demo_data []) (bs "/login") (bs "Pass=xxxxx&user=me"))
    as (rawquery & hidden & H1 & H2 & H3); [by vm_compute|].
  exists rawquery, hidden. split; [exact H1|]. split; [exact H2|].
  assert (rawquery = bs "user=me&Pass=secret") as ->.
  { assert (UrlParse (m_RequestUri demo_message) = Some (bs "/login", bs "user=me&Pass=secret")) as E by (by vm_compute).
    rewrite E in H1. by injection H1. }
  split; rewrite H3; by vm_compute.
Defined.

(** Twelve bytes of the header before it leave the last twelve of the value. *)
Definition demo_before : bytes := crlf "Host: here".
Lemma http_authorization_masked_witness :
  exists m' msg', hideHeaders demo_http demo_message (mkSlice demo_data []) = Ret (m', msg') /\
    vis msg' = crlf "GET /login?user=me&Pass=secret HTTP/1.1" ++
      (crlf "Host: here" ++ auth_text ++ bs "***sic abcdefgh" ++ CRLF ++ CRLF) ++ [].
Proof.
  destruct (http_authorization_masked demo_http demo_message (mkSlice demo_data [])
    (crlf "GET /login?user=me&Pass=secret HTTP/1.1") demo_before (bs " Basic abcdefgh") CRLF []
    eq_refl eq_refl eq_refl eq_refl eq_refl eq_refl eq_refl eq_refl) as (m' & msg' & H1 & H2 & _).
  exists m', msg'. exact (conj H1 H2).
Defined.

(** The same request, the headers not exported. *)
Definition quiet_http : Http := demo_http <| Send_headers := false |>.
Definition demo_stream : HttpStream := received (Demo.packet 9 demo_data) Demo.tuple None.
Definition quiet_result : HttpStream * (bool * bool) :=
  match messageParser quiet_http demo_stream with Ret x => x | _ => (demo_stream, (false, false)) end.
Definition quiet_message : HttpMessage := default (newMessage 0) (s_message (fst quiet_result)).

Lemma quiet_parsed : messageParser quiet_http demo_stream = Ret (fst quiet_result, snd quiet_result).
Proof. vm_compute. reflexivity. Qed.
Lemma quiet_complete : s_message (fst quiet_result) = Some quiet_message /\ snd quiet_result = (true, true).
Proof. vm_compute. split; reflexivity. Qed.

Lemma http_strip_needs_headers_witness :
  Strip_authorization quiet_http = true /\ Send_request quiet_http = true /\
  hideHeaders quiet_http quiet_message (mkSlice demo_data []) = Ret (quiet_message, mkSlice demo_data []).
Proof.
  destruct (http_strip_needs_headers quiet_http demo_stream (newMessage 9) (fst quiet_result) (snd quiet_result)
    quiet_message (mkSlice demo_data []) eq_refl eq_refl eq_refl quiet_parsed (proj1 quiet_complete)) as [_ H].
  exact (conj eq_refl (conj eq_refl H)).
Defined.

(** The connection ends after the authorization header. *)
Definition cut_stream : HttpStream :=
  match Parse demo_config (Demo.packet 9 (demo_head ++ bs "Acc")) Demo.tuple 1 None (demo_http, tt) with
  | Ret (Some priv, _) => default demo_stream (dir1 priv)
  | _ => demo_stream
  end.
Definition cut_message : HttpMessage := default (newMessage 0) (s_message cut_stream).
Definition cut_private : httpPrivateData := {| dir0 := None; dir1 := Some cut_stream |}.

Lemma cut_facts :
  s_message cut_stream = Some cut_message /\ m_start cut_message = 0 /\ bool_decide (len (vis (s_data cut_stream)) > 0) = true /\
  m_IsRequest cut_message = true /\ authorized cut_message = true /\ m_bodyOffset cut_message = 0 /\
  bool_decide (m_headerOffset cut_message > 0) = true.
Proof. vm_compute. repeat (split; [reflexivity|]). reflexivity. Qed.

Lemma http_fin_panics_witness :
  ReceivedFin demo_config Demo.tuple 1 (Some cut_private) (demo_http, tt) = (Panic, (demo_http, tt)).
Proof.
  destruct cut_facts as (E & Es & El & Er & Ea & Eb & Eh).
  exact (http_fin_panics demo_config Demo.tuple 1 cut_private cut_stream cut_message (demo_http, tt)
    eq_refl E Es (bool_decide_eq_true_1 _ El) Er eq_refl Ea Eb (bool_decide_eq_true_1 _ Eh)).
Defined.
