(* ===== verification/HttpMessages.v ===== *)
(** HTTP messages as a peer sends them, read back by the parser: the first line, the
    headers, a body of given length or in chunks; and what follows the message is
    left for the next one. *)
From S2P Require Import Http.
From stdpp Require Import list.
#[local] Open Scope Z_scope.

(** * Encoding *)

Definition crlf (s : bytes) : bytes := s ++ CRLF.
Definition encode_header (h : bytes * bytes) : bytes := crlf (fst h ++ ":"%byte :: snd h).

(** A name without colon that does not begin with CR, and a value without CRLF. *)
Definition header_ok (h : bytes * bytes) : Prop :=
  (exists b n, fst h = b :: n /\ b <> x0d) /\ Forall (fun b => b <> ":"%byte) (fst h) /\ index_nat (snd h) CRLF = None.

Definition encode_head (first : bytes) (headers : list (bytes * bytes)) : bytes :=
  crlf first ++ concat (map encode_header headers) ++ CRLF.

(** A chunk with the text of its length, which may have extensions. *)
Definition encode_chunk (c : bytes * bytes) : bytes := crlf (fst c) ++ crlf (snd c).
Definition chunk_ok (c : bytes * bytes) : Prop :=
  Sscanf_hex (fst c) = Some (len (snd c)) /\ index_nat (fst c) CRLF = None /\ snd c <> [].
Definition last_chunk (text : bytes) : bytes := crlf text ++ CRLF.

(** * Positions *)

Section Messages.
Context {UC : Unicode} (http : Http).

(** [s] with its offset after [pre]. *)
Definition at_pos (s : HttpStream) (pre : bytes) : HttpStream := s <| s_parseOffset := len pre |>.

Lemma from_pos d pre rest : vis d = pre ++ rest -> exists t, sl_from d (len pre) = Ret t /\ vis t = rest.
Proof.
  intros E. unfold sl_from. rewrite decide_True by (rewrite E; len_lia). eexists. split; [reflexivity|]. cbn.
  by rewrite E, drop_len_app.
Qed.

Lemma http_slice_pos d pre mid rest : vis d = pre ++ mid ++ rest ->
  exists t, sl_slice d (len pre) (len pre + len mid) = Ret t /\ vis t = mid.
Proof.
  intros E. destruct (sl_slice_vis d (len pre) (len pre + len mid)) as (t & Et & Ev); [len_lia|rewrite E; len_lia|].
  exists t. split; [done|]. by rewrite Ev, E, sub_mid.
Qed.

Lemma Index_crlf l rest : index_nat l CRLF = None -> Index (l ++ CRLF ++ rest) CRLF = len l.
Proof. intros H. unfold Index, CRLF in *. cbn [app]. rewrite index_nat_line by done. done. Qed.

(** ** Headers *)

(** What the parser makes of a header. *)
Definition receive_header (m : HttpMessage) (h : bytes * bytes) : HttpMessage :=
  let name := ToLower (fst h) in
  let value := Trim (snd h) [x20; x09] in
  store_header http (note_header http (m <| m_Headers := Some (default ∅ (m_Headers m)) |>) name value) name value.

Lemma Index_colon name rest : Forall (fun b => b <> ":"%byte) name -> Index (name ++ ":"%byte :: rest) (bs ":") = len name.
Proof.
  intros H. unfold Index. assert (index_nat (name ++ ":"%byte :: rest) (bs ":") = Some (length name)) as ->; [|done].
  apply index_first. rewrite forallb_forall. intros b Hb. rewrite Forall_forall in H. apply list_elem_of_In, H in Hb.
  destruct (Byte.eqb b ":") eqn:E; [|done]. by apply beqb_eq in E.
Qed.

Lemma str_slice_pos pre mid rest s : s = pre ++ mid ++ rest -> str_slice s (len pre) (len pre + len mid) = Ret mid.
Proof. intros ->. apply str_slice_mid. Qed.

Lemma parseHeader_encoded m h rest :
  header_ok h ->
  parseHeader http m (encode_header h ++ rest) = Ret (receive_header m h, (true, true, len (encode_header h))).
Proof.
  destruct h as [name value]. intros ((b & n & Eb & _) & Hc & Hv). cbn [fst snd] in *. unfold parseHeader.
  set (data := encode_header (name, value) ++ rest).
  assert (data = name ++ ":"%byte :: (value ++ CRLF ++ rest)) as Ed
    by (unfold data, encode_header, crlf; cbn [fst snd]; by rewrite <- !app_assoc).
  clearbody data. assert (Index data (bs ":") = len name) as -> by (rewrite Ed; by apply Index_colon).
  pose proof (len_nonneg name). rewrite decide_False by lia.
  assert (len data = len name + 1 + len value + 2 + len rest) as Hl
    by (rewrite Ed, len_app, len_cons, !len_app; change (len CRLF) with 2; lia).
  pose proof (len_nonneg value). pose proof (len_nonneg rest).
  rewrite loop_S. unfold header_turn. rewrite decide_True by lia.
  assert (data = (name ++ bs ":") ++ value ++ CRLF ++ rest) as Ed2 by (by rewrite Ed, <- app_assoc).
  assert (len name + 1 = len (name ++ bs ":")) as En by (by rewrite len_app).
  rewrite str_from_ok by lia. rewrite En.
  assert (drop (Z.to_nat (len (name ++ bs ":"))) data = value ++ CRLF ++ rest) as -> by (rewrite Ed2; apply drop_len_app).
  cbn [obind].
  rewrite Index_crlf by done. rewrite decide_False by lia. cbv zeta. rewrite decide_True by (rewrite <- En; lia).
  assert (at_ data (len (name ++ bs ":") + len value + 1) = Ret x0a) as ->.
  { assert (data = ((name ++ bs ":") ++ value ++ [x0d]) ++ x0a :: rest) as -> by (rewrite Ed2; unfold CRLF; by rewrite <- !app_assoc).
    replace (len (name ++ bs ":") + len value + 1) with (len ((name ++ bs ":") ++ value ++ [x0d])) by (rewrite !len_app; change (len [x0d]) with 1; lia).
    apply at_mid. }
  cbn [obind]. change (Byte.eqb x0a " " || Byte.eqb x0a x09) with false. cbv iota.
  assert (str_slice data 0 (len name) = Ret name) as -> by exact (str_slice_pos [] name _ data Ed). cbn [obind].
  rewrite (str_slice_pos (name ++ bs ":") value (CRLF ++ rest) data Ed2). cbn [obind].
  assert (len (encode_header (name, value)) = len (name ++ bs ":") + len value + 2) as ->; [|done].
  unfold encode_header, crlf. cbn [fst snd]. rewrite !len_app, len_cons. change (len CRLF) with 2. change (len (bs ":")) with 1. lia.
Qed.

Lemma header_turn_pos s m pre h rest :
  vis (s_data s) = pre ++ encode_header h ++ rest -> s_parseState s = HEADERS -> header_ok h ->
  parser_step http (at_pos s pre, m) = Ret (inl (at_pos s (pre ++ encode_header h), receive_header m h)).
Proof.
  intros E Es Hh. pose proof Hh as ((b & n & Eb & Hb) & _ & _).
  assert (2 <= len (encode_header h)) as H2 by (unfold encode_header, crlf; rewrite len_app; change (len CRLF) with 2; len_lia).
  unfold parser_step. cbn [s_parseOffset at_pos set_field]. change (s_data (at_pos s pre)) with (s_data s).
  rewrite decide_True by (rewrite E; len_lia). change (s_parseState (at_pos s pre)) with (s_parseState s). rewrite Es.
  unfold headers_state, at_crlf. change (s_data (at_pos s pre)) with (s_data s).
  change (s_parseOffset (at_pos s pre)) with (len pre). rewrite decide_True by (rewrite E; len_lia).
  destruct (sl_slice_vis (s_data s) (len pre) (len pre + 2)) as (t & -> & Et); [len_lia|rewrite E; len_lia|]. cbn [obind].
  assert (vis t <> CRLF) as Hne.
  { rewrite Et, E. unfold sub. rewrite drop_len_app. unfold encode_header, crlf. rewrite Eb. cbn [app].
    replace (Z.to_nat (len pre + 2 - len pre)) with 2%nat by lia. cbn [take]. unfold CRLF. intros [=]. done. }
  rewrite bool_decide_false by done. cbv iota.
  destruct (from_pos _ _ _ E) as (u & -> & Eu). cbn [obind]. rewrite Eu, parseHeader_encoded by done. cbn [obind negb].
  unfold at_pos. cbn [s_parseOffset set_field]. by rewrite len_app.
Qed.

Lemma headers_turns s m pre hs rest :
  vis (s_data s) = pre ++ concat (map encode_header hs) ++ rest -> s_parseState s = HEADERS -> Forall header_ok hs ->
  Prelude.iter (parser_step http) (length hs) (at_pos s pre, m) =
    Some (at_pos s (pre ++ concat (map encode_header hs)), foldl receive_header m hs).
Proof.
  revert pre m. induction hs as [|h hs IH]; intros pre m E Es Hh; [by rewrite app_nil_r|].
  apply Forall_cons_1 in Hh as [H1 H2]. cbn [map concat] in E. cbn [length Prelude.iter].
  rewrite (header_turn_pos s m pre h (concat (map encode_header hs) ++ rest)) by (done || by rewrite E, <- app_assoc).
  rewrite (IH (pre ++ encode_header h)); [|by rewrite E, <- !app_assoc|done|done]. by rewrite <- app_assoc.
Qed.

(** The empty line. *)
Lemma eoh_turn s m pre rest :
  vis (s_data s) = pre ++ CRLF ++ rest -> s_parseState s = HEADERS ->
  parser_step http (at_pos s pre, m) =
    end_of_headers (at_pos s (pre ++ CRLF)) (m <| m_bodyOffset := len (pre ++ CRLF) |>).
Proof.
  intros E Es. unfold parser_step. cbn [s_parseOffset at_pos set_field]. change (s_data (at_pos s pre)) with (s_data s).
  assert (len (vis (s_data s)) = len pre + 2 + len rest) as Hl by (rewrite E, !len_app; change (len CRLF) with 2; lia).
  pose proof (len_nonneg pre). pose proof (len_nonneg rest). rewrite decide_True by lia.
  change (s_parseState (at_pos s pre)) with (s_parseState s). rewrite Es. unfold headers_state, at_crlf.
  change (s_data (at_pos s pre)) with (s_data s). change (s_parseOffset (at_pos s pre)) with (len pre).
  rewrite decide_True by lia. destruct (http_slice_pos _ _ _ _ E) as (t & Et & Ev). change (len CRLF) with 2 in Et.
  rewrite Et. cbn [obind]. rewrite Ev, bool_decide_true by done.
  cbv zeta. unfold at_pos. cbn [s_parseOffset set_field]. by rewrite len_app.
Qed.

(** ** Bodies *)

Lemma wait_data s m : s_parseOffset s >= len (vis (s_data s)) -> parser_step http (s, m) = wait s m.
Proof. intros H. unfold parser_step. by rewrite decide_False by lia. Qed.

Lemma body_turn s m pre body rest :
  vis (s_data s) = pre ++ body ++ rest -> body <> [] -> s_parseState s = BODY -> s_bodyReceived s = 0 ->
  m_hasContentLength m = true -> m_ContentLength m = len body -> len (vis (s_data s)) < 2 ^ 63 ->
  parser_step http (at_pos s pre, m) = finished (at_pos s (pre ++ body)) m.
Proof.
  intros E Hne Es Hr Hc Hl Hb. unfold parser_step. cbn [s_parseOffset at_pos set_field]. change (s_data (at_pos s pre)) with (s_data s).
  assert (len (vis (s_data s)) = len pre + len body + len rest) as Hlen by (rewrite E, !len_app; lia).
  assert (0 < len body) by (destruct body; [done|rewrite len_cons; pose proof (len_nonneg body); lia]).
  pose proof (len_nonneg pre). pose proof (len_nonneg rest). rewrite decide_True by lia.
  change (s_parseState (at_pos s pre)) with (s_parseState s). rewrite Es. unfold body_state.
  change (s_data (at_pos s pre)) with (s_data s). change (s_parseOffset (at_pos s pre)) with (len pre).
  change (s_bodyReceived (at_pos s pre)) with (s_bodyReceived s). unfold until_close. rewrite Hc, Hr, Hl. cbn [negb andb].
  rewrite !wrapS_small by (cbn in *; lia). rewrite decide_True by lia.
  unfold at_pos. cbn [s_parseOffset set_field]. rewrite len_app. f_equal. by rewrite Z.sub_0_r.
Qed.

Lemma chunk_start_turn s m pre c rest :
  vis (s_data s) = pre ++ encode_chunk c ++ rest -> chunk_ok c -> s_parseState s = BODY_CHUNKED_START ->
  parser_step http (at_pos s pre, m) =
    Ret (inl (at_pos s (pre ++ crlf (fst c)) <| s_bodyReceived := 0 |> <| s_parseState := BODY_CHUNKED |>,
              m <| m_chunked_length := len (snd c) |>)).
Proof.
  destruct c as [text body]. intros E (Hx & Hn & Hne) Es. cbn [fst snd] in *.
  assert (vis (s_data s) = pre ++ text ++ CRLF ++ crlf body ++ rest) as E1
    by (rewrite E; unfold encode_chunk, crlf; cbn [fst snd]; by rewrite <- !app_assoc).
  assert (len (vis (s_data s)) = len pre + len text + 2 + (len (crlf body) + len rest)) as Hlen
    by (rewrite E1, !len_app; change (len CRLF) with 2; lia).
  pose proof (len_nonneg pre). pose proof (len_nonneg text). pose proof (len_nonneg rest). pose proof (len_nonneg (crlf body)).
  unfold parser_step. cbn [s_parseOffset at_pos set_field]. change (s_data (at_pos s pre)) with (s_data s).
  rewrite decide_True by lia. change (s_parseState (at_pos s pre)) with (s_parseState s). rewrite Es.
  unfold state_body_chunked_start. change (s_data (at_pos s pre)) with (s_data s). change (s_parseOffset (at_pos s pre)) with (len pre).
  destruct (from_pos _ _ _ E1) as (t & -> & Et). cbn [obind]. rewrite Et, Index_crlf by done. rewrite decide_False by lia.
  destruct (http_slice_pos _ _ _ _ E1) as (u & -> & Eu). cbn [obind]. rewrite Eu, Hx.
  rewrite decide_False by (destruct body; [done|rewrite len_cons; pose proof (len_nonneg body); lia]).
  unfold at_pos, crlf. cbn [s_parseOffset set_field].
  assert (len (pre ++ text ++ CRLF) = len pre + (len text + 2)) as -> by (rewrite !len_app; change (len CRLF) with 2; lia).
  reflexivity.
Qed.

Lemma chunk_body_turn s m pre body rest :
  vis (s_data s) = pre ++ crlf body ++ rest -> body <> [] -> s_parseState s = BODY_CHUNKED -> s_bodyReceived s = 0 ->
  m_chunked_length m = len body -> len (vis (s_data s)) < 2 ^ 63 ->
  parser_step http (at_pos s pre, m) =
    Ret (inl (at_pos s (pre ++ crlf body) <| s_parseState := BODY_CHUNKED_START |>,
              m <| m_chunked_body := m_chunked_body m ++ body |>
                <| m_ContentLength := int_of (m_ContentLength m + len body) |>)).
Proof.
  intros E Hne Es Hr Hc Hb.
  assert (vis (s_data s) = pre ++ body ++ CRLF ++ rest) as E1 by (rewrite E; unfold crlf; by rewrite <- !app_assoc).
  assert (len (vis (s_data s)) = len pre + len body + 2 + len rest) as Hlen
    by (rewrite E1, !len_app; change (len CRLF) with 2; lia).
  pose proof (len_nonneg pre). pose proof (len_nonneg body). pose proof (len_nonneg rest).
  unfold parser_step. cbn [s_parseOffset at_pos set_field]. change (s_data (at_pos s pre)) with (s_data s).
  rewrite decide_True by lia. change (s_parseState (at_pos s pre)) with (s_parseState s). rewrite Es.
  unfold state_body_chunked. change (s_data (at_pos s pre)) with (s_data s). change (s_parseOffset (at_pos s pre)) with (len pre).
  change (s_bodyReceived (at_pos s pre)) with (s_bodyReceived s).
  destruct (from_pos _ _ _ E1) as (t & -> & Et). cbn [obind]. rewrite Et, Hr, Hc, !len_app. change (len CRLF) with 2.
  rewrite !wrapS_small by (rewrite ?wrapS_small by (cbn in *; lia); cbn in *; lia). rewrite decide_True by lia.
  destruct (http_slice_pos _ _ _ _ E1) as (u & Eu & Ev). rewrite Z.sub_0_r, Eu. cbn [obind]. rewrite Ev.
  unfold at_pos, crlf. cbn [s_parseOffset set_field].
  assert (len (pre ++ body ++ CRLF) = len pre + (len body + 2)) as -> by (rewrite !len_app; change (len CRLF) with 2; lia).
  reflexivity.
Qed.

(** The chunks of a body, all but the last. *)
Lemma chunks_turns cs s m pre rest :
  vis (s_data s) = pre ++ concat (map encode_chunk cs) ++ rest -> Forall chunk_ok cs -> s_parseState s = BODY_CHUNKED_START ->
  - 2 ^ 63 <= m_ContentLength m < 2 ^ 63 -> len (vis (s_data s)) < 2 ^ 63 ->
  exists k s' m', Prelude.iter (parser_step http) k (at_pos s pre, m) = Some (at_pos s' (pre ++ concat (map encode_chunk cs)), m') /\
    s_data s' = s_data s /\ s_parseState s' = BODY_CHUNKED_START /\
    m' = m <| m_chunked_length := m_chunked_length m' |>
           <| m_chunked_body := m_chunked_body m ++ concat (map snd cs) |>
           <| m_ContentLength := int_of (m_ContentLength m + len (concat (map snd cs))) |>.
Proof.
  revert s m pre. induction cs as [|c cs IH]; intros s m pre E Hc Es Hr Hl.
  { exists 0%nat, s, m. cbn [map concat Prelude.iter]. split; [by rewrite app_nil_r|]. split; [done|]. split; [done|].
    rewrite app_nil_r, len_nil, Z.add_0_r, wrapS_small by (cbn in *; lia). by destruct m. }
  apply Forall_cons_1 in Hc as [H1 H2]. cbn [map concat] in E.
  set (s1 := s <| s_bodyReceived := 0 |> <| s_parseState := BODY_CHUNKED |>).
  set (m1 := m <| m_chunked_length := len (snd c) |>).
  set (m2 := m1 <| m_chunked_body := m_chunked_body m1 ++ snd c |>
               <| m_ContentLength := int_of (m_ContentLength m1 + len (snd c)) |>).
  destruct (IH (s1 <| s_parseState := BODY_CHUNKED_START |>) m2 (pre ++ encode_chunk c)) as (k & s' & m' & Hi & Hd & Hs & Hm).
  { cbn [s_data set_field s1]. rewrite E. by rewrite <- !app_assoc. }
  { done. } { done. } { unfold m2. cbn [m_ContentLength set_field]. pose proof (wrapS_bound 64 (m_ContentLength m1 + len (snd c)) ltac:(lia)). cbn in *. lia. }
  { exact Hl. }
  exists (S (S k)), s', m'. split; [|split; [exact Hd|split; [exact Hs|]]].
  - cbn [Prelude.iter].
    rewrite (chunk_start_turn s m pre c (concat (map encode_chunk cs) ++ rest)) by (done || by rewrite E, <- app_assoc).
    change (at_pos s (pre ++ crlf c.1) <| s_bodyReceived := 0 |> <| s_parseState := BODY_CHUNKED |>)
      with (at_pos s1 (pre ++ crlf (fst c))). fold m1.
    destruct H1 as (_ & _ & Hne).
    rewrite (chunk_body_turn s1 m1 (pre ++ crlf (fst c)) (snd c) (concat (map encode_chunk cs) ++ rest)); try done.
    + fold m2. rewrite <- (app_assoc pre). change (crlf (fst c) ++ crlf (snd c)) with (encode_chunk c).
      rewrite <- app_assoc in Hi. cbn [map concat]. exact Hi.
    + cbn [s_data set_field s1]. rewrite E. unfold encode_chunk. by rewrite <- !app_assoc.
  - rewrite Hm. unfold m2, m1. cbn [map concat m_chunked_body m_ContentLength m_chunked_length set_field].
    rewrite <- app_assoc, len_app. 
    assert (int_of (int_of (m_ContentLength m + len (snd c)) + len (concat (map snd cs))) =
      int_of (m_ContentLength m + (len (snd c) + len (concat (map snd cs))))) as ->; [|done].
    rewrite Z.add_assoc. generalize (m_ContentLength m + len (snd c)) as x, (len (concat (map snd cs))) as y. intros x y.
    unfold wrapS. change (2 ^ (64 - 1)) with 9223372036854775808. change (2 ^ 64) with 18446744073709551616.
    Z.to_euclidean_division_equations. lia.
Qed.

Lemma last_chunk_turn s m pre text rest :
  vis (s_data s) = pre ++ last_chunk text ++ rest -> Sscanf_hex text = Some 0 -> index_nat text CRLF = None ->
  s_parseState s = BODY_CHUNKED_START ->
  parser_step http (at_pos s pre, m) = finished (at_pos s (pre ++ last_chunk text)) (m <| m_chunked_length := 0 |>).
Proof.
  intros E Hx Hn Es.
  assert (vis (s_data s) = pre ++ text ++ CRLF ++ CRLF ++ rest) as E1
    by (rewrite E; unfold last_chunk, crlf; by rewrite <- !app_assoc).
  assert (vis (s_data s) = (pre ++ text ++ CRLF) ++ CRLF ++ rest) as E2 by (by rewrite E1, <- !app_assoc).
  assert (len (pre ++ text ++ CRLF) = len pre + (len text + 2)) as Hp by (rewrite !len_app; change (len CRLF) with 2; lia).
  assert (len (vis (s_data s)) = len pre + len text + 4 + len rest) as Hlen
    by (rewrite E1, !len_app; change (len CRLF) with 2; lia).
  pose proof (len_nonneg pre). pose proof (len_nonneg text). pose proof (len_nonneg rest).
  unfold parser_step. cbn [s_parseOffset at_pos set_field]. change (s_data (at_pos s pre)) with (s_data s).
  rewrite decide_True by lia. change (s_parseState (at_pos s pre)) with (s_parseState s). rewrite Es.
  unfold state_body_chunked_start. change (s_data (at_pos s pre)) with (s_data s). change (s_parseOffset (at_pos s pre)) with (len pre).
  destruct (from_pos _ _ _ E1) as (t & -> & Et). cbn [obind]. rewrite Et, Index_crlf by done. rewrite decide_False by lia.
  destruct (http_slice_pos _ _ _ _ E1) as (u & -> & Eu). cbn [obind]. rewrite Eu, Hx. rewrite decide_True by done.
  cbn [s_parseOffset s_data set_field]. rewrite <- Hp.
  change (s_data (at_pos s pre)) with (s_data s). destruct (from_pos _ _ _ E2) as (v & -> & Ev). cbn [obind]. rewrite Ev.
  rewrite decide_False by (rewrite len_app; change (len CRLF) with 2; lia).
  unfold final_crlf. cbn [s_parseOffset s_data set_field]. change (s_data (at_pos s pre)) with (s_data s).
  rewrite E2 at 1. change (CRLF ++ rest) with (x0d :: x0a :: rest). rewrite at_mid. cbn [obind].
  assert (at_ (vis (s_data s)) (len (pre ++ text ++ CRLF) + 1) = Ret x0a) as ->.
  { rewrite E2. assert ((pre ++ text ++ CRLF) ++ CRLF ++ rest = ((pre ++ text ++ CRLF) ++ [x0d]) ++ x0a :: rest) as ->
      by (rewrite <- (app_assoc _ [x0d]); done). assert (len (pre ++ text ++ CRLF) + 1 = len ((pre ++ text ++ CRLF) ++ [x0d])) as -> by (by rewrite (len_app (pre ++ text ++ CRLF) [x0d])).
    apply at_mid. }
  cbn [obind]. rewrite decide_True by done. unfold finished, at_pos. cbn [s_parseOffset set_field].
  assert (len (pre ++ last_chunk text) = len (pre ++ text ++ CRLF) + 2) as ->; [|done].
  unfold last_chunk, crlf. rewrite !len_app. change (len CRLF) with 2. lia.
Qed.

(** ** The first line *)

Lemma Fields_three d a b c :
  vis d = a ++ bs " " ++ b ++ bs " " ++ c -> graphic a -> graphic b -> graphic c ->
  exists x y z, Fields d = [x; y; z] /\ vis x = a /\ vis y = b /\ vis z = c.
Proof.
  intros E Ha Hb Hc. assert (map vis (Fields d) = [a; b; c]) as H.
  { apply (Fields_spaced d [(0%nat, a); (1%nat, b); (1%nat, c)] []); [|by rewrite !Forall_cons, Forall_nil|cbn [tl]; rewrite !Forall_cons, Forall_nil; cbn; lia|constructor].
    rewrite E. cbn. by rewrite !app_nil_r. }
  destruct (Fields d) as [|x [|y [|z [|]]]]; try done. injection H as <- <- <-. by exists x, y, z.
Qed.

Definition request_line_of (method uri version : bytes) : bytes := method ++ bs " " ++ uri ++ bs " " ++ bs "HTTP/" ++ version.
Definition response_line_of (version status : bytes) : bytes := bs "HTTP/" ++ version ++ bs " " ++ status.

(** The message after its first line. *)
Definition request_begun (ts : Z) (method uri version : bytes) (major minor : Z) : HttpMessage :=
  let line := request_line_of method uri version in
  newMessage ts <| m_start := 0 |> <| m_Method := method |> <| m_RequestUri := uri |> <| m_IsRequest := true |>
    <| m_FirstLine := line |> <| m_version_major := major |> <| m_version_minor := minor |>
    <| m_headerOffset := len (crlf line) |>.
Definition response_begun (ts : Z) (version : bytes) (code : Z) (status phrase : bytes) (major minor : Z) : HttpMessage :=
  newMessage ts <| m_start := 0 |> <| m_IsRequest := false |> <| m_StatusCode := code |> <| m_StatusPhrase := phrase |>
    <| m_version_major := major |> <| m_version_minor := minor |>
    <| m_headerOffset := len (crlf (response_line_of version status)) |>.

(** The digits of a version such as 1.1. *)
Definition version_of (version : bytes) (major minor : Z) : Prop :=
  len version = 3 /\ forallb (fun b => bool_decide (33 <= u8 b < 127)) version = true /\
  parseVersion version = Ret (Some (major, minor)).

Definition in_headers (s : HttpStream) : HttpStream := s <| s_parseState := HEADERS |>.

Lemma http_start_turn s m line rest :
  vis (s_data s) = crlf line ++ rest -> s_parseOffset s = 0 -> s_parseState s = START -> index_nat line CRLF = None ->
  exists fline p, vis fline = line /\ (5 <= len line -> sl_slice fline 0 5 = Ret p /\ vis p = take 5 line) /\
    parser_step http (s, m) =
    if decide (len line < 8) then fail s (m <| m_start := 0 |>)
    else
      let! p := sl_slice fline 0 5 in
      let! '(m, version) := (if decide (vis p = bs "HTTP/") then response_line (m <| m_start := 0 |>) fline
                             else request_line (m <| m_start := 0 |>) fline) in
      match version with
      | None => fail s m
      | Some version =>
          let! v := parseVersion version in
          let '(major, minor) := default (1, 0) v in
          Ret (inl (in_headers (at_pos s (crlf line)),
                    m <| m_version_major := major |> <| m_version_minor := minor |> <| m_headerOffset := len (crlf line) |>))
      end.
Proof.
  intros E Ho Es Hn. assert (vis (s_data s) = line ++ CRLF ++ rest) as E1 by (rewrite E; unfold crlf; by rewrite <- app_assoc).
  pose proof (len_nonneg line). pose proof (len_nonneg rest).
  assert (len (vis (s_data s)) = len line + 2 + len rest) as Hl by (rewrite E1, !len_app; change (len CRLF) with 2; lia).
  unfold parser_step. rewrite decide_True by lia. rewrite Es. unfold start_state. rewrite Ho. cbv zeta.
  destruct (from_pos (s_data s) [] _ E1) as (t & Et & Ev). change (len []) with 0 in Et. rewrite Et. cbn [obind].
  rewrite Ev, Index_crlf by done. rewrite decide_False by lia.
  destruct (http_slice_pos (s_data s) [] line (CRLF ++ rest) E1) as (fline & Ef & Evf).
  change (len []) with 0 in Ef. rewrite Z.add_0_l in Ef. rewrite Ef. cbn [obind]. rewrite Evf.
  assert (len (crlf line) = len line + 2) as Hc by (unfold crlf; by rewrite len_app).
  assert (exists p, 5 <= len line -> sl_slice fline 0 5 = Ret p /\ vis p = take 5 line) as [p Hp].
  { destruct (decide (5 <= len line)) as [H5|]; [|exists fline; lia].
    destruct (sl_slice_vis fline 0 5) as (p & Ep & Evp); [lia|by rewrite Evf|]. exists p. intros _. split; [done|].
    by rewrite Evp, Evf. }
  exists fline, p. split; [done|]. split; [done|]. unfold at_pos. by rewrite Hc.
Qed.

Lemma request_turn s ts method uri version major minor rest :
  vis (s_data s) = crlf (request_line_of method uri version) ++ rest -> s_parseOffset s = 0 -> s_parseState s = START ->
  graphic method -> graphic uri -> version_of version major minor ->
  index_nat (request_line_of method uri version) CRLF = None -> take 5 (request_line_of method uri version) <> bs "HTTP/" ->
  parser_step http (s, newMessage ts) =
    Ret (inl (in_headers (at_pos s (crlf (request_line_of method uri version))), request_begun ts method uri version major minor)).
Proof.
  intros E Ho Es Hm Hu (Hv & Hg & Hp) Hn Hne. set (line := request_line_of method uri version) in *.
  destruct (http_start_turn s (newMessage ts) line rest E Ho Es Hn) as (fline & p & Ef & H5 & ->).
  assert (8 <= len line) as H8.
  { unfold line, request_line_of. rewrite !len_app, Hv. change (len (bs "HTTP/")) with 5. pose proof (len_nonneg method).
    pose proof (len_nonneg uri). change (len (bs " ")) with 1. lia. }
  destruct (H5 ltac:(lia)) as [-> Ev]. rewrite decide_False by lia. cbn [obind]. rewrite Ev, decide_False by done.
  assert (graphic (bs "HTTP/" ++ version)) as Hw by (split; [done|]; by rewrite forallb_app, Hg).
  unfold request_line. destruct (Fields_three fline method uri (bs "HTTP/" ++ version) Ef Hm Hu Hw) as (x & y & z & -> & E1 & E2 & E3).
  destruct (http_slice_pos z [] (bs "HTTP/") version E3) as (q & Eq & Evq). change (len [] + len (bs "HTTP/")) with 5 in Eq.
  change (len []) with 0 in Eq. rewrite Eq. cbn [obind]. rewrite Evq, decide_True by done.
  destruct (from_pos z (bs "HTTP/") version E3) as (r & Er & Evr). change (len (bs "HTTP/")) with 5 in Er. rewrite Er.
  cbn [obind]. rewrite Evr, Hp. cbn [obind]. rewrite E1, E2, Ef. reflexivity.
Qed.

Lemma last_index_none s c i found : Forall (fun b => b <> c) s -> last_index s c i found = found.
Proof.
  intros H. revert i. induction H as [|b s Hb Hs IH]; intros i; [done|]. cbn [last_index].
  destruct (Byte.eqb b c) eqn:E; [apply beqb_eq in E; congruence|]. apply IH.
Qed.

Lemma LastIndex_last pre last c : Forall (fun b => b <> c) last -> LastIndex (pre ++ c :: last) c = len pre.
Proof.
  intros H. unfold LastIndex. assert (forall i found, last_index (pre ++ c :: last) c i found = i + len pre) as ->; [|lia].
  induction pre as [|b pre IH]; intros i found; cbn [app last_index].
  - rewrite beqb_refl, last_index_none by done. change (len []) with 0. lia.
  - rewrite IH, len_cons. lia.
Qed.

(** The text after the last space, for the phrase. *)
Lemma status_spec code middle last :
  Forall (fun b => b <> " "%byte) code -> Forall (fun b => b <> " "%byte) last -> middle = [] \/ (exists w, middle = w ++ bs " ") ->
  parseResponseStatus (code ++ bs " " ++ middle ++ last) = Ret (uint16_of (fst (Atoi code)), last, true).
Proof.
  intros Hc Hl Hm. unfold parseResponseStatus. pose proof (len_nonneg code).
  assert (Index (code ++ bs " " ++ middle ++ last) (bs " ") = len code) as ->.
  { unfold Index. assert (index_nat (code ++ bs " " ++ middle ++ last) (bs " ") = Some (length code)) as ->; [|done].
    change (bs " ") with [" "%byte]. cbn [app]. apply index_first. rewrite forallb_forall. intros b Hb.
    rewrite Forall_forall in Hc. apply list_elem_of_In, Hc in Hb. destruct (Byte.eqb b " ") eqn:E; [by apply beqb_eq in E|done]. }
  rewrite decide_False by lia. 
  assert (str_slice (code ++ bs " " ++ middle ++ last) 0 (len code) = Ret code) as -> by exact (str_slice_pos [] code _ _ eq_refl).
  cbn [obind]. cbv zeta.
  assert (exists pre, code ++ bs " " ++ middle ++ last = pre ++ " "%byte :: last) as [pre ->].
  { destruct Hm as [->|[w ->]]; [by exists code|]. exists (code ++ bs " " ++ w). by rewrite <- !app_assoc. }
  rewrite LastIndex_last by done. pose proof (len_nonneg pre). rewrite decide_False by lia.
  rewrite str_from_ok by (rewrite len_app, len_cons; pose proof (len_nonneg last); lia).
  assert (pre ++ " "%byte :: last = (pre ++ bs " ") ++ last) as -> by (by rewrite <- app_assoc).
  assert (len pre + 1 = len (pre ++ bs " ")) as -> by (by rewrite len_app). by rewrite drop_len_app.
Qed.

Lemma response_turn s ts version major minor code middle last rest :
  let status := code ++ bs " " ++ middle ++ last in
  let line := response_line_of version status in
  vis (s_data s) = crlf line ++ rest -> s_parseOffset s = 0 -> s_parseState s = START ->
  version_of version major minor -> index_nat line CRLF = None ->
  Forall (fun b => b <> " "%byte) code -> Forall (fun b => b <> " "%byte) last -> middle = [] \/ (exists w, middle = w ++ bs " ") ->
  parser_step http (s, newMessage ts) =
    Ret (inl (in_headers (at_pos s (crlf line)),
              response_begun ts version (uint16_of (fst (Atoi code))) status last major minor)).
Proof.
  intros status line E Ho Es (Hv & Hg & Hp) Hn Hc Hl Hm.
  destruct (http_start_turn s (newMessage ts) line rest E Ho Es Hn) as (fline & p & Ef & H5 & ->).
  assert (vis fline = (bs "HTTP/" ++ version ++ bs " ") ++ status) as E1
    by (rewrite Ef; unfold line, response_line_of; by rewrite <- !app_assoc).
  assert (len line = 9 + len status) as H9.
  { rewrite <- Ef, E1, !len_app, Hv. change (len (bs "HTTP/")) with 5. change (len (bs " ")) with 1. lia. }
  pose proof (len_nonneg status). destruct (H5 ltac:(lia)) as [-> Ev]. rewrite decide_False by lia. cbn [obind].
  assert (take 5 line = bs "HTTP/") as Et by done. rewrite Ev, decide_True by done.
  unfold response_line. destruct (http_slice_pos fline (bs "HTTP/") version (bs " " ++ status)) as (q & Eq & Evq); [exact Ef|].
  rewrite Hv in Eq. change (len (bs "HTTP/") + 3) with 8 in Eq. change (len (bs "HTTP/")) with 5 in Eq. rewrite Eq. cbn [obind].
  destruct (from_pos fline _ _ E1) as (r & Er & Evr).
  assert (len (bs "HTTP/" ++ version ++ bs " ") = 9) as E9 by (rewrite !len_app, Hv; done). rewrite E9 in Er. rewrite Er.
  cbn [obind]. rewrite Evr. unfold status at 1. rewrite status_spec by done. cbn [obind]. rewrite Evq, Hp. reflexivity.
Qed.

(** ** Whole messages *)

(** The turns of a run give the result of the parser. *)
Lemma parser_run s m k x s1 m1 r :
  s_message s = Some m -> s_parseState s <> FLINE -> Prelude.iter (parser_step http) k (s, m) = Some x ->
  parser_step http x = Ret (inr (s1, m1, r)) -> messageParser http s = Ret (s1 <| s_message := Some m1 |>, r).
Proof.
  intros Em Hs Hi Hx. pose proof (http_parser_ok http s m Em Hs) as Hok. unfold messageParser in *. rewrite Em in *.
  rewrite (loop_iter_Ret (parser_step http) _ k (s, m) x (s1, m1, r) Hi Hx); [done|].
  intros E. by rewrite E in Hok.
Qed.

(** What the headers leave as it is. *)
Definition same_line (m m' : HttpMessage) : Prop :=
  m_Ts m' = m_Ts m /\ m_start m' = m_start m /\ m_IsRequest m' = m_IsRequest m /\ m_Method m' = m_Method m /\
  m_RequestUri m' = m_RequestUri m /\ m_StatusCode m' = m_StatusCode m /\ m_StatusPhrase m' = m_StatusPhrase m /\
  m_chunked_body m' = m_chunked_body m /\ m_headerOffset m' = m_headerOffset m.

Lemma receive_header_line m h : same_line m (receive_header m h).
Proof.
  unfold receive_header. cbv zeta. set (name := ToLower _). set (value := Trim _ _). unfold store_header, note_header. cbv zeta.
  destruct (Send_headers http && _); repeat case_decide; by repeat split.
Qed.

Lemma receive_headers_line hs m : same_line m (foldl receive_header m hs).
Proof.
  revert m. induction hs as [|h hs IH]; intros m; [by repeat split|]. cbn [foldl].
  pose proof (IH (receive_header m h)) as H1. pose proof (receive_header_line m h) as H2.
  unfold same_line in *. intuition congruence.
Qed.

Lemma receive_headers_length hs m :
  - 2 ^ 63 <= m_ContentLength m < 2 ^ 63 -> - 2 ^ 63 <= m_ContentLength (foldl receive_header m hs) < 2 ^ 63.
Proof.
  revert m. induction hs as [|h hs IH]; intros m Hm; [exact Hm|]. cbn [foldl]. apply IH.
  unfold receive_header. cbv zeta. set (name := ToLower _). set (value := Trim _ _).
  assert (forall m' n v, m_ContentLength (store_header http m' n v) = m_ContentLength m') as ->
    by (intros; unfold store_header; by destruct (_ && _)).
  pose proof (ParseInt_bound value 10 64 ltac:(lia) ltac:(lia)) as Hb. unfold note_header, Atoi. cbv zeta.
  repeat case_decide; cbn [m_ContentLength set_field]; first [exact Hm|exact Hb].
Qed.

(** From the first line to the end of the headers. *)
Lemma head_turns s m m0 line hs rest :
  vis (s_data s) = encode_head line hs ++ rest ->
  parser_step http (s, m) = Ret (inl (in_headers (at_pos s (crlf line)), m0)) -> Forall header_ok hs ->
  let m1 := foldl receive_header m0 hs in
  exists x, Prelude.iter (parser_step http) (S (length hs)) (s, m) = Some x /\
    parser_step http x = end_of_headers (at_pos (in_headers s) (encode_head line hs))
      (m1 <| m_bodyOffset := len (encode_head line hs) |>).
Proof.
  intros E H1 Hh. cbv zeta. cbn [Prelude.iter]. rewrite H1.
  change (in_headers (at_pos s (crlf line))) with (at_pos (in_headers s) (crlf line)).
  assert (vis (s_data (in_headers s)) = crlf line ++ concat (map encode_header hs) ++ CRLF ++ rest) as E1
    by (change (s_data (in_headers s)) with (s_data s); rewrite E; unfold encode_head; by rewrite <- !app_assoc).
  rewrite (headers_turns (in_headers s) m0 _ hs _ E1 eq_refl Hh). eexists. split; [reflexivity|].
  rewrite (eoh_turn (in_headers s) _ (crlf line ++ concat (map encode_header hs)) rest); [|by rewrite E1, <- app_assoc|done].
  unfold encode_head. by rewrite <- app_assoc.
Qed.

(** The stream after a message. *)
Lemma next_stream s m whole rest :
  vis (s_data s) = whole ++ rest -> s_message s = Some m -> m_end m = len whole ->
  exists next, PrepareForNewMessage s = Ret next /\ vis (s_data next) = rest /\ s_parseState next = START /\
    s_parseOffset next = 0 /\ s_bodyReceived next = 0 /\ s_message next = None.
Proof.
  intros E Em He. unfold PrepareForNewMessage. rewrite Em, He. destruct (from_pos _ _ _ E) as (t & -> & Et). cbn [obind].
  eexists. split; [reflexivity|]. by split.
Qed.

(** The parts of a message by the offsets of the parser. *)
Definition body_of (m : HttpMessage) (data : bytes) : bytes := sub data (m_bodyOffset m) (m_end m).

Definition fresh_stream (s : HttpStream) (ts : Z) : Prop :=
  s_message s = Some (newMessage ts) /\ s_parseOffset s = 0 /\ s_parseState s = START /\ s_bodyReceived s = 0 /\
  len (vis (s_data s)) < 2 ^ 63.

(** C22: a request of any method, URI and headers, with a body of the length its headers give or
    with none, is read back: its first line, its headers and its body, and the
    stream is left right after it, whatever follows. *)
Theorem http_request_roundtrip s ts method uri version major minor headers body rest :
  let m0 := request_begun ts method uri version major minor in
  let m1 := foldl receive_header m0 headers in
  let line := request_line_of method uri version in
  fresh_stream s ts -> vis (s_data s) = encode_head line headers ++ body ++ rest ->
  graphic method -> graphic uri -> version_of version major minor -> index_nat line CRLF = None -> take 5 line <> bs "HTTP/" ->
  Forall header_ok headers -> m_TransferEncoding m1 <> bs "chunked" -> m_ContentLength m1 = len body ->
  (body <> [] -> m_hasContentLength m1 = true) ->
  exists s' m' next, messageParser http s = Ret (s', (true, true)) /\ s_message s' = Some m' /\
    m_IsRequest m' = true /\ m_Method m' = method /\ m_RequestUri m' = uri /\ m_Headers m' = m_Headers m1 /\
    body_of m' (vis (s_data s')) = body /\ m_start m' = 0 /\
    PrepareForNewMessage s' = Ret next /\ vis (s_data next) = rest /\ s_parseState next = START.
Proof.
  intros m0 m1 line (Em & Ho & Es & Hr & Hlen) E Hm Hu Hv Hn Hne Hh Hte Hcl Hhas.
  assert (vis (s_data s) = crlf line ++ (concat (map encode_header headers) ++ CRLF) ++ body ++ rest) as E0
    by (rewrite E; unfold encode_head; by rewrite <- !app_assoc).
  pose proof (request_turn s ts method uri version major minor _ E0 Ho Es Hm Hu Hv Hn Hne) as H1.
  destruct (head_turns s _ m0 line headers (body ++ rest) E H1 Hh) as (x & Hi & Hx). fold m1 in Hx.
  destruct (receive_headers_line headers m0) as (L1 & L2 & L3 & L4 & L5 & _). fold m1 in L1, L2, L3, L4, L5.
  set (head := encode_head line headers) in *. set (m2 := m1 <| m_bodyOffset := len head |>) in *.
  assert (s_parseState s <> FLINE) as Hfl by congruence.
  assert (exists k y s1, Prelude.iter (parser_step http) k (s, newMessage ts) = Some y /\
    parser_step http y = Ret (inr (s1, m2 <| m_end := len (head ++ body) |>, (true, true))) /\ s_data s1 = s_data s)
    as (k & y & s1 & Hk & Hy & Hd).
  { unfold end_of_headers in Hx. change (m_IsRequest m2) with (m_IsRequest m1) in Hx. rewrite L3 in Hx. cbn [negb andb] in Hx.
    change (m_IsRequest m0) with true in Hx. cbn [negb andb] in Hx.
    rewrite (decide_False (P := m_TransferEncoding m2 = bs "chunked")) in Hx by exact Hte.
    change (m_ContentLength m2) with (m_ContentLength m1) in Hx. rewrite Hcl in Hx.
    destruct body as [|b body'] eqn:Eb.
    - rewrite decide_True in Hx by (split; [done|by left]). exists (S (length headers)), x, (at_pos (in_headers s) head).
      split; [exact Hi|]. rewrite app_nil_r. by split.
    - rewrite <- Eb in *. assert (len body <> 0) by (rewrite Eb, len_cons; pose proof (len_nonneg body'); lia).
      rewrite decide_False in Hx by (intros [? _]; lia).
      exists (S (length headers) + 1)%nat, (at_pos (in_headers s <| s_parseState := BODY |>) head, m2),
        (at_pos (in_headers s <| s_parseState := BODY |>) (head ++ body)).
      split.
      + eapply iter_app; [exact Hi|]. cbn [Prelude.iter]. rewrite Hx. reflexivity.
      + split; [|done]. rewrite (body_turn (in_headers s <| s_parseState := BODY |>) m2 head body rest); try done.
        * by rewrite Eb. 
        * by apply Hhas; rewrite Eb. }
  pose proof (parser_run s _ k y s1 _ _ Em Hfl Hk Hy) as Hp.
  set (m3 := m2 <| m_end := len (head ++ body) |>) in *. set (s2 := s1 <| s_message := Some m3 |>) in *.
  assert (vis (s_data s2) = (head ++ body) ++ rest) as E2
    by (change (s_data s2) with (s_data s1); rewrite Hd, E; by rewrite <- app_assoc).
  destruct (next_stream s2 m3 (head ++ body) rest E2 eq_refl eq_refl) as (next & Hnx & Hn1 & Hn2 & _).
  exists s2, m3, next. split; [exact Hp|]. split; [done|]. split; [exact L3|]. split; [exact L4|]. split; [exact L5|]. split; [done|].
  split; [|by split_and!].
  unfold body_of. change (m_bodyOffset m3) with (len head). change (m_end m3) with (len (head ++ body)).
  rewrite E2, len_app, <- app_assoc. apply sub_mid.
Qed.

(** C23: a response in chunks is read back: the chunks put together are its body, their length
    its length, whatever the content-length header said, and the stream is left
    right after the last chunk.  Of a status phrase of several words the last one
    is kept. *)
Theorem http_chunked_roundtrip s ts version major minor code middle last headers chunks text rest :
  let status := code ++ bs " " ++ middle ++ last in
  let line := response_line_of version status in
  let m0 := response_begun ts version (uint16_of (fst (Atoi code))) status last major minor in
  let m1 := foldl receive_header m0 headers in
  let chunked := concat (map encode_chunk chunks) ++ last_chunk text in
  fresh_stream s ts -> vis (s_data s) = encode_head line headers ++ chunked ++ rest ->
  version_of version major minor -> index_nat line CRLF = None ->
  Forall (fun b => b <> " "%byte) code -> Forall (fun b => b <> " "%byte) last ->
  middle = [] \/ (exists w, middle = w ++ bs " ") ->
  Forall header_ok headers -> m_TransferEncoding m1 = bs "chunked" ->
  ~ (100 <= m_StatusCode m0 < 200 \/ m_StatusCode m0 = 204 \/ m_StatusCode m0 = 304) ->
  Forall chunk_ok chunks -> Sscanf_hex text = Some 0 -> index_nat text CRLF = None ->
  exists s' m' next, messageParser http s = Ret (s', (true, true)) /\ s_message s' = Some m' /\
    m_IsRequest m' = false /\ m_StatusCode m' = uint16_of (fst (Atoi code)) /\ m_StatusPhrase m' = last /\
    m_Headers m' = m_Headers m1 /\ m_chunked_body m' = concat (map snd chunks) /\
    m_ContentLength m' = int_of (m_ContentLength m1 + len (concat (map snd chunks))) /\
    body_of m' (vis (s_data s')) = chunked /\
    PrepareForNewMessage s' = Ret next /\ vis (s_data next) = rest /\ s_parseState next = START.
Proof.
  intros status line m0 m1 chunked (Em & Ho & Es & Hr & Hlen) E Hv Hn Hc Hl Hmid Hh Hte Hst Hcs Hx0 Hxn.
  assert (vis (s_data s) = crlf line ++ (concat (map encode_header headers) ++ CRLF) ++ chunked ++ rest) as E0
    by (rewrite E; unfold encode_head; by rewrite <- !app_assoc).
  pose proof (response_turn s ts version major minor code middle last _ E0 Ho Es Hv Hn Hc Hl Hmid) as H1.
  destruct (head_turns s _ m0 line headers (chunked ++ rest) E H1 Hh) as (x & Hi & Hx). fold m1 in Hx.
  destruct (receive_headers_line headers m0) as (_ & _ & L3 & _ & _ & L6 & L7 & L8 & _). fold m1 in L3, L6, L7, L8.
  pose proof (receive_headers_length headers m0 ltac:(cbn; lia)) as Hcl. fold m1 in Hcl.
  set (head := encode_head line headers) in *. set (m2 := m1 <| m_bodyOffset := len head |>) in *.
  assert (s_parseState s <> FLINE) as Hfl by congruence.
  set (s1 := in_headers s <| s_parseState := BODY_CHUNKED_START |>).
  unfold end_of_headers in Hx. change (m_IsRequest m2) with (m_IsRequest m1) in Hx. rewrite L3 in Hx.
  change (m_StatusCode m2) with (m_StatusCode m1) in Hx. rewrite L6, bool_decide_false in Hx by exact Hst.
  rewrite andb_false_r, (decide_True (P := m_TransferEncoding m2 = bs "chunked")) in Hx by exact Hte.
  change (at_pos (in_headers s) head <| s_parseState := BODY_CHUNKED_START |>) with (at_pos s1 head) in Hx.
  destruct (chunks_turns chunks s1 m2 head (last_chunk text ++ rest)) as (k & s2 & m3 & Hk & Hd & Hs2 & Hm3); try done.
  { change (s_data s1) with (s_data s). rewrite E. unfold chunked. by rewrite <- !app_assoc. }
  set (pre := head ++ concat (map encode_chunk chunks)) in *.
  assert (vis (s_data s2) = pre ++ last_chunk text ++ rest) as E2.
  { rewrite Hd. change (s_data s1) with (s_data s). rewrite E. unfold pre, chunked. by rewrite <- !app_assoc. }
  pose proof (last_chunk_turn s2 m3 pre text rest E2 Hx0 Hxn Hs2) as Hlast.
  assert (pre ++ last_chunk text = head ++ chunked) as Epre by (unfold pre, chunked; by rewrite <- app_assoc).
  rewrite Epre in Hlast. unfold finished in Hlast.
  assert (Prelude.iter (parser_step http) (S (length headers) + S k) (s, newMessage ts) = Some (at_pos s2 pre, m3)) as Hall
    by (eapply iter_app; [exact Hi|]; cbn [Prelude.iter]; rewrite Hx; exact Hk).
  pose proof (parser_run s _ _ _ _ _ _ Em Hfl Hall Hlast) as Hp.
  set (m4 := (m3 <| m_chunked_length := 0 |>) <| m_end := _ |>) in *.
  set (s3 := at_pos s2 (head ++ chunked) <| s_message := Some m4 |>) in *.
  assert (vis (s_data s3) = (head ++ chunked) ++ rest) as E3 by (change (s_data s3) with (s_data s2); by rewrite E2, <- Epre, <- app_assoc).
  destruct (next_stream s3 m4 (head ++ chunked) rest E3 eq_refl eq_refl) as (next & Hnx & Hn1 & Hn2 & _).
  exists s3, m4, next. split; [exact Hp|]. split; [done|].
  unfold m4. rewrite Hm3. cbn [m_IsRequest m_StatusCode m_StatusPhrase m_Headers m_chunked_body m_ContentLength set_field].
  unfold m2. cbn [m_IsRequest m_StatusCode m_StatusPhrase m_Headers m_chunked_body m_ContentLength set_field].
  rewrite L3, L6, L7, L8. split_and!; try done. unfold body_of. cbn [m_bodyOffset m_end set_field].
  rewrite E3, <- app_assoc. change (s_parseOffset (at_pos s2 (head ++ chunked))) with (len (head ++ chunked)).
  rewrite len_app. apply sub_mid.
Qed.
End Messages.

(** * Examples *)

#[local] Existing Instance Demo.unicode.

Definition demo_http : Http :=
  {| Ports := [80]; Send_request := false; Send_response := false; Send_headers := true; Send_all_headers := true;
     Headers_whitelist := ∅; Split_cookie := false; Real_ip_header := bs "x-forwarded-for"; Hide_keywords := [];
     Strip_authorization := false; transactionsMap := ∅; results := Some [] |}.
Definition demo_stream (data : bytes) : HttpStream :=
  {| s_tcptuple := Demo.tuple; s_data := mkSlice data []; s_parseOffset := 0; s_parseState := START; s_bodyReceived := 0;
     s_message := Some (newMessage 7) |}.
Definition next_request : bytes := bs "GET / HTTP/1.0".

Definition form_headers : list (bytes * bytes) :=
  [(bs "Content-Type", bs " text/urlencoded"); (bs "X-Forwarded-For", bs " 1.2.3.4"); (bs "Content-Length", bs "5")].
Definition form_body : bytes := bs "a=b&c".
Definition form_data : bytes :=
  encode_head (request_line_of (bs "POST") (bs "/f") (bs "1.1")) form_headers ++ form_body ++ next_request.

Lemma fresh_demo data : bool_decide (len data < 2 ^ 63) = true -> fresh_stream (demo_stream data) 7.
Proof. intros H. apply bool_decide_eq_true_1 in H. by repeat split. Qed.

Lemma headers_ok_by (hs : list (bytes * bytes)) :
  forallb (fun h => match fst h with b :: _ => negb (Byte.eqb b x0d) | [] => false end &&
    forallb (fun b => negb (Byte.eqb b ":")) (fst h) && bool_decide (index_nat (snd h) CRLF = None)) hs = true ->
  Forall header_ok hs.
Proof.
  intros H. rewrite forallb_forall in H. apply Forall_forall. intros h Hh. apply list_elem_of_In, H in Hh.
  apply andb_true_iff in Hh as [Hh H3]. apply andb_true_iff in Hh as [H1 H2]. apply bool_decide_eq_true_1 in H3.
  split; [|split; [|done]].
  - destruct (fst h) as [|b n]; [done|]. exists b, n. split; [done|]. intros ->. done.
  - apply Forall_forall. intros b Hb ->. rewrite forallb_forall in H2. apply list_elem_of_In, H2 in Hb. done.
Qed.

Lemma http_request_roundtrip_witness :
  exists s' m' next, messageParser demo_http (demo_stream form_data) = Ret (s', (true, true)) /\ s_message s' = Some m' /\
    m_Method m' = bs "POST" /\ body_of m' (vis (s_data s')) = form_body /\
    PrepareForNewMessage s' = Ret next /\ vis (s_data next) = next_request.
Proof.
  destruct (http_request_roundtrip demo_http (demo_stream form_data) 7 (bs "POST") (bs "/f") (bs "1.1") 1 1 form_headers
    form_body next_request (fresh_demo form_data eq_refl) eq_refl ltac:(by vm_compute) ltac:(by vm_compute)
    ltac:(by vm_compute) ltac:(by vm_compute) ltac:(by vm_compute) (headers_ok_by form_headers eq_refl)
    ltac:(by vm_compute) ltac:(by vm_compute) ltac:(by vm_compute))
    as (s' & m' & next & H1 & H2 & _ & H3 & _ & _ & H4 & _ & H5 & H6 & _).
  exists s', m', next. exact (conj H1 (conj H2 (conj H3 (conj H4 (conj H5 H6))))).
Defined.

Definition chunk_headers : list (bytes * bytes) := [(bs "Transfer-Encoding", bs " chunked")].
Definition demo_chunks : list (bytes * bytes) := [(bs "3;x=y", bs "abc"); (bs "0A", bs "0123456789")].
Definition chunk_data : bytes :=
  encode_head (response_line_of (bs "1.1") (bs "404" ++ bs " " ++ bs "Not " ++ bs "Found")) chunk_headers ++
  (concat (map encode_chunk demo_chunks) ++ last_chunk (bs "0")) ++ next_request.

Lemma demo_chunks_ok : Forall chunk_ok demo_chunks.
Proof. repeat (apply Forall_cons; split; [by vm_compute|]). apply Forall_nil. done. Qed.
Lemma no_space w : forallb (fun b => negb (Byte.eqb b " ")) w = true -> Forall (fun b => b <> " "%byte) w.
Proof. intros H. apply Forall_forall. intros b Hb ->. rewrite forallb_forall in H. apply list_elem_of_In, H in Hb. done. Qed.
Lemma not_bodyless : ~ (100 <= 404 < 200 \/ 404 = 204 \/ 404 = 304).
Proof. lia. Qed.

Lemma http_chunked_roundtrip_witness :
  exists s' m' next, messageParser demo_http (demo_stream chunk_data) = Ret (s', (true, true)) /\ s_message s' = Some m' /\
    m_StatusPhrase m' = bs "Found" /\ m_chunked_body m' = bs "abc0123456789" /\
    PrepareForNewMessage s' = Ret next /\ vis (s_data next) = next_request.
Proof.
  destruct (http_chunked_roundtrip demo_http (demo_stream chunk_data) 7 (bs "1.1") 1 1 (bs "404") (bs "Not ") (bs "Found")
    chunk_headers demo_chunks (bs "0") next_request (fresh_demo chunk_data eq_refl) eq_refl ltac:(by vm_compute)
    ltac:(by vm_compute) (no_space (bs "404") eq_refl) (no_space (bs "Found") eq_refl)
    (or_intror (ex_intro _ (bs "Not") eq_refl)) (headers_ok_by chunk_headers eq_refl) ltac:(by vm_compute) not_bodyless
    demo_chunks_ok ltac:(by vm_compute) ltac:(by vm_compute))
    as (s' & m' & next & H1 & H2 & _ & _ & H3 & _ & H4 & _ & _ & H5 & H6 & _).
  exists s', m', next. exact (conj H1 (conj H2 (conj H3 (conj H4 (conj H5 H6))))).
Defined.
