(* ===== verification/HttpTransactions.v ===== *)
(** HTTP transactions: the invariant of the transactions map under any interleaving of
    messages and timers, the event of a request and its response, and the
    transaction that a malformed length leaves behind. *)
From S2P Require Import Http.
From stdpp Require Import list.
#[local] Open Scope Z_scope.

Section Transactions.
Context {UC : Unicode} {RT : Runtime} (config : ConfigHttp) {W : Type} {PW : ProcWatcher W}.

(** Every pending transaction is filed under its own tuple. *)
Definition filed (http : Http) : Prop := map_Forall (fun k t => TcpHashable (t_tuple t) = k) (transactionsMap http).

(** It has its request and a running timer. *)
Definition all_timed (http : Http) : Prop := map_Forall (fun _ t => t_timer t = true /\ is_Some (t_Http t)) (transactionsMap http).

Definition sent (http : Http) : list MapStr := default [] (results http).
Definition weight (http : Http) : nat := (length (sent http) + size (transactionsMap http))%nat.

(** A request stores one transaction under its tuple, complete if the handler returns. *)
Lemma http_request_cases http m tuple c :
  exists r t, receivedHttpRequest config http m tuple c = (r, put http tuple t) /\
    t_tuple t = t_tuple (begin_transaction http m tuple c) /\
    (forall raw, r = Ret raw -> t_timer t = true /\ is_Some (t_Http t)).
Proof.
  unfold receivedHttpRequest. cbv zeta. set (t0 := begin_transaction http m tuple c).
  set (cut := if Send_request http then _ else _). destruct cut as [[cut0 raw]| |]; [|by eexists _, _..].
  set (t1 := (match cut0 with Some _ => _ | None => _ end) <| t_Method := _ |> <| t_RequestUri := _ |> <| t_Http := _ |>).
  assert (t_tuple t1 = t_tuple t0) as E1 by (subst t1; by destruct cut0). clearbody t1.
  set (headers := if Send_headers http then _ else _). destruct headers as [h| |]; [|by eexists _, _..].
  destruct (extractParameters http m raw) as [[[path params] err]| |]; [|by eexists _, _..].
  eexists _, _. split; [reflexivity|]. split; [done|]. intros ? _. split; [done|by eexists].
Qed.

Lemma begin_tuple http m tuple c : filed http -> TcpHashable (t_tuple (begin_transaction http m tuple c)) = TcpHashable tuple.
Proof.
  intros Hok. unfold begin_transaction. destruct (endpoints _ _ _). cbn [t_tuple set_field].
  destruct (transactionsMap http !! TcpHashable tuple) as [t|] eqn:E; [by apply Hok in E|done].
Qed.

Lemma http_request_ok http m tuple c :
  filed http ->
  let '(r, http') := receivedHttpRequest config http m tuple c in
  filed http' /\ (weight http' <= S (weight http))%nat /\
  (all_timed http -> (exists raw, r = Ret raw) -> all_timed http').
Proof.
  intros Hok. destruct (http_request_cases http m tuple c) as (r & t & -> & Ht & Hr). split; [|split].
  - apply map_Forall_insert_2; [|done]. rewrite Ht. by apply begin_tuple.
  - unfold weight. change (sent (put http tuple t)) with (sent http).
    change (transactionsMap (put http tuple t)) with (<[TcpHashable tuple := t]> (transactionsMap http)).
    rewrite map_size_insert. destruct (_ !! _); cbn; lia.
  - intros Hall [raw Hraw]. apply map_Forall_insert_2; [by apply (Hr raw)|done].
Qed.

Lemma http_publish_cases http t :
  let '(r, http') := PublishTransaction http t in
  transactionsMap http' = transactionsMap http /\ (length (sent http') <= S (length (sent http)))%nat /\
  (r = Panic -> http' = http).
Proof.
  unfold PublishTransaction, sent. destruct (results http) as [l|] eqn:E; [|by rewrite E; split; [|split; [lia|]]].
  destruct (default ∅ (t_Http t) !! bs "code") as [[]|]; try (rewrite E; split; [done|split; [lia|done]]).
  split; [done|]. split; [|done]. cbn. rewrite length_app. cbn. lia.
Qed.

(** A response changes nothing, updates its transaction (and panics), or publishes it and
    removes it. *)
Lemma http_response_ok http m tuple :
  filed http ->
  let '(r, http') := receivedHttpResponse config http m tuple in
  filed http' /\ (weight http' <= weight http)%nat /\ (all_timed http -> all_timed http').
Proof.
  intros Hok. unfold receivedHttpResponse. destruct (transactionsMap http !! TcpHashable tuple) as [t|] eqn:Et; [|done].
  destruct (t_Http t) as [f|] eqn:Ef; [|done]. destruct (response_fields http m) as [resp| |]; [|done..]. cbv zeta.
  set (t1 := t <| t_Http := _ |> <| t_ResponseTime := _ |>).
  assert (forall t2, t_tuple t2 = t_tuple t -> t_timer t2 = t_timer t -> is_Some (t_Http t2) ->
    filed (put http tuple t2) /\ (weight (put http tuple t2) <= weight http)%nat /\
    (all_timed http -> all_timed (put http tuple t2))) as Hput.
  { intros t2 H1 H2 H3. split; [|split].
    - apply map_Forall_insert_2; [|done]. rewrite H1. by apply Hok.
    - unfold weight. change (sent (put http tuple t2)) with (sent http).
      change (transactionsMap (put http tuple t2)) with (<[TcpHashable tuple := t2]> (transactionsMap http)).
      by rewrite map_size_insert, Et.
    - intros Hall. apply map_Forall_insert_2; [|done]. split; [|done]. rewrite H2. by apply (Hall _ _ Et). }
  assert (filed (put http tuple t1) /\ (weight (put http tuple t1) <= weight http)%nat /\
    (all_timed http -> all_timed (put http tuple t1))) as Hput1 by (apply Hput; [done|done|by eexists]).
  set (cut := if Send_response http then _ else _). destruct cut as [[cut0 raw]| |]; [|exact Hput1..].
  set (t2 := match cut0 with Some _ => _ | None => _ end).
  assert (t_tuple t2 = t_tuple t /\ t_timer t2 = t_timer t /\ is_Some (t_Http t2)) as (H1 & H2 & H3)
    by (subst t2; destruct cut0; (split; [done|split; [done|by eexists]])).
  destruct (Hput t2 H1 H2 H3) as (P1 & P2 & P3).
  assert (TcpHashable (t_tuple t2) = TcpHashable tuple) as Hk by (rewrite H1; by apply Hok).
  pose proof (http_publish_cases (put http tuple t2) t2) as Hpub. pose proof (publish_fuel (put http tuple t2) t2) as Hf.
  destruct (PublishTransaction (put http tuple t2) t2) as [[u| |] http'].
  - destruct Hpub as (E1 & E2 & _). rewrite Hk, E1.
    change (transactionsMap (put http tuple t2)) with (<[TcpHashable tuple := t2]> (transactionsMap http)).
    rewrite delete_insert_eq. split; [by apply map_Forall_delete|]. split; [|intros Hall; by apply map_Forall_delete].
    unfold weight. cbn [transactionsMap set_field]. change (sent (http' <| transactionsMap := ?x |>)) with (sent http').
    change (sent (put http tuple t2)) with (sent http) in E2. rewrite map_size_delete, Et. cbn.
    assert (size (transactionsMap http) <> 0%nat); [|lia]. intros E0. apply map_size_empty_inv in E0. by rewrite E0 in Et.
  - destruct Hpub as (_ & _ & E). rewrite (E eq_refl). by split.
  - by destruct Hf.
Qed.

(** What happens to the plugin: a message is handled (and its handler may panic), or the
    timer of the transaction filed under a key runs. *)
Inductive action :=
| AMessage (m : HttpMessage) (tuple : TcpTuple) (dir : Z) (raw : slice)
| ATimer (key : bytes).

Definition exec (st : Http * W) (a : action) : Http * W :=
  match a with
  | AMessage m tuple dir raw => snd (handleHttp config st m tuple dir raw)
  | ATimer key =>
      match transactionsMap (fst st) !! key with
      | Some t => if t_timer t then (expireTransaction (fst st) t, snd st) else st
      | None => st
      end
  end.

Definition returns (st : Http * W) (a : action) : Prop :=
  match a with AMessage m tuple dir raw => exists r, fst (handleHttp config st m tuple dir raw) = Ret r | ATimer _ => True end.
Fixpoint calm (st : Http * W) (acts : list action) : Prop :=
  match acts with [] => True | a :: acts => returns st a /\ calm (exec st a) acts end.

Definition is_request (a : action) : bool := match a with AMessage m _ _ _ => m_IsRequest m | ATimer _ => false end.
Definition requests (acts : list action) : nat := length (List.filter is_request acts).

Lemma http_exec_ok st a :
  filed (fst st) ->
  filed (fst (exec st a)) /\ (weight (fst (exec st a)) <= weight (fst st) + if is_request a then 1 else 0)%nat /\
  (all_timed (fst st) -> returns st a -> all_timed (fst (exec st a))).
Proof.
  destruct st as [http w]. intros Hok. destruct a as [m tuple dir raw|key]; cbn [exec is_request returns fst snd].
  - unfold handleHttp. destruct (FindProcessesTuple _ w) as [c w']. cbv zeta.
    set (m' := m <| m_TcpTuple := _ |> <| m_Direction := _ |> <| m_CmdlineTuple := _ |> <| m_Raw := _ |>).
    change (m_IsRequest m') with (m_IsRequest m). destruct (m_IsRequest m).
    + pose proof (http_request_ok http m' tuple c Hok) as H. destruct (receivedHttpRequest _ _ _ _ _) as [r http'].
      cbn [fst snd]. destruct H as (H1 & H2 & H3). split; [done|]. split; [lia|done].
    + pose proof (http_response_ok http m' tuple Hok) as H. destruct (receivedHttpResponse _ _ _ _) as [r http'].
      cbn [fst snd]. destruct H as (H1 & H2 & H3). split; [done|]. split; [lia|by auto].
  - destruct (transactionsMap http !! key) as [t|]; [|split; [done|split; [cbn [fst]; lia|done]]].
    destruct (t_timer t); [|split; [done|split; [cbn [fst]; lia|done]]]. cbn [fst]. unfold expireTransaction. split; [|split].
    + by apply map_Forall_delete.
    + unfold weight, sent. cbn [results transactionsMap set_field]. rewrite map_size_delete. destruct (_ !! _); cbn; lia.
    + intros Hall _. by apply map_Forall_delete.
Qed.

(** C25: over any interleaving of messages and timers, panics of the handlers included, each
    pending transaction stays under its own tuple and the events published never
    outnumber the requests; as long as no handler panics, every pending transaction
    has its request and a running timer, which removes exactly it. *)
Theorem http_transactions_invariant acts st :
  filed (fst st) ->
  let st' := foldl exec st acts in
  filed (fst st') /\
  (length (sent (fst st')) + size (transactionsMap (fst st')) <=
   length (sent (fst st)) + size (transactionsMap (fst st)) + requests acts)%nat /\
  (all_timed (fst st) -> calm st acts ->
   forall k t, transactionsMap (fst st') !! k = Some t ->
     is_Some (t_Http t) /\ transactionsMap (fst (exec st' (ATimer k))) = delete k (transactionsMap (fst st'))).
Proof.
  intros Hok. cbv zeta.
  assert (filed (fst (foldl exec st acts)) /\ (weight (fst (foldl exec st acts)) <= weight (fst st) + requests acts)%nat /\
    (all_timed (fst st) -> calm st acts -> all_timed (fst (foldl exec st acts)))) as (Hf & Hw & Ht).
  { revert st Hok. induction acts as [|a acts IH]; intros st Hok; cbn [foldl calm]; [split; [done|split; [cbn; lia|done]]|].
    destruct (http_exec_ok st a Hok) as (H1 & H2 & H3). destruct (IH _ H1) as (H4 & H5 & H6). split; [done|]. split.
    - unfold requests in *. cbn [List.filter]. destruct (is_request a); cbn [length]; lia.
    - intros Hall [Hr Hc]. by auto. }
  split; [done|]. split; [exact Hw|]. intros Hall Hc k t Hk. specialize (Ht Hall Hc). destruct (Ht _ _ Hk) as [Htm Hh].
  split; [done|]. destruct (foldl exec st acts) as [h w]. cbn [exec fst] in *. rewrite Hk, Htm.
  unfold expireTransaction. cbn [fst transactionsMap set_field]. by rewrite (Hf _ _ Hk).
Qed.

(** * A request and its response *)

(** A message whose body lies within its bytes. *)
Definition message_ok (m : HttpMessage) : Prop := 0 <= m_bodyOffset m <= len (vis (m_Raw m)).

Definition body_wanted (m : HttpMessage) : bool :=
  bool_decide (m_ContentType m = []) || shouldIncludeInBody config (m_ContentType m).

(** The raw message as it is published: the headers, and the body if it is wanted, decoded if
    it came in chunks. *)
Definition cut_text (m : HttpMessage) : bytes :=
  let raw := vis (m_Raw m) in
  take (Z.to_nat (m_bodyOffset m)) raw ++
  if body_wanted m then if decide (len (m_chunked_body m) > 0) then m_chunked_body m else drop (Z.to_nat (m_bodyOffset m)) raw
  else [].

Lemma cut_spec m :
  message_ok m -> exists raw, cutMessageBody config m = Ret (cut_text m, raw) /\ (m_chunked_body m = [] -> raw = m_Raw m).
Proof.
  unfold message_ok. intros Hm. unfold cutMessageBody, cut_text, body_wanted. cbv zeta.
  destruct (sl_slice_vis (m_Raw m) 0 (m_bodyOffset m)) as (h & -> & Eh); [lia..|]. cbn [obind].
  assert (vis h = take (Z.to_nat (m_bodyOffset m)) (vis (m_Raw m))) as Ev by (rewrite Eh; unfold sub; by rewrite Z.sub_0_r).
  destruct (_ || _); [|eexists; split; [by rewrite Ev, app_nil_r|done]].
  case_decide as Hc.
  - eexists. split; [by rewrite append_vis, Ev|]. intros E. rewrite E, (@len_nil byte) in Hc. lia.
  - unfold sl_from. rewrite decide_True by lia. cbn [obind vis]. eexists. split; [by rewrite Ev|done].
Qed.

Lemma cookies_total l cookies : exists r, add_cookies cookies l = Ret r.
Proof.
  revert cookies. induction l as [|c l IH]; intros cookies; [by eexists|]. cbn [add_cookies].
  destruct (SplitN2 c "=") as [|n [|v [|? ?]]]; [apply IH|apply IH| |apply IH]. unfold parseCookieValue.
  set (raw := TrimSpace v). case_decide; [|by cbn [obind]].
  destruct (at_ok raw 0) as (a & -> & _); [lia|]. destruct (at_ok raw (len raw - 1)) as (b & -> & _); [lia|]. cbn [obind].
  case_decide; [|by cbn [obind]]. unfold str_slice. rewrite decide_True by lia. by cbn [obind].
Qed.

Lemma event_headers_total http cookie hdrs : exists v, event_headers http cookie hdrs = Ret v.
Proof.
  unfold event_headers. destruct (Split_cookie http); [|by eexists]. destruct (hdrs !! cookie) as [val|]; [|by eexists].
  unfold splitCookiesHeader. destruct (cookies_total (Split val ";") ∅) as [r ->]. by eexists.
Qed.

Lemma extractParameters_total http m msg :
  0 <= m_bodyOffset m <= len (vis msg) -> exists r, extractParameters http m msg = Ret r.
Proof.
  intros Hm. unfold extractParameters. destruct (UrlParse _) as [[path q]|]; [|by eexists]. cbv zeta.
  case_decide; [|by eexists]. unfold sl_from. rewrite decide_True by lia. cbn [obind].
  destruct (ParseQuery _) as [v []]; by eexists.
Qed.

(** A request without chunks is stored complete. *)
Lemma http_request_stored http m tuple c :
  message_ok m -> m_chunked_body m = [] ->
  let '(src, dst) := endpoints tuple c (m_Direction m) in
  exists t path params err fields, receivedHttpRequest config http m tuple c = (Ret (m_Raw m), put http tuple t) /\
    extractParameters http m (m_Raw m) = Ret (path, params, err) /\
    t_Http t = Some fields /\ t_timer t = true /\ t_ts t = m_Ts m /\ t_Method t = m_Method m /\ t_Path t = path /\
    t_Params t = params /\ t_Src t = src /\ t_Dst t = dst /\ (Send_request http = true -> t_Request_raw t = cut_text m) /\
    t_tuple t = t_tuple (begin_transaction http m tuple c).
Proof.
  intros Hm Hnc. unfold receivedHttpRequest, begin_transaction. destruct (endpoints tuple c (m_Direction m)) as [src dst]. cbv zeta.
  destruct (cut_spec m Hm) as (raw & Ecut & Eraw). specialize (Eraw Hnc). subst raw.
  destruct (event_headers_total http (bs "cookie") (default ∅ (m_Headers m))) as [v Ev].
  destruct (extractParameters_total http m (m_Raw m) Hm) as [[[path params] err] Ep].
  destruct (Send_request http) eqn:Es; [rewrite Ecut|]; cbn [obind];
    (destruct (Send_headers http); [rewrite Ev|]; cbn [obind]; rewrite Ep;
     eexists _, path, params, err, _; (split; [reflexivity|]); (split; [reflexivity|]);
     cbn [t_Http t_timer t_ts t_Method t_Path t_Params t_Src t_Dst t_Request_raw t_tuple set_field];
     split_and!; first [reflexivity|intros _; reflexivity|discriminate]).
Qed.

Lemma response_fields_total http m :
  exists r, response_fields http m = Ret r /\ r !! bs "code" = Some (MInt (m_StatusCode m)) /\
    r !! bs "phrase" = Some (MStr (m_StatusPhrase m)) /\ r !! bs "content_length" = Some (MInt (m_ContentLength m)).
Proof.
  unfold response_fields. cbv zeta. destruct (event_headers_total http (bs "set-cookie") (default ∅ (m_Headers m))) as [v Ev].
  destruct (Send_headers http); [rewrite Ev|]; cbn [obind]; (eexists; split; [reflexivity|]);
    (split; [by map_lookups|]); split; by map_lookups.
Qed.

(** The event of a transaction with its response. *)
Lemma event_spec http t fields response code l :
  t_Http t = Some (Update fields response) -> response !! bs "code" = Some (MInt code) -> results http = Some l ->
  exists event, PublishTransaction http t = (Ret tt, http <| results := Some (l ++ [event]) |>) /\
    event !! bs "status" = Some (MStr (if decide (code < 400) then OK_STATUS else ERROR_STATUS)) /\
    event !! bs "responsetime" = Some (MInt (t_ResponseTime t)) /\
    event !! bs "query" = Some (MStr (t_Method t ++ bs " " ++ t_Path t)) /\
    event !! bs "params" = Some (MStr (t_Params t)) /\
    event !! bs "http" = Some (MMap (Update fields response)) /\
    event !! bs "src" = Some (MEndpoint (t_Src t)) /\ event !! bs "dst" = Some (MEndpoint (t_Dst t)) /\
    event !! bs "request" = (if Send_request http then Some (MStr (t_Request_raw t)) else None) /\
    event !! bs "response" = (if Send_response http then Some (MStr (t_Response_raw t)) else None).
Proof.
  intros Eh Ec Er. unfold PublishTransaction. rewrite Er, Eh. change (default ∅ (Some ?x)) with x.
  assert (Update fields response !! bs "code" = Some (MInt code)) as ->
    by (unfold Update; by rewrite (lookup_union_Some_l response fields _ _ Ec)).
  eexists. split; [reflexivity|].
  destruct (Send_request http), (Send_response http), (decide (len (t_Real_ip t) > 0));
    (do 8 (split; [by map_lookups|])); by map_lookups.
Qed.

(** C26: a request and the response that follows on its connection become one event, with the
    path and the hidden parameters of the request, the status, phrase and length of
    the response, the time between them and the raw messages that are asked for;
    nothing stays pending. *)
Theorem http_exchange_published http l req resp tuple c :
  filed http -> results http = Some l -> message_ok req -> m_chunked_body req = [] -> message_ok resp ->
  let '(r, http1) := receivedHttpRequest config http req tuple c in
  let '(r', http2) := receivedHttpResponse config http1 resp tuple in
  let '(src, dst) := endpoints tuple c (m_Direction req) in
  exists path params err raw event fields,
    r = Ret (m_Raw req) /\ r' = Ret raw /\ extractParameters http req (m_Raw req) = Ret (path, params, err) /\
    results http2 = Some (l ++ [event]) /\ transactionsMap http2 = delete (TcpHashable tuple) (transactionsMap http) /\
    event !! bs "status" = Some (MStr (if decide (m_StatusCode resp < 400) then OK_STATUS else ERROR_STATUS)) /\
    event !! bs "responsetime" = Some (MInt (millis32 (time_Sub (m_Ts resp) (m_Ts req)))) /\
    event !! bs "query" = Some (MStr (m_Method req ++ bs " " ++ path)) /\ event !! bs "params" = Some (MStr params) /\
    event !! bs "src" = Some (MEndpoint src) /\ event !! bs "dst" = Some (MEndpoint dst) /\
    event !! bs "request" = (if Send_request http then Some (MStr (cut_text req)) else None) /\
    event !! bs "response" = (if Send_response http then Some (MStr (cut_text resp)) else None) /\
    event !! bs "http" = Some (MMap fields) /\ fields !! bs "code" = Some (MInt (m_StatusCode resp)) /\
    fields !! bs "phrase" = Some (MStr (m_StatusPhrase resp)) /\
    fields !! bs "content_length" = Some (MInt (m_ContentLength resp)).
Proof.
  intros Hf Hl Hreq Hnc Hresp. pose proof (http_request_stored http req tuple c Hreq Hnc) as H.
  destruct (endpoints tuple c (m_Direction req)) as [src dst].
  destruct H as (t & path & params & err & fields & -> & Ep & T1 & _ & T3 & T4 & T5 & T6 & T7 & T8 & T9 & T10).
  assert (TcpHashable (t_tuple t) = TcpHashable tuple) as Hk by (rewrite T10; by apply begin_tuple).
  unfold receivedHttpResponse. change (transactionsMap (put http tuple t)) with (<[TcpHashable tuple := t]> (transactionsMap http)).
  rewrite lookup_insert_eq, T1. destruct (response_fields_total (put http tuple t) resp) as (rf & -> & R1 & R2 & R3). cbv zeta.
  set (t1 := t <| t_Http := _ |> <| t_ResponseTime := _ |>). change (Send_response (put http tuple t)) with (Send_response http).
  set (cut := if Send_response http then _ else _).
  assert (exists o raw, cut = Ret (o, raw) /\ o = if Send_response http then Some (cut_text resp) else None) as (o & raw & -> & Eo).
  { subst cut. destruct (Send_response http); [|by eexists _, _]. destruct (cut_spec resp Hresp) as (raw & -> & _). by eexists _, _. }
  set (t2 := match o with Some _ => _ | None => _ end).
  assert (t_Http t2 = Some (Update fields rf)) as E2 by (subst t2; by destruct o).
  assert (t_ResponseTime t2 = millis32 (time_Sub (m_Ts resp) (m_Ts req)) /\ t_Method t2 = m_Method req /\ t_Path t2 = path /\
    t_Params t2 = params /\ t_Src t2 = src /\ t_Dst t2 = dst /\ t_Request_raw t2 = t_Request_raw t /\ t_tuple t2 = t_tuple t)
    as (F1 & F2 & F3 & F4 & F5 & F6 & F7 & F8)
    by (subst t2 t1; destruct o; cbn [t_ResponseTime t_Method t_Path t_Params t_Src t_Dst t_Request_raw t_tuple set_field];
        rewrite T3; split_and!; first [assumption|reflexivity]).
  set (http' := put (put http tuple t) tuple t2).
  destruct (event_spec http' t2 fields rf (m_StatusCode resp) l E2 R1 Hl) as (event & -> & V1 & V2 & V3 & V4 & V5 & V6 & V7 & V8 & V9).
  change (Send_request http') with (Send_request http) in V8. change (Send_response http') with (Send_response http) in V9.
  rewrite F1 in V2. rewrite F2, F3 in V3. rewrite F4 in V4. rewrite F5 in V6. rewrite F6 in V7. rewrite F7 in V8.
  exists path, params, err, raw, event, (Update fields rf).
  assert (forall k v, rf !! k = Some v -> Update fields rf !! k = Some v) as Hu
    by (intros k v Hkv; unfold Update; exact (lookup_union_Some_l rf fields _ _ Hkv)).
  split_and!; try done; try (by apply Hu).
  - cbn [transactionsMap set_field]. rewrite F8, Hk.
    change (transactionsMap http') with (<[TcpHashable tuple := t2]> (<[TcpHashable tuple := t]> (transactionsMap http))).
    by rewrite insert_insert_eq, delete_insert_eq.
  - rewrite V8. destruct (Send_request http) eqn:Es; [by rewrite T9|done].
  - rewrite V9. destruct (Send_response http); subst o t2; done.
Qed.

(** * A negative length *)

(** A request whose content-length is negative ends before its body begins; when its raw
    bytes are to be published with their body, slicing them panics after the
    transaction was stored: it has no request and no timer, so that every response
    is ignored and it stays until a later request on the same connection. *)
Theorem http_negative_length_leak http m tuple c :
  transactionsMap http !! TcpHashable tuple = None -> Send_request http = true ->
  0 <= m_bodyOffset m <= cap (m_Raw m) -> len (vis (m_Raw m)) < m_bodyOffset m ->
  body_wanted m = true -> m_chunked_body m = [] ->
  exists t, receivedHttpRequest config http m tuple c = (Panic, put http tuple t) /\ t_timer t = false /\ t_Http t = None /\
    forall resp, receivedHttpResponse config (put http tuple t) resp tuple = (Ret (m_Raw resp), put http tuple t).
Proof.
  intros Hn Hs Hc Hb Hw Hch. unfold receivedHttpRequest. rewrite Hs.
  assert (cutMessageBody config m = Panic) as ->.
  { unfold cutMessageBody, sl_slice. cbv zeta. rewrite decide_True by lia. cbn [obind].
    unfold body_wanted in Hw. rewrite Hw, Hch. rewrite decide_False by (rewrite (@len_nil byte); lia).
    unfold sl_from. by rewrite decide_False by lia. }
  cbn [obind]. eexists. split; [reflexivity|]. unfold begin_transaction. rewrite Hn.
  destruct (endpoints tuple c (m_Direction m)) as [src dst]. split; [done|]. split; [done|].
  intros resp. unfold receivedHttpResponse, put at 1. cbn [transactionsMap set_field]. by rewrite lookup_insert_eq.
Qed.
End Transactions.

(** * Examples *)

#[local] Existing Instance Demo.unicode.
#[local] Existing Instance Demo.runtime.
#[local] Existing Instance Demo.watcher.

Definition demo_config : ConfigHttp :=
  {| cfg_Ports := [80]; cfg_Send_all_headers := None; cfg_Send_headers := []; cfg_Split_cookie := None;
     cfg_Real_ip_header := None; cfg_Include_body_for := []; cfg_Hide_keywords := [bs "pass"];
     cfg_Strip_authorization := None; cfg_Send_request := Some true; cfg_Send_response := None |}.
Definition demo_http : Http :=
  {| Ports := [80]; Send_request := true; Send_response := false; Send_headers := false; Send_all_headers := false;
     Headers_whitelist := ∅; Split_cookie := false; Real_ip_header := []; Hide_keywords := [bs "pass"];
     Strip_authorization := false; transactionsMap := ∅; results := Some [] |}.
Definition demo_cmd : CmdlineTuple := {| ct_Src := []; ct_Dst := [] |}.

Definition demo_req : HttpMessage :=
  newMessage 1000000 <| m_IsRequest := true |> <| m_Method := bs "GET" |> <| m_RequestUri := bs "/a?pass=b&x=1" |>
    <| m_bodyOffset := 4 |> <| m_Raw := mkSlice (bs "headbody") [] |>.
Definition demo_resp : HttpMessage :=
  newMessage 3000000 <| m_StatusCode := 404 |> <| m_StatusPhrase := bs "Found" |> <| m_ContentLength := 2 |>.

Lemma demo_filed : filed demo_http.
Proof. apply map_Forall_empty. Qed.
Lemma demo_timed : all_timed demo_http.
Proof. apply map_Forall_empty. Qed.
Definition demo_acts : list action :=
  [AMessage demo_req Demo.tuple 1 (mkSlice (bs "headbody") []); AMessage demo_resp Demo.tuple 0 (mkSlice [] []);
   AMessage demo_req Demo.tuple 1 (mkSlice (bs "headbody") [])].
Lemma demo_calm : calm demo_config (demo_http, tt) demo_acts.
Proof. split; [by eexists|split; [by eexists|split; [by eexists|done]]]. Qed.

Lemma http_transactions_invariant_witness :
  let st' := foldl (exec demo_config) (demo_http, tt) demo_acts in
  filed (fst st') /\ (length (sent (fst st')) + size (transactionsMap (fst st')) <= 0 + 0 + 2)%nat /\
  forall k t, transactionsMap (fst st') !! k = Some t ->
     is_Some (t_Http t) /\ transactionsMap (fst (exec demo_config st' (ATimer k))) = delete k (transactionsMap (fst st')).
Proof.
  destruct (http_transactions_invariant demo_config demo_acts (demo_http, tt) demo_filed) as (H1 & H2 & H3).
  exact (conj H1 (conj H2 (H3 demo_timed demo_calm))).
Defined.

Lemma demo_req_ok : message_ok demo_req.
Proof. by vm_compute. Qed.
Lemma demo_resp_ok : message_ok demo_resp.
Proof. by vm_compute. Qed.

Lemma http_exchange_published_witness :
  let '(_, http1) := receivedHttpRequest demo_config demo_http demo_req Demo.tuple demo_cmd in
  let '(_, http2) := receivedHttpResponse demo_config http1 demo_resp Demo.tuple in
  exists event path params err, extractParameters demo_http demo_req (m_Raw demo_req) = Ret (path, params, err) /\
    results http2 = Some [event] /\
    event !! bs "status" = Some (MStr ERROR_STATUS) /\ event !! bs "responsetime" = Some (MInt 2) /\
    event !! bs "params" = Some (MStr params).
Proof.
  pose proof (http_exchange_published demo_config demo_http [] demo_req demo_resp Demo.tuple demo_cmd demo_filed eq_refl
    demo_req_ok eq_refl demo_resp_ok) as H.
  destruct (receivedHttpRequest _ _ _ _ _) as [r http1]. destruct (receivedHttpResponse _ _ _ _) as [r' http2].
  destruct (endpoints _ _ _) as [src dst].
  destruct H as (path & params & err & raw & event & fields & _ & _ & E1 & E2 & _ & E3 & E4 & _ & E5 & _).
  exists event, path, params, err. exact (conj E1 (conj E2 (conj E3 (conj E4 E5)))).
Defined.

(** A request of negative length, as [Parse] handles it. *)
Definition negative_data : bytes :=
  bs "GET / HTTP/1.1" ++ CRLF ++ bs "Content-Length: -5" ++ CRLF ++ CRLF ++ bs "x".
Definition negative_result : HttpStream * (bool * bool) :=
  match messageParser demo_http (received (Demo.packet 9 negative_data) Demo.tuple None) with
  | Ret x => x
  | _ => (received (Demo.packet 9 []) Demo.tuple None, (false, false))
  end.
Definition negative_message : HttpMessage :=
  let m := default (newMessage 0) (s_message (fst negative_result)) in
  m <| m_Raw := match sl_slice (s_data (fst negative_result)) (m_start m) (m_end m) with Ret raw => raw | _ => mkSlice [] [] end |>.

Example negative_complete : snd negative_result = (true, true) /\ m_IsRequest negative_message = true.
Proof. by vm_compute. Qed.

Example negative_leaks :
  match Parse demo_config (Demo.packet 9 negative_data) Demo.tuple 1 None (demo_http, tt) with
  | Ret (None, (http, _)) => t_timer <$> transactionsMap http !! TcpHashable Demo.tuple
  | _ => None
  end = Some false.
Proof. by vm_compute. Qed.

Lemma http_negative_length_leak_witness :
  exists t, receivedHttpRequest demo_config demo_http negative_message Demo.tuple demo_cmd = (Panic, put demo_http Demo.tuple t) /\
    t_timer t = false /\ t_Http t = None /\
    forall resp, receivedHttpResponse demo_config (put demo_http Demo.tuple t) resp Demo.tuple =
      (Ret (m_Raw resp), put demo_http Demo.tuple t).
Proof.
  apply (http_negative_length_leak demo_config demo_http negative_message Demo.tuple demo_cmd eq_refl eq_refl);
    vm_compute; first [reflexivity|split; [discriminate|discriminate]|done].
Defined.

Lemma no_private : priv_ok None.
Proof. intros dir s. unfold get2. by repeat case_decide. Qed.

Lemma http_Parse_total_witness :
  exists private' st', Parse demo_config (Demo.packet 9 negative_data) Demo.tuple 1 None (demo_http, tt) = Ret (private', st') /\
    priv_ok private'.
Proof. apply (http_Parse_total demo_config (Demo.packet 9 negative_data) Demo.tuple 1 None (demo_http, tt) no_private). Defined.
