(* ===== verification/Filters.v ===== *)
(** The filters: libbeat's filters/filters.go and filters/nop/nop.go (the plugin
    interface, its registry and the filter that does nothing), and
    src/filters_runner.go (the configured chain of filters and the goroutine that
    runs it over the events). *)
From S2P Require Export Tuples.
From stdpp Require Import list.
#[local] Open Scope Z_scope.

(** * Filter identifiers *)

Definition NopFilter : Z := 0.
Definition SampleFilter : Z := 1.
Definition FilterPluginNames : list bytes := [bs "nop"; bs "sample"].

(** [Filter.String]; a [Filter] is an [int]. *)
Definition Filter_String (filter : Z) : outcome bytes :=
  if decide (filter < 0 \/ len FilterPluginNames <= filter) then Ret (bs "impossible")
  else at_ FilterPluginNames filter.

Fixpoint filter_from_name (names : list bytes) (i : Z) (name : bytes) : option Z :=
  match names with
  | [] => None
  | pluginname :: names => if decide (name = pluginname) then Some i else filter_from_name names (i + 1) name
  end.

(** [FilterFromName]: [None] is the error (with -1 as filter). *)
Definition FilterFromName (name : bytes) : option Z := filter_from_name FilterPluginNames 0 name.

(** * Plugins *)

(** An event is a [MapStr]; [None] is the nil map. *)
Abbreviation event := (option MapStr).

(** An [interface{}] of the configuration.  Of a map the entries under string keys are
    kept, the only ones that are looked up. *)
Inductive iface :=
| IStr (s : bytes)
| ISeq (l : list iface)
| IMap (m : gmap bytes iface)
| IOther.

(** The [FilterPlugin] interface.  The program calls [New] on the registered plugins only,
    and the other methods on the instances that [New] made only, so that the two
    halves of the interface are two types; [None] is a nil configuration. *)
Record FilterPlugin := {
  Filter : event -> event * option bytes;
  fp_String : bytes;
  fp_Type : Z
}.
Record PluginType := { New : bytes -> option (gmap bytes iface) -> FilterPlugin + bytes }.

(** [FiltersList]: the map of the registered plugins. *)
Abbreviation FiltersList := (gmap Z PluginType).
Definition Register (filters : FiltersList) (filter : Z) (plugin : PluginType) : FiltersList :=
  <[filter := plugin]> filters.
Definition Get (filters : FiltersList) (filter : Z) : option PluginType := filters !! filter.

(** * The nop filter (nop.go) *)

Definition Nop (name : bytes) : FilterPlugin :=
  {| Filter := fun event => (event, None); fp_String := name; fp_Type := NopFilter |}.
Definition NopType : PluginType := {| New := fun name config => inl (Nop name) |}.

(** * The configured filters (filters_runner.go) *)

Inductive load_error :=
| NotArray                          (* Expected the filters to be an array of strings *)
| NotStrings                        (* Expected the filters array to only contain strings *)
| NoSuchFilter (filter : bytes)     (* No such filter type and no corresponding configuration *)
| InvalidConfiguration (filter : bytes)
| NoFilterType (filter : bytes)     (* Couldn't get type for filter *)
| NoSuchType (type_str : bytes)     (* No such filter type *)
| NotLoaded (plugin_type : Z)       (* No plugin loaded *)
| InitFailed (plugin_type : Z) (err : bytes).

(** The type of a filter and the configuration that [New] gets.  The [plugin_config] of
    the second branch is declared there ([:=]) and is not the variable that is
    passed to [New], which stays nil. *)
Definition filter_type (config : gmap bytes iface) (filter : bytes)
    : Z * option (gmap bytes iface) + load_error :=
  match config !! filter with
  | None =>
      match FilterFromName filter with
      | Some plugin_type => inl (plugin_type, None)
      | None => inr (NoSuchFilter filter)
      end
  | Some (IMap plugin_config) =>
      match plugin_config !! bs "type" with
      | Some (IStr type_str) =>
          match FilterFromName type_str with
          | Some plugin_type => inl (plugin_type, None)
          | None => inr (NoSuchType type_str)
          end
      | _ => inr (NoFilterType filter)
      end
  | Some _ => inr (InvalidConfiguration filter)
  end.

Section Load.
Context (registry : FiltersList).

(** One turn of the loop: the plugin of one entry of the array. *)
Definition load_filter (config : gmap bytes iface) (filter_iface : iface) : FilterPlugin + load_error :=
  match filter_iface with
  | IStr filter =>
      match filter_type config filter with
      | inr err => inr err
      | inl (plugin_type, plugin_config) =>
          match Get registry plugin_type with
          | None => inr (NotLoaded plugin_type)
          | Some filter_plugin =>
              match New filter_plugin filter plugin_config with
              | inr err => inr (InitFailed plugin_type err)
              | inl plugin => inl plugin
              end
          end
      end
  | _ => inr NotStrings
  end.

Fixpoint load_filters (config : gmap bytes iface) (filters_iface : list iface) (plugins : list FilterPlugin)
    : list FilterPlugin + load_error :=
  match filters_iface with
  | [] => inl plugins
  | filter_iface :: filters_iface =>
      match load_filter config filter_iface with
      | inr err => inr err
      | inl plugin => load_filters config filters_iface (plugins ++ [plugin])
      end
  end.

Definition LoadConfiguredFilters (config : gmap bytes iface) : list FilterPlugin + load_error :=
  match config !! bs "filters" with
  | None => inl []
  | Some (ISeq filters_iface) => load_filters config filters_iface []
  | Some _ => inr NotArray
  end.
End Load.

(** * The runner (filters_runner.go) *)

(** The inner loop of [Run]: the error of a filter ends the chain, with the event that the
    filter returned. *)
Fixpoint run_filters (order : list FilterPlugin) (e : event) : event :=
  match order with
  | [] => e
  | plugin :: order =>
      match Filter plugin e with
      | (e, Some err) => e
      | (e, None) => run_filters order e
      end
  end.

(** [FilterRunner]: the queue it reads and the channel it writes are lists. *)
Record FilterRunner := { FiltersQueue : list event; results : list event; order : list FilterPlugin }.
#[export] Instance eta_FilterRunner : Settable FilterRunner := fun r =>
  {| FiltersQueue := FiltersQueue r; results := results r; order := order r |}.

Definition NewFilterRunner (results : list event) (order : list FilterPlugin) : FilterRunner :=
  {| FiltersQueue := []; results := results; order := order |}.

(** One turn of the goroutine: it blocks on an empty queue. *)
Definition run_step (runner : FilterRunner) : FilterRunner :=
  match FiltersQueue runner with
  | [] => runner
  | e :: queue => runner <| FiltersQueue := queue |> <| results := results runner ++ [run_filters (order runner) e] |>
  end.

(** What may happen to a runner: an event is queued, or the goroutine makes a turn. *)
Inductive action := Queue (e : event) | Turn.
Definition exec (runner : FilterRunner) (a : action) : FilterRunner :=
  match a with
  | Queue e => runner <| FiltersQueue := FiltersQueue runner ++ [e] |>
  | Turn => run_step runner
  end.
Definition queued (acts : list action) : list event :=
  omap (fun a => match a with Queue e => Some e | Turn => None end) acts.

(** * The chain *)

Lemma run_filters_app order1 order2 e :
  Forall (fun p => forall e, snd (Filter p e) = None) order1 ->
  run_filters (order1 ++ order2) e = run_filters order2 (foldl (fun e p => fst (Filter p e)) e order1).
Proof.
  intros H. revert e. induction H as [|p l Hp _ IH]; intros e; [done|]. cbn [app run_filters foldl].
  specialize (Hp e). destruct (Filter p e) as [e' [err|]]; [done|]. apply IH.
Qed.

(** The events that the goroutine has taken ([taken]) and those still queued make up what
    was sent to the runner. *)
Lemma exec_taken acts runner taken :
  results runner = map (run_filters (order runner)) taken ->
  let runner' := fold_left exec acts runner in
  exists taken', results runner' = map (run_filters (order runner)) taken' /\
    taken' ++ FiltersQueue runner' = taken ++ FiltersQueue runner ++ queued acts.
Proof.
  revert runner taken. induction acts as [|a acts IH]; intros runner taken Hr; cbn [fold_left].
  - exists taken. by rewrite app_nil_r.
  - destruct a as [e|].
    + destruct (IH (exec runner (Queue e)) taken Hr) as (t & Ht & Eq). exists t. split; [exact Ht|].
      rewrite Eq. cbn. by rewrite <- !app_assoc.
    + change (queued (Turn :: acts)) with (queued acts). cbn [exec]. unfold run_step.
      destruct (FiltersQueue runner) as [|e queue] eqn:Eq; [rewrite <- Eq; by apply IH|].
      destruct (IH (runner <| FiltersQueue := queue |> <| results := results runner ++ [run_filters (order runner) e] |>)
                  (taken ++ [e])) as (t & Ht & Et); [cbn; by rewrite Hr, map_app|].
      exists t. split; [exact Ht|]. rewrite Et. cbn. by rewrite <- app_assoc.
Qed.

(** For any interleaving of events queued and turns of the goroutine, the results are,
    in the order of the queue, one event for each event taken, run through the
    chain, and the events taken and those still queued are those that were sent.
    When no filter fails the chain is the composition of the filters in the
    configured order. *)
Theorem filter_runner_refines filters acts :
  (exists taken,
     results (fold_left exec acts (NewFilterRunner [] filters)) = map (run_filters filters) taken /\
     taken ++ FiltersQueue (fold_left exec acts (NewFilterRunner [] filters)) = queued acts) /\
  (Forall (fun p => forall e, snd (Filter p e) = None) filters ->
   forall e, run_filters filters e = foldl (fun e p => fst (Filter p e)) e filters).
Proof.
  split.
  - apply (exec_taken acts (NewFilterRunner [] filters) []). done.
  - intros H e. rewrite <- (app_nil_r filters) at 1. by rewrite run_filters_app.
Qed.

Example filter_runner_refines_witness :
  run_filters [Nop (bs "nop1"); Nop (bs "nop2")] (Some {[bs "hello" := MStr (bs "world")]}) =
  Some {[bs "hello" := MStr (bs "world")]}.
Proof.
  rewrite (proj2 (filter_runner_refines [Nop (bs "nop1"); Nop (bs "nop2")] [])); [reflexivity|].
  repeat constructor.
Defined.

(** An event on which a filter fails is not dropped, against the comment in [Run]: what the
    failing filter returned is sent, and the filters after it are skipped. *)
Theorem filter_error_published order1 plugin order2 e e' err rest sent :
  Forall (fun p => forall e, snd (Filter p e) = None) order1 ->
  Filter plugin (foldl (fun e p => fst (Filter p e)) e order1) = (e', Some err) ->
  results (run_step {| FiltersQueue := e :: rest; results := sent; order := order1 ++ plugin :: order2 |}) =
    sent ++ [e'].
Proof. intros H E. cbn. rewrite run_filters_app by done. cbn. by rewrite E. Qed.

(** * The configuration *)

Lemma load_filters_inv registry config l plugins r :
  load_filters registry config l plugins = inl r <->
  exists ps, r = plugins ++ ps /\ Forall2 (fun f p => load_filter registry config f = inl p) l ps.
Proof.
  revert plugins. induction l as [|f l IH]; intros plugins; cbn.
  - split.
    + intros [= <-]. exists []. split; [by rewrite app_nil_r|constructor].
    + intros (ps & -> & H). inversion H. by rewrite app_nil_r.
  - destruct (load_filter registry config f) as [p|err] eqn:E.
    + rewrite IH. split.
      * intros (ps & -> & H). exists (p :: ps). rewrite <- app_assoc. split; [done|by constructor].
      * intros (ps & -> & H). inversion H as [|? q ? qs Hq Hl]; subst. exists qs.
        rewrite E in Hq. injection Hq as <-. by rewrite <- app_assoc.
    + split; [done|]. intros (ps & _ & H). inversion H; subst. congruence.
Qed.

(** The type that the configuration gives to a filter: that of its own section, or else its
    name. *)
Definition type_named (config : gmap bytes iface) (filter : bytes) (ty : Z) : Prop :=
  match config !! filter with
  | None => FilterFromName filter = Some ty
  | Some section =>
      exists m type_str, section = IMap m /\ m !! bs "type" = Some (IStr type_str) /\ FilterFromName type_str = Some ty
  end.

Lemma filter_type_spec config filter ty conf :
  filter_type config filter = inl (ty, conf) <-> type_named config filter ty /\ conf = None.
Proof.
  unfold filter_type, type_named. destruct (config !! filter) as [[s|l|m|]|].
  1, 2, 4: split; [done|by intros ((? & ? & ? & _) & _)].
  - destruct (m !! bs "type") as [[s|l|m'|]|] eqn:Et.
    2-5: split; [done|intros ((? & ? & [= <-] & E & _) & _); congruence].
    destruct (FilterFromName s) as [t|] eqn:Ef.
    + split; [intros [= <- <-]; eauto 10|]. intros ((? & ? & [= <-] & E & E') & ->). congruence.
    + split; [done|]. intros ((? & ? & [= <-] & E & E') & ->). congruence.
  - destruct (FilterFromName filter) as [t|]; [|split; [done|by intros [? _]]].
    split; [by intros [= <- <-]|]. by intros [[= <-] ->].
Qed.

(** C27: the configuration is accepted exactly when it has no filters or an array of strings,
    each naming a filter whose type is known, registered and makes an instance; the
    chain then has one instance per entry, in the order of the array.  Whatever the
    configuration says in the section of a filter, [New] gets no configuration. *)
Theorem LoadConfiguredFilters_correct registry config plugins :
  LoadConfiguredFilters registry config = inl plugins <->
  (config !! bs "filters" = None /\ plugins = []) \/
  exists names, config !! bs "filters" = Some (ISeq (map IStr names)) /\
    Forall2 (fun name plugin => exists ty constructor,
      type_named config name ty /\ Get registry ty = Some constructor /\ New constructor name None = inl plugin)
      names plugins.
Proof.
  unfold LoadConfiguredFilters. destruct (config !! bs "filters") as [[s|l|m|]|] eqn:E.
  1, 3, 4: split; [done|intros [[? ?]|(? & ? & _)]; done].
  2: { split; [intros [= <-]; by left|]. intros [[_ ->]|(? & ? & _)]; done. }
  rewrite load_filters_inv. cbn [app]. split.
  - intros (ps & -> & H). right. clear E. induction H as [|f p l ps Hf _ (names & [= ->] & IH)]; [by exists []|].
    destruct f as [name| | |]; [|done..]. exists (name :: names). split; [done|]. constructor; [|done].
    cbn in Hf. destruct (filter_type config name) as [[ty conf]|] eqn:Et; [|done].
    apply filter_type_spec in Et as [Ht ->]. destruct (Get registry ty) as [c|] eqn:Eg; [|done].
    destruct (New c name None) eqn:En; [|done]. injection Hf as <-. eauto 10.
  - intros [[? _]|(names & [= ->] & H)]; [done|]. exists plugins. split; [done|]. clear E.
    induction H as [|name p names ps (ty & c & Ht & Eg & En) _ IH]; [constructor|]. constructor; [|done].
    cbn. rewrite (proj2 (filter_type_spec config name ty None)) by done. by rewrite Eg, En.
Qed.

(** * Examples *)

Definition demo_registry : FiltersList := Register ∅ NopFilter NopType.
Definition demo_config : gmap bytes iface :=
  {[ bs "filters" := ISeq [IStr (bs "nop"); IStr (bs "sample1")];
     bs "sample1" := IMap {[bs "type" := IStr (bs "nop")]} ]}.

Example load_demo : LoadConfiguredFilters demo_registry demo_config = inl [Nop (bs "nop"); Nop (bs "sample1")].
Proof. reflexivity. Qed.

(** The configurations of filters_runner_test.go that are refused. *)
Example load_refused :
  map (LoadConfiguredFilters demo_registry)
    [ {[bs "filters" := ISeq [IStr (bs "nop1"); IStr (bs "nop2")]; bs "nop1" := IMap {[bs "type" := IStr (bs "nop")]}]};
      {[bs "filters" := ISeq [IStr (bs "nop1"); IStr (bs "nop")]; bs "nop1" := IMap {[bs "hype" := IStr (bs "nop")]}]};
      {[bs "filters" := ISeq [IStr (bs "nop1"); IStr (bs "nop")]; bs "nop1" := IMap {[bs "type" := IOther]}]} ] =
  [inr (NoSuchFilter (bs "nop2")); inr (NoFilterType (bs "nop1")); inr (NoFilterType (bs "nop1"))].
Proof. reflexivity. Qed.

Definition failing : FilterPlugin :=
  {| Filter := fun e => (None, Some (bs "broken")); fp_String := bs "failing"; fp_Type := SampleFilter |}.

Example filter_error_published_witness :
  results (run_step {| FiltersQueue := [Some ∅]; results := []; order := [Nop (bs "nop"); failing; Nop (bs "nop")] |}) = [None].
Proof.
  apply (filter_error_published [Nop (bs "nop")] failing [Nop (bs "nop")] (Some ∅) None (bs "broken") [] []);
    [by constructor|reflexivity].
Defined.
