(* ===== verification/GoNet.v ===== *)
(** More of the Go 1.4 standard library, for the process watcher and the publisher:
    net.ParseIP, IP.Equal and IP.IsLoopback; and libbeat's common/net.go. *)
From S2P Require Export Tuples.
From stdpp Require Import list.
#[local] Open Scope Z_scope.

(** * Numbers inside an address *)

(** [dtoi] and [xtoi]: the digits from the beginning of [s], as a number below [big], and
    what follows; [None] when there is none or when the number is too big. *)
Definition big : Z := 0xFFFFFF.

Fixpoint digits (base n : Z) (s : bytes) : option (Z * bytes) :=
  match s with
  | b :: s' =>
      match digit_val b with
      | Some v =>
          if decide (v < base) then
            if decide (n * base + v >= big) then None else digits base (n * base + v) s'
          else Some (n, s)
      | None => Some (n, s)
      end
  | [] => Some (n, [])
  end.

Definition to_i (base : Z) (s : bytes) : option (Z * bytes) :=
  match digits base 0 s with
  | Some (n, rest) => if decide (length rest = length s) then None else Some (n, rest)
  | None => None
  end.
Definition dtoi (s : bytes) : option (Z * bytes) := to_i 10 s.
Definition xtoi (s : bytes) : option (Z * bytes) := to_i 16 s.

(** * net.ParseIP *)

(** [parseIPv4]: the octets still to read, the first without a dot before it. *)
Fixpoint v4_octets (k : nat) (first : bool) (s : bytes) : option bytes :=
  match k with
  | O => match s with [] => Some [] | _ => None end
  | S k =>
      let s := if first then Some s
               else match s with b :: s' => if Byte.eqb b "."%byte then Some s' else None | [] => None end in
      match s with
      | None => None
      | Some s =>
          match dtoi s with
          | None => None
          | Some (n, rest) =>
              if decide (n > 0xFF) then None
              else match v4_octets k false rest with Some p => Some (to_byte n :: p) | None => None end
          end
      end
  end.
Definition parseIPv4 (s : bytes) : option bytes := (v4InV6Prefix ++.) <$> v4_octets 4 true s.

(** [parseIPv6] without a zone: the bytes read so far, the place of the ellipsis among
    them and the rest of the string; [fuel] is one more than the groups of an address. *)
Fixpoint v6_loop (fuel : nat) (ip : bytes) (ellipsis : option nat) (s : bytes) : option (bytes * option nat * bytes) :=
  match fuel with
  | O => None
  | S fuel =>
      if decide (16 <= length ip)%nat then Some (ip, ellipsis, s)
      else
        match xtoi s with
        | None => None
        | Some (n, rest) =>
            if decide (n > 0xFFFF) then None
            else if match rest with b :: _ => Byte.eqb b "."%byte | [] => false end then
              if decide ((ellipsis = None /\ length ip <> 12%nat) \/ (16 < length ip + 4)%nat) then None
              else match parseIPv4 s with
                   | Some ip4 => Some (ip ++ drop 12 ip4, ellipsis, [])
                   | None => None
                   end
            else
              let ip := ip ++ be16 n in
              match rest with
              | [] => Some (ip, ellipsis, [])
              | b :: rest =>
                  if negb (Byte.eqb b ":"%byte) || bool_decide (rest = []) then None
                  else
                    match rest with
                    | b :: rest' =>
                        if Byte.eqb b ":"%byte then
                          match ellipsis with
                          | Some _ => None
                          | None =>
                              match rest' with
                              | [] => Some (ip, Some (length ip), [])
                              | _ => v6_loop fuel ip (Some (length ip)) rest'
                              end
                          end
                        else v6_loop fuel ip ellipsis rest
                    | [] => None
                    end
              end
        end
  end.

Definition parseIPv6 (s : bytes) : option bytes :=
  let leading := has_prefix (bs "::") s in
  if leading && bool_decide (length s = 2%nat) then Some (replicate 16 x00)
  else
    match v6_loop 9 [] (if leading then Some O else None) (if leading then drop 2 s else s) with
    | Some (ip, ellipsis, []) =>
        match ellipsis with
        | Some e =>
            if decide (length ip < 16)%nat then Some (take e ip ++ replicate (16 - length ip) x00 ++ drop e ip)
            else None
        | None => if decide (length ip < 16)%nat then None else Some ip
        end
    | _ => None
    end.

(** [net.ParseIP]: the first dot or colon decides. *)
Definition ParseIP (s : bytes) : option bytes :=
  match List.find (in_set (bs ".:")) s with
  | Some b => if Byte.eqb b "."%byte then parseIPv4 s else parseIPv6 s
  | None => None
  end.

(** * IP.Equal and IP.IsLoopback *)

Definition IP_Equal (ip x : bytes) : bool :=
  if decide (length ip = length x) then bool_decide (ip = x)
  else if decide (length ip = 4%nat /\ length x = 16%nat) then bool_decide (take 12 x = v4InV6Prefix /\ ip = drop 12 x)
  else if decide (length ip = 16%nat /\ length x = 4%nat) then bool_decide (take 12 ip = v4InV6Prefix /\ drop 12 ip = x)
  else false.

Definition IPv6loopback : bytes := replicate 15 x00 ++ [x01].

Definition IsLoopback (ip : bytes) : bool :=
  match To4 ip with
  | Some (b :: _) => bool_decide (u8 b = 127)
  | _ => IP_Equal ip IPv6loopback
  end.

(** * Local addresses (common/net.go); the interfaces of the host are a parameter *)

Definition LocalIpAddrs (InterfaceAddrs : option (list bytes)) : option (list bytes) := InterfaceAddrs.

Definition LocalIpAddrsAsStrings (InterfaceAddrs : option (list bytes)) (include_loopbacks : bool) : option (list bytes) :=
  match LocalIpAddrs InterfaceAddrs with
  | Some ipaddrs => Some (map ip_String (List.filter (fun ip => include_loopbacks || negb (IsLoopback ip)) ipaddrs))
  | None => None
  end.

(** [IsLoopback(ip_str)]: [None] is the error. *)
Definition IsLoopbackStr (ip_str : bytes) : option bool := IsLoopback <$> ParseIP ip_str.

(** * Lemmas *)

(** Equality of addresses, of either length. *)
Lemma IP_Equal_refl ip : IP_Equal ip ip = true.
Proof. unfold IP_Equal. by rewrite decide_True, bool_decide_true. Qed.

Lemma IP_Equal_sym ip x : IP_Equal ip x = IP_Equal x ip.
Proof.
  unfold IP_Equal. repeat case_decide; try tauto; try congruence; try lia; apply bool_decide_ext; intuition congruence.
Qed.

(** The text of an octet is read back, whatever follows but a digit. *)
Definition no_digit (s : bytes) : Prop := match s with b :: _ => digit_val b = None | [] => True end.

Lemma digits_app base n ds m rest :
  digits base n ds = Some (m, []) -> no_digit rest -> digits base n (ds ++ rest) = Some (m, rest).
Proof.
  intros H Hr. revert n H. induction ds as [|b ds IH]; intros n; cbn.
  - intros [= ->]. destruct rest as [|c rest]; [done|]. cbn. by rewrite Hr.
  - destruct (digit_val b) as [v|]; [|done]. repeat case_decide; [done| |done]. apply IH.
Qed.

Lemma dtoi_octet b rest : no_digit rest -> dtoi (Itoa (u8 b) ++ rest) = Some (u8 b, rest).
Proof.
  intros Hr. unfold dtoi, to_i. rewrite (digits_app _ _ _ (u8 b)) by (done || by destruct b).
  assert (0 < length (Itoa (u8 b)))%nat by (apply Nat.ltb_lt; by destruct b).
  by rewrite decide_False by (rewrite length_app; lia).
Qed.

(** [ParseIP] inverts [IP.String] on IPv4 addresses. *)
Lemma ParseIP_String a b c d : ParseIP (ip_String [a; b; c; d]) = Some (v4InV6Prefix ++ [a; b; c; d]).
Proof.
  set (s := ip_String [a; b; c; d]).
  assert (s = Itoa (u8 a) ++ "."%byte :: (Itoa (u8 b) ++ "."%byte :: (Itoa (u8 c) ++ "."%byte :: Itoa (u8 d) ++ []))) as Es.
  { subst s. unfold ip_String, To4. rewrite decide_True by done. cbn [map GoStd.Join]. by rewrite app_nil_r. }
  assert (forall t, List.find (in_set (bs ".:")) (Itoa (u8 a) ++ "."%byte :: t) = Some "."%byte) as Hf.
  { intros t. destruct a; reflexivity. }
  unfold ParseIP. rewrite Es, Hf. change (Byte.eqb "." ".") with true. cbn iota.
  unfold parseIPv4. cbn [v4_octets]. rewrite dtoi_octet by done.
  pose proof (u8_bound a). pose proof (u8_bound b). pose proof (u8_bound c). pose proof (u8_bound d).
  do 3 (rewrite decide_False by lia; cbn [v4_octets]; change (Byte.eqb "." ".") with true; cbn iota;
        rewrite dtoi_octet by done).
  rewrite decide_False by lia. cbn. by rewrite !to_byte_u8.
Qed.

Lemma IsLoopback_v4 a b c d : IsLoopback (v4InV6Prefix ++ [a; b; c; d]) = bool_decide (u8 a = 127).
Proof. reflexivity. Qed.

Example ParseIP_demo :
  ParseIP (bs "10.0.0.1") = Some (v4InV6Prefix ++ map to_byte [10; 0; 0; 1]) /\
  ParseIP (bs "::1") = Some IPv6loopback /\
  ParseIP (bs "fe80::1:2") = Some (map to_byte [0xfe; 0x80; 0; 0; 0; 0; 0; 0; 0; 0; 0; 0; 0; 1; 0; 2]) /\
  ParseIP (bs "::ffff:127.0.0.1") = Some (v4InV6Prefix ++ map to_byte [127; 0; 0; 1]) /\
  ParseIP (bs "1:2:3:4:5:6:7:8") = Some (concat (map be16 [1; 2; 3; 4; 5; 6; 7; 8])) /\
  map ParseIP [bs "1.2.3"; bs "1.2.3.256"; bs "1::2::3"; bs "x"; bs "1:2:3:4:5:6:7:"; bs ":1"] = replicate 6 None.
Proof. repeat split; reflexivity. Qed.
