(* ===== verification/Publisher.v ===== *)
(** The publisher: libbeat's publisher/publish.go (what becomes of an event on its way to
    the outputs, and the topology), the outputs' interface of outputs/outputs.go. *)
From S2P Require Export GoNet.
From stdpp Require Import list.
#[local] Open Scope Z_scope.

(** * MapStr (common/mapstr.go) *)

Definition MapStrUnion (dict1 dict2 : MapStr) : MapStr := dict2 ∪ dict1.
Definition EnsureCountField (m : MapStr) : MapStr :=
  match m !! bs "count" with Some _ => m | None => <[bs "count" := MInt 1]> m end.

(** * Outputs *)

Section Outputs.
Context {W : Type}.

(** The part of [MothershipConfig] that the publisher reads; the rest is the outputs' own. *)
Record MothershipConfig := { Enabled : bool; Save_topology : bool }.

(** [OutputInterface], acting on the world [W] (an error is its text). *)
Record OutputInterface := {
  out_Init : MothershipConfig -> Z -> W -> option bytes * W;
  PublishIPs : bytes -> list bytes -> W -> option bytes * W;
  GetNameByIP : bytes -> W -> bytes;
  PublishEvent : Z -> MapStr -> W -> option bytes * W
}.

(** A location of the GeoIP database: whether its latitude and its longitude differ from
    zero, and the two printed with "%f, %f". *)
Record Location := { has_latitude : bool; has_longitude : bool; loc_text : bytes }.

Record PublisherType := {
  name : bytes;
  tags : list bytes;
  disabled : bool;
  Output : list OutputInterface;
  TopologyOutput : option OutputInterface;
  IgnoreOutgoing : bool;
  GeoLite : option (bytes -> option Location);
  RefreshTopologyTimer : option Z;       (* the period of its ticks *)
  Queue : list (option MapStr)
}.
#[export] Instance eta_PublisherType : Settable PublisherType := fun r =>
  {| name := name r; tags := tags r; disabled := disabled r; Output := Output r; TopologyOutput := TopologyOutput r;
     IgnoreOutgoing := IgnoreOutgoing r; GeoLite := GeoLite r; RefreshTopologyTimer := RefreshTopologyTimer r;
     Queue := Queue r |}.

Record ShipperConfig := {
  sh_Name : bytes; sh_Refresh_topology_freq : Z; sh_Ignore_outgoing : bool; sh_Topology_expire : Z; sh_Tags : list bytes
}.

(** * Publishing an event *)

Definition GetServerName (publisher : PublisherType) (ip : bytes) (w : W) : bytes :=
  match IsLoopbackStr ip with
  | None => []
  | Some true => name publisher
  | Some false =>
      match TopologyOutput publisher with
      | Some output => GetNameByIP output ip w
      | None => []
      end
  end.

Inductive publish_error := MissingTimestamp | MissingType | FailToPublish.

(** The fields of the source and of the destination; an event without one keeps what it has. *)
Definition with_src (event : MapStr) (src : option Endpoint) (src_server : bytes) : MapStr :=
  match src with
  | Some src =>
      let event := <[bs "client_ip" := MStr (ep_Ip src)]> event in
      let event := <[bs "client_port" := MInt (ep_Port src)]> event in
      let event := <[bs "client_proc" := MStr (ep_Proc src)]> event in
      let event := <[bs "client_server" := MStr src_server]> event in
      delete (bs "src") event
  | None => event
  end.
Definition with_dst (event : MapStr) (dst : option Endpoint) (dst_server : bytes) : MapStr :=
  match dst with
  | Some dst =>
      let event := <[bs "ip" := MStr (ep_Ip dst)]> event in
      let event := <[bs "port" := MInt (ep_Port dst)]> event in
      let event := <[bs "proc" := MStr (ep_Proc dst)]> event in
      let event := <[bs "server" := MStr dst_server]> event in
      delete (bs "dst") event
  | None => event
  end.

Definition endpoint_of (v : option mval) : option Endpoint :=
  match v with Some (MEndpoint e) => Some e | _ => None end.

Definition add_location (event : MapStr) (loc : option Location) : MapStr :=
  match loc with
  | Some loc =>
      if has_latitude loc && has_longitude loc then <[bs "client_location" := MStr (loc_text loc)]> event else event
  | None => event
  end.

(** The location of the client; the assertion [real_ip.(string)] panics on another type. *)
Definition locate (publisher : PublisherType) (event : MapStr) (src : option Endpoint) (src_server : bytes)
    : outcome MapStr :=
  match GeoLite publisher with
  | None => Ret event
  | Some GetLocationByIP =>
      let by_source :=
        match src with
        | Some src => if decide (len src_server = 0) then add_location event (GetLocationByIP (ep_Ip src)) else event
        | None => event
        end in
      match event !! bs "real_ip" with
      | Some (MStr real_ip) =>
          if decide (len real_ip > 0) then Ret (add_location event (GetLocationByIP real_ip)) else Ret by_source
      | Some _ => Panic
      | None => Ret by_source
      end
  end.

(** The loop over the outputs: every output gets the event; tells whether one failed. *)
Fixpoint to_outputs (outputs : list OutputInterface) (ts : Z) (event : MapStr) (has_error : bool) (w : W) : bool * W :=
  match outputs with
  | [] => (has_error, w)
  | output :: outputs =>
      let '(err, w) := PublishEvent output ts event w in
      to_outputs outputs ts event (has_error || bool_decide (err <> None)) w
  end.

(** The event as the outputs get it, or nothing for a duplicate. *)
Definition outgoing (publisher : PublisherType) (event : MapStr) (w : W) : outcome (option MapStr) :=
  let src := endpoint_of (event !! bs "src") in
  let src_server := match src with Some src => GetServerName publisher (ep_Ip src) w | None => [] end in
  let event := with_src event src src_server in
  let dst := endpoint_of (event !! bs "dst") in
  let dst_server := match dst with Some dst => GetServerName publisher (ep_Ip dst) w | None => [] end in
  let event := with_dst event dst dst_server in
  if IgnoreOutgoing publisher && bool_decide (dst_server <> []) && bool_decide (dst_server <> name publisher) then Ret None
  else
    let event := <[bs "shipper" := MStr (name publisher)]> event in
    let event := if decide (len (tags publisher) > 0) then <[bs "tags" := MStrs (tags publisher)]> event else event in
    let! event := locate publisher event src src_server in
    Ret (Some event).

Definition publishEvent (publisher : PublisherType) (event : option MapStr) (w : W)
    : outcome (option publish_error) * W :=
  match default ∅ event !! bs "timestamp" with
  | Some (MTime ts) =>
      let event := EnsureCountField (default ∅ event) in
      match event !! bs "type" with
      | Some (MStr _) =>
          match outgoing publisher event w with
          | Ret None => (Ret None, w)
          | Ret (Some event) =>
              let '(has_error, w) :=
                if disabled publisher then (false, w) else to_outputs (Output publisher) ts event false w in
              (Ret (if has_error : bool then Some FailToPublish else None), w)
          | Panic => (Panic, w)
          | OutOfFuel => (OutOfFuel, w)
          end
      | _ => (Ret (Some MissingType), w)
      end
  | _ => (Ret (Some MissingTimestamp), w)
  end.

(** One turn of [publishFromQueue], which blocks on an empty queue; an error is logged, a
    panic ends the program. *)
Definition publish_next (publisher : PublisherType) (w : W) : outcome unit * (PublisherType * W) :=
  match Queue publisher with
  | [] => (Ret tt, (publisher, w))
  | mapstr :: queue =>
      let publisher := publisher <| Queue := queue |> in
      match publishEvent publisher mapstr w with
      | (Ret _, w) => (Ret tt, (publisher, w))
      | (Panic, w) => (Panic, (publisher, w))
      | (OutOfFuel, w) => (OutOfFuel, (publisher, w))
      end
  end.

(** * The topology *)

Inductive init_error :=
| OutputInit (err : bytes) | MultipleTopologies | NoOutputs | NoHostname | LocalAddrs | TopologyFailed (err : bytes).

Definition PublishTopology (publisher : PublisherType) (InterfaceAddrs : option (list bytes)) (params : list bytes) (w : W)
    : option init_error * W :=
  let localAddrs := match params with [] => LocalIpAddrsAsStrings InterfaceAddrs false | _ => Some params end in
  match localAddrs with
  | None => (Some LocalAddrs, w)
  | Some localAddrs =>
      match TopologyOutput publisher with
      | Some output =>
          match PublishIPs output (name publisher) localAddrs w with
          | (Some err, w) => (Some (TopologyFailed err), w)
          | (None, w) => (None, w)
          end
      | None => (None, w)
      end
  end.

(** * Initialisation *)

(** The loop over the enabled output plugins, in the order of Go's iteration over their map:
    each with the section of the configuration under its name, if there is one. *)
Fixpoint init_outputs (plugins : list (OutputInterface * option MothershipConfig)) (topology_expire : Z)
    (publisher : PublisherType) (w : W) : option init_error * (PublisherType * W) :=
  match plugins with
  | [] => (None, (publisher, w))
  | (plugin, Some output) :: plugins =>
      if Enabled output && negb (disabled publisher) then
        match out_Init plugin output topology_expire w with
        | (Some err, w) => (Some (OutputInit err), (publisher, w))
        | (None, w) =>
            let publisher := publisher <| Output := Output publisher ++ [plugin] |> in
            if Save_topology output then
              match TopologyOutput publisher with
              | Some _ => (Some MultipleTopologies, (publisher, w))
              | None => init_outputs plugins topology_expire (publisher <| TopologyOutput := Some plugin |>) w
              end
            else init_outputs plugins topology_expire publisher w
        end
      else init_outputs plugins topology_expire publisher w
  | (_, None) :: plugins => init_outputs plugins topology_expire publisher w
  end.

(** [Init]; the GeoIP database ([LoadGeoIPData]), the host's name and its addresses come
    from the outside. *)
Definition Init (publisher : PublisherType) (publishDisabled : bool)
    (plugins : list (OutputInterface * option MothershipConfig)) (shipper : ShipperConfig)
    (geo : option (bytes -> option Location)) (hostname : option bytes) (InterfaceAddrs : option (list bytes)) (w : W)
    : outcome (option init_error) * (PublisherType * W) :=
  let publisher := publisher <| IgnoreOutgoing := sh_Ignore_outgoing shipper |> <| disabled := publishDisabled |>
                             <| GeoLite := geo |> in
  match init_outputs plugins (sh_Topology_expire shipper) publisher w with
  | (Some err, pw) => (Ret (Some err), pw)
  | (None, (publisher, w)) =>
      if negb (disabled publisher) && bool_decide (Output publisher = []) then (Ret (Some NoOutputs), (publisher, w))
      else
        let publisher := publisher <| name := sh_Name shipper |> in
        match (if decide (len (name publisher) = 0) then hostname else Some (name publisher)) with
        | None => (Ret (Some NoHostname), (publisher <| name := [] |>, w))
        | Some n =>
            let publisher := publisher <| name := n |> <| tags := sh_Tags shipper |> in
            if negb (disabled publisher) && bool_decide (is_Some (TopologyOutput publisher)) then
              let freq := if decide (sh_Refresh_topology_freq shipper <> 0)
                          then int64_of (sh_Refresh_topology_freq shipper * 1000000000) else 10 * 1000000000 in
              if decide (freq <= 0) then (Panic, (publisher, w))
              else
                let publisher := publisher <| RefreshTopologyTimer := Some freq |> in
                match PublishTopology publisher InterfaceAddrs [] w with
                | (Some err, w) => (Ret (Some err), (publisher, w))
                | (None, w) => (Ret None, (publisher <| Queue := [] |>, w))
                end
            else (Ret None, (publisher <| Queue := [] |>, w))
        end
  end.

(** A tick of the timer ([UpdateTopologyPeriodically]); the error is lost. *)
Definition refresh_topology (publisher : PublisherType) (InterfaceAddrs : option (list bytes)) (w : W) : W :=
  snd (PublishTopology publisher InterfaceAddrs [] w).

(** * What is published *)

(** The fields that the publisher writes. *)
Definition src_fields : list bytes := [bs "src"; bs "client_ip"; bs "client_port"; bs "client_proc"; bs "client_server"].
Definition dst_fields : list bytes := [bs "dst"; bs "ip"; bs "port"; bs "proc"; bs "server"].
Definition own_fields : list bytes := [bs "shipper"; bs "tags"; bs "count"; bs "client_location"].

Definition server_of (publisher : PublisherType) (e : option Endpoint) (w : W) : bytes :=
  match e with Some e => GetServerName publisher (ep_Ip e) w | None => [] end.

(** [ev] is [m] with its endpoints [src] and [dst] replaced by their fields. *)
Definition flattened (publisher : PublisherType) (w : W) (m ev : MapStr) : Prop :=
  let src := endpoint_of (m !! bs "src") in
  let dst := endpoint_of (m !! bs "dst") in
  (forall e, src = Some e ->
     ev !! bs "src" = None /\ ev !! bs "client_ip" = Some (MStr (ep_Ip e)) /\
     ev !! bs "client_port" = Some (MInt (ep_Port e)) /\ ev !! bs "client_proc" = Some (MStr (ep_Proc e)) /\
     ev !! bs "client_server" = Some (MStr (server_of publisher src w))) /\
  (forall e, dst = Some e ->
     ev !! bs "dst" = None /\ ev !! bs "ip" = Some (MStr (ep_Ip e)) /\
     ev !! bs "port" = Some (MInt (ep_Port e)) /\ ev !! bs "proc" = Some (MStr (ep_Proc e)) /\
     ev !! bs "server" = Some (MStr (server_of publisher dst w))) /\
  ev !! bs "count" = Some (default (MInt 1) (m !! bs "count")) /\
  ev !! bs "shipper" = Some (MStr (name publisher)) /\
  ev !! bs "tags" = (if decide (tags publisher = []) then m !! bs "tags" else Some (MStrs (tags publisher))) /\
  forall k, k ∉ src_fields ++ dst_fields ++ own_fields -> ev !! k = m !! k.

(** An event that the publisher takes without an error of its own or a panic. *)
Definition publishable (m : MapStr) : Prop :=
  (exists ts, m !! bs "timestamp" = Some (MTime ts)) /\ (exists ty, m !! bs "type" = Some (MStr ty)) /\
  (m !! bs "real_ip" = None \/ exists ip, m !! bs "real_ip" = Some (MStr ip)).

(** A duplicate: the destination runs a shipper of another name. *)
Definition ignored (publisher : PublisherType) (m : MapStr) (w : W) : Prop :=
  IgnoreOutgoing publisher = true /\
  server_of publisher (endpoint_of (m !! bs "dst")) w <> [] /\
  server_of publisher (endpoint_of (m !! bs "dst")) w <> name publisher.

Lemma locate_spec publisher event src src_server :
  (event !! bs "real_ip" = None \/ exists ip, event !! bs "real_ip" = Some (MStr ip)) ->
  exists ev, locate publisher event src src_server = Ret ev /\
    forall k, k <> bs "client_location" -> ev !! k = event !! k.
Proof.
  intros H. assert (forall loc k, k <> bs "client_location" -> add_location event loc !! k = event !! k) as Hl.
  { intros [loc|] k Hk; [|done]. cbn. destruct (_ && _); [|done]. by rewrite lookup_insert_ne. }
  unfold locate. destruct (GeoLite publisher) as [geo|]; [|by exists event].
  set (src_case := match src with Some _ => _ | None => _ end).
  assert (forall k, k <> bs "client_location" -> src_case !! k = event !! k) as Hs.
  { subst src_case. destruct src; [|done]. case_decide; [|done]. auto. }
  destruct H as [->|(ip & ->)]; [by exists src_case|].
  case_decide; [eexists; split; [done|]; auto|by exists src_case].
Qed.
Lemma EnsureCountField_other m k : k <> bs "count" -> EnsureCountField m !! k = m !! k.
Proof. intros H. unfold EnsureCountField. destruct (m !! bs "count"); [done|]. by rewrite lookup_insert_ne. Qed.

Lemma EnsureCountField_count m : EnsureCountField m !! bs "count" = Some (default (MInt 1) (m !! bs "count")).
Proof. unfold EnsureCountField. destruct (m !! bs "count") eqn:E; [by rewrite E|]. by rewrite lookup_insert_eq. Qed.

Lemma with_src_other m src srv k : k ∉ src_fields -> with_src m src srv !! k = m !! k.
Proof.
  unfold src_fields. rewrite !not_elem_of_cons. intros (? & ? & ? & ? & ? & _). destruct src as [e|]; [|done].
  unfold with_src. by rewrite lookup_delete_ne, !lookup_insert_ne by congruence.
Qed.

Lemma with_dst_other m dst srv k : k ∉ dst_fields -> with_dst m dst srv !! k = m !! k.
Proof.
  unfold dst_fields. rewrite !not_elem_of_cons. intros (? & ? & ? & ? & ? & _). destruct dst as [e|]; [|done].
  unfold with_dst. by rewrite lookup_delete_ne, !lookup_insert_ne by congruence.
Qed.

Lemma with_src_fields m e srv :
  let ev := with_src m (Some e) srv in
  ev !! bs "src" = None /\ ev !! bs "client_ip" = Some (MStr (ep_Ip e)) /\
  ev !! bs "client_port" = Some (MInt (ep_Port e)) /\ ev !! bs "client_proc" = Some (MStr (ep_Proc e)) /\
  ev !! bs "client_server" = Some (MStr srv).
Proof. cbn zeta. unfold with_src. rewrite lookup_delete_eq. split; [done|]. rewrite !lookup_delete_ne by done. by map_lookups. Qed.

Lemma with_dst_fields m e srv :
  let ev := with_dst m (Some e) srv in
  ev !! bs "dst" = None /\ ev !! bs "ip" = Some (MStr (ep_Ip e)) /\
  ev !! bs "port" = Some (MInt (ep_Port e)) /\ ev !! bs "proc" = Some (MStr (ep_Proc e)) /\
  ev !! bs "server" = Some (MStr srv).
Proof. cbn zeta. unfold with_dst. rewrite lookup_delete_eq. split; [done|]. rewrite !lookup_delete_ne by done. by map_lookups. Qed.

#[local] Ltac notin := by apply (bool_decide_unpack _).

Lemma outgoing_spec publisher m w :
  (m !! bs "real_ip" = None \/ exists ip, m !! bs "real_ip" = Some (MStr ip)) -> ~ ignored publisher m w ->
  exists ev, outgoing publisher (EnsureCountField m) w = Ret (Some ev) /\ flattened publisher w m ev.
Proof.
  intros Hr Hi. unfold outgoing. rewrite EnsureCountField_other by done.
  set (src := endpoint_of (m !! bs "src")). fold (server_of publisher src w). set (src_server := server_of publisher src w).
  set (ev1 := with_src _ _ _). assert (ev1 !! bs "dst" = m !! bs "dst") as Ed.
  { subst ev1. rewrite with_src_other by notin. by apply EnsureCountField_other. }
  rewrite Ed. set (dst := endpoint_of (m !! bs "dst")). fold (server_of publisher dst w).
  set (dst_server := server_of publisher dst w). set (ev2 := with_dst _ _ _).
  destruct (_ && _ && _) eqn:Ei.
  { exfalso. apply Hi. rewrite !andb_true_iff, !bool_decide_eq_true in Ei. unfold ignored. tauto. }
  set (ev3 := <[bs "shipper" := _]> ev2). set (ev4 := if decide (len (tags publisher) > 0) then _ else _).
  assert (forall k, k <> bs "shipper" -> k <> bs "tags" -> ev4 !! k = ev2 !! k) as H4.
  { intros k H1 H2. subst ev4 ev3. clear Ei. case_decide; by rewrite !lookup_insert_ne. }
  assert (forall k, k ∉ src_fields ++ dst_fields -> ev2 !! k = EnsureCountField m !! k) as H2.
  { intros k [Hs Hd]%not_elem_of_app. subst ev2 ev1. by rewrite with_dst_other, with_src_other. }
  destruct (locate_spec publisher ev4 src src_server) as (ev & -> & H5).
  { rewrite H4, H2, EnsureCountField_other by (done || notin). exact Hr. }
  exists ev. split; [done|]. unfold flattened. fold src dst src_server dst_server.
  assert (forall k, k ∉ [bs "shipper"; bs "tags"; bs "client_location"] -> ev !! k = ev2 !! k) as H.
  { intros k. rewrite !not_elem_of_cons. intros (? & ? & ? & _). by rewrite H5, H4. }
  repeat apply conj.
  - intros e Es. rewrite !H by notin. subst ev2. rewrite !with_dst_other by notin. subst ev1. rewrite Es.
    apply with_src_fields.
  - intros e Es. rewrite !H by notin. subst ev2. rewrite Es. apply with_dst_fields.
  - rewrite H, H2 by notin. apply EnsureCountField_count.
  - rewrite H5 by done. subst ev4 ev3. clear Ei. case_decide; by map_lookups.
  - rewrite H5 by done. subst ev4. unfold len. destruct (tags publisher) as [|t ts].
    + rewrite decide_False by done. rewrite decide_True by done. subst ev3. rewrite lookup_insert_ne by done.
      rewrite H2, EnsureCountField_other by (done || notin). done.
    + rewrite decide_True by (cbn; lia). rewrite decide_False by done. by rewrite lookup_insert_eq.
  - intros k Hk. pose proof Hk as [Hs [Hd Ho]%not_elem_of_app]%not_elem_of_app.
    unfold own_fields in Ho. rewrite !not_elem_of_cons in Ho. destruct Ho as (? & ? & ? & ? & _).
    rewrite H by (rewrite !not_elem_of_cons; repeat split; try done; apply not_elem_of_nil).
    rewrite H2 by (by apply not_elem_of_app). by apply EnsureCountField_other.
Qed.

Lemma outgoing_ignored publisher m w : ignored publisher m w -> outgoing publisher (EnsureCountField m) w = Ret None.
Proof.
  intros (Hi & He & Hn). unfold outgoing. rewrite (EnsureCountField_other m (bs "src")) by done.
  set (ev1 := with_src _ _ _). assert (ev1 !! bs "dst" = m !! bs "dst") as ->.
  { subst ev1. rewrite with_src_other by notin. by apply EnsureCountField_other. }
  unfold server_of in He, Hn. by rewrite Hi, !bool_decide_true.
Qed.

(** Only an output can fail, and nothing panics. *)
Lemma publishEvent_ok publisher m w :
  publishable m -> exists err w', publishEvent publisher (Some m) w = (Ret err, w') /\ (err = None \/ err = Some FailToPublish).
Proof.
  intros ((ts & Hts) & (ty & Ht) & Hr). unfold publishEvent. cbn [default]. unfold default, id. rewrite Hts.
  rewrite EnsureCountField_other, Ht by done. assert (Decision (ignored publisher m w)) as Hd by (unfold ignored; apply _).
  destruct (decide (ignored publisher m w)) as [Hi|Hi]; [rewrite outgoing_ignored by done; eauto|].
  destruct (outgoing_spec publisher m w Hr Hi) as (ev & -> & _). destruct (if disabled publisher then _ else _) as [[] w']; eauto.
Qed.

(** The outputs of a list get the event one after the other, each exactly once and from the
    world that the one before it left; [errs] is what they return. *)
Inductive each_publishes (ts : Z) (event : MapStr) : list OutputInterface -> W -> list (option bytes) -> W -> Prop :=
| publishes_none w : each_publishes ts event [] w [] w
| publishes_next output outputs w err w1 errs w2 :
    PublishEvent output ts event w = (err, w1) -> each_publishes ts event outputs w1 errs w2 ->
    each_publishes ts event (output :: outputs) w (err :: errs) w2.

Lemma to_outputs_each ts event outputs has_error w :
  exists errs w', each_publishes ts event outputs w errs w' /\
    to_outputs outputs ts event has_error w = (has_error || bool_decide (Exists (fun err => err <> None) errs), w').
Proof.
  revert has_error w. induction outputs as [|output outputs IH]; intros has_error w; cbn [to_outputs].
  { exists [], w. split; [constructor|]. rewrite bool_decide_false, orb_false_r; [done|]. by intros ?%Exists_nil. }
  destruct (PublishEvent output ts event w) as [err w1] eqn:E.
  destruct (IH (has_error || bool_decide (err <> None)) w1) as (errs & w' & Hs & ->).
  exists (err :: errs), w'. split; [by eapply publishes_next|]. f_equal. rewrite <- orb_assoc. f_equal.
  apply eq_bool_prop_intro. rewrite orb_True, !bool_decide_spec. by rewrite Exists_cons.
Qed.

(** C28: an event with a timestamp and a type is never refused.  Unless it is a duplicate,
    each output gets exactly once, one after the other and with the time of the event, one and
    the same map: that of the event with its endpoints replaced by the fields of the client and
    of the server and with the shipper's name, tags and count; no output when the publisher is
    disabled.  A duplicate goes to no output; and what is reported is the failure of an
    output, if one of them failed. *)
Theorem publishEvent_correct publisher m ts w :
  publishable m -> m !! bs "timestamp" = Some (MTime ts) ->
  (ignored publisher m w -> publishEvent publisher (Some m) w = (Ret None, w)) /\
  (~ ignored publisher m w -> exists ev errs w', flattened publisher w m ev /\
     each_publishes ts ev (if disabled publisher then [] else Output publisher) w errs w' /\
     publishEvent publisher (Some m) w =
       (Ret (if decide (Exists (fun err => err <> None) errs) then Some FailToPublish else None), w')).
Proof.
  intros (_ & (ty & Ht) & Hr) Hts. unfold publishEvent. cbn [default]. unfold default, id. rewrite Hts.
  rewrite EnsureCountField_other, Ht by done. split.
  - intros Hi. by rewrite outgoing_ignored.
  - intros Hi. destruct (outgoing_spec publisher m w Hr Hi) as (ev & -> & Hev).
    destruct (to_outputs_each ts ev (if disabled publisher then [] else Output publisher) false w) as (errs & w' & Hs & E).
    exists ev, errs, w'. split; [exact Hev|]. split; [exact Hs|].
    assert ((if disabled publisher then (false, w) else to_outputs (Output publisher) ts ev false w) =
      (bool_decide (Exists (fun err => err <> None) errs), w')) as -> by (cbn [orb] in E; rewrite <- E; by destruct (disabled publisher)).
    by destruct (decide (Exists (fun err => err <> None) errs)) as [H|H]; [rewrite bool_decide_true|rewrite bool_decide_false].
Qed.

(** Among shippers of different names that ignore outgoing transactions and share a
    topology, a transaction whose server's address is registered there (and is not a
    loopback address) is published by exactly one: the one on the server's host. *)
Theorem published_by_one_shipper (publishers : list PublisherType) m w dst ip :
  let server := fun publisher => match TopologyOutput publisher with
                                 | Some output => GetNameByIP output (ep_Ip dst) w
                                 | None => []
                                 end in
  m !! bs "dst" = Some (MEndpoint dst) -> ParseIP (ep_Ip dst) = Some ip -> IsLoopback ip = false ->
  NoDup (map name publishers) -> Forall (fun p => IgnoreOutgoing p = true) publishers ->
  forall n, n <> [] -> n ∈ map name publishers -> Forall (fun p => server p = n) publishers ->
  exists p, p ∈ publishers /\ name p = n /\ forall q, q ∈ publishers -> ~ ignored q m w <-> q = p.
Proof.
  intros server Hm Hp Hl Hnd Hig n Hn Hin Hs.
  apply list_elem_of_fmap in Hin as (p & -> & Hin). exists p. split; [done|]. split; [done|]. intros q Hq.
  rewrite Forall_forall in Hig, Hs. specialize (Hig q Hq). specialize (Hs q Hq).
  unfold ignored, server_of. rewrite Hm. cbn [endpoint_of]. unfold GetServerName, IsLoopbackStr. rewrite Hp. cbn. rewrite Hl.
  change (match TopologyOutput q with Some output => GetNameByIP output (ep_Ip dst) w | None => [] end) with (server q).
  rewrite Hs, Hig. split.
  - intros H. destruct (decide (name p = name q)) as [E|E]; [|tauto].
    apply list_elem_of_lookup in Hin as (i & Hi), Hq as (j & Hj).
    assert (i = j) as ->; [|congruence].
    apply (NoDup_lookup _ i j (name p) Hnd); rewrite list_lookup_fmap; [by rewrite Hi|rewrite Hj; cbn; congruence].
  - intros ->. tauto.
Qed.

(** The outputs that are enabled, and those of them that keep the topology. *)
Definition enabled (plugins : list (OutputInterface * option MothershipConfig)) : list OutputInterface :=
  omap (fun x => match snd x with Some c => if Enabled c then Some (fst x) else None | None => None end) plugins.
Definition saving (plugins : list (OutputInterface * option MothershipConfig)) : list OutputInterface :=
  omap (fun x => match snd x with
                 | Some c => if Enabled c && Save_topology c then Some (fst x) else None
                 | None => None
                 end) plugins.

Lemma init_outputs_spec plugins expire p w p' w' :
  disabled p = false -> init_outputs plugins expire p w = (None, (p', w')) ->
  Output p' = Output p ++ enabled plugins /\ disabled p' = false /\ IgnoreOutgoing p' = IgnoreOutgoing p /\
  match TopologyOutput p with
  | Some o => saving plugins = [] /\ TopologyOutput p' = Some o
  | None => saving plugins = option_list (TopologyOutput p')
  end.
Proof.
  revert p w. induction plugins as [|[plugin [c|]] plugins IH]; intros p w Hd; cbn.
  - intros [= <- <-]. rewrite app_nil_r. repeat split; [done|]. by destruct (TopologyOutput p).
  - rewrite Hd. unfold enabled, saving. cbn. fold (enabled plugins) (saving plugins).
    destruct (Enabled c); cbn [andb negb].
    + destruct (out_Init plugin c expire w) as [[err|] w1]; [done|]. destruct (Save_topology c).
      * change (TopologyOutput (p <| Output := ?x |>)) with (TopologyOutput p).
        destruct (TopologyOutput p) as [o|]; [done|]. intros H.
        apply IH in H as (Ho & Hd' & Hi & Hs & Ht); [|done]. cbn in *. rewrite Ho, Ht, Hs, <- app_assoc. done.
      * intros H. apply IH in H as (Ho & Hd' & Hi & Hs); [|done]. cbn in *. rewrite Ho, <- app_assoc. done.
    + intros H. by apply IH in H.
  - intros H. by apply IH in H.
Qed.

(** An initialisation that succeeds leaves the enabled outputs, of which there is one at
    least and at most one that keeps the topology, with the shipper's name or else the
    host's, and an empty queue; two outputs that keep the topology are refused. *)
Theorem Init_correct p plugins shipper geo hostname addrs w p' w' :
  Output p = [] -> TopologyOutput p = None ->
  Init p false plugins shipper geo hostname addrs w = (Ret None, (p', w')) ->
  Output p' = enabled plugins /\ enabled plugins <> [] /\ saving plugins = option_list (TopologyOutput p') /\
  Some (name p') = (if decide (sh_Name shipper = []) then hostname else Some (sh_Name shipper)) /\
  tags p' = sh_Tags shipper /\ IgnoreOutgoing p' = sh_Ignore_outgoing shipper /\ Queue p' = [].
Proof.
  intros Ho Ht. unfold Init. set (p0 := p <| IgnoreOutgoing := _ |> <| disabled := _ |> <| GeoLite := _ |>).
  destruct (init_outputs plugins _ p0 w) as [[err|] [p1 w1]] eqn:E; [done|].
  apply init_outputs_spec in E as (Eo & Ed & Hi & Es); [|done]. change (Output p0) with (Output p) in Eo. rewrite Ho in Eo.
  change (TopologyOutput p0) with (TopologyOutput p) in Es. rewrite Ht in Es. cbn [app] in Eo. rewrite Ed. cbn [negb andb].
  case_bool_decide as En; [done|]. rewrite Eo in En.
  change (name (p1 <| name := sh_Name shipper |>)) with (sh_Name shipper).
  assert ((if decide (len (sh_Name shipper) = 0) then hostname else Some (sh_Name shipper)) =
          (if decide (sh_Name shipper = []) then hostname else Some (sh_Name shipper))) as ->.
  { destruct (sh_Name shipper); [done|]. by rewrite !decide_False. }
  destruct (if decide _ then _ else _) as [n|] eqn:Enm; [|done].
  set (p2 := p1 <| name := _ |> <| name := n |> <| tags := _ |>).
  intros H. enough (exists freq, p' = p2 <| RefreshTopologyTimer := freq |> <| Queue := [] |>) as (freq & ->) by done.
  destruct (_ && _) in H.
  - case_decide; [done|]. destruct (PublishTopology _ _ _ _) as [[?|] ?]; [done|]. injection H as <- _. eauto.
  - injection H as <- _. by exists (RefreshTopologyTimer p2).
Qed.
End Outputs.
Arguments OutputInterface W : clear implicits.
Arguments PublisherType W : clear implicits.

(** * Examples *)

(** An output that keeps what it gets, and knows one shipper by its address. *)
Definition log_output (shipper ip : bytes) : OutputInterface (list (Z * MapStr)) := {|
  out_Init := fun _ _ w => (None, w);
  PublishIPs := fun _ _ w => (None, w);
  GetNameByIP := fun s _ => if decide (s = ip) then shipper else [];
  PublishEvent := fun ts ev w => (None, w ++ [(ts, ev)])
|}.

Definition demo_endpoint (ip : bytes) (port : Z) : Endpoint := mkEndpoint ip port [].
Definition demo_event : MapStr :=
  {[ bs "timestamp" := MTime 1000; bs "type" := MStr (bs "redis");
     bs "src" := MEndpoint (demo_endpoint (bs "10.0.0.1") 40000);
     bs "dst" := MEndpoint (demo_endpoint (bs "10.0.0.2") 6379) ]}.

Definition no_publisher : PublisherType (list (Z * MapStr)) :=
  {| name := []; tags := []; disabled := false; Output := []; TopologyOutput := None; IgnoreOutgoing := false;
     GeoLite := None; RefreshTopologyTimer := None; Queue := [] |}.
Definition demo_publisher (n : bytes) : PublisherType (list (Z * MapStr)) :=
  no_publisher <| name := n |> <| Output := [log_output (bs "db1") (bs "10.0.0.2")] |>
               <| TopologyOutput := Some (log_output (bs "db1") (bs "10.0.0.2")) |> <| IgnoreOutgoing := true |>.

Lemma demo_lookups :
  demo_event !! bs "timestamp" = Some (MTime 1000) /\ demo_event !! bs "type" = Some (MStr (bs "redis")) /\
  endpoint_of (demo_event !! bs "src") = Some (demo_endpoint (bs "10.0.0.1") 40000) /\
  endpoint_of (demo_event !! bs "dst") = Some (demo_endpoint (bs "10.0.0.2") 6379) /\
  demo_event !! bs "real_ip" = None.
Proof. by vm_compute. Qed.

(** An output that fails with what it gets, and one after it. *)
Definition failing_output : OutputInterface (list (Z * MapStr)) :=
  {| out_Init := fun _ _ w => (None, w); PublishIPs := fun _ _ w => (None, w); GetNameByIP := fun _ _ => [];
     PublishEvent := fun ts ev w => (Some (bs "no"), w ++ [(- ts, ev)]) |}.
Definition two_outputs : PublisherType (list (Z * MapStr)) :=
  demo_publisher (bs "db1") <| Output := [failing_output; log_output (bs "db1") (bs "10.0.0.2")] |>.

Example publishEvent_correct_witness :
  exists ev, ev !! bs "client_ip" = Some (MStr (bs "10.0.0.1")) /\ ev !! bs "ip" = Some (MStr (bs "10.0.0.2")) /\
    publishEvent two_outputs (Some demo_event) [] = (Ret (Some FailToPublish), [(- 1000, ev); (1000, ev)]).
Proof.
  destruct demo_lookups as (Ht & Hy & Hs & Hd & Hr).
  assert (publishable demo_event) as Hp.
  { split; [by exists 1000|]. split; [by exists (bs "redis")|]. by left. }
  assert (~ ignored two_outputs demo_event []) as Hi.
  { intros (_ & _ & Hn). apply Hn. rewrite Hd. vm_compute. reflexivity. }
  pose proof (proj2 (publishEvent_correct two_outputs demo_event 1000 [] Hp Ht) Hi) as (ev & errs & w' & (Fs & Fd & _) & He & E).
  exists ev. split; [exact (proj1 (proj2 (Fs _ Hs)))|]. split; [exact (proj1 (proj2 (Fd _ Hd)))|]. rewrite E.
  inversion He as [|o os w0 err1 w1 errs1 w2 E1 H1]; subst. injection E1 as <- <-.
  inversion H1 as [|o os w0 err2 w3 errs2 w4 E2 H2]; subst. injection E2 as <- <-. inversion H2; subst.
  rewrite decide_True by (by left). reflexivity.
Defined.

Example published_by_one_shipper_witness :
  exists p, p ∈ [demo_publisher (bs "web1"); demo_publisher (bs "db1")] /\ name p = bs "db1" /\
    forall q, q ∈ [demo_publisher (bs "web1"); demo_publisher (bs "db1")] -> ~ ignored q demo_event [] <-> q = p.
Proof.
  apply (published_by_one_shipper _ demo_event [] (demo_endpoint (bs "10.0.0.2") 6379) (v4InV6Prefix ++ map to_byte [10; 0; 0; 2]));
    [reflexivity|reflexivity|reflexivity|apply (bool_decide_unpack _); reflexivity|by repeat constructor|done
    |apply (bool_decide_unpack _); reflexivity|by repeat constructor].
Defined.

Definition demo_shipper : ShipperConfig :=
  {| sh_Name := bs "web1"; sh_Refresh_topology_freq := 0; sh_Ignore_outgoing := true; sh_Topology_expire := 15; sh_Tags := [] |}.

Definition demo_init : outcome (option init_error) * (PublisherType (list (Z * MapStr)) * list (Z * MapStr)) :=
  Init no_publisher false [(log_output [] [], Some {| Enabled := true; Save_topology := true |})] demo_shipper
    None None (Some []) [].

Example Init_correct_witness : fst demo_init = Ret None /\ name (fst (snd demo_init)) = bs "web1".
Proof.
  assert (fst demo_init = Ret None) as E by (vm_compute; reflexivity). split; [exact E|].
  destruct (Init_correct no_publisher [(log_output [] [], Some {| Enabled := true; Save_topology := true |})] demo_shipper
    None None (Some []) [] (fst (snd demo_init)) (snd (snd demo_init)) eq_refl eq_refl) as (_ & _ & _ & Hn & _).
  - rewrite <- E. unfold demo_init. by destruct (Init _ _ _ _ _ _ _ _) as [? [? ?]].
  - change (Some (name (fst (snd demo_init))) = Some (bs "web1")) in Hn. congruence.
Defined.
