(* ===== verification/Procs.v ===== *)
(** The process watcher (src/procs/procs.go): which local process owns a port, from
    /proc/net/tcp and the descriptors of the monitored processes. *)
From S2P Require Export Protos GoUrl GoNet.
From stdpp Require Import list.
#[local] Open Scope Z_scope.

(** * path/filepath *)

(** [filepath.Clean] on Unix: [stack] holds the elements kept, the last one first. *)
Fixpoint clean_elems (rooted : bool) (elems stack : list bytes) : list bytes :=
  match elems with
  | [] => rev stack
  | e :: elems =>
      if decide (e = [] \/ e = bs ".") then clean_elems rooted elems stack
      else if decide (e = bs "..") then
        match stack with
        | top :: rest =>
            if decide (top = bs "..") then clean_elems rooted elems (e :: stack) else clean_elems rooted elems rest
        | [] => clean_elems rooted elems (if rooted then [] else [e])
        end
      else clean_elems rooted elems (e :: stack)
  end.
Definition Clean (path : bytes) : bytes :=
  let rooted := has_prefix (bs "/") path in
  match (if rooted then bs "/" else []) ++ GoStd.Join (clean_elems rooted (Split path "/"%byte) []) (bs "/") with
  | [] => bs "."
  | p => p
  end.
Fixpoint path_Join (elem : list bytes) : bytes :=
  match elem with
  | [] => []
  | [] :: elem => path_Join elem
  | _ => Clean (GoStd.Join elem (bs "/"))
  end.

(** * The files that are read *)

(** A file system at one moment: [None] is an error. [Contents] is what can be read from
    an open file, and whether reading ends with an error instead of the end of file. *)
Record FileSystem := {
  Open : bytes -> bool;
  Readdirnames : bytes -> option (list bytes);
  ReadFile : bytes -> option bytes;
  Readlink : bytes -> option bytes;
  Contents : bytes -> bytes * bool
}.

Inductive dir_error := OpenError | ReaddirnamesError.
Definition read_dir (fs : FileSystem) (dirname : bytes) : list bytes + dir_error :=
  if Open fs dirname then
    match Readdirnames fs dirname with Some names => inl names | None => inr ReaddirnamesError end
  else inr OpenError.

(** * Data *)

Record SocketInfo := {
  Src_ip : Z; Dst_ip : Z; Src_port : Z; Dst_port : Z; Uid : Z; Inode : Z
}.

(** A [*Process] is its position in [Processes], to which only [Init] adds. *)
Record PortProcMapping := { pm_Port : Z; pm_Pid : Z; pm_Proc : nat }.

Record Process := { p_Name : bytes; p_Grepper : bytes; p_Pids : list Z }.
#[export] Instance eta_Process : Settable Process := fun r =>
  {| p_Name := p_Name r; p_Grepper := p_Grepper r; p_Pids := p_Pids r |}.

Record ProcessesWatcher := {
  PortProcMap : gmap Z PortProcMapping;
  LastMapUpdate : Z;
  Processes : list Process;
  LocalAddrs : list bytes;
  ReadFromProc : bool;
  MaxReadFreq : Z;
  RefreshPidsFreq : Z;
  proc_prefix : bytes
}.
#[export] Instance eta_ProcessesWatcher : Settable ProcessesWatcher := fun r =>
  {| PortProcMap := PortProcMap r; LastMapUpdate := LastMapUpdate r; Processes := Processes r; LocalAddrs := LocalAddrs r;
     ReadFromProc := ReadFromProc r; MaxReadFreq := MaxReadFreq r; RefreshPidsFreq := RefreshPidsFreq r;
     proc_prefix := proc_prefix r |}.

Record ProcConfig := { pc_Process : bytes; pc_Cmdline_grep : bytes }.
Record ProcsConfig := {
  cf_Enabled : bool; cf_Max_proc_read_freq : Z; cf_Monitored : list ProcConfig; cf_Refresh_pids_freq : Z
}.

(** * Initialisation *)

Definition Millisecond : Z := 1000000.

Definition NewProcess (name grepper : bytes) : Process := {| p_Name := name; p_Grepper := grepper; p_Pids := [] |}.

(** The monitored processes; [time.Tick] panics on a period that is not positive. *)
Fixpoint add_processes (monitored : list ProcConfig) (freq : Z) (processes : list Process) : outcome unit * list Process :=
  match monitored with
  | [] => (Ret tt, processes)
  | procConfig :: monitored =>
      let grepper := if decide (len (pc_Cmdline_grep procConfig) = 0) then pc_Process procConfig
                     else pc_Cmdline_grep procConfig in
      if decide (freq <= 0) then (Panic, processes)
      else add_processes monitored freq (processes ++ [NewProcess (pc_Process procConfig) grepper])
  end.

(** [Init]; [linux] is [runtime.GOOS == "linux"]. *)
Definition Init (proc : ProcessesWatcher) (config : ProcsConfig) (now : Z) (linux : bool)
    (InterfaceAddrs : option (list bytes)) : outcome unit * ProcessesWatcher :=
  let freq ms default := if decide (ms = 0) then default else int64_of (int64_of ms * Millisecond) in
  let proc := proc <| proc_prefix := [] |> <| PortProcMap := ∅ |> <| LastMapUpdate := now |>
                   <| ReadFromProc := cf_Enabled config && linux |>
                   <| MaxReadFreq := freq (cf_Max_proc_read_freq config) (10 * Millisecond) |>
                   <| RefreshPidsFreq := freq (cf_Refresh_pids_freq config) (1000 * Millisecond) |>
                   <| LocalAddrs := default [] (LocalIpAddrs InterfaceAddrs) |> in
  if ReadFromProc proc then
    let '(r, processes) := add_processes (cf_Monitored config) (RefreshPidsFreq proc) (Processes proc) in
    (r, proc <| Processes := processes |>)
  else (Ret tt, proc).

(** * Finding the processes *)

Definition FindPidsByCmdlineGrep (fs : FileSystem) (prefix process : bytes) : list Z * option dir_error :=
  match read_dir fs (path_Join [prefix; bs "/proc"]) with
  | inr err => ([], Some err)
  | inl names =>
      (omap (fun name =>
         match Atoi name with
         | (pid, None) =>
             match ReadFile fs (path_Join [prefix; bs "/proc/"; name; bs "cmdline"]) with
             | Some cmdline => if decide (Index cmdline process >= 0) then Some pid else None
             | None => None
             end
         | _ => None
         end) names, None)
  end.

(** A tick of the timer of process [i]: one turn of the goroutine [RefreshPids], which takes
    the result whether or not there is an error. *)
Definition RefreshPids (fs : FileSystem) (proc : ProcessesWatcher) (i : nat) : ProcessesWatcher :=
  proc <| Processes := alter (fun p => p <| p_Pids := fst (FindPidsByCmdlineGrep fs (proc_prefix proc) (p_Grepper p)) |>)
                         i (Processes proc) |>.

(** * Sockets *)

Definition hex_to_ip_port (str : bytes) : option (Z * Z) :=
  match Split str ":"%byte with
  | w0 :: w1 :: _ =>
      match ParseInt w0 16 64, ParseInt w1 16 32 with
      | (ip, None), (port, None) => Some (uint32_of ip, uint16_of port)
      | _, _ => None
      end
  | _ => None
  end.

(** One line of /proc/net/tcp: [None] for a line that is left out. *)
Definition parse_socket (line : bytes) : option SocketInfo :=
  let words := map vis (Fields (mkSlice line [])) in
  match words with
  | w0 :: w1 :: w2 :: w3 :: w4 :: w5 :: w6 :: w7 :: w8 :: w9 :: _ =>
      if decide (w0 = bs "sl") then None
      else
        match hex_to_ip_port w1 with
        | None => None
        | Some (src_ip, src_port) =>
            match hex_to_ip_port w2 with
            | None => None
            | Some (dst_ip, dst_port) =>
                Some {| Src_ip := src_ip; Dst_ip := dst_ip; Src_port := src_port; Dst_port := dst_port;
                        Uid := uint16_of (fst (Atoi w7)); Inode := fst (Atoi w9) |}
            end
        end
  | _ => None
  end.

(** The lines that [ReadBytes] gives: all but the last one end in a newline; the last one,
    which may be empty, comes with the end of file. *)
Fixpoint read_lines (input : bytes) : list bytes :=
  match input with
  | [] => [[]]
  | b :: input =>
      if Byte.eqb b x0a then [b] :: read_lines input
      else match read_lines input with
           | line :: lines => (b :: line) :: lines
           | [] => [[b]]
           end
  end.

(** [Parse_Proc_Net_Tcp]: an error of the reader gives no sockets. *)
Definition Parse_Proc_Net_Tcp (input : bytes * bool) : option (list SocketInfo) :=
  let '(content, fails) := input in
  if fails then None else Some (omap parse_socket (read_lines content)).

(** The inode of a descriptor: a link "socket:[" with nothing after it is sliced out of
    range. *)
Definition socket_inode (link : bytes) : outcome (option Z) :=
  if has_prefix (bs "socket:[") link then
    let! text := str_slice link 8 (len link - 1) in
    match ParseInt text 10 64 with
    | (inode, None) => Ret (Some inode)
    | _ => Ret None
    end
  else Ret None.

Fixpoint socket_inodes (fs : FileSystem) (dirname : bytes) (names : list bytes) (inodes : list Z) : outcome (list Z) :=
  match names with
  | [] => Ret inodes
  | name :: names =>
      match Readlink fs (path_Join [dirname; name]) with
      | None => socket_inodes fs dirname names inodes
      | Some link =>
          let! inode := socket_inode link in
          socket_inodes fs dirname names (inodes ++ option_list inode)
      end
  end.

Definition FindSocketsOfPid (fs : FileSystem) (prefix : bytes) (pid : Z) : outcome (list Z + dir_error) :=
  let dirname := path_Join [prefix; bs "/proc"; Itoa pid; bs "fd"] in
  match read_dir fs dirname with
  | inr err => Ret (inr err)
  | inl names => let! inodes := socket_inodes fs dirname names [] in Ret (inl inodes)
  end.

(** * The map of ports *)

Definition UpdateMappingEntry (m : gmap Z PortProcMapping) (port pid : Z) (p : nat) : gmap Z PortProcMapping :=
  <[port := {| pm_Port := port; pm_Pid := pid; pm_Proc := p |}]> m.

Definition socks_map (socks : list SocketInfo) : gmap Z SocketInfo :=
  fold_left (fun m s => <[Inode s := s]> m) socks ∅.

Section Update.
Context (fs : FileSystem) (prefix : bytes) (socks : gmap Z SocketInfo).

Definition update_inodes (p : nat) (pid : Z) (m : gmap Z PortProcMapping) (inodes : list Z) : gmap Z PortProcMapping :=
  fold_left (fun m inode =>
    match socks !! inode with
    | Some sockInfo => UpdateMappingEntry m (Src_port sockInfo) pid p
    | None => m
    end) inodes m.

(** The loops over the pids of a process and over the processes; a panic keeps the entries
    made before it. *)
Fixpoint update_pids (p : nat) (pids : list Z) (m : gmap Z PortProcMapping) : outcome unit * gmap Z PortProcMapping :=
  match pids with
  | [] => (Ret tt, m)
  | pid :: pids =>
      match FindSocketsOfPid fs prefix pid with
      | Ret (inl inodes) => update_pids p pids (update_inodes p pid m inodes)
      | Ret (inr _) => update_pids p pids m
      | Panic => (Panic, m)
      | OutOfFuel => (OutOfFuel, m)
      end
  end.

Fixpoint update_processes (p : nat) (processes : list Process) (m : gmap Z PortProcMapping)
    : outcome unit * gmap Z PortProcMapping :=
  match processes with
  | [] => (Ret tt, m)
  | process :: processes =>
      match update_pids p (p_Pids process) m with
      | (Ret _, m) => update_processes (S p) processes m
      | r => r
      end
  end.
End Update.

(** [UpdateMap]; /proc/net/tcp is read without the prefix. *)
Definition UpdateMap (fs : FileSystem) (proc : ProcessesWatcher) : outcome unit * ProcessesWatcher :=
  if Open fs (bs "/proc/net/tcp") then
    match Parse_Proc_Net_Tcp (Contents fs (bs "/proc/net/tcp")) with
    | None => (Ret tt, proc)
    | Some socks =>
        let '(r, m) := update_processes fs (proc_prefix proc) (socks_map socks) 0 (Processes proc) (PortProcMap proc) in
        (r, proc <| PortProcMap := m |>)
    end
  else (Ret tt, proc).

(** * Lookups *)

(** [p.Proc.Name] of an entry; a missing process is a nil dereference. *)
Definition proc_name (proc : ProcessesWatcher) (p : PortProcMapping) : outcome bytes :=
  match Processes proc !! pm_Proc p with Some process => Ret (p_Name process) | None => Panic end.

(** [FindProc] at the time [now]; a panic ends here, with the empty name. *)
Definition FindProc (fs : FileSystem) (now : Z) (proc : ProcessesWatcher) (port : Z) : bytes * ProcessesWatcher :=
  let recovered o := match o with Ret name => name | _ => [] end in
  match PortProcMap proc !! port with
  | Some p => (recovered (proc_name proc p), proc)
  | None =>
      if decide (time_Sub now (LastMapUpdate proc) > MaxReadFreq proc) then
        match UpdateMap fs (proc <| LastMapUpdate := now |>) with
        | (Ret _, proc) =>
            match PortProcMap proc !! port with
            | Some p => (recovered (proc_name proc p), proc)
            | None => ([], proc)
            end
        | (_, proc) => ([], proc)
        end
      else ([], proc)
  end.

Definition IsLocalIp (proc : ProcessesWatcher) (ip : bytes) : bool :=
  IsLoopback ip || existsb (fun addr => IP_Equal ip addr) (LocalAddrs proc).

(** The outside world as a watcher meets it: the clock and the files at each moment. *)
Class Environment := { clock : nat -> Z; files : nat -> FileSystem }.

Section Watcher.
Context {EV : Environment}.

(** A watcher and the number of moments that passed: a lookup takes one. *)
Abbreviation World := (ProcessesWatcher * nat)%type.

Definition find_at (port : Z) (w : World) : bytes * World :=
  let '(proc, t) := w in
  let '(name, proc) := FindProc (files t) (clock t) proc port in
  (name, (proc, S t)).

Definition FindProcessesTuple (tuple : IpPortTuple) (w : World) : CmdlineTuple * World :=
  if negb (ReadFromProc (fst w)) then ({| ct_Src := []; ct_Dst := [] |}, w)
  else
    let '(src, w) := if IsLocalIp (fst w) (it_Src_ip tuple) then find_at (it_Src_port tuple) w else ([], w) in
    let '(dst, w) := if IsLocalIp (fst w) (it_Dst_ip tuple) then find_at (it_Dst_port tuple) w else ([], w) in
    ({| ct_Src := src; ct_Dst := dst |}, w).

(** The interface through which the protocol plugins use the watcher. *)
#[export] Instance watcher : ProcWatcher World := FindProcessesTuple.
End Watcher.

(** * The socket table, as the kernel writes it *)

(** A number in [k] upper-case hexadecimal digits ("%08X", "%04X"). *)
Definition hex_char (n : Z) : byte := nth (Z.to_nat n) (bs "0123456789ABCDEF") "0"%byte.
Fixpoint hex_pad (k : nat) (n : Z) : bytes :=
  match k with O => [] | S k => hex_pad k (n / 16) ++ [hex_char (n mod 16)] end.

Definition graphic_byte (b : byte) : Prop := bool_decide (33 <= u8 b < 127) = true.

Lemma hex_char_spec n : 0 <= n < 16 ->
  digit_val (hex_char n) = Some n /\ graphic_byte (hex_char n) /\
  hex_char n <> "-"%byte /\ hex_char n <> "+"%byte /\ hex_char n <> ":"%byte /\ hex_char n <> x0a.
Proof.
  intros H. assert (n ∈ map Z.of_nat (seq 0 16)) as Hin.
  { apply list_elem_of_In, in_map_iff. exists (Z.to_nat n). split; [lia|]. apply in_seq. lia. }
  clear H. revert n Hin. apply Forall_forall. repeat (apply List.Forall_cons; [by repeat split|]). constructor.
Qed.

Lemma hex_pad_Forall (P : byte -> Prop) k n : (forall d, 0 <= d < 16 -> P (hex_char d)) -> Forall P (hex_pad k n).
Proof.
  intros HP. revert n. induction k as [|k IH]; intros n; cbn; [constructor|].
  apply Forall_app. split; [apply IH|]. constructor; [|constructor]. apply HP. apply Z.mod_pos_bound. lia.
Qed.

Lemma length_hex_pad k n : length (hex_pad k n) = k.
Proof. revert n. induction k as [|k IH]; intros n; cbn; [done|]. rewrite length_app, IH. cbn. lia. Qed.

Lemma parse_hex_pad k n acc maxVal s :
  0 <= n < 16 ^ Z.of_nat k -> 0 <= acc -> acc * 16 ^ Z.of_nat k + n <= maxVal ->
  parse_digits 16 maxVal acc (hex_pad k n ++ s) = parse_digits 16 maxVal (acc * 16 ^ Z.of_nat k + n) s.
Proof.
  revert n s. induction k as [|k IH]; intros n s Hn Ha Hm.
  - cbn in *. f_equal. lia.
  - rewrite Nat2Z.inj_succ, Z.pow_succ_r in * by lia. cbn [hex_pad]. rewrite <- app_assoc.
    pose proof (Z.mod_pos_bound n 16 eq_refl) as Hb. pose proof (Z.div_mod n 16 ltac:(lia)) as Ed.
    assert (0 <= n / 16 < 16 ^ Z.of_nat k) by (split; [apply Z.div_pos; lia|apply Z.div_lt_upper_bound; lia]).
    rewrite IH by nia. cbn [app parse_digits]. rewrite (proj1 (hex_char_spec _ Hb)).
    rewrite !decide_False by nia. f_equal. nia.
Qed.

Lemma ParseInt_hex_pad k n w :
  0 < w -> 0 <= n < 16 ^ Z.of_nat (S k) -> n < 2 ^ (w - 1) -> ParseInt (hex_pad (S k) n) 16 w = (n, None).
Proof.
  intros Hw Hn Hm. pose proof (hex_pad_Forall (fun c => c <> "-"%byte /\ c <> "+"%byte) (S k) n) as Hf.
  pose proof (length_hex_pad (S k) n) as Hl. pose proof (parse_hex_pad (S k) n 0 (2 ^ w - 1) [] Hn ltac:(lia)) as Hp.
  assert (2 ^ w = 2 * 2 ^ (w - 1)) as E2 by (rewrite <- Z.pow_succ_r by lia; f_equal; lia).
  rewrite app_nil_r in Hp. destruct (hex_pad (S k) n) as [|c s] eqn:E; [done|]. unfold ParseInt.
  assert (c <> "-"%byte /\ c <> "+"%byte) as [H1 H2].
  { assert (Forall (fun c => c <> "-"%byte /\ c <> "+"%byte) (c :: s)) as H; [|by inversion H].
    apply Hf. intros d Hd. by destruct (hex_char_spec d Hd) as (_ & _ & ? & ? & _). }
  destruct (Byte.eqb c "-") eqn:Em; [by apply beqb_eq in Em|]. destruct (Byte.eqb c "+") eqn:Ep; [by apply beqb_eq in Ep|].
  cbn [orb negb andb]. unfold ParseUint. rewrite Hp by lia. cbn [parse_digits]. rewrite bool_decide_eq_false_2 by lia. done.
Qed.

Lemma Split_two a b c : Forall (fun x => x <> c) a -> Forall (fun x => x <> c) b -> Split (a ++ c :: b) c = [a; b].
Proof.
  assert (forall l, Forall (fun x => x <> c) l -> Split l c = [l]) as Hone.
  { induction 1 as [|x l Hx _ IH]; [done|]. cbn. destruct (Byte.eqb x c) eqn:E; [by apply beqb_eq in E|]. by rewrite IH. }
  intros Ha Hb. induction Ha as [|x a Hx _ IH]; cbn.
  - rewrite beqb_refl. by rewrite Hone.
  - destruct (Byte.eqb x c) eqn:E; [by apply beqb_eq in E|]. by rewrite IH.
Qed.

(** An address as the table shows it: "%08X:%04X". *)
Definition hex_addr (a : Z * Z) : bytes := hex_pad 8 (fst a) ++ ":"%byte :: hex_pad 4 (snd a).
Definition addr_ok (a : Z * Z) : Prop := 0 <= fst a < 2 ^ 32 /\ 0 <= snd a < 2 ^ 16.

Lemma hex_addr_parsed a : addr_ok a -> hex_to_ip_port (hex_addr a) = Some a.
Proof.
  intros [H1 H2]. unfold hex_to_ip_port, hex_addr.
  rewrite Split_two by (apply hex_pad_Forall; intros d Hd; by destruct (hex_char_spec d Hd) as (_ & _ & _ & _ & ? & _)).
  rewrite (ParseInt_hex_pad 7), (ParseInt_hex_pad 3) by (cbn; lia).
  rewrite !wrapU_small by done. by destruct a.
Qed.

Lemma graphic_forallb w : w <> [] -> Forall graphic_byte w -> graphic w.
Proof. intros Hne H. split; [done|]. clear Hne. induction H as [|b w Hb _ IH]; [done|]. cbn. by rewrite Hb. Qed.

Lemma hex_addr_graphic a : graphic (hex_addr a).
Proof.
  apply graphic_forallb; [unfold hex_addr; intros E; by apply app_eq_nil in E as [_ ?]|].
  unfold hex_addr. apply Forall_app. split; [|constructor; [done|]];
    apply hex_pad_Forall; intros d Hd; by destruct (hex_char_spec d Hd) as (_ & ? & _).
Qed.

Lemma Itoa_graphic n : 0 <= n -> graphic (Itoa n).
Proof.
  intros Hn. apply graphic_forallb.
  - unfold Itoa. rewrite decide_False by lia. unfold utoa. destruct (utoa_go_cons (S (Z.to_nat (Z.log2 n))) n [] ltac:(lia)) as (m & r & ->). done.
  - unfold Itoa. rewrite decide_False by lia. unfold utoa. generalize (S (Z.to_nat (Z.log2 n))) as f. clear Hn. intros f.
    assert (Forall graphic_byte []) as Hacc by constructor. revert Hacc. generalize (@nil byte) as acc.
    revert n. induction f as [|f IH]; intros n acc Hacc; cbn; [done|].
    assert (graphic_byte (digit n)) as Hd.
    { unfold graphic_byte, digit. pose proof (Z.mod_pos_bound n 10 eq_refl). apply bool_decide_eq_true. rewrite u8_to_byte, Z.mod_small; lia. }
    case_decide; [by constructor|]. apply IH. by constructor.
Qed.

(** ** The table *)

(** An entry: the numbers that are read, and the words that are not. *)
Record entry := {
  e_sl : bytes; e_local : Z * Z; e_rem : Z * Z; e_st : bytes; e_queues : bytes; e_timer : bytes; e_retrnsmt : bytes;
  e_uid : Z; e_timeout : bytes; e_inode : Z; e_more : list bytes
}.
Definition entry_words (e : entry) : list bytes :=
  [e_sl e; hex_addr (e_local e); hex_addr (e_rem e); e_st e; e_queues e; e_timer e; e_retrnsmt e;
   Itoa (e_uid e); e_timeout e; Itoa (e_inode e)] ++ e_more e.
Definition entry_ok (e : entry) : Prop :=
  addr_ok (e_local e) /\ addr_ok (e_rem e) /\ 0 <= e_uid e < 2 ^ 63 /\ 0 <= e_inode e < 2 ^ 63 /\ e_sl e <> bs "sl" /\
  Forall graphic ([e_sl e; e_st e; e_queues e; e_timer e; e_retrnsmt e; e_timeout e] ++ e_more e).

(** A line: its words after gaps of any width, trailing spaces and a newline. *)
Record line := { l_entry : entry; l_first : nat; l_gaps : list nat; l_pad : nat }.
Definition line_ok (l : line) : Prop :=
  entry_ok (l_entry l) /\ length (l_gaps l) = length (tl (entry_words (l_entry l))).
Definition line_body (l : line) : bytes :=
  spaced (combine (l_first l :: map S (l_gaps l)) (entry_words (l_entry l))) ++ replicate (l_pad l) " "%byte.

Definition table_header : bytes :=
  bs "  sl  local_address rem_address   st tx_queue rx_queue tr tm->when retrnsmt   uid  timeout inode".
Definition table (lines : list line) : bytes :=
  concat (map (fun l => l ++ [x0a]) (table_header :: map line_body lines)).

Definition socket_of (e : entry) : SocketInfo :=
  {| Src_ip := fst (e_local e); Src_port := snd (e_local e); Dst_ip := fst (e_rem e); Dst_port := snd (e_rem e);
     Uid := uint16_of (e_uid e); Inode := e_inode e |}.

Lemma entry_graphic e : entry_ok e -> Forall graphic (entry_words e).
Proof.
  intros (_ & _ & Hu & Hi & _ & Hg). unfold entry_words. rewrite Forall_app, !Forall_cons in Hg. rewrite Forall_app, !Forall_cons.
  destruct Hg as ((? & ? & ? & ? & ? & ? & _) & ?).
  repeat match goal with |- _ /\ _ => split end; try assumption; try apply hex_addr_graphic; try (apply Itoa_graphic; lia); constructor.
Qed.

Lemma line_parsed l : line_ok l -> parse_socket (line_body l ++ [x0a]) = Some (socket_of (l_entry l)).
Proof.
  intros [He Hl]. pose proof (entry_graphic _ He) as Hg. unfold parse_socket.
  set (gaps := l_first l :: map S (l_gaps l)).
  assert (length gaps = length (entry_words (l_entry l))) as Hlen by (subst gaps; cbn; by rewrite length_map, Hl).
  rewrite (Fields_spaced _ (combine gaps (entry_words (l_entry l))) (replicate (l_pad l) " "%byte ++ [x0a])).
  - assert (map snd (combine gaps (entry_words (l_entry l))) = entry_words (l_entry l)) as ->.
    { revert Hlen. generalize (entry_words (l_entry l)), gaps. clear. induction l as [|w ws IH]; intros [|g gs]; cbn; try done.
      intros [= H]. by rewrite IH. }
    destruct He as (Ha & Hb & Hu & Hi & Hs & _). unfold entry_words. cbn [app]. rewrite decide_False by done.
    rewrite !hex_addr_parsed by done. destruct (e_local (l_entry l)) as [i1 p1] eqn:E1, (e_rem (l_entry l)) as [i2 p2] eqn:E2.
    unfold Atoi. rewrite !ParseInt_Itoa by done. unfold socket_of. by rewrite E1, E2.
  - cbn [vis]. unfold line_body. fold gaps. by rewrite <- app_assoc.
  - apply Forall_forall. intros [g w] Hin%list_elem_of_In%in_combine_r. rewrite Forall_forall in Hg. apply Hg. by apply list_elem_of_In.
  - subst gaps. cbn [entry_words app combine tl]. apply Forall_forall. intros [g w] Hin%list_elem_of_In%in_combine_l.
    apply in_map_iff in Hin as (k & <- & _). cbn. lia.
  - apply Forall_app. split; [apply blanks|]. constructor; [by right|constructor].
Qed.

Definition no_newline (l : bytes) : Prop := Forall (fun b => b <> x0a) l.

Lemma read_lines_app l rest : no_newline l -> read_lines (l ++ x0a :: rest) = (l ++ [x0a]) :: read_lines rest.
Proof.
  induction 1 as [|b l Hb _ IH]; [done|]. cbn [app read_lines]. rewrite IH.
  destruct (Byte.eqb b x0a) eqn:E; [by apply beqb_eq in E|]. done.
Qed.

Lemma read_lines_concat lines :
  Forall no_newline lines -> read_lines (concat (map (fun l => l ++ [x0a]) lines)) = map (fun l => l ++ [x0a]) lines ++ [[]].
Proof.
  induction 1 as [|l lines Hl _ IH]; [done|]. cbn [map concat app]. rewrite <- app_assoc. cbn [app].
  by rewrite read_lines_app, IH.
Qed.

Lemma line_no_newline l : line_ok l -> no_newline (line_body l).
Proof.
  intros [He _]. pose proof (entry_graphic _ He) as Hg. unfold line_body, no_newline. apply Forall_app. split.
  - unfold spaced. apply Forall_concat, Forall_forall. intros t (x & <- & Hx)%list_elem_of_In%in_map_iff.
    destruct x as [g w]. apply in_combine_r, list_elem_of_In in Hx. rewrite Forall_forall in Hg. destruct (Hg w Hx) as [_ Hw].
    apply Forall_app. split; [by apply Forall_replicate|]. apply Forall_forall. intros b Hb ->.
    rewrite forallb_forall in Hw. by specialize (Hw x0a ltac:(by apply list_elem_of_In)).
  - by apply Forall_replicate.
Qed.

(** C29: the table that the kernel prints for any sockets, with its header, its columns and
    its padding, is read back as exactly those sockets, in order, but for the user
    number, which is cut to 16 bits. *)
Theorem proc_net_tcp_roundtrip lines :
  Forall line_ok lines -> Parse_Proc_Net_Tcp (table lines, false) = Some (map (fun l => socket_of (l_entry l)) lines).
Proof.
  intros H. unfold Parse_Proc_Net_Tcp, table. rewrite read_lines_concat.
  2: { constructor; [by apply (bool_decide_unpack _)|]. induction H; [constructor|]. constructor; [by apply line_no_newline|done]. }
  f_equal. cbn [map app omap list_omap]. assert (parse_socket (table_header ++ [x0a]) = None) as -> by reflexivity.
  induction H as [|l lines Hl _ IH]; [done|]. cbn [map app]. cbn [omap list_omap]. rewrite line_parsed by done. f_equal. exact IH.
Qed.

(** * The map of ports after an update *)

(** [P q p pid]: process [p], by its pid [pid], is found to own port [q].  The map [m'] has
    an owner for every port that has one, and is [m] on the others. *)
Definition updated (P : Z -> nat -> Z -> Prop) (m m' : gmap Z PortProcMapping) : Prop :=
  forall q, (exists p pid, P q p pid /\ m' !! q = Some {| pm_Port := q; pm_Pid := pid; pm_Proc := p |}) \/
            ((forall p pid, ~ P q p pid) /\ m' !! q = m !! q).

Lemma updated_none m : updated (fun _ _ _ => False) m m.
Proof. intros q. right. split; [|done]. by intros ? ? ?. Qed.

Lemma updated_ext P Q m m' : (forall q p pid, P q p pid <-> Q q p pid) -> updated P m m' -> updated Q m m'.
Proof.
  intros H Hu q. destruct (Hu q) as [(p & pid & Hp & E)|[Hn E]].
  - left. exists p, pid. split; [by apply H|done].
  - right. split; [|done]. intros p pid Hq. by apply (Hn p pid), H.
Qed.

Lemma updated_trans P Q m m1 m2 :
  updated P m m1 -> updated Q m1 m2 -> updated (fun q p pid => P q p pid \/ Q q p pid) m m2.
Proof.
  intros H1 H2 q. destruct (H2 q) as [(p & pid & Hq & E)|[Hn E]]; [left; by exists p, pid; auto|].
  destruct (H1 q) as [(p & pid & Hp & E')|[Hn' E']].
  - left. exists p, pid. split; [by left|congruence].
  - right. split; [|congruence]. intros p pid [?|?]; [by apply (Hn' p pid)|by apply (Hn p pid)].
Qed.

Section Owners.
Context (fs : FileSystem) (prefix : bytes) (socks : gmap Z SocketInfo).

(** The pid [pid] holds a socket that listens on, or is connected from, port [q]. *)
Definition holds (pid q : Z) : Prop :=
  exists inodes inode s, FindSocketsOfPid fs prefix pid = Ret (inl inodes) /\ inode ∈ inodes /\
    socks !! inode = Some s /\ Src_port s = q.

Lemma update_inodes_spec p pid m inodes :
  updated (fun q p' pid' => p' = p /\ pid' = pid /\ exists inode s, inode ∈ inodes /\ socks !! inode = Some s /\ Src_port s = q)
          m (update_inodes socks p pid m inodes).
Proof.
  revert m. induction inodes as [|inode inodes IH]; intros m.
  - eapply updated_ext; [|apply updated_none]. intros q p' pid'. split; [done|]. by intros (_ & _ & ? & ? & ?%elem_of_nil & _).
  - cbn. eapply updated_ext; [|eapply updated_trans; [|apply IH]].
    2: { instantiate (1 := fun q p' pid' => p' = p /\ pid' = pid /\ exists s, socks !! inode = Some s /\ Src_port s = q).
         destruct (socks !! inode) as [s|] eqn:E; intros q.
         - destruct (decide (Src_port s = q)) as [<-|Hne].
           + left. exists p, pid. unfold UpdateMappingEntry. rewrite lookup_insert_eq. eauto 10.
           + right. unfold UpdateMappingEntry. rewrite lookup_insert_ne by done. split; [|done].
             intros ? ? (_ & _ & s' & [= <-] & ?). done.
         - right. split; [|done]. by intros ? ? (_ & _ & s' & ? & _). }
    intros q p' pid'. setoid_rewrite elem_of_cons. split; [naive_solver|]. intros (-> & -> & i & s & [->|?] & ? & ?); naive_solver.
Qed.

Lemma update_pids_spec p pids m m' :
  update_pids fs prefix socks p pids m = (Ret tt, m') ->
  updated (fun q p' pid => p' = p /\ pid ∈ pids /\ holds pid q) m m'.
Proof.
  revert m. induction pids as [|pid pids IH]; intros m; cbn.
  - intros [= <-]. eapply updated_ext; [|apply updated_none]. intros q p' pid'. split; [done|].
    by intros (_ & ?%elem_of_nil & _).
  - destruct (FindSocketsOfPid fs prefix pid) as [[inodes|err]| |] eqn:E; try done; intros H; apply IH in H.
    + eapply updated_ext; [|eapply updated_trans; [apply update_inodes_spec|exact H]]. intros q p' pid'. cbn beta.
      rewrite elem_of_cons. unfold holds. split.
      * intros [(-> & -> & i & s & ? & ? & ?)|?]; [|naive_solver]. split; [done|]. split; [by left|]. by exists inodes, i, s.
      * intros (-> & [->|?] & Hh); [|by right]. left. destruct Hh as (l & i & s & El & ? & ? & ?). rewrite E in El.
        injection El as ->. eauto 10.
    + eapply updated_ext; [|exact H]. intros q p' pid'. cbn beta. rewrite elem_of_cons. split; [naive_solver|].
      intros (-> & [->|?] & Hh); [|done]. destruct Hh as (? & ? & ? & El & _). congruence.
Qed.

(** Process [p] owns port [q] by its pid [pid]; the processes are numbered from [n]. *)
Definition owns (n : nat) (processes : list Process) (q : Z) (p : nat) (pid : Z) : Prop :=
  exists k process, p = (n + k)%nat /\ processes !! k = Some process /\ pid ∈ p_Pids process /\ holds pid q.

Lemma update_processes_spec n processes m m' :
  update_processes fs prefix socks n processes m = (Ret tt, m') -> updated (owns n processes) m m'.
Proof.
  revert n m. induction processes as [|process processes IH]; intros n m; cbn [update_processes].
  - intros [= <-]. eapply updated_ext; [|apply updated_none]. intros q p pid. split; [done|]. by intros (? & ? & _ & ? & _).
  - destruct (update_pids fs prefix socks n (p_Pids process) m) as [[[]| |] m1] eqn:E; try done. intros H.
    apply IH in H. apply update_pids_spec in E. eapply updated_ext; [|eapply updated_trans; [exact E|exact H]].
    intros q p pid. cbn beta. unfold owns. split.
    + intros [(-> & ? & ?)|(k & pr & -> & ? & ? & ?)]; [exists 0%nat, process; split; [lia|done]|].
      exists (S k), pr. split; [lia|done].
    + intros ([|k] & pr & -> & Hk & ? & ?); cbn in Hk; [injection Hk as ->; left; split; [lia|done]|].
      right. exists k, pr. split; [lia|done].
Qed.

(** No panic when every link to a socket has its inode, as the kernel writes them. *)
Definition links_ok : Prop := forall path link, Readlink fs path = Some link -> link <> bs "socket:[".

Lemma socket_inode_ok link : link <> bs "socket:[" -> exists r, socket_inode link = Ret r.
Proof.
  intros Hne. unfold socket_inode. destruct (has_prefix (bs "socket:[") link) eqn:E; [|eauto].
  apply has_prefix_spec in E as (t & ->). destruct t as [|b t]; [by rewrite app_nil_r in Hne|].
  unfold str_slice. rewrite decide_True by (rewrite len_app; change (len (bs "socket:[")) with 8; len_lia).
  cbn [obind]. destruct (ParseInt _ _ _) as [? [?|]]; eauto.
Qed.

Lemma FindSocketsOfPid_ok pid : links_ok -> exists r, FindSocketsOfPid fs prefix pid = Ret r.
Proof.
  intros Hl. unfold FindSocketsOfPid. destruct (read_dir _ _) as [names|err]; [|eauto].
  enough (forall l, exists r, socket_inodes fs (path_Join [prefix; bs "/proc"; Itoa pid; bs "fd"]) names l = Ret r) as H.
  { destruct (H []) as [r ->]. cbn. eauto. }
  induction names as [|name names IH]; intros l; cbn [socket_inodes]; [eauto|].
  destruct (Readlink fs _) as [link|] eqn:E; [|apply IH].
  destruct (socket_inode_ok link (Hl _ _ E)) as [r ->]. apply IH.
Qed.

Lemma update_processes_ok n processes m : links_ok -> exists m', update_processes fs prefix socks n processes m = (Ret tt, m').
Proof.
  intros Hl. assert (forall p pids m, exists m', update_pids fs prefix socks p pids m = (Ret tt, m')) as Hp.
  { intros p pids. induction pids as [|pid pids IH]; intros m0; cbn; [eauto|].
    destruct (FindSocketsOfPid_ok pid Hl) as [[?|?] ->]; apply IH. }
  revert n m. induction processes as [|process processes IH]; intros n m; cbn [update_processes]; [eauto|].
  destruct (Hp n (p_Pids process) m) as [m1 ->]. apply IH.
Qed.
End Owners.

(** The sockets of a moment. *)
Definition sockets_at (fs : FileSystem) : option (list SocketInfo) :=
  if Open fs (bs "/proc/net/tcp") then Parse_Proc_Net_Tcp (Contents fs (bs "/proc/net/tcp")) else None.

Definition owner (fs : FileSystem) (proc : ProcessesWatcher) (port : Z) (p : nat) (pid : Z) : Prop :=
  exists socks, sockets_at fs = Some socks /\
    owns fs (proc_prefix proc) (socks_map socks) 0 (Processes proc) port p pid.

(** The entries are filed under their port and name a monitored process. *)
Definition watcher_ok (proc : ProcessesWatcher) : Prop :=
  map_Forall (fun port e => pm_Port e = port /\ (pm_Proc e < length (Processes proc))%nat) (PortProcMap proc).

Lemma UpdateMap_spec fs proc :
  links_ok fs ->
  exists m, UpdateMap fs proc = (Ret tt, proc <| PortProcMap := m |>) /\ updated (owner fs proc) (PortProcMap proc) m.
Proof.
  intros Hl. unfold UpdateMap. assert (forall R, (forall q p pid, ~ R q p pid) ->
    updated R (PortProcMap proc) (PortProcMap proc)) as Hnone.
  { intros R HR q. right. split; [apply HR|done]. }
  assert (proc = proc <| PortProcMap := PortProcMap proc |>) as Eself by by destruct proc.
  destruct (Open fs (bs "/proc/net/tcp")) eqn:Eo.
  - destruct (Parse_Proc_Net_Tcp (Contents fs (bs "/proc/net/tcp"))) as [socks|] eqn:Ep.
    + destruct (update_processes_ok fs (proc_prefix proc) (socks_map socks) 0 (Processes proc) (PortProcMap proc) Hl) as [m Em].
      rewrite Em. exists m. split; [done|]. apply update_processes_spec in Em. eapply updated_ext; [|exact Em].
      intros q p pid. unfold owner, sockets_at. rewrite Eo, Ep. split; [by exists socks|]. by intros (? & [= <-] & ?).
    + exists (PortProcMap proc). split; [by rewrite <- Eself|]. apply Hnone. intros q p pid (? & E & _).
      unfold sockets_at in E. rewrite Eo, Ep in E. done.
  - exists (PortProcMap proc). split; [by rewrite <- Eself|]. apply Hnone. intros q p pid (? & E & _).
    unfold sockets_at in E. by rewrite Eo in E.
Qed.

(** On a port that the map knows, a lookup gives the name of its process without looking
    at the system again.  On another port it reads the system, if it did not within
    [MaxReadFreq], and then gives the name of a process that owns the port if there is
    one; otherwise no name.  It changes nothing but the map and the time of the update. *)
Theorem FindProc_correct fs now proc port name proc' :
  links_ok fs -> watcher_ok proc -> FindProc fs now proc port = (name, proc') ->
  match PortProcMap proc !! port with
  | Some e => proc' = proc /\ p_Name <$> (Processes proc !! pm_Proc e) = Some name
  | None =>
      if decide (time_Sub now (LastMapUpdate proc) > MaxReadFreq proc) then
        proc' = proc <| LastMapUpdate := now |> <| PortProcMap := PortProcMap proc' |> /\
        updated (owner fs proc) (PortProcMap proc) (PortProcMap proc') /\
        ((exists p pid process, owner fs proc port p pid /\ Processes proc !! p = Some process /\ name = p_Name process) \/
         (forall p pid, ~ owner fs proc port p pid) /\ name = [])
      else name = [] /\ proc' = proc
  end.
Proof.
  intros Hl Hok E. unfold FindProc in E. destruct (PortProcMap proc !! port) as [e|] eqn:Ep.
  - injection E as <- <-. split; [done|]. destruct (Hok _ _ Ep) as [_ Hlt].
    apply lookup_lt_is_Some_2 in Hlt as [process Hp]. unfold proc_name. by rewrite Hp.
  - case_decide; [|by injection E as <- <-]. set (proc1 := proc <| LastMapUpdate := now |>) in *.
    destruct (UpdateMap_spec fs proc1 Hl) as (m & Em & Hu). rewrite Em in E.
    change (owner fs proc1) with (owner fs proc) in Hu. change (PortProcMap proc1) with (PortProcMap proc) in Hu.
    change (PortProcMap (proc1 <| PortProcMap := m |>)) with m in E.
    destruct (Hu port) as [(p & pid & Ho & Hm)|[Hn Hm]].
    + rewrite Hm in E. injection E as <- <-. split; [done|]. split; [done|]. left.
      assert (exists process, Processes proc !! p = Some process) as [process Hp].
      { destruct Ho as (? & _ & k & process & -> & Hk & _). by exists process. }
      exists p, pid, process. split; [done|]. split; [done|]. unfold proc_name. cbn. by rewrite Hp.
    + rewrite Hm, Ep in E. injection E as <- <-. split; [done|]. split; [done|]. by right.
Qed.

(** * Any interleaving of lookups and refreshes *)

Section Runs.
Context {EV : Environment}.
Abbreviation World := (ProcessesWatcher * nat)%type.

(** A packet is looked up, or the timer of a process ticks. *)
Inductive action := Lookup (tuple : IpPortTuple) | Tick (i : nat).
Definition exec (w : World) (a : action) : World :=
  match a with
  | Lookup tuple => snd (FindProcessesTuple tuple w)
  | Tick i => (RefreshPids (files (snd w)) (fst w) i, S (snd w))
  end.

Definition names (proc : ProcessesWatcher) : list bytes := map p_Name (Processes proc).

(** What the watcher keeps: its entries in order and its configuration. *)
Definition keeps (proc proc' : ProcessesWatcher) : Prop :=
  (watcher_ok proc -> watcher_ok proc') /\ names proc' = names proc /\ LocalAddrs proc' = LocalAddrs proc /\
  ReadFromProc proc' = ReadFromProc proc /\ MaxReadFreq proc' = MaxReadFreq proc.

#[local] Instance keeps_preorder : PreOrder keeps.
Proof.
  split; [intros p; unfold keeps; tauto|]. intros p q r (Hp & ? & ? & ? & ?) (Hq & ? & ? & ? & ?).
  unfold keeps. split; [auto|]. repeat split; congruence.
Qed.

Lemma update_processes_entries fs prefix socks n N processes m :
  (n + length processes <= N)%nat ->
  map_Forall (fun port e => pm_Port e = port /\ (pm_Proc e < N)%nat) m ->
  map_Forall (fun port e => pm_Port e = port /\ (pm_Proc e < N)%nat) (snd (update_processes fs prefix socks n processes m)).
Proof.
  set (good := map_Forall _). assert (forall p pid l m, (p < N)%nat -> good m -> good (update_inodes socks p pid m l)) as Hi.
  { intros p pid l. induction l as [|i l IH]; intros m0 Hp Hm; [done|]. cbn. apply IH; [done|].
    destruct (socks !! i); [|done]. by apply map_Forall_insert_2. }
  assert (forall p pids m, (p < N)%nat -> good m -> good (snd (update_pids fs prefix socks p pids m))) as Hp.
  { intros p pids. induction pids as [|pid pids IH]; intros m0 Hp Hm; [done|]. cbn.
    destruct (FindSocketsOfPid fs prefix pid) as [[?|?]| |]; try done; apply IH; auto. }
  revert n m. induction processes as [|process processes IH]; intros n m Hn Hm; [done|]. cbn in Hn |- *.
  pose proof (Hp n (p_Pids process) m ltac:(lia) Hm) as H1.
  destruct (update_pids _ _ _ _ _ _) as [[?| |] m1]; [apply IH; [lia|done]|done|done].
Qed.

Lemma UpdateMap_keeps fs proc : keeps proc (snd (UpdateMap fs proc)).
Proof.
  unfold UpdateMap. destruct (Open _ _); [|reflexivity]. destruct (Parse_Proc_Net_Tcp _); [|reflexivity].
  destruct (update_processes _ _ _ _ _ _) as [r m] eqn:E. split; [|done]. intros Hok. unfold watcher_ok. cbn.
  apply (f_equal snd) in E. cbn in E. rewrite <- E. by apply update_processes_entries.
Qed.

Lemma FindProc_keeps fs now proc port :
  keeps proc (snd (FindProc fs now proc port)) /\
  (fst (FindProc fs now proc port) = [] \/ fst (FindProc fs now proc port) ∈ names proc).
Proof.
  assert (forall q e, names q = names proc -> match proc_name q e with Ret name => name | _ => [] end = [] \/
    match proc_name q e with Ret name => name | _ => [] end ∈ names proc) as Hn.
  { intros q e Eq. unfold proc_name. destruct (Processes q !! pm_Proc e) as [p|] eqn:E; [|by left]. right. rewrite <- Eq.
    apply list_elem_of_fmap. exists p. split; [done|]. by eapply list_elem_of_lookup_2. }
  unfold FindProc. destruct (PortProcMap proc !! port) as [e|]; [split; [reflexivity|by apply Hn]|].
  case_decide; [|split; [reflexivity|by left]].
  pose proof (UpdateMap_keeps fs (proc <| LastMapUpdate := now |>)) as Hk.
  assert (keeps proc (proc <| LastMapUpdate := now |>)) as H1 by done.
  destruct (UpdateMap fs _) as [[?| |] proc1]; cbn in Hk; try (split; [by etrans|by left]).
  destruct (PortProcMap proc1 !! port); [|split; [by etrans|by left]]. split; [by etrans|]. apply Hn.
  destruct Hk as (_ & -> & _). done.
Qed.

Lemma find_at_keeps port (w : World) :
  keeps (fst w) (fst (snd (find_at port w))) /\ (fst (find_at port w) = [] \/ fst (find_at port w) ∈ names (fst w)).
Proof.
  destruct w as [proc t]. unfold find_at. pose proof (FindProc_keeps (files t) (clock t) proc port) as H.
  by destruct (FindProc _ _ _ _).
Qed.

(** The name found for an end of a connection. *)
Definition name_ok (proc : ProcessesWatcher) (ip name : bytes) : Prop :=
  name = [] \/ ReadFromProc proc = true /\ IsLocalIp proc ip = true /\ name ∈ names proc.

Lemma FindProcessesTuple_keeps tuple (w : World) :
  keeps (fst w) (fst (snd (FindProcessesTuple tuple w))) /\
  name_ok (fst w) (it_Src_ip tuple) (ct_Src (fst (FindProcessesTuple tuple w))) /\
  name_ok (fst w) (it_Dst_ip tuple) (ct_Dst (fst (FindProcessesTuple tuple w))).
Proof.
  unfold FindProcessesTuple, name_ok. destruct (ReadFromProc (fst w)) eqn:Er; cbn [negb]; [|split; [reflexivity|by split; left]].
  assert (forall ip port v, exists x, (if IsLocalIp (fst v) ip then find_at port v else ([], v)) = x /\ keeps (fst v) (fst (snd x)) /\
    (fst x = [] \/ IsLocalIp (fst v) ip = true /\ fst x ∈ names (fst v))) as H.
  { intros ip port v. eexists. split; [done|]. destruct (IsLocalIp (fst v) ip) eqn:El; [|split; [reflexivity|by left]].
    destruct (find_at_keeps port v) as [? [?|?]]; (split; [done|]); [by left|by right]. }
  destruct (H (it_Src_ip tuple) (it_Src_port tuple) w) as ([src w1] & -> & H1 & Hs).
  destruct (H (it_Dst_ip tuple) (it_Dst_port tuple) w1) as ([dst w2] & -> & H2 & Hd). cbn [fst snd ct_Src ct_Dst] in *.
  split; [by etrans|]. destruct H1 as (_ & E1 & E2 & _). unfold IsLocalIp in *. rewrite E1, E2 in Hd. tauto.
Qed.

Lemma Tick_keeps fs proc i : keeps proc (RefreshPids fs proc i).
Proof.
  split; [|split; [|done]].
  - intros Hok. unfold watcher_ok, RefreshPids. cbn. by rewrite length_alter.
  - unfold RefreshPids, names. cbn. change (map p_Name ?l) with (p_Name <$> l). rewrite (list_fmap_alter _ _ id) by (by apply Forall_forall). by apply list_alter_id.
Qed.

(** C30: over any interleaving of lookups and of ticks of the refresh timers, every entry of
    the map stays filed under its port and names a monitored process; a lookup
    never panics, names nothing for an address that is not local, and otherwise
    only a configured process. *)
Theorem procs_invariant acts (w : World) tuple :
  watcher_ok (fst w) ->
  let w' := fold_left exec acts w in
  watcher_ok (fst w') /\ names (fst w') = names (fst w) /\
  name_ok (fst w) (it_Src_ip tuple) (ct_Src (fst (FindProcessesTuple tuple w'))) /\
  name_ok (fst w) (it_Dst_ip tuple) (ct_Dst (fst (FindProcessesTuple tuple w'))).
Proof.
  intros Hok. cbn zeta. assert (keeps (fst w) (fst (fold_left exec acts w))) as Hk.
  { clear Hok. revert w. induction acts as [|a acts IH]; intros w; [reflexivity|]. cbn [fold_left].
    etrans; [|apply IH]. destruct a as [t|i]; [apply FindProcessesTuple_keeps|apply Tick_keeps]. }
  destruct (FindProcessesTuple_keeps tuple (fold_left exec acts w)) as (_ & H1 & H2).
  destruct Hk as (Hw & En & Ea & Er & _). unfold name_ok, IsLocalIp in *. rewrite En, Ea, Er in H1, H2. auto.
Qed.

(** * The rate of the updates *)

(** The system is read in [FindProc] when the port is unknown and the last time is long ago. *)
Definition update_time (now : Z) (proc : ProcessesWatcher) (port : Z) : list Z :=
  match PortProcMap proc !! port with
  | Some _ => []
  | None => if decide (time_Sub now (LastMapUpdate proc) > MaxReadFreq proc) then [now] else []
  end.

(** The times at which the lookups of a run read the system; [ports] are the ports looked
    up, each at its moment. *)
Fixpoint update_times (ports : list Z) (w : World) : list Z :=
  match ports with
  | [] => []
  | port :: ports => update_time (clock (snd w)) (fst w) port ++ update_times ports (snd (find_at port w))
  end.

Lemma FindProc_last fs now proc port :
  LastMapUpdate (snd (FindProc fs now proc port)) = List.last (update_time now proc port) (LastMapUpdate proc).
Proof.
  unfold FindProc, update_time. destruct (PortProcMap proc !! port); [done|]. case_decide; [|done]. cbn [List.last].
  assert (LastMapUpdate (snd (UpdateMap fs (proc <| LastMapUpdate := now |>))) = now) as E.
  { unfold UpdateMap. destruct (Open _ _); [|done]. destruct (Parse_Proc_Net_Tcp _); [|done]. by destruct (update_processes _ _ _ _ _ _). }
  destruct (UpdateMap _ _) as [[?| |] q]; cbn in E |- *; try done. by destruct (PortProcMap q !! port).
Qed.

(** Successive times of a list are more than [freq] apart. *)
Inductive spread (freq : Z) : list Z -> Prop :=
| spread_nil : spread freq []
| spread_one t : spread freq [t]
| spread_cons t u l : time_Sub u t > freq -> spread freq (u :: l) -> spread freq (t :: u :: l).

(** However often ports are looked up, the system is read at times more than
    [MaxReadFreq] apart, the time of the last update before the run included. *)
Theorem FindProc_rate ports (w : World) :
  spread (MaxReadFreq (fst w)) (LastMapUpdate (fst w) :: update_times ports w).
Proof.
  revert w. induction ports as [|port ports IH]; intros w; cbn [update_times]; [constructor|].
  assert (MaxReadFreq (fst (snd (find_at port w))) = MaxReadFreq (fst w) /\
          LastMapUpdate (fst (snd (find_at port w))) = List.last (update_time (clock (snd w)) (fst w) port) (LastMapUpdate (fst w))) as [Ef El].
  { split; [apply (find_at_keeps port w)|]. destruct w as [proc t]. cbn [find_at].
    pose proof (FindProc_last (files t) (clock t) proc port) as H. by destruct (FindProc _ _ _ _). }
  specialize (IH (snd (find_at port w))). rewrite Ef, El in IH. revert IH. unfold update_time.
  destruct (PortProcMap (fst w) !! port); [done|]. case_decide; [|done]. by constructor.
Qed.
End Runs.

(** * Examples *)

Definition demo_entry : entry :=
  {| e_sl := bs "0:"; e_local := (0x0100007F, 6379); e_rem := (0, 0); e_st := bs "0A"; e_queues := bs "00000000:00000000";
     e_timer := bs "00:00000000"; e_retrnsmt := bs "00000000"; e_uid := 1000; e_timeout := bs "0"; e_inode := 7619;
     e_more := [bs "1"; bs "ffff8800"] |}.
Definition demo_line : line :=
  {| l_entry := demo_entry; l_first := 3; l_gaps := [0; 0; 0; 0; 0; 0; 2; 8; 0; 0; 0]%nat; l_pad := 10 |}.

Example demo_line_text :
  line_body demo_line =
  bs "   0: 0100007F:18EB 00000000:0000 0A 00000000:00000000 00:00000000 00000000   1000         0 7619 1 ffff8800          ".
Proof. reflexivity. Qed.

Lemma demo_line_ok : line_ok demo_line.
Proof.
  split; [|done]. unfold entry_ok, addr_ok, graphic. cbn. repeat match goal with |- _ /\ _ => split end; try lia; try done.
  repeat (apply List.Forall_cons; [by split|]). constructor.
Qed.

Example proc_net_tcp_roundtrip_witness :
  Parse_Proc_Net_Tcp (table [demo_line], false) = Some [socket_of demo_entry].
Proof. apply (proc_net_tcp_roundtrip [demo_line]). constructor; [exact demo_line_ok|constructor]. Defined.

(** A system where process 766 listens on port 6379. *)
Definition demo_files : FileSystem := {|
  Open := fun _ => true;
  Readdirnames := fun d => if decide (d = bs "/proc") then Some [bs "1"; bs "766"; bs "net"]
                           else if decide (d = bs "/proc/766/fd") then Some [bs "0"; bs "14"] else None;
  ReadFile := fun f => if decide (f = bs "/proc/766/cmdline") then Some (bs "/usr/bin/redis-server") else Some (bs "/sbin/init");
  Readlink := fun f => if decide (f = bs "/proc/766/fd/14") then Some (bs "socket:[7619]") else Some (bs "/dev/null");
  Contents := fun _ => (table [demo_line], false)
|}.
#[export] Instance demo_environment : Environment := {| clock := fun t => Z.of_nat t * 1000000000; files := fun _ => demo_files |}.

Definition no_watcher : ProcessesWatcher :=
  {| PortProcMap := ∅; LastMapUpdate := 0; Processes := []; LocalAddrs := []; ReadFromProc := false; MaxReadFreq := 0;
     RefreshPidsFreq := 0; proc_prefix := [] |}.
Definition demo_watcher : ProcessesWatcher :=
  snd (Init no_watcher {| cf_Enabled := true; cf_Max_proc_read_freq := 0;
                          cf_Monitored := [{| pc_Process := bs "redis"; pc_Cmdline_grep := bs "redis-server" |}];
                          cf_Refresh_pids_freq := 0 |} 0 true (Some [Demo.ip 10 0 0 2])).

Example demo_lookup :
  fst (FindProcessesTuple Demo.ipport (fold_left exec [Tick 0; Tick 0] (demo_watcher, 0%nat))) =
  {| ct_Src := []; ct_Dst := bs "redis" |}.
Proof. vm_compute. reflexivity. Qed.

Lemma demo_links : links_ok demo_files.
Proof. intros path link. cbn. case_decide; by intros [= <-]. Qed.

Definition demo_ticked : ProcessesWatcher := RefreshPids demo_files demo_watcher 0.

Example FindProc_correct_witness :
  exists proc', FindProc demo_files 1000000000 demo_ticked 6379 = (bs "redis", proc') /\
    updated (owner demo_files demo_ticked) ∅ (PortProcMap proc').
Proof.
  destruct (FindProc demo_files 1000000000 demo_ticked 6379) as [name proc'] eqn:E.
  assert (name = bs "redis") as -> by (apply (f_equal fst) in E; vm_compute in E; exact (eq_sym E)).
  exists proc'. split; [done|].
  pose proof (FindProc_correct demo_files 1000000000 demo_ticked 6379 _ _ demo_links (map_Forall_empty _) E) as H.
  exact (proj1 (proj2 H)).
Defined.

Example procs_invariant_witness :
  watcher_ok (fst (fold_left exec [Tick 0; Lookup Demo.ipport; Tick 0] (demo_watcher, 0%nat))).
Proof.
  exact (proj1 (procs_invariant [Tick 0; Lookup Demo.ipport; Tick 0] (demo_watcher, 0%nat) Demo.ipport (map_Forall_empty _))).
Defined.
