(* ===== verification/Sniffer.v ===== *)
(** The sniffer (src/sniffer/sniffer.go): the choice of the capture, the size of its
    buffer, and the loop that reads the packets and hands them to the decoder.  The
    capture libraries (pcap, af_packet, pf_ring) are parameters. *)
From S2P Require Export Prelude.
From stdpp Require Import list.
#[local] Open Scope Z_scope.

(** * The buffer of af_packet *)

(** Go's [/] on [int]s: it truncates, and panics on zero. *)
Definition int_div (a b : Z) : outcome Z := if decide (b = 0) then Panic else Ret (int_of (Z.quot a b)).

(** [afpacketComputeSize]: (frame_size, block_size, num_blocks), or the error. *)
Definition afpacketComputeSize (target_size_mb snaplen page_size : Z) : outcome (option (Z * Z * Z)) :=
  let! frame_size :=
    if decide (snaplen < page_size) then
      let! per_page := int_div page_size snaplen in int_div page_size per_page
    else
      let! pages := int_div snaplen page_size in Ret (int_of (int_of (pages + 1) * page_size)) in
  let block_size := int_of (frame_size * 128) in
  let! num_blocks := int_div (int_of (target_size_mb * 1024 * 1024)) block_size in
  if decide (num_blocks = 0) then Ret None else Ret (Some (frame_size, block_size, num_blocks)).

(** * Configuration *)

Record InterfacesConfig := {
  Device : bytes;
  Devices : list bytes;
  Type_ : bytes;
  File : bytes;
  Bpf_filter : bytes;
  Snaplen : Z;
  Buffer_size_mb : Z;
  TopSpeed : bool;
  Dumpfile : bytes;
  OneAtATime : bool;
  Loop : Z
}.
#[export] Instance eta_InterfacesConfig : Settable InterfacesConfig := fun r =>
  {| Device := Device r; Devices := Devices r; Type_ := Type_ r; File := File r; Bpf_filter := Bpf_filter r;
     Snaplen := Snaplen r; Buffer_size_mb := Buffer_size_mb r; TopSpeed := TopSpeed r; Dumpfile := Dumpfile r;
     OneAtATime := OneAtATime r; Loop := Loop r |}.

(** * The capture libraries *)

(** What [ReadPacketData] gives: a packet with its time, a timeout or an interrupted call,
    the end of a file, or another error. *)
Inductive read_result := Data (data : bytes) (ts : Z) | Interrupted | EOF | ReadError (err : bytes).

(** A handle of any of the libraries is a value of [H]; an error is its text. *)
Class Capture (H : Type) := {
  OpenOffline : bytes -> H + bytes;
  OpenLive : bytes -> Z -> H + bytes;
  NewAfpacketHandle : bytes -> Z -> Z -> Z -> H + bytes;
  NewPfringHandle : bytes -> Z -> H + bytes;
  SetBPFFilter : H -> bytes -> option bytes;
  Enable : H -> option bytes;
  LinkType : H -> Z;
  ReadPacketData : H -> read_result * H;
  NewDumper : Z -> bytes -> option bytes;   (* [OpenDead] and [NewDumper] *)
  Getpagesize : Z
}.

Definition LinkTypeEthernet : Z := 1.

Inductive setup_error :=
| OpenFailed (err : bytes) | OneDevice | BufferTooSmall | FilterFailed (err : bytes) | EnableFailed (err : bytes)
| UnknownType (type_ : bytes) | DecoderFailed | DumperFailed (err : bytes) | NotAFile.

Section Sniffer.
Context {H : Type} {CP : Capture H}.

(** [SnifferSetup]: the handle of the configured type is also the data source; the dumper
    is the list of the packets written to it. *)
Record SnifferSetup := {
  config : option InterfacesConfig;
  handle : option H;
  isAlive : bool;
  dumper : option (list (bytes * Z))
}.
#[export] Instance eta_SnifferSetup : Settable SnifferSetup := fun r =>
  {| config := config r; handle := handle r; isAlive := isAlive r; dumper := dumper r |}.

(** The defaults of [setFromConfig]; the empty list of devices is not indexed, since the
    device has a default. *)
Definition defaults (config : InterfacesConfig) : outcome InterfacesConfig :=
  let config := if decide (len (File config) > 0) then config <| Type_ := bs "pcap" |> else config in
  let config := if decide (len (Device config) = 0) then config <| Device := bs "any" |> else config in
  let config := if decide (len (Devices config) = 0) then
                  if decide (len (Device config) > 0) then config <| Devices := [Device config] |> else config
                else config in
  let! config :=
    if decide (Snaplen config = 0) then
      let! device := at_ (Devices config) 0 in
      Ret (if decide (device = bs "any" \/ device = bs "lo") then config <| Snaplen := 16436 |>
           else config <| Snaplen := 1514 |>)
    else Ret config in
  Ret (if decide (Type_ config = bs "autodetect" \/ Type_ config = []) then config <| Type_ := bs "pcap" |> else config).

(** An opened handle with its filter. *)
Definition filtered (opened : H + bytes) (filter : bytes) : H + setup_error :=
  match opened with
  | inr err => inr (OpenFailed err)
  | inl h => match SetBPFFilter h filter with Some err => inr (FilterFailed err) | None => inl h end
  end.

(** The [switch] over the type of the capture: the handle, and the configuration with the
    default size of the buffer. *)
Definition open_handle (config : InterfacesConfig) : outcome (InterfacesConfig * (H + setup_error)) :=
  if decide (Type_ config = bs "pcap") then
    if decide (len (File config) > 0) then
      Ret (config, match OpenOffline (File config) with inl h => inl h | inr err => inr (OpenFailed err) end)
    else if decide (len (Devices config) > 1) then Ret (config, inr OneDevice)
    else
      let! device := at_ (Devices config) 0 in
      Ret (config, filtered (OpenLive device (int32_of (Snaplen config))) (Bpf_filter config))
  else if decide (Type_ config = bs "af_packet") then
    let config := if decide (Buffer_size_mb config = 0) then config <| Buffer_size_mb := 24 |> else config in
    if decide (len (Devices config) > 1) then Ret (config, inr OneDevice)
    else
      let! sizes := afpacketComputeSize (Buffer_size_mb config) (Snaplen config) Getpagesize in
      match sizes with
      | None => Ret (config, inr BufferTooSmall)
      | Some (frame_size, block_size, num_blocks) =>
          let! device := at_ (Devices config) 0 in
          Ret (config, filtered (NewAfpacketHandle device frame_size block_size num_blocks) (Bpf_filter config))
      end
  else if decide (Type_ config = bs "pfring") then
    if decide (len (Devices config) > 1) then Ret (config, inr OneDevice)
    else
      let! device := at_ (Devices config) 0 in
      Ret (config,
        match filtered (NewPfringHandle device (Snaplen config)) (Bpf_filter config) with
        | inl h => match Enable h with Some err => inr (EnableFailed err) | None => inl h end
        | inr err => inr err
        end)
  else Ret (config, inr (UnknownType (Type_ config))).

Definition setFromConfig (sniffer : SnifferSetup) (conf : InterfacesConfig) : outcome (SnifferSetup * option setup_error) :=
  let! conf := defaults conf in
  let! '(conf, opened) := open_handle conf in
  let sniffer := sniffer <| config := Some conf |> in
  Ret (match opened with
       | inl h => (sniffer <| handle := Some h |>, None)
       | inr err => (sniffer, Some err)
       end).

(** [Datalink]: without a configuration or a pcap handle, a nil dereference. *)
Definition Datalink (sniffer : SnifferSetup) : outcome Z :=
  match config sniffer with
  | None => Panic
  | Some config =>
      if decide (Type_ config = bs "pcap") then
        match handle sniffer with Some h => Ret (LinkType h) | None => Panic end
      else Ret LinkTypeEthernet
  end.

(** [Init]; [conf] is the configuration with the filter of the ports, and [create] tells
    whether there is a decoder for a link type ([tcp.CreateDecoder]).  The argument
    [events] of the function is not used. *)
Definition Init (create : Z -> bool) (sniffer : SnifferSetup) (test_mode : bool) (conf : InterfacesConfig)
    : outcome (SnifferSetup * option setup_error) :=
  let! '(sniffer, err) := if test_mode then Ret (sniffer, None) else setFromConfig sniffer conf in
  match err with
  | Some err => Ret (sniffer, Some err)
  | None =>
      let! link := Datalink sniffer in
      if create link then
        let dumpfile := match config sniffer with Some c => Dumpfile c | None => [] end in
        if decide (dumpfile <> []) then
          match NewDumper link dumpfile with
          | Some err => Ret (sniffer, Some (DumperFailed err))
          | None => Ret (sniffer <| dumper := Some [] |> <| isAlive := true |>, None)
          end
        else Ret (sniffer <| isAlive := true |>, None)
      else Ret (sniffer, Some DecoderFailed)
  end.

(** [Reopen]; after a failure the pcap handle is nil (the closed data source is not read
    again, since the loop ends). *)
Definition Reopen (sniffer : SnifferSetup) (conf : InterfacesConfig) : SnifferSetup * option setup_error :=
  if decide (Type_ conf <> bs "pcap" \/ File conf = []) then (sniffer, Some NotAFile)
  else
    match OpenOffline (File conf) with
    | inr err => (sniffer <| handle := None |>, Some (OpenFailed err))
    | inl h => (sniffer <| handle := Some h |>, None)
    end.

Definition Stop (sniffer : SnifferSetup) : SnifferSetup := sniffer <| isAlive := false |>.
Definition IsAlive (sniffer : SnifferSetup) : bool := isAlive sniffer.

(** * The loop *)

Inductive run_error := ReopenFailed (err : setup_error) | SniffingError (err : bytes).

(** What consumes a packet ([DecodePacketData]); [S] is the state of the layers above. *)
Context {S : Type} (DecodePacketData : bytes -> Z -> S -> outcome S).

Record Running := {
  sniffer : SnifferSetup;
  counter : Z;
  loopCount : Z;
  lastPktTime : option Z;
  ret_error : option run_error;
  layers : S
}.
#[export] Instance eta_Running : Settable Running := fun r =>
  {| sniffer := sniffer r; counter := counter r; loopCount := loopCount r; lastPktTime := lastPktTime r;
     ret_error := ret_error r; layers := layers r |}.

Definition run_init (sniffer : SnifferSetup) (layers : S) : Running :=
  {| sniffer := sniffer; counter := 0; loopCount := 1; lastPktTime := None; ret_error := None; layers := layers |}.

Definition die (r : Running) (err : option run_error) : Running :=
  r <| sniffer := Stop (sniffer r) |> <| ret_error := err |>.

(** The end of the file. *)
Definition at_eof (conf : InterfacesConfig) (r : Running) : Running :=
  let r := r <| loopCount := int_of (loopCount r + 1) |> in
  if decide (Loop conf > 0 /\ loopCount r > Loop conf) then r <| sniffer := Stop (sniffer r) |>
  else
    match Reopen (sniffer r) conf with
    | (s, Some err) => die (r <| sniffer := s |>) (Some (ReopenFailed err))
    | (s, None) => r <| sniffer := s |> <| lastPktTime := None |>
    end.

(** A packet; the time spent asleep and the output to the terminal are left out. *)
Definition at_packet (conf : InterfacesConfig) (now : Z) (data : bytes) (ts : Z) (r : Running) : outcome Running :=
  if decide (len data = 0) then Ret r
  else
    let '(r, ts) := if decide (File conf <> []) then (r <| lastPktTime := Some ts |>, now) else (r, ts) in
    let r := r <| counter := int_of (counter r + 1) |> in
    let s := sniffer r in
    let r := match dumper s with
             | Some written => r <| sniffer := s <| dumper := Some (written ++ [(data, ts)]) |> |>
             | None => r
             end in
    let! below := DecodePacketData data ts (layers r) in
    Ret (r <| layers := below |>).

(** One turn of the loop at the time [now]; [inr] when [isAlive] is false. *)
Definition run_step (now : Z) (r : Running) : outcome (Running + Running) :=
  if isAlive (sniffer r) then
    match config (sniffer r), handle (sniffer r) with
    | Some conf, Some h =>
        let '(result, h) := ReadPacketData h in
        let r := r <| sniffer := sniffer r <| handle := Some h |> |> in
        match result with
        | Interrupted => Ret (inl r)
        | EOF => Ret (inl (at_eof conf r))
        | ReadError err => Ret (inl (die r (Some (SniffingError err))))
        | Data data ts => let! r := at_packet conf now data ts r in Ret (inl r)
        end
    | _, _ => Panic
    end
  else Ret (inr r).

(** [Run]: [clock] is the time at each turn. *)
Definition Run (clock : nat -> Z) (fuel : nat) (s : SnifferSetup) (layers : S) : outcome Running :=
  loop (fun x => let! y := run_step (clock (snd x)) (fst x) in
                 Ret (match y with inl r => inl (r, Datatypes.S (snd x)) | inr r => inr r end))
       fuel (run_init s layers, 0%nat).
End Sniffer.
Arguments SnifferSetup H : clear implicits.
Arguments Running H S : clear implicits.

(** * The size of the buffer *)

Lemma int_small z : - 2 ^ 63 <= z < 2 ^ 63 -> int_of z = z.
Proof. intros H. by apply wrapS_small. Qed.

Lemma int_div_pos a b : 0 <= a < 2 ^ 63 -> 0 < b -> int_div a b = Ret (a / b).
Proof.
  intros Ha Hb. unfold int_div. rewrite decide_False by lia. rewrite Z.quot_div_nonneg by lia.
  rewrite int_small; [done|]. pose proof (Z.div_pos a b ltac:(lia) Hb). pose proof (Z.div_le_upper_bound a b a Hb ltac:(nia)). lia.
Qed.

(** The size of a frame: the parts of a page, or whole pages. *)
Definition frame_of (snaplen page_size : Z) : Z :=
  if decide (snaplen < page_size) then page_size / (page_size / snaplen) else (snaplen / page_size + 1) * page_size.

Lemma frame_of_bound snaplen page_size :
  0 < snaplen -> 0 < page_size -> snaplen <= frame_of snaplen page_size <= snaplen + page_size.
Proof.
  intros Hs Hp. unfold frame_of. case_decide as H.
  - pose proof (Z.mul_div_le page_size snaplen Hs). assert (1 <= page_size / snaplen) by (apply Z.div_le_lower_bound; lia).
    split; [apply Z.div_le_lower_bound; nia|]. assert (page_size / (page_size / snaplen) <= page_size); [|lia].
    apply Z.div_le_upper_bound; nia.
  - pose proof (Z.mul_div_le snaplen page_size Hp). pose proof (Z.mul_succ_div_gt snaplen page_size Hp). nia.
Qed.

(** The frame for packets of at most [snaplen] bytes: of packets smaller than a page, as many
    share a page as fit into it, and the frame is the largest of which a page holds as many;
    otherwise it is the next whole number of pages above [snaplen]. *)
Definition is_frame (snaplen page_size frame : Z) : Prop :=
  if decide (snaplen < page_size)
  then exists k, k * snaplen <= page_size < (k + 1) * snaplen /\ k * frame <= page_size < k * (frame + 1)
  else (page_size | frame) /\ snaplen < frame <= snaplen + page_size.

Lemma is_frame_iff snaplen page_size frame :
  0 < snaplen -> 0 < page_size -> is_frame snaplen page_size frame <-> frame = frame_of snaplen page_size.
Proof.
  intros Hs Hp. unfold is_frame, frame_of. case_decide as H.
  - assert (1 <= page_size / snaplen) as H1 by (apply Z.div_le_lower_bound; lia).
    pose proof (Z.mul_div_le page_size snaplen Hs). pose proof (Z.mul_succ_div_gt page_size snaplen Hs). split.
    + intros (k & Hk & Hf). assert (k = page_size / snaplen) as -> by (apply Z.div_unique with (page_size - k * snaplen); lia).
      apply Z.div_unique with (page_size - page_size / snaplen * frame); lia.
    + intros ->. exists (page_size / snaplen). split; [lia|]. set (k := page_size / snaplen) in *.
      pose proof (Z.mul_div_le page_size k ltac:(lia)). pose proof (Z.mul_succ_div_gt page_size k ltac:(lia)). lia.
  - pose proof (Z.mul_div_le snaplen page_size Hp). pose proof (Z.mul_succ_div_gt snaplen page_size Hp). split.
    + intros [[q ->] Hq]. f_equal. assert (q - 1 = snaplen / page_size); [|lia].
      apply Z.div_unique with (snaplen - page_size * (q - 1)); lia.
    + intros ->. split; [by exists (snaplen / page_size + 1)|]. lia.
Qed.

(** C31: with positive sizes there is exactly one frame size for the packets; a frame holds a
    packet and 128 of them are a block, which is a whole number of pages when packets are not
    smaller than a page; the error is given exactly when the buffer that is asked for is
    smaller than one block, and otherwise the frame, the block and the number of blocks that
    fill the buffer up to less than one block. *)
Theorem afpacketComputeSize_correct target_size_mb snaplen page_size :
  0 < target_size_mb -> 0 < snaplen -> 0 < page_size ->
  target_size_mb * 2 ^ 20 < 2 ^ 63 -> (snaplen + page_size) * 128 < 2 ^ 63 ->
  let target := target_size_mb * 2 ^ 20 in
  exists frame_size, (forall frame, is_frame snaplen page_size frame <-> frame = frame_size) /\ snaplen <= frame_size /\
    let block_size := frame_size * 128 in
    (page_size <= snaplen -> (page_size | block_size)) /\
    (afpacketComputeSize target_size_mb snaplen page_size = Ret None <-> target < block_size) /\
    (block_size <= target ->
     exists num_blocks, 0 < num_blocks /\ block_size * num_blocks <= target < block_size * num_blocks + block_size /\
       afpacketComputeSize target_size_mb snaplen page_size = Ret (Some (frame_size, block_size, num_blocks))).
Proof.
  intros Ht Hs Hp Hto Hso. cbn zeta. set (frame := frame_of snaplen page_size).
  pose proof (frame_of_bound snaplen page_size Hs Hp) as Hf. fold frame in Hf. exists frame.
  split; [intros fr; by apply is_frame_iff|]. split; [lia|].
  change (2 ^ 20) with 1048576 in *. split.
  { intros H. subst frame. unfold frame_of. rewrite decide_False by lia. exists ((snaplen / page_size + 1) * 128). lia. }
  assert ((if decide (snaplen < page_size) then let! per_page := int_div page_size snaplen in int_div page_size per_page
           else let! pages := int_div snaplen page_size in Ret (int_of (int_of (pages + 1) * page_size))) = Ret frame) as E.
  { subst frame. unfold frame_of in *. case_decide as H.
    - rewrite int_div_pos by lia. cbn [obind]. apply int_div_pos; [lia|]. assert (1 <= page_size / snaplen); [|lia].
      apply Z.div_le_lower_bound; lia.
    - rewrite int_div_pos by lia. cbn [obind]. f_equal. pose proof (Z.div_pos snaplen page_size ltac:(lia) Hp).
      rewrite (int_small (_ + 1)) by nia. apply int_small. nia. }
  unfold afpacketComputeSize. rewrite E. cbn [obind]. rewrite (int_small (frame * 128)) by lia.
  replace (target_size_mb * 1024 * 1024) with (target_size_mb * 1048576) by lia. rewrite int_small by lia.
  rewrite int_div_pos by lia. cbn [obind]. set (target := target_size_mb * 1048576) in *.
  pose proof (Z.mul_div_le target (frame * 128) ltac:(lia)). pose proof (Z.mul_succ_div_gt target (frame * 128) ltac:(lia)).
  pose proof (Z.div_pos target (frame * 128) ltac:(lia) ltac:(lia)).
  destruct (decide (target / (frame * 128) = 0)) as [Hz|Hz].
  - split; [split; [nia|done]|nia].
  - split; [split; [done|nia]|]. intros _. exists (target / (frame * 128)). split; [lia|]. split; [nia|done].
Qed.

(** The first example of sniffer_test.go, two packets of 1514 bytes on a page; and a buffer of
    one megabyte that is too small for packets of 9000 bytes on pages of 16 kB. *)
Example afpacketComputeSize_correct_witness :
  (exists num_blocks, 2048 * 128 * num_blocks <= 30 * 2 ^ 20 < 2048 * 128 * (num_blocks + 1) /\
     afpacketComputeSize 30 1514 4096 = Ret (Some (2048, 2048 * 128, num_blocks))) /\
  afpacketComputeSize 1 9000 16384 = Ret None.
Proof.
  split.
  - destruct (afpacketComputeSize_correct 30 1514 4096) as (f & Hf & _ & _ & _ & H); try lia.
    assert (2048 = f) as <-.
    { apply Hf. unfold is_frame. rewrite decide_True by lia. exists 2. lia. }
    destruct (H ltac:(lia)) as (n & _ & Hn & E). exists n. split; [lia|exact E].
  - destruct (afpacketComputeSize_correct 1 9000 16384) as (f & Hf & _ & _ & H & _); try lia.
    assert (16384 = f) as <-.
    { apply Hf. unfold is_frame. rewrite decide_True by lia. exists 1. lia. }
    apply H. lia.
Defined.
Example afpacketComputeSize_tests :
  afpacketComputeSize 30 1514 4096 = Ret (Some (2048, 2048 * 128, 120)) /\
  afpacketComputeSize 1 1514 4096 = Ret (Some (2048, 2048 * 128, 4)) /\
  afpacketComputeSize 0 1514 4096 = Ret None /\
  afpacketComputeSize 30 16436 4096 = Ret (Some (4096 * 5, 4096 * 5 * 128, 12)) /\
  afpacketComputeSize 3 16436 4096 = Ret (Some (4096 * 5, 4096 * 5 * 128, 1)).
Proof. repeat split. Qed.

(** The restriction that the comment names is not kept: with packets of 1300 bytes, blocks
    are not whole pages; and a snapshot length of zero divides by zero. *)
Theorem afpacket_block_unaligned :
  afpacketComputeSize 24 1300 4096 = Ret (Some (1365, 174720, 144)) /\ ~ (4096 | 174720) /\
  afpacketComputeSize 24 0 4096 = Panic.
Proof. repeat split. intros H%Znumtheory.Zdivide_mod. discriminate H. Qed.

(** * Reading a file *)

Section File.
Context {H : Type} {CP : Capture H} {S : Type} (DecodePacketData : bytes -> Z -> S -> outcome S).

(** The packets that a handle gives before its end of file. *)
Inductive delivers : H -> list bytes -> Prop :=
| delivers_eof h h' : ReadPacketData h = (EOF, h') -> delivers h []
| delivers_nothing h h' res l :
    res = Interrupted \/ (exists ts, res = Data [] ts) -> ReadPacketData h = (res, h') -> delivers h' l -> delivers h l
| delivers_data h h' data ts l :
    data <> [] -> ReadPacketData h = (Data data ts, h') -> delivers h' l -> delivers h (data :: l).

(** The layers above take the packets at the given times. *)
Inductive consumed : list (bytes * Z) -> S -> S -> Prop :=
| consumed_nil s : consumed [] s s
| consumed_cons data ts l s s1 s' :
    DecodePacketData data ts s = Ret s1 -> consumed l s1 s' -> consumed ((data, ts) :: l) s s'.

Lemma consumed_app l1 l2 s s1 s' : consumed l1 s s1 -> consumed l2 s1 s' -> consumed (l1 ++ l2) s s'.
Proof. induction 1; [done|]. intros. econstructor; eauto. Qed.

Context (clock : nat -> Z) (conf : InterfacesConfig) (h0 : H) (packets : list bytes).
Hypothesis is_file : Type_ conf = bs "pcap" /\ File conf <> [].
Hypothesis opens : OpenOffline (File conf) = inl h0.
Hypothesis contents : delivers h0 packets.
Hypothesis total : forall data ts s, exists s', DecodePacketData data ts s = Ret s'.

Abbreviation step :=
  (fun x : Running H S * nat => let! y := run_step DecodePacketData (clock (snd x)) (fst x) in
     Ret (match y with inl r => inl (r, Datatypes.S (snd x)) | inr r => inr r end)).

(** A sniffer that reads the file from the handle [h]. *)
Definition reading (h : H) (r : Running H S) : Prop :=
  isAlive (sniffer r) = true /\ config (sniffer r) = Some conf /\ handle (sniffer r) = Some h /\ ret_error r = None.

(** The packets of a handle, one turn each at least, up to its end. *)
Lemma read_packets h l r t :
  delivers h l -> reading h r ->
  exists k r' h' h'' pk, Prelude.iter step k (r, t) = Some (r', (t + k)%nat) /\ reading h' r' /\ ReadPacketData h' = (EOF, h'') /\
    map fst pk = l /\ consumed pk (layers r) (layers r') /\ loopCount r' = loopCount r /\
    Forall (fun p => exists i, (t <= i < t + k)%nat /\ snd p = clock i) pk.
Proof.
  intros Hd. revert r t. induction Hd as [h h' E|h h' res l Hres E Hd IH|h h' data ts l Hne E Hd IH]; intros r t Hr.
  - exists 0%nat, r, h, h', []. rewrite Nat.add_0_r. repeat split; try apply Hr; try done; constructor.
  - destruct Hr as (Ha & Hc & Hh & He). destruct (IH (r <| sniffer := sniffer r <| handle := Some h' |> |>) (Datatypes.S t))
      as (k & r' & h1 & h2 & pk & Hi & Hr' & Ee & Ep & Hcs & Hl & Ht); [done|].
    exists (Datatypes.S k), r', h1, h2, pk. split; [|split; [done|]; split; [done|]; split; [done|]; split; [done|]; split; [done|]].
    + cbn [Prelude.iter fst snd]. unfold run_step at 1. rewrite Ha, Hc, Hh, E. cbn [obind]. rewrite Nat.add_succ_r.
      destruct Hres as [-> | [ts ->]]; exact Hi.
    + eapply Forall_impl; [exact Ht|]. cbn. intros p (i & Hi' & Hp). exists i. split; [lia|done].
  - destruct Hr as (Ha & Hc & Hh & He). set (r1 := r <| sniffer := sniffer r <| handle := Some h' |> |>).
    destruct (total data (clock t) (layers r)) as [s' Es].
    assert (exists r2, at_packet DecodePacketData conf (clock t) data ts r1 = Ret r2 /\ reading h' r2 /\ layers r2 = s' /\
              loopCount r2 = loopCount r) as (r2 & E2 & Hr2 & El & Elc).
    { unfold at_packet. rewrite decide_False by (destruct data; [done|]; unfold len; cbn; lia).
      rewrite decide_True by apply is_file. cbn. destruct (dumper (sniffer r)); cbn; rewrite Es; cbn; eexists; (split; [done|]); by repeat split. }
    destruct (IH r2 (Datatypes.S t) Hr2) as (k & r' & h1 & h2 & pk & Hi & Hr' & Ee & Ep & Hcs & Hl & Ht).
    exists (Datatypes.S k), r', h1, h2, ((data, clock t) :: pk).
    split; [|split; [done|]; split; [done|]; split; [by cbn; rewrite Ep|]; split; [|split; [congruence|]]].
    + cbn [Prelude.iter fst snd]. unfold run_step at 1. rewrite Ha, Hc, Hh, E. fold r1. rewrite E2. cbn [obind].
      rewrite Nat.add_succ_r. exact Hi.
    + rewrite El in Hcs. econstructor; [exact Es|done].
    + constructor; [exists t; split; [lia|done]|]. eapply Forall_impl; [exact Ht|]. cbn. intros p (i & Hi' & Hp). exists i. split; [lia|done].
Qed.

(** At the end of the file the sniffer opens it again, or stops. *)
Lemma eof_turn h h' r t :
  reading h r -> ReadPacketData h = (EOF, h') -> - 2 ^ 63 <= loopCount r < 2 ^ 63 - 1 ->
  exists r', Prelude.iter step 1 (r, t) = Some (r', Datatypes.S t) /\ layers r' = layers r /\ ret_error r' = None /\
    if decide (Loop conf > 0 /\ loopCount r + 1 > Loop conf) then isAlive (sniffer r') = false
    else reading h0 r' /\ loopCount r' = loopCount r + 1.
Proof.
  intros (Ha & Hc & Hh & He) E Hb. cbn [Prelude.iter fst snd]. unfold run_step. rewrite Ha, Hc, Hh, E. cbn [obind].
  eexists. split; [done|]. unfold at_eof. set (r1 := (r <| sniffer := _ |>) <| loopCount := _ |>).
  assert (loopCount r1 = loopCount r + 1) as El by (subst r1; cbn; apply int_small; lia). rewrite El.
  destruct (decide (Loop conf > 0 /\ loopCount r + 1 > Loop conf)); [done|]. unfold Reopen.
  rewrite decide_False by (destruct is_file as [-> ?]; by intros [?|?]). rewrite opens. by repeat split.
Qed.

(** The file is read as many times as are left, and then the sniffer stops. *)
Lemma read_rounds m r t :
  0 < Loop conf < 2 ^ 63 - 1 -> loopCount r = Loop conf - Z.of_nat m -> 0 <= loopCount r -> reading h0 r ->
  exists k r' pk, Prelude.iter step k (r, t) = Some (r', (t + k)%nat) /\ isAlive (sniffer r') = false /\ ret_error r' = None /\
    map fst pk = concat (replicate (Datatypes.S m) packets) /\ consumed pk (layers r) (layers r') /\
    Forall (fun p => exists i, (t <= i < t + k)%nat /\ snd p = clock i) pk.
Proof.
  intros HL. revert r t. induction m as [|m IH]; intros r t Hm H0 Hr;
    destruct (read_packets h0 packets r t contents Hr) as (k & r1 & h1 & h2 & pk & Hi & Hr1 & Ee & Ep & Hcs & Hl & Ht);
    destruct (eof_turn h1 h2 r1 (t + k) Hr1 Ee ltac:(lia)) as (r2 & Hi2 & El2 & Er2 & Hend);
    pose proof (iter_app _ _ _ _ _ _ Hi Hi2) as Hk.
  - rewrite decide_True in Hend by lia. exists (k + 1)%nat, r2, pk. rewrite El2. cbn. rewrite app_nil_r.
    replace (t + (k + 1))%nat with (Datatypes.S (t + k)) by lia. repeat split; try done.
    eapply Forall_impl; [exact Ht|]. cbn. intros p (i & ? & ?). exists i. split; [lia|done].
  - rewrite decide_False in Hend by lia. destruct Hend as [Hr2 Hl2].
    destruct (IH r2 (Datatypes.S (t + k))) as (k' & r' & pk' & Hi' & Ha & He & Ep' & Hcs' & Ht'); [lia|lia|done|].
    exists (k + 1 + k')%nat, r', (pk ++ pk'). split; [|split; [done|]; split; [done|]; split; [|split]].
    + rewrite (iter_app _ _ _ _ _ _ Hk Hi'). do 2 f_equal. lia.
    + rewrite map_app, Ep, Ep'. done.
    + rewrite El2 in Hcs'. by eapply consumed_app.
    + apply Forall_app. split; (eapply Forall_impl; [done|]); cbn; intros p (i & ? & ?); exists i; (split; [lia|done]).
Qed.

(** A sniffer that reads a file [Loop] times ends without an error after handing every
    packet of the file to the layers above, in order, that many times, each with the
    time of its turn instead of the time in the file. *)
Theorem Run_file s below :
  isAlive s = true -> config s = Some conf -> handle s = Some h0 -> 0 < Loop conf < 2 ^ 63 - 1 ->
  exists fuel r pk, Run DecodePacketData clock fuel s below = Ret r /\ ret_error r = None /\ IsAlive (sniffer r) = false /\
    map fst pk = concat (replicate (Z.to_nat (Loop conf)) packets) /\ consumed pk below (layers r) /\
    Forall (fun p => exists i, snd p = clock i) pk.
Proof.
  intros Ha Hc Hh HL. destruct (read_rounds (Z.to_nat (Loop conf - 1)) (run_init s below) 0 HL)
    as (k & r & pk & Hi & Hd & He & Ep & Hcs & Ht); [cbn; lia|cbn; lia|done|].
  exists (k + 1)%nat, r, pk. split; [|split; [done|]; split; [done|]; split; [|split; [done|]]].
  - unfold Run. rewrite (loop_iter _ _ _ _ _ Hi), loop_S. cbn [fst snd]. unfold run_step. by rewrite Hd.
  - rewrite Ep. do 2 f_equal. lia.
  - eapply Forall_impl; [exact Ht|]. cbn. intros p (i & _ & ?). by exists i.
Qed.

(** With [Loop] zero (or negative) the file is read for ever. *)
Theorem Run_file_forever s below fuel :
  isAlive s = true -> config s = Some conf -> handle s = Some h0 -> Loop conf <= 0 ->
  Run DecodePacketData clock fuel s below = OutOfFuel.
Proof.
  intros Ha Hc Hh HL. unfold Run.
  assert (exists h l, delivers h l /\ reading h (run_init s below)) as Hinv by by exists h0, packets.
  revert Hinv. generalize 0%nat as t. generalize (run_init s below) as r.
  induction fuel as [|fuel IH]; intros r t (h & l & Hd & Hr); [done|]. rewrite loop_S. cbn [fst snd].
  destruct Hr as (Hra & Hrc & Hrh & Hre). unfold run_step. rewrite Hra, Hrc, Hrh.
  inversion Hd as [? h' E|? h' res ? Hres E Hd'|? h' data ts ? Hne E Hd']; subst; rewrite E; cbn [obind].
  - apply IH. exists h0, packets. split; [done|]. unfold at_eof. rewrite decide_False by (intros [? _]; lia).
    unfold Reopen. rewrite decide_False by (destruct is_file as [-> ?]; by intros [?|?]). rewrite opens. by repeat split.
  - destruct Hres as [-> | [ts ->]]; apply IH; exists h', l; by repeat split.
  - unfold at_packet. rewrite decide_False by (destruct data; [done|]; unfold len; cbn; lia).
    rewrite decide_True by apply is_file. cbn. destruct (dumper (sniffer r)); cbn;
      destruct (total data (clock t) (layers r)) as [s' ->]; cbn; apply IH; eexists h', _; (split; [exact Hd'|]); by repeat split.
Qed.
End File.

(** * Examples *)

(** A pcap library whose files hold two packets; a handle is what is left to read. *)
#[local] Instance demo_capture : Capture (list bytes) := {|
  OpenOffline := fun _ => inl [bs "one"; []; bs "two"];
  OpenLive := fun _ _ => inl [];
  NewAfpacketHandle := fun _ _ _ _ => inr (bs "none");
  NewPfringHandle := fun _ _ => inr (bs "none");
  SetBPFFilter := fun _ _ => None;
  Enable := fun _ => None;
  LinkType := fun _ => LinkTypeEthernet;
  ReadPacketData := fun h => match h with [] => (EOF, []) | d :: h => (Data d 7, h) end;
  NewDumper := fun _ _ => None;
  Getpagesize := 4096
|}.

Definition demo_config : InterfacesConfig :=
  {| Device := []; Devices := []; Type_ := bs "pcap"; File := bs "in.pcap"; Bpf_filter := []; Snaplen := 0; Buffer_size_mb := 0;
     TopSpeed := true; Dumpfile := []; OneAtATime := false; Loop := 2 |}.
Definition demo_sniffer : SnifferSetup (list bytes) :=
  {| config := Some demo_config; handle := Some [bs "one"; []; bs "two"]; isAlive := true; dumper := None |}.
Definition demo_log (data : bytes) (ts : Z) (log : list (bytes * Z)) : outcome (list (bytes * Z)) := Ret (log ++ [(data, ts)]).

Example Run_demo :
  option_map layers (match Run demo_log Z.of_nat 20 demo_sniffer [] with Ret r => Some r | _ => None end) =
  Some [(bs "one", 0); (bs "two", 2); (bs "one", 4); (bs "two", 6)].
Proof. reflexivity. Qed.

Example Run_file_witness :
  exists fuel r, Run demo_log Z.of_nat fuel demo_sniffer [] = Ret r /\ ret_error r = None.
Proof.
  destruct (Run_file demo_log Z.of_nat demo_config [bs "one"; []; bs "two"] [bs "one"; bs "two"]) with (s := demo_sniffer) (below := @nil (bytes * Z))
    as (fuel & r & _ & E & He & _); try done.
  - eapply delivers_data; [done|reflexivity|]. eapply delivers_nothing; [right; by eexists|reflexivity|].
    eapply delivers_data; [done|reflexivity|]. by eapply delivers_eof.
  - intros data ts s. by eexists.
  - by exists fuel, r.
Defined.

Example Run_file_forever_witness :
  Run demo_log Z.of_nat 1000 (demo_sniffer <| config := Some (demo_config <| Loop := 0 |>) |>) [] = OutOfFuel.
Proof.
  apply (Run_file_forever demo_log Z.of_nat (demo_config <| Loop := 0 |>) [bs "one"; []; bs "two"] [bs "one"; bs "two"]); try done.
  - eapply delivers_data; [done|reflexivity|]. eapply delivers_nothing; [right; by eexists|reflexivity|].
    eapply delivers_data; [done|reflexivity|]. by eapply delivers_eof.
  - intros data ts s. by eexists.
Defined.
