(* ===== verification/Events.v ===== *)
(** What the protocol plugins publish: whatever packets they get, the events they add to
    their channel are events that the publisher takes (Publisher.v, [publishable]). *)
From S2P Require Import Redis Mysql Pgsql Thrift Http Publisher.
From stdpp Require Import list.
#[local] Open Scope Z_scope.

(** A channel has more events than before, all publishable ([None] is a nil channel). *)
Definition adds (r r' : option (list MapStr)) : Prop :=
  match r with
  | Some sent => exists evs, r' = Some (sent ++ evs) /\ Forall publishable evs
  | None => r' = None
  end.

#[export] Instance adds_preorder : PreOrder adds.
Proof.
  split.
  - intros [sent|]; [|done]. exists []. by rewrite app_nil_r.
  - intros [sent|] r1 r2; cbn; [|by intros ->]. intros (e1 & -> & H1) (e2 & -> & H2). exists (e1 ++ e2).
    rewrite app_assoc. split; [done|]. by apply Forall_app.
Qed.

Lemma adds_one sent ev : publishable ev -> adds (Some sent) (Some (sent ++ [ev])).
Proof. intros H. exists [ev]. by rewrite Forall_singleton. Qed.

(** An event built by insertions, some under conditions. *)
Ltac publishable_fields :=
  split; [eexists; by map_lookups|split; [eexists; by map_lookups|]];
  first [left; by map_lookups | right; eexists; by map_lookups].
Ltac publishable_event := apply adds_one; repeat case_match; publishable_fields.

(** ** Redis *)

Section RedisEvents.
Context {UC : Unicode} {RT : Runtime} {W : Type} {PW : ProcWatcher W}.

Lemma redis_publish_adds redis t : adds (Redis.results redis) (Redis.results (Redis.publishTransaction redis t)).
Proof. unfold Redis.publishTransaction. destruct (Redis.results redis) as [sent|] eqn:E; [|by rewrite E]. cbn [Redis.results set_field]. publishable_event. Qed.

Lemma redis_handle_adds (st : Redis * W) m tcptuple dir :
  adds (Redis.results (fst st)) (Redis.results (fst (Redis.handleRedis st m tcptuple dir))).
Proof.
  destruct st as [redis w]. unfold Redis.handleRedis. destruct (FindProcessesTuple _ w) as [c w'].
  set (m1 := m <| Redis.m_TcpTuple := _ |> <| Redis.m_Direction := _ |> <| Redis.m_CmdlineTuple := _ |>).
  destruct (Redis.m_IsRequest m1); cbn [fst].
  - unfold Redis.receivedRedisRequest. by destruct (endpoints _ _ _).
  - unfold Redis.receivedRedisResponse. destruct (Redis.transactionsMap redis !! _) as [t|]; [|reflexivity].
    destruct (Redis.t_Redis t); [|reflexivity]. apply redis_publish_adds.
Qed.

Lemma redis_Parse_adds pkt tcptuple dir private (st : Redis * W) p st' :
  Redis.Parse pkt tcptuple dir private st = Ret (p, st') -> adds (Redis.results (fst st)) (Redis.results (fst st')).
Proof.
  unfold Redis.Parse. destruct (get2 _ _) as [old| |]; [|by intros [= _ <-]|done].
  destruct (Redis.too_large _ _); [by intros [= _ <-]|]. unfold Redis.parse_loop.
  destruct (loop _ _ _) as [[e st1]| |] eqn:E; cbn [obind]; [|done..]. intros [= _ <-].
  apply (loop_inv _ (fun x => adds (Redis.results (fst st)) (Redis.results (fst (snd x))))
                    (fun y => adds (Redis.results (fst st)) (Redis.results (fst (snd y))))) in E; [done| | |reflexivity];
    intros [s st2] o Hi; unfold Redis.parse_step; repeat case_match; intros [= <-]; try done; cbn [snd];
    (etrans; [exact Hi|apply redis_handle_adds]).
Qed.
End RedisEvents.

(** ** MySQL *)

Section MysqlEvents.
Context {UC : Unicode} {W : Type} {PW : ProcWatcher W}.

Lemma mysql_publish_adds mysql t : adds (Mysql.results mysql) (Mysql.results (snd (Mysql.publishMysqlTransaction mysql t))).
Proof.
  unfold Mysql.publishMysqlTransaction. destruct (Mysql.results mysql) as [sent|] eqn:E; [|cbn [snd]; by rewrite E].
  destruct (default ∅ (Mysql.t_Mysql t) !! bs "iserror") as [[]|]; try (cbn [snd]; by rewrite E).
  cbn [snd Mysql.results set_field]. publishable_event.
Qed.

Lemma mysql_handle_adds fuel (st : Mysql * W) m tcptuple dir raw :
  adds (Mysql.results (fst st)) (Mysql.results (fst (snd (Mysql.handleMysql fuel st m tcptuple dir raw)))).
Proof.
  destruct st as [mysql w]. unfold Mysql.handleMysql. destruct (FindProcessesTuple _ w) as [c w'].
  set (m1 := m <| Mysql.m_TcpTuple := _ |> <| Mysql.m_Direction := _ |> <| Mysql.m_CmdlineTuple := _ |> <| Mysql.m_Raw := _ |>).
  destruct (Mysql.m_IsRequest m1); cbn [fst snd].
  - unfold Mysql.receivedMysqlRequest. by destruct (endpoints _ _ _).
  - destruct (Mysql.receivedMysqlResponse fuel mysql m1 tcptuple) as [r mysql'] eqn:E. cbn [fst snd].
    apply (f_equal snd) in E. cbn in E. rewrite <- E. clear E. unfold Mysql.receivedMysqlResponse.
    destruct (Mysql.transactionsMap mysql !! _) as [t|]; [|reflexivity].
    destruct (Mysql.t_Mysql t) as [fields|]; [|reflexivity]. set (mysql1 := mysql <| Mysql.transactionsMap := _ |>).
    change (Mysql.results mysql) with (Mysql.results mysql1). destruct (if decide _ then _ else _) as [t'| |]; try reflexivity.
    pose proof (mysql_publish_adds mysql1 t') as H. by destruct (Mysql.publishMysqlTransaction mysql1 t') as [[] ?].
Qed.

Lemma mysql_step_adds fuel ts tcptuple dir s (st : Mysql * W) o :
  Mysql.parse_step fuel ts tcptuple dir (s, st) = Ret o ->
  adds (Mysql.results (fst st)) (Mysql.results (fst match o with inl (_, st') => st' | inr (_, st') => st' end)).
Proof.
  unfold Mysql.parse_step. destruct (decide _); [|by intros [= <-]].
  destruct (Mysql.mysqlMessageParser _) as [[s1 [ok c]]| |]; [|by intros [= <-]|done].
  destruct (negb ok); [by intros [= <-]|]. destruct c; [|by intros [= <-]].
  destruct (Mysql.s_message s1) as [m|]; [|by intros [= <-]]. unfold Mysql.ship.
  destruct (str_slice _ _ _) as [raw| |]; [|by intros [= <-]..].
  assert (forall r st', (if negb (Mysql.m_IgnoreMessage m) then Mysql.handleMysql fuel st m tcptuple dir raw else (Ret tt, st)) = (r, st') ->
    adds (Mysql.results (fst st)) (Mysql.results (fst st'))) as H.
  { intros r st'. destruct (negb _); [|by intros [= _ <-]]. intros E. apply (f_equal snd) in E. cbn in E. rewrite <- E. apply mysql_handle_adds. }
  destruct (if negb _ then _ else _) as [r st'] eqn:E. specialize (H r st' eq_refl).
  destruct r; [|by intros [= <-]|done]. destruct (Mysql.PrepareForNewMessage s1); by intros [= <-].
Qed.

Lemma mysql_Parse_adds fuel pkt tcptuple dir private (st : Mysql * W) p st' :
  Mysql.Parse fuel pkt tcptuple dir private st = Ret (p, st') -> adds (Mysql.results (fst st)) (Mysql.results (fst st')).
Proof.
  unfold Mysql.Parse. destruct (get2 _ _) as [old| |]; [|by intros [= _ <-]..].
  destruct (Mysql.too_large _ _); [by intros [= _ <-]|]. unfold Mysql.parse_loop.
  destruct (loop _ _ _) as [[e st1]| |] eqn:E; cbn [obind]; [|done..]. intros [= _ <-].
  apply (loop_inv _ (fun x => adds (Mysql.results (fst st)) (Mysql.results (fst (snd x))))
                    (fun y => adds (Mysql.results (fst st)) (Mysql.results (fst (snd y))))) in E; [done| | |reflexivity];
    intros [s st2] [s' st3] Hi Es; apply mysql_step_adds in Es; by etrans.
Qed.
End MysqlEvents.

(** ** PostgreSQL *)

Section PgsqlEvents.
Context {UC : Unicode} {RT : Runtime} {W : Type} {PW : ProcWatcher W}.

Lemma pgsql_publish_adds pgsql t : adds (Pgsql.results pgsql) (Pgsql.results (snd (Pgsql.publishTransaction pgsql t))).
Proof.
  unfold Pgsql.publishTransaction. destruct (Pgsql.results pgsql) as [sent|] eqn:E; [|cbn [snd]; by rewrite E].
  destruct (default ∅ (Pgsql.t_Pgsql t) !! bs "iserror") as [[]|]; try (cbn [snd]; by rewrite E).
  cbn [snd Pgsql.results set_field]. publishable_event.
Qed.

Lemma pgsql_handle_adds (st : Pgsql * W) m tcptuple dir :
  adds (Pgsql.results (fst st)) (Pgsql.results (fst (snd (Pgsql.handlePgsql st m tcptuple dir)))).
Proof.
  destruct st as [pgsql w]. unfold Pgsql.handlePgsql. destruct (FindProcessesTuple _ w) as [c w'].
  set (m1 := m <| Pgsql.m_TcpTuple := _ |> <| Pgsql.m_Direction := _ |> <| Pgsql.m_CmdlineTuple := _ |>).
  destruct (Pgsql.m_IsRequest m1); cbn [fst snd].
  - unfold Pgsql.receivedPgsqlRequest. set (q := match Pgsql.transactionsMap pgsql !! _ with Some _ => _ | None => _ end).
    assert (Pgsql.results q = Pgsql.results pgsql) as <- by (subst q; by destruct (Pgsql.transactionsMap pgsql !! _)).
    generalize (Pgsql.pgsqlQueryParser (Pgsql.m_Query m1)) as queries, q. clear. intros queries.
    induction queries as [|query queries IH]; intros q; cbn [foldl]; [reflexivity|]. apply (IH (Pgsql.add_query m1 tcptuple c q query)).
  - destruct (Pgsql.receivedPgsqlResponse pgsql m1 tcptuple) as [r pgsql'] eqn:E. cbn [fst snd].
    apply (f_equal snd) in E. cbn in E. rewrite <- E. clear E. unfold Pgsql.receivedPgsqlResponse.
    destruct (Pgsql.pending pgsql _) eqn:Ep; [reflexivity|]. unfold Pgsql.removeTransaction. rewrite Ep. cbn [lookup list_lookup].
    change (Pgsql.results pgsql) with (Pgsql.results (pgsql <| Pgsql.transactionsMap := ∅ |>)).
    destruct (take 0 _ ++ _); (destruct (Pgsql.t_Pgsql p) as [fields|]; [|reflexivity]);
      match goal with |- adds _ (Pgsql.results (snd (Pgsql.publishTransaction ?q ?t))) => exact (pgsql_publish_adds q t) end.
Qed.

Lemma pgsql_deliver_adds tcptuple dir m stream other (st : Pgsql * W) :
  adds (Pgsql.results (fst st)) (Pgsql.results (fst (snd (snd (Pgsql.deliver tcptuple dir m (stream, other, st)))))).
Proof.
  unfold Pgsql.deliver. repeat (case_match; try reflexivity). subst. cbn [snd fst].
  pose proof (pgsql_handle_adds st m tcptuple dir) as Hp.
  match goal with E : Pgsql.handlePgsql _ _ _ _ = _ |- _ => by rewrite E in Hp end.
Qed.

Lemma pgsql_step_adds fuel ts tcptuple dir s other (st : Pgsql * W) o :
  Pgsql.parse_step fuel ts tcptuple dir (s, other, st) = Ret o ->
  adds (Pgsql.results (fst st)) (Pgsql.results (fst match o with inl (_, st') => st' | inr (_, st') => st' end)).
Proof.
  unfold Pgsql.parse_step. destruct (decide _); [|by intros [= <-]].
  destruct (Pgsql.pgsqlMessageParser _ _ _) as [[s1 [ok c]]| |]; [|by intros [= <-]|done].
  destruct (negb ok); [by intros [= <-]|]. destruct c; [|by intros [= <-]].
  destruct (Pgsql.s_message s1) as [m|]; [|by intros [= <-]]. unfold Pgsql.ship.
  destruct (sl_slice _ _ _); [|by intros [= <-]..].
  pose proof (pgsql_deliver_adds tcptuple dir m s1 other st) as H.
  destruct (Pgsql.deliver tcptuple dir m (s1, other, st)) as [r [[s2 o2] st2]]. cbn [fst snd] in H.
  destruct r; [|by intros [= <-]..]. destruct (Pgsql.PrepareForNewMessage s2); by intros [= <-].
Qed.

Lemma pgsql_Parse_adds fuel pkt tcptuple dir private (st : Pgsql * W) p st' :
  Pgsql.Parse fuel pkt tcptuple dir private st = Ret (p, st') -> adds (Pgsql.results (fst st)) (Pgsql.results (fst st')).
Proof.
  unfold Pgsql.Parse. destruct (get2 _ dir) as [old| |]; [|by intros [= _ <-]..].
  destruct (get2 _ _) as [other| |]; [|by intros [= _ <-]..].
  destruct (Pgsql.too_large _ _); [by intros [= _ <-]|]. unfold Pgsql.parse_loop.
  destruct (loop _ _ _) as [[e st1]| |] eqn:E; cbn [obind]; [|done..]. intros [= _ <-].
  apply (loop_inv _ (fun x => adds (Pgsql.results (fst st)) (Pgsql.results (fst (snd x))))
                    (fun y => adds (Pgsql.results (fst st)) (Pgsql.results (fst (snd y))))) in E; [done| | |reflexivity];
    intros [[s o] st2] [s' st3] Hi Es; apply pgsql_step_adds in Es; by etrans.
Qed.

Lemma pgsql_Gap_adds tcptuple dir private (st : Pgsql * W) :
  adds (Pgsql.results (fst st)) (Pgsql.results (fst (snd (Pgsql.GapInStream tcptuple dir private st)))).
Proof.
  unfold Pgsql.GapInStream. destruct private as [priv|]; [|reflexivity]. destruct (get2 priv dir) as [[s|]| |]; try reflexivity.
  destruct (Pgsql.s_message s) as [m|]; [|reflexivity]. destruct (Pgsql.messageHasEnoughData _); [|reflexivity].
  unfold Pgsql.flush. destruct (sl_slice _ _ _); try reflexivity. set (m1 := m <| Pgsql.m_toExport := _ |> <| Pgsql.m_end := _ |> <| Pgsql.m_Incomplete := _ |>).
  pose proof (pgsql_handle_adds st m1 tcptuple dir) as H. destruct (Pgsql.handlePgsql st m1 tcptuple dir) as [r st1].
  cbn [snd] in H. destruct r; [|exact H..]. by destruct (Pgsql.PrepareForNewMessage _).
Qed.
End PgsqlEvents.

(** ** Thrift: the handlers only queue transactions, the goroutine publishes them *)

Lemma thrift_publish_adds thrift : adds (Thrift.results thrift) (Thrift.results (Thrift.publish_next thrift)).
Proof.
  unfold Thrift.publish_next. destruct (Thrift.PublishQueue thrift) as [|t queue]; [reflexivity|]. cbn [Thrift.results set_field].
  destruct (Thrift.results thrift) as [sent|]; [|done]. unfold Thrift.publish_event.
  destruct (Thrift.t_Request t), (Thrift.t_Reply t), (Thrift.Send_request thrift), (Thrift.Send_response thrift); cbn zeta;
    repeat (match goal with |- context [if Thrift.m_HasException ?m then _ else _] => destruct (Thrift.m_HasException m) end);
    apply adds_one; publishable_fields.
Qed.

Section ThriftEvents.
Context {PT : PrintTable} {FT : FloatText} {W : Type} {PW : ProcWatcher W}.

Lemma thrift_Parse_adds pkt tcptuple dir private (st : Thrift * W) p st' :
  Thrift.Parse pkt tcptuple dir private st = Ret (p, st') -> adds (Thrift.results (fst st)) (Thrift.results (fst st')).
Proof.
  assert (forall thrift m tuple c thrift', Thrift.handleThrift thrift m tuple c = Ret thrift' ->
    Thrift.results thrift' = Thrift.results thrift) as Hh.
  { intros thrift m tuple c thrift'. unfold Thrift.handleThrift, Thrift.receivedRequest, Thrift.receivedReply.
    destruct (Thrift.m_IsRequest m); [intros [= <-]; by destruct (Thrift.pending _ _)|].
    destruct (Thrift.pending _ _) as [t|]; [|by intros [= <-]]. destruct (Thrift.t_Request t); [|done].
    destruct (decide _); by intros [= <-]. }
  unfold Thrift.Parse. destruct (get2 _ dir) as [old| |]; [|by intros [= _ <-]..].
  destruct (get2 _ _) as [other| |]; [|by intros [= _ <-]..]. destruct (Thrift.suspended old); [by intros [= _ <-]|].
  destruct (Thrift.too_large _ _); [by intros [= _ <-]|]. unfold Thrift.parse_loop.
  destruct (loop _ _ _) as [[e st1]| |] eqn:E; cbn [obind]; [|done..]. intros [= _ <-].
  enough (Thrift.results (fst st1) = Thrift.results (fst st)) as -> by reflexivity.
  apply (loop_inv _ (fun x => Thrift.results (fst (snd x)) = Thrift.results (fst st))
                    (fun y => Thrift.results (fst (snd y)) = Thrift.results (fst st))) in E; [done| | |reflexivity];
    intros [[s o] [thrift w]] r Hi; unfold Thrift.parse_step, Thrift.complete_message; repeat case_match;
    intros [= <-]; try exact Hi; cbn [fst snd] in *; subst; try done;
    match goal with E : Thrift.handleThrift _ _ _ _ = Ret _ |- _ => apply Hh in E; congruence end.
Qed.

Lemma thrift_Fin_adds tcptuple dir private thrift :
  adds (Thrift.results thrift) (Thrift.results (snd (Thrift.ReceivedFin tcptuple dir private thrift))).
Proof. unfold Thrift.ReceivedFin. by repeat case_match. Qed.
End ThriftEvents.

(** ** HTTP *)

Section HttpEvents.
Context {UC : Unicode} {RT : Runtime} (config : ConfigHttp) {W : Type} {PW : ProcWatcher W}.

Lemma http_publish_adds http t : adds (Http.results http) (Http.results (snd (Http.PublishTransaction http t))).
Proof.
  unfold Http.PublishTransaction. destruct (Http.results http) as [sent|] eqn:E; [|cbn [snd]; by rewrite E].
  destruct (default ∅ (Http.t_Http t) !! bs "code") as [[]|]; try (cbn [snd]; by rewrite E).
  cbn [snd Http.results set_field]. publishable_event.
Qed.

Lemma http_request_results http msg tuple c :
  Http.results (snd (Http.receivedHttpRequest config http msg tuple c)) = Http.results http.
Proof.
  unfold Http.receivedHttpRequest. destruct (if Http.Send_request http then _ else _) as [[cut raw]| |]; try reflexivity.
  destruct (if Http.Send_headers http then _ else _) as [hdrs| |]; try reflexivity.
  by destruct (Http.extractParameters _ _ _) as [[[? ?] ?]| |].
Qed.

Lemma http_response_adds http msg tuple :
  adds (Http.results http) (Http.results (snd (Http.receivedHttpResponse config http msg tuple))).
Proof.
  unfold Http.receivedHttpResponse. destruct (Http.transactionsMap http !! _) as [t|]; [|reflexivity].
  destruct (Http.t_Http t) as [fields|]; [|reflexivity]. destruct (Http.response_fields http msg) as [response| |]; [|reflexivity..].
  destruct (if Http.Send_response http then _ else _) as [[cut raw]| |]; [|reflexivity..].
  set (t1 := match cut with Some _ => _ | None => _ end). set (http1 := Http.put http tuple _).
  change (Http.results http) with (Http.results http1). pose proof (http_publish_adds http1 t1) as H.
  by destruct (Http.PublishTransaction http1 t1) as [[] ?].
Qed.

Lemma http_handle_adds (st : Http * W) m tcptuple dir raw :
  adds (Http.results (fst st)) (Http.results (fst (snd (Http.handleHttp config st m tcptuple dir raw)))).
Proof.
  destruct st as [http w]. unfold Http.handleHttp. destruct (FindProcessesTuple _ w) as [c w'].
  set (m1 := m <| Http.m_TcpTuple := _ |> <| Http.m_Direction := _ |> <| Http.m_CmdlineTuple := _ |> <| Http.m_Raw := _ |>).
  destruct (Http.m_IsRequest m1).
  - pose proof (http_request_results http m1 tcptuple c) as H. destruct (Http.receivedHttpRequest _ _ _ _ _) as [r http'].
    cbn in H |- *. by rewrite H.
  - pose proof (http_response_adds http m1 tcptuple) as H. by destruct (Http.receivedHttpResponse _ _ _ _) as [r http'].
Qed.

Lemma http_ship_adds tcptuple dir s m msg (st : Http * W) :
  adds (Http.results (fst st)) (Http.results (fst (snd (Http.ship config tcptuple dir s m msg st)))).
Proof.
  unfold Http.ship. destruct (obind _ _) as [[m1 msg1]| |]; [|reflexivity..].
  pose proof (http_handle_adds st m1 tcptuple dir msg1) as H. by destruct (Http.handleHttp _ _ _ _ _ _) as [r st'].
Qed.

Lemma http_Parse_adds pkt tcptuple dir private (st : Http * W) p st' :
  Http.Parse config pkt tcptuple dir private st = Ret (p, st') -> adds (Http.results (fst st)) (Http.results (fst st')).
Proof.
  unfold Http.Parse. destruct (get2 _ _) as [old| |]; [|by intros [= _ <-]|done].
  destruct (Http.too_large _ _); [by intros [= _ <-]|]. destruct (Http.messageParser _ _) as [[s [ok c]]| |]; [|by intros [= _ <-]|done].
  destruct (negb ok); [by intros [= _ <-]|]. destruct c; [|by intros [= _ <-]].
  destruct (Http.s_message s) as [m|]; [|by intros [= _ <-]]. set (msg := sl_slice _ _ _).
  pose proof (http_ship_adds tcptuple dir s m msg st) as H. destruct (Http.ship _ _ _ _ _ _ _) as [r st1]. cbn [snd] in H.
  destruct r; [|by intros [= _ <-]|done]; by intros [= _ <-].
Qed.

Lemma http_Fin_adds tcptuple dir private (st : Http * W) :
  adds (Http.results (fst st)) (Http.results (fst (snd (Http.ReceivedFin config tcptuple dir private st)))).
Proof.
  unfold Http.ReceivedFin. destruct private as [d|]; [|reflexivity]. destruct (get2 d dir) as [[s|]| |]; try reflexivity.
  destruct (Http.s_message s) as [m|]; [|reflexivity]. destruct (sl_from _ _) as [msg| |]; [|reflexivity..].
  destruct (decide _); [|reflexivity]. pose proof (http_ship_adds tcptuple dir s m (Ret msg) st) as H.
  by destruct (Http.ship _ _ _ _ _ _ _) as [r st1].
Qed.
End HttpEvents.
