(* ===== verification/TcpRule.v ===== *)
(** A rule for the TCP layer (Tcp.v) over any plugins: what every plugin keeps of its own
    state and promises of its private data, the layer keeps, over packets and timers. *)
From S2P Require Export Tcp.
From stdpp Require Import list.
#[local] Open Scope Z_scope.

(** * What the plugins keep, the TCP layer keeps *)

Section Rule.
Context {St Data : Type} (I : St -> Prop) (D : Z -> Data -> Prop).
Implicit Types (tcp : Tcp St Data) (s : TcpStream Data).
#[local] Existing Instance eta_TcpStream.
#[local] Existing Instance eta_Tcp.

Definition typed (proto : Z) (private : option Data) : Prop := forall d, private = Some d -> D proto d.

(** The result of a call of the plugin of [proto]. *)
Definition returns (proto : Z) (r : outcome (option Data) * St) : Prop :=
  I (snd r) /\ forall private, fst r = Ret private -> typed proto private.

Record plugin_ok (proto : Z) (pl : ProtocolPlugin St Data) : Prop := {
  ok_Parse : forall pkt tuple dir private st,
    I st -> typed proto private -> returns proto (Protos.Parse pl pkt tuple dir private st);
  ok_ReceivedFin : forall tuple dir private st,
    I st -> typed proto private -> returns proto (Protos.ReceivedFin pl tuple dir private st);
  ok_GapInStream : forall tuple dir private st,
    I st -> typed proto private -> returns proto (Protos.GapInStream pl tuple dir private st)
}.

(** The streams hold the private data of their own protocol. *)
Record layer_ok (tcp : Tcp St Data) : Prop := {
  ok_state : I (plugins tcp);
  ok_registry : map_Forall plugin_ok (protos tcp);
  ok_data : forall p s, heap tcp !! p = Some s -> typed (ts_protocol s) (ts_Data s)
}.

Lemma store_layer tcp p s : layer_ok tcp -> typed (ts_protocol s) (ts_Data s) -> layer_ok (store tcp p s).
Proof.
  intros [Hs Hr Hd] Ht. split; [exact Hs|exact Hr|]. intros q t. cbn.
  intros [[<- <-]|[_ E]]%lookup_insert_Some; [exact Ht|by eapply Hd].
Qed.

Lemma assign_layer tcp p s r :
  layer_ok tcp -> returns (ts_protocol s) r -> layer_ok (snd (assign_data tcp p s r)).
Proof.
  intros [Hs Hr Hd] [Hi Ht]. unfold assign_data.
  assert (layer_ok (tcp <| plugins := snd r |>)) as Hl by (split; [exact Hi|exact Hr|exact Hd]).
  destruct (fst r) as [d| |] eqn:E; cbn [snd]; [|exact Hl..]. apply store_layer; [exact Hl|]. exact (Ht d eq_refl).
Qed.

(** The stream of a pointer keeps its protocol. *)
Lemma keeps_protocol tcp tcp' p s s' :
  keeps tcp tcp' -> heap tcp !! p = Some s -> heap tcp' !! p = Some s' -> ts_protocol s' = ts_protocol s.
Proof. intros (_ & _ & _ & _ & Hh) E E'. specialize (Hh p). rewrite E, E' in Hh. by injection Hh. Qed.

Lemma AddPacket_layer tcp p s pkt hdr dir :
  layer_ok tcp -> heap tcp !! p = Some s -> layer_ok (snd (AddPacket tcp p s pkt hdr dir)).
Proof.
  intros Hl Es. pose proof (ok_data _ Hl _ _ Es) as Ht. unfold AddPacket. set (tcp1 := tcp <| timers := _ |>).
  assert (layer_ok tcp1) as Hl1 by (destruct Hl; by split). change (heap tcp !! p) with (heap tcp1 !! p) in Es. clearbody tcp1.
  destruct (Protos.Get (protos tcp1) (ts_protocol s)) as [pl|] eqn:Ep; [|exact Hl1].
  pose proof (ok_registry _ Hl1 _ _ Ep) as [Hparse Hfin _].
  set (parsed := Protos.Parse pl pkt (ts_tcptuple s) dir (ts_Data s) (plugins tcp1)).
  assert (returns (ts_protocol s) parsed) as Hp by (apply Hparse; [by destruct Hl1|done]).
  set (r := if decide (len (vis (pk_Payload pkt)) > 0) then _ else _).
  assert (layer_ok (snd r) /\ keeps tcp1 (snd r)) as [Hl3 Hk3].
  { subst r. case_decide; [|done]. split; [by apply assign_layer|by apply assign_data_keeps]. }
  destruct r as [[u| |] tcp2]; cbn [snd] in *; [|done..].
  destruct (heap tcp2 !! p) as [s2|] eqn:E2; [|done]. destruct (hdr_FIN hdr); [|done].
  pose proof (ok_data _ Hl3 _ _ E2) as Ht2. pose proof (keeps_protocol _ _ _ _ _ Hk3 Es E2) as Epr.
  apply assign_layer; [done|]. rewrite Epr in Ht2 |- *. apply Hfin; [by destruct Hl3|done].
Qed.

Lemma Expire_layer tcp p : layer_ok tcp -> layer_ok (Expire tcp p).
Proof.
  intros Hl. unfold Expire. destruct (heap tcp !! p) as [s|] eqn:E; [|done].
  apply store_layer; [by destruct Hl|]. intros d. done.
Qed.

Lemma followStream_layer tcp p s dir created hdr pkt :
  layer_ok tcp -> heap tcp !! p = Some s -> layer_ok (snd (followStream tcp p s dir created hdr pkt)).
Proof.
  intros Hl E. pose proof (ok_data _ Hl _ _ E) as Ht. unfold followStream. case_match; [done|]. case_match.
  - assert (layer_ok (snd (StreamGap tcp p s dir))) as Hg.
    { unfold StreamGap. destruct (Protos.Get _ _) as [pl|] eqn:Ep; [|done]. apply assign_layer; [done|].
      apply (ok_GapInStream _ _ (ok_registry _ Hl _ _ Ep)); [by destruct Hl|done]. }
    destruct (StreamGap _ _ _ _) as [[u| |] tcp2]; cbn [snd] in *; [by apply Expire_layer|done..].
  - set (s' := set_lastSeq _ _ _). pose proof (set_lastSeq_id s dir (uint32_of (hdr_Seq hdr + uint32_of (len (vis (pk_Payload pkt)))))) as Ei.
    assert (ts_Data s' = ts_Data s) as Ed by (subst s'; unfold set_lastSeq; by destruct (decide _)).
    assert (ts_protocol s' = ts_protocol s) as Eq by (by injection Ei).
    apply AddPacket_layer; [|apply lookup_insert_eq]. apply store_layer; [done|]. by rewrite Ed, Eq.
Qed.

Lemma FollowTcp_layer tcp hdr pkt tcp' : layer_ok tcp -> FollowTcp tcp hdr pkt = Ret tcp' -> layer_ok tcp'.
Proof.
  intros Hl. unfold FollowTcp. destruct (findStream tcp pkt) as [[[[p dir] created]|] t1] eqn:Ef.
  - assert (layer_ok t1) as Hl1.
    { destruct created; [|by apply findStream_old in Ef as [-> _]].
      apply findStream_new in Ef as (_ & _ & _ & _ & _ & ->). unfold registered.
      destruct (store_layer (tcp <| tcp_id := uint32_of (tcp_id tcp + 1) |>) p (new_stream tcp pkt)) as [Hs Hr Hd];
        [by destruct Hl|by intros d|]. by split. }
    destruct (heap t1 !! p) as [s|] eqn:E; [|by intros [= <-]].
    pose proof (followStream_layer t1 p s dir created hdr pkt Hl1 E) as Hf.
    destruct (followStream _ _ _ _ _ _ _) as [[] t3]; intros [= <-]; exact Hf.
  - apply findStream_None in Ef as ->. by intros [= <-].
Qed.

Lemma DecodePacketData_layer decode tcp data ts tcp' :
  layer_ok tcp -> DecodePacketData decode tcp data ts = Ret tcp' -> layer_ok tcp'.
Proof.
  intros Hl. unfold DecodePacketData. destruct (decode data) as [d|]; [|by intros [= <-]].
  destruct (foldl _ _ _) as [pkt has]. destruct has; cbn [negb]; [|by intros [= <-]].
  destruct (_ && _); [by intros [= <-]|]. by apply FollowTcp_layer.
Qed.

Lemma fireTimer_layer tcp p : layer_ok tcp -> layer_ok (fireTimer tcp p).
Proof. intros Hl. unfold fireTimer. case_decide; [|done]. apply Expire_layer. by destruct Hl. Qed.

(** The plugins see no panic of theirs: the layer always goes on. *)
Lemma DecodePacketData_no_panic decode (tcp : Tcp St Data) data ts : DecodePacketData decode tcp data ts <> Panic.
Proof.
  unfold DecodePacketData. destruct (decode data) as [d|]; [|done]. destruct (foldl _ _ _) as [pkt has].
  destruct (negb has); [done|]. destruct (_ && _); [done|]. unfold FollowTcp.
  destruct (findStream _ _) as [[[[p dir] c]|] t]; [|done]. destruct (heap t !! p); [|done].
  by destruct (followStream _ _ _ _ _ _ _) as [[] ?].
Qed.
End Rule.

(** * Both directions of a connection *)

Section Conversation.
Context {St Data : Type}.
Implicit Types (tcp : Tcp St Data) (acc : option Data * St).

(** The tuple and the next byte of a direction: 1 is the one of the first packet. *)
Definition of_dir {A} (dir : Z) (original reverse : A) : A := if decide (dir = TcpDirectionOriginal) then original else reverse.

(** The packets of a connection, with [last1] and [last0] the next bytes of its directions, 0
    in a direction without bytes: each is the first or the next of its direction or repeats
    bytes of its direction; [fresh] has the ones with new bytes and their directions. *)
Inductive traffic (tuple1 tuple0 : IpPortTuple) : Z -> Z -> list (TCPHeader * Packet) -> list (Z * Packet) -> Prop :=
| traffic_nil last1 last0 : traffic tuple1 tuple0 last1 last0 [] []
| traffic_next last1 last0 dir hdr pkt l fresh :
    valid_dir dir -> pk_Tuple pkt = of_dir dir tuple1 tuple0 ->
    0 < len (vis (pk_Payload pkt)) < 2 ^ 31 -> hdr_FIN hdr = false ->
    of_dir dir last1 last0 = 0 \/ hdr_Seq hdr = uint32_of (of_dir dir last1 last0) ->
    traffic tuple1 tuple0 (of_dir dir (uint32_of (hdr_Seq hdr + len (vis (pk_Payload pkt)))) last1)
                          (of_dir dir last0 (uint32_of (hdr_Seq hdr + len (vis (pk_Payload pkt))))) l fresh ->
    traffic tuple1 tuple0 last1 last0 ((hdr, pkt) :: l) ((dir, pkt) :: fresh)
| traffic_again last1 last0 dir hdr pkt l fresh back :
    valid_dir dir -> pk_Tuple pkt = of_dir dir tuple1 tuple0 ->
    0 < len (vis (pk_Payload pkt)) -> of_dir dir last1 last0 <> 0 -> 0 <= back < 2 ^ 31 ->
    uint32_of (hdr_Seq hdr + len (vis (pk_Payload pkt))) = uint32_of (of_dir dir last1 last0 - back) ->
    traffic tuple1 tuple0 last1 last0 l fresh -> traffic tuple1 tuple0 last1 last0 ((hdr, pkt) :: l) fresh.

Definition deliver_dir (pl : ProtocolPlugin St Data) (tcptuple : TcpTuple) acc (x : Z * Packet) : option Data * St :=
  deliver pl tcptuple (fst x) acc (snd x).

(** The plugin is given the next bytes of both directions, once and as they come, if it ends
    on them. *)
Lemma FollowAll_conversation tcp tuple1 tuple0 p pl tcptuple last1 last0 acc l fresh :
  following tcp tuple1 p 1 pl tcptuple last1 acc -> following tcp tuple0 p 0 pl tcptuple last0 acc ->
  traffic tuple1 tuple0 last1 last0 l fresh ->
  (forall pre dir pkt post, fresh = pre ++ (dir, pkt) :: post ->
     let acc := foldl (deliver_dir pl tcptuple) acc pre in fst (Protos.Parse pl pkt tcptuple dir (fst acc) (snd acc)) <> OutOfFuel) ->
  exists tcp' last1' last0', FollowAll tcp l = Ret tcp' /\
    following tcp' tuple1 p 1 pl tcptuple last1' (foldl (deliver_dir pl tcptuple) acc fresh) /\
    following tcp' tuple0 p 0 pl tcptuple last0' (foldl (deliver_dir pl tcptuple) acc fresh).
Proof.
  intros H1 H0 Ht. revert tcp acc H1 H0.
  induction Ht as [last1 last0|last1 last0 dir hdr pkt l fresh Hd Hp Hn Hf Hq _ IH
                  |last1 last0 dir hdr pkt l fresh back Hd Hp Hn Hz Hb Hq _ IH]; intros tcp acc H1 H0 Hne.
  - by exists tcp, last1, last0.
  - assert (following tcp (of_dir dir tuple1 tuple0) p dir pl tcptuple (of_dir dir last1 last0) acc) as H
      by (by destruct Hd as [-> | ->]).
    assert (accepts (of_dir dir last1 last0) hdr pkt) as Ha.
    { destruct Hq as [Hq|Hq]; [by left|right]. exists 0. rewrite Z.sub_0_r. split; [lia|exact Hq]. }
    destruct (FollowTcp_accepts _ _ _ _ _ _ _ _ hdr pkt H Hp Hd Ha Hn Hf) as (tcp' & E & Hs & Ho);
      [by apply (Hne [] dir pkt fresh)|].
    cbn [FollowAll]. rewrite E. cbn [obind]. apply IH.
    + destruct Hd as [-> | ->]; [by apply (Ho tuple1)|exact Hs].
    + destruct Hd as [-> | ->]; [exact Hs|by apply (Ho tuple0)].
    + intros pre d2 pkt2 post ->. exact (Hne ((dir, pkt) :: pre) d2 pkt2 post eq_refl).
  - assert (following tcp (of_dir dir tuple1 tuple0) p dir pl tcptuple (of_dir dir last1 last0) acc) as H
      by (by destruct Hd as [-> | ->]).
    cbn [FollowAll]. rewrite (FollowTcp_again _ _ _ _ _ _ _ _ hdr pkt back H Hp Hn Hz Hb Hq). by apply IH.
Qed.

(** A connection that the layer does not know yet, from its first packet. *)
Lemma FollowAll_new tcp hdr pkt pl l fresh :
  let tuple := pk_Tuple pkt in
  let tcptuple := TcpTupleFromIpPort tuple (uint32_of (tcp_id tcp + 1)) in
  hashed tuple -> Hashable tuple <> RevHashable tuple ->
  tcpStreamsMap tcp !! Hashable tuple = None -> tcpStreamsMap tcp !! RevHashable tuple = None ->
  decideProtocol (tcpPortMap tcp) tuple <> UnknownProtocol ->
  Protos.Get (protos tcp) (decideProtocol (tcpPortMap tcp) tuple) = Some pl ->
  traffic tuple (reversed tuple) 0 0 ((hdr, pkt) :: l) fresh ->
  (forall pre dir pkt post, fresh = pre ++ (dir, pkt) :: post ->
     let acc := foldl (deliver_dir pl tcptuple) (None, plugins tcp) pre in
     fst (Protos.Parse pl pkt tcptuple dir (fst acc) (snd acc)) <> OutOfFuel) ->
  exists tcp' p last1 last0, FollowAll tcp ((hdr, pkt) :: l) = Ret tcp' /\
    let acc := foldl (deliver_dir pl tcptuple) (None, plugins tcp) fresh in
    following tcp' tuple p 1 pl tcptuple last1 acc /\ following tcp' (reversed tuple) p 0 pl tcptuple last0 acc.
Proof.
  cbv zeta. intros Hh Hne Hn Hr Hu Hg Ht He.
  destruct (FollowTcp_new tcp hdr pkt pl Hn Hr Hu Hg) as (p & tcp1 & E & H1 & H0).
  specialize (H0 (reversed (pk_Tuple pkt)) (Hashable_reversed _ Hh) (RevHashable_reversed _ Hh)).
  rewrite Hashable_reversed in H0 by done. specialize (H0 (not_eq_sym Hne)).
  destruct (FollowAll_conversation tcp1 _ _ p pl _ 0 0 _ _ fresh H1 H0 Ht He) as (tcp' & last1 & last0 & Ef & G1 & G0).
  exists tcp', p, last1, last0. split; [|by split]. rewrite <- Ef. cbn [FollowAll]. by rewrite E.
Qed.
End Conversation.
