(* ===== verification/System.v ===== *)
(** The program (src/main.go): how it starts, the protocol plugins behind the TCP layer,
    the channel they share with the publisher, and what its goroutines and timers do, in
    any order. *)
From S2P Require Import Gopacket GopacketFrames.
From S2P Require Import Redis Mysql Pgsql Thrift Http Events.
From S2P Require Import Publisher Procs Sniffer Filters TcpRule.
From stdpp Require Import list.
#[local] Open Scope Z_scope.

(** * The memory of the program *)

(** The private data of a stream: an interface value that holds the type of one plugin. *)
Inductive ProtocolData :=
| HttpData (d : Http.httpPrivateData)
| MysqlData (d : Mysql.mysqlPrivateData)
| PgsqlData (d : Pgsql.pgsqlPrivateData)
| RedisData (d : Redis.redisPrivateData)
| ThriftData (d : Thrift.thriftPrivateData).

Definition data_protocol (d : ProtocolData) : Z :=
  match d with
  | HttpData _ => HttpProtocol | MysqlData _ => MysqlProtocol | PgsqlData _ => PgsqlProtocol
  | RedisData _ => RedisProtocol | ThriftData _ => ThriftProtocol
  end.

Section Memory.
Context {OW : Type}.
Abbreviation World := (ProcessesWatcher * nat)%type.

(** The plugins, the process watcher, the publisher and the world of its outputs.  The
    channel [publisher.Publisher.Queue] is held by the publisher; the [results] of a
    plugin, which is the same channel, is here what the plugin sent and was not yet moved
    to the queue, and so always empty between two steps. *)
Record Program := {
  p_http : Http; p_mysql : Mysql; p_pgsql : Pgsql; p_redis : Redis; p_thrift : Thrift;
  p_procs : World;
  p_publisher : PublisherType OW;
  p_outputs : OW
}.
#[export] Instance eta_Program : Settable Program := fun r =>
  {| p_http := p_http r; p_mysql := p_mysql r; p_pgsql := p_pgsql r; p_redis := p_redis r; p_thrift := p_thrift r;
     p_procs := p_procs r; p_publisher := p_publisher r; p_outputs := p_outputs r |}.

(** No event is on its way from a plugin to the queue. *)
Definition idle (p : Program) : Prop :=
  Http.results (p_http p) = Some [] /\ Mysql.results (p_mysql p) = Some [] /\ Pgsql.results (p_pgsql p) = Some [] /\
  Redis.results (p_redis p) = Some [] /\ Thrift.results (p_thrift p) = Some [].

(** ** The place of a plugin [P], with private data [D], in the program *)

Class Slot (P D : Type) := {
  plugin_of : Program -> P;
  with_plugin : P -> Program -> Program;
  channel : P -> option (list MapStr);
  with_channel : option (list MapStr) -> P -> P;
  pack : D -> ProtocolData;
  unpack : ProtocolData -> option D;
  protocol : Z
}.

(** What the proofs need of it. *)
Class SlotLaws (P D : Type) {S : Slot P D} := {
  with_plugin_publisher x p : p_publisher (with_plugin x p) = p_publisher p;
  with_plugin_idle x p : idle p -> channel x = Some [] -> idle (with_plugin x p);
  plugin_idle p : idle p -> channel (plugin_of p) = Some [];
  channel_with c x : channel (with_channel c x) = c;
  pack_protocol d : data_protocol (pack d) = protocol (P := P)
}.

#[export] Instance http_slot : Slot Http Http.httpPrivateData := {|
  plugin_of := p_http; with_plugin := fun x p => p <| p_http := x |>;
  channel := Http.results; with_channel := fun c x => x <| Http.results := c |>;
  pack := HttpData; unpack := fun d => match d with HttpData d => Some d | _ => None end; protocol := HttpProtocol |}.
#[export] Instance mysql_slot : Slot Mysql Mysql.mysqlPrivateData := {|
  plugin_of := p_mysql; with_plugin := fun x p => p <| p_mysql := x |>;
  channel := Mysql.results; with_channel := fun c x => x <| Mysql.results := c |>;
  pack := MysqlData; unpack := fun d => match d with MysqlData d => Some d | _ => None end; protocol := MysqlProtocol |}.
#[export] Instance pgsql_slot : Slot Pgsql Pgsql.pgsqlPrivateData := {|
  plugin_of := p_pgsql; with_plugin := fun x p => p <| p_pgsql := x |>;
  channel := Pgsql.results; with_channel := fun c x => x <| Pgsql.results := c |>;
  pack := PgsqlData; unpack := fun d => match d with PgsqlData d => Some d | _ => None end; protocol := PgsqlProtocol |}.
#[export] Instance redis_slot : Slot Redis Redis.redisPrivateData := {|
  plugin_of := p_redis; with_plugin := fun x p => p <| p_redis := x |>;
  channel := Redis.results; with_channel := fun c x => x <| Redis.results := c |>;
  pack := RedisData; unpack := fun d => match d with RedisData d => Some d | _ => None end; protocol := RedisProtocol |}.
#[export] Instance thrift_slot : Slot Thrift Thrift.thriftPrivateData := {|
  plugin_of := p_thrift; with_plugin := fun x p => p <| p_thrift := x |>;
  channel := Thrift.results; with_channel := fun c x => x <| Thrift.results := c |>;
  pack := ThriftData; unpack := fun d => match d with ThriftData d => Some d | _ => None end; protocol := ThriftProtocol |}.

#[local] Ltac slot_laws := split; try reflexivity; unfold idle; cbn; tauto.
#[export] Instance http_laws : SlotLaws Http Http.httpPrivateData.
Proof. slot_laws. Qed.
#[export] Instance mysql_laws : SlotLaws Mysql Mysql.mysqlPrivateData.
Proof. slot_laws. Qed.
#[export] Instance pgsql_laws : SlotLaws Pgsql Pgsql.pgsqlPrivateData.
Proof. slot_laws. Qed.
#[export] Instance redis_laws : SlotLaws Redis Redis.redisPrivateData.
Proof. slot_laws. Qed.
#[export] Instance thrift_laws : SlotLaws Thrift Thrift.thriftPrivateData.
Proof. slot_laws. Qed.

(** Events sent on the channel. *)
Definition send (events : list event) (p : Program) : Program :=
  p <| p_publisher := p_publisher p <| Publisher.Queue := Publisher.Queue (p_publisher p) ++ events |> |>.

(** The plugin after a call, and the process watcher; the events it sent go to the queue. *)
Definition commit {P D} `{Slot P D} (x : P) (w : World) (p : Program) : Program :=
  send (map Some (default [] (channel x)))
    (with_plugin (with_channel ((fun _ => []) <$> channel x) x) p <| p_procs := w |>).

(** An event that the publisher can take; a nil map is not one. *)
Definition takes (e : event) : Prop := match e with Some m => publishable m | None => False end.

Record program_ok (p : Program) : Prop := {
  pok_idle : idle p;
  pok_queue : Forall takes (Publisher.Queue (p_publisher p))
}.

Lemma send_ok events p : program_ok p -> Forall takes events -> program_ok (send events p).
Proof. intros [Hi Hq] He. split; [exact Hi|]. cbn. by apply Forall_app. Qed.

Lemma commit_ok {P D} {S : Slot P D} {L : SlotLaws P D} (x : P) w p :
  program_ok p -> adds (channel (plugin_of p)) (channel x) -> program_ok (commit x w p).
Proof.
  intros [Hi Hq] Ha. rewrite (plugin_idle p Hi) in Ha. destruct Ha as (evs & E & Hev). unfold commit. rewrite E. cbn [default fmap option_fmap option_map].
  apply send_ok; [|by apply Forall_map]. split.
  - pose proof (with_plugin_idle (with_channel (Some []) x) p Hi (channel_with _ _)) as Hw. exact Hw.
  - cbn [p_publisher set_field]. change (Forall takes (Publisher.Queue (p_publisher (with_plugin (with_channel (Some []) x) p)))).
    by rewrite with_plugin_publisher.
Qed.
End Memory.
Arguments Program OW : clear implicits.

(** * The plugins behind the interface of the TCP layer *)

Section Plugins.
Context {UC : Unicode} {RT : Runtime} {PT : PrintTable} {FT : FloatText} {EV : Environment} {OW : Type}.
(** The configuration that the HTTP plugin reads while it runs, and the fuel of the loops
    that may not end. *)
Context (config : ConfigHttp) (fuel : nat).
Abbreviation World := (ProcessesWatcher * nat)%type.
Abbreviation Plugin := (ProtocolPlugin (Program OW) ProtocolData).

(** The type assertion on the private data: nil or another protocol's data give nothing. *)
Definition asserted {P D} `{Slot OW P D} (private : option ProtocolData) : option D := private ≫= unpack.

(** [Parse]: a panic that the plugin does not recover leaves what it had. *)
Definition parsing {P D} `{Slot OW P D} (parse : option D -> P * World -> outcome (option D * (P * World)))
    (private : option ProtocolData) (p : Program OW) : outcome (option ProtocolData) * Program OW :=
  match parse (asserted private) (plugin_of p, p_procs p) with
  | Ret (d, (x, w)) => (Ret (pack <$> d), commit x w p)
  | Panic => (Panic, p)
  | OutOfFuel => (OutOfFuel, p)
  end.

(** The handlers that return the private data as it is when it is not theirs. *)
Definition handling {P D} `{Slot OW P D} (handle : D -> P * World -> outcome (option D) * (P * World))
    (private : option ProtocolData) (p : Program OW) : outcome (option ProtocolData) * Program OW :=
  match asserted private with
  | None => (Ret private, p)
  | Some d =>
      let '(r, (x, w)) := handle d (plugin_of p, p_procs p) in
      (let! d := r in Ret (pack <$> d), commit x w p)
  end.

(** A handler that does nothing but return what it got. *)
Definition passing {D P} (f : option D -> option D) (d : D) (st : P * World) : outcome (option D) * (P * World) :=
  (Ret (f (Some d)), st).

Definition http_plugin (ports : list Z) : Plugin := {|
  GetPorts := ports;
  Protos.Parse := fun pkt tuple dir => parsing (Http.Parse config pkt tuple dir);
  Protos.ReceivedFin := fun tuple dir => handling (fun d => Http.ReceivedFin config tuple dir (Some d));
  Protos.GapInStream := fun tuple dir => handling (P := Http) (passing (Http.GapInStream tuple dir))
|}.

Definition mysql_plugin (ports : list Z) : Plugin := {|
  GetPorts := ports;
  Protos.Parse := fun pkt tuple dir => parsing (Mysql.Parse fuel pkt tuple dir);
  Protos.ReceivedFin := fun tuple dir => handling (P := Mysql) (passing (Mysql.ReceivedFin tuple dir));
  Protos.GapInStream := fun tuple dir => handling (P := Mysql) (passing (Mysql.GapInStream tuple dir))
|}.

Definition pgsql_plugin (ports : list Z) : Plugin := {|
  GetPorts := ports;
  Protos.Parse := fun pkt tuple dir => parsing (Pgsql.Parse fuel pkt tuple dir);
  Protos.ReceivedFin := fun tuple dir => handling (P := Pgsql) (passing (Pgsql.ReceivedFin tuple dir));
  Protos.GapInStream := fun tuple dir => handling (fun d st => let '(d, st) := Pgsql.GapInStream tuple dir (Some d) st in (Ret d, st))
|}.

Definition redis_plugin (ports : list Z) : Plugin := {|
  GetPorts := ports;
  Protos.Parse := fun pkt tuple dir => parsing (Redis.Parse pkt tuple dir);
  Protos.ReceivedFin := fun tuple dir => handling (P := Redis) (passing (Redis.ReceivedFin tuple dir));
  Protos.GapInStream := fun tuple dir => handling (P := Redis) (passing (Redis.GapInStream tuple dir))
|}.

(** [ReceivedFin] does not look at the private data. *)
Definition thrift_plugin (ports : list Z) : Plugin := {|
  GetPorts := ports;
  Protos.Parse := fun pkt tuple dir => parsing (Thrift.Parse pkt tuple dir);
  Protos.ReceivedFin := fun tuple dir private p =>
    (Ret private, commit (snd (Thrift.ReceivedFin tuple dir None (p_thrift p))) (p_procs p) p);
  Protos.GapInStream := fun tuple dir => handling (P := Thrift) (passing (Thrift.GapInStream tuple dir))
|}.

(** ** What they keep *)

Definition typed_data (proto : Z) (d : ProtocolData) : Prop := data_protocol d = proto.
Abbreviation calls_ok := (returns program_ok typed_data).

Lemma packed_typed {P D} {S : Slot P D} {L : SlotLaws (OW := OW) P D} (d : option D) : typed typed_data (protocol (P := P)) (pack <$> d).
Proof. intros e. destruct d as [d|]; [|done]. intros [= <-]. apply pack_protocol. Qed.

Lemma parsing_ok {P D} {S : Slot P D} {L : SlotLaws (OW := OW) P D} parse private (p : Program OW) :
  (forall d st r st', parse d st = Ret (r, st') -> adds (channel (fst st)) (channel (fst st'))) ->
  program_ok p -> calls_ok (protocol (P := P)) (parsing (P := P) parse private p).
Proof.
  intros Ha Hp. unfold parsing. destruct (parse _ _) as [[d [x w]]| |] eqn:E; [|by split..].
  split; [apply commit_ok; [done|]; by apply Ha in E|]. intros r [= <-]. apply packed_typed.
Qed.

Lemma handling_ok {P D} {S : Slot P D} {L : SlotLaws (OW := OW) P D} handle private (p : Program OW) :
  (forall d st, adds (channel (fst st)) (channel (fst (snd (handle d st))))) ->
  program_ok p -> typed typed_data (protocol (P := P)) private -> calls_ok (protocol (P := P)) (handling (P := P) handle private p).
Proof.
  intros Ha Hp Ht. unfold handling. destruct (asserted private) as [d|]; [|split; [done|]; by intros r [= <-]].
  pose proof (Ha d (plugin_of p, p_procs p)) as Hd. destruct (handle d _) as [r [x w]]. split; [by apply commit_ok|].
  cbn [fst]. destruct r as [e| |]; cbn [obind]; [|done..]. intros q [= <-]. apply packed_typed.
Qed.

Lemma passing_ok {P D} {S : Slot P D} {L : SlotLaws (OW := OW) P D} (f : option D -> option D) private (p : Program OW) :
  program_ok p -> typed typed_data (protocol (P := P)) private -> calls_ok (protocol (P := P)) (handling (P := P) (passing f) private p).
Proof. intros Hp. apply handling_ok; [|done]. intros d st. reflexivity. Qed.

Lemma http_plugin_ok ports : plugin_ok program_ok typed_data HttpProtocol (http_plugin ports).
Proof.
  split; intros; cbn.
  - apply (parsing_ok (S := http_slot)); [|done]. intros. by eapply http_Parse_adds.
  - apply (handling_ok (S := http_slot)); [|done..]. intros. apply http_Fin_adds.
  - by apply (passing_ok (S := http_slot)).
Qed.

Lemma mysql_plugin_ok ports : plugin_ok program_ok typed_data MysqlProtocol (mysql_plugin ports).
Proof.
  split; intros; cbn; [|by apply (passing_ok (S := mysql_slot))..].
  apply (parsing_ok (S := mysql_slot)); [|done]. intros. by eapply mysql_Parse_adds.
Qed.

Lemma pgsql_plugin_ok ports : plugin_ok program_ok typed_data PgsqlProtocol (pgsql_plugin ports).
Proof.
  split; intros; cbn [pgsql_plugin Protos.Parse Protos.ReceivedFin Protos.GapInStream].
  - apply (parsing_ok (S := pgsql_slot)); [|done]. intros. by eapply pgsql_Parse_adds.
  - by apply (passing_ok (S := pgsql_slot)).
  - apply (handling_ok (S := pgsql_slot)); [|done..]. intros d x. pose proof (pgsql_Gap_adds tuple dir (Some d) x) as Ha.
    cbv beta. by destruct (Pgsql.GapInStream tuple dir (Some d) x).
Qed.

Lemma redis_plugin_ok ports : plugin_ok program_ok typed_data RedisProtocol (redis_plugin ports).
Proof.
  split; intros; cbn; [|by apply (passing_ok (S := redis_slot))..].
  apply (parsing_ok (S := redis_slot)); [|done]. intros. by eapply redis_Parse_adds.
Qed.

Lemma thrift_plugin_ok ports : plugin_ok program_ok typed_data ThriftProtocol (thrift_plugin ports).
Proof.
  split; intros; cbn.
  - apply (parsing_ok (S := thrift_slot)); [|done]. intros. by eapply thrift_Parse_adds.
  - split; [|by intros r [= <-]]. apply (commit_ok (S := thrift_slot)); [done|]. apply thrift_Fin_adds.
  - by apply (passing_ok (S := thrift_slot)).
Qed.
End Plugins.

(** * The start of the program *)

Record Flags := {
  fl_file : bytes; fl_loop : Z; fl_oneAtAtime : bool; fl_topSpeed : bool; fl_publishDisabled : bool;
  fl_dumpfile : bytes; fl_testConfig : bool
}.

(** The flags over the configuration of the interfaces. *)
Definition override (f : Flags) (c : InterfacesConfig) : InterfacesConfig :=
  let c := if fl_topSpeed f then c <| TopSpeed := true |> else c in
  let c := if decide (len (fl_file f) > 0) then c <| File := fl_file f |> else c in
  let c := c <| Loop := fl_loop f |> <| OneAtATime := fl_oneAtAtime f |> in
  if decide (len (fl_dumpfile f) > 0) then c <| Dumpfile := fl_dumpfile f |> else c.

(** The zero values of the package variables. *)
Definition new_http : Http :=
  {| Http.Ports := []; Http.Send_request := false; Http.Send_response := false; Http.Send_headers := false;
     Http.Send_all_headers := false; Http.Headers_whitelist := ∅; Http.Split_cookie := false; Http.Real_ip_header := [];
     Http.Hide_keywords := []; Http.Strip_authorization := false; Http.transactionsMap := ∅; Http.results := None |}.
Definition new_mysql : Mysql :=
  {| Mysql.Ports := []; Mysql.maxStoreRows := 0; Mysql.maxRowLength := 0; Mysql.Send_request := false;
     Mysql.Send_response := false; Mysql.transactionsMap := ∅; Mysql.results := None |}.
Definition new_pgsql : Pgsql :=
  {| Pgsql.Ports := []; Pgsql.maxStoreRows := 0; Pgsql.maxRowLength := 0; Pgsql.Send_request := false;
     Pgsql.Send_response := false; Pgsql.transactionsMap := ∅; Pgsql.allocated := 0; Pgsql.results := None |}.
Definition new_redis : Redis :=
  {| Redis.Ports := []; Redis.Send_request := false; Redis.Send_response := false; Redis.transactionsMap := ∅;
     Redis.results := None |}.
Definition new_thrift : Thrift :=
  {| Thrift.Ports := []; Thrift.StringMaxSize := 0; Thrift.CollectionMaxSize := 0; Thrift.DropAfterNStructFields := 0;
     Thrift.CaptureReply := false; Thrift.ObfuscateStrings := false; Thrift.Send_request := false;
     Thrift.Send_response := false; Thrift.TransportType := 0; Thrift.ProtocolType := 0; Thrift.transMap := ∅;
     Thrift.PublishQueue := []; Thrift.results := None; Thrift.Idl := None; Thrift.timers := []; Thrift.allocated := 0 |}.
Definition new_watcher : ProcessesWatcher :=
  {| PortProcMap := ∅; LastMapUpdate := 0; Processes := []; LocalAddrs := []; ReadFromProc := false; MaxReadFreq := 0;
     RefreshPidsFreq := 0; proc_prefix := [] |}.

Inductive start_error :=
| PublisherFailed (err : Publisher.init_error) | PluginFailed (proto : Z) (err : Thrift.config_error)
| PortsFailed (err : port_error) | FiltersFailed (err : load_error) | SnifferFailed (err : setup_error)
| PrivilegesFailed (err : bytes) | ConfigurationTested.

Section Main.
Context {UC : Unicode} {RT : Runtime} {PT : PrintTable} {FT : FloatText} {IP : IdlParser} {MI : MapIteration}
        {EV : Environment} {H : Type} {CP : Capture H} {OW : Type}.
(** The fuel of the plugins. *)
Context (fuel : nat).

(** [config.ConfigSingleton]; for the outputs, the enabled output plugins and the sections
    of the configuration under their names. *)
Record Config := {
  c_Interfaces : InterfacesConfig;
  c_Http : ConfigHttp; c_Mysql : ConfigMysql; c_Pgsql : ConfigPgsql; c_Redis : ConfigRedis; c_Thrift : ConfigThrift;
  c_Output : list (OutputInterface OW * option MothershipConfig);
  c_Shipper : ShipperConfig;
  c_Procs : ProcsConfig;
  c_Filter : gmap bytes iface
}.
#[local] Instance eta_Config : Settable Config := fun r =>
  {| c_Interfaces := c_Interfaces r; c_Http := c_Http r; c_Mysql := c_Mysql r; c_Pgsql := c_Pgsql r;
     c_Redis := c_Redis r; c_Thrift := c_Thrift r; c_Output := c_Output r; c_Shipper := c_Shipper r;
     c_Procs := c_Procs r; c_Filter := c_Filter r |}.

(** What the start asks of the host: the order of each iteration over the map of the plugins,
    the GeoIP database, the host's name and addresses, whether it is Linux, the time, and the
    error of [DropPrivileges]. *)
Record Host := {
  h_order : nat -> list Z;
  h_GeoIP : option (bytes -> option Location);
  h_Hostname : option bytes;
  h_InterfaceAddrs : option (list bytes);
  h_linux : bool;
  h_now : Z;
  h_DropPrivileges : option bytes
}.

Abbreviation TcpLayer := (Tcp (Program OW) ProtocolData).
Abbreviation Registry := (Protocols (Program OW) ProtocolData).

(** Above the sniffer: the TCP layer, and the decoder with its parser. *)
Abbreviation Below := (TcpLayer * (DecodingLayerParser * DecoderStruct))%type.

(** The sniffer with the layers above it, and the filters' goroutine if there are filters. *)
Record System := { running : Running H Below; runner : option FilterRunner }.
#[local] Instance eta_System : Settable System := fun r => {| running := running r; runner := runner r |}.

Definition new_publisher : PublisherType OW :=
  {| name := []; tags := []; disabled := false; Output := []; TopologyOutput := None; IgnoreOutgoing := false;
     GeoLite := None; RefreshTopologyTimer := None; Publisher.Queue := [] |}.
Definition new_sniffer : SnifferSetup H :=
  {| Sniffer.config := None; handle := None; isAlive := false; dumper := None |}.
Definition new_tcp (p : Program OW) (registry : Registry) : TcpLayer :=
  {| tcp_id := 0; tcpStreamsMap := ∅; tcpPortMap := ∅; heap := ∅; timers := ∅; protos := registry; plugins := p |}.
Definition EnabledFilterPlugins : FiltersList := Filters.Register ∅ NopFilter NopType.

(** One turn of the loop over [EnabledProtocolPlugins]; the channel that a plugin gets is
    not nil, since the publisher made it.  Only Thrift can fail. *)
Definition init_plugin (c : Config) (proto : Z) (p : Program OW) (registry : Registry)
    : outcome (Program OW * Registry + start_error) :=
  if decide (proto = HttpProtocol) then
    let http := Http.Init (p_http p) false (c_Http c) (Some []) in
    Ret (inl (p <| p_http := http |>, Register registry proto (http_plugin (c_Http c) (Http.Ports http))))
  else if decide (proto = MysqlProtocol) then
    let mysql := Mysql.Init (p_mysql p) false (c_Mysql c) (Some []) in
    Ret (inl (p <| p_mysql := mysql |>, Register registry proto (mysql_plugin fuel (Mysql.Ports mysql))))
  else if decide (proto = PgsqlProtocol) then
    let pgsql := Pgsql.Init (p_pgsql p) false (c_Pgsql c) (Some []) in
    Ret (inl (p <| p_pgsql := pgsql |>, Register registry proto (pgsql_plugin fuel (Pgsql.Ports pgsql))))
  else if decide (proto = RedisProtocol) then
    let redis := Redis.Init (p_redis p) false (c_Redis c) (Some []) in
    Ret (inl (p <| p_redis := redis |>, Register registry proto (redis_plugin (Redis.Ports redis))))
  else
    let! '(thrift, err) := Thrift.Init (p_thrift p) false (c_Thrift c) (Some []) in
    match err with
    | Some err => Ret (inr (PluginFailed proto err))
    | None => Ret (inl (p <| p_thrift := thrift |>, Register registry proto (thrift_plugin (Thrift.Ports thrift))))
    end.

Fixpoint init_plugins (c : Config) (order : list Z) (p : Program OW) (registry : Registry)
    : outcome (Program OW * Registry + start_error) :=
  match order with
  | [] => Ret (inl (p, registry))
  | proto :: order =>
      let! r := init_plugin c proto p registry in
      match r with
      | inr err => Ret (inr err)
      | inl (p, registry) => init_plugins c order p registry
      end
  end.

(** [protos.Protos.GetAll()] with the ports, in the order of an iteration. *)
Definition all_ports (registry : Registry) (order : list Z) : list (Z * list Z) :=
  omap (fun proto => (fun plugin => (proto, GetPorts plugin)) <$> Protos.Get registry proto) order.

Definition has_decoder (datalink : Z) : bool := bool_decide (is_Some (CreateDecoder datalink)).

(** [main], up to the start of the sniffer.  The sniffer gets the filters' queue, or the
    publisher's, and uses neither.  The decoder is the one that its [Init] has made. *)
Definition main (f : Flags) (c : Config) (h : Host) (w : OW) : outcome (System + start_error) :=
  let interfaces := override f (c_Interfaces c) in
  let '(r, (publisher, w)) :=
    Publisher.Init new_publisher (fl_publishDisabled f) (c_Output c) (c_Shipper c) (h_GeoIP h) (h_Hostname h)
      (h_InterfaceAddrs h) w in
  let! err := r in
  match err with
  | Some err => Ret (inr (PublisherFailed err))
  | None =>
      let '(r, watcher) := Procs.Init new_watcher (c_Procs c) (h_now h) (h_linux h) (h_InterfaceAddrs h) in
      let! _ := r in
      let p := {| p_http := new_http; p_mysql := new_mysql; p_pgsql := new_pgsql; p_redis := new_redis;
                  p_thrift := new_thrift; p_procs := (watcher, 0%nat); p_publisher := publisher; p_outputs := w |} in
      let! r := init_plugins c (h_order h 0) p ∅ in
      match r with
      | inr err => Ret (inr err)
      | inl (p, registry) =>
          match TcpInit (new_tcp p registry) (all_ports registry (h_order h 1)) with
          | inr err => Ret (inr (PortsFailed err))
          | inl tcp =>
              match LoadConfiguredFilters EnabledFilterPlugins (c_Filter c) with
              | inr err => Ret (inr (FiltersFailed err))
              | inl filters =>
                  let runner := match filters with [] => None | _ => Some (NewFilterRunner [] filters) end in
                  let interfaces := interfaces <| Bpf_filter := BpfFilter (all_ports registry (h_order h 2)) |> in
                  let! '(sniffer, err) := Sniffer.Init has_decoder new_sniffer false interfaces in
                  match err, h_DropPrivileges h with
                  | Some err, _ => Ret (inr (SnifferFailed err))
                  | None, Some err => Ret (inr (PrivilegesFailed err))
                  | None, None =>
                      if fl_testConfig f then Ret (inr ConfigurationTested)
                      else
                        let! datalink := Datalink sniffer in
                        match CreateDecoder datalink with
                        | None => Ret (inr (SnifferFailed DecoderFailed))
                        | Some parser => Ret (inl {| running := run_init sniffer (tcp, (parser, new_decoder)); runner := runner |})
                        end
                  end
              end
          end
      end
  end.

(** * What happens while it runs *)

(** The turns of the goroutines and the functions of the timers; a signal stops the sniffer.  A
    packet that is read has the bytes [behind] it in its buffer.  The outputs are a parameter, and
    so is what their own goroutines (a queue that is sent, a flush timer, a reconnection) do in
    a turn: anything with the world of the outputs, a panic included. *)
Inductive action :=
| SnifferTurn (now : Z) (behind : bytes)
| Signal
| StreamTimer (p : ptr)
| HttpTimer (t : HttpTransaction) | MysqlTimer (t : MysqlTransaction) | PgsqlTimer (t : PgsqlTransaction)
| RedisTimer (t : RedisTransaction) | ThriftTimer (t : ThriftTransaction)
| ThriftTurn
| FilterTurn
| ProcsTick (i : nat)
| PublisherTurn
| TopologyTick (InterfaceAddrs : option (list bytes))
| OutputTurn (turn : OW -> outcome OW).

Definition sys_tcp (s : System) : TcpLayer := fst (layers (running s)).
Definition sys_program (s : System) : Program OW := plugins (sys_tcp s).
#[local] Existing Instance eta_Tcp.
Definition with_tcp (s : System) (t : TcpLayer) : System := s <| running := running s <| layers := (t, snd (layers (running s))) |> |>.
Definition with_program (s : System) (p : Program OW) : System := with_tcp s (sys_tcp s <| plugins := p |>).
Definition with_slot {P D} `{Slot OW P D} (f : P -> P) (p : Program OW) : Program OW := commit (f (plugin_of p)) (p_procs p) p.

Definition at_decoder (behind data : bytes) (ts : Z) (below : Below) : outcome Below :=
  let '(tcp, (parser, decoder)) := below in
  let! '(tcp, decoder) := decode_packet parser (tcp, decoder) (data, behind, ts) in
  Ret (tcp, (parser, decoder)).

(** A panic here ends the program: no goroutine but the sniffer's recovers. *)
Definition exec (s : System) (a : action) : outcome System :=
  let p := sys_program s in
  match a with
  | SnifferTurn now behind =>
      let! r := Sniffer.run_step (at_decoder behind) now (running s) in
      Ret (s <| running := match r with inl r => r | inr r => r end |>)
  | Signal => Ret (s <| running := running s <| sniffer := Stop (sniffer (running s)) |> |>)
  | StreamTimer ptr => Ret (with_tcp s (fireTimer (sys_tcp s) ptr))
  | HttpTimer t => Ret (with_program s (with_slot (fun x => Http.expireTransaction x t) p))
  | MysqlTimer t => Ret (with_program s (with_slot (fun x => Mysql.expireTransaction x t) p))
  | PgsqlTimer t => let! x := Pgsql.expireTransaction (p_pgsql p) t in Ret (with_program s (with_slot (fun _ => x) p))
  | RedisTimer t => Ret (with_program s (with_slot (fun x => Redis.expireTransaction x t) p))
  | ThriftTimer t => Ret (with_program s (with_slot (fun x => Thrift.fire x t) p))
  | ThriftTurn => Ret (with_program s (with_slot Thrift.publish_next p))
  | FilterTurn =>
      match runner s with
      | None => Ret s
      | Some r =>
          let r := Filters.run_step r in
          Ret (with_program s (send (Filters.results r) p) <| runner := Some (r <| Filters.results := [] |>) |>)
      end
  | ProcsTick i => Ret (with_program s (p <| p_procs := Procs.exec (p_procs p) (Tick i) |>))
  | PublisherTurn =>
      let '(r, (publisher, w)) := Publisher.publish_next (p_publisher p) (p_outputs p) in
      let! _ := r in
      Ret (with_program s (p <| p_publisher := publisher |> <| p_outputs := w |>))
  | TopologyTick addrs =>
      Ret (with_program s (p <| p_outputs := refresh_topology (p_publisher p) addrs (p_outputs p) |>))
  | OutputTurn turn => let! w := turn (p_outputs p) in Ret (with_program s (p <| p_outputs := w |>))
  end.

Fixpoint run (s : System) (acts : list action) : outcome System :=
  match acts with
  | [] => Ret s
  | a :: acts => let! s := exec s a in run s acts
  end.
End Main.

(** * The invariant of the program *)

(** The timers' functions send nothing, and that of PostgreSQL does not panic. *)
Lemma index_of_lookup ptr l i : Pgsql.index_of ptr l = Some i -> is_Some (l !! i).
Proof.
  revert i. induction l as [|t l IH]; intros i; cbn; [done|]. case_decide; [intros [= <-]; by eexists|].
  destruct (Pgsql.index_of ptr l) as [j|]; [|done]. intros [= <-]. by apply IH.
Qed.

Lemma pgsql_expire_ok pgsql t :
  exists x, Pgsql.expireTransaction pgsql t = Ret x /\ Pgsql.results x = Pgsql.results pgsql.
Proof.
  unfold Pgsql.expireTransaction. destruct (Pgsql.index_of _ _) as [i|] eqn:E.
  - apply index_of_lookup in E as [u Eu]. unfold Pgsql.removeTransaction. rewrite Eu. cbn [obind].
    eexists. split; [reflexivity|]. by repeat case_match.
  - cbn [obind]. eexists. split; [reflexivity|]. by case_match.
Qed.

Section SnifferRule.
Context {H : Type} {CP : Capture H} {S : Type} (decode : bytes -> Z -> S -> outcome S) (Inv : S -> Prop).

(** A sniffer that runs has a configuration and a handle. *)
Definition alive_ok (s : SnifferSetup H) : Prop := isAlive s = true -> is_Some (Sniffer.config s) /\ is_Some (handle s).

Lemma Init_alive create s0 conf s :
  isAlive s0 = false -> Sniffer.Init create s0 false conf = Ret (s, None) -> alive_ok s.
Proof.
  intros Ha. unfold Sniffer.Init, setFromConfig. destruct (defaults conf) as [c| |]; [|done..]. cbn [obind].
  destruct (open_handle c) as [[c' [h|err]]| |]; [|by intros [= <-]|done..]. cbn [obind].
  destruct (Datalink _) as [link| |]; [|done..]. cbn [obind]. destruct (create link); [|done].
  case_decide; [|intros [= <-] _; split; by eexists]. destruct (NewDumper _ _); [done|]. intros [= <-] _. split; by eexists.
Qed.

Lemma Stop_alive s : alive_ok (Stop s).
Proof. intros ?. done. Qed.

Lemma at_eof_alive conf (r : Running H S) :
  alive_ok (sniffer r) -> alive_ok (sniffer (at_eof conf r)) /\ layers (at_eof conf r) = layers r.
Proof.
  intros Ha. unfold at_eof. case_decide; [by split|]. cbn [sniffer set_field]. unfold Reopen.
  case_decide; [by split|]. destruct (OpenOffline _) as [h|err]; [|by split]. split; [|done].
  intros Hl. destruct (Ha Hl) as [Hc _]. split; [exact Hc|]. by eexists.
Qed.

Lemma at_packet_alive conf now data ts (r : Running H S) :
  alive_ok (sniffer r) -> Inv (layers r) ->
  (forall ts x, Inv x -> decode data ts x <> Panic /\ forall y, decode data ts x = Ret y -> Inv y) ->
  at_packet decode conf now data ts r <> Panic /\
  forall r', at_packet decode conf now data ts r = Ret r' -> alive_ok (sniffer r') /\ Inv (layers r').
Proof.
  intros Ha Hi Hd. unfold at_packet. case_decide as Hlen; [split; [done|]; by intros r' [= <-]|].
  set (rt := if decide (File conf <> []) then _ else _).
  assert (sniffer (fst rt) = sniffer r /\ layers (fst rt) = layers r) as [Es El] by (subst rt; by case_decide).
  destruct rt as [r1 ts1]. cbn [fst] in Es, El. set (r2 := r1 <| counter := _ |>).
  set (r3 := match dumper (sniffer r2) with Some _ => _ | None => _ end).
  assert (alive_ok (sniffer r3) /\ layers r3 = layers r) as [Ha3 E3].
  { rewrite <- Es in Ha. subst r3. destruct (dumper (sniffer r2)); by split. }
  rewrite <- E3 in Hi. destruct (Hd ts1 (layers r3) Hi) as [Hn Hy].
  destruct (decode data ts1 (layers r3)) as [y| |]; cbn [obind]; [|done..].
  split; [done|]. intros r' [= <-]. split; [exact Ha3|]. exact (Hy y eq_refl).
Qed.

Lemma run_step_alive now (r : Running H S) :
  alive_ok (sniffer r) -> Inv (layers r) ->
  (forall data ts x, Inv x -> decode data ts x <> Panic /\ forall y, decode data ts x = Ret y -> Inv y) ->
  Sniffer.run_step decode now r <> Panic /\
  forall r', Sniffer.run_step decode now r = Ret r' ->
    let r' := match r' with inl r => r | inr r => r end in alive_ok (sniffer r') /\ Inv (layers r').
Proof.
  intros Ha Hi Hd. unfold Sniffer.run_step. destruct (isAlive (sniffer r)) eqn:El; [|split; [done|]; by intros r' [= <-]].
  destruct (Ha El) as [[conf Ec] [h Eh]]. rewrite Ec, Eh. destruct (ReadPacketData h) as [result h'].
  set (r1 := r <| sniffer := _ |>).
  assert (alive_ok (sniffer r1)) as Ha1 by (intros _; split; [by exists conf|by exists h']).
  destruct result as [data ts| | |err].
  - destruct (at_packet_alive conf now data ts r1 Ha1 Hi (Hd data)) as [Hn Hr].
    destruct (at_packet _ _ _ _ _ _) as [r2| |]; cbn [obind]; [|done..]. split; [done|]. intros r' [= <-]. by apply Hr.
  - split; [done|]. by intros r' [= <-].
  - split; [done|]. intros r' [= <-]. destruct (at_eof_alive conf r1 Ha1) as [He E]. split; [exact He|]. by rewrite E.
  - split; [done|]. intros r' [= <-]. split; [apply Stop_alive|exact Hi].
Qed.
End SnifferRule.

Section Invariant.
Context {UC : Unicode} {RT : Runtime} {PT : PrintTable} {FT : FloatText} {IP : IdlParser} {MI : MapIteration}
        {EV : Environment} {H : Type} {CP : Capture H} {OW : Type}.
Context (fuel : nat).
#[local] Existing Instance eta_Tcp.
#[local] Existing Instance eta_System.
Implicit Types (s : System (H := H) (OW := OW)) (p : Program OW).

Definition parser_ok (below : Tcp (Program OW) ProtocolData * (DecodingLayerParser * DecoderStruct)) : Prop :=
  exists datalink, CreateDecoder datalink = Some (fst (snd below)).

Record system_ok s : Prop := {
  sok_layer : layer_ok program_ok typed_data (sys_tcp s);
  sok_streams : streams_ok (sys_tcp s);
  sok_runner : forall r, runner s = Some r -> FiltersQueue r = [] /\ Filters.results r = [];
  sok_alive : alive_ok (sniffer (running s));
  sok_parser : parser_ok (layers (running s))
}.

Lemma streams_ok_plugins (tcp : Tcp (Program OW) ProtocolData) p : streams_ok tcp -> streams_ok (tcp <| plugins := p |>).
Proof. intros Hok. apply (keeps_ok tcp); [|done]. by repeat split. Qed.

Lemma with_program_ok s p : system_ok s -> program_ok p -> system_ok (with_program s p).
Proof.
  intros [[_ Hr Hd] Hs Hf Ha Hc] Hp. split; [by split| |exact Hf|exact Ha|exact Hc]. by apply streams_ok_plugins.
Qed.

Lemma with_tcp_ok s tcp :
  system_ok s -> layer_ok program_ok typed_data tcp -> streams_ok tcp -> system_ok (with_tcp s tcp).
Proof. intros [_ _ Hf Ha Hc] Hl Hs. by split. Qed.

Lemma with_slot_ok {P D} {S : Slot P D} {L : SlotLaws P D} (f : P -> P) s :
  system_ok s -> adds (channel (plugin_of (sys_program s))) (channel (f (plugin_of (sys_program s)))) ->
  system_ok (with_program s (with_slot f (sys_program s))).
Proof. intros Hok Ha. apply with_program_ok; [done|]. apply commit_ok; [|done]. by destruct Hok as [[? _ _] _ _ _ _]. Qed.

Lemma publisher_turn_ok p :
  program_ok p -> exists r w, Publisher.publish_next (p_publisher p) (p_outputs p) = (Ret tt, (r, w)) /\
    program_ok (p <| p_publisher := r |> <| p_outputs := w |>).
Proof.
  intros [Hi Hq]. unfold Publisher.publish_next. destruct (Publisher.Queue (p_publisher p)) as [|e queue] eqn:E.
  - eexists _, _. split; [reflexivity|]. split; [exact Hi|]. cbn. by rewrite E.
  - apply Forall_cons in Hq as [He Hq]. destruct e as [m|]; [|done].
    destruct (publishEvent_ok (p_publisher p <| Publisher.Queue := queue |>) m (p_outputs p) He) as (err & w & -> & _).
    eexists _, _. split; [reflexivity|]. by split.
Qed.

Lemma filter_turn_idle (r : FilterRunner) : FiltersQueue r = [] -> Filters.run_step r = r.
Proof. intros E. unfold Filters.run_step. by rewrite E. Qed.

Lemma at_decoder_ok behind data ts below :
  layer_ok program_ok typed_data (fst below) /\ streams_ok (fst below) /\ parser_ok below ->
  at_decoder behind data ts below <> Panic /\ forall y, at_decoder behind data ts below = Ret y ->
    layer_ok program_ok typed_data (fst y) /\ streams_ok (fst y) /\ parser_ok y.
Proof.
  destruct below as [tcp [p d]]. intros (Hl & Hs & datalink & Hp). unfold at_decoder, decode_packet. cbn [fst snd] in *.
  pose proof (DecodePacketData_no_panic (decode_with p d behind) tcp data ts) as Hn.
  destruct (DecodePacketData _ _ _ _) as [tcp'| |] eqn:E; cbn [obind]; [|done..]. split; [done|]. intros y [= <-]. cbn [fst].
  split; [by eapply DecodePacketData_layer|]. split; [|by exists datalink].
  exact (DecodePacketData_ok _ tcp data ts tcp' (fun ls => decode_with_ok datalink p d behind data ls Hp) Hs E).
Qed.

(** A turn of an output's goroutine that panics. *)
Definition output_panics s (a : action) : Prop := exists turn, a = OutputTurn turn /\ turn (p_outputs (sys_program s)) = Panic.

(** No other step panics, and each keeps the invariant. *)
Lemma exec_ok s a : system_ok s -> (exec s a = Panic -> output_panics s a) /\ forall s', exec s a = Ret s' -> system_ok s'.
Proof.
  intros Hok. pose proof Hok as [Hl Hs Hf Ha Hc]. assert (program_ok (sys_program s)) as Hp by apply (ok_state _ _ _ Hl).
  destruct a; cbn [exec]; try (split; [done|]; intros s' [= <-]).
  - destruct (run_step_alive (at_decoder behind) (fun below => layer_ok program_ok typed_data (fst below) /\ streams_ok (fst below) /\ parser_ok below)
      now (running s) Ha (conj Hl (conj Hs Hc)) (at_decoder_ok behind)) as [Hn Hr].
    destruct (Sniffer.run_step _ _ _) as [r| |]; cbn [obind]; [|done..]. split; [done|]. intros s' [= <-].
    destruct (Hr r eq_refl) as (Ha' & Hl' & Hs' & Hc'). by split.
  - split; [exact Hl|exact Hs|exact Hf|apply Stop_alive|exact Hc].
  - apply with_tcp_ok; [done|by apply fireTimer_layer|by apply fireTimer_ok].
  - by apply (with_slot_ok (S := http_slot)).
  - by apply (with_slot_ok (S := mysql_slot)).
  - destruct (pgsql_expire_ok (p_pgsql (sys_program s)) t) as (x & -> & E). cbn [obind]. split; [done|].
    intros s' [= <-]. apply (with_slot_ok (S := pgsql_slot)); [done|]. cbn. by rewrite E.
  - by apply (with_slot_ok (S := redis_slot)).
  - by apply (with_slot_ok (S := thrift_slot)).
  - apply (with_slot_ok (S := thrift_slot)); [done|]. apply thrift_publish_adds.
  - destruct (runner s) as [r|] eqn:Er; (split; [done|]); intros s' [= <-]; [|done].
    destruct (Hf r eq_refl) as [Eq Er']. rewrite filter_turn_idle, Er' by done.
    destruct (with_program_ok s (send [] (sys_program s)) Hok ltac:(by apply send_ok)) as [Hl' Hs' _ Ha' Hc'].
    split; [exact Hl'|exact Hs'| |exact Ha'|exact Hc']. intros r' [= <-]. by split.
  - apply with_program_ok; [done|]. by destruct Hp.
  - destruct (publisher_turn_ok _ Hp) as (r & w & -> & Hp'). cbn [obind]. split; [done|]. intros s' [= <-]. by apply with_program_ok.
  - apply with_program_ok; [done|]. by destruct Hp.
  - destruct (turn (p_outputs (sys_program s))) as [w| |] eqn:Ew; cbn [obind]; (split; [try done|]); [|by exists turn|done..].
    intros s' [= <-]. apply with_program_ok; [done|]. by destruct Hp.
Qed.

(** A run that ends in a panic ends in the turn of an output's goroutine. *)
Definition panics_in_output s (acts : list action) : Prop :=
  exists acts1 a acts2 s', acts = acts1 ++ a :: acts2 /\ run s acts1 = Ret s' /\ output_panics s' a.

Lemma run_ok s acts : system_ok s -> (run s acts = Panic -> panics_in_output s acts) /\ forall s', run s acts = Ret s' -> system_ok s'.
Proof.
  revert s. induction acts as [|a acts IH]; intros s Hok; cbn [run]; [split; [done|]; by intros s' [= <-]|].
  destruct (exec_ok s a Hok) as [Hn He]. destruct (exec s a) as [s1| |] eqn:Ea; cbn [obind].
  - destruct (IH s1 (He s1 eq_refl)) as [Hp Hr]. split; [|exact Hr]. intros E. destruct (Hp E) as (acts1 & b & acts2 & s' & -> & E1 & Hb).
    exists (a :: acts1), b, acts2, s'. split; [done|]. split; [|done]. cbn [run]. by rewrite Ea.
  - split; [|done]. intros _. exists [], a, acts, s. split; [done|]. split; [done|by apply Hn].
  - done.
Qed.

Lemma run_panics s acts : panics_in_output s acts -> run s acts = Panic.
Proof.
  intros (acts1 & a & acts2 & s' & -> & E & turn & -> & Ht). revert s E. induction acts1 as [|b acts1 IH]; intros s; cbn [app run].
  - intros [= ->]. cbn [exec]. by rewrite Ht.
  - destruct (exec s b) as [s1| |]; cbn [obind]; [|done..]. apply IH.
Qed.
End Invariant.

(** * The start establishes the invariant *)

Lemma Init_queue {W} (p0 p : PublisherType W) disabled plugins shipper geo hostname addrs w w' :
  Publisher.Init p0 disabled plugins shipper geo hostname addrs w = (Ret None, (p, w')) -> Publisher.Queue p = [].
Proof.
  unfold Publisher.Init. destruct (init_outputs _ _ _ _) as [[err|] [p1 w1]]; [done|]. destruct (_ && _); [done|].
  destruct (if decide _ then _ else _) as [n|]; [|done]. destruct (_ && _); [|by intros [= <- <-]].
  destruct (decide (_ <= 0)); [done|]. destruct (PublishTopology _ _ _ _) as [[err|] w2]; [done|]. by intros [= <- <-].
Qed.

(** [EnabledProtocolPlugins]. *)
Definition EnabledProtocolPlugins : list Z := [HttpProtocol; MysqlProtocol; PgsqlProtocol; RedisProtocol; ThriftProtocol].

Section Start.
Context {UC : Unicode} {RT : Runtime} {PT : PrintTable} {FT : FloatText} {IP : IdlParser} {MI : MapIteration}
        {EV : Environment} {H : Type} {CP : Capture H} {OW : Type}.
Context (fuel : nat).
#[local] Existing Instance eta_Tcp.

(** The channel of the plugin of a protocol. *)
Definition channel_of (proto : Z) (p : Program OW) : option (list MapStr) :=
  if decide (proto = HttpProtocol) then Http.results (p_http p)
  else if decide (proto = MysqlProtocol) then Mysql.results (p_mysql p)
  else if decide (proto = PgsqlProtocol) then Pgsql.results (p_pgsql p)
  else if decide (proto = RedisProtocol) then Redis.results (p_redis p)
  else Thrift.results (p_thrift p).

Lemma thrift_Init_results x c chan x' : Thrift.Init x false c chan = Ret (x', None) -> Thrift.results x' = chan.
Proof.
  unfold Thrift.Init. destruct (Thrift.readConfig _ _) as [[x1 [err|]]| |]; cbn [obind]; try done. by intros [= <-].
Qed.

Lemma init_plugin_ok c proto p registry p' registry' :
  proto ∈ EnabledProtocolPlugins ->
  init_plugin fuel c proto p registry = Ret (inl (p', registry')) -> map_Forall (plugin_ok program_ok typed_data) registry ->
  map_Forall (plugin_ok program_ok typed_data) registry' /\ p_publisher p' = p_publisher p /\
  (forall q, q ∈ EnabledProtocolPlugins -> channel_of q p' = if decide (q = proto) then Some [] else channel_of q p).
Proof.
  intros Hin E Hr. unfold EnabledProtocolPlugins in *. rewrite !elem_of_cons, elem_of_nil in Hin.
  destruct Hin as [->|[->|[->|[->|[->|[]]]]]]; unfold init_plugin in E; cbn in E;
    try (destruct (Thrift.Init _ _ _ _) as [[x [err|]]| |] eqn:Et; cbn [obind] in E; try done; apply thrift_Init_results in Et);
    injection E as <- <-;
    (split; [apply map_Forall_insert_2; [|done];
       first [apply http_plugin_ok|apply mysql_plugin_ok|apply pgsql_plugin_ok|apply redis_plugin_ok|apply thrift_plugin_ok]|]);
    (split; [done|]); intros q; rewrite !elem_of_cons, elem_of_nil; intros [->|[->|[->|[->|[->|[]]]]]]; cbn; done.
Qed.

Lemma init_plugins_ok c order p registry p' registry' :
  order ⊆ EnabledProtocolPlugins ->
  init_plugins fuel c order p registry = Ret (inl (p', registry')) -> map_Forall (plugin_ok program_ok typed_data) registry ->
  map_Forall (plugin_ok program_ok typed_data) registry' /\ p_publisher p' = p_publisher p /\
  (forall q, q ∈ EnabledProtocolPlugins -> channel_of q p' = if decide (q ∈ order) then Some [] else channel_of q p).
Proof.
  revert p registry. induction order as [|proto order IH]; intros p registry Hs; cbn [init_plugins].
  - intros [= <- <-] Hr. by split.
  - destruct (init_plugin _ _ _ _ _) as [[[p1 r1]|err]| |] eqn:E; cbn [obind]; try done. intros Ei Hr.
    destruct (init_plugin_ok _ _ _ _ _ _ (Hs proto (list_elem_of_here _ _)) E Hr) as (Hr1 & Ep & Hc).
    destruct (IH p1 r1 (fun q Hq => Hs q (list_elem_of_further _ _ _ Hq)) Ei Hr1) as (Hr2 & Ep2 & Hc2).
    split; [exact Hr2|]. split; [congruence|]. intros q Hq. rewrite Hc2 by done. rewrite (Hc q Hq).
    destruct (decide (q ∈ order)), (decide (q = proto)), (decide (q ∈ proto :: order)) as [Hi|Hi]; try done; exfalso; set_solver.
Qed.

(** [h] visits each plugin once at the first iteration over the map. *)
Lemma main_ok f c h (w : OW) (s : System (H := H)) :
  h_order h 0 ≡ₚ EnabledProtocolPlugins -> main fuel f c h w = Ret (inl s) -> system_ok s.
Proof.
  intros Ho. unfold main. destruct (Publisher.Init _ _ _ _ _ _ _ _) as [r [publisher w1]] eqn:Ep.
  destruct r as [[err|]| |]; cbn [obind]; try done. apply Init_queue in Ep.
  destruct (Procs.Init _ _ _ _ _) as [[u| |] watcher]; cbn [obind]; try done.
  set (p0 := {| p_http := new_http |}). destruct (init_plugins _ _ _ _ _) as [[[p registry]|err]| |] eqn:Ei; cbn [obind]; try done.
  assert (h_order h 0 ⊆ EnabledProtocolPlugins) as Hsub by (intros q; by rewrite Ho).
  destruct (init_plugins_ok _ _ _ _ _ _ Hsub Ei (map_Forall_empty _)) as (Hr & Eq & Hc).
  assert (program_ok p) as Hp.
  { assert (forall q, q ∈ EnabledProtocolPlugins -> channel_of q p = Some []) as Hc'.
    { intros q Hq. rewrite Hc by done. rewrite decide_True; [done|]. by rewrite Ho. }
    split; [|by rewrite Eq; cbn; rewrite Ep]. unfold EnabledProtocolPlugins in Hc'.
    split; [exact (Hc' HttpProtocol ltac:(set_solver))|]. split; [exact (Hc' MysqlProtocol ltac:(set_solver))|].
    split; [exact (Hc' PgsqlProtocol ltac:(set_solver))|]. split; [exact (Hc' RedisProtocol ltac:(set_solver))|].
    exact (Hc' ThriftProtocol ltac:(set_solver)). }
  unfold TcpInit. destruct (buildPortsMap _) as [ports|err]; [|done].
  destruct (LoadConfiguredFilters _ _) as [filters|err]; [|done].
  destruct (Sniffer.Init _ _ _ _) as [[sniffer err]| |] eqn:Es; cbn [obind]; [|done..].
  destruct err as [err|]; [done|]. destruct (h_DropPrivileges h); [done|]. destruct (fl_testConfig f); [done|].
  destruct (Datalink sniffer) as [datalink| |]; cbn [obind]; [|done..]. destruct (CreateDecoder datalink) as [parser|] eqn:Ec; [|done].
  intros [= <-]. split.
  - split; [exact Hp|exact Hr|]. by intros q t.
  - split; by intros.
  - cbn [runner]. destruct filters; [done|]. by intros r [= <-].
  - exact (Init_alive _ new_sniffer _ _ eq_refl Es).
  - by exists datalink.
Qed.
End Start.

(** * The filters are not on the way *)

Section Filtering.
Context {UC : Unicode} {RT : Runtime} {PT : PrintTable} {FT : FloatText} {IP : IdlParser} {MI : MapIteration}
        {EV : Environment} {H : Type} {CP : Capture H} {OW : Type}.
Context (fuel : nat).
#[local] Existing Instance eta_System.
#[local] Existing Instance eta_Config.

(** Everything but the goroutine of the filters. *)
Definition unfiltered (o : outcome (System (H := H) (OW := OW))) : outcome (Running H (Tcp (Program OW) ProtocolData * (DecodingLayerParser * DecoderStruct))) :=
  let! s := o in Ret (running s).

(** A runner that has got nothing. *)
Definition runner_idle (s : System (H := H) (OW := OW)) : Prop :=
  forall r, runner s = Some r -> FiltersQueue r = [] /\ Filters.results r = [].

Lemma send_nothing (p : Program OW) : send [] p = p.
Proof. destruct p as [? ? ? ? ? ? [] ?]. unfold send. cbn. by rewrite app_nil_r. Qed.

Lemma with_program_same (s : System (H := H) (OW := OW)) : with_program s (sys_program s) = s.
Proof. by destruct s as [[? ? ? ? ? [[] ?]] ?]. Qed.

(** A turn of the filters changes nothing, and the other steps do not look at them. *)
Lemma exec_unfiltered (s1 s2 : System (H := H) (OW := OW)) a :
  running s1 = running s2 -> runner_idle s1 -> runner_idle s2 ->
  unfiltered (exec s1 a) = unfiltered (exec s2 a) /\
  (forall s', exec s1 a = Ret s' -> runner_idle s') /\ (forall s', exec s2 a = Ret s' -> runner_idle s').
Proof.
  intros E H1 H2. destruct s1 as [r1 f1], s2 as [r2 f2]. cbn in E. subst r2.
  assert (forall f, runner_idle {| running := r1; runner := f |} -> unfiltered (exec {| running := r1; runner := f |} FilterTurn) = Ret r1 /\
            forall s', exec {| running := r1; runner := f |} FilterTurn = Ret s' -> runner_idle s') as Hf.
  { intros [f|] Hi; cbn [exec runner]; [|split; [done|]; by intros s' [= <-]]. destruct (Hi f eq_refl) as [Eq Er].
    rewrite filter_turn_idle, Er, send_nothing, with_program_same by done. split; [done|].
    intros s' [= <-] r' [= <-]. by split. }
  destruct a; try (split; [reflexivity|split; intros s' [= <-]; assumption]).
  - cbn [exec running]. destruct (Sniffer.run_step _ _ _) as [r| |]; cbn [obind]; [|done..].
    split; [reflexivity|split; intros s' [= <-]; assumption].
  - cbn [exec]. change (sys_program {| running := r1; runner := f1 |}) with (sys_program {| running := r1; runner := f2 |}).
    destruct (Pgsql.expireTransaction _ _); cbn [obind]; [|done..]. split; [reflexivity|split; intros s' [= <-]; assumption].
  - destruct (Hf f1 H1) as [-> Hi1], (Hf f2 H2) as [-> Hi2]. by split.
  - cbn [exec]. change (sys_program {| running := r1; runner := f1 |}) with (sys_program {| running := r1; runner := f2 |}).
    destruct (Publisher.publish_next _ _) as [[u| |] [pub w]]; cbn [obind]; [|done..]. split; [reflexivity|split; intros s' [= <-]; assumption].  - cbn [exec]. change (sys_program {| running := r1; runner := f1 |}) with (sys_program {| running := r1; runner := f2 |}).
    destruct (turn _) as [w| |]; cbn [obind]; [|done..]. split; [reflexivity|split; intros s' [= <-]; assumption].
Qed.

Lemma run_unfiltered acts (s1 s2 : System (H := H) (OW := OW)) :
  running s1 = running s2 -> runner_idle s1 -> runner_idle s2 -> unfiltered (run s1 acts) = unfiltered (run s2 acts).
Proof.
  revert s1 s2. induction acts as [|a acts IH]; intros s1 s2 E H1 H2; cbn [run]; [unfold unfiltered; cbn; by rewrite E|].
  destruct (exec_unfiltered s1 s2 a E H1 H2) as (Ee & G1 & G2).
  destruct (exec s1 a) as [t1| |], (exec s2 a) as [t2| |]; try done. cbn [obind].
  apply IH; [by injection Ee|by apply G1|by apply G2].
Qed.

Lemma init_plugins_unfiltered (c : Config (OW := OW)) filters order p registry :
  init_plugins fuel (c <| c_Filter := filters |>) order p registry = init_plugins fuel c order p registry.
Proof.
  revert p registry. induction order as [|proto order IH]; intros p registry; [done|]. cbn [init_plugins].
  change (init_plugin fuel (c <| c_Filter := filters |>) proto p registry) with (init_plugin fuel c proto p registry).
  destruct (init_plugin _ _ _ _ _) as [[[p1 r1]|err]| |]; cbn [obind]; done.
Qed.

Lemma main_unfiltered f (c : Config (OW := OW)) h w filters (s s' : System (H := H) (OW := OW)) :
  main fuel f c h w = Ret (inl s) -> main fuel f (c <| c_Filter := filters |>) h w = Ret (inl s') -> running s = running s'.
Proof.
  unfold main. cbn [c_Interfaces c_Output c_Shipper c_Procs c_Filter set_field].
  destruct (Publisher.Init _ _ _ _ _ _ _ _) as [r [publisher w1]]. destruct r as [[err|]| |]; cbn [obind]; try done.
  destruct (Procs.Init _ _ _ _ _) as [[u| |] watcher]; cbn [obind]; try done. rewrite init_plugins_unfiltered.
  destruct (init_plugins _ _ _ _ _) as [[[p registry]|err]| |]; cbn [obind]; try done.
  destruct (TcpInit _ _) as [tcp|err]; [|done].
  destruct (LoadConfiguredFilters _ (c_Filter c)) as [fs1|err1], (LoadConfiguredFilters _ filters) as [fs2|err2]; try done.
  destruct (Sniffer.Init _ _ _ _) as [[sniffer [err|]]| |]; cbn [obind]; try done. destruct (h_DropPrivileges h); [done|].
  destruct (fl_testConfig f); [done|]. destruct (Datalink sniffer) as [datalink| |]; cbn [obind]; try done.
  destruct (CreateDecoder datalink); [|done]. by intros [= <-] [= <-].
Qed.
End Filtering.

(** * Properties *)

Section Properties.
Context {UC : Unicode} {RT : Runtime} {PT : PrintTable} {FT : FloatText} {IP : IdlParser} {MI : MapIteration}
        {EV : Environment} {H : Type} {CP : Capture H} {OW : Type}.
Context (fuel : nat).
Context (f : Flags) (c : Config (OW := OW)) (h : Host) (w : OW) (s : System (H := H) (OW := OW)).
Context (order : h_order h 0 ≡ₚ EnabledProtocolPlugins) (started : main fuel f c h w = Ret (inl s)).
#[local] Existing Instance eta_Config.

(** C4: from its start on, whatever the goroutines and the timers do in any order, every event
    in the publisher's queue is one that it takes; the private data of every stream are of
    the protocol of the stream, so that no type assertion of a plugin fails and no state of
    a stream is lost; and the streams map is in order. *)
Theorem program_invariant acts s' :
  run s acts = Ret s' ->
  Forall takes (Publisher.Queue (p_publisher (sys_program s'))) /\
  (forall p st d, heap (sys_tcp s') !! p = Some st -> ts_Data st = Some d -> data_protocol d = ts_protocol st) /\
  streams_ok (sys_tcp s').
Proof.
  intros E. destruct (proj2 (run_ok s acts (main_ok fuel f c h w s order started)) s' E) as [[[_ Hq] _ Hd] Hs _ _ _].
  split; [exact Hq|]. split; [|exact Hs]. intros p st d Hp Hsd. exact (Hd p st Hp d Hsd).
Qed.

(** C3: the sniffer, the timers, the plugins, the process watcher, the filters, the publisher and
    the topology timer never end the program with a panic, in whatever order their turns
    come, packets, signals and the turns of the outputs' own goroutines among them: a run
    panics exactly if one of the latter does.  And the publisher refuses no event of the
    plugins: only an output can fail. *)
Theorem program_never_panics acts :
  (run s acts = Panic <->
   exists acts1 turn acts2 s', acts = acts1 ++ OutputTurn turn :: acts2 /\ run s acts1 = Ret s' /\
     turn (p_outputs (sys_program s')) = Panic) /\
  forall s' m queue w, run s acts = Ret s' -> Publisher.Queue (p_publisher (sys_program s')) = m :: queue ->
    exists err w', publishEvent (p_publisher (sys_program s')) m w = (Ret err, w') /\ (err = None \/ err = Some FailToPublish).
Proof.
  destruct (run_ok s acts (main_ok fuel f c h w s order started)) as [Hn Hr]. split.
  { split.
    - intros (acts1 & a & acts2 & s' & -> & E & turn & -> & Ht)%Hn. by exists acts1, turn, acts2, s'.
    - intros (acts1 & turn & acts2 & s' & -> & E & Ht). apply run_panics. by exists acts1, (OutputTurn turn), acts2, s'; repeat split; [|exists turn]. }
  intros s' m queue w' E Eq. destruct (Hr s' E) as [[[_ Hq] _ _] _ _ _ _]. unfold sys_program in Eq. rewrite Eq in Hq.
  apply Forall_cons in Hq as [Hm _]. destruct m as [m|]; [|done]. by apply publishEvent_ok.
Qed.

(** C6: the configured filters do nothing.  With any two configurations that differ in their
    filters only, and whatever happens, the program does the same: the plugins send their
    events to the publisher's queue, and the queue of the filters, which is given to the
    sniffer, stays empty. *)
Theorem filters_never_run filters s2 acts :
  main fuel f (c <| c_Filter := filters |>) h w = Ret (inl s2) ->
  unfiltered (run s acts) = unfiltered (run s2 acts) /\
  forall s' r, run s2 acts = Ret s' -> runner s' = Some r -> FiltersQueue r = [].
Proof.
  intros E2. destruct (main_ok fuel f c h w s order started) as [_ _ Hf _ _].
  pose proof (main_ok fuel f _ h w s2 order E2) as Hok2. split.
  - apply run_unfiltered; [|exact Hf|by destruct Hok2]. exact (main_unfiltered fuel f c h w filters s s2 started E2).
  - intros s' r E Er. destruct (proj2 (run_ok s2 acts Hok2) s' E) as [_ _ Hr _ _]. by destruct (Hr r Er).
Qed.
End Properties.

(** * An example: a Redis exchange, from the capture to an output *)

#[local] Existing Instance Demo.unicode.
#[local] Existing Instance Demo.runtime.
#[local] Existing Instance demo_environment.
#[local] Existing Instance eta_Config.
#[local] Instance demo_print : PrintTable := fun _ => true.
#[local] Instance demo_float : FloatText := fun _ => bs "0".
#[local] Instance demo_idl : IdlParser := fun _ => None.
#[local] Instance demo_iteration : MapIteration := fun A m => map_to_list m.

(** A file with a request and its answer, each in an Ethernet frame. *)
Definition program_link : link := EthernetII (replicate 6 x00) (replicate 6 x00).
Definition program_net (src dst : bytes) : net := V4 0 1 true 64 0 src dst [].
Definition program_segment (src dst : Z) (text : bytes) : segment :=
  {| g_src := src; g_dst := dst; g_seq := 100; g_ack := 0; g_ns := false; g_flags := 0x18; g_window := 512; g_checksum := 0; g_urgent := 0;
     g_options := []; g_payload := text |}.
Definition program_frames : list bytes := [
  frame program_link (program_net (Demo.ip 10 0 0 1) (Demo.ip 10 0 0 2)) (program_segment 40000 6379 (Redis.encode_request [bs "GET"; bs "k"]));
  frame program_link (program_net (Demo.ip 10 0 0 2) (Demo.ip 10 0 0 1)) (program_segment 6379 40000 (bs "+v" ++ Redis.CRLF)) ].

Definition program_capture : Capture (list bytes) := {|
  OpenOffline := fun _ => inl program_frames;
  OpenLive := fun _ _ => inl [];
  NewAfpacketHandle := fun _ _ _ _ => inr (bs "none");
  NewPfringHandle := fun _ _ => inr (bs "none");
  SetBPFFilter := fun _ _ => None;
  Enable := fun _ => None;
  LinkType := fun _ => LinkTypeEthernet;
  ReadPacketData := fun h => match h with [] => (EOF, []) | d :: h => (Data d 7, h) end;
  NewDumper := fun _ _ => None;
  Getpagesize := 4096
|}.
#[local] Existing Instance program_capture.

Definition program_config : Config (OW := list (Z * MapStr)) := {|
  c_Interfaces := {| Device := []; Devices := []; Type_ := []; File := []; Bpf_filter := []; Snaplen := 0; Buffer_size_mb := 0;
                     TopSpeed := false; Dumpfile := []; OneAtATime := false; Loop := 0 |};
  c_Http := {| Http.cfg_Ports := [80]; cfg_Send_all_headers := None; cfg_Send_headers := []; cfg_Split_cookie := None;
               cfg_Real_ip_header := None; cfg_Include_body_for := []; cfg_Hide_keywords := []; cfg_Strip_authorization := None;
               Http.cfg_Send_request := None; Http.cfg_Send_response := None |};
  c_Mysql := {| Mysql.cfg_Ports := [3306]; Mysql.cfg_Max_row_length := None; Mysql.cfg_Max_rows := None;
                Mysql.cfg_Send_request := None; Mysql.cfg_Send_response := None |};
  c_Pgsql := {| Pgsql.cfg_Ports := [5432]; Pgsql.cfg_Max_row_length := None; Pgsql.cfg_Max_rows := None;
                Pgsql.cfg_Send_request := None; Pgsql.cfg_Send_response := None |};
  c_Redis := {| Redis.cfg_Ports := [6379]; Redis.cfg_Send_request := None; Redis.cfg_Send_response := None |};
  c_Thrift := {| Thrift.cfg_Ports := [9090]; cfg_String_max_size := None; cfg_Collection_max_size := None;
                 cfg_Drop_after_n_struct_fields := None; cfg_Transport_type := None; cfg_Protocol_type := None;
                 cfg_Capture_reply := None; cfg_Obfuscate_strings := None; cfg_Idl_files := [];
                 Thrift.cfg_Send_request := None; Thrift.cfg_Send_response := None |};
  c_Output := [(log_output [] [], Some {| Enabled := true; Save_topology := false |})];
  c_Shipper := demo_shipper;
  c_Procs := {| cf_Enabled := false; cf_Max_proc_read_freq := 0; cf_Monitored := []; cf_Refresh_pids_freq := 0 |};
  c_Filter := ∅
|}.
Definition program_filters : gmap bytes iface := {[ bs "filters" := ISeq [IStr (bs "nop")] ]}.

Definition program_flags : Flags :=
  {| fl_file := bs "in.pcap"; fl_loop := 1; fl_oneAtAtime := false; fl_topSpeed := true; fl_publishDisabled := false;
     fl_dumpfile := []; fl_testConfig := false |}.
Definition program_host : Host :=
  {| h_order := fun _ => EnabledProtocolPlugins; h_GeoIP := None; h_Hostname := None; h_InterfaceAddrs := Some [];
     h_linux := true; h_now := 0; h_DropPrivileges := None |}.

Abbreviation program_start c := (main (H := list bytes) 10 program_flags c program_host []).

(** The sniffer reads the file, timers fire, and the publisher takes what was queued. *)
Definition program_acts : list (action (OW := list (Z * MapStr))) :=
  [SnifferTurn 1 []; PublisherTurn; FilterTurn; SnifferTurn 2 [x00]; SnifferTurn 3 []; StreamTimer 0; FilterTurn; PublisherTurn; Signal].

(** A fact about every start and run that succeeds, decided by evaluation. *)
Definition on_run (c : Config (OW := list (Z * MapStr))) (P : System (H := list bytes) -> bool) : bool :=
  match program_start c with
  | Ret (inl s) => match run s program_acts with Ret s' => P s' | _ => false end
  | _ => false
  end.

Lemma program_runs c P : on_run c P = true ->
  exists s s', program_start c = Ret (inl s) /\ run s program_acts = Ret s' /\ P s' = true.
Proof.
  unfold on_run. destruct (program_start c) as [[s|]| |]; try done. destruct (run _ _) as [s'| |] eqn:E; try done.
  intros HP. by exists s, s'.
Qed.

(** The output has the event of the exchange. *)
Definition is_text (ev : MapStr) (key text : string) : bool :=
  match ev !! bs key with Some (MStr s) => bool_decide (s = bs text) | _ => false end.
Definition published (s : System (H := list bytes) (OW := list (Z * MapStr))) : bool :=
  match p_outputs (sys_program s) with
  | [(ts, ev)] => bool_decide (ts = 1) && is_text ev "query" "GET k" && is_text ev "client_ip" "10.0.0.1" &&
                  is_text ev "status" "OK"
  | _ => false
  end.

Lemma program_demo : on_run program_config published = true.
Proof. vm_compute. reflexivity. Qed.

Lemma program_demo_filtered : on_run (program_config <| c_Filter := program_filters |>) published = true.
Proof. vm_compute. reflexivity. Qed.

Lemma program_invariant_witness :
  exists s s', program_start program_config = Ret (inl s) /\ run s program_acts = Ret s' /\
    published s' = true /\ streams_ok (sys_tcp s').
Proof.
  destruct (program_runs _ _ program_demo) as (s & s' & Hs & Hr & Hp). exists s, s'.
  split; [exact Hs|]. split; [exact Hr|]. split; [exact Hp|].
  destruct (program_invariant 10 program_flags program_config program_host [] s
    (Permutation_refl _) Hs program_acts s' Hr) as (_ & _ & H). exact H.
Defined.

(** Turns of the program's own goroutines, between turns of an output's that empties its queue. *)
Definition own (a : action (OW := list (Z * MapStr))) : Prop := match a with OutputTurn turn => turn = fun _ => Ret [] | _ => True end.

Lemma program_never_panics_witness :
  exists s, program_start program_config = Ret (inl s) /\ (forall acts, Forall own acts -> run s acts <> Panic) /\
    run s [OutputTurn (fun _ => Panic)] = Panic.
Proof.
  destruct (program_runs _ _ program_demo) as (s & s' & Hs & Hr & Hp). exists s. split; [exact Hs|]. split.
  - intros acts Ha E. destruct (program_never_panics 10 program_flags program_config program_host [] s
      (Permutation_refl _) Hs acts) as [[H _] _]. destruct (H E) as (acts1 & turn & acts2 & s1 & -> & _ & Ht).
    apply Forall_app in Ha as [_ [Ha _]%Forall_cons]. cbn in Ha. by subst turn.
  - destruct (program_never_panics 10 program_flags program_config program_host [] s
      (Permutation_refl _) Hs [OutputTurn (fun _ => Panic)]) as [[_ H] _]. apply H.
    exists [], (fun _ => Panic), [], s. split; [reflexivity|]. split; reflexivity.
Defined.

Lemma filters_never_run_witness :
  exists s s2, program_start program_config = Ret (inl s) /\
    program_start (program_config <| c_Filter := program_filters |>) = Ret (inl s2) /\
    forall acts, unfiltered (run s acts) = unfiltered (run s2 acts).
Proof.
  destruct (program_runs _ _ program_demo) as (s & s' & Hs & Hr & Hp).
  destruct (program_runs _ _ program_demo_filtered) as (s2 & s2' & Hs2 & Hr2 & Hp2).
  exists s, s2. split; [exact Hs|]. split; [exact Hs2|]. intros acts.
  destruct (filters_never_run 10 program_flags program_config program_host [] s
    (Permutation_refl _) Hs program_filters s2 acts Hs2) as [H _]. exact H.
Defined.
