(* ===== verification/RedisSession.v ===== *)
(** A Redis session over TCP: however the requests and the replies of a connection are cut
    into segments, and whatever segments are sent again, the program publishes one event per
    exchange, in order. *)
From S2P Require Import GopacketFrames.
From S2P Require Import Redis Events Publisher Procs Filters Sniffer TcpRule System.
From stdpp Require Import list.
#[local] Open Scope Z_scope.

(** * Messages in pieces *)

Section Pieces.
Context {UC : Unicode}.

(** A stream between two messages: what it holds is [m], from its start. *)
Definition fresh_stream (ts : Z) (m : bytes) (s : RedisStream) : Prop :=
  Redis.s_parseOffset s = 0 /\ vis (Redis.s_data s) = m /\ Redis.s_message s = Redis.newMessage ts.

(** The bytes [m] are one message, read as [M ts]; no error line comes before its last turn. *)
Definition reads (m : bytes) (M : Z -> RedisMessage) : Prop :=
  (forall ts, Redis.m_Ts (M ts) = ts) /\
  forall ts s, fresh_stream ts m s ->
    exists k u e t, Prelude.iter Redis.parser_step k (s, false) = Some (u, false) /\
      Redis.parser_step (u, false) = Ret (inr (t, e, (true, true))) /\
      t = s <| Redis.s_parseOffset := len m |> <| Redis.s_message := M ts |>.

Lemma fresh_ok ts m s : fresh_stream ts m s -> Redis.stream_ok s.
Proof. intros (Ho & Hd & _). unfold Redis.stream_ok. rewrite Ho, Hd. len_lia. Qed.

Lemma reads_parser m M ts s :
  reads m M -> fresh_stream ts m s ->
  Redis.redisMessageParser s = Ret (s <| Redis.s_parseOffset := len m |> <| Redis.s_message := M ts |>, (true, true)).
Proof.
  intros [_ Hr] Hs. destruct (Hr ts s Hs) as (k & u & e & t & Hi & Hst & ->). unfold Redis.redisMessageParser.
  rewrite (loop_iter_Ret Redis.parser_step _ k _ _ _ Hi Hst); [done|]. apply Redis.parser_loop_fuel; [by eapply fresh_ok|done].
Qed.

(** An error line stays one. *)
Lemma redis_read_flag s t v e : Redis.redis_read s true = Ret (Redis.RValue t v e) -> e = true.
Proof.
  unfold Redis.redis_read, Redis.read_multi_bulk, Redis.read_bulk, Redis.read_integer, Redis.read_status.
  destruct (at_ _ _) as [c| |]; cbn [obind]; [|done..].
  repeat (match goal with |- (if ?b then _ else _) = _ -> _ => destruct b end);
    repeat (match goal with
            | |- obind ?o _ = _ -> _ => destruct o as [?| |]; cbn [obind]; [|done..]
            | |- (let '(_, _) := ?x in _) = _ -> _ => destruct x
            | |- (match ?x with Some _ => _ | None => _ end) = _ -> _ => destruct x
            | |- (if ?b then _ else _) = _ -> _ => destruct b
            | |- (let x := _ in _) = _ -> _ => cbv zeta
            end; cbn [obind]; try done); try (by intros [= _ _ <-]).
Qed.

Lemma parser_step_flag s t e : Redis.parser_step (s, true) = Ret (inl (t, e)) -> e = true.
Proof.
  unfold Redis.parser_step. case_decide; [|done]. destruct (Redis.redis_read s true) as [[]| |] eqn:Er; cbn [obind]; try done.
  - by intros [= _ <-].
  - destruct (Redis.add_value _ _ _) as [? []]; [done|]. intros [= _ <-]. by eapply redis_read_flag.
Qed.

Lemma iter_flag j s t e : Prelude.iter Redis.parser_step j (s, true) = Some (t, e) -> e = true.
Proof.
  revert s. induction j as [|j IH]; intros s; cbn [Prelude.iter]; [by intros [= _ <-]|].
  destruct (Redis.parser_step (s, true)) as [[[u f]|?]| |] eqn:E; try done. apply parser_step_flag in E as ->. apply IH.
Qed.

(** A strict prefix of a message is waited on, with the flag down. *)
Lemma reads_prefix m M ts p x s :
  reads m M -> m = p ++ x -> x <> [] -> fresh_stream ts p s ->
  exists t, Redis.redisMessageParser s = Ret (t, (true, false)) /\ Redis.waiting_flag s = false /\ Redis.s_data t = Redis.s_data s /\
    Redis.stream_ok t.
Proof.
  intros Hr -> Hx Hs. pose proof (fresh_ok _ _ _ Hs) as Hok. destruct Hs as (Ho & Hd & Hm).
  set (s' := s <| Redis.s_data := mkSlice (p ++ x) [] |>).
  assert (fresh_stream ts (p ++ x) s') as Hs' by done.
  assert (Redis.extends x s s') as Hext by (exists (mkSlice (p ++ x) []); by rewrite Hd).
  destruct (proj2 Hr ts s' Hs') as (k & u & e & t' & Hi & Hst & Et).
  destruct (Redis.redisMessageParser_total s Hok) as (t & ok & c & Ep & Hlt & Hdat & Hcmp).
  assert (ok = true /\ c = false) as [-> ->].
  { destruct (decide ((ok, c) = (true, false))) as [[= -> ->]|Hne]; [done|]. exfalso.
    destruct (Redis.parser_ext x s s' t (ok, c) Hok Hext Ep ltac:(done)) as (t2 & E2 & (d2 & -> & _)).
    rewrite (reads_parser _ _ _ _ Hr Hs') in E2.
    assert (len (p ++ x) = Redis.s_parseOffset t /\ ok = true) as [E3 ->].
    { split; [|congruence]. change (Redis.s_parseOffset (s' <| Redis.s_parseOffset := len (p ++ x) |> <| Redis.s_message := M ts |>)
        = Redis.s_parseOffset (t <| Redis.s_data := d2 |>)). congruence. }
    destruct (Hdat eq_refl) as [_ Hle]. rewrite Hd in Hle.
    destruct x; [done|]. rewrite <- E3 in Hle. revert Hle. len_lia. }
  exists t. split; [exact Ep|]. destruct (Hdat eq_refl) as [Hdt Hle].
  split; [|split; [exact Hdt|unfold Redis.stream_ok in *; rewrite Hdt; lia]].
  unfold Redis.waiting_flag. unfold Redis.redisMessageParser in Ep.
  destruct (loop Redis.parser_step (Redis.parser_fuel s) (s, false)) as [[[t0 f] r]| |] eqn:El; try done.
  cbn [obind] in Ep. injection Ep as -> ->. apply loop_Ret_iter in El as (j & [w g] & _ & Hj & Hw).
  assert (g = f) as ->.
  { unfold Redis.parser_step in Hw. revert Hw. case_decide; [|by intros [= _ <-]].
    destruct (Redis.redis_read w g) as [[]| |]; cbn [obind]; try done; try (by intros [= _ <-]).
    by destruct (Redis.add_value _ _ _) as [? []]. }
  destruct f; [|done]. exfalso.
  destruct (Redis.parser_iter_ext x j s s' false w true Hok Hext Hj) as (w' & Hj' & _ & _).
  destruct (Nat.le_gt_cases j k) as [Hle'|Hgt].
  - replace k with (j + (k - j))%nat in Hi by lia. rewrite (iter_plus _ _ _ _ _ Hj') in Hi. by apply iter_flag in Hi.
  - replace j with (k + S (j - k - 1))%nat in Hj' by lia. rewrite (iter_plus _ _ _ _ _ Hi) in Hj'. cbn [Prelude.iter] in Hj'. by rewrite Hst in Hj'.
Qed.

(** A stream that has received the part [p] of a message and waits: with more bytes it is
    read as a fresh stream is. *)
Definition partial (ts : Z) (p : bytes) (s : RedisStream) : Prop :=
  vis (Redis.s_data s) = p /\
  forall d x, vis d = p ++ x -> exists s0, fresh_stream ts (p ++ x) s0 /\ Redis.s_data s0 = d /\
    Redis.redisMessageParser (s <| Redis.s_data := d |>) = Redis.redisMessageParser s0.

Lemma partial_start ts s : fresh_stream ts [] s -> partial ts [] s.
Proof. intros (Ho & Hd & Hm). split; [done|]. intros d x Hx. by exists (s <| Redis.s_data := d |>). Qed.

Lemma partial_more m M ts p a x s d :
  reads m M -> m = (p ++ a) ++ x -> x <> [] -> partial ts p s -> vis d = p ++ a ->
  exists t, Redis.redisMessageParser (s <| Redis.s_data := d |>) = Ret (t, (true, false)) /\ partial ts (p ++ a) t.
Proof.
  intros Hr Hm Hx [_ Hp] Hd. destruct (Hp d a Hd) as (s0 & Hs0 & Ed & ->).
  destruct (reads_prefix m M ts (p ++ a) x s0 Hr Hm Hx Hs0) as (t & Et & Hf & Hdt & Hok). exists t. split; [exact Et|].
  split; [by rewrite Hdt, Ed|]. intros d' y Hy. exists (s0 <| Redis.s_data := d' |>).
  destruct Hs0 as (Ho & Hv & Hm0). split; [done|]. split; [done|]. symmetry.
  apply (Redis.parser_resume y s0 _ t); [by eapply fresh_ok|exact Et|exact Hf| | |done].
  - exists d'. by rewrite Hv.
  - exists d'. by rewrite Hdt, Hv.
Qed.

Lemma partial_done m M ts p a s d :
  reads m M -> m = p ++ a -> partial ts p s -> vis d = p ++ a ->
  exists s0, fresh_stream ts m s0 /\ Redis.redisMessageParser (s <| Redis.s_data := d |>) =
    Ret (s0 <| Redis.s_parseOffset := len m |> <| Redis.s_message := M ts |>, (true, true)).
Proof.
  intros Hr -> [_ Hp] Hd. destruct (Hp d a Hd) as (s0 & Hs0 & Ed & ->). exists s0. split; [exact Hs0|]. by apply reads_parser.
Qed.

(** ** What [Parse] does with a piece *)

Context {RT : Runtime} {W : Type} {PW : ProcWatcher W}.

(** The stream that a packet is added to; a new one is empty. *)
Definition before (pkt : Packet) (tcptuple : TcpTuple) (old : option RedisStream) : RedisStream :=
  default (Redis.received {| pk_Ts := pk_Ts pkt; pk_Tuple := pk_Tuple pkt; pk_Payload := mkSlice [] [] |} tcptuple None) old.

Lemma received_before pkt tcptuple old :
  exists d, Redis.received pkt tcptuple old = before pkt tcptuple old <| Redis.s_data := d |> /\
    vis d = vis (Redis.s_data (before pkt tcptuple old)) ++ vis (pk_Payload pkt).
Proof.
  destruct old as [s|]; cbn; [|by exists (pk_Payload pkt)]. eexists. split; [reflexivity|]. apply append_vis.
Qed.

Lemma small_enough old s : len (vis (Redis.s_data s)) <= TCP_MAX_DATA_IN_STREAM -> Redis.too_large old s = false.
Proof. intros H. unfold Redis.too_large. destruct old; [|done]. apply bool_decide_eq_false. lia. Qed.

Lemma Parse_wait m M ts p x pkt tcptuple dir private (st : Redis * W) old :
  reads m M -> len m <= TCP_MAX_DATA_IN_STREAM -> get2 (default nil2 private) dir = Ret old ->
  m = (p ++ vis (pk_Payload pkt)) ++ x -> x <> [] -> vis (pk_Payload pkt) <> [] -> partial ts p (before pkt tcptuple old) ->
  exists t, Redis.Parse pkt tcptuple dir private st = Ret (Some (set2 (default nil2 private) dir (Some t)), st) /\
    partial ts (p ++ vis (pk_Payload pkt)) t.
Proof.
  intros Hr Hl Hg Hm Hx Hn Hp. destruct (received_before pkt tcptuple old) as (d & Er & Hd).
  rewrite (proj1 Hp) in Hd. destruct (partial_more m M ts p _ x _ d Hr Hm Hx Hp Hd) as (t & Et & Ht).
  exists t. split; [|exact Ht]. unfold Redis.Parse. rewrite Hg, Er.
  rewrite small_enough by (subst m; revert Hl; cbn [Redis.s_data set_field]; rewrite Hd; len_lia).
  unfold Redis.parse_loop. rewrite loop_S. unfold Redis.parse_step at 1. cbn [Redis.s_data set_field].
  rewrite decide_True by (rewrite Hd; destruct (vis (pk_Payload pkt)); [done|len_lia]). rewrite Et. reflexivity.
Qed.

Lemma Parse_done m M ts p pkt tcptuple dir private (st : Redis * W) old :
  reads m M -> len m <= TCP_MAX_DATA_IN_STREAM -> get2 (default nil2 private) dir = Ret old ->
  m = p ++ vis (pk_Payload pkt) -> vis (pk_Payload pkt) <> [] -> partial ts p (before pkt tcptuple old) ->
  exists t, Redis.Parse pkt tcptuple dir private st =
      Ret (Some (set2 (default nil2 private) dir (Some t)), Redis.handleRedis st (M ts) tcptuple dir) /\
    fresh_stream ts [] t.
Proof.
  intros Hr Hl Hg Hm Hn Hp. destruct (received_before pkt tcptuple old) as (d & Er & Hd).
  rewrite (proj1 Hp) in Hd. destruct (partial_done m M ts p _ _ d Hr Hm Hp Hd) as (s0 & (Ho & Hv & Hm0) & Et).
  set (u := s0 <| Redis.s_parseOffset := len m |> <| Redis.s_message := M ts |>) in Et.
  assert (vis (Redis.s_data u) = m /\ Redis.s_parseOffset u = len m /\ Redis.s_message u = M ts) as (Hu & Hou & Hmu) by done.
  assert (Redis.stream_ok u) as Hok by (unfold Redis.stream_ok; rewrite Hu, Hou; len_lia).
  pose proof (Redis.PrepareForNewMessage_total u Hok) as Eq. rewrite Hu, Hou, Hmu, (proj1 Hr) in Eq.
  assert (drop (Z.to_nat (len m)) m = []) as Edr by (pose proof (drop_len_app m []) as E; by rewrite app_nil_r in E).
  rewrite Edr in Eq. eexists. split.
  - unfold Redis.Parse. rewrite Hg, Er.
    rewrite small_enough by (cbn [Redis.s_data set_field]; rewrite Hd, <- Hm; exact Hl).
    unfold Redis.parse_loop. rewrite loop_S. unfold Redis.parse_step at 1. cbn [Redis.s_data set_field].
    assert (0 < len (p ++ vis (pk_Payload pkt))) as Hpos by (destruct (vis (pk_Payload pkt)); [done|len_lia]).
    rewrite decide_True by (rewrite Hd; lia). rewrite Et. cbn [negb]. rewrite Eq, Hmu.
    replace (length (vis d)) with (S (pred (length (vis d)))) by (rewrite Hd; unfold len in Hpos; lia).
    rewrite loop_S. unfold Redis.parse_step at 1. cbn [Redis.s_data set_field vis]. rewrite decide_False by done. reflexivity.
  - done.
Qed.
End Pieces.

(** * Requests and replies on the wire *)

Section Wire.
Context {UC : Unicode}.

(** A request: the arguments of a command that the plugin knows. *)
Definition request_ok (args : list bytes) : Prop :=
  args <> [] /\ Forall Redis.bulk_ok args /\ len args < 2 ^ 63 /\
  Redis.isRedisCommand (default [] (head args)) = true.

(** The replies of one value, and arrays of strings. *)
Inductive reply := RStatus (s : bytes) | RError (s : bytes) | RInteger (z : Z) | RBulk (a : bytes) | RNil | RArray (l : list bytes).

Definition encode_reply (r : reply) : bytes :=
  match r with
  | RStatus s => "+"%byte :: s ++ Redis.CRLF
  | RError s => "-"%byte :: s ++ Redis.CRLF
  | RInteger z => ":"%byte :: Itoa z ++ Redis.CRLF
  | RBulk a => Redis.encode_bulk a
  | RNil => bs "$-1" ++ Redis.CRLF
  | RArray l => Redis.encode_request l
  end.

Definition reply_ok (r : reply) : Prop :=
  match r with
  | RStatus s | RError s => index_nat s Redis.CRLF = None
  | RInteger z => - 2 ^ 63 <= z < 2 ^ 63
  | RBulk a => Redis.bulk_ok a
  | RNil => True
  | RArray l => l <> [] /\ Forall Redis.bulk_ok l /\ len l < 2 ^ 63 /\ Redis.isRedisCommand (default [] (head l)) = false
  end.

(** The text that the event gets, and whether it is an error.  An array whose first string is
    the name of a command would be taken for a request. *)
Definition reply_text (r : reply) : bytes :=
  match r with RStatus s | RError s => s | RInteger z => Itoa z | RBulk a => a | RNil => bs "nil" | RArray l => GoStd.Join l (bs " ") end.
Definition reply_error (r : reply) : bool := match r with RError _ => true | _ => false end.

Definition request_message (args : list bytes) (ts : Z) : RedisMessage :=
  Redis.complete_request (Redis.newMessage ts) args (len (Redis.encode_request args)).
Definition reply_message (r : reply) (ts : Z) : RedisMessage :=
  Redis.newMessage ts <| Redis.m_Bulks := match r with RArray l => l | _ => [] end |> <| Redis.m_Message := reply_text r |>
    <| Redis.m_Size := len (encode_reply r) |> <| Redis.m_IsError := reply_error r |>.

Lemma reads_request args : request_ok args -> reads (Redis.encode_request args) (request_message args).
Proof.
  intros (Hne & Hok & Hlen & _). split.
  { intros ts. unfold request_message, Redis.complete_request, Redis.partial_request, Redis.request_fields.
    destruct args as [|a [|b args]]; [done|..]; cbn; by repeat case_match. }
  intros ts s (Ho & Hd & Hm).
  destruct (Redis.request_turns s [] args [] Hne Hok Hlen) as (k & u & Hi & Hs); [by rewrite Hd, app_nil_r|done|].
  rewrite Hm in Hs. do 4 eexists. split; [exact Hi|]. split; [exact Hs|done].
Qed.

(** A value that stands alone is a message. *)
Lemma reads_value m v e s ts :
  fresh_stream ts m s -> m <> [] -> Redis.redis_read s false = Ret (Redis.RValue (s <| Redis.s_parseOffset := len m |>) v e) ->
  exists k u e' t, Prelude.iter Redis.parser_step k (s, false) = Some (u, false) /\
    Redis.parser_step (u, false) = Ret (inr (t, e', (true, true))) /\
    t = s <| Redis.s_parseOffset := len m |>
          <| Redis.s_message := Redis.newMessage ts <| Redis.m_Message := v |> <| Redis.m_Size := len m |> <| Redis.m_IsError := e |> |>.
Proof.
  intros (Ho & Hd & Hm) Hne Hr. exists 0%nat, s, e, (s <| Redis.s_parseOffset := len m |>
    <| Redis.s_message := Redis.newMessage ts <| Redis.m_Message := v |> <| Redis.m_Size := len m |> <| Redis.m_IsError := e |> |>).
  split; [done|]. split; [|done]. unfold Redis.parser_step.
  rewrite decide_True by (rewrite Ho, Hd; destruct m; [done|len_lia]). rewrite Hr. cbn [obind].
  unfold Redis.add_value. cbn [Redis.s_message set_field Redis.s_parseOffset]. rewrite Hm. rewrite decide_False by (cbn; lia).
  by destruct e.
Qed.

(** The line of a reply. *)
Lemma read_line s c l :
  Redis.s_parseOffset s = 0 -> vis (Redis.s_data s) = (c :: l) ++ Redis.CRLF -> c <> x0d -> index_nat l Redis.CRLF = None ->
  at_ (vis (Redis.s_data s)) 0 = Ret c /\
  Redis.readLine (Redis.s_data s) (Redis.s_parseOffset s) = Ret (true, c :: l, len ((c :: l) ++ Redis.CRLF)).
Proof.
  intros Ho Hd Hc Hl. split; [by rewrite Hd|]. rewrite Ho, len_app.
  change (Redis.readLine (Redis.s_data s) 0) with (Redis.readLine (Redis.s_data s) (len (@nil byte))).
  rewrite (Redis.readLine_at (Redis.s_data s) [] (c :: l) []); [done|by rewrite Hd|].
  cbn [index_nat has_prefix Redis.CRLF]. destruct (Byte.eqb x0d c) eqn:E; [apply beqb_eq in E; congruence|].
  cbn [andb]. change [x0d; x0a] with Redis.CRLF. by rewrite Hl.
Qed.

Lemma Itoa_line z : index_nat (Itoa z) Redis.CRLF = None.
Proof.
  apply index_nat_notin. destruct (decide (z < 0)).
  - replace (Itoa z) with ("-"%byte :: Itoa (- z)) by (unfold Itoa; by rewrite (decide_True (P := z < 0)), decide_False by lia).
    constructor; [done|]. apply Itoa_digits; [done|lia].
  - apply Itoa_digits; [done|lia].
Qed.

Lemma reads_reply r : reply_ok r -> reads (encode_reply r) (reply_message r).
Proof.
  intros Hok. split; [by destruct r|]. intros ts s Hs. pose proof Hs as (Ho & Hd & Hm).
  destruct r as [l|l|z|a| |l]; cbn [encode_reply reply_ok] in *.
  - destruct (read_line s "+"%byte l Ho Hd ltac:(done) Hok) as [Hc Hl].
    apply (reads_value _ l false s ts Hs ltac:(done)). unfold Redis.redis_read. rewrite Ho, Hc. cbn [obind].
    unfold Redis.read_status. rewrite Hl. cbn [obind negb]. rewrite Redis.str_from_cons. done.
  - destruct (read_line s "-"%byte l Ho Hd ltac:(done) Hok) as [Hc Hl].
    apply (reads_value _ l true s ts Hs ltac:(done)). unfold Redis.redis_read. rewrite Ho, Hc. cbn [obind].
    unfold Redis.read_status. rewrite Hl. cbn [obind negb]. rewrite Redis.str_from_cons. done.
  - destruct (read_line s ":"%byte (Itoa z) Ho Hd ltac:(done) (Itoa_line z)) as [Hc Hl].
    apply (reads_value _ (Itoa z) false s ts Hs ltac:(done)). unfold Redis.redis_read. rewrite Ho, Hc. cbn [obind].
    unfold Redis.read_integer. rewrite Hl. cbn [obind negb]. rewrite Redis.str_from_cons. cbn [obind].
    rewrite ParseInt_Itoa_signed by done. done.
  - apply (reads_value _ a false s ts Hs); [done|].
    by rewrite (Redis.read_bulk_at s false [] a []) by (done || by rewrite Hd, app_nil_r).
  - destruct (read_line s "$"%byte (bs "-1") Ho Hd ltac:(done) ltac:(done)) as [Hc Hl].
    apply (reads_value _ (bs "nil") false s ts Hs ltac:(done)). unfold Redis.redis_read. rewrite Ho, Hc. cbn [obind].
    unfold Redis.read_bulk. rewrite Hl. done.
  - destruct Hok as (Hne & Hb & Hlen & Hc).
    destruct (Redis.request_turns s [] l [] Hne Hb Hlen) as (k & u & Hi & Hst); [by rewrite Hd, app_nil_r|done|].
    rewrite Hm in Hst. do 4 eexists. split; [exact Hi|]. split; [exact Hst|]. unfold reply_message, Redis.complete_request, Redis.partial_request, Redis.request_fields.
    destruct l as [|a [|b l]]; [done|..]; change (Redis.isRedisCommand a = false) in Hc; rewrite Hc; done.
Qed.
End Wire.

(** * Sessions in the program *)

Section Session.
Context {UC : Unicode} {RT : Runtime} {EV : Environment} {OW : Type}.
Context (ports : list Z) (tcptuple : TcpTuple).
Implicit Types (P : Program OW) (private : option ProtocolData).

Abbreviation pl := (redis_plugin (OW := OW) ports).
Definition payload (pkt : Packet) : bytes := vis (pk_Payload pkt).

(** What the plugin holds of the connection. *)
Definition held private : Redis.redisPrivateData := default nil2 (asserted (H := redis_slot (OW := OW)) private).

Lemma commit_same P : Redis.results (p_redis P) = Some [] -> commit (p_redis P) (p_procs P) P = P.
Proof.
  destruct P as [? ? ? [] ? ? [] ?]. cbn. intros ->. unfold commit, send. cbn. by rewrite app_nil_r.
Qed.

(** A message handled by the plugin. *)
Definition handled (M : RedisMessage) (dir : Z) P : Program OW :=
  let '(redis, w) := Redis.handleRedis (p_redis P, p_procs P) M tcptuple dir in commit redis w P.

Lemma deliver_wait m M ts p x pkt dir private P old :
  reads m M -> len m <= TCP_MAX_DATA_IN_STREAM -> get2 (held private) dir = Ret old -> Redis.results (p_redis P) = Some [] ->
  m = (p ++ payload pkt) ++ x -> x <> [] -> payload pkt <> [] -> partial ts p (before pkt tcptuple old) ->
  exists t, Protos.Parse pl pkt tcptuple dir private P = (Ret (Some (RedisData (set2 (held private) dir (Some t)))), P) /\
    partial ts (p ++ payload pkt) t.
Proof.
  intros Hr Hl Hg Hres Hm Hx Hn Hp.
  destruct (Parse_wait m M ts p x pkt tcptuple dir (asserted (H := redis_slot (OW := OW)) private) (p_redis P, p_procs P) old Hr Hl Hg Hm Hx Hn Hp)
    as (t & E & Ht).
  exists t. split; [|exact Ht]. cbn [redis_plugin Protos.Parse]. unfold parsing.
  change (plugin_of P) with (p_redis P). rewrite E. cbn [fmap option_fmap option_map]. by rewrite commit_same.
Qed.

Lemma deliver_done m M ts p pkt dir private P old :
  reads m M -> len m <= TCP_MAX_DATA_IN_STREAM -> get2 (held private) dir = Ret old ->
  m = p ++ payload pkt -> payload pkt <> [] -> partial ts p (before pkt tcptuple old) ->
  exists t, Protos.Parse pl pkt tcptuple dir private P =
      (Ret (Some (RedisData (set2 (held private) dir (Some t)))), handled (M ts) dir P) /\ fresh_stream ts [] t.
Proof.
  intros Hr Hl Hg Hm Hn Hp.
  destruct (Parse_done m M ts p pkt tcptuple dir (asserted (H := redis_slot (OW := OW)) private) (p_redis P, p_procs P) old Hr Hl Hg Hm Hn Hp)
    as (t & E & Ht).
  exists t. split; [|exact Ht]. cbn [redis_plugin Protos.Parse]. unfold parsing, handled.
  change (plugin_of P) with (p_redis P). rewrite E. by destruct (Redis.handleRedis _ _ _ _).
Qed.

(** The plugin ends on each packet of the list. *)
Definition ends (acc : option ProtocolData * Program OW) (fresh : list (Z * Packet)) : Prop :=
  forall pre dir pkt post, fresh = pre ++ (dir, pkt) :: post ->
    let acc := foldl (deliver_dir pl tcptuple) acc pre in fst (Protos.Parse pl pkt tcptuple dir (fst acc) (snd acc)) <> OutOfFuel.

Lemma ends_cons acc dir pkt fresh :
  fst (Protos.Parse pl pkt tcptuple dir (fst acc) (snd acc)) <> OutOfFuel ->
  ends (deliver_dir pl tcptuple acc (dir, pkt)) fresh -> ends acc ((dir, pkt) :: fresh).
Proof.
  intros H1 H2 [|x pre] d k post E; [injection E as -> -> ->; exact H1|].
  injection E as <- E. exact (H2 pre d k post E).
Qed.

Lemma ends_app acc f1 f2 : ends acc f1 -> ends (foldl (deliver_dir pl tcptuple) acc f1) f2 -> ends acc (f1 ++ f2).
Proof.
  revert acc. induction f1 as [|[dir pkt] f1 IH]; intros acc H1 H2; [exact H2|]. cbn [app]. apply ends_cons.
  - exact (H1 [] dir pkt f1 eq_refl).
  - apply IH; [|exact H2]. intros pre d k post ->. exact (H1 ((dir, pkt) :: pre) d k post eq_refl).
Qed.

(** All the pieces of a message. *)
Lemma deliver_pieces m M ts dir :
  reads m M -> len m <= TCP_MAX_DATA_IN_STREAM -> valid_dir dir -> forall segs p private P,
  Redis.results (p_redis P) = Some [] -> segs <> [] -> Forall (fun pkt => payload pkt <> []) segs ->
  m = p ++ concat (map payload segs) ->
  (forall pkt old, head segs = Some pkt -> get2 (held private) dir = Ret old -> partial ts p (before pkt tcptuple old)) ->
  ends (private, P) (map (pair dir) segs) /\
  exists t, fresh_stream ts [] t /\
    foldl (deliver_dir pl tcptuple) (private, P) (map (pair dir) segs) =
    (Some (RedisData (set2 (held private) dir (Some t))), handled (M ts) dir P).
Proof.
  intros Hr Hl Hdir. induction segs as [|pkt segs IH]; intros p private P Hres Hne Hall Hm Hp; [done|].
  apply Forall_cons in Hall as [Hn Hall]. destruct (Redis.get2_valid (held private) dir Hdir) as [old Hg].
  specialize (Hp pkt old eq_refl Hg) as Hp1. cbn [map concat] in Hm. cbn [map foldl].
  destruct segs as [|pkt2 segs].
  - rewrite app_nil_r in Hm. destruct (deliver_done m M ts p pkt dir private P old Hr Hl Hg Hm Hn Hp1) as (t & E & Ht). split.
    + apply ends_cons; [cbn [fst snd]; by rewrite E|]. intros [|? ?] ? ? ? ?; done.
    + exists t. split; [exact Ht|]. cbn [map foldl]. unfold deliver_dir, deliver. cbn [fst snd]. by rewrite E.
  - rewrite app_assoc in Hm. assert (concat (map payload (pkt2 :: segs)) <> []) as Hx.
    { apply Forall_cons in Hall as [Hn2 _]. cbn [map concat]. intros Hx%app_eq_nil. tauto. }
    destruct (deliver_wait m M ts p _ pkt dir private P old Hr Hl Hg Hres Hm Hx Hn Hp1) as (t & E & Ht).
    assert (deliver_dir pl tcptuple (private, P) (dir, pkt) = (Some (RedisData (set2 (held private) dir (Some t))), P)) as Ed.
    { unfold deliver_dir, deliver. cbn [fst snd]. by rewrite E. }
    destruct (IH (p ++ payload pkt) (Some (RedisData (set2 (held private) dir (Some t)))) P Hres ltac:(done) Hall Hm) as (He & t2 & Ht2 & E2).
    { intros k o _. unfold held. cbn. rewrite get_set2 by done. intros [= <-]. exact Ht. }
    split.
    + apply ends_cons; [cbn [fst snd]; by rewrite E|]. by rewrite Ed.
    + exists t2. split; [exact Ht2|]. rewrite Ed, E2. unfold held at 1. cbn. by rewrite set_set2.
Qed.

(** ** The turns of a session *)

(** A command and its answer, with the packets that carry them. *)
Record turn := { args : list bytes; answer : reply; asked : list Packet; answered : list Packet }.

(** The segments carry the bytes, none of them empty. *)
Definition carries (segs : list Packet) (m : bytes) : Prop :=
  concat (map payload segs) = m /\ Forall (fun pkt => payload pkt <> []) segs.

Definition turn_ok (x : turn) : Prop :=
  request_ok (args x) /\ reply_ok (answer x) /\
  len (Redis.encode_request (args x)) <= TCP_MAX_DATA_IN_STREAM /\ len (encode_reply (answer x)) <= TCP_MAX_DATA_IN_STREAM /\
  carries (asked x) (Redis.encode_request (args x)) /\ carries (answered x) (encode_reply (answer x)).

(** The client sends in direction [cdir]. *)
Context (cdir : Z) (cdir_ok : valid_dir cdir).
Definition packets (turns : list turn) : list (Z * Packet) :=
  concat (map (fun x => map (pair cdir) (asked x) ++ map (pair (1 - cdir)) (answered x)) turns).

(** The time that the messages of a direction get: the one of its first packet. *)
Definition stamped (ts dir : Z) private (segs : list Packet) : Prop :=
  forall old pkt, get2 (held private) dir = Ret old -> head segs = Some pkt ->
    match old with Some s => fresh_stream ts [] s | None => pk_Ts pkt = ts end.

(** The event of a turn. *)
Definition event_of (redis : Redis) (ts_client ts_server : Z) (x : turn) (event : MapStr) : Prop :=
  exists c, let '(src, dst) := endpoints tcptuple c cdir in
    Redis.describes redis (request_message (args x) ts_client) (reply_message (answer x) ts_server) src dst event.

(** The program after a session: the events are in the publisher's queue, nothing of the
    connection is pending, and only the process watcher has changed besides. *)
Record session (ts_client ts_server : Z) (turns : list turn) P P' : Prop := {
  ses_events : exists events, Forall2 (event_of (p_redis P) ts_client ts_server) turns events /\
    p_publisher P' = p_publisher P <| Publisher.Queue := Publisher.Queue (p_publisher P) ++ map Some events |>;
  ses_pending : Redis.transactionsMap (p_redis P') =
    if decide (turns = []) then Redis.transactionsMap (p_redis P)
    else delete (TcpHashable tcptuple) (Redis.transactionsMap (p_redis P));
  ses_same : P' = P <| p_redis := p_redis P <| Redis.transactionsMap := Redis.transactionsMap (p_redis P') |> |>
                    <| p_publisher := p_publisher P' |> <| p_procs := p_procs P' |>
}.

Definition idle_redis P : Prop := Redis.Redis_ok (p_redis P) /\ Redis.results (p_redis P) = Some [].

Lemma request_message_is args ts : request_ok args -> Redis.m_IsRequest (request_message args ts) = true.
Proof.
  intros (Hne & _ & _ & Hc). destruct args as [|a [|b args]]; [done|..]; change (Redis.isRedisCommand a = true) in Hc;
    unfold request_message, Redis.complete_request, Redis.partial_request, Redis.request_fields; rewrite Hc; done.
Qed.

(** A message is looked up in the process table before it is handled. *)
Definition tagged (m : RedisMessage) (dir : Z) (c : CmdlineTuple) : RedisMessage :=
  m <| Redis.m_TcpTuple := Some tcptuple |> <| Redis.m_Direction := dir |> <| Redis.m_CmdlineTuple := Some c |>.

Lemma handled_request m dir P :
  Redis.m_IsRequest m = true ->
  exists c w, handled m dir P = commit (Redis.receivedRedisRequest (p_redis P) (tagged m dir c) tcptuple c) w P.
Proof.
  intros Hm. unfold handled, Redis.handleRedis. destruct (FindProcessesTuple _ _) as [c w]. exists c, w.
  change (Redis.m_IsRequest (m <| Redis.m_TcpTuple := _ |> <| Redis.m_Direction := _ |> <| Redis.m_CmdlineTuple := _ |>))
    with (Redis.m_IsRequest m). by rewrite Hm.
Qed.

Lemma handled_reply m dir P :
  Redis.m_IsRequest m = false ->
  exists c w, handled m dir P = commit (Redis.receivedRedisResponse (p_redis P) (tagged m dir c) tcptuple) w P.
Proof.
  intros Hm. unfold handled, Redis.handleRedis. destruct (FindProcessesTuple _ _) as [c w]. exists c, w.
  change (Redis.m_IsRequest (m <| Redis.m_TcpTuple := _ |> <| Redis.m_Direction := _ |> <| Redis.m_CmdlineTuple := _ |>))
    with (Redis.m_IsRequest m). by rewrite Hm.
Qed.

Lemma request_results redis m c : Redis.results (Redis.receivedRedisRequest redis m tcptuple c) = Redis.results redis.
Proof. unfold Redis.receivedRedisRequest. by destruct (endpoints _ _ _). Qed.

Lemma handled_turn P x ts_client ts_server :
  idle_redis P -> request_ok (args x) ->
  let P1 := handled (request_message (args x) ts_client) cdir P in
  let P2 := handled (reply_message (answer x) ts_server) (1 - cdir) P1 in
  Redis.results (p_redis P1) = Some [] /\ idle_redis P2 /\ session ts_client ts_server [x] P P2.
Proof.
  intros [Hok Hres] Hx. cbv zeta.
  destruct (handled_request (request_message (args x) ts_client) cdir P (request_message_is _ _ Hx)) as (c & w & ->).
  set (m1 := tagged _ _ c). set (r1 := Redis.receivedRedisRequest _ _ _ _).
  destruct (handled_reply (reply_message (answer x) ts_server) (1 - cdir) (commit r1 w P)) as (c2 & w2 & ->); [by destruct (answer x)|].
  set (m2 := tagged _ _ c2).
  assert (Redis.results r1 = Some []) as Hr1 by (subst r1; by rewrite request_results).
  assert (commit r1 w P = P <| p_redis := r1 |> <| p_procs := w |>) as ->.
  { unfold commit, send. cbn. rewrite Hr1. cbn. rewrite app_nil_r.
    destruct P as [? ? ? ? ? ? [] ?]; cbn in *. destruct r1; cbn in *; subst; done. }
  cbn [p_redis set_field]. pose proof (Redis.exchange (p_redis P) [] m1 m2 tcptuple c Hok Hres) as He.
  change (Redis.m_Direction m1) with cdir in He. fold r1 in He.
  destruct (endpoints tcptuple c cdir) as [src dst] eqn:Ep. destruct He as (event & Hd & ->).
  split; [exact Hr1|]. split; [split; [by apply map_Forall_delete|done]|].
  split.
  - exists [event]. split; [|done]. constructor; [|done]. exists c. rewrite Ep. exact Hd.
  - done.
  - unfold commit, send. cbn. destruct P as [? ? ? [] ? ? [] ?]; cbn in *; subst; done.
Qed.

Lemma event_of_same redis redis' ts_client ts_server x event :
  Redis.Send_request redis' = Redis.Send_request redis -> Redis.Send_response redis' = Redis.Send_response redis ->
  event_of redis ts_client ts_server x event -> event_of redis' ts_client ts_server x event.
Proof.
  intros E1 E2 (c & H). exists c. destruct (endpoints _ _ _). unfold Redis.describes in *. by rewrite E1, E2.
Qed.

Lemma session_nil ts_client ts_server P : session ts_client ts_server [] P P.
Proof.
  split; [|done|by destruct P as [? ? ? [] ? ? ? ?]].
  exists []. split; [done|]. destruct P as [? ? ? ? ? ? [] ?]. cbn. by rewrite app_nil_r.
Qed.

Lemma session_cons ts_client ts_server x turns P P1 P2 :
  session ts_client ts_server [x] P P1 -> session ts_client ts_server turns P1 P2 -> session ts_client ts_server (x :: turns) P P2.
Proof.
  intros [(e1 & H1 & Q1) M1 S1] [(e2 & H2 & Q2) M2 S2]. split.
  - exists (e1 ++ e2). split.
    + change (x :: turns) with ([x] ++ turns). apply Forall2_app; [exact H1|]. eapply Forall2_impl; [exact H2|]. intros y e.
      apply event_of_same; by rewrite S1.
    + rewrite Q2, Q1. cbn. by rewrite map_app, app_assoc.
  - rewrite M2, M1, (decide_False (P := [x] = [])), (decide_False (P := x :: turns = [])) by done. case_decide; [done|]. by rewrite delete_delete_eq.
  - by rewrite S2, S1.
Qed.

Lemma carries_nonempty segs m : carries segs m -> m <> [] -> segs <> [].
Proof. by intros [<- _] H ->. Qed.

Lemma encode_reply_nonempty r : encode_reply r <> [].
Proof. by destruct r. Qed.

(** The data after a packet in one direction. *)
Lemma held_set private dir t dir' :
  valid_dir dir -> valid_dir dir' ->
  get2 (held (Some (RedisData (set2 (held private) dir (Some t))))) dir' =
    if decide (dir' = dir) then Ret (Some t) else get2 (held private) dir'.
Proof. intros [-> | ->] [-> | ->]; reflexivity. Qed.

Lemma deliver_turns ts_client ts_server turns : forall private P,
  idle_redis P -> Forall turn_ok turns ->
  stamped ts_client cdir private (concat (map asked turns)) ->
  stamped ts_server (1 - cdir) private (concat (map answered turns)) ->
  ends (private, P) (packets turns) /\
  exists private' P', foldl (deliver_dir pl tcptuple) (private, P) (packets turns) = (private', P') /\
    session ts_client ts_server turns P P'.
Proof.
  assert (valid_dir (1 - cdir)) as Hsd by (destruct cdir_ok as [-> | ->]; [by right|by left]).
  assert (1 - cdir <> cdir) as Hne by lia.
  induction turns as [|x turns IH]; intros private P Hid Hall Hc Hs.
  - split; [by intros [|? ?] ? ? ? ?|]. exists private, P. split; [done|apply session_nil].
  - apply Forall_cons in Hall as [(Hq & Ha & Hlq & Hla & Cq & Ca) Hall].
    pose proof (carries_nonempty _ _ Cq ltac:(done)) as Nq. pose proof (carries_nonempty _ _ Ca (encode_reply_nonempty _)) as Na.
    cbn [map concat] in Hc, Hs. unfold packets. cbn [map concat]. fold (packets turns).
    pose proof (handled_turn P x ts_client ts_server Hid Hq) as (Hr1 & Hid2 & Hses).
    set (P1 := handled (request_message _ _) _ P) in *. set (P2 := handled (reply_message _ _) _ P1) in *.
    destruct (deliver_pieces _ _ ts_client cdir (reads_request _ Hq) Hlq cdir_ok (asked x) [] private P (proj2 Hid) Nq (proj2 Cq))
      as (E1 & t1 & Ht1 & D1); [by rewrite <- (proj1 Cq)| |].
    { intros pkt old Hh Hg. specialize (Hc old pkt Hg). destruct (asked x) as [|p l]; [done|]. injection Hh as ->.
      specialize (Hc eq_refl). apply partial_start. destruct old; [exact Hc|]. cbn. by rewrite <- Hc. }
    fold P1 in D1. set (private1 := Some (RedisData (set2 (held private) cdir (Some t1)))) in *.
    destruct (deliver_pieces _ _ ts_server (1 - cdir) (reads_reply _ Ha) Hla Hsd (answered x) [] private1 P1 Hr1 Na (proj2 Ca))
      as (E2 & t2 & Ht2 & D2); [by rewrite <- (proj1 Ca)| |].
    { intros pkt old Hh Hg. unfold private1 in Hg. rewrite held_set, decide_False in Hg by done.
      specialize (Hs old pkt Hg). destruct (answered x) as [|p l]; [done|]. injection Hh as ->.
      specialize (Hs eq_refl). apply partial_start. destruct old; [exact Hs|]. cbn. by rewrite <- Hs. }
    fold P2 in D2. set (private2 := Some (RedisData (set2 (held private1) (1 - cdir) (Some t2)))) in *.
    destruct (IH private2 P2 Hid2 Hall) as (E3 & private' & P' & D3 & Hses').
    { intros old pkt Hg _. unfold private2 in Hg. rewrite held_set, decide_False in Hg by (done || lia).
      unfold private1 in Hg. rewrite held_set, decide_True in Hg by done. by injection Hg as <-. }
    { intros old pkt Hg _. unfold private2 in Hg. rewrite held_set, decide_True in Hg by done. by injection Hg as <-. }
    split.
    + rewrite <- app_assoc. apply ends_app; [exact E1|]. rewrite D1. apply ends_app; [exact E2|]. by rewrite D2.
    + exists private', P'. rewrite !foldl_app, D1, D2. split; [exact D3|]. by eapply session_cons.
Qed.
End Session.

(** * A connection from its first packet *)

Section Connection.
Context {UC : Unicode} {RT : Runtime} {EV : Environment} {OW : Type}.
Implicit Types (tcp : Tcp (Program OW) ProtocolData).

(** The first packet of each direction gives the time of all its messages. *)
Definition first_at (ts : Z) (segs : list Packet) : Prop := forall pkt, head segs = Some pkt -> pk_Ts pkt = ts.

Lemma stamped_new ts dir segs :
  valid_dir dir -> first_at ts segs -> stamped (OW := OW) ts dir None segs.
Proof. intros Hd H old pkt Hg Hh. assert (old = None) as -> by (by destruct Hd as [-> | ->]; injection Hg as <-). by apply H. Qed.

Lemma session_followed tcp hdr pkt l ports turns ts_client ts_server :
  let tuple := pk_Tuple pkt in
  let tcptuple := TcpTupleFromIpPort tuple (uint32_of (tcp_id tcp + 1)) in
  hashed tuple -> Hashable tuple <> RevHashable tuple ->
  tcpStreamsMap tcp !! Hashable tuple = None -> tcpStreamsMap tcp !! RevHashable tuple = None ->
  decideProtocol (tcpPortMap tcp) tuple = RedisProtocol -> Protos.Get (protos tcp) RedisProtocol = Some (redis_plugin ports) ->
  idle_redis (plugins tcp) -> Forall turn_ok turns ->
  first_at ts_client (concat (map asked turns)) -> first_at ts_server (concat (map answered turns)) ->
  traffic tuple (reversed tuple) 0 0 ((hdr, pkt) :: l) (packets TcpDirectionOriginal turns) ->
  exists tcp', FollowAll tcp ((hdr, pkt) :: l) = Ret tcp' /\
    session tcptuple TcpDirectionOriginal ts_client ts_server turns (plugins tcp) (plugins tcp').
Proof.
  cbv zeta. intros Hh Hne Hn Hr Hp Hg Hid Hall Hc Hs Ht.
  assert (valid_dir 1) as H1 by (by right). assert (valid_dir (1 - 1)) as H0 by (by left).
  destruct (deliver_turns ports (TcpTupleFromIpPort (pk_Tuple pkt) (uint32_of (tcp_id tcp + 1))) 1 H1 ts_client ts_server turns
    None (plugins tcp) Hid Hall (stamped_new _ _ _ H1 Hc) (stamped_new _ _ _ H0 Hs)) as (He & private' & P' & D & Hses).
  destruct (FollowAll_new tcp hdr pkt (redis_plugin ports) l (packets 1 turns) Hh Hne Hn Hr) as (tcp' & p & last1 & last0 & E & G & _);
    [by rewrite Hp|by rewrite Hp|exact Ht|exact He|].
  exists tcp'. split; [exact E|]. destruct G as (s & _ & _ & _ & _ & _ & G). rewrite D in G. injection G as _ ->. exact Hses.
Qed.
(** C5: a Redis client and its server talk in turns over a connection that the program has not
    seen before: the client sends a command that the plugin knows and then waits for its
    answer, a status, an error, an integer, a string, nil or an array of strings that does not
    begin with the name of a command; each message has at most 10 MB, and no argument or
    string has a line end (CRLF) in it.  However the bytes of both are cut into segments,
    whatever segments are sent again, and in whatever frames of IPv4 or IPv6 they are
    captured, the program puts exactly one event per turn into the publisher's queue, in the
    order of the turns, each with its own command, answer, sizes and status, and all with the
    times of the first packets of the two directions; nothing of the connection stays pending,
    and besides the process watcher nothing else of the plugins changes. *)
Theorem redis_session_captured datalink p d tcp cs hdr pkt l ports turns ts_client ts_server :
  let tuple := pk_Tuple pkt in
  let tcptuple := TcpTupleFromIpPort tuple (uint32_of (tcp_id tcp + 1)) in
  CreateDecoder datalink = Some p -> captured datalink cs ((hdr, pkt) :: l) ->
  Hashable tuple <> RevHashable tuple ->
  tcpStreamsMap tcp !! Hashable tuple = None -> tcpStreamsMap tcp !! RevHashable tuple = None ->
  decideProtocol (tcpPortMap tcp) tuple = RedisProtocol -> Protos.Get (protos tcp) RedisProtocol = Some (redis_plugin ports) ->
  idle_redis (plugins tcp) -> Forall turn_ok turns ->
  first_at ts_client (concat (map asked turns)) -> first_at ts_server (concat (map answered turns)) ->
  traffic tuple (reversed tuple) 0 0 ((hdr, pkt) :: l) (packets TcpDirectionOriginal turns) ->
  exists tcp' d', decode_packets p (tcp, d) cs = Ret (tcp', d') /\
    session tcptuple TcpDirectionOriginal ts_client ts_server turns (plugins tcp) (plugins tcp').
Proof.
  cbv zeta. intros Hp Hcap Hne Hn Hr Hd Hg Hid Hall Hc Hs Ht.
  destruct (session_followed tcp hdr pkt l ports turns ts_client ts_server (captured_hashed _ _ _ _ _ Hcap) Hne Hn Hr Hd Hg Hid Hall Hc Hs Ht)
    as (tcp' & E & Hses).
  pose proof (captured_followed datalink p cs _ tcp d Hp Hcap) as Ec. rewrite E in Ec.
  destruct (decode_packets _ _ _) as [[tcp2 d']| |]; [|done..]. injection Ec as ->. by exists tcp', d'.
Qed.
End Connection.

(** * Witness *)

#[local] Existing Instance Demo.unicode.
#[local] Existing Instance Demo.runtime.
#[local] Existing Instance demo_environment.
#[local] Existing Instance eta_Tcp.

Definition session_start : Tcp (Program unit) ProtocolData :=
  new_tcp {| p_http := new_http; p_mysql := new_mysql; p_pgsql := new_pgsql;
             p_redis := new_redis <| Redis.results := Some [] |>; p_thrift := new_thrift;
             p_procs := (new_watcher, 0%nat); p_publisher := new_publisher; p_outputs := tt |}
    {[ RedisProtocol := redis_plugin [6379] ]} <| tcpPortMap := {[ 6379 := RedisProtocol ]} |>.

(** A segment of the client or of the server. *)
Definition from_client (ts : Z) (text : bytes) : Packet :=
  {| pk_Ts := ts; pk_Tuple := Demo.ipport; pk_Payload := mkSlice text [] |}.
Definition from_server (ts : Z) (text : bytes) : Packet :=
  {| pk_Ts := ts; pk_Tuple := reversed Demo.ipport; pk_Payload := mkSlice text [] |}.
Abbreviation at_seq seq pkt :=
  ({| hdr_Seq := seq; hdr_FIN := false; hdr_SrcPort := it_Src_port (pk_Tuple pkt); hdr_DstPort := it_Dst_port (pk_Tuple pkt) |}, pkt).

(** A request in two segments, the first sent twice, its answer, and a request that fails. *)
Definition session_turns : list turn := [
  {| args := [bs "GET"; bs "k"]; answer := RBulk (bs "v");
     asked := [from_client 7 (take 9 (Redis.encode_request [bs "GET"; bs "k"]));
               from_client 8 (drop 9 (Redis.encode_request [bs "GET"; bs "k"]))];
     answered := [from_server 9 (encode_reply (RBulk (bs "v")))] |};
  {| args := [bs "KEYS"; bs "*"]; answer := RArray [bs "k"; bs "l"];
     asked := [from_client 9 (Redis.encode_request [bs "KEYS"; bs "*"])];
     answered := [from_server 9 (encode_reply (RArray [bs "k"; bs "l"]))] |};
  {| args := [bs "INCR"; bs "k"]; answer := RError (bs "ERR");
     asked := [from_client 10 (Redis.encode_request [bs "INCR"; bs "k"])];
     answered := [from_server 11 (bs "-"); from_server 12 (bs "ERR" ++ Redis.CRLF)] |} ].

Definition session_packets : list (TCPHeader * Packet) := [
  at_seq 1000 (from_client 7 (take 9 (Redis.encode_request [bs "GET"; bs "k"])));
  at_seq 1000 (from_client 8 (take 9 (Redis.encode_request [bs "GET"; bs "k"])));
  at_seq 1009 (from_client 8 (drop 9 (Redis.encode_request [bs "GET"; bs "k"])));
  at_seq (2 ^ 32 - 3) (from_server 9 (encode_reply (RBulk (bs "v"))));
  at_seq 1020 (from_client 9 (Redis.encode_request [bs "KEYS"; bs "*"]));
  at_seq 4 (from_server 9 (encode_reply (RArray [bs "k"; bs "l"])));
  at_seq 1041 (from_client 10 (Redis.encode_request [bs "INCR"; bs "k"]));
  at_seq 22 (from_server 11 (bs "-")); at_seq 23 (from_server 12 (bs "ERR" ++ Redis.CRLF)) ].

Lemma session_turns_ok : Forall turn_ok session_turns.
Proof.
  apply Forall_cons. split; [|apply Forall_cons; split; [|apply Forall_cons; split; [|apply Forall_nil_2]]].
  all: unfold turn_ok, request_ok, carries, reply_ok; cbn [args answer asked answered].
  all: repeat match goal with
              | |- _ /\ _ => split
              | |- Forall _ [] => apply Forall_nil_2
              | |- Forall _ _ => apply Forall_cons
              end; by vm_compute.
Qed.

(** The frames of the connection: an empty segment opens each direction, and some frames are padded. *)
Definition session_net (t : IpPortTuple) : net := program_net (it_Src_ip t) (it_Dst_ip t).
Definition session_segment (seq flags : Z) (t : IpPortTuple) (text : bytes) : segment :=
  {| g_src := it_Src_port t; g_dst := it_Dst_port t; g_seq := seq; g_ack := 1; g_ns := false; g_flags := flags; g_window := 512;
     g_checksum := 0; g_urgent := 0; g_options := map to_byte [2; 4; 5; 180; 1; 1; 4; 2]; g_payload := text |}.
Definition session_frame (x : TCPHeader * Packet) : capture :=
  let '(hdr, pkt) := x in
  (frame program_link (session_net (pk_Tuple pkt)) (session_segment (hdr_Seq hdr) 0x18 (pk_Tuple pkt) (vis (pk_Payload pkt))), [], pk_Ts pkt).
Definition session_open (seq flags : Z) (t : IpPortTuple) : capture :=
  (frame program_link (session_net t) (session_segment seq flags t []) ++ replicate 6 x00, [x00], 5).
Definition session_frames : list capture :=
  session_open 999 2 Demo.ipport :: session_open (2 ^ 32 - 4) 18 (reversed Demo.ipport) :: map session_frame session_packets.

Lemma session_frame_ok t seq flags text :
  t = Demo.ipport \/ t = reversed Demo.ipport -> 0 <= seq < 2 ^ 32 -> 0 <= flags < 2 ^ 8 -> len text < 100 ->
  frame_ok program_link (session_net t) (session_segment seq flags t text).
Proof.
  intros Ht Hs Hf Hlen. split; [done|].
  assert (options_ok (map to_byte [2; 4; 5; 180; 1; 1; 4; 2])) as Ho.
  { apply (options_data _ _ [_; _]); [done..|]. apply options_pad; [done|]. apply options_pad; [done|].
    apply (options_data _ _ []); [done..|]. apply options_end. }
  assert (len (tcp_wire (session_segment seq flags t text)) = 28 + len text) as El.
  { unfold tcp_wire. cbn. len_lia. }
  assert (length (it_Src_ip t) = 4%nat /\ length (it_Dst_ip t) = 4%nat /\ 0 <= it_Src_port t < 2 ^ 16 /\ 0 <= it_Dst_port t < 2 ^ 16)
    as (H1 & H2 & H3 & H4) by (destruct Ht as [-> | ->]; split_and!; by vm_compute).
  split.
  - rewrite El. split; [exact H1|]. split; [exact H2|]. split; [split; [apply options_end|done]|]. change (len (@nil byte)) with 0. lia.
  - split; [exact H3|]. split; [exact H4|]. split; [exact Hs|]. split; [exact Hf|]. by split.
Qed.

Lemma session_captured xs : Forall (fun x =>
    (pk_Tuple (snd x) = Demo.ipport \/ pk_Tuple (snd x) = reversed Demo.ipport) /\ 0 <= hdr_Seq (fst x) < 2 ^ 32 /\
    fst x = segment_header (session_segment (hdr_Seq (fst x)) 24 (pk_Tuple (snd x)) []) /\
    0 < len (vis (pk_Payload (snd x))) < 100 /\ spare (pk_Payload (snd x)) = []) xs ->
  captured layers.LinkTypeEthernet (map session_frame xs) xs.
Proof.
  induction 1 as [|[hdr pkt] xs (Ht & Hq & Eh & Hl & Hsp) _ IH]; [constructor|]. cbn [fst snd] in *. cbn [map session_frame].
  set (g := session_segment (hdr_Seq hdr) 24 (pk_Tuple pkt) (vis (pk_Payload pkt))).
  assert ((hdr, pkt) = (segment_header g, frame_packet (pk_Ts pkt) (session_net (pk_Tuple pkt)) g ([] ++ []))) as ->.
  { f_equal; [exact Eh|]. unfold frame_packet. destruct pkt as [ts tuple [v sp]]. cbn in *. subst sp.
    f_equal; [destruct Ht as [-> | ->]; reflexivity|]. by case_decide. }
  rewrite <- (app_nil_r (frame _ _ g)). apply captured_segment; [done| | |exact IH].
  - apply session_frame_ok; [exact Ht|exact Hq|done|lia].
  - left. intros E. cbn in E. rewrite E in Hl. change (len (@nil byte)) with 0 in Hl. lia.
Qed.

Lemma redis_session_captured_witness :
  exists p tcp' d', CreateDecoder layers.LinkTypeEthernet = Some p /\ decode_packets p (session_start, new_decoder) session_frames = Ret (tcp', d') /\
    session Demo.tuple TcpDirectionOriginal 7 9 session_turns (plugins session_start) (plugins tcp').
Proof.
  eexists. assert (forall P Q, P -> (exists tcp' d', Q tcp' d') -> exists (tcp' : Tcp (Program unit) ProtocolData) (d' : DecoderStruct), P /\ Q tcp' d')
    as Hex by naive_solver. apply Hex; [reflexivity|]. clear Hex.
  let xs := eval cbv delta [session_packets] in session_packets in
  lazymatch xs with (?hdr, ?pkt) :: ?l =>
    apply (redis_session_captured layers.LinkTypeEthernet _ new_decoder session_start session_frames hdr pkt l [6379] session_turns 7 9) end.
  - reflexivity.
  - apply captured_empty; [done|by apply session_frame_ok; [left|..]|done..|].
    apply captured_empty; [done|by apply session_frame_ok; [right|..]|done..|].
    apply (session_captured session_packets). unfold session_packets. repeat (apply Forall_cons; split; [split; [by (left + right)|split_and!; by vm_compute]|]). by apply Forall_nil_2.
  - by vm_compute.
  - reflexivity.
  - reflexivity.
  - by vm_compute.
  - reflexivity.
  - split; [by apply map_Forall_empty|done].
  - exact session_turns_ok.
  - by intros pkt [= <-].
  - by intros pkt [= <-].
  - apply (traffic_next _ _ _ _ 1); [by right|by vm_compute..|by left|].
    apply (traffic_again _ _ _ _ 1 _ _ _ _ 0); [by right|by vm_compute..|].
    apply (traffic_next _ _ _ _ 1); [by right|by vm_compute..|by right|].
    apply (traffic_next _ _ _ _ 0); [by left|by vm_compute..|by left|].
    apply (traffic_next _ _ _ _ 1); [by right|by vm_compute..|by right|].
    apply (traffic_next _ _ _ _ 0); [by left|by vm_compute..|by right|].
    apply (traffic_next _ _ _ _ 1); [by right|by vm_compute..|by right|].
    apply (traffic_next _ _ _ _ 0); [by left|by vm_compute..|by right|].
    apply (traffic_next _ _ _ _ 0); [by left|by vm_compute..|by right|]. constructor.
Defined.
