(* ===== verification/GoTime.v ===== *)
(** The calendar of the Go standard library's package time (UTC), and the text that
    common.Time is written as (libbeat's common/datetime.go). *)
From S2P Require Export GoText.
From stdpp Require Import list.
#[local] Open Scope Z_scope.

(** * Dates *)

Definition secondsPerDay : Z := 86400.
Definition daysPer400Years : Z := 146097.
Definition daysPer100Years : Z := 36524.
Definition daysPer4Years : Z := 1461.

(** The absolute year 0 is 1 modulo 400, so that all remainders below are of positive
    numbers; the seconds are a [uint64]. *)
Definition absoluteZeroYear : Z := -292277022399.
Definition unixToAbsolute : Z := (719162 + (1 - absoluteZeroYear) / 400 * daysPer400Years) * secondsPerDay.
Definition time_abs (ns : Z) : Z := uint64_of (ns / 1000000000 + unixToAbsolute).

Definition isLeap (year : Z) : bool :=
  bool_decide (year mod 4 = 0) && (bool_decide (year mod 100 <> 0) || bool_decide (year mod 400 = 0)).

Definition daysBefore : list Z := [0; 31; 59; 90; 120; 151; 181; 212; 243; 273; 304; 334; 365].
Definition days_before (month : Z) : Z := default 0 (daysBefore !! Z.to_nat month).

(** The year of a day counted from the absolute year, and the day in this year. *)
Definition absYear (d : Z) : Z * Z :=
  let n := d / daysPer400Years in
  let y := 400 * n in let d := d - daysPer400Years * n in
  let n := d / daysPer100Years in let n := n - n / 4 in
  let y := y + 100 * n in let d := d - daysPer100Years * n in
  let n := d / daysPer4Years in
  let y := y + 4 * n in let d := d - daysPer4Years * n in
  let n := d / 365 in let n := n - n / 4 in
  let y := y + n in let d := d - 365 * n in
  (y + absoluteZeroYear, d).

(** The month and the day of a day of the year: every month is first taken to have 31 days. *)
Definition absMonth (leap : bool) (yday : Z) : Z * Z :=
  if leap && bool_decide (yday = 31 + 29 - 1) then (2, 29)
  else
    let day := if leap && bool_decide (31 + 29 - 1 < yday) then yday - 1 else yday in
    let month := day / 31 in
    let last := days_before (month + 1) in
    let '(month, first) := if decide (last <= day) then (month + 1, last) else (month, days_before month) in
    (month + 1, day - first + 1).

Definition absDate (abs : Z) : Z * Z * Z :=
  let '(year, yday) := absYear (abs / secondsPerDay) in
  let '(month, day) := absMonth (isLeap year) yday in
  (year, month, day).

Definition absClock (abs : Z) : Z * Z * Z :=
  let sec := abs mod secondsPerDay in (sec / 3600, sec mod 3600 / 60, sec mod 60).

(** * The layout "2006-01-02T15:04:05.000Z" *)

(** The last [w] decimal digits. *)
Fixpoint dec_digits (w : nat) (n : Z) : bytes :=
  match w with O => [] | S w => dec_digits w (n / 10) ++ [digit n] end.
Definition zero_pad (w : nat) (n : Z) : bytes :=
  if decide (n < 10 ^ Z.of_nat w) then dec_digits w n else utoa n.
Definition year_text (y : Z) : bytes := if decide (y < 0) then "-"%byte :: zero_pad 4 (- y) else zero_pad 4 y.

(** [time.Time(t).UTC().Format(TsLayout)]; the fraction of the second is cut, not rounded. *)
Definition Time_Format (ns : Z) : bytes :=
  let '(year, month, day) := absDate (time_abs ns) in
  let '(hour, min, sec) := absClock (time_abs ns) in
  year_text year ++ bs "-" ++ zero_pad 2 month ++ bs "-" ++ zero_pad 2 day ++ bs "T" ++
  zero_pad 2 hour ++ bs ":" ++ zero_pad 2 min ++ bs ":" ++ zero_pad 2 sec ++
  bs "." ++ zero_pad 3 (ns mod 1000000000 / 1000000) ++ bs "Z".

Example Format_demo :
  Time_Format 0 = bs "1970-01-01T00:00:00.000Z" /\
  Time_Format 1425254399999999999 = bs "2015-03-01T23:59:59.999Z" /\
  Time_Format 951782400123000000 = bs "2000-02-29T00:00:00.123Z" /\
  Time_Format (-1) = bs "1969-12-31T23:59:59.999Z".
Proof. by vm_compute. Qed.

(** * A date is its day *)

(** [time.Date]: the days from the absolute year to a date. *)
Definition date_days (year month day : Z) : Z :=
  let y := year - absoluteZeroYear in
  let n := y / 400 in let y := y - 400 * n in let d := daysPer400Years * n in
  let n := y / 100 in let y := y - 100 * n in let d := d + daysPer100Years * n in
  let n := y / 4 in let y := y - 4 * n in let d := d + daysPer4Years * n in
  let d := d + 365 * y in
  let d := d + days_before (month - 1) in
  let d := if isLeap year && bool_decide (3 <= month) then d + 1 else d in
  d + (day - 1).

Lemma absYear_spec d year yday :
  0 <= d -> absYear d = (year, yday) ->
  absoluteZeroYear <= year /\ 0 <= yday <= (if isLeap year then 365 else 364) /\
  date_days year 1 1 + yday = d.
Proof.
  intros Hd. unfold absYear, date_days, daysPer400Years, daysPer100Years, daysPer4Years.
  set (n400 := d / 146097). set (d1 := d - 146097 * n400).
  set (n100 := d1 / 36524 - d1 / 36524 / 4). set (d2 := d1 - 36524 * n100).
  set (n4 := d2 / 1461). set (d3 := d2 - 1461 * n4).
  set (n1 := d3 / 365 - d3 / 365 / 4). cbv zeta. intros [= <- <-].
  assert (0 <= n400 /\ 0 <= d1 < 146097) as [H400 H1] by (subst d1 n400; Z.to_euclidean_division_equations; lia).
  assert (0 <= n100 <= 3 /\ 0 <= d2 <= 36524 /\ (d2 = 36524 -> n100 = 3)) as (H100 & H2 & H2')
    by (subst d2 n100; clearbody d1; clear -H1; Z.to_euclidean_division_equations; lia).
  assert (0 <= n4 <= 24 /\ 0 <= d3 <= 1460 /\ d2 = 1461 * n4 + d3) as (H4 & H3 & E2)
    by (subst d3 n4; clearbody d2; clear -H2; Z.to_euclidean_division_equations; lia).
  assert (0 <= n1 <= 3 /\ 0 <= d3 - 365 * n1 <= 365 /\ (d3 - 365 * n1 = 365 -> n1 = 3)) as (H1' & H5 & H5')
    by (subst n1; clearbody d3; clear -H3; Z.to_euclidean_division_equations; lia).
  clearbody n1 n4 n100 n400. set (y := 400 * n400 + 100 * n100 + 4 * n4 + n1).
  assert (y / 400 = n400) as E400 by (subst y; Z.to_euclidean_division_equations; lia).
  unfold absoluteZeroYear. split; [subst y; lia|].
  replace (y + -292277022399 - -292277022399) with y by lia.
  rewrite E400. replace (y - 400 * n400) with (100 * n100 + 4 * n4 + n1) by (subst y; lia).
  assert ((100 * n100 + 4 * n4 + n1) / 100 = n100) as -> by (Z.to_euclidean_division_equations; lia).
  replace (100 * n100 + 4 * n4 + n1 - 100 * n100) with (4 * n4 + n1) by lia.
  assert ((4 * n4 + n1) / 4 = n4) as -> by (Z.to_euclidean_division_equations; lia).
  change (days_before (1 - 1)) with 0. rewrite (bool_decide_eq_false_2 (3 <= 1)), andb_false_r by lia.
  split; [|subst d1 d2 d3; lia]. split; [lia|].
  destruct (decide (d3 - 365 * n1 = 365)) as [E|]; [|destruct (isLeap _); lia].
  specialize (H5' E). unfold isLeap.
  assert ((y + -292277022399) mod 4 = 0) as -> by (subst y; Z.to_euclidean_division_equations; lia).
  rewrite bool_decide_eq_true_2 by done. cbn [andb].
  destruct (decide (n4 = 24)) as [->|Hn].
  - assert (n100 = 3) as -> by lia. rewrite orb_comm, bool_decide_eq_true_2; [done || (cbn; lia)|].
    subst y n1. Z.to_euclidean_division_equations; lia.
  - rewrite bool_decide_eq_true_2; [cbn; lia|]. subst y n1. Z.to_euclidean_division_equations; lia.
Qed.

Definition month_ok (leap : bool) (yday : Z) : bool :=
  let '(month, day) := absMonth leap yday in
  bool_decide (1 <= month <= 12) && bool_decide (1 <= day <= 31) &&
  bool_decide (yday = days_before (month - 1) + (if leap && bool_decide (3 <= month) then 1 else 0) + (day - 1)).

Lemma absMonth_spec leap yday month day :
  0 <= yday <= (if leap : bool then 365 else 364) -> absMonth leap yday = (month, day) ->
  1 <= month <= 12 /\ 1 <= day <= 31 /\
  yday = days_before (month - 1) + (if leap && bool_decide (3 <= month) then 1 else 0) + (day - 1).
Proof.
  intros Hy E. assert (month_ok leap yday = true) as H.
  { assert (forallb (month_ok leap) (map Z.of_nat (seq 0 (if leap then 366 else 365))) = true) as Hall
      by (clear; destruct leap; vm_compute; reflexivity).
    rewrite forallb_forall in Hall. apply Hall, in_map_iff. exists (Z.to_nat yday). split; [lia|].
    apply in_seq. destruct leap; lia. }
  unfold month_ok in H. rewrite E in H.
  apply andb_true_iff in H as [[H1 H2]%andb_true_iff H3].
  by rewrite bool_decide_eq_true in H1, H2, H3.
Qed.

(** The days of a month. *)
Definition days_in (leap : bool) (month : Z) : Z :=
  days_before month - days_before (month - 1) + (if leap && bool_decide (month = 2) then 1 else 0).

Lemma absMonth_days leap yday month day :
  0 <= yday <= (if leap : bool then 365 else 364) -> absMonth leap yday = (month, day) -> day <= days_in leap month.
Proof.
  intros Hy E. set (ok := fun yday => let '(month, day) := absMonth leap yday in bool_decide (day <= days_in leap month)).
  assert (ok yday = true) as H.
  { assert (forallb ok (map Z.of_nat (seq 0 (if leap then 366 else 365))) = true) as Hall
      by (clear; destruct leap; vm_compute; reflexivity).
    rewrite forallb_forall in Hall. apply Hall, in_map_iff. exists (Z.to_nat yday). split; [lia|].
    apply in_seq. destruct leap; lia. }
  unfold ok in H. rewrite E in H. by apply bool_decide_eq_true in H.
Qed.

Lemma date_days_split year month day :
  date_days year month day =
  date_days year 1 1 + (days_before (month - 1) + (if isLeap year && bool_decide (3 <= month) then 1 else 0) + (day - 1)).
Proof.
  unfold date_days. cbv zeta. change (days_before (1 - 1)) with 0.
  rewrite (bool_decide_eq_false_2 (3 <= 1)), andb_false_r by lia. destruct (isLeap year && _); lia.
Qed.

Lemma absDate_spec abs year month day :
  0 <= abs -> absDate abs = (year, month, day) ->
  absoluteZeroYear <= year /\ 1 <= month <= 12 /\ 1 <= day <= 31 /\ date_days year month day = abs / secondsPerDay.
Proof.
  intros Ha. unfold absDate. destruct (absYear _) as [y yday] eqn:Ey. destruct (absMonth _ _) as [m d] eqn:Em.
  intros [= <- <- <-]. apply absYear_spec in Ey as (H0 & Hy & Hd); [|unfold secondsPerDay; Z.to_euclidean_division_equations; lia].
  apply absMonth_spec in Em as (H1 & H2 & H3); [|exact Hy]. rewrite date_days_split, <- H3. auto.
Qed.

Lemma absDate_days abs year month day : 0 <= abs -> absDate abs = (year, month, day) -> day <= days_in (isLeap year) month.
Proof.
  intros Ha. unfold absDate. destruct (absYear _) as [y yday] eqn:Ey. destruct (absMonth _ _) as [m d] eqn:Em.
  intros [= <- <- <-]. apply absYear_spec in Ey as (_ & Hy & _); [|unfold secondsPerDay; Z.to_euclidean_division_equations; lia].
  by apply absMonth_days in Em.
Qed.

(** Years are longer than 365 days, so their numbers grow with the days. *)
Lemma date_days_year year : date_days year 1 1 =
  let y := year - absoluteZeroYear in 365 * y + y / 4 - y / 100 + y / 400.
Proof.
  unfold date_days, daysPer400Years, daysPer100Years, daysPer4Years. cbv zeta. change (days_before (1 - 1)) with 0.
  rewrite (bool_decide_eq_false_2 (3 <= 1)), andb_false_r by lia. generalize (year - absoluteZeroYear). intros y.
  Z.to_euclidean_division_equations. lia.
Qed.

Lemma date_days_mono y z : y <= z -> date_days y 1 1 <= date_days z 1 1.
Proof. intros H. rewrite !date_days_year. cbv zeta. Z.to_euclidean_division_equations. lia. Qed.

Lemma year_length year : date_days (year + 1) 1 1 = date_days year 1 1 + (if isLeap year then 366 else 365).
Proof.
  rewrite !date_days_year. cbv zeta. set (y := year - absoluteZeroYear).
  assert (forall k, In k [4; 100; 400] -> year mod k = (y + 1) mod k) as Hk.
  { intros k Hk. subst y. unfold absoluteZeroYear. destruct Hk as [<-|[<-|[<-|[]]]]; Z.to_euclidean_division_equations; lia. }
  unfold isLeap. rewrite !Hk by (cbn; auto). replace (year + 1 - absoluteZeroYear) with (y + 1) by (subst y; lia). clearbody y.
  assert (forall k, 0 < k -> (y + 1) / k = y / k + (if decide ((y + 1) mod k = 0) then 1 else 0)) as Hd.
  { clear. intros k Hk. case_decide; Z.to_euclidean_division_equations; nia. }
  rewrite (Hd 4), (Hd 100), (Hd 400) by lia.
  assert ((y + 1) mod 400 = 0 -> (y + 1) mod 100 = 0) by (Z.to_euclidean_division_equations; lia).
  assert ((y + 1) mod 100 = 0 -> (y + 1) mod 4 = 0) by (Z.to_euclidean_division_equations; lia).
  clear Hk Hd. revert H H0. generalize ((y + 1) mod 4), ((y + 1) mod 100), ((y + 1) mod 400), (y / 4), (y / 100), (y / 400).
  intros r4 r100 r400 q4 q100 q400 H H0. destruct (decide (r4 = 0)); cycle 1.
  { rewrite bool_decide_eq_false_2, !decide_False by tauto. cbn. lia. }
  rewrite (bool_decide_eq_true_2 (r4 = 0)) by done. destruct (decide (r100 = 0)); cycle 1.
  { rewrite bool_decide_eq_true_2, decide_False by tauto. cbn. lia. }
  rewrite bool_decide_eq_false_2 by tauto. case_decide.
  - rewrite bool_decide_eq_true_2 by done. cbn. lia.
  - rewrite bool_decide_eq_false_2 by done. cbn. lia.
Qed.

#[local] Opaque date_days absYear.
Lemma absDate_year abs year month day lo hi :
  0 <= abs -> absDate abs = (year, month, day) ->
  date_days lo 1 1 <= abs / secondsPerDay < date_days (hi + 1) 1 1 -> lo <= year <= hi.
Proof.
  intros Ha E H. unfold absDate in E. destruct (absYear _) as [y yday] eqn:Ey. destruct (absMonth _ _) as [m d].
  injection E as <- <- <-. apply absYear_spec in Ey as (_ & Hy & Hd); [|unfold secondsPerDay; Z.to_euclidean_division_equations; lia].
  split; apply Z.nlt_ge; intros Hlt.
  - pose proof (date_days_mono (y + 1) lo ltac:(lia)). pose proof (year_length y). destruct (isLeap y); lia.
  - pose proof (date_days_mono (hi + 1) y ltac:(lia)). lia.
Qed.
#[local] Transparent date_days absYear.

(** * The text is the time *)

(** What a reader of the layout makes of a text: the milliseconds since the epoch. *)
Definition num (s : bytes) : option Z :=
  foldl (fun acc b => n ← acc; if decide (48 <= u8 b <= 57) then Some (10 * n + (u8 b - 48)) else None) (Some 0) s.
Definition field (w : nat) (sep s : bytes) : option (Z * bytes) :=
  n ← num (take w s);
  if has_prefix sep (drop w s) then Some (n, drop (length sep) (drop w s)) else None.
Definition read_timestamp (s : bytes) : option Z :=
  '(year, s) ← field 4 (bs "-") s; '(month, s) ← field 2 (bs "-") s; '(day, s) ← field 2 (bs "T") s;
  '(hour, s) ← field 2 (bs ":") s; '(min, s) ← field 2 (bs ":") s; '(sec, s) ← field 2 (bs ".") s;
  '(milli, s) ← field 3 (bs "Z") s;
  if decide (s = []) then
    Some ((((date_days year month day * 24 + hour) * 60 + min) * 60 + sec - unixToAbsolute) * 1000 + milli)
  else None.

Lemma dec_digits_length w n : length (dec_digits w n) = w.
Proof. revert n. induction w as [|w IH]; intros n; cbn; [done|]. rewrite length_app, IH. cbn. lia. Qed.

Lemma num_app s b n : num s = Some n -> 48 <= u8 b <= 57 -> num (s ++ [b]) = Some (10 * n + (u8 b - 48)).
Proof. unfold num. intros H Hb. rewrite foldl_app, H. cbn. by rewrite decide_True. Qed.

Lemma num_dec_digits w n : num (dec_digits w n) = Some (n mod 10 ^ Z.of_nat w).
Proof.
  revert n. induction w as [|w IH]; intros n; [cbn; by rewrite Z.mod_1_r|]. cbn [dec_digits].
  assert (u8 (digit n) = 48 + n mod 10) as Hu.
  { unfold digit. rewrite u8_to_byte, Z.mod_small; [done|]. pose proof (Z.mod_pos_bound n 10 eq_refl). lia. }
  rewrite (num_app _ _ _ (IH (n / 10))) by (rewrite Hu; pose proof (Z.mod_pos_bound n 10 eq_refl); lia).
  rewrite Hu. f_equal. replace (Z.of_nat (S w)) with (1 + Z.of_nat w) by lia. rewrite Z.pow_add_r by lia.
  change (10 ^ 1) with 10. rewrite (Z.rem_mul_r n) by lia. lia.
Qed.

Lemma field_dec_digits w sep n rest :
  0 <= n < 10 ^ Z.of_nat w -> field w sep (zero_pad w n ++ sep ++ rest) = Some (n, rest).
Proof.
  intros Hn. unfold field, zero_pad. rewrite decide_True by lia.
  rewrite take_app_length', drop_app_length' by (symmetry; apply dec_digits_length).
  rewrite num_dec_digits, Z.mod_small by done. cbn [mbind option_bind].
  assert (has_prefix sep (sep ++ rest) = true) as -> by (apply has_prefix_spec; by exists rest). by rewrite drop_app_length.
Qed.

(** The timestamps of the years 0 to 9999 are read back to the millisecond. *)
Lemma Time_Format_read ns :
  - 62167219200 * 10 ^ 9 <= ns < 253402300800 * 10 ^ 9 -> read_timestamp (Time_Format ns) = Some (ns / 1000000).
Proof.
  intros Hn. unfold Time_Format. set (sec := ns / 1000000000). set (milli := ns mod 1000000000 / 1000000).
  assert (- 62167219200 <= sec < 253402300800) as Hs by (subst sec; Z.to_euclidean_division_equations; lia).
  assert (ns / 1000000 = sec * 1000 + milli) as -> by (subst sec milli; Z.to_euclidean_division_equations; lia).
  assert (0 <= milli < 1000) as Hm by (subst milli; Z.to_euclidean_division_equations; lia).
  assert (time_abs ns = sec + unixToAbsolute) as Ea.
  { unfold time_abs. fold sec. unfold wrapU. apply Z.mod_small. change unixToAbsolute with 9223372028715321600. lia. }
  rewrite Ea. set (abs := sec + unixToAbsolute). assert (0 <= abs) as Habs by (subst abs; change unixToAbsolute with 9223372028715321600; lia).
  destruct (absDate abs) as [[year month] day] eqn:Ed.
  assert (0 <= year <= 9999) as Hy.
  { apply (absDate_year _ _ _ _ _ _ Habs Ed). change (date_days 0 1 1) with 106751990353566. change (date_days (9999 + 1) 1 1) with 106751994005991.
    subst abs. change unixToAbsolute with 9223372028715321600. unfold secondsPerDay. Z.to_euclidean_division_equations; lia. }
  apply absDate_spec in Ed as (_ & H1 & H2 & Hd); [|done]. unfold absClock.
  assert (0 <= abs mod secondsPerDay < 86400) as Hc by (apply Z.mod_pos_bound; done).
  assert (0 <= abs mod secondsPerDay / 3600 < 100 /\ 0 <= abs mod secondsPerDay mod 3600 / 60 < 100 /\ 0 <= abs mod secondsPerDay mod 60 < 100)
    as (Hh & Hi & Hse) by (revert Hc; generalize (abs mod secondsPerDay); intros z ?; Z.to_euclidean_division_equations; lia).
  unfold read_timestamp, year_text. rewrite decide_False by lia.
  repeat (rewrite field_dec_digits by (cbn; lia); cbn [mbind option_bind]).
  rewrite <- (app_nil_r (bs "Z")), field_dec_digits by (cbn; lia). cbn [mbind option_bind]. rewrite decide_True by done.
  f_equal. rewrite Hd. pose proof (Z.div_mod abs secondsPerDay ltac:(done)) as E. revert E Hc.
  generalize (abs mod secondsPerDay), (abs / secondsPerDay). unfold secondsPerDay. intros r q E Hc. subst abs.
  assert (r = r / 3600 * 3600 + r mod 3600 / 60 * 60 + r mod 60) by (Z.to_euclidean_division_equations; lia). lia.
Qed.
