(* ===== verification/Json.v ===== *)
(** [json.Marshal] of the Go standard library (encoding/json) for the values of an event, and
    a reader of JSON to state what the text means. *)
From S2P Require Export GoTime.
From stdpp Require Import list sorting.
#[local] Open Scope Z_scope.

(** * Values *)

(** A JSON document; the members of an object in the order of the text. *)
Inductive json :=
| JString (s : bytes)
| JNumber (z : Z)
| JBool (b : bool)
| JArray (l : list json)
| JObject (l : list (bytes * json)).

(** The order of Go's strings, by which [Marshal] sorts the keys of a map. *)
Fixpoint string_le (a b : bytes) : bool :=
  match a, b with
  | [], _ => true
  | _ :: _, [] => false
  | x :: a, y :: b => bool_decide (u8 x < u8 y) || (bool_decide (u8 x = u8 y) && string_le a b)
  end.
Definition key_le {A} (x y : bytes * A) : Prop := string_le (fst x) (fst y) = true.
#[export] Instance key_le_dec {A} (x y : bytes * A) : Decision (key_le x y).
Proof. unfold key_le. apply _. Defined.

(** A value of an event: [common.Time] has a [MarshalJSON] of its own, an [Endpoint] is a
    struct with exported fields only. *)
Fixpoint to_json (v : mval) : json :=
  match v with
  | MStr s => JString s
  | MInt z => JNumber z
  | MBool b => JBool b
  | MTime ns => JString (Time_Format ns)
  | MStrs l => JArray (map JString l)
  | MEndpoint e => JObject [(bs "Ip", JString (ep_Ip e)); (bs "Port", JNumber (ep_Port e)); (bs "Name", JString (ep_Name e));
                            (bs "Cmdline", JString (ep_Cmdline e)); (bs "Proc", JString (ep_Proc e))]
  | MMap m => JObject (merge_sort key_le (map_fold (fun k v l => (k, to_json v) :: l) [] m))
  end.

(** * Writing *)

Definition hex_byte (b : byte) : bytes := hex_digits 2 (u8 b).

(** [encodeState.string]: quotes, backslashes, control characters and the characters that
    matter in HTML are escaped, a byte that is not part of a rune becomes U+FFFD. *)
Definition escape_byte (b : byte) : bytes :=
  if decide (u8 b = 34 \/ u8 b = 92) then ["\"%byte; b]
  else if decide (u8 b = 10) then bs "\n"
  else if decide (u8 b = 13) then bs "\r"
  else if decide (u8 b < 32 \/ u8 b = 60 \/ u8 b = 62 \/ u8 b = 38) then bs "\u00" ++ hex_byte b
  else [b].
Fixpoint escape_go (fuel : nat) (s : bytes) : bytes :=
  match fuel, s with
  | S fuel, b :: rest =>
      if decide (u8 b < 128) then escape_byte b ++ escape_go fuel rest
      else match DecodeRune s with
           | None => bs "\ufffd" ++ escape_go fuel rest
           | Some (r, w) =>
               (if decide (r = 8232 \/ r = 8233) then bs "\u202" ++ hex_digits 1 r else take w s) ++ escape_go fuel (drop w s)
           end
  | _, _ => []
  end.
Definition escape (s : bytes) : bytes := escape_go (length s) s.
Definition quoted (s : bytes) : bytes := x22 :: escape s ++ [x22].

Fixpoint print_json (j : json) : bytes :=
  match j with
  | JString s => quoted s
  | JNumber z => Itoa z
  | JBool b => if b then bs "true" else bs "false"
  | JArray l => bs "[" ++ GoStd.Join (map print_json l) (bs ",") ++ bs "]"
  | JObject l => bs "{" ++ GoStd.Join (map (fun x => quoted (fst x) ++ bs ":" ++ print_json (snd x)) l) (bs ",") ++ bs "}"
  end.

(** [json.Marshal(event)]; it has no error for these values. *)
Definition Marshal (event : MapStr) : bytes := print_json (to_json (MMap event)).

Example Marshal_demo :
  Marshal {[ bs "type" := MStr (bs "redis"); bs "timestamp" := MTime 0; bs "count" := MInt (-1);
             bs "redis" := MMap {[ bs "error" := MStr [x0a; x22; x26; xff; xc3; xa9; xe2; x80; xa8] ]};
             bs "tags" := MStrs [bs "a"; bs "b"] ]} =
  bs "{" ++ [x22] ++ bs "count" ++ [x22] ++ bs ":-1," ++ [x22] ++ bs "redis" ++ [x22] ++ bs ":{" ++ [x22] ++ bs "error" ++ [x22] ++ bs ":" ++
  [x22] ++ bs "\n\" ++ [x22] ++ bs "\u0026\ufffd" ++ [xc3; xa9] ++ bs "\u2028" ++ [x22] ++ bs "}," ++
  [x22] ++ bs "tags" ++ [x22] ++ bs ":[" ++ [x22] ++ bs "a" ++ [x22] ++ bs "," ++ [x22] ++ bs "b" ++ [x22] ++ bs "]," ++
  [x22] ++ bs "timestamp" ++ [x22] ++ bs ":" ++ [x22] ++ bs "1970-01-01T00:00:00.000Z" ++ [x22] ++ bs "," ++
  [x22] ++ bs "type" ++ [x22] ++ bs ":" ++ [x22] ++ bs "redis" ++ [x22] ++ bs "}".
Proof. by vm_compute. Qed.

(** * Reading *)

Definition hex_of (b : byte) : option Z :=
  if decide (48 <= u8 b <= 57) then Some (u8 b - 48)
  else if decide (97 <= u8 b <= 102) then Some (u8 b - 87)
  else if decide (65 <= u8 b <= 70) then Some (u8 b - 55) else None.

(** The encoding of a rune of at most 16 bits. *)
Definition utf8 (r : Z) : bytes :=
  if decide (r < 128) then [to_byte r]
  else if decide (r < 2048) then [to_byte (192 + r / 64); to_byte (128 + r mod 64)]
  else [to_byte (224 + r / 4096); to_byte (128 + r / 64 mod 64); to_byte (128 + r mod 64)].

Definition short_escape (e : byte) : option byte :=
  if decide (u8 e = 34 \/ u8 e = 92 \/ u8 e = 47) then Some e
  else if decide (u8 e = 98) then Some x08 else if decide (u8 e = 102) then Some x0c
  else if decide (u8 e = 110) then Some x0a else if decide (u8 e = 114) then Some x0d
  else if decide (u8 e = 116) then Some x09 else None.

(** The characters of a string up to its closing quote; surrogates are not read. *)
Fixpoint read_chars (s : bytes) : option (bytes * bytes) :=
  match s with
  | [] => None
  | c :: rest =>
      if decide (u8 c = 34) then Some ([], rest)
      else if decide (u8 c = 92) then
        match rest with
        | [] => None
        | e :: rest =>
            match short_escape e with
            | Some b => '(t, rest) ← read_chars rest; Some (b :: t, rest)
            | None =>
                match rest with
                | h3 :: h2 :: h1 :: h0 :: rest =>
                    if decide (u8 e = 117) then
                      d3 ← hex_of h3; d2 ← hex_of h2; d1 ← hex_of h1; d0 ← hex_of h0;
                      let r := ((d3 * 16 + d2) * 16 + d1) * 16 + d0 in
                      if decide (55296 <= r <= 57343) then None
                      else '(t, rest) ← read_chars rest; Some (utf8 r ++ t, rest)
                    else None
                | _ => None
                end
            end
        end
      else if decide (u8 c < 32) then None
      else '(t, rest) ← read_chars rest; Some (c :: t, rest)
  end.

Fixpoint read_digits (s : bytes) : bytes * bytes :=
  match s with
  | b :: rest => if decide (48 <= u8 b <= 57) then let '(d, rest) := read_digits rest in (b :: d, rest) else ([], s)
  | [] => ([], [])
  end.

(** A number without a fraction or an exponent. *)
Definition read_number (s : bytes) : option (Z * bytes) :=
  let '(sign, s) := match s with b :: rest => if decide (u8 b = 45) then (-1, rest) else (1, s) | [] => (1, s) end in
  match read_digits s with
  | ([], _) => None
  | (d, rest) => n ← num d; Some (sign * n, rest)
  end.

(** Elements between commas up to a closing byte. *)
Fixpoint read_seq {A} (read : bytes -> option (A * bytes)) (close : byte) (fuel : nat) (s : bytes) : option (list A * bytes) :=
  match fuel with
  | O => None
  | S fuel =>
      '(x, s) ← read s;
      match s with
      | c :: s =>
          if decide (c = close) then Some ([x], s)
          else if decide (u8 c = 44) then '(l, s) ← read_seq read close fuel s; Some (x :: l, s) else None
      | [] => None
      end
  end.
Definition read_list {A} (read : bytes -> option (A * bytes)) (close : byte) (s : bytes) : option (list A * bytes) :=
  match s with
  | c :: rest => if decide (c = close) then Some ([], rest) else read_seq read close (length s) s
  | [] => None
  end.

Definition read_string (s : bytes) : option (bytes * bytes) :=
  match s with c :: rest => if decide (u8 c = 34) then read_chars rest else None | [] => None end.
Definition read_member {A} (read : bytes -> option (A * bytes)) (s : bytes) : option ((bytes * A) * bytes) :=
  '(k, s) ← read_string s;
  match s with c :: s => if decide (u8 c = 58) then '(v, s) ← read s; Some ((k, v), s) else None | [] => None end.

(** A document without white space, of arrays and objects at most [depth] deep. *)
Fixpoint read_json (depth : nat) (s : bytes) : option (json * bytes) :=
  match depth, s with
  | S depth, c :: rest =>
      if decide (u8 c = 34) then '(t, s) ← read_chars rest; Some (JString t, s)
      else if decide (u8 c = 91) then '(l, s) ← read_list (read_json depth) "]"%byte rest; Some (JArray l, s)
      else if decide (u8 c = 123) then '(l, s) ← read_list (read_member (read_json depth)) "}"%byte rest; Some (JObject l, s)
      else if has_prefix (bs "true") s then Some (JBool true, drop 4 s)
      else if has_prefix (bs "false") s then Some (JBool false, drop 5 s)
      else '(z, s) ← read_number s; Some (JNumber z, s)
  | _, _ => None
  end.

(** * What is written is what is read *)

(** The string with U+FFFD for every byte that is not part of a rune. *)
Fixpoint valid_go (fuel : nat) (s : bytes) : bytes :=
  match fuel, s with
  | S fuel, b :: rest =>
      if decide (u8 b < 128) then b :: valid_go fuel rest
      else match DecodeRune s with
           | None => [xef; xbf; xbd] ++ valid_go fuel rest
           | Some (_, w) => take w s ++ valid_go fuel (drop w s)
           end
  | _, _ => []
  end.
Definition valid (s : bytes) : bytes := valid_go (length s) s.

Fixpoint clean (j : json) : json :=
  match j with
  | JString s => JString (valid s)
  | JNumber _ | JBool _ => j
  | JArray l => JArray (map clean l)
  | JObject l => JObject (map (fun x => (valid (fst x), clean (snd x))) l)
  end.

Fixpoint depth (j : json) : nat :=
  match j with
  | JArray l => S (foldr (fun j n => Nat.max (depth j) n) O l)
  | JObject l => S (foldr (fun x n => Nat.max (depth (snd x)) n) O l)
  | _ => O
  end.

Lemma read_chars_byte b t :
  u8 b < 128 -> read_chars (escape_byte b ++ t) = '(u, rest) ← read_chars t; Some (b :: u, rest).
Proof. intros Hb. destruct b; try reflexivity; exfalso; revert Hb; clear; vm_compute; congruence. Qed.

Lemma read_chars_high l t :
  Forall (fun b => 128 <= u8 b) l -> read_chars (l ++ t) = '(u, rest) ← read_chars t; Some (l ++ u, rest).
Proof.
  induction 1 as [|b l Hb _ IH]; cbn [app]; [by destruct (read_chars t) as [[]|]|].
  cbn [read_chars]. rewrite !decide_False by lia. rewrite IH. by destruct (read_chars t) as [[]|].
Qed.

Lemma cont_range b : cont b = true <-> 128 <= u8 b <= 191.
Proof. unfold cont. by rewrite bool_decide_eq_true. Qed.

Lemma utf8_three c b1 b2 :
  224 <= u8 c <= 239 -> 128 <= u8 b1 <= 191 -> 128 <= u8 b2 <= 191 ->
  2048 <= ((u8 c - 224) * 64 + (u8 b1 - 128)) * 64 + (u8 b2 - 128) ->
  utf8 (((u8 c - 224) * 64 + (u8 b1 - 128)) * 64 + (u8 b2 - 128)) = [c; b1; b2].
Proof.
  intros Hc H1 H2 Hr. set (r := _ * 64 + _) in *. unfold utf8. rewrite !decide_False by lia.
  assert (r / 4096 = u8 c - 224 /\ r / 64 mod 64 = u8 b1 - 128 /\ r mod 64 = u8 b2 - 128) as (-> & -> & ->)
    by (subst r; Z.to_euclidean_division_equations; lia).
  rewrite !Zplus_minus. by rewrite !to_byte_u8.
Qed.

(** The first rune of a string that starts with it. *)
Lemma DecodeRune_high b s r w :
  128 <= u8 b -> DecodeRune (b :: s) = Some (r, w) ->
  (0 < w)%nat /\ Forall (fun b => 128 <= u8 b) (take w (b :: s)) /\
  (r = 8232 \/ r = 8233 -> take w (b :: s) = utf8 r).
Proof.
  intros Hb. cbn [DecodeRune]. rewrite decide_False by lia. repeat case_decide; [| | |done].
  - destruct s as [|b1 s]; [done|]. destruct (cont b1) eqn:E1; [|done]. apply cont_range in E1. intros [= <- <-].
    cbn [take]. split; [lia|]. split; [repeat (apply Forall_cons; split; [lia|]); apply Forall_nil_2|lia].
  - destruct s as [|b1 [|b2 s]]; [done..|]. destruct (cont b1) eqn:E1; [|done]. destruct (cont b2) eqn:E2; [|done].
    apply cont_range in E1, E2. case_bool_decide as Hv; [|done]. cbn [andb]. intros [= <- <-].
    cbn [take]. split; [lia|]. split; [repeat (apply Forall_cons; split; [lia|]); apply Forall_nil_2|]. intros _.
    symmetry. apply utf8_three; lia.
  - destruct s as [|b1 [|b2 [|b3 s]]]; [done..|]. destruct (cont b1) eqn:E1; [|done]. destruct (cont b2) eqn:E2; [|done].
    destruct (cont b3) eqn:E3; [|done]. apply cont_range in E1, E2, E3. case_bool_decide as Hv; [|done]. cbn [andb].
    intros [= <- <-]. cbn [take]. split; [lia|]. split; [repeat (apply Forall_cons; split; [lia|]); apply Forall_nil_2|lia].
Qed.

Lemma read_chars_escape fuel s rest :
  (length s <= fuel)%nat -> read_chars (escape_go fuel s ++ x22 :: rest) = Some (valid_go fuel s, rest).
Proof.
  revert s. induction fuel as [|fuel IH]; intros [|b s] Hf; [done|cbn in Hf; lia|done|]. cbn [escape_go valid_go].
  cbn [length] in Hf. case_decide as Hb; [rewrite <- app_assoc, read_chars_byte, IH by lia; done|].
  destruct (DecodeRune (b :: s)) as [[r w]|] eqn:Er.
  - apply DecodeRune_high in Er as (Hw & Hh & Hr); [|lia]. rewrite <- app_assoc.
    assert (length (drop w (b :: s)) <= fuel)%nat as Hd by (rewrite length_drop; cbn; lia).
    case_decide as Hs; [|by rewrite (read_chars_high _ _ Hh), IH by done].
    rewrite Hr by done. destruct Hs as [-> | ->].
    + transitivity ('(t, rest) ← read_chars (escape_go fuel (drop w (b :: s)) ++ x22 :: rest); Some (utf8 8232 ++ t, rest)); [done|].
      by rewrite IH.
    + transitivity ('(t, rest) ← read_chars (escape_go fuel (drop w (b :: s)) ++ x22 :: rest); Some (utf8 8233 ++ t, rest)); [done|].
      by rewrite IH.
  - rewrite <- app_assoc.
    transitivity ('(t, rest) ← read_chars (escape_go fuel s ++ x22 :: rest); Some (utf8 65533 ++ t, rest)); [done|].
    by rewrite IH by lia.
Qed.

Lemma read_quoted s rest : read_string (quoted s ++ rest) = Some (valid s, rest).
Proof.
  unfold read_string, quoted. cbn [app]. rewrite decide_True by done. rewrite <- app_assoc. cbn [app]. by apply read_chars_escape.
Qed.

(** Documents are trees over lists. *)
Lemma json_tree (P : json -> Prop) :
  (forall s, P (JString s)) -> (forall z, P (JNumber z)) -> (forall b, P (JBool b)) ->
  (forall l, Forall P l -> P (JArray l)) -> (forall l, Forall (fun x => P (snd x)) l -> P (JObject l)) -> forall j, P j.
Proof.
  intros Hs Hz Hb Ha Ho. fix go 1. intros [s|z|b|l|l]; [apply Hs|apply Hz|apply Hb|apply Ha|apply Ho].
  - induction l as [|x l IH]; [apply Forall_nil_2|]. apply Forall_cons. split; [apply go|exact IH].
  - induction l as [|[k x] l IH]; [apply Forall_nil_2|]. apply Forall_cons. split; [apply (go x)|exact IH].
Qed.

(** What ends a number. *)
Definition ends (rest : bytes) : Prop := match rest with b :: _ => ~ 48 <= u8 b <= 57 | [] => True end.

Lemma digit_range n : 48 <= u8 (digit n) <= 57.
Proof. unfold digit. rewrite u8_to_byte, Z.mod_small; pose proof (Z.mod_pos_bound n 10 eq_refl); lia. Qed.

Lemma utoa_go_digits fuel n acc :
  Forall (fun b => 48 <= u8 b <= 57) acc -> Forall (fun b => 48 <= u8 b <= 57) (utoa_go fuel n acc).
Proof.
  revert n acc. induction fuel as [|fuel IH]; intros n acc H; [done|]. cbn [utoa_go].
  case_decide; [|apply IH]; (apply Forall_cons; split; [apply digit_range|exact H]).
Qed.

Lemma read_digits_app d rest :
  Forall (fun b => 48 <= u8 b <= 57) d -> ends rest -> read_digits (d ++ rest) = (d, rest).
Proof.
  intros H Hr. induction H as [|b d Hb _ IH]; cbn [app read_digits].
  - destruct rest as [|b rest]; [done|]. cbn [read_digits]. by rewrite decide_False.
  - by rewrite decide_True, IH.
Qed.

Definition more_digits (n : option Z) (s : bytes) : option Z :=
  foldl (fun acc b => n ← acc; if decide (48 <= u8 b <= 57) then Some (10 * n + (u8 b - 48)) else None) n s.

Lemma num_utoa_go fuel n acc :
  0 <= n -> (Z.to_nat (Z.log2 n) < fuel)%nat -> more_digits (Some 0) (utoa_go fuel n acc) = more_digits (Some n) acc.
Proof.
  revert n acc. induction fuel as [|fuel IH]; intros n acc Hn Hf; [lia|]. cbn [utoa_go].
  pose proof (digit_range n) as Hd. assert (u8 (digit n) - 48 = n mod 10) as Ed.
  { unfold digit. rewrite u8_to_byte, Z.mod_small; pose proof (Z.mod_pos_bound n 10 eq_refl); lia. }
  case_decide as Hs.
  - unfold more_digits. cbn [foldl mbind option_bind]. rewrite decide_True, Ed, Z.mod_small by lia. done.
  - assert (Z.log2 (n / 10) < Z.log2 n).
    { apply Z.log2_lt_pow2; [apply Z.div_str_pos; lia|]. pose proof (Z.log2_spec n ltac:(lia)) as [_ Hl].
      rewrite Z.pow_succ_r in Hl by apply Z.log2_nonneg. apply Z.div_lt_upper_bound; [lia|]. nia. }
    pose proof (Z.log2_nonneg (n / 10)). rewrite IH by (lia || apply Z.div_pos; lia).
    unfold more_digits. cbn [foldl mbind option_bind]. rewrite decide_True, Ed by lia. f_equal. f_equal.
    pose proof (Z.div_mod n 10). lia.
Qed.

Lemma utoa_num n : 0 <= n -> num (utoa n) = Some n.
Proof. intros Hn. apply (num_utoa_go _ n []); [done|]. lia. Qed.

(** The first byte of a number. *)
Lemma utoa_cons n : exists c t, utoa n = c :: t /\ 48 <= u8 c <= 57.
Proof.
  unfold utoa. destruct (utoa_go_cons (S (Z.to_nat (Z.log2 n))) n []) as (m & t & E); [lia|]. rewrite E.
  exists (digit m), t. split; [done|]. apply digit_range.
Qed.

Lemma read_number_Itoa z rest : ends rest -> read_number (Itoa z ++ rest) = Some (z, rest).
Proof.
  intros Hr. unfold read_number, Itoa. destruct (decide (z < 0)) as [Hz|Hz].
  - cbn [app]. rewrite decide_True by done.
    rewrite read_digits_app by (done || apply utoa_go_digits, Forall_nil_2).
    destruct (utoa_cons (- z)) as (c & t & E & _). rewrite E, <- E, utoa_num by lia. cbn. do 2 f_equal. lia.
  - destruct (utoa_cons z) as (c & t & E & Hc). rewrite E. cbn [app]. rewrite decide_False by lia.
    change (c :: t ++ rest) with ((c :: t) ++ rest). rewrite <- E.
    rewrite read_digits_app by (done || apply utoa_go_digits, Forall_nil_2). rewrite E, <- E, utoa_num by lia.
    cbn [mbind option_bind]. do 2 f_equal. lia.
Qed.

Lemma Itoa_cons z : exists c t, Itoa z = c :: t /\ (c = "-"%byte \/ 48 <= u8 c <= 57).
Proof.
  unfold Itoa. case_decide; [by eexists _, _; split; [done|left]|].
  destruct (utoa_cons z) as (c & t & -> & Hc). exists c, t. auto.
Qed.

Lemma print_json_cons j : exists c t, print_json j = c :: t /\ u8 c <> 93.
Proof.
  destruct j as [s|z|[]|l|l]; cbn [print_json]; try by eexists _, _.
  destruct (Itoa_cons z) as (c & t & -> & H). exists c, t. split; [done|]. destruct H as [->|H]; [done|lia].
Qed.

(** ** Sequences *)

Section Sequence.
Context {A B : Type} (read : bytes -> option (A * bytes)) (write : B -> bytes) (f : B -> A) (close : byte).
Context (close_ok : u8 close <> 44 /\ ~ 48 <= u8 close <= 57).

Definition reads_back (x : B) : Prop :=
  (forall rest, ends rest -> read (write x ++ rest) = Some (f x, rest)) /\
  exists c t, write x = c :: t /\ c <> close.

Lemma read_seq_join x l fuel rest :
  Forall reads_back (x :: l) -> (length l < fuel)%nat ->
  read_seq read close fuel (GoStd.Join (map write (x :: l)) (bs ",") ++ close :: rest) = Some (map f (x :: l), rest).
Proof.
  revert x l. induction fuel as [|fuel IH]; intros x l H Hf; [lia|]. apply Forall_cons in H as [[Hx _] Hl].
  destruct l as [|y l].
  - cbn [map GoStd.Join read_seq]. rewrite Hx by (cbn; tauto). cbn [mbind option_bind]. by rewrite decide_True.
  - change (GoStd.Join (map write (x :: y :: l)) (bs ",")) with (write x ++ bs "," ++ GoStd.Join (map write (y :: l)) (bs ",")).
    rewrite <- !app_assoc. cbn [read_seq]. rewrite Hx by (cbn; lia). cbn [mbind option_bind bs app String.list_byte_of_string].
    change (bs "," ++ ?t) with (","%byte :: t). cbv iota. rewrite decide_False by (intros <-; tauto). rewrite decide_True by done.
    rewrite IH by (done || cbn in *; lia). done.
Qed.

Lemma read_list_join l rest :
  Forall reads_back l -> read_list read close (GoStd.Join (map write l) (bs ",") ++ close :: rest) = Some (map f l, rest).
Proof.
  intros H. destruct l as [|x l]; [cbn; by rewrite decide_True|].
  assert (exists c t, GoStd.Join (map write (x :: l)) (bs ",") ++ close :: rest = c :: t /\ c <> close) as (c & t & E & Hc).
  { apply Forall_cons in H as [[_ (c & t & E & Hc)] _]. destruct l as [|y l]; cbn [map GoStd.Join]; rewrite E; by eexists _, _. }
  unfold read_list. rewrite E, decide_False, <- E by done. apply read_seq_join; [done|].
  clear. rewrite length_app. cbn [length]. enough (length l <= length (GoStd.Join (map write (x :: l)) (bs ",")))%nat by lia.
  revert x. induction l as [|y l IH]; intros x; [cbn; lia|].
  change (GoStd.Join (map write (x :: y :: l)) (bs ",")) with (write x ++ bs "," ++ GoStd.Join (map write (y :: l)) (bs ",")).
  rewrite !length_app. specialize (IH y). cbn [length]. change (length (bs ",")) with 1%nat. lia.
Qed.
End Sequence.

Lemma json_depth_max {A} (f : A -> nat) x l : In x l -> (f x <= foldr (fun y n => Nat.max (f y) n) O l)%nat.
Proof. induction l as [|y l IH]; [done|]. cbn. intros [->|H]; [lia|]. specialize (IH H). lia. Qed.

(** A document is read back, its strings made valid, whatever follows it. *)
Lemma read_print_json j : forall d rest,
  (depth j < d)%nat -> ends rest -> read_json d (print_json j ++ rest) = Some (clean j, rest).
Proof.
  induction j as [s|z|b|l IH|l IH] using json_tree; intros [|d] rest Hd Hr; try (cbn in Hd; lia).
  - cbn [print_json]. unfold quoted. cbn [app read_json]. rewrite decide_True, <- app_assoc by done. cbn [app].
    unfold escape. by rewrite read_chars_escape.
  - cbn [print_json]. pose proof (read_number_Itoa z rest Hr) as E. destruct (Itoa_cons z) as (c & t & Ez & Hc).
    rewrite Ez in E |- *. cbn [app read_json] in *.
    assert (u8 c <> 34 /\ u8 c <> 91 /\ u8 c <> 123 /\ u8 c <> 116 /\ u8 c <> 102) as (H1 & H2 & H3 & H4 & H5)
      by (destruct Hc as [->|Hc]; [done|lia]).
    rewrite !decide_False by done.
    assert (forall k p, u8 k <> u8 c -> has_prefix (k :: p) (c :: t ++ rest) = false) as Hp.
    { intros k p Hk. cbn. destruct (Byte.eqb k c) eqn:Ek; [|done]. apply beqb_eq in Ek. congruence. }
    change (bs "true") with ("t"%byte :: bs "rue"). change (bs "false") with ("f"%byte :: bs "alse").
    rewrite (Hp "t"%byte) by (intros Ek; by rewrite <- Ek in H4). rewrite (Hp "f"%byte) by (intros Ek; by rewrite <- Ek in H5).
    by rewrite E.
  - by destruct b.
  - cbn [print_json]. rewrite <- !app_assoc. change (bs "[" ++ ?t) with ("["%byte :: t). cbn [read_json].
    rewrite decide_False, decide_True by done. change (bs "]" ++ rest) with ("]"%byte :: rest).
    rewrite (read_list_join _ _ clean); [done|split; [done|vm_compute; intuition congruence]|].
    apply List.Forall_forall. intros x Hx. rewrite List.Forall_forall in IH. split.
    + intros rest' Hr'. apply (IH x Hx); [|done]. cbn [depth] in Hd. pose proof (json_depth_max depth x l Hx). lia.
    + destruct (print_json_cons x) as (c & t & -> & Hc). exists c, t. split; [done|]. by intros ->.
  - cbn [print_json]. rewrite <- !app_assoc. change (bs "{" ++ ?t) with ("{"%byte :: t). cbn [read_json].
    rewrite !decide_False, decide_True by done. change (bs "}" ++ rest) with ("}"%byte :: rest).
    rewrite (read_list_join _ _ (fun x => (valid (fst x), clean (snd x)))); [done|split; [done|vm_compute; intuition congruence]|].
    apply List.Forall_forall. intros [k x] Hx. rewrite List.Forall_forall in IH. split; [|by eexists _, _].
    intros rest' Hr'. cbn [fst snd]. unfold read_member. rewrite <- app_assoc, read_quoted. cbn [mbind option_bind].
    change ((bs ":" ++ ?t) ++ ?u) with (":"%byte :: t ++ u). cbv iota. rewrite decide_True by done.
    rewrite (IH _ Hx); [done| |done]. cbn [depth] in Hd. pose proof (json_depth_max (fun x => depth (snd x)) _ l Hx). cbn in *. lia.
Qed.

(** The text has no control character, in particular no line feed. *)
Abbreviation visible := (Forall (fun b => 32 <= u8 b)).

Lemma visible_byte b t : 32 <= u8 b -> visible t -> visible (b :: t).
Proof. by constructor. Qed.

Lemma hex_digits_visible n r : visible (hex_digits n r).
Proof.
  induction n as [|n IH]; [apply Forall_nil_2|]. apply visible_byte; [|exact IH]. unfold hexdigit.
  pose proof (Z.mod_pos_bound (Z.shiftr r (4 * Z.of_nat n)) 16 eq_refl) as H. revert H. generalize (Z.shiftr r (4 * Z.of_nat n) mod 16).
  intros z Hz. assert (In (Z.to_nat z) (seq 0 16)) as Hi by (apply in_seq; lia). revert Hi. generalize (Z.to_nat z). clear. intros k.
  cbn [seq In]. intros Hk. repeat (destruct Hk as [<-|Hk]; [done|]). done.
Qed.

Lemma escape_visible fuel s : visible (escape_go fuel s).
Proof.
  revert s. induction fuel as [|fuel IH]; intros [|b s]; try apply Forall_nil_2. cbn [escape_go]. case_decide as Hb.
  - apply Forall_app_2; [|apply IH]. unfold escape_byte. repeat case_decide; try by repeat (apply visible_byte; [done|]).
    + repeat (apply visible_byte; [first [done|lia]|]). apply Forall_nil_2.
    + apply Forall_app_2; [repeat (apply visible_byte; [done|]); apply Forall_nil_2|apply hex_digits_visible].
    + apply visible_byte; [lia|apply Forall_nil_2].
  - destruct (DecodeRune (b :: s)) as [[r w]|] eqn:Er; [|apply Forall_app_2; [repeat (apply visible_byte; [done|]); apply Forall_nil_2|apply IH]].
    apply DecodeRune_high in Er as (_ & Hh & _); [|lia]. apply Forall_app_2; [|apply IH]. case_decide.
    + apply Forall_app_2; [repeat (apply visible_byte; [done|]); apply Forall_nil_2|apply hex_digits_visible].
    + eapply Forall_impl; [exact Hh|]. cbn. lia.
Qed.

Lemma quoted_visible s : visible (quoted s).
Proof. unfold quoted. apply visible_byte; [done|]. apply Forall_app_2; [apply escape_visible|by apply visible_byte]. Qed.

Lemma Join_visible l : Forall visible l -> visible (GoStd.Join l (bs ",")).
Proof.
  induction 1 as [|x l Hx Hl IH]; [apply Forall_nil_2|]. destruct l as [|y l]; [exact Hx|].
  apply Forall_app_2; [exact Hx|]. by apply visible_byte.
Qed.

Lemma print_json_visible j : visible (print_json j).
Proof.
  induction j as [s|z|b|l IH|l IH] using json_tree; cbn [print_json].
  - apply quoted_visible.
  - assert (forall n, visible (utoa n)) as H.
    { intros n. eapply Forall_impl; [apply utoa_go_digits, Forall_nil_2|]. cbn. lia. }
    unfold Itoa. case_decide; [by apply visible_byte|apply H].
  - destruct b; repeat (apply visible_byte; [done|]); apply Forall_nil_2.
  - apply visible_byte; [done|]. apply Forall_app_2; [|by apply visible_byte]. by apply Join_visible, Forall_map.
  - apply visible_byte; [done|]. apply Forall_app_2; [|by apply visible_byte]. apply Join_visible, Forall_map.
    eapply Forall_impl; [exact IH|]. intros [k x] Hx. cbn [fst snd] in *. apply Forall_app_2; [apply quoted_visible|]. by apply visible_byte.
Qed.

(** ** Lines of text *)

Definition unlines (g : list bytes) : bytes := concat (map (fun line => line ++ [x0a]) g).

Lemma unlines_app g h : unlines (g ++ h) = unlines g ++ unlines h.
Proof. unfold unlines. by rewrite map_app, concat_app. Qed.

Lemma Split_unlines g : Forall visible g -> Split (unlines g) x0a = g ++ [[]].
Proof.
  assert (forall line t, visible line -> Split (line ++ x0a :: t) x0a = line :: Split t x0a) as H.
  { induction 1 as [|b line Hb _ IH]; [done|]. cbn [app Split]. rewrite IH.
    destruct (Byte.eqb b x0a) eqn:E; [apply beqb_eq in E; subst b; exfalso; revert Hb; vm_compute; tauto|done]. }
  induction 1 as [|line g Hl _ IH]; [done|]. change (unlines (line :: g)) with ((line ++ [x0a]) ++ unlines g).
  rewrite <- app_assoc. cbn [app]. by rewrite H, IH.
Qed.

(** ** The members of an event *)

Lemma string_le_total a b : string_le a b = true \/ string_le b a = true.
Proof.
  revert b. induction a as [|x a IH]; intros [|y b]; cbn; [by left|by left|by right|]. rewrite !orb_true_iff, !andb_true_iff, !bool_decide_eq_true.
  destruct (IH b), (Z.lt_trichotomy (u8 x) (u8 y)) as [?|[?|?]]; auto.
Qed.
#[local] Instance key_le_total {A} : Total (@key_le A).
Proof. intros x y. apply string_le_total. Qed.

(** The members are the entries of the map, each key once, in the order of the keys. *)
Lemma to_json_members m : exists l, to_json (MMap m) = JObject l /\ Sorted key_le l /\ NoDup (map fst l) /\
  forall k j, (k, j) ∈ l <-> exists v, m !! k = Some v /\ j = to_json v.
Proof.
  cbn [to_json]. set (f := fun k v l => (k, to_json v) :: l). set (l0 := map_fold f [] m).
  assert (NoDup (map fst l0) /\ forall k j, (k, j) ∈ l0 <-> exists v, m !! k = Some v /\ j = to_json v) as [Hn Hm].
  { subst l0. apply (map_fold_weak_ind (fun l m => NoDup (map fst l) /\ forall k j, (k, j) ∈ l <-> exists v, m !! k = Some v /\ j = to_json v)).
    - split; [constructor|]. intros k j. rewrite elem_of_nil. split; [done|]. by intros (v & ? & _).
    - intros i x m' l Hi [Hn Hl]. split.
      + cbn. constructor; [|exact Hn]. intros ([k j] & Hk & Hin)%list_elem_of_fmap. cbn in Hk. subst k.
        apply Hl in Hin as (v & Hv & _). congruence.
      + intros k j. subst f. cbn beta. rewrite elem_of_cons, Hl. split.
        * intros [[= -> ->]|(v & Hv & ->)]; [exists x; by rewrite lookup_insert_eq|].
          exists v. rewrite lookup_insert_ne; [done|]. intros ->. congruence.
        * intros (v & [[-> ->]|[Hne Hv]]%lookup_insert_Some & ->); [by left|right; by exists v]. }
  exists (merge_sort key_le l0). pose proof (merge_sort_Permutation key_le l0) as Hp.
  split; [done|]. split; [apply (Sorted_merge_sort _)|]. split; [by rewrite Hp|]. intros k j. by rewrite Hp.
Qed.
