(* ===== verification/Unmarshal.v ===== *)
(** [json.Unmarshal] of the Go standard library (encoding/json): the text of any JSON document,
    and the decoding of a document into the fields of a struct; and what a document says of an
    event ([shows]), told without the code that writes it. *)
From S2P Require Export Json.
From stdpp Require Import list.
#[local] Open Scope Z_scope.

(** * Documents *)

(** A number is kept as its text; the members of an object are in the order of the text. *)
Inductive value :=
| VNull
| VBool (b : bool)
| VNumber (text : bytes)
| VString (s : bytes)
| VArray (l : list value)
| VObject (l : list (bytes * value)).

Definition is_space (b : byte) : bool := bool_decide (u8 b = 32 \/ u8 b = 9 \/ u8 b = 10 \/ u8 b = 13).
Fixpoint skip (s : bytes) : bytes := match s with b :: rest => if is_space b then skip rest else s | [] => [] end.

(** ** Strings *)

(** The encoding of a rune. *)
Definition EncodeRune (r : Z) : bytes :=
  if decide (r < 65536) then utf8 r
  else [to_byte (240 + r / 262144); to_byte (128 + r / 4096 mod 64); to_byte (128 + r / 64 mod 64); to_byte (128 + r mod 64)].

Definition hex4 (s : bytes) : option (Z * bytes) :=
  match s with
  | h3 :: h2 :: h1 :: h0 :: rest =>
      d3 ← hex_of h3; d2 ← hex_of h2; d1 ← hex_of h1; d0 ← hex_of h0;
      Some (((d3 * 16 + d2) * 16 + d1) * 16 + d0, rest)
  | _ => None
  end.
(** [getu4]: a rune written as an escape. *)
Definition getu4 (s : bytes) : option (Z * bytes) :=
  match s with c :: e :: rest => if decide (u8 c = 92 /\ u8 e = 117) then hex4 rest else None | _ => None end.

Definition RuneError : Z := 65533.

(** The rune of an escape and what follows it: a surrogate wants its other half. *)
Definition escaped_rune (r : Z) (rest : bytes) : Z * bytes :=
  if decide (55296 <= r <= 57343) then
    match getu4 rest with
    | Some (r1, rest1) =>
        if decide (r < 56320 /\ 56320 <= r1 <= 57343) then ((r - 55296) * 1024 + (r1 - 56320) + 65536, rest1)
        else (RuneError, rest)
    | None => (RuneError, rest)
    end
  else (r, rest).

(** [unquote]: the characters up to the closing quote, and what follows it. *)
Fixpoint unquote (fuel : nat) (s : bytes) : option (bytes * bytes) :=
  match fuel, s with
  | S fuel, c :: rest =>
      let more t rest := '(u, rest) ← unquote fuel rest; Some (t ++ u, rest) in
      if decide (u8 c = 34) then Some ([], rest)
      else if decide (u8 c = 92) then
        match rest with
        | [] => None
        | e :: rest =>
            match short_escape e with
            | Some b => more [b] rest
            | None =>
                if decide (u8 e = 117) then
                  '(r, rest) ← hex4 rest;
                  let '(r, rest) := escaped_rune r rest in more (EncodeRune r) rest
                else None
            end
        end
      else if decide (u8 c < 32) then None
      else if decide (u8 c < 128) then more [c] rest
      else match DecodeRune s with
           | None => more (EncodeRune RuneError) rest
           | Some (_, w) => more (take w s) (drop w s)
           end
  | _, _ => None
  end.
Definition scan_string (s : bytes) : option (bytes * bytes) :=
  match s with c :: rest => if decide (u8 c = 34) then unquote (length rest) rest else None | [] => None end.

(** ** Numbers *)

(** At least one digit. *)
Definition digits1 (s : bytes) : option (bytes * bytes) := match read_digits s with ([], _) => None | r => Some r end.

Definition scan_int (s : bytes) : option (bytes * bytes) :=
  match s with b :: rest => if decide (u8 b = 48) then Some ([b], rest) else digits1 s | [] => None end.
Definition scan_frac (s : bytes) : option (bytes * bytes) :=
  match s with
  | b :: rest => if decide (u8 b = 46) then '(d, rest) ← digits1 rest; Some (b :: d, rest) else Some ([], s)
  | [] => Some ([], s)
  end.
Definition scan_sign (allow_plus : bool) (s : bytes) : bytes * bytes :=
  match s with
  | b :: rest => if decide (u8 b = 45 \/ (allow_plus = true /\ u8 b = 43)) then ([b], rest) else ([], s)
  | [] => ([], s)
  end.
Definition scan_exp (s : bytes) : option (bytes * bytes) :=
  match s with
  | b :: rest =>
      if decide (u8 b = 101 \/ u8 b = 69) then
        let '(sign, rest) := scan_sign true rest in '(d, rest) ← digits1 rest; Some (b :: sign ++ d, rest)
      else Some ([], s)
  | [] => Some ([], s)
  end.
Definition scan_number (s : bytes) : option (bytes * bytes) :=
  let '(sign, s) := scan_sign false s in
  '(i, s) ← scan_int s; '(f, s) ← scan_frac s; '(e, s) ← scan_exp s; Some (sign ++ i ++ f ++ e, s).

(** ** Arrays and objects *)

Fixpoint scan_seq {A} (read : bytes -> option (A * bytes)) (close : byte) (fuel : nat) (s : bytes) : option (list A * bytes) :=
  match fuel with
  | O => None
  | S fuel =>
      '(x, s) ← read s;
      match skip s with
      | c :: s =>
          if decide (c = close) then Some ([x], s)
          else if decide (u8 c = 44) then '(l, s) ← scan_seq read close fuel s; Some (x :: l, s) else None
      | [] => None
      end
  end.
Definition scan_list {A} (read : bytes -> option (A * bytes)) (close : byte) (s : bytes) : option (list A * bytes) :=
  match skip s with
  | c :: rest => if decide (c = close) then Some ([], rest) else scan_seq read close (length s) s
  | [] => None
  end.
Definition scan_member {A} (read : bytes -> option (A * bytes)) (s : bytes) : option ((bytes * A) * bytes) :=
  '(k, s) ← scan_string (skip s);
  match skip s with c :: s => if decide (u8 c = 58) then '(v, s) ← read s; Some ((k, v), s) else None | [] => None end.

(** The elements of a document are shorter than it is. *)
Fixpoint scan_value (fuel : nat) (s : bytes) : option (value * bytes) :=
  match fuel, skip s with
  | S fuel, c :: rest =>
      if decide (u8 c = 34) then '(t, s) ← scan_string (c :: rest); Some (VString t, s)
      else if decide (u8 c = 91) then '(l, s) ← scan_list (scan_value fuel) "]"%byte rest; Some (VArray l, s)
      else if decide (u8 c = 123) then '(l, s) ← scan_list (scan_member (scan_value fuel)) "}"%byte rest; Some (VObject l, s)
      else if has_prefix (bs "true") (c :: rest) then Some (VBool true, drop 3 rest)
      else if has_prefix (bs "false") (c :: rest) then Some (VBool false, drop 4 rest)
      else if has_prefix (bs "null") (c :: rest) then Some (VNull, drop 3 rest)
      else '(t, s) ← scan_number (c :: rest); Some (VNumber t, s)
  | _, _ => None
  end.

(** A text that is one document, or a syntax error. *)
Definition parse (s : bytes) : option value :=
  '(v, rest) ← scan_value (S (length s)) s; match skip rest with [] => Some v | _ => None end.

(** * Structs *)

(** What a field does with a value; the second result is the error that is kept until the end. *)
Definition setter (T : Type) : Type := value -> T -> T * bool.

Definition set_string {T} (set : bytes -> T -> T) : setter T := fun v t =>
  match v with VString s => (set s t, false) | VNull => (t, false) | _ => (t, true) end.
Definition set_bool {T} (set : bool -> T -> T) : setter T := fun v t =>
  match v with VBool b => (set b t, false) | VNull => (t, false) | _ => (t, true) end.
Definition set_int {T} (set : Z -> T -> T) : setter T := fun v t =>
  match v with
  | VNumber s => match ParseInt s 10 64 with (n, None) => (set n t, false) | _ => (t, true) end
  | VNull => (t, false)
  | _ => (t, true)
  end.
(** [json.RawMessage] takes any value, null included. *)
Definition set_raw {T} (set : value -> T -> T) : setter T := fun v t => (set v t, false).
(** Slices: the elements are decoded from their zero value (also when a key is repeated, where
    [Unmarshal] starts from the elements of the slice that is there). *)
Definition set_slice {T A} (zero : A) (elem : setter A) (set : list A -> T -> T) : setter T := fun v t =>
  match v with
  | VArray l => let r := map (fun v => elem v zero) l in (set (map fst r) t, existsb snd r)
  | VNull => (set [] t, false)
  | _ => (t, true)
  end.

(** The keys are compared without regard to case, the Kelvin sign and the long s included. *)
Fixpoint fold_key (s : bytes) : bytes :=
  match s with
  | xe2 :: x84 :: xaa :: rest => "k"%byte :: fold_key rest
  | xc5 :: xbf :: rest => "s"%byte :: fold_key rest
  | b :: rest => (if decide (65 <= u8 b <= 90) then to_byte (u8 b + 32) else b) :: fold_key rest
  | [] => []
  end.
Definition same_key (a b : bytes) : bool := bool_decide (fold_key a = fold_key b).

Definition fields (T : Type) : Type := list (bytes * setter T).
(** The field of a key: the one of this name, or else the first one of a name like it. *)
Definition find_field {T} (fs : fields T) (key : bytes) : option (setter T) :=
  match find (fun x => bool_decide (fst x = key)) fs with
  | Some x => Some (snd x)
  | None => snd <$> find (fun x => same_key (fst x) key) fs
  end.

Fixpoint set_members {T} (fs : fields T) (l : list (bytes * value)) (t : T) : T * bool :=
  match l with
  | [] => (t, false)
  | (key, v) :: l =>
      let '(t, e) := match find_field fs key with Some f => f v t | None => (t, false) end in
      let '(t, e') := set_members fs l t in (t, e || e')
  end.
Definition set_struct {T} (fs : fields T) : setter T := fun v t =>
  match v with VObject l => set_members fs l t | VNull => (t, false) | _ => (t, true) end.
(** A field that is a struct. *)
Definition set_inner {T U} (get : T -> U) (set : U -> T -> T) (f : setter U) : setter T := fun v t =>
  let '(u, e) := f v (get t) in (set u t, e).
(** [map[string]json.RawMessage]. *)
Definition set_map {T} (set : gmap bytes value -> T -> T) (get : T -> gmap bytes value) : setter T := fun v t =>
  match v with
  | VObject l => (set (foldl (fun m x => <[fst x := snd x]> m) (get t) l) t, false)
  | VNull => (set ∅ t, false)
  | _ => (t, true)
  end.

(** [json.Unmarshal] into a variable with the value [t], of a text; and of a document that
    has been read already ([json.RawMessage], nil without one).  A syntax error leaves [t]. *)
Definition Unmarshal {T} (f : setter T) (s : bytes) (t : T) : T * bool :=
  match parse s with Some v => f v t | None => (t, true) end.
Definition UnmarshalRaw {T} (f : setter T) (raw : option value) (t : T) : T * bool :=
  match raw with Some v => f v t | None => (t, true) end.

Example parse_demo :
  parse (bs " { " ++ [x22] ++ bs "a\ud83d\ude00\n" ++ [x22] ++ bs " : [ 1.5e+3 , null ,true ] , " ++ [x22; x22] ++ bs ":-0} ") =
  Some (VObject [([x61; xf0; x9f; x98; x80; x0a], VArray [VNumber (bs "1.5e+3"); VNull; VBool true]); ([], VNumber (bs "-0"))]) /\
  parse (bs "[1,]") = None /\ parse (bs "01") = None /\ parse (bs "nul") = None /\ parse [] = None.
Proof. by vm_compute. Qed.

(** * What is written is what is read *)

Fixpoint value_of (j : json) : value :=
  match j with
  | JString s => VString (valid s)
  | JNumber z => VNumber (Itoa z)
  | JBool b => VBool b
  | JArray l => VArray (map value_of l)
  | JObject l => VObject (map (fun x => (valid (fst x), value_of (snd x))) l)
  end.

(** More fuel does not change a result. *)
Lemma unquote_fuel f1 f2 s r : (f1 <= f2)%nat -> unquote f1 s = Some r -> unquote f2 s = Some r.
Proof.
  revert f2 s r. induction f1 as [|f1 IH]; intros f2 s r Hle H; [done|]. destruct f2 as [|f2]; [lia|].
  assert (forall t rest r, (('(u, rest) ← unquote f1 rest; Some (t ++ u, rest)) : option (bytes * bytes)) = Some r ->
    ('(u, rest) ← unquote f2 rest; Some (t ++ u, rest)) = Some r) as Hm.
  { intros t rest r0 E. destruct (unquote f1 rest) as [[u rest']|] eqn:Eu; [|done]. by rewrite (IH f2 _ _ ltac:(lia) Eu). }
  destruct s as [|c rest]; [done|]. cbn [unquote] in *. repeat case_decide; try done; try (by apply Hm).
  - destruct rest as [|e rest]; [done|]. destruct (short_escape e); [by apply Hm|]. case_decide; [|done].
    destruct (hex4 rest) as [[x rest']|]; [|done]. cbn [mbind option_bind] in *. destruct (escaped_rune x rest') as [y rest'']. by apply Hm.
  - destruct (DecodeRune (c :: rest)) as [[x w]|]; by apply Hm.
Qed.

Lemma unquote_byte fuel b t : u8 b < 128 ->
  unquote (S fuel) (escape_byte b ++ t) = '(u, rest) ← unquote fuel t; Some (b :: u, rest).
Proof. intros Hb. destruct b; try reflexivity; exfalso; revert Hb; clear; vm_compute; congruence. Qed.

(** A rune is read alike whatever follows it. *)
Lemma DecodeRune_take b s r w t : 128 <= u8 b -> DecodeRune (b :: s) = Some (r, w) ->
  (0 < w <= length (b :: s))%nat /\ DecodeRune (take w (b :: s) ++ t) = Some (r, w).
Proof.
  intros Hb Hd. revert Hd. cbn [DecodeRune]. rewrite decide_False by lia. repeat case_decide; [| | |done].
  - destruct s as [|b1 s]; [done|]. destruct (cont b1) eqn:E1; [|done]. intros [= <- <-]. split; [cbn; lia|].
    cbn [take app DecodeRune]. rewrite decide_False, decide_True by lia. by rewrite E1.
  - destruct s as [|b1 [|b2 s]]; [done..|]. destruct (cont b1) eqn:E1; [|done]. destruct (cont b2) eqn:E2; [|done].
    case_bool_decide as Hv; [|done]. cbn [andb]. intros [= <- <-]. split; [cbn; lia|].
    cbn [take app DecodeRune]. rewrite !decide_False, decide_True by lia. rewrite E1, E2, bool_decide_eq_true_2 by done. done.
  - destruct s as [|b1 [|b2 [|b3 s]]]; [done..|]. destruct (cont b1) eqn:E1; [|done]. destruct (cont b2) eqn:E2; [|done].
    destruct (cont b3) eqn:E3; [|done]. case_bool_decide as Hv; [|done]. cbn [andb]. intros [= <- <-]. split; [cbn; lia|].
    cbn [take app DecodeRune]. rewrite !decide_False, decide_True by lia. rewrite E1, E2, E3, bool_decide_eq_true_2 by done. done.
Qed.

(** A string of runes stays as it is. *)
Lemma valid_go_idem f1 : forall s f2, (length s <= f1)%nat -> (length (valid_go f1 s) <= f2)%nat ->
  valid_go f2 (valid_go f1 s) = valid_go f1 s.
Proof.
  induction f1 as [|f1 IH]; intros [|b s] f2 H1 H2; [by destruct f2|cbn in H1; lia|by destruct f2|].
  cbn [valid_go] in *. cbn [length] in H1. case_decide as Hb.
  - destruct f2 as [|f2]; [cbn in H2; lia|]. cbn [valid_go]. rewrite decide_True by done. rewrite IH; [done|lia|cbn in H2; lia].
  - destruct (DecodeRune (b :: s)) as [[r w]|] eqn:Er.
    + destruct (DecodeRune_take b s r w (valid_go f1 (drop w (b :: s))) ltac:(lia) Er) as [Hw Ht].
      assert (length (drop w (b :: s)) <= f1)%nat as Hd by (rewrite length_drop; cbn; lia).
      rewrite length_app in H2. destruct w as [|w]; [lia|]. cbn [take] in H2. cbn [length] in H2.
      destruct f2 as [|f2]; [lia|]. cbn [take app valid_go] in *. rewrite decide_False, Ht by done.
      cbn [take drop]. assert (length (take w s) = w) as Hl by (rewrite length_take; cbn in Hw; lia).
      rewrite take_app_length' by done. rewrite drop_app_length' by done. cbn [drop] in *. rewrite IH; [done|done|lia].
    + rewrite length_app in H2. cbn [length] in H2. destruct f2 as [|f2]; [lia|].
      cbn [app valid_go]. rewrite decide_False by (vm_compute; congruence).
      replace (DecodeRune (xef :: xbf :: xbd :: valid_go f1 s)) with (Some (65533, 3%nat)) by reflexivity.
      cbn [take drop]. rewrite take_0, drop_0, IH; [done|lia|lia].
Qed.
Lemma valid_idem s : valid (valid s) = valid s.
Proof. unfold valid. by apply valid_go_idem. Qed.

(** Characters beyond ASCII, one rune at a time. *)
Lemma unquote_rune fuel b s r w t : 128 <= u8 b -> DecodeRune (b :: s) = Some (r, w) ->
  unquote (S fuel) (take w (b :: s) ++ t) = '(u, rest) ← unquote fuel t; Some (take w (b :: s) ++ u, rest).
Proof.
  intros Hb Hd. destruct (DecodeRune_take b s r w t Hb Hd) as [Hw Hd'].
  destruct w as [|w]; [lia|]. cbn [take app] in *. cbn [unquote]. rewrite !decide_False by lia. rewrite Hd'.
  cbn [take drop]. assert (length (take w s) = w) as Hl by (rewrite length_take; cbn in Hw; lia).
  rewrite take_app_length' by done. by rewrite drop_app_length' by done.
Qed.

Lemma unquote_escape fuel s rest : (length s <= fuel)%nat ->
  unquote (S fuel) (escape_go fuel s ++ x22 :: rest) = Some (valid_go fuel s, rest).
Proof.
  revert s. induction fuel as [|fuel IH]; intros [|b s] Hf; [done|cbn in Hf; lia|done|].
  cbn [escape_go valid_go]. cbn [length] in Hf. case_decide as Hb; [rewrite <- app_assoc, unquote_byte, IH by lia; done|].
  destruct (DecodeRune (b :: s)) as [[r w]|] eqn:Er.
  - pose proof (DecodeRune_high b s r w ltac:(lia) Er) as (Hw & Hh & Hr). rewrite <- app_assoc.
    assert (length (drop w (b :: s)) <= fuel)%nat as Hd by (rewrite length_drop; cbn; lia).
    case_decide as Hs; [|rewrite (unquote_rune _ _ _ r) by (done || lia); by rewrite IH].
    rewrite Hr by done. destruct Hs as [-> | ->].
    + transitivity ('(t, rest) ← unquote (S fuel) (escape_go fuel (drop w (b :: s)) ++ x22 :: rest); Some (utf8 8232 ++ t, rest)); [done|].
      by rewrite IH.
    + transitivity ('(t, rest) ← unquote (S fuel) (escape_go fuel (drop w (b :: s)) ++ x22 :: rest); Some (utf8 8233 ++ t, rest)); [done|].
      by rewrite IH.
  - rewrite <- app_assoc.
    transitivity ('(t, rest) ← unquote (S fuel) (escape_go fuel s ++ x22 :: rest); Some (utf8 65533 ++ t, rest)); [done|].
    by rewrite IH by lia.
Qed.

Lemma escape_longer fuel s : (length s <= fuel)%nat -> (length s <= length (escape_go fuel s))%nat.
Proof.
  revert s. induction fuel as [|fuel IH]; intros [|b s] Hf; [done|cbn in Hf; lia|done|]. cbn [escape_go length] in *. case_decide as Hb.
  - rewrite length_app. specialize (IH s ltac:(lia)). assert (1 <= length (escape_byte b))%nat; [|lia].
    unfold escape_byte. repeat case_decide; cbn; lia.
  - destruct (DecodeRune (b :: s)) as [[r w]|] eqn:Er.
    + pose proof (DecodeRune_high b s r w ltac:(lia) Er) as (Hw & _ & _). rewrite length_app.
      specialize (IH (drop w (b :: s))). rewrite length_drop in IH. cbn [length] in IH. specialize (IH ltac:(lia)).
      assert (w <= 4)%nat by (revert Er; cbn [DecodeRune]; rewrite decide_False by lia; repeat case_decide; [| | |done]; destruct s as [|? [|? [|? ?]]];
        repeat case_match; intros; simplify_eq; lia).
      assert (Nat.min w (S (length s)) <= length (if decide (r = 8232%Z \/ r = 8233%Z) then bs "\u202" ++ hex_digits 1 r else take w (b :: s)))%nat; [|lia].
      case_decide; [rewrite length_app; cbn; lia|rewrite length_take; cbn; lia].
    + rewrite length_app. specialize (IH s ltac:(lia)). cbn. lia.
Qed.

Lemma scan_quoted s rest : scan_string (quoted s ++ rest) = Some (valid s, rest).
Proof.
  unfold scan_string, quoted. cbn [app]. rewrite decide_True by done. rewrite <- app_assoc. cbn [app].
  apply (unquote_fuel (S (length s))); [|by apply unquote_escape].
  rewrite length_app. cbn [length]. pose proof (escape_longer (length s) s (le_n _)). unfold escape. lia.
Qed.

(** ** Numbers *)

(** What ends a value: neither more of a number nor white space matters to what is before it. *)
Definition stops (rest : bytes) : Prop :=
  match rest with b :: _ => ~ 48 <= u8 b <= 57 /\ u8 b <> 46 /\ u8 b <> 101 /\ u8 b <> 69 | [] => True end.
Lemma stops_ends rest : stops rest -> ends rest.
Proof. destruct rest; [done|]. by intros []. Qed.

Lemma utoa_go_first fuel n acc : 0 < n -> (Z.to_nat (Z.log2 n) < fuel)%nat ->
  exists c t, utoa_go fuel n acc = c :: t /\ 49 <= u8 c <= 57.
Proof.
  revert n acc. induction fuel as [|fuel IH]; intros n acc Hn Hf; [lia|]. cbn [utoa_go]. case_decide as Hs.
  - exists (digit n), acc. split; [done|]. unfold digit. rewrite u8_to_byte, (Z.mod_small n), Z.mod_small; lia.
  - apply IH; [apply Z.div_str_pos; lia|].
    assert (Z.log2 (n / 10) < Z.log2 n); [|pose proof (Z.log2_nonneg (n / 10)); lia].
    apply Z.log2_lt_pow2; [apply Z.div_str_pos; lia|]. pose proof (Z.log2_spec n ltac:(lia)) as [_ Hl].
    rewrite Z.pow_succ_r in Hl by apply Z.log2_nonneg. apply Z.div_lt_upper_bound; [lia|]. nia.
Qed.

Lemma scan_int_utoa n rest : 0 <= n -> ends rest -> scan_int (utoa n ++ rest) = Some (utoa n, rest).
Proof.
  intros Hn Hr. destruct (decide (n = 0)) as [->|Hz]; [done|].
  destruct (utoa_go_first (S (Z.to_nat (Z.log2 n))) n []) as (c & t & E & Hc); [lia..|].
  change (utoa_go _ _ _) with (utoa n) in E. unfold scan_int. rewrite E. cbn [app]. rewrite decide_False by lia.
  change (c :: t ++ rest) with ((c :: t) ++ rest). rewrite <- E. unfold digits1.
  rewrite read_digits_app by (done || apply utoa_go_digits, Forall_nil_2). by rewrite E.
Qed.

Lemma scan_number_Itoa z rest : stops rest -> scan_number (Itoa z ++ rest) = Some (Itoa z, rest).
Proof.
  intros Hr. pose proof (stops_ends rest Hr) as He.
  assert (scan_frac rest = Some ([], rest)) as Hf.
  { destruct rest as [|b rest]; [done|]. unfold scan_frac. cbn in Hr. by rewrite decide_False by lia. }
  assert (scan_exp rest = Some ([], rest)) as Hx.
  { destruct rest as [|b rest]; [done|]. unfold scan_exp. cbn in Hr. by rewrite decide_False by lia. }
  unfold scan_number, Itoa. case_decide as Hz.
  - cbn [app]. unfold scan_sign. rewrite decide_True by (by left). rewrite scan_int_utoa by (done || lia).
    cbn [mbind option_bind]. rewrite Hf. cbn [mbind option_bind]. rewrite Hx. cbn [mbind option_bind app]. by rewrite app_nil_r.
  - assert (scan_sign false (utoa z ++ rest) = ([], utoa z ++ rest)) as ->.
    { destruct (utoa_cons z) as (c & t & -> & Hc). cbn [app scan_sign]. rewrite decide_False; [done|]. intros [?|[? _]]; [lia|done]. }
    rewrite scan_int_utoa by (done || lia). cbn [mbind option_bind]. rewrite Hf. cbn [mbind option_bind]. rewrite Hx.
    cbn [mbind option_bind app]. by rewrite app_nil_r.
Qed.

(** ** Sequences *)

Definition dense (s : bytes) : Prop := match s with c :: _ => is_space c = false | [] => True end.
Lemma skip_dense s : dense s -> skip s = s.
Proof. destruct s as [|c s]; [done|]. cbn. by intros ->. Qed.

Section Scan.
Context {A B : Type} (read : bytes -> option (A * bytes)) (write : B -> bytes) (f : B -> A) (close : byte).
Context (close_ok : stops [close]) (close_comma : u8 close <> 44) (close_dense : is_space close = false).

Definition scans_back (x : B) : Prop :=
  (forall rest, stops rest -> read (write x ++ rest) = Some (f x, rest)) /\
  exists c t, write x = c :: t /\ c <> close /\ is_space c = false.

Lemma scan_seq_join x l fuel rest :
  Forall scans_back (x :: l) -> (length l < fuel)%nat ->
  scan_seq read close fuel (GoStd.Join (map write (x :: l)) (bs ",") ++ close :: rest) = Some (map f (x :: l), rest).
Proof using close_ok close_comma close_dense.
  revert x l. induction fuel as [|fuel IH]; intros x l H Hf; [lia|]. apply Forall_cons in H as [[Hx _] Hl].
  destruct l as [|y l].
  - cbn [map GoStd.Join scan_seq]. rewrite Hx by done. cbn [mbind option_bind]. rewrite skip_dense by done. by rewrite decide_True.
  - change (GoStd.Join (map write (x :: y :: l)) (bs ",")) with (write x ++ bs "," ++ GoStd.Join (map write (y :: l)) (bs ",")).
    rewrite <- !app_assoc. cbn [scan_seq]. rewrite Hx by (cbn; lia). cbn [mbind option_bind].
    change (bs "," ++ ?t) with (","%byte :: t). rewrite skip_dense by done. cbv iota.
    rewrite decide_False by (intros <-; tauto). rewrite decide_True by done. rewrite IH by (done || cbn in *; lia). done.
Qed.

Lemma scan_list_join l rest :
  Forall scans_back l -> scan_list read close (GoStd.Join (map write l) (bs ",") ++ close :: rest) = Some (map f l, rest).
Proof using close_ok close_comma close_dense.
  intros H. unfold scan_list. destruct l as [|x l]; [cbn [map GoStd.Join app]; rewrite skip_dense by done; by rewrite decide_True|].
  assert (exists c t, GoStd.Join (map write (x :: l)) (bs ",") ++ close :: rest = c :: t /\ c <> close /\ is_space c = false) as (c & t & E & Hc & Hd).
  { apply Forall_cons in H as [[_ (c & t & E & Hc)] _]. destruct l as [|y l]; cbn [map GoStd.Join]; rewrite E; by eexists _, _. }
  rewrite E, skip_dense by done. rewrite decide_False, <- E by done. apply scan_seq_join; [done|].
  clear. rewrite length_app. cbn [length]. enough (length l <= length (GoStd.Join (map write (x :: l)) (bs ",")))%nat by lia.
  revert x. induction l as [|y l IH]; intros x; [cbn; lia|].
  change (GoStd.Join (map write (x :: y :: l)) (bs ",")) with (write x ++ bs "," ++ GoStd.Join (map write (y :: l)) (bs ",")).
  rewrite !length_app. specialize (IH y). cbn [length]. change (length (bs ",")) with 1%nat. lia.
Qed.
End Scan.

(** ** Documents *)

Lemma print_json_dense j : exists c t, print_json j = c :: t /\ c <> "]"%byte /\ is_space c = false.
Proof.
  destruct j as [s|z|[]|l|l]; cbn [print_json]; try by eexists _, _.
  destruct (Itoa_cons z) as (c & t & -> & H). exists c, t. split; [done|]. destruct H as [->|H]; [done|].
  split; [intros ->; cbn in H; lia|]. unfold is_space. apply bool_decide_eq_false_2. lia.
Qed.

Lemma not_word k p c t : u8 k <> u8 c -> has_prefix (k :: p) (c :: t) = false.
Proof. intros Hk. cbn. destruct (Byte.eqb k c) eqn:Ek; [|done]. apply beqb_eq in Ek. congruence. Qed.

Lemma scan_print_json j : forall d rest,
  (depth j < d)%nat -> stops rest -> scan_value d (print_json j ++ rest) = Some (value_of j, rest).
Proof.
  induction j as [s|z|b|l IH|l IH] using json_tree; intros [|d] rest Hd Hr; try (cbn in Hd; lia).
  - cbn [print_json]. cbn [scan_value]. rewrite skip_dense by done. pose proof (scan_quoted s rest) as E.
    unfold quoted in *. cbn [app] in *. rewrite decide_True by done. by rewrite E.
  - cbn [print_json]. pose proof (scan_number_Itoa z rest Hr) as E.
    destruct (print_json_dense (JNumber z)) as (c & t & Ez & _ & Hs). cbn [print_json] in Ez.
    destruct (Itoa_cons z) as (c' & t' & Ez' & Hc). assert (c' = c) as -> by congruence.
    rewrite Ez in E |- *. cbn [app scan_value] in *. rewrite skip_dense by done. cbv iota.
    assert (u8 c <> 34 /\ u8 c <> 91 /\ u8 c <> 123 /\ u8 c <> 116 /\ u8 c <> 102 /\ u8 c <> 110) as (H1 & H2 & H3 & H4 & H5 & H6)
      by (destruct Hc as [->|Hc]; [done|lia]).
    rewrite !decide_False by done.
    change (bs "true") with ("t"%byte :: bs "rue"). change (bs "false") with ("f"%byte :: bs "alse"). change (bs "null") with ("n"%byte :: bs "ull").
    rewrite !not_word by (intros Ek; by rewrite <- Ek in H4, H5, H6). rewrite E. cbn. by rewrite Ez.
  - by destruct b.
  - cbn [print_json]. rewrite <- !app_assoc. change (bs "[" ++ ?t) with ("["%byte :: t). cbn [scan_value]. rewrite skip_dense by done. cbv iota.
    rewrite decide_False, decide_True by done. change (bs "]" ++ rest) with ("]"%byte :: rest).
    rewrite (scan_list_join _ _ value_of); [done|vm_compute; intuition congruence|done|done|].
    apply List.Forall_forall. intros x Hx. rewrite List.Forall_forall in IH. split.
    + intros rest' Hr'. apply (IH x Hx); [|done]. cbn [depth] in Hd. pose proof (json_depth_max depth x l Hx). lia.
    + apply print_json_dense.
  - cbn [print_json]. rewrite <- !app_assoc. change (bs "{" ++ ?t) with ("{"%byte :: t). cbn [scan_value]. rewrite skip_dense by done. cbv iota.
    rewrite !decide_False, decide_True by done. change (bs "}" ++ rest) with ("}"%byte :: rest).
    rewrite (scan_list_join _ _ (fun x => (valid (fst x), value_of (snd x)))); [done|vm_compute; intuition congruence|done|done|].
    apply List.Forall_forall. intros [k x] Hx. rewrite List.Forall_forall in IH. split; [|by eexists _, _].
    intros rest' Hr'. cbn [fst snd]. unfold scan_member. rewrite skip_dense by done. rewrite <- app_assoc, scan_quoted. cbn [mbind option_bind].
    change ((bs ":" ++ ?t) ++ ?u) with (":"%byte :: t ++ u). rewrite skip_dense by done. cbv iota. rewrite decide_True by done.
    rewrite (IH _ Hx); [done| |done]. cbn [depth] in Hd. pose proof (json_depth_max (fun x => depth (snd x)) _ l Hx). cbn in *. lia.
Qed.

Lemma Join_longer {B} (write : B -> bytes) x l : In x l -> (length (write x) <= length (GoStd.Join (map write l) (bs ",")))%nat.
Proof.
  induction l as [|y l IH]; [done|]. destruct l as [|y' l].
  - intros [->|[]]. done.
  - change (GoStd.Join (map write (y :: y' :: l)) (bs ",")) with (write y ++ bs "," ++ GoStd.Join (map write (y' :: l)) (bs ",")).
    rewrite !length_app. intros [->|H]; [lia|]. specialize (IH H). lia.
Qed.

Lemma foldr_max_le {A} (f : A -> nat) l n : (forall x, In x l -> (f x <= n)%nat) -> (foldr (fun y m => Nat.max (f y) m) O l <= n)%nat.
Proof. induction l as [|x l IH]; intros H; [cbn; lia|]. cbn. pose proof (H x (or_introl eq_refl)). specialize (IH (fun y Hy => H y (or_intror Hy))). lia. Qed.

Lemma depth_shorter j : (depth j <= length (print_json j))%nat.
Proof.
  induction j as [s|z|b|l IH|l IH] using json_tree; cbn [depth print_json]; try lia; rewrite List.Forall_forall in IH;
    rewrite !length_app; cbn [length bs String.list_byte_of_string]; apply le_n_S; (etrans; [|apply Nat.le_add_r]); apply foldr_max_le.
  - intros x Hx. etrans; [apply (IH x Hx)|]. by apply Join_longer.
  - intros x Hx. etrans; [apply (IH x Hx)|]. etrans; [|apply (Join_longer (fun x => quoted (fst x) ++ bs ":" ++ print_json (snd x)) x l Hx)].
    rewrite !length_app. lia.
Qed.

(** The document that [Marshal] writes is the document that [Unmarshal] reads. *)
Lemma parse_print_json j : parse (print_json j) = Some (value_of j).
Proof.
  unfold parse. pose proof (scan_print_json j (S (length (print_json j))) []) as E. rewrite app_nil_r in E.
  rewrite E; [done| |done]. pose proof (depth_shorter j). lia.
Qed.

(** * What a document says of an event *)

(** The document of a value: strings with U+FFFD for bytes that are not UTF-8, a time as a text
    that is read back to the millisecond (for the years 0 to 9999), a map as its entries in
    some order, each key once. *)
Inductive shows : mval -> value -> Prop :=
| shows_str s : shows (MStr s) (VString (valid s))
| shows_int z : shows (MInt z) (VNumber (Itoa z))
| shows_bool b : shows (MBool b) (VBool b)
| shows_time ns t :
    (- 62167219200 * 10 ^ 9 <= ns < 253402300800 * 10 ^ 9 -> read_timestamp t = Some (ns / 1000000)) ->
    shows (MTime ns) (VString t)
| shows_strs l : shows (MStrs l) (VArray (map (fun s => VString (valid s)) l))
| shows_endpoint e :
    shows (MEndpoint e)
      (VObject [(bs "Ip", VString (valid (ep_Ip e))); (bs "Port", VNumber (Itoa (ep_Port e))); (bs "Name", VString (valid (ep_Name e)));
                (bs "Cmdline", VString (valid (ep_Cmdline e))); (bs "Proc", VString (valid (ep_Proc e)))])
| shows_map m entries members :
    entries ≡ₚ map_to_list m -> Forall2 (fun x y => fst y = valid (fst x) /\ shows (snd x) (snd y)) entries members ->
    shows (MMap m) (VObject members).

Definition ascii (b : byte) : Prop := u8 b < 128.

Lemma valid_ascii s : Forall ascii s -> valid s = s.
Proof.
  unfold valid. intros H. assert (forall fuel, (length s <= fuel)%nat -> valid_go fuel s = s) as Hf; [|by apply Hf].
  induction H as [|b s Hb _ IH]; intros [|fuel] Hl; cbn in *; [done..|lia|]. rewrite decide_True by exact Hb. f_equal. apply IH. lia.
Qed.

Lemma ascii_app s t : Forall ascii s -> Forall ascii t -> Forall ascii (s ++ t).
Proof. intros. by apply Forall_app. Qed.

Lemma ascii_bs s : forallb (fun b => bool_decide (u8 b < 128)) s = true -> Forall ascii s.
Proof. rewrite forallb_forall. intros H. apply Forall_forall. intros b Hb%list_elem_of_In. apply H in Hb. by apply bool_decide_eq_true in Hb. Qed.

Lemma ascii_digit n : ascii (digit n).
Proof. unfold ascii, digit. rewrite u8_to_byte, Z.mod_small; pose proof (Z.mod_pos_bound n 10 eq_refl); lia. Qed.

Lemma ascii_dec_digits w n : Forall ascii (dec_digits w n).
Proof. revert n. induction w as [|w IH]; intros n; cbn; [constructor|]. apply ascii_app; [apply IH|]. by constructor; [apply ascii_digit|]. Qed.

Lemma ascii_utoa_go fuel n acc : Forall ascii acc -> Forall ascii (utoa_go fuel n acc).
Proof.
  revert n acc. induction fuel as [|fuel IH]; intros n acc H; cbn [utoa_go]; [done|].
  case_decide; [|apply IH]; (constructor; [apply ascii_digit|done]).
Qed.

Lemma ascii_zero_pad w n : Forall ascii (zero_pad w n).
Proof. unfold zero_pad. case_decide; [apply ascii_dec_digits|]. by apply ascii_utoa_go. Qed.

Lemma Time_Format_ascii ns : Forall ascii (Time_Format ns).
Proof.
  unfold Time_Format. destruct (absDate _) as [[year month] day]. destruct (absClock _) as [[hour min] sec].
  repeat apply ascii_app; try apply ascii_zero_pad; try (by apply ascii_bs).
  unfold year_text. case_decide; [constructor; [by vm_compute|]|]; apply ascii_zero_pad.
Qed.

Lemma foldr_max_ge {A} (f : A -> nat) l x : x ∈ l -> (f x <= foldr (fun y n => Nat.max (f y) n) O l)%nat.
Proof. induction 1 as [x l|x y l _ IH]; cbn; lia. Qed.

(** What [json.Marshal] makes of a value is its document. *)
Lemma shows_to_json v : shows v (value_of (to_json v)).
Proof.
  enough (forall n v, (depth (to_json v) < n)%nat -> shows v (value_of (to_json v))) as H by (apply (H _ v (le_n _))).
  clear v. induction n as [|n IH]; intros v Hn; [lia|]. destruct v as [s|z|b|ns|l|e|m].
  - apply shows_str.
  - apply shows_int.
  - apply shows_bool.
  - cbn [to_json value_of]. rewrite valid_ascii by apply Time_Format_ascii. apply shows_time. apply Time_Format_read.
  - cbn [to_json value_of]. rewrite map_map. apply shows_strs.
  - apply shows_endpoint.
  - destruct (to_json_members m) as (l & El & _ & Hnd & Hl). rewrite El in Hn |- *. cbn [depth value_of] in *.
    assert (l ≡ₚ map (fun x => (fst x, to_json (snd x))) (map_to_list m)) as Hp.
    { apply NoDup_Permutation.
      - by apply (NoDup_fmap_1 fst).
      - apply (NoDup_fmap_1 fst). change (map ?f ?l) with (f <$> l). rewrite <- list_fmap_compose. apply NoDup_fst_map_to_list.
      - intros [k j]. rewrite Hl, list_elem_of_fmap. split.
        + intros (v & Hv & ->). exists (k, v). split; [done|]. by apply elem_of_map_to_list.
        + intros ([k' v] & [= -> ->] & Hv%elem_of_map_to_list). by exists v. }
    apply Permutation_map_inv in Hp as (entries & -> & He). rewrite map_map. cbn [fst snd].
    apply shows_map with entries; [by symmetry|]. change (map ?f ?l) with (f <$> l). apply Forall2_fmap_r, Forall_Forall2_diag, Forall_forall.
    intros [k v] Hkv. cbn [fst snd]. split; [done|]. apply IH.
    pose proof (foldr_max_ge (fun x : bytes * json => depth (snd x)) (map (fun x => (fst x, to_json (snd x))) entries) (k, to_json v)) as Hd.
    cbn [snd] in Hd. assert ((k, to_json v) ∈ map (fun x => (fst x, to_json (snd x))) entries) as Hin
      by (change (map ?f ?l) with (f <$> l); apply list_elem_of_fmap; by exists (k, v)).
    specialize (Hd Hin). lia.
Qed.

(** A line of an output is read as the document of its event. *)
Lemma parse_Marshal event : exists v, parse (Marshal event) = Some v /\ shows (MMap event) v.
Proof. exists (value_of (to_json (MMap event))). split; [apply parse_print_json|apply shows_to_json]. Qed.

Lemma parse_Marshals {A} (f : A -> gmap bytes mval) l :
  exists vs, map (fun x => parse (Marshal (f x))) l = map Some vs /\ Forall2 (fun x v => shows (MMap (f x)) v) l vs.
Proof.
  induction l as [|x l (vs & E & H)]; [by exists []|]. destruct (parse_Marshal (f x)) as (v & Ev & Hv).
  exists (v :: vs). cbn [map]. rewrite Ev, E. split; [done|]. by constructor.
Qed.
