(* ===== verification/FileOut.v ===== *)
(** The file output: libbeat's outputs/fileout/file.go.  Events are lines of JSON in a file that
    is rotated: when it is full, its generations are renamed from <name>.n to <name>.n+1.  The
    operating system is a store of named files in which any call may fail. *)
From S2P Require Export Json Publisher Procs.
From S2P Require Unmarshal.
From stdpp Require Import list.
#[local] Open Scope Z_scope.

(** * The file system *)

(** Names are those that [filepath.Join] makes; a regular file is its inode, since it is
    renamed while the rotator holds it. *)
Inductive node := Dir | Regular (i : nat).
#[export] Instance node_eq_dec : EqDecision node.
Proof. solve_decision. Defined.

Record Disk := { nodes : gmap bytes node; contents : gmap nat bytes; calls : nat }.
#[export] Instance eta_Disk : Settable Disk := fun r =>
  {| nodes := nodes r; contents := contents r; calls := calls r |}.

(** [*os.File]; its descriptor is gone after the first [Close]. *)
Record File := { f_name : bytes; f_inode : nat; f_open : bool }.

Record FileRotator := {
  Path : bytes; Name : bytes; RotateEveryBytes : Z; KeepFiles : Z;
  current : option File; current_size : Z
}.
#[export] Instance eta_FileRotator : Settable FileRotator := fun r =>
  {| Path := Path r; Name := Name r; RotateEveryBytes := RotateEveryBytes r; KeepFiles := KeepFiles r;
     current := current r; current_size := current_size r |}.

Record FileWorld := { rotator : FileRotator; disk : Disk }.
#[export] Instance eta_FileWorld : Settable FileWorld := fun r => {| rotator := rotator r; disk := disk r |}.

(** The system's refusals: the error of the [n]-th call, which is not that a file does not
    exist, and how much a refused [Write] had written. *)
Class Faults := { fault : nat -> option bytes; cut : nat -> nat }.

(** ** Operations that can fail with an error *)

Definition io (A : Type) : Type := FileWorld -> (A + bytes) * FileWorld.
Definition io_ret {A} (a : A) : io A := fun w => (inl a, w).
Definition io_fail {A} (e : bytes) : io A := fun w => (inr e, w).
Definition io_bind {A B} (m : io A) (k : A -> io B) : io B := fun w =>
  match m w with (inl a, w) => k a w | (inr e, w) => (inr e, w) end.
Definition io_rotator : io FileRotator := fun w => (inl (rotator w), w).
Definition set_rotator (f : FileRotator -> FileRotator) : io unit := fun w => (inl tt, w <| rotator := f (rotator w) |>).

Declare Scope io_scope.
#[local] Open Scope io_scope.
Notation "'let*' x := m 'in' k" := (io_bind m (fun x => k)) (at level 200, x binder, m at level 100, k at level 200) : io_scope.
Notation "m ;;* k" := (io_bind m (fun _ => k)) (at level 100, k at level 200, right associativity) : io_scope.

Fixpoint for_each (l : list Z) (body : Z -> io unit) : io unit :=
  match l with [] => io_ret tt | x :: l => body x ;;* for_each l body end.

Section System.
Context {FL : Faults}.

(** A call that fails for no reason of its own. *)
Definition syscall {A} (what : bytes) (run : Disk -> (A + bytes) * Disk) : io A := fun w =>
  let d := disk w in
  let next := d <| calls := S (calls d) |> in
  let '(r, d) := match fault (calls d) with
                 | Some e => (inr e, next)
                 | None => run next
                 end in
  (match r with inl a => inl a | inr e => inr (what ++ bs ": " ++ e) end, w <| disk := d |>).

Inductive stat := IsDir | IsRegular | NotExist | StatError (e : bytes).

Definition os_Stat (path : bytes) : io stat := fun w =>
  let d := disk w in
  (inl match fault (calls d) with
       | Some e => StatError e
       | None => match nodes d !! path with Some Dir => IsDir | Some (Regular _) => IsRegular | None => NotExist end
       end, w <| disk := d <| calls := S (calls d) |> |>).

Definition os_MkdirAll (path : bytes) : io unit :=
  syscall (bs "mkdir " ++ path) (fun d =>
    match nodes d !! path with
    | Some (Regular _) => (inr (bs "not a directory"), d)
    | _ => (inl tt, d <| nodes := <[path := Dir]> (nodes d) |>)
    end).

(** A directory is removed when no name is below it. *)
Definition empty_dir (path : bytes) (d : Disk) : bool :=
  forallb (fun x => negb (has_prefix (path ++ bs "/") (fst x))) (map_to_list (nodes d)).
Definition os_Remove (path : bytes) : io unit :=
  syscall (bs "remove " ++ path) (fun d =>
    match nodes d !! path with
    | None => (inr (bs "no such file or directory"), d)
    | Some Dir => if empty_dir path d then (inl tt, d <| nodes := delete path (nodes d) |>)
                  else (inr (bs "directory not empty"), d)
    | Some (Regular _) => (inl tt, d <| nodes := delete path (nodes d) |>)
    end).

(** [rename(2)] replaces a file of the new name without a word. *)
Definition os_Rename (old new : bytes) : io unit :=
  syscall (bs "rename " ++ old ++ bs " " ++ new) (fun d =>
    match nodes d !! old with
    | None => (inr (bs "no such file or directory"), d)
    | Some f =>
        if decide (nodes d !! new = Some Dir) then (inr (bs "is a directory"), d)
        else (inl tt, d <| nodes := <[new := f]> (delete old (nodes d)) |>)
    end).

(** [os.Create] empties a file that exists. *)
Definition os_Create (path : bytes) : io File :=
  syscall (bs "open " ++ path) (fun d =>
    match nodes d !! path with
    | Some Dir => (inr (bs "is a directory"), d)
    | Some (Regular i) =>
        (inl {| f_name := path; f_inode := i; f_open := true |}, d <| contents := <[i := []]> (contents d) |>)
    | None =>
        let i := fresh (dom (contents d)) in
        (inl {| f_name := path; f_inode := i; f_open := true |},
         d <| nodes := <[path := Regular i]> (nodes d) |> <| contents := <[i := []]> (contents d) |>)
    end).

(** [File.Close] of the rotator's file: the descriptor is given up even if the system
    reports an error. *)
Definition current_Close (f : File) : io unit :=
  if f_open f then
    set_rotator (fun r => r <| current := Some {| f_name := f_name f; f_inode := f_inode f; f_open := false |} |>) ;;*
    syscall (bs "close " ++ f_name f) (fun d => (inl tt, d))
  else io_fail (bs "invalid argument").

Definition append_to (i : nat) (data : bytes) (d : Disk) : Disk :=
  d <| contents := <[i := default [] (contents d !! i) ++ data]> (contents d) |>.
Definition file_Write (f : File) (data : bytes) : io unit := fun w =>
  let d := disk w in
  let next := d <| calls := S (calls d) |> in
  if f_open f then
    match fault (calls d) with
    | Some e => (inr (bs "write " ++ f_name f ++ bs ": " ++ e), w <| disk := append_to (f_inode f) (take (cut (calls d)) data) next |>)
    | None => (inl tt, w <| disk := append_to (f_inode f) data next |>)
    end
  else (inr (bs "write " ++ f_name f ++ bs ": bad file descriptor"), w).
End System.

(** * The rotator *)

Definition RotatorMaxFiles : Z := 1000.

(** The part of [MothershipConfig] that this output reads. *)
Record FileConfig := { cfg_Path : bytes; cfg_Filename : bytes; cfg_Rotate_every_kb : Z; cfg_Number_of_files : Z }.

Section Rotator.
Context {FL : Faults}.

Definition CreateDirectory : io unit :=
  let* rot := io_rotator in
  let* st := os_Stat (Path rot) in
  match st with
  | IsRegular => io_fail (Path rot ++ bs " exists but it's not a directory")
  | NotExist => os_MkdirAll (Path rot)
  | IsDir | StatError _ => io_ret tt
  end.

Definition CheckIfConfigSane : io unit :=
  let* rot := io_rotator in
  if decide (KeepFiles rot < 2 \/ KeepFiles rot >= RotatorMaxFiles) then
    io_fail (bs "The number of files to keep should be between 2 and " ++ Itoa (RotatorMaxFiles - 1))
  else io_ret tt.

Definition configured (c : FileConfig) (rot : FileRotator) : FileRotator :=
  let rot := rot <| Path := cfg_Path c |> <| Name := cfg_Filename c |> in
  let rot := if decide (Name rot = []) then rot <| Name := bs "packetbeat" |> else rot in
  let rot := rot <| RotateEveryBytes := uint64_of (uint64_of (cfg_Rotate_every_kb c) * 1024) |> in
  let rot := if decide (RotateEveryBytes rot = 0) then rot <| RotateEveryBytes := 10 * 1024 * 1024 |> else rot in
  let rot := rot <| KeepFiles := cfg_Number_of_files c |> in
  if decide (KeepFiles rot = 0) then rot <| KeepFiles := 7 |> else rot.

Definition Init (c : FileConfig) : io unit :=
  set_rotator (configured c) ;;* CreateDirectory ;;* CheckIfConfigSane.

Definition shouldRotate (rot : FileRotator) : bool :=
  match current rot with
  | None => true
  | Some _ => bool_decide (current_size rot >= RotateEveryBytes rot)
  end.

Definition FilePath (rot : FileRotator) (file_no : Z) : bytes :=
  if decide (file_no = 0) then path_Join [Path rot; Name rot]
  else path_Join [Path rot; GoStd.Join [Name rot; Itoa file_no] (bs ".")].

Definition FileExists (rot : FileRotator) (file_no : Z) : io bool :=
  let* st := os_Stat (FilePath rot file_no) in
  io_ret match st with NotExist => false | _ => true end.

(** The turns of the two loops of [Rotate]. *)
Definition delete_extra (rot : FileRotator) (file_no : Z) : io unit :=
  let* exists_ := FileExists rot file_no in
  if exists_ : bool then os_Remove (FilePath rot file_no) else io_ret tt.
Definition shift_file (rot : FileRotator) (file_no : Z) : io unit :=
  let* exists_ := FileExists rot file_no in
  if negb exists_ then io_ret tt
  else
    let* next := FileExists rot (file_no + 1) in
    if next : bool then
      io_fail (bs "File " ++ FilePath rot (file_no + 1) ++ bs " exists, when rotating would overwrite it")
    else os_Rename (FilePath rot file_no) (FilePath rot (file_no + 1)).

(** [for n := lo; n < hi; n++] and [for n := hi - 1; n >= lo; n--]. *)
Definition upwards (lo hi : Z) : list Z := map (fun i => lo + Z.of_nat i) (seq 0 (Z.to_nat (hi - lo))).
Definition downwards (hi lo : Z) : list Z := rev (upwards lo hi).

(** Extra files are deleted, normally there are none, and all others get the next number,
    from the last to the first. *)
Definition move_aside (rot : FileRotator) : io unit :=
  for_each (upwards (KeepFiles rot) RotatorMaxFiles) (delete_extra rot) ;;*
  for_each (downwards (KeepFiles rot) 0) (shift_file rot).

Definition close_current (rot : FileRotator) : io unit :=
  match current rot with Some f => current_Close f | None => io_ret tt end.

(** The error of the last [Remove] is ignored. *)
Definition new_file (rot : FileRotator) : io unit :=
  let* file := os_Create (FilePath rot 0) in
  set_rotator (fun r => r <| current := Some file |> <| current_size := 0 |>) ;;*
  (fun w => (inl tt, snd (os_Remove (FilePath rot (KeepFiles rot)) w))).

Definition Rotate : io unit :=
  let* rot := io_rotator in
  close_current rot ;;*
  move_aside rot ;;*
  new_file rot.

(** [Write] is only reached with a file. *)
Definition write_current (data : bytes) : io unit :=
  let* rot := io_rotator in
  match current rot with
  | Some f => file_Write f data
  | None => io_fail (bs "invalid argument")
  end.

Definition put_line (line : bytes) : io unit :=
  write_current line ;;*
  write_current [x0a] ;;*
  set_rotator (fun r => r <| current_size := uint64_of (current_size r + uint64_of (len line + 1)) |>).

Definition WriteLine (line : bytes) : io unit :=
  let* rot := io_rotator in
  (if shouldRotate rot then Rotate else io_ret tt) ;;*
  put_line line.

(** ** The output *)

Definition PublishEvent (ts : Z) (event : MapStr) : io unit := WriteLine (Marshal event).

Definition error_of {A} (r : (A + bytes) * FileWorld) : option bytes * FileWorld :=
  (match fst r with inl _ => None | inr e => Some e end, snd r).
Definition file_output (c : FileConfig) : OutputInterface FileWorld := {|
  out_Init := fun _ _ w => error_of (Init c w);
  PublishIPs := fun _ _ w => (None, w);
  GetNameByIP := fun _ _ => [];
  Publisher.PublishEvent := fun ts event w => error_of (PublishEvent ts event w)
|}.
End Rotator.

(** ** A start for examples: files of one kilobyte, of which two are kept *)

Definition calm : Faults := {| fault := fun _ => None; cut := fun _ => O |}.
Definition demo_world : FileWorld :=
  {| rotator := {| Path := []; Name := []; RotateEveryBytes := 0; KeepFiles := 0; current := None; current_size := 0 |};
     disk := {| nodes := ∅; contents := ∅; calls := 0 |} |}.
Definition demo_config : FileConfig :=
  {| cfg_Path := bs "/var/log"; cfg_Filename := bs "pb"; cfg_Rotate_every_kb := 1; cfg_Number_of_files := 2 |}.

Definition file_at (d : Disk) (path : bytes) : option bytes :=
  match nodes d !! path with Some (Regular i) => contents d !! i | _ => None end.

(** * The names of the generations *)

Definition simple_name (n : bytes) : Prop :=
  n <> [] /\ n <> bs "." /\ n <> bs ".." /\ Forall (fun b => b <> "/"%byte) n.

Lemma slash_ne b : b <> "/"%byte -> Byte.eqb b "/"%byte = false.
Proof. intros H. destruct (Byte.eqb b _) eqn:E; [|done]. by apply beqb_eq in E. Qed.

Lemma Split_noslash n : Forall (fun b => b <> "/"%byte) n -> Split n "/"%byte = [n].
Proof. induction 1 as [|b n Hb _ IH]; [done|]. cbn [Split]. by rewrite slash_ne, IH. Qed.

Lemma Split_nonempty p : Split p "/"%byte <> [].
Proof. destruct p as [|b p]; [done|]. cbn [Split]. destruct (Byte.eqb b _); [done|]. by destruct (Split p _). Qed.

Lemma Split_slash p n : Forall (fun b => b <> "/"%byte) n -> Split (p ++ "/"%byte :: n) "/"%byte = Split p "/"%byte ++ [n].
Proof.
  intros Hn. induction p as [|b p IH]; [by cbn; rewrite Split_noslash|]. cbn [app Split]. rewrite IH.
  destruct (Byte.eqb b _); [done|]. pose proof (Split_nonempty p). by destruct (Split p _).
Qed.

Lemma clean_elems_last rooted l n st :
  simple_name n -> clean_elems rooted (l ++ [n]) st = clean_elems rooted l st ++ [n].
Proof.
  intros (H0 & H1 & H2 & _). revert st. induction l as [|e l IH]; intros st; cbn [app clean_elems].
  - by rewrite !decide_False by tauto.
  - repeat case_match; apply IH.
Qed.

Definition joined (l : list bytes) (n : bytes) : bytes :=
  match l with [] => n | _ => GoStd.Join l (bs "/") ++ bs "/" ++ n end.
Lemma Join_last l n : GoStd.Join (l ++ [n]) (bs "/") = joined l n.
Proof.
  induction l as [|x l IH]; [done|]. destruct l as [|y l]; [done|].
  change (GoStd.Join ((x :: y :: l) ++ [n]) (bs "/")) with (x ++ bs "/" ++ GoStd.Join ((y :: l) ++ [n]) (bs "/")).
  rewrite IH. cbn [joined]. change (GoStd.Join (x :: y :: l) (bs "/")) with (x ++ bs "/" ++ GoStd.Join (y :: l) (bs "/")).
  by rewrite <- !app_assoc.
Qed.

(** All the files of a directory have its name before their own. *)
Lemma path_Join_simple p : exists pre, forall n, simple_name n -> path_Join [p; n] = pre ++ n.
Proof.
  destruct p as [|b p].
  - exists []. intros n Hn. pose proof Hn as (H0 & H1 & H2 & Hs). cbn [path_Join]. destruct n as [|c n]; [done|].
    unfold Clean. cbn [GoStd.Join]. rewrite Split_noslash by done. cbn [clean_elems].
    rewrite !decide_False by tauto. cbn [rev app GoStd.Join].
    assert (has_prefix (bs "/") (c :: n) = false) as ->; [|done].
    apply Forall_cons in Hs as [Hc _]. change (bs "/") with ["/"%byte]. cbn [has_prefix].
    destruct (Byte.eqb _ c) eqn:E; [|done]. by apply beqb_eq in E as <-.
  - set (root := if has_prefix (bs "/") (b :: p) then bs "/" else []).
    set (l := clean_elems (has_prefix (bs "/") (b :: p)) (Split (b :: p) "/"%byte) []).
    exists (root ++ joined l []). intros n Hn.
    change (path_Join [b :: p; n]) with (Clean ((b :: p) ++ "/"%byte :: n)). unfold Clean.
    rewrite Split_slash by (by destruct Hn as (_ & _ & _ & ?)).
    assert (has_prefix (bs "/") ((b :: p) ++ "/"%byte :: n) = has_prefix (bs "/") (b :: p)) as ->
      by (change (bs "/") with ["/"%byte]; cbn; by destruct (Byte.eqb "/"%byte b)).
    rewrite clean_elems_last by done. fold l. fold root. rewrite Join_last.
    assert (root ++ joined l n = (root ++ joined l []) ++ n) as ->.
    { rewrite <- app_assoc. f_equal. destruct l; cbn [joined]; [done|]. by rewrite <- !app_assoc. }
    destruct ((root ++ joined l []) ++ n) eqn:E; [|done]. apply app_eq_nil in E as [_ ->]. by destruct Hn.
Qed.

Definition gen_name (rot : FileRotator) (file_no : Z) : bytes :=
  if decide (file_no = 0) then Name rot else Name rot ++ bs "." ++ Itoa file_no.

Lemma Itoa_digits_only n : 0 <= n -> exists c t, Itoa n = c :: t /\ Forall (fun b => 48 <= u8 b <= 57) (Itoa n).
Proof.
  intros Hn. unfold Itoa. rewrite decide_False by lia. destruct (utoa_cons n) as (c & t & E & _). exists c, t.
  split; [done|]. apply utoa_go_digits, Forall_nil_2.
Qed.

Lemma gen_name_simple rot n : simple_name (Name rot) -> 0 <= n -> simple_name (gen_name rot n).
Proof.
  intros Hs Hn. unfold gen_name. case_decide; [done|]. destruct Hs as (H0 & _ & _ & Hs).
  destruct (Itoa_digits_only n Hn) as (c & t & E & Hd). destruct (Name rot) as [|b m]; [done|].
  split; [done|]. split; [destruct m; cbn; rewrite E; done|]. split; [destruct m as [|? [|]]; cbn; rewrite E; done|].
  apply Forall_app_2; [done|]. apply Forall_cons. split; [done|]. eapply Forall_impl; [exact Hd|].
  cbn. intros x Hx ->. revert Hx. vm_compute. intuition congruence.
Qed.

Lemma gen_name_inj rot m n : 0 <= m -> 0 <= n -> gen_name rot m = gen_name rot n -> m = n.
Proof.
  intros Hm Hn. unfold gen_name. repeat case_decide; try congruence.
  - intros E%(f_equal length). rewrite !length_app in E. cbn in E. lia.
  - intros E%(f_equal length). rewrite !length_app in E. cbn in E. lia.
  - intros E. apply app_inv_head in E. apply app_inv_head in E. unfold Itoa in E. rewrite !decide_False in E by lia.
    pose proof (utoa_num m Hm) as Em. rewrite E, utoa_num in Em by done. congruence.
Qed.

Lemma FilePath_inj rot m n :
  simple_name (Name rot) -> 0 <= m -> 0 <= n -> FilePath rot m = FilePath rot n -> m = n.
Proof.
  intros Hs Hm Hn. destruct (path_Join_simple (Path rot)) as [pre Hp].
  assert (forall k, 0 <= k -> FilePath rot k = pre ++ gen_name rot k) as Hk.
  { intros k Hk. rewrite <- Hp by (by apply gen_name_simple). unfold FilePath, gen_name. by case_decide. }
  rewrite !Hk by done. intros E%app_inv_head. by apply gen_name_inj in E.
Qed.

(** * What the calls do *)

Section Calls.
Context {FL : Faults}.
Implicit Types (w : FileWorld) (rot : FileRotator).

(** The world after a call that changes no file. *)
Definition called w : FileWorld := w <| disk := disk w <| calls := S (calls (disk w)) |> |>.
Definition with_nodes (f : gmap bytes node -> gmap bytes node) w : FileWorld :=
  called w <| disk := disk (called w) <| nodes := f (nodes (disk w)) |> |>.

Definition is_ok {A} (r : A + bytes) : bool := match r with inl _ => true | inr _ => false end.

(** No call fails for a reason of the system. *)
Definition no_faults : Prop := forall n, fault n = None.

Lemma FileExists_spec rot n w : exists b, FileExists rot n w = (inl b, called w) /\
  (b = false -> nodes (disk w) !! FilePath rot n = None) /\
  (no_faults -> b = true -> is_Some (nodes (disk w) !! FilePath rot n)).
Proof.
  unfold FileExists, io_bind, os_Stat, io_ret. destruct (fault (calls (disk w))) eqn:E.
  - exists true. split; [done|]. split; [done|]. intros H. by rewrite H in E.
  - destruct (nodes (disk w) !! FilePath rot n) as [[]|]; eexists; (split; [done|]); naive_solver.
Qed.

Lemma os_Remove_spec path w : exists r, os_Remove path w = (r, if is_ok r then with_nodes (delete path) w else called w) /\
  (no_faults -> forall i, nodes (disk w) !! path = Some (Regular i) -> r = inl tt).
Proof.
  unfold os_Remove, syscall. destruct (fault (calls (disk w))) eqn:E.
  - refine (ex_intro _ (inr _) (conj eq_refl _)). intros H. by rewrite H in E.
  - change (nodes (disk w <| calls := _ |>)) with (nodes (disk w)).
    destruct (nodes (disk w) !! path) as [[|i]|]; [|by exists (inl tt)|by refine (ex_intro _ (inr _) (conj eq_refl _))].
    destruct (empty_dir _ _); [by exists (inl tt)|]. by refine (ex_intro _ (inr _) (conj eq_refl _)).
Qed.

Lemma os_Rename_spec old new w : exists r,
  os_Rename old new w = (r, match nodes (disk w) !! old with
                            | Some f => if is_ok r then with_nodes (fun m => <[new := f]> (delete old m)) w else called w
                            | None => called w
                            end) /\
  (r = inl tt -> is_Some (nodes (disk w) !! old)) /\
  (no_faults -> is_Some (nodes (disk w) !! old) -> nodes (disk w) !! new = None -> r = inl tt).
Proof.
  unfold os_Rename, syscall. destruct (fault (calls (disk w))) eqn:E.
  - eexists (inr _). split; [by destruct (nodes (disk w) !! old)|]. split; [done|]. intros H. by rewrite H in E.
  - change (nodes (disk w <| calls := _ |>)) with (nodes (disk w)).
    destruct (nodes (disk w) !! old) as [f|]; [|eexists (inr _); split; [reflexivity|split; [done|by intros _ [? ?]]]].
    case_decide as Hd; [eexists (inr _); split; [reflexivity|split; [done|by rewrite Hd]]|]. exists (inl tt). eauto.
Qed.

(** The nodes of the generations. *)
Definition gen rot w (n : Z) : option node := nodes (disk w) !! FilePath rot n.

(** Two worlds that differ in the nodes only. *)
Definition same_files w w' : Prop := rotator w' = rotator w /\ contents (disk w') = contents (disk w).

Lemma same_files_refl w : same_files w w.
Proof. done. Qed.
Lemma same_files_trans w1 w2 w3 : same_files w1 w2 -> same_files w2 w3 -> same_files w1 w3.
Proof. intros [? ?] [? ?]. split; congruence. Qed.

Lemma io_bind_cases {A B} (m : io A) (k : A -> io B) w r w' :
  io_bind m k w = (r, w') ->
  (exists a w1, m w = (inl a, w1) /\ k a w1 = (r, w')) \/ (exists e, m w = (inr e, w') /\ r = inr e).
Proof. unfold io_bind. destruct (m w) as [[a|e] w1]; [|intros [= <- <-]]; eauto. Qed.

(** ** The loops *)

Lemma delete_extra_spec rot n w r w' :
  delete_extra rot n w = (r, w') ->
  same_files w w' /\ (forall p, p <> FilePath rot n -> nodes (disk w') !! p = nodes (disk w) !! p) /\
  (r = inl tt -> gen rot w' n = None) /\
  (no_faults -> gen rot w n <> Some Dir -> r = inl tt).
Proof.
  unfold delete_extra, io_bind. destruct (FileExists_spec rot n w) as (b & -> & Hb & Hc). destruct b.
  - destruct (os_Remove_spec (FilePath rot n) (called w)) as (r1 & -> & Hr). intros [= <- <-]. destruct r1 as [[]|e]; cbn [is_ok].
    + split; [done|]. split; [intros p Hp; cbn; by rewrite lookup_delete_ne|]. split; [|done]. intros _. cbn. apply lookup_delete_eq.
    + split; [done|]. split; [done|]. split; [done|]. intros Hn Hg. destruct (Hc Hn eq_refl) as [[|i] E]; [by unfold gen in Hg|].
      by apply (Hr Hn i).
  - intros [= <- <-]. split; [done|]. split; [done|]. split; [|done]. intros _. by apply Hb.
Qed.

Lemma for_each_cons x l body w : for_each (x :: l) body w = (body x ;;* for_each l body) w.
Proof. done. Qed.

Lemma delete_loop rot l w r w' :
  simple_name (Name rot) -> Forall (fun n => 0 <= n) l -> for_each l (delete_extra rot) w = (r, w') ->
  same_files w w' /\ (forall p, (forall n, n ∈ l -> p <> FilePath rot n) -> nodes (disk w') !! p = nodes (disk w) !! p) /\
  (r = inl tt -> forall n, n ∈ l -> gen rot w' n = None) /\
  (no_faults -> NoDup l -> (forall n, n ∈ l -> gen rot w n <> Some Dir) -> r = inl tt).
Proof.
  intros Hs Hl. revert w. induction Hl as [|x l Hx Hl IH]; intros w.
  - intros [= <- <-]. split; [done|]. split; [done|]. split; [by intros _ n ?%elem_of_nil|done].
  - rewrite for_each_cons. intros [([] & w1 & E1 & E2)|(e & E1 & ->)]%io_bind_cases; apply delete_extra_spec in E1 as (H1 & H2 & H3 & H4).
    + destruct (IH _ E2) as (G1 & G2 & G3 & G4). split; [by eapply same_files_trans|]. split; [|split].
      * intros p Hp. rewrite G2, H2; [done|by apply Hp; left|]. intros n Hn. apply Hp. by right.
      * intros Hr n [->|Hn]%elem_of_cons; [|by apply G3]. destruct (decide (x ∈ l)) as [|Hxl]; [by apply G3|].
        unfold gen. rewrite G2; [by apply H3|]. intros m Hm E. apply FilePath_inj in E; [by subst|done|done|].
        by eapply Forall_forall in Hl; [|exact Hm].
      * intros Hn [Hxl Hnd]%NoDup_cons Hd. apply G4; [done|done|]. intros n Hnl. unfold gen. rewrite H2; [apply Hd; by right|].
        intros E. apply FilePath_inj in E; [by subst|done| |done]. by eapply Forall_forall in Hl; [|exact Hnl].
    + split; [done|]. split; [|split; [done|]].
      * intros p Hp. apply H2, Hp. by left.
      * intros Hn _ Hd. apply H4; [done|]. apply Hd. by left.
Qed.

Lemma shift_file_spec rot k w r w' :
  shift_file rot k w = (r, w') ->
  same_files w w' /\
  (nodes (disk w') = nodes (disk w) /\ (r = inl tt -> gen rot w k = None) \/
   exists f, r = inl tt /\ gen rot w k = Some f /\ gen rot w (k + 1) = None /\
     nodes (disk w') = <[FilePath rot (k + 1) := f]> (delete (FilePath rot k) (nodes (disk w)))) /\
  (no_faults -> gen rot w (k + 1) = None -> r = inl tt).
Proof.
  unfold shift_file, io_bind. destruct (FileExists_spec rot k w) as (b & -> & Hb & Hc). destruct b; cbn [negb].
  - destruct (FileExists_spec rot (k + 1) (called w)) as (b2 & -> & Hb2 & Hc2). destruct b2.
    + intros [= <- <-]. split; [done|]. split; [by left|]. intros Hn Hg. destruct (Hc2 Hn eq_refl) as [f Hf].
      unfold gen in Hg. cbn in Hf. congruence.
    + specialize (Hb2 eq_refl). cbn in Hb2. destruct (os_Rename_spec (FilePath rot k) (FilePath rot (k + 1)) (called (called w))) as (r1 & E & H1 & H2).
      rewrite E. clear E. intros [= <- <-]. cbn in H1, H2 |- *. unfold gen. destruct (nodes (disk w) !! FilePath rot k) as [f|] eqn:Ef; cycle 1.
      { split; [done|]. split; [by left|]. intros Hn. by destruct (Hc Hn eq_refl). }
      split; [by destruct r1|]. split; [|intros Hn _; by apply H2].
      destruct r1 as [[]|e]; cbn [is_ok]; [right; exists f; by repeat split|by left].
  - intros [= <- <-]. split; [done|]. split; [|done]. left. split; [done|]. intros _. by apply Hb.
Qed.

Lemma downwards_succ k : 0 <= k -> downwards (k + 1) 0 = k :: downwards k 0.
Proof.
  intros Hk. unfold downwards, upwards. rewrite !Z.sub_0_r. replace (Z.to_nat (k + 1)) with (S (Z.to_nat k)) by lia.
  rewrite seq_S, map_app, rev_app_distr. cbn. f_equal. lia.
Qed.

(** The generations of [g] after those from [j] on to below [k] have been renamed. *)
Definition shifted (j k : Z) (g : Z -> option node) (n : Z) : option node :=
  if decide (n < j \/ j = k \/ k < n) then g n
  else if decide (n = j) then None
  else match g (n - 1) with
       | Some f => Some f
       | None => if decide (n = k) then g k else None
       end.

Lemma shift_loop rot : simple_name (Name rot) -> forall k w r w', 0 <= k ->
  for_each (downwards k 0) (shift_file rot) w = (r, w') ->
  same_files w w' /\ (forall p, (forall n, 0 <= n <= k -> p <> FilePath rot n) -> nodes (disk w') !! p = nodes (disk w) !! p) /\
  (exists j, 0 <= j <= k /\ (r = inl tt -> j = 0) /\ forall n, 0 <= n -> gen rot w' n = shifted j k (gen rot w) n) /\
  (no_faults -> gen rot w k = None -> r = inl tt).
Proof.
  intros Hs k w r w' Hk. revert k Hk w. refine (natlike_ind _ _ _).
  - intros w [= <- <-]. split; [done|]. split; [done|]. split; [|done]. exists 0. split; [lia|]. split; [done|].
    intros n Hn. unfold shifted. by rewrite decide_True by auto.
  - intros k Hk IH w. rewrite <- Z.add_1_r, downwards_succ, for_each_cons by done.
    assert (forall n, 0 <= n -> n <> k -> FilePath rot n <> FilePath rot k) as Hne1 by (intros n ? ? E; by apply FilePath_inj in E).
    assert (forall n, 0 <= n -> n <> k + 1 -> FilePath rot n <> FilePath rot (k + 1)) as Hne2 by (intros n ? ? E; apply FilePath_inj in E; [done..|lia]).
    intros [([] & w1 & E1 & E2)|(e & E1 & ->)]%io_bind_cases; apply shift_file_spec in E1 as (H1 & H2 & H3).
    + assert (gen rot w1 k = None /\ gen rot w1 (k + 1) = match gen rot w k with Some f => Some f | None => gen rot w (k + 1) end /\
        (forall n, 0 <= n -> n <> k -> n <> k + 1 -> gen rot w1 n = gen rot w n) /\
        (forall p, (forall n, 0 <= n <= k + 1 -> p <> FilePath rot n) -> nodes (disk w1) !! p = nodes (disk w) !! p)) as (G1 & G2 & G3 & G4).
      { unfold gen in *. destruct H2 as [[E H2]|(f & _ & Hf & Hn & ->)].
        - rewrite E, (H2 eq_refl). done.
        - rewrite Hf. split; [|split; [|split]].
          + rewrite lookup_insert_ne by (apply not_eq_sym, Hne2; lia). apply lookup_delete_eq.
          + apply lookup_insert_eq.
          + intros n Hn1 Hn2 Hn3. rewrite lookup_insert_ne by (apply not_eq_sym, Hne2; lia). apply lookup_delete_ne, not_eq_sym, Hne1; lia.
          + intros p Hp. rewrite lookup_insert_ne by (apply not_eq_sym, Hp; lia). apply lookup_delete_ne, not_eq_sym, Hp. lia. }
      destruct (IH _ E2) as (I1 & I2 & (j & Hj & Hr & I3) & I4).
      split; [by eapply same_files_trans|]. split; [|split].
      * intros p Hp. rewrite I2, G4; [done|done|]. intros n Hn. apply Hp. lia.
      * exists j. split; [lia|]. split; [done|]. intros n Hn. rewrite I3 by done. unfold shifted.
        destruct (decide (n = k + 1)) as [->|Hn1].
        { rewrite decide_True, decide_False, decide_False by lia. rewrite G2. replace (k + 1 - 1) with k by lia.
          destruct (gen rot w k); [done|]. by destruct (decide (k + 1 = k + 1)). }
        destruct (decide (n = k)) as [->|Hn2].
        { rewrite (decide_False (P := _ < j \/ j = k + 1 \/ _)) by lia. destruct (decide (k = j)) as [->|Hkj].
          - by rewrite decide_True by auto.
          - rewrite decide_False by lia. rewrite G3 by lia. destruct (gen rot w (k - 1)); [done|].
            destruct (decide (k = k + 1)); [lia|]. by destruct (decide (k = k)). }
        destruct (decide (n < j \/ j = k \/ k < n)).
        { rewrite G3 by lia. destruct (decide (n < j \/ j = k + 1 \/ k + 1 < n)); [done|lia]. }
        rewrite (decide_False (P := n < j \/ j = k + 1 \/ _)) by lia. case_decide; [done|]. rewrite G3 by lia.
        destruct (gen rot w (n - 1)); [done|]. by destruct (decide (n = k)), (decide (n = k + 1)).
      * intros Hn Hg. by apply I4.
    + assert (nodes (disk w') = nodes (disk w)) as E by (destruct H2 as [[E _]|(f & ? & _)]; done).
      split; [done|]. split; [by rewrite E|]. split; [|intros Hn Hg; by apply H3].
      exists (k + 1). split; [lia|]. split; [done|]. intros n Hn. unfold shifted, gen. rewrite decide_True by auto. by rewrite E.
Qed.

(** ** A rotation *)

Definition sane rot : Prop := simple_name (Name rot) /\ 2 <= KeepFiles rot < RotatorMaxFiles.

Lemma elem_of_upwards n lo hi : n ∈ upwards lo hi <-> lo <= n < hi.
Proof.
  unfold upwards. rewrite list_elem_of_fmap. setoid_rewrite elem_of_seq. split.
  - intros (i & -> & Hi). lia.
  - intros Hn. exists (Z.to_nat (n - lo)). lia.
Qed.

Lemma NoDup_upwards lo hi : NoDup (upwards lo hi).
Proof. apply NoDup_fmap; [intros i j; lia|apply NoDup_seq]. Qed.

(** What the two loops leave, whether they were stopped by an error or not. *)
Lemma move_aside_spec rot w r w' :
  sane rot -> move_aside rot w = (r, w') ->
  same_files w w' /\
  (forall p, (forall n, 0 <= n < RotatorMaxFiles -> p <> FilePath rot n) -> nodes (disk w') !! p = nodes (disk w) !! p) /\
  (exists j, 0 <= j <= KeepFiles rot /\ (r = inl tt -> j = 0) /\
     forall n, 0 <= n < KeepFiles rot -> gen rot w' n = shifted j (KeepFiles rot) (gen rot w) n) /\
  (r = inl tt -> gen rot w' (KeepFiles rot) = gen rot w (KeepFiles rot - 1) /\
     forall n, KeepFiles rot < n < RotatorMaxFiles -> gen rot w' n = None) /\
  (no_faults -> (forall n, 0 <= n < RotatorMaxFiles -> gen rot w n <> Some Dir) -> r = inl tt).
Proof.
  intros [Hs Hk] E. assert (RotatorMaxFiles = 1000) as Hmax by done. set (k := KeepFiles rot) in *.
  assert (Forall (fun n => 0 <= n) (upwards k RotatorMaxFiles)) as Hl by (apply Forall_forall; intros n ?%elem_of_upwards; lia).
  assert (forall m n, 0 <= m -> 0 <= n -> m <> n -> FilePath rot m <> FilePath rot n) as Hne by (intros m n ? ? Hmn E'; apply Hmn; by apply (FilePath_inj rot)).
  assert (forall w1, (forall p, (forall n, n ∈ upwards k RotatorMaxFiles -> p <> FilePath rot n) -> nodes (disk w1) !! p = nodes (disk w) !! p) ->
    (forall n, 0 <= n < k -> gen rot w1 n = gen rot w n) /\
    (forall p, (forall n, 0 <= n < RotatorMaxFiles -> p <> FilePath rot n) -> nodes (disk w1) !! p = nodes (disk w) !! p)) as Hdel.
  { intros w1 H. split.
    - intros n Hn. apply H. intros m ?%elem_of_upwards. apply Hne; lia.
    - intros p Hp. apply H. intros m ?%elem_of_upwards. apply Hp. lia. }
  apply io_bind_cases in E as [([] & w1 & E1 & E2)|(e & E1 & ->)]; fold k in E1; (apply delete_loop in E1 as (H1 & H2 & H3 & H4); [|exact Hs|exact Hl]).
  - specialize (H3 eq_refl). fold k in E2. destruct (shift_loop rot Hs k w1 r w' ltac:(lia) E2) as (G1 & G2 & (j & Hj & Hr & G3) & G4).
    destruct (Hdel w1 H2) as [D1 D2]. assert (gen rot w1 k = None) as Hk0 by (apply H3, elem_of_upwards; lia).
    split; [by eapply same_files_trans|]. split; [|split; [|split]].
    + intros p Hp. rewrite G2, D2; [done|done|]. intros n Hn. apply Hp. lia.
    + exists j. split; [done|]. split; [done|]. intros n Hn. rewrite G3 by lia. unfold shifted. rewrite D1 by done.
      destruct (decide (_ \/ _)); [done|]. destruct (decide (n = j)); [done|]. rewrite D1 by lia.
      destruct (gen rot w (n - 1)); [done|]. destruct (decide (n = k)); [lia|done].
    + intros Hok. rewrite (Hr Hok) in G3. split.
      * rewrite G3 by lia. unfold shifted. rewrite !decide_False by lia. rewrite D1 by lia.
        destruct (gen rot w (k - 1)); [done|]. by destruct (decide (k = k)).
      * intros n Hn. rewrite G3 by lia. unfold shifted. rewrite decide_True by lia. apply H3, elem_of_upwards. lia.
    + intros Hn _. by apply G4.
  - destruct (Hdel w' H2) as [D1 D2]. split; [done|]. split; [done|]. split; [|split; [done|]].
    + exists k. split; [lia|]. split; [done|]. intros n Hn. unfold shifted. rewrite decide_True by auto. by apply D1.
    + intros Hn Hd. apply H4; [done|apply NoDup_upwards|]. intros n ?%elem_of_upwards. apply Hd. lia.
Qed.

Definition closed (f : File) : File := {| f_name := f_name f; f_inode := f_inode f; f_open := false |}.
Definition closing rot : FileRotator := rot <| current := closed <$> current rot |>.

Lemma close_current_spec w r w1 :
  close_current (rotator w) w = (r, w1) ->
  nodes (disk w1) = nodes (disk w) /\ contents (disk w1) = contents (disk w) /\ rotator w1 = closing (rotator w) /\
  (no_faults -> (forall f, current (rotator w) = Some f -> f_open f = true) -> r = inl tt).
Proof.
  unfold close_current, closing. destruct w as [rot d]. cbn [rotator disk]. destruct (current rot) as [f|] eqn:Ef.
  - unfold current_Close. destruct (f_open f) eqn:Eo.
    + unfold io_bind, set_rotator, syscall. cbn. destruct (fault (calls d)) eqn:E; intros [= <- <-]; (split; [done|]; split; [done|]; split; [done|]);
        intros H; [by rewrite H in E|done].
    + intros [= <- <-]. split; [done|]. split; [done|]. split.
      * cbn. destruct f as [? ? []], rot; cbn in *; subst; done.
      * intros _ H. specialize (H f eq_refl). congruence.
  - intros [= <- <-]. split; [done|]. split; [done|]. split; [|done]. destruct rot; cbn in *; subst; done.
Qed.

(** The new file, once no file has the name of generation 0. *)
Lemma os_Create_spec path w r w' :
  nodes (disk w) !! path = None -> os_Create path w = (r, w') ->
  rotator w' = rotator w /\
  (forall i c, contents (disk w) !! i = Some c -> contents (disk w') !! i = Some c) /\
  (forall p, p <> path -> nodes (disk w') !! p = nodes (disk w) !! p) /\
  (forall f, r = inl f -> f = {| f_name := path; f_inode := f_inode f; f_open := true |} /\
     nodes (disk w') !! path = Some (Regular (f_inode f)) /\ contents (disk w') !! f_inode f = Some [] /\
     contents (disk w) !! f_inode f = None) /\
  (no_faults -> is_ok r = true).
Proof.
  intros Hp. unfold os_Create, syscall. destruct (fault (calls (disk w))) eqn:E.
  - intros [= <- <-]. split; [done|]. split; [done|]. split; [done|]. split; [done|]. intros H. by rewrite H in E.
  - change (nodes (disk w <| calls := _ |>)) with (nodes (disk w)). rewrite Hp.
    change (contents (disk w <| calls := _ |>)) with (contents (disk w)). cbn zeta. set (i := fresh (dom (contents (disk w)))).
    assert (contents (disk w) !! i = None) as Hi by apply not_elem_of_dom, is_fresh.
    intros [= <- <-]. split; [done|]. split; [|split; [|split; [|done]]].
    + intros j c Hj. cbn. rewrite lookup_insert_ne; [done|]. intros <-. congruence.
    + intros p Hne. cbn. by apply lookup_insert_ne.
    + intros f [= <-]. cbn. split; [done|]. split; [apply lookup_insert_eq|]. split; [apply lookup_insert_eq|exact Hi].
Qed.

Lemma shifted_kept j k g n x :
  0 <= n < k - 1 -> g n = Some x -> shifted j k g n = Some x \/ shifted j k g (n + 1) = Some x.
Proof.
  intros Hn Hg. unfold shifted. destruct (decide (n < j \/ j = k \/ k < n)) as [|Hj]; [by left|right].
  rewrite !decide_False by lia. replace (n + 1 - 1) with n by lia. by rewrite Hg.
Qed.

(** The file of a rotator that has just been rotated. *)
Definition started rot (i : nat) : FileRotator :=
  rot <| current := Some {| f_name := FilePath rot 0; f_inode := i; f_open := true |} |> <| current_size := 0 |>.

Lemma new_file_spec rot w r w' :
  sane rot -> gen rot w 0 = None -> new_file rot w = (r, w') ->
  (forall i c, contents (disk w) !! i = Some c -> contents (disk w') !! i = Some c) /\
  (forall n, 0 < n -> n <> KeepFiles rot -> gen rot w' n = gen rot w n) /\
  match r with
  | inr _ => rotator w' = rotator w /\ gen rot w' (KeepFiles rot) = gen rot w (KeepFiles rot)
  | inl _ => exists i, rotator w' = rotator w <| current := current (started rot i) |> <| current_size := 0 |> /\
      gen rot w' 0 = Some (Regular i) /\ contents (disk w') !! i = Some [] /\ contents (disk w) !! i = None
  end /\
  (no_faults -> r = inl tt /\ (gen rot w (KeepFiles rot) <> Some Dir -> gen rot w' (KeepFiles rot) = None)).
Proof.
  intros [Hs Hk] H0 E.
  assert (forall m n, 0 <= m -> 0 <= n -> m <> n -> FilePath rot m <> FilePath rot n) as Hne
    by (intros m n ? ? Hmn E'; apply Hmn; by apply (FilePath_inj rot)).
  apply io_bind_cases in E as [(f & w3 & E3 & E)|(e & E3 & ->)];
    (apply os_Create_spec in E3 as (R3 & C3 & N3 & I3 & F3); [|exact H0]); cycle 1.
  { split; [done|]. split; [intros n ? ?; apply N3, Hne; lia|]. split; [split; [done|apply N3, Hne; lia]|]. intros Hn. by specialize (F3 Hn). }
  destruct (I3 f eq_refl) as (Ef & If & Cf & Cw). clear I3 F3. unfold set_rotator, io_bind in E. cbn in E.
  destruct (os_Remove_spec (FilePath rot (KeepFiles rot)) (w3 <| rotator := rotator w3 <| current := Some f |> <| current_size := 0 |> |>))
    as (r4 & E4 & F4). cbn in E4. rewrite E4 in E. clear E4. injection E as <- <-. cbn in F4.
  set (w4 := if is_ok r4 then _ else _).
  assert (forall n, 0 <= n -> n <> KeepFiles rot -> gen rot w4 n = gen rot w3 n) as G4.
  { intros n Hn Hnk. subst w4. unfold gen. destruct r4; [|done]. cbn. apply lookup_delete_ne, Hne; lia. }
  assert (forall n, 0 < n -> gen rot w3 n = gen rot w n) as G3 by (intros n Hn; apply N3, Hne; lia).
  split; [intros i c Hi; subst w4; destruct r4; by apply C3|]. split; [intros n Hn Hnk; rewrite G4, G3 by lia; done|]. split.
  - exists (f_inode f). split; [|split; [rewrite G4 by lia; exact If|split; [subst w4; by destruct r4|done]]].
    unfold started. cbn. rewrite <- Ef, <- R3. subst w4. by destruct r4.
  - intros Hn. split; [done|]. intros Hd. rewrite <- G3 in Hd by lia. unfold gen in Hd. subst w4.
    destruct (nodes (disk w3) !! FilePath rot (KeepFiles rot)) as [[|i]|] eqn:En; [done| |].
    + rewrite (F4 Hn i eq_refl). cbn. apply lookup_delete_eq.
    + destruct r4; cbn; [apply lookup_delete_eq|exact En].
Qed.

(** What a rotation does, whichever of its calls fails. *)
Lemma Rotate_spec w r w' :
  let rot := rotator w in
  sane rot -> Rotate w = (r, w') ->
  (forall i c, contents (disk w) !! i = Some c -> contents (disk w') !! i = Some c) /\
  (forall n x, 0 <= n < KeepFiles rot - 1 -> gen rot w n = Some x -> gen rot w' n = Some x \/ gen rot w' (n + 1) = Some x) /\
  match r with
  | inr _ => rotator w' = closing rot
  | inl _ => exists i, rotator w' = started rot i /\
      gen rot w' 0 = Some (Regular i) /\ contents (disk w') !! i = Some [] /\ contents (disk w) !! i = None /\
      (forall n, 0 < n < KeepFiles rot -> gen rot w' n = gen rot w (n - 1))
  end /\
  (no_faults -> (forall f, current rot = Some f -> f_open f = true) ->
     (forall n, 0 <= n < RotatorMaxFiles -> gen rot w n <> Some Dir) ->
     r = inl tt /\ forall n, KeepFiles rot <= n < RotatorMaxFiles -> gen rot w' n = None).
Proof.
  cbv zeta. set (rot := rotator w). intros Hsane E. pose proof Hsane as [_ Hk].
  change (Rotate w) with ((close_current rot ;;* move_aside rot ;;* new_file rot) w) in E.
  apply io_bind_cases in E as [([] & w1 & E1 & E)|(e & E1 & ->)];
    (apply close_current_spec in E1 as (N1 & C1 & R1 & F1)); fold rot in R1, F1; cycle 1.
  { rewrite R1, C1. unfold gen. rewrite N1. split; [done|]. split; [by auto|]. split; [done|]. intros Hn Ho. by specialize (F1 Hn Ho). }
  assert (forall n, gen rot w1 n = gen rot w n) as G1 by (intros n; unfold gen; by rewrite N1).
  apply io_bind_cases in E as [([] & w2 & E2 & E)|(e & E2 & ->)];
    (apply move_aside_spec in E2 as ([R2 C2] & _ & (j & Hj & Hr & G2) & K2 & F2); [|done]); cycle 1.
  { rewrite R2, R1, C2, C1. split; [done|]. split; [|split; [done|]].
    - intros n x Hn Hg. rewrite <- G1 in Hg. rewrite !G2 by lia. by apply shifted_kept.
    - intros Hn Ho Hd. assert (inr e = inl tt) by (apply F2; [done|]; intros n; rewrite G1; apply Hd). done. }
  rewrite (Hr eq_refl) in G2. destruct (K2 eq_refl) as [K2a K2b]. clear K2 Hr j Hj F2.
  assert (gen rot w2 0 = None) as H0 by (rewrite G2 by lia; unfold shifted; by rewrite decide_False, decide_True by lia).
  assert (forall n, 0 < n < KeepFiles rot -> gen rot w2 n = gen rot w (n - 1)) as G2'.
  { intros n Hn. rewrite G2 by lia. unfold shifted. rewrite !decide_False by lia. rewrite G1.
    destruct (gen rot w (n - 1)); [done|]. destruct (decide (n = KeepFiles rot)); [lia|done]. }
  apply (new_file_spec _ _ _ _ Hsane H0) in E as (C3 & G3 & R3 & F3). split; [|split; [|split]].
  - intros i c Hi. apply C3. by rewrite C2, C1.
  - intros n x Hn Hg. right. rewrite G3, G2' by lia. by replace (n + 1 - 1) with n by lia.
  - destruct r as [[]|e]; [|by rewrite (proj1 R3), R2]. destruct R3 as (i & R3 & If & Cf & Cw). exists i.
    rewrite R3, R2, R1. split; [by destruct rot|]. split; [done|]. split; [done|]. split; [by rewrite <- C1, <- C2|].
    intros n Hn. rewrite G3 by lia. by apply G2'.
  - intros Hn Ho Hd. destruct (F3 Hn) as [-> F3']. split; [done|]. intros n Hnk.
    destruct (decide (n = KeepFiles rot)) as [->|Hne]; [|rewrite G3 by lia; apply K2b; lia].
    apply F3'. rewrite K2a, G1. apply Hd. lia.
Qed.

(** ** A line *)

(** Files of which each has grown at its end. *)
Definition grown (m m' : gmap nat bytes) : Prop := forall i c, m !! i = Some c -> exists t, m' !! i = Some (c ++ t).

Lemma grown_refl m : grown m m.
Proof. intros i c H. exists []. by rewrite app_nil_r. Qed.
Lemma grown_trans m1 m2 m3 : grown m1 m2 -> grown m2 m3 -> grown m1 m3.
Proof. intros H1 H2 i c H. destruct (H1 i c H) as [t E], (H2 i _ E) as [u F]. exists (t ++ u). by rewrite app_assoc. Qed.

Lemma append_grown i data d : grown (contents d) (contents (append_to i data d)).
Proof.
  intros j c H. cbn. destruct (decide (j = i)) as [->|Hne]; [rewrite lookup_insert_eq, H; by exists data|].
  rewrite lookup_insert_ne by done. exists []. by rewrite app_nil_r.
Qed.

Lemma write_current_spec data w r w' :
  write_current data w = (r, w') ->
  rotator w' = rotator w /\ nodes (disk w') = nodes (disk w) /\ grown (contents (disk w)) (contents (disk w')) /\
  (no_faults -> forall f, current (rotator w) = Some f -> f_open f = true ->
     r = inl tt /\ contents (disk w') = <[f_inode f := default [] (contents (disk w) !! f_inode f) ++ data]> (contents (disk w))).
Proof.
  unfold write_current, io_bind, io_rotator. destruct (current (rotator w)) as [f|] eqn:Ef.
  - assert (forall part, grown (contents (disk w)) (contents (append_to (f_inode f) part (disk w)))) as Hg by (intros; apply append_grown).
    unfold file_Write. destruct (f_open f) eqn:Eo.
    + destruct (fault (calls (disk w))) eqn:E; intros [= <- <-]; (split; [done|]; split; [done|]; split; [apply Hg|]).
      * intros H. by rewrite H in E.
      * by intros _ f' [= <-] _.
    + intros [= <- <-]. split; [done|]. split; [done|]. split; [apply grown_refl|]. intros _ f' [= <-]. congruence.
  - intros [= <- <-]. split; [done|]. split; [done|]. split; [apply grown_refl|done].
Qed.

Lemma put_line_spec line w r w' :
  put_line line w = (r, w') ->
  (exists size, rotator w' = rotator w <| current_size := size |>) /\ nodes (disk w') = nodes (disk w) /\
  grown (contents (disk w)) (contents (disk w')) /\
  (no_faults -> forall f, current (rotator w) = Some f -> f_open f = true ->
     r = inl tt /\ rotator w' = rotator w <| current_size := uint64_of (current_size (rotator w) + uint64_of (len line + 1)) |> /\
     contents (disk w') = <[f_inode f := default [] (contents (disk w) !! f_inode f) ++ line ++ [x0a]]> (contents (disk w))).
Proof.
  assert (forall rot, exists size, rot = rot <| current_size := size |>) as Hsame by (intros rot; exists (current_size rot); by destruct rot).
  intros [([] & w1 & E1 & E)|(e & E1 & ->)]%io_bind_cases; apply write_current_spec in E1 as (R1 & N1 & G1 & C1); cycle 1.
  { rewrite R1. split; [apply Hsame|]. split; [done|]. split; [done|]. intros Hn f Hf Ho. by destruct (C1 Hn f Hf Ho). }
  apply io_bind_cases in E as [([] & w2 & E2 & E)|(e & E2 & ->)]; apply write_current_spec in E2 as (R2 & N2 & G2 & C2); rewrite R1 in R2, C2; cycle 1.
  { rewrite R2. split; [apply Hsame|]. split; [congruence|]. split; [by eapply grown_trans|]. intros Hn f Hf Ho. by destruct (C2 Hn f Hf Ho). }
  injection E as <- <-. cbn. rewrite R2. split; [by eexists|]. split; [congruence|]. split; [by eapply grown_trans|].
  intros Hn f Hf Ho. split; [done|]. split; [done|]. destruct (C1 Hn f Hf Ho) as [_ E1]. destruct (C2 Hn f Hf Ho) as [_ ->].
  rewrite E1, lookup_insert_eq, insert_insert_eq. cbn. by rewrite <- app_assoc.
Qed.

Lemma WriteLine_eq line w :
  WriteLine line w = ((if shouldRotate (rotator w) then Rotate else io_ret tt) ;;* put_line line) w.
Proof. reflexivity. Qed.

(** * When calls fail *)

(** The text of a generation. *)
Definition file rot w (n : Z) : option bytes := file_at (disk w) (FilePath rot n).

Lemma file_kept rot w w' n m text :
  grown (contents (disk w)) (contents (disk w')) -> file rot w n = Some text -> gen rot w' m = gen rot w n ->
  exists more, file rot w' m = Some (text ++ more).
Proof.
  unfold file, file_at, gen. intros Hg Hf Hm. rewrite Hm. destruct (nodes (disk w) !! FilePath rot n) as [[|i]|]; [done| |done].
  by apply Hg.
Qed.

(** C33: whichever calls of the system fail, and at whatever point of a rotation, a line that
    is written takes nothing away from the files that are kept: each generation but the
    oldest has its text, perhaps with more at its end, under its number or the next one. *)
Theorem WriteLine_keeps w line r w' :
  let rot := rotator w in
  sane rot -> WriteLine line w = (r, w') ->
  forall n text, 0 <= n < KeepFiles rot - 1 -> file rot w n = Some text ->
  exists more, file rot w' n = Some (text ++ more) \/ file rot w' (n + 1) = Some (text ++ more).
Proof.
  cbv zeta. intros Hs E n text Hn Hf. set (rot := rotator w) in *. rewrite WriteLine_eq in E. fold rot in E.
  assert (exists x, gen rot w n = Some x) as [x Hx].
  { unfold file, file_at in Hf. unfold gen. destruct (nodes (disk w) !! FilePath rot n); [by eexists|done]. }
  assert (forall w1 r1, (if shouldRotate rot then Rotate else io_ret tt) w = (r1, w1) ->
    grown (contents (disk w)) (contents (disk w1)) /\ (gen rot w1 n = Some x \/ gen rot w1 (n + 1) = Some x)) as H1.
  { intros w1 r1. destruct (shouldRotate rot); [|intros [= <- <-]; split; [apply grown_refl|by left]].
    intros E1. destruct (Rotate_spec w r1 w1 Hs E1) as (C & K & _). split; [|by apply K].
    intros i c Hi. exists []. rewrite app_nil_r. by apply C. }
  assert (grown (contents (disk w)) (contents (disk w')) /\ (gen rot w' n = Some x \/ gen rot w' (n + 1) = Some x)) as [Hg Hk].
  { apply io_bind_cases in E as [([] & w1 & E1 & E)|(e & E1 & ->)]; [|by apply (H1 _ _ E1)].
    destruct (H1 _ _ E1) as [G1 K1]. apply put_line_spec in E as (_ & N & G & _). unfold gen. rewrite N.
    split; [by eapply grown_trans|exact K1]. }
  rewrite <- Hx in Hk. destruct Hk as [Hk|Hk]; destruct (file_kept rot w w' n _ text Hg Hf Hk) as [more E']; exists more; auto.
Qed.

(** Lines written one after the other. *)
Fixpoint write_all (lines : list bytes) w : list (unit + bytes) * FileWorld :=
  match lines with
  | [] => ([], w)
  | line :: lines =>
      let '(r, w) := WriteLine line w in
      let '(rs, w) := write_all lines w in (r :: rs, w)
  end.

(** C34: a rotation that fails once, after the rotator had a file, is the end of the output:
    its file stays closed, every later rotation starts by closing it again, and so every
    later line is refused, even if no call fails any more, with the files left as they are. *)
Theorem failed_rotation_final w e w1 :
  sane (rotator w) -> (exists f, current (rotator w) = Some f) ->
  RotateEveryBytes (rotator w) <= current_size (rotator w) -> Rotate w = (inr e, w1) ->
  forall lines, write_all lines w1 = (map (fun _ => inr (bs "invalid argument")) lines, w1).
Proof.
  intros Hs [f Hf] Hfull E. apply Rotate_spec in E as (_ & _ & R & _); [|done].
  assert (current (rotator w1) = Some (closed f)) as Hc by (rewrite R; cbn; by rewrite Hf).
  assert (shouldRotate (rotator w1) = true) as Hr.
  { unfold shouldRotate. rewrite Hc, R. apply bool_decide_eq_true. cbn. lia. }
  assert (forall line, WriteLine line w1 = (inr (bs "invalid argument"), w1)) as H.
  { intros line. rewrite WriteLine_eq, Hr. unfold Rotate, io_bind, io_rotator, close_current. by rewrite Hc. }
  intros lines. induction lines as [|line lines IH]; [done|]. cbn [write_all map]. by rewrite H, IH.
Qed.
End Calls.

(** * When no call fails *)

(** ** The generations of a list of lines *)

(** A line goes to the newest generation, or to a new one if that is full; the newest one
    comes first. *)
Definition add_line (limit : Z) (gens : list (list bytes)) (line : bytes) : list (list bytes) :=
  match gens with
  | g :: gens' => if decide (len (unlines g) < limit) then (g ++ [line]) :: gens' else [line] :: gens
  | [] => [[line]]
  end.
Definition generations (limit : Z) (lines : list bytes) : list (list bytes) := foldl (add_line limit) [] lines.

(** All lines are there, in order. *)
Lemma generations_lines limit lines : concat (rev (generations limit lines)) = lines.
Proof.
  unfold generations. enough (forall gens, concat (rev (foldl (add_line limit) gens lines)) = concat (rev gens) ++ lines) as H by apply H.
  induction lines as [|line lines IH]; intros gens; cbn [foldl]; [by rewrite app_nil_r|]. rewrite IH.
  replace (line :: lines) with ([line] ++ lines) by done. rewrite app_assoc. f_equal.
  destruct gens as [|g gens]; cbn [add_line]; [done|]. case_decide; cbn [rev]; rewrite !concat_app; cbn; rewrite !app_nil_r; [by rewrite app_assoc|done].
Qed.

(** No generation is empty; each is full, but for the newest one; and it was not full before
    its last line. *)
Definition cut_well (limit : Z) (g : list bytes) : Prop :=
  exists h line, g = h ++ [line] /\ (h = [] \/ len (unlines h) < limit).

Lemma generations_cut limit lines :
  Forall (cut_well limit) (generations limit lines) /\
  forall n g, generations limit lines !! S n = Some g -> limit <= len (unlines g).
Proof.
  unfold generations.
  enough (forall gens, Forall (cut_well limit) gens -> (forall n g, gens !! S n = Some g -> limit <= len (unlines g)) ->
    Forall (cut_well limit) (foldl (add_line limit) gens lines) /\
    forall n g, foldl (add_line limit) gens lines !! S n = Some g -> limit <= len (unlines g)) as H by (by apply H).
  induction lines as [|line lines IH]; intros gens Hc Hf; [by split|]. cbn [foldl]. apply IH.
  - destruct gens as [|g gens]; cbn [add_line]; [apply Forall_cons; split; [by exists [], line; auto|done]|].
    apply Forall_cons in Hc as [Hg Hc]. case_decide; apply Forall_cons; split; [by exists g, line; auto|done|by exists [], line; auto|].
    by apply Forall_cons.
  - intros n h. destruct gens as [|g gens]; cbn [add_line]; [done|]. case_decide; cbn; [apply (Hf n)|].
    destruct n as [|n]; cbn; [intros [= <-]; lia|apply (Hf n)].
Qed.

Section Calm.
Context {FL : Faults} (quiet : no_faults).
(** The settings of the rotator; [current] and [current_size] do not matter. *)
Context (rot : FileRotator) (rot_sane : sane rot).
Implicit Types (w : FileWorld).

(** The names of the generations are of regular files, no two of the same one. *)
Record owns w : Prop := {
  own_regular : forall n, 0 <= n < RotatorMaxFiles -> gen rot w n <> Some Dir;
  own_contents : forall n i, 0 <= n < RotatorMaxFiles -> gen rot w n = Some (Regular i) -> is_Some (contents (disk w) !! i);
  own_inj : forall m n i, 0 <= m < RotatorMaxFiles -> 0 <= n < RotatorMaxFiles ->
    gen rot w m = Some (Regular i) -> gen rot w n = Some (Regular i) -> m = n
}.

Definition holding w (c : option File) (size : Z) : Prop := rotator w = rot <| current := c |> <| current_size := size |>.

Lemma Rotate_calm w c size :
  holding w c size -> (forall f, c = Some f -> f_open f = true) -> owns w ->
  exists i w', Rotate w = (inl tt, w') /\ holding w' (current (started rot i)) 0 /\ owns w' /\
    gen rot w' 0 = Some (Regular i) /\ file rot w' 0 = Some [] /\
    (forall n, 0 < n < KeepFiles rot -> file rot w' n = file rot w (n - 1)) /\
    (forall n, KeepFiles rot <= n < RotatorMaxFiles -> gen rot w' n = None).
Proof.
  intros Hh Ho [Hd Hc Hi]. pose proof rot_sane as [_ Hk]. destruct (Rotate w) as [r w'] eqn:E.
  pose proof (Rotate_spec w r w') as H. cbv zeta in H. unfold holding in Hh. rewrite !Hh in H. specialize (H rot_sane E).
  change (gen (rot <| current := c |> <| current_size := size |>)) with (gen rot) in H.
  change (KeepFiles (rot <| current := c |> <| current_size := size |>)) with (KeepFiles rot) in H.
  destruct H as (C & _ & R & F). destruct (F quiet Ho Hd) as [-> Fn]. destruct R as (i & R & G0 & C0 & Ci & Gn).
  assert (forall n, 0 < n < RotatorMaxFiles -> gen rot w' n = gen rot w (n - 1) /\ n < KeepFiles rot \/ gen rot w' n = None) as Hcase.
  { intros n Hn. destruct (decide (n < KeepFiles rot)); [left; split; [apply Gn; lia|done]|right; apply Fn; lia]. }
  assert (RotatorMaxFiles = 1000) as Hmax by done.
  assert (forall n j, 0 < n < RotatorMaxFiles -> gen rot w' n = Some (Regular j) ->
    gen rot w (n - 1) = Some (Regular j) /\ is_Some (contents (disk w) !! j) /\ j <> i) as Hold.
  { intros n j Hn Hg. destruct (Hcase n Hn) as [[E' _]|E']; rewrite E' in Hg; [|done]. split; [done|].
    destruct (Hc (n - 1) j ltac:(lia) Hg) as [x Hx]. split; [by eexists|]. intros ->. congruence. }
  exists i, w'. split; [done|]. split; [exact R|]. split; [split|].
  - intros n Hn. destruct (decide (n = 0)) as [->|]; [by rewrite G0|].
    destruct (Hcase n ltac:(lia)) as [[-> _]| ->]; [apply Hd; lia|done].
  - intros n j Hn Hg. destruct (decide (n = 0)) as [->|]; [rewrite G0 in Hg; injection Hg as <-; by eexists|].
    destruct (Hold n j ltac:(lia) Hg) as (_ & [x Hx] & _). exists x. by apply C.
  - intros m n j Hm Hn Gm Gn'. destruct (decide (m = 0)) as [->|Hm0], (decide (n = 0)) as [->|Hn0]; [done| | |].
    + rewrite G0 in Gm. injection Gm as <-. by destruct (Hold n i ltac:(lia) Gn') as (_ & _ & ?).
    + rewrite G0 in Gn'. injection Gn' as <-. by destruct (Hold m i ltac:(lia) Gm) as (_ & _ & ?).
    + destruct (Hold m j ltac:(lia) Gm) as (Gm' & _), (Hold n j ltac:(lia) Gn') as (Gn2 & _).
      pose proof (Hi (m - 1) (n - 1) j ltac:(lia) ltac:(lia) Gm' Gn2). lia.
  - split; [done|]. split; [|split; [|exact Fn]].
    + unfold file, file_at. unfold gen in G0. by rewrite G0.
    + intros n Hn. pose proof (Gn n Hn) as E'. unfold file, file_at, gen in *. rewrite E'.
      destruct (nodes (disk w) !! FilePath rot (n - 1)) as [[|j]|] eqn:Ej; [done| |done].
      destruct (Hc (n - 1) j ltac:(lia) Ej) as [x Hx]. rewrite Hx. by apply C.
Qed.

Lemma put_line_calm line w i size :
  holding w (current (started rot i)) size -> owns w -> gen rot w 0 = Some (Regular i) ->
  exists w', put_line line w = (inl tt, w') /\ holding w' (current (started rot i)) (uint64_of (size + uint64_of (len line + 1))) /\
    owns w' /\ (forall n, gen rot w' n = gen rot w n) /\
    file rot w' 0 = Some (default [] (file rot w 0) ++ line ++ [x0a]) /\
    (forall n, 0 < n < RotatorMaxFiles -> file rot w' n = file rot w n).
Proof.
  intros Hh [Hd Hc Hi] G0. destruct (put_line line w) as [r w'] eqn:E.
  apply put_line_spec in E as (_ & N & G & F).
  set (f := {| f_name := FilePath rot 0; f_inode := i; f_open := true |}).
  destruct (F quiet f) as (-> & R & C); [by rewrite Hh|done|]. cbn [f_inode f] in C.
  assert (forall n, gen rot w' n = gen rot w n) as Gn by (intros n; unfold gen; by rewrite N).
  exists w'. split; [done|]. split; [unfold holding; rewrite R, Hh; done|]. split; [split|split; [done|split]].
  - intros n Hn. rewrite Gn. by apply Hd.
  - intros n j Hn. rewrite Gn. intros Hg. destruct (Hc n j Hn Hg) as [x Hx]. destruct (G j x Hx) as [t Ht]. by eexists.
  - intros m n j Hm Hn. rewrite !Gn. by apply Hi.
  - unfold file, file_at, gen in *. rewrite N, G0, C. apply lookup_insert_eq.
  - intros n Hn. unfold file, file_at. rewrite N. destruct (nodes (disk w) !! FilePath rot n) as [[|j]|] eqn:Ej; [done| |done].
    rewrite C, lookup_insert_ne; [done|]. intros <-. pose proof (Hi n 0 i ltac:(lia) ltac:(done) Ej G0). lia.
Qed.

(** ** The log *)

(** The files hold the generations [gens], and after them what they held before. *)
Record logged (old : Z -> option bytes) (gens : list (list bytes)) w : Prop := {
  log_current : match gens with
                | [] => exists size, holding w None size
                | g :: _ => exists i, holding w (current (started rot i)) (len (unlines g)) /\ gen rot w 0 = Some (Regular i)
                end;
  log_owns : owns w;
  log_files : forall n, 0 <= n < KeepFiles rot ->
    file rot w n = match gens !! Z.to_nat n with Some g => Some (unlines g) | None => old (n - len gens) end;
  log_extra : gens <> [] -> forall n, KeepFiles rot <= n < RotatorMaxFiles -> gen rot w n = None
}.

Definition fits (line : bytes) : Prop := RotateEveryBytes rot + len line + 1 < 2 ^ 64.

Lemma text_line line : unlines [line] = line ++ [x0a].
Proof. unfold unlines. cbn. apply app_nil_r. Qed.

Lemma new_size g line :
  0 <= RotateEveryBytes rot -> fits line -> g = [] \/ len (unlines g) < RotateEveryBytes rot ->
  uint64_of (len (unlines g) + uint64_of (len line + 1)) = len (unlines (g ++ [line])).
Proof.
  intros H0 Hf Hg. unfold fits in Hf. rewrite unlines_app, text_line, len_app, len_app. change (len [x0a]) with 1.
  pose proof (len_nonneg (unlines g)). pose proof (len_nonneg line).
  assert (len (unlines g) <= RotateEveryBytes rot) by (destruct Hg as [->|]; [exact H0|lia]). unfold wrapU. rewrite !Z.mod_small by (rewrite ?Z.mod_small; lia). lia.
Qed.

Lemma log_line old gens w line :
  0 <= RotateEveryBytes rot -> fits line -> logged old gens w ->
  exists w', WriteLine line w = (inl tt, w') /\ logged old (add_line (RotateEveryBytes rot) gens line) w'.
Proof.
  intros H0 Hfit [Hc Ho Hf He]. pose proof rot_sane as [_ Hk]. assert (RotatorMaxFiles = 1000) as Hmax by done.
  assert (exists c size, holding w c size /\ (forall f, c = Some f -> f_open f = true) /\
    shouldRotate (rotator w) = match gens with [] => true | g :: _ => bool_decide (len (unlines g) >= RotateEveryBytes rot) end)
    as (c & size & Hh & Hopen & Hrot).
  { destruct gens as [|g gens].
    - destruct Hc as [size Hh]. exists None, size. split; [done|]. split; [done|]. by rewrite Hh.
    - destruct Hc as (i & Hh & _). eexists _, _. split; [exact Hh|]. split; [by intros f [= <-]|]. by rewrite Hh. }
  assert (shouldRotate (rotator w) = true ->
    exists w', WriteLine line w = (inl tt, w') /\ logged old ([line] :: gens) w') as Hnew.
  { intros Ht. destruct (Rotate_calm w c size Hh Hopen Ho) as (i & w1 & E1 & Hh1 & Ho1 & G1 & F0 & F1 & X1).
    destruct (put_line_calm line w1 i 0 Hh1 Ho1 G1) as (w2 & E2 & Hh2 & Ho2 & G2 & F2 & F3). exists w2. split.
    { rewrite WriteLine_eq, Ht. unfold io_bind. by rewrite E1. }
    split; [exists i; split; [|by rewrite G2]| done | |].
    - change [line] with ([] ++ [line]). rewrite <- new_size by auto. exact Hh2.
    - intros n Hn. destruct (decide (n = 0)) as [->|Hn0]; [change (([line] :: gens) !! Z.to_nat 0) with (Some [line]); by rewrite F2, F0, text_line|].
      rewrite F3, F1, Hf by lia. replace (Z.to_nat n) with (S (Z.to_nat (n - 1))) by lia. cbn [lookup list_lookup].
      destruct (gens !! Z.to_nat (n - 1)); [done|]. f_equal. rewrite len_cons. lia.
    - intros _ n Hn. rewrite G2. by apply X1. }
  destruct gens as [|g gens]; [by apply Hnew|]. cbn [add_line].
  destruct (decide (len (unlines g) < RotateEveryBytes rot)) as [Hg|Hg]; cycle 1.
  { apply Hnew. rewrite Hrot. apply bool_decide_eq_true. lia. }
  destruct Hc as (i & Hh' & G0). destruct (put_line_calm line w i _ Hh' Ho G0) as (w2 & E2 & Hh2 & Ho2 & G2 & F2 & F3). exists w2. split.
  { rewrite WriteLine_eq, Hrot, bool_decide_eq_false_2 by lia. exact E2. }
  split; [exists i; split; [by rewrite <- new_size by auto|by rewrite G2]|done| |].
  - intros n Hn. destruct (decide (n = 0)) as [->|Hn0].
    + rewrite F2, Hf by lia. change (Z.to_nat 0) with 0%nat. cbn [lookup list_lookup default]. by rewrite unlines_app, text_line.
    + rewrite F3, Hf by lia. destruct (Z.to_nat n) as [|m] eqn:Em; [lia|]. cbn [lookup list_lookup].
      destruct (gens !! m); [done|]. by rewrite !len_cons.
  - intros _ n Hn. rewrite G2. by apply He.
Qed.

Lemma log_all w0 lines :
  rotator w0 = rot -> current rot = None -> owns w0 -> 0 <= RotateEveryBytes rot -> Forall fits lines ->
  exists w, write_all lines w0 = (map (fun _ => inl tt) lines, w) /\
    logged (file rot w0) (generations (RotateEveryBytes rot) lines) w.
Proof.
  intros Hr Hc Ho H0 Hfits. assert (logged (file rot w0) [] w0) as Hl0.
  { split; [exists (current_size rot); unfold holding; rewrite Hr; destruct rot; cbn in *; by subst|done| |done].
    intros n Hn. cbn. by rewrite Z.sub_0_r. }
  clear Hr Hc Ho. unfold generations. generalize (file rot w0) as old, (@nil (list bytes)) as gens, Hl0.
  clear Hl0. intros old gens Hl0. revert gens w0 Hl0.
  induction Hfits as [|line lines Hline _ IH]; intros gens w Hl; [by exists w|].
  destruct (log_line old gens w line H0 Hline Hl) as (w1 & E1 & Hl1). destruct (IH _ _ Hl1) as (w2 & E2 & Hl2).
  exists w2. cbn [write_all map foldl]. rewrite E1, E2. done.
Qed.

(** While no call of the system fails, every line is written, and the files are the
    generations of the lines: the newest in the file without a number, each older one in the
    file of the next number, and after them what the files held before, pushed on by as many
    numbers; no file has a number from [KeepFiles] on.  The generations are the lines in
    order, no line is split between two files, and a file is left for the next one when the
    last line has filled it, not before. *)
Theorem file_log w0 lines :
  rotator w0 = rot -> current rot = None -> owns w0 -> 0 <= RotateEveryBytes rot -> Forall fits lines ->
  let gens := generations (RotateEveryBytes rot) lines in
  exists w, write_all lines w0 = (map (fun _ => inl tt) lines, w) /\
    (forall n, 0 <= n < KeepFiles rot ->
       file rot w n = match gens !! Z.to_nat n with Some g => Some (unlines g) | None => file rot w0 (n - len gens) end) /\
    (lines <> [] -> forall n, KeepFiles rot <= n < RotatorMaxFiles -> file rot w n = None) /\
    concat (rev gens) = lines /\ Forall (cut_well (RotateEveryBytes rot)) gens /\
    (forall n g, gens !! S n = Some g -> RotateEveryBytes rot <= len (unlines g)).
Proof.
  intros Hr Hc Ho H0 Hfits gens. pose proof (generations_cut (RotateEveryBytes rot) lines) as [Hcut Hfull].
  pose proof (generations_lines (RotateEveryBytes rot) lines) as Hlines.
  destruct (log_all w0 lines Hr Hc Ho H0 Hfits) as (w & E & [_ _ Hf He]).
  exists w. split; [exact E|]. split; [exact Hf|]. split; [|done]. intros Hl n Hn.
  assert (generations (RotateEveryBytes rot) lines <> []) as Hg by (intros Eg; apply Hl; rewrite <- Hlines, Eg; done).
  specialize (He Hg n Hn). unfold file, file_at. unfold gen in He. by rewrite He.
Qed.

(** ** What a reader of the files gets *)

(** The documents of a file, one per line. *)
Definition read_lines (t : bytes) : list (option Unmarshal.value) := map Unmarshal.parse (removelast (Split t x0a)).

Fixpoint publish_all (events : list (Z * MapStr)) w : list (unit + bytes) * FileWorld :=
  match events with
  | [] => ([], w)
  | (ts, event) :: events =>
      let '(r, w) := PublishEvent ts event w in
      let '(rs, w) := publish_all events w in (r :: rs, w)
  end.

Lemma publish_all_lines events w : publish_all events w = write_all (map (fun x => Marshal (snd x)) events) w.
Proof.
  revert w. induction events as [|[ts event] events IH]; intros w; [done|]. cbn [publish_all map write_all snd].
  unfold PublishEvent. destruct (WriteLine (Marshal event) w) as [r w1]. by rewrite IH.
Qed.

Lemma read_lines_text g : Forall visible g -> read_lines (unlines g) = map Unmarshal.parse g.
Proof. intros H. unfold read_lines. by rewrite Split_unlines, removelast_last by done. Qed.

Lemma map_upwards {A} (x : A) (l : list A) : map (fun n => default x (l !! Z.to_nat n)) (upwards 0 (len l)) = l.
Proof.
  unfold upwards, len. rewrite Z.sub_0_r, Nat2Z.id, map_map. transitivity (map (fun i => default x (l !! i)) (seq 0 (length l))).
  { apply map_ext. intros i. f_equal. f_equal. lia. }
  induction l as [|y l IH]; [done|]. cbn [length seq map lookup list_lookup default]. f_equal. rewrite <- fmap_S_seq.
  change (S <$> seq 0 (length l)) with (map S (seq 0 (length l))). rewrite map_map. exact IH.
Qed.

Lemma in_upwards n lo hi : In n (upwards lo hi) -> lo <= n < hi.
Proof. intros H. by apply elem_of_upwards, list_elem_of_In. Qed.

(** C32: if no call of the system fails, and the lines need no more generations than the
    configuration keeps, then a reader of the files, from the oldest to the newest and line by
    line, gets one JSON document per event that was published, in order, with every entry of
    the event under its key: its strings (with U+FFFD for bytes that are not UTF-8), numbers
    and maps, and its times to the millisecond. *)
Theorem published_read_back w0 (events : list (Z * MapStr)) :
  let lines := map (fun x => Marshal (snd x)) events in
  let gens := generations (RotateEveryBytes rot) lines in
  rotator w0 = rot -> current rot = None -> owns w0 -> 0 <= RotateEveryBytes rot -> Forall fits lines ->
  len gens <= KeepFiles rot ->
  exists w docs, publish_all events w0 = (map (fun _ => inl tt) events, w) /\
    concat (map (fun n => read_lines (default [] (file rot w n))) (downwards (len gens) 0)) = map Some docs /\
    Forall2 (fun x doc => Unmarshal.shows (MMap (snd x)) doc) events docs.
Proof.
  cbv zeta. intros Hr Hc Ho H0 Hfits Hk. set (lines := map _ events) in *. set (gens := generations _ _) in *.
  destruct (log_all w0 lines Hr Hc Ho H0 Hfits) as (w & E & [_ _ Hf _]). fold gens in Hf.
  destruct (Unmarshal.parse_Marshals snd events) as (docs & Ed & Hdocs). exists w, docs.
  split; [rewrite publish_all_lines; fold lines; rewrite E; subst lines; by rewrite map_map|]. split; [|exact Hdocs].
  pose proof (generations_lines (RotateEveryBytes rot) lines) as Hlines. fold gens in Hlines.
  assert (Forall visible (concat (rev gens))) as Hv.
  { rewrite Hlines. apply Forall_map, Forall_true. intros x. apply print_json_visible. }
  transitivity (map Unmarshal.parse (concat (rev gens))).
  - rewrite concat_map. f_equal. unfold downwards. rewrite !map_rev. f_equal. rewrite <- (map_upwards [] gens) at 2. rewrite map_map.
    apply map_ext_in. intros n Hn%in_upwards. rewrite Hf by lia.
    destruct (lookup_lt_is_Some_2 gens (Z.to_nat n)) as [g Hg]; [unfold len in Hn; lia|]. rewrite Hg. cbn [default].
    apply read_lines_text. apply Forall_forall. intros l Hl. rewrite Forall_forall in Hv. apply Hv, list_elem_of_In, in_concat.
    exists g. split; [by apply in_rev; rewrite rev_involutive; apply list_elem_of_In; eapply list_elem_of_lookup_2|by apply list_elem_of_In].
  - rewrite Hlines. subst lines. rewrite map_map. exact Ed.
Qed.
End Calm.

(** * Witnesses *)

Lemma demo_sane rot n : Name rot = bs "pb" -> KeepFiles rot = n -> 2 <= n < RotatorMaxFiles -> sane rot.
Proof.
  intros Hn <- Hk. split; [|exact Hk]. rewrite Hn. repeat match goal with |- simple_name _ => unfold simple_name | |- _ /\ _ => split end; try done.
  repeat (apply Forall_cons; split; [done|]). apply Forall_nil_2.
Qed.

(** An output with two files, the newest of them full. *)
Definition full_line : bytes := replicate 1023 x61.
Definition full_world : FileWorld :=
  snd ((Init (FL := calm) demo_config ;;* WriteLine (FL := calm) full_line) demo_world).

(** The first [Rename] of the next rotation fails. *)
Definition failing : Faults :=
  {| fault := fun n => if decide (n = calls (disk full_world) + 1002)%nat then Some (bs "permission denied") else None; cut := fun _ => O |}.

Lemma full_world_facts :
  Name (rotator full_world) = bs "pb" /\ KeepFiles (rotator full_world) = 2 /\
  RotateEveryBytes (rotator full_world) = 1024 /\ current_size (rotator full_world) = 1024 /\
  (exists f, current (rotator full_world) = Some f) /\
  file (rotator full_world) full_world 0 = Some (full_line ++ [x0a]) /\
  fst (Rotate (FL := failing) full_world) = inr (bs "rename /var/log/pb /var/log/pb.1: permission denied").
Proof. vm_compute. repeat match goal with |- _ /\ _ => split end; try reflexivity. by eexists. Qed.

Lemma full_world_sane : sane (rotator full_world).
Proof. destruct full_world_facts as (Hn & Hk & _). apply (demo_sane _ 2 Hn Hk). by split. Qed.

Lemma WriteLine_keeps_witness :
  exists more, file (rotator full_world) (snd (WriteLine (FL := failing) (bs "b") full_world)) 0 = Some ((full_line ++ [x0a]) ++ more) \/
    file (rotator full_world) (snd (WriteLine (FL := failing) (bs "b") full_world)) (0 + 1) = Some ((full_line ++ [x0a]) ++ more).
Proof.
  destruct full_world_facts as (_ & Hk & _ & _ & _ & Hf & _).
  apply (WriteLine_keeps (FL := failing) full_world (bs "b") _ _ full_world_sane (surjective_pairing _)); [|exact Hf].
  clear Hf. rewrite Hk. lia.
Defined.

(** From the failed rotation on no call fails, and still no line is written. *)
Lemma failed_rotation_final_witness :
  exists e w1, Rotate (FL := failing) full_world = (inr e, w1) /\
    write_all (FL := failing) [bs "b"; bs "c"] w1 = ([inr (bs "invalid argument"); inr (bs "invalid argument")], w1).
Proof.
  destruct full_world_facts as (_ & _ & Hl & Hs & Hc & _ & Hr).
  destruct (Rotate (FL := failing) full_world) as [r w1] eqn:Er. cbn [fst] in Hr. subst r.
  eexists _, _. split; [reflexivity|].
  refine (failed_rotation_final (FL := failing) full_world _ w1 full_world_sane Hc _ Er [bs "b"; bs "c"]).
  rewrite Hl, Hs. lia.
Defined.

(** An output that keeps three files of one kilobyte, after its start. *)
Abbreviation log_config := {| cfg_Path := bs "/var/log"; cfg_Filename := bs "pb"; cfg_Rotate_every_kb := 1; cfg_Number_of_files := 3 |}.
Definition log_world : FileWorld := snd (Init (FL := calm) log_config demo_world).

Lemma log_world_facts :
  Name (rotator log_world) = bs "pb" /\ KeepFiles (rotator log_world) = 3 /\ RotateEveryBytes (rotator log_world) = 1024 /\
  current (rotator log_world) = None /\ nodes (disk log_world) = {[ bs "/var/log" := Dir ]}.
Proof.
  repeat match goal with |- _ /\ _ => split end; [vm_compute; reflexivity..|].
  apply (bool_decide_eq_true_1 _). vm_compute. reflexivity.
Qed.

Lemma log_world_sane : sane (rotator log_world).
Proof. destruct log_world_facts as (Hn & Hk & _). apply (demo_sane _ 3 Hn Hk). by split. Qed.

(** No generation has the name of the directory. *)
Lemma log_world_owns : owns (rotator log_world) log_world.
Proof.
  assert (forall n, 0 <= n < RotatorMaxFiles -> gen (rotator log_world) log_world n = None) as H.
  { intros n Hn. unfold gen. destruct log_world_facts as (_ & _ & _ & _ & ->). apply lookup_singleton_ne. intros E.
    assert (forallb (fun n => negb (bool_decide (bs "/var/log" = FilePath (rotator log_world) n))) (upwards 0 RotatorMaxFiles) = true) as Hall
      by (clear; vm_compute; reflexivity).
    rewrite forallb_forall in Hall. specialize (Hall n). rewrite <- E, bool_decide_eq_true_2 in Hall by done.
    discriminate Hall. by apply list_elem_of_In, elem_of_upwards. }
  split; [intros n Hn; by rewrite H|intros n i Hn; by rewrite H|intros m n i Hm Hn; by rewrite H].
Qed.

Definition log_lines : list bytes := [full_line; bs "b"; full_line; bs "c"].

Lemma file_log_witness :
  exists w, write_all (FL := calm) log_lines log_world = (map (fun _ => inl tt) log_lines, w) /\
    file (rotator log_world) w 0 = Some (unlines [bs "c"]) /\ file (rotator log_world) w 1 = Some (unlines [bs "b"; full_line]).
Proof.
  destruct log_world_facts as (_ & Hk & Hl & Hc & _).
  destruct (file_log (FL := calm) (fun _ => eq_refl) (rotator log_world) log_world_sane log_world log_lines eq_refl Hc log_world_owns)
    as (w & E & Hf & _); [rewrite Hl; lia| |].
  { unfold fits. rewrite Hl. repeat (apply Forall_cons; split; [by vm_compute|]). apply Forall_nil_2. }
  exists w. rewrite Hk, Hl in Hf. split; [exact E|]. split; rewrite Hf by lia; vm_compute; reflexivity.
Defined.

Definition log_events : list (Z * MapStr) :=
  [(1, {[ bs "timestamp" := MTime 1425254399999999999 ]}); (2, {[ bs "redis" := MMap {[ bs "error" := MStr [x0a; xff] ]} ]})].

(** Two events on two lines; the first one is read back with the millisecond of its time. *)
Lemma published_read_back_witness :
  exists w doc1 doc2 t, publish_all (FL := calm) log_events log_world = ([inl tt; inl tt], w) /\
    concat (map (fun n => read_lines (default [] (file (rotator log_world) w n))) (downwards 1 0)) = [Some doc1; Some doc2] /\
    doc1 = Unmarshal.VObject [(bs "timestamp", Unmarshal.VString t)] /\ read_timestamp t = Some 1425254399999.
Proof.
  destruct log_world_facts as (_ & Hk & Hl & Hc & _).
  destruct (published_read_back (FL := calm) (fun _ => eq_refl) (rotator log_world) log_world_sane log_world log_events eq_refl Hc log_world_owns)
    as (w & docs & E & Hf & Hd); [rewrite Hl; lia| | |].
  - unfold fits. rewrite Hl. repeat (apply Forall_cons; split; [by vm_compute|]). apply Forall_nil_2.
  - rewrite Hk, Hl. by vm_compute.
  - rewrite Hl in Hf. inversion Hd as [|e1 doc1 es ds H1 Hd1]; subst. inversion Hd1 as [|e2 doc2 es2 ds2 H2 Hd2]; subst. inversion Hd2; subst.
    inversion H1 as [| | | | | |m entries members Hp Hm]; subst.
    rewrite map_to_list_singleton in Hp. apply Permutation_singleton_r in Hp as ->.
    inversion Hm as [|x y xs ys [Hk1 Hv1] Hm1]; subst. inversion Hm1; subst. destruct y as [k v]. cbn [fst snd] in *. subst k.
    inversion Hv1 as [| | |ns t Ht| | |]; subst. exists w, (Unmarshal.VObject [(bs "timestamp", Unmarshal.VString t)]), doc2, t.
    split; [exact E|]. split; [exact Hf|]. split; [reflexivity|]. apply Ht. lia.
Defined.

(** Lines that fill a file each: the two newest files are kept. *)
Example rotation_demo :
  let FL := calm in
  let w := snd (Init demo_config demo_world) in
  let line b := replicate 1023 b in
  let '(r, w) := (WriteLine (line x61) ;;* WriteLine (line x62) ;;* WriteLine (line x63) ;;* WriteLine (bs "d")) w in
  r = inl tt /\ file_at (disk w) (bs "/var/log/pb") = Some (bs "d" ++ [x0a]) /\
  file_at (disk w) (bs "/var/log/pb.1") = Some (line x63 ++ [x0a]) /\ file_at (disk w) (bs "/var/log/pb.2") = None /\
  nodes (disk w) !! bs "/var/log" = Some Dir.
Proof. vm_compute. repeat split. Qed.
