(* ===== verification/Redigo.v ===== *)
(** The Redis client library that libbeat's Redis output calls (garyburd/redigo, conn.go and
    reply.go): commands, replies, and a connection with commands in flight.  The network and
    the server behind it are a parameter. *)
From S2P Require Export GoNet Json.
From stdpp Require Import list.
#[local] Open Scope Z_scope.

(** * Commands on the wire *)

(** The arguments that the output passes: strings and ints. *)
Inductive arg := AString (s : bytes) | AInt (n : Z).
Definition arg_text (a : arg) : bytes := match a with AString s => s | AInt n => Itoa n end.

Definition CRLF : bytes := [x0d; x0a].
(** [writeLen]: the digits of a length, which is not negative. *)
Definition writeLen (prefix : byte) (n : Z) : bytes := prefix :: utoa n ++ CRLF.
Definition writeString (s : bytes) : bytes := writeLen "$"%byte (len s) ++ s ++ CRLF.
Definition writeCommand (cmd : bytes) (args : list arg) : bytes :=
  writeLen "*"%byte (1 + len args) ++ writeString cmd ++ concat (map (fun a => writeString (arg_text a)) args).

(** * Replies *)

(** What [readReply] makes of a reply: a Go string, an [Error], an int64, a [[]byte], nil,
    or a slice of these. *)
Inductive reply :=
| RSimple (s : bytes) | RError (s : bytes) | RInt (n : Z) | RBulk (s : bytes) | RNil | RArray (l : list reply).

Definition protocolError (s : bytes) : bytes :=
  bs "redigo: " ++ s ++ bs " (possible server error or unsupported concurrent read by application)".
(** The server does not send the rest within the read timeout. *)
Definition timeout : bytes := bs "i/o timeout".

(** A read gives a value and what is left of the input, or an error. *)
Definition reading (A : Type) : Type := outcome (A * bytes + bytes).

(** [bufio.Reader.ReadSlice] has a buffer of 4096 bytes for the line. *)
Definition readLine (s : bytes) : reading bytes :=
  match index_nat s [x0a] with
  | Some i =>
      if decide (Z.of_nat i < 4096) then
        let p := take i s in
        match last p with
        | Some c => if Byte.eqb c x0d then Ret (inl (removelast p, drop (S i) s)) else Ret (inr (protocolError (bs "bad response line terminator")))
        | None => Ret (inr (protocolError (bs "bad response line terminator")))
        end
      else Ret (inr (protocolError (bs "long response line")))
  | None => if decide (4096 <= len s) then Ret (inr (protocolError (bs "long response line"))) else Ret (inr timeout)
  end.

(** The loops of [parseLen] and [parseInt]; the numbers wrap around. *)
Definition parse_decimal (p : bytes) : option Z :=
  foldl (fun acc b => n ← acc; if decide (48 <= u8 b <= 57) then Some (int64_of (int64_of (n * 10) + (u8 b - 48))) else None) (Some 0) p.

Definition parseLen (p : bytes) : Z + bytes :=
  if decide (p = []) then inr (protocolError (bs "malformed length"))
  else if decide (p = bs "-1") then inl (-1)
  else match parse_decimal p with
       | Some n => inl n
       | None => inr (protocolError (bs "illegal bytes in length"))
       end.

Definition parseInt (p : bytes) : Z + bytes :=
  let parse negate p :=
    if decide (p = []) then inr (protocolError (bs "malformed integer"))
    else match parse_decimal p with
         | Some n => inl (if negate : bool then int64_of (- n) else n)
         | None => inr (protocolError (bs "illegal bytes in length"))
         end in
  match p with
  | c :: rest => if Byte.eqb c "-"%byte then parse true rest else parse false p
  | [] => parse false p
  end.

(** The elements of an array, one after the other. *)
Fixpoint read_array (readReply : bytes -> reading reply) (fuel : nat) (n : Z) (s : bytes) : reading (list reply) :=
  if decide (n <= 0) then Ret (inl ([], s))
  else match fuel with
       | O => OutOfFuel
       | S fuel =>
           match readReply s with
           | Ret (inl (r, s)) =>
               match read_array readReply fuel (n - 1) s with
               | Ret (inl (l, s)) => Ret (inl (r :: l, s))
               | e => e
               end
           | Ret (inr e) => Ret (inr e)
           | Panic => Panic
           | OutOfFuel => OutOfFuel
           end
       end.

Fixpoint readReply_go (fuel : nat) (s : bytes) : reading reply :=
  match fuel with
  | O => OutOfFuel
  | S fuel =>
      match readLine s with
      | Ret (inl ([], s)) => Ret (inr (protocolError (bs "short response line")))
      | Ret (inl (c :: line, s)) =>
          if Byte.eqb c "+"%byte then Ret (inl (RSimple line, s))
          else if Byte.eqb c "-"%byte then Ret (inl (RError line, s))
          else if Byte.eqb c ":"%byte then
            match parseInt line with inl n => Ret (inl (RInt n, s)) | inr e => Ret (inr e) end
          else if Byte.eqb c "$"%byte then
            match parseLen line with
            | inr e => Ret (inr e)
            | inl n =>
                if decide (n < 0) then Ret (inl (RNil, s))
                else if decide (len s < n) then Ret (inr timeout)
                else match readLine (drop (Z.to_nat n) s) with
                     | Ret (inl ([], rest)) => Ret (inl (RBulk (take (Z.to_nat n) s), rest))
                     | Ret (inl (_ :: _, _)) => Ret (inr (protocolError (bs "bad bulk string format")))
                     | Ret (inr e) => Ret (inr e)
                     | Panic => Panic
                     | OutOfFuel => OutOfFuel
                     end
            end
          else if Byte.eqb c "*"%byte then
            match parseLen line with
            | inr e => Ret (inr e)
            | inl n =>
                if decide (n < 0) then Ret (inl (RNil, s))
                else match read_array (readReply_go fuel) (S (length s)) n s with
                     | Ret (inl (l, s)) => Ret (inl (RArray l, s))
                     | Ret (inr e) => Ret (inr e)
                     | Panic => Panic
                     | OutOfFuel => OutOfFuel
                     end
            end
          else Ret (inr (protocolError (bs "unexpected response line")))
      | Ret (inr e) => Ret (inr e)
      | Panic => Panic
      | OutOfFuel => OutOfFuel
      end
  end.
(** A reply is at least a line. *)
Definition readReply (s : bytes) : reading reply := readReply_go (S (length s)) s.

(** * A connection *)

(** The network and the server: the error of the [n]-th call of the network, how many of the
    commands of a failed write the server still got, and what a command of a session does.
    A server answers each command with one reply, in the order of the commands. *)
Class Network (W : Type) := {
  net_error : nat -> option bytes;
  net_cut : nat -> nat;
  execute : nat -> bytes * list arg -> W -> reply * W
}.

(** The replies as the server writes them. *)
Fixpoint encode_reply (r : reply) : bytes :=
  match r with
  | RSimple s => "+"%byte :: s ++ CRLF
  | RError s => "-"%byte :: s ++ CRLF
  | RInt n => ":"%byte :: Itoa n ++ CRLF
  | RBulk s => writeString s
  | RNil => bs "$-1" ++ CRLF
  | RArray l => writeLen "*"%byte (len l) ++ concat (map encode_reply l)
  end.

(** A command: its name and arguments. *)
Definition command : Type := bytes * list arg.

(** [conn]: the commands that are still in the buffer of the writer, if only in part, how
    many bytes the buffer has, its error, which stays, and what the server has answered. *)
Record conn := {
  c_session : nat; c_pending : nat; c_err : option bytes;
  c_out : list command; c_buffered : Z; c_werr : option bytes; c_in : bytes
}.
#[export] Instance eta_conn : Settable conn := fun r =>
  {| c_session := c_session r; c_pending := c_pending r; c_err := c_err r; c_out := c_out r; c_buffered := c_buffered r;
     c_werr := c_werr r; c_in := c_in r |}.

(** The world behind the network: the server, with the commands it has executed and the
    sessions they came from, how often the network was called and the sessions opened. *)
Record World (W : Type) := { server : W; executed : list (nat * command); net_calls : nat; sessions : nat }.
Arguments server {W}. Arguments executed {W}. Arguments net_calls {W}. Arguments sessions {W}.
#[export] Instance eta_World {W} : Settable (World W) := fun r =>
  {| server := server r; executed := executed r; net_calls := net_calls r; sessions := sessions r |}.

Section Connection.
Context {W : Type} {N : Network W}.
Implicit Types (c : conn) (w : World W).

Definition Dial w : (conn + bytes) * World W :=
  let next := w <| net_calls := S (net_calls w) |> in
  match net_error (net_calls w) with
  | Some e => (inr e, next)
  | None =>
      (inl {| c_session := sessions w; c_pending := 0; c_err := None; c_out := []; c_buffered := 0; c_werr := None; c_in := [] |},
       next <| sessions := S (sessions w) |>)
  end.

(** The first error closes the connection. *)
Definition fatal c (err : bytes) : conn := match c_err c with Some _ => c | None => c <| c_err := Some err |> end.
Definition Close c : conn := match c_err c with Some _ => c | None => c <| c_err := Some (bs "redigo: closed") |> end.

(** The server executes commands and answers them. *)
Fixpoint serve (session : nat) (cmds : list command) w : bytes * World W :=
  match cmds with
  | [] => ([], w)
  | cmd :: cmds =>
      let '(r, s) := execute session cmd (server w) in
      let '(t, w) := serve session cmds (w <| server := s |> <| executed := executed w ++ [(session, cmd)] |>) in
      (encode_reply r ++ t, w)
  end.

(** The buffered bytes are written: the commands whose end they have are executed. *)
Definition write_out c w : option bytes * (conn * World W) :=
  let next := w <| net_calls := S (net_calls w) |> in
  match c_err c with
  | Some _ => let e := bs "use of closed network connection" in (Some e, (c <| c_werr := Some e |>, w))
  | None =>
      match net_error (net_calls w) with
      | Some e =>
          let '(_, w) := serve (c_session c) (take (net_cut (net_calls w)) (c_out c)) next in
          (Some e, (c <| c_werr := Some e |>, w))
      | None =>
          let '(t, w) := serve (c_session c) (c_out c) next in
          (None, (c <| c_out := [] |> <| c_in := c_in c ++ t |>, w))
      end
  end.

(** [writeCommand] into the buffer of 4096 bytes, which is written out as often as it is full
    and more is to come (as one call here, and with the commands before this one complete). *)
Definition buffer_command c (cmd : bytes) (args : list arg) w : option bytes * (conn * World W) :=
  match c_werr c with
  | Some e => (Some e, (c, w))
  | None =>
      let total := c_buffered c + len (writeCommand cmd args) in
      let writes := (total - 1) / 4096 in
      if decide (writes > 0) then
        match write_out c w with
        | (Some e, st) => (Some e, st)
        | (None, (c, w)) =>
            (None, (c <| c_out := c_out c ++ [(cmd, args)] |> <| c_buffered := total - 4096 * writes |>, w))
        end
      else (None, (c <| c_out := c_out c ++ [(cmd, args)] |> <| c_buffered := total |>, w))
  end.

Definition bw_Flush c w : option bytes * (conn * World W) :=
  match c_werr c with
  | Some e => (Some e, (c, w))
  | None =>
      if decide (c_buffered c = 0) then (None, (c, w))
      else match write_out c w with
           | (Some e, st) => (Some e, st)
           | (None, (c, w)) => (None, (c <| c_buffered := 0 |>, w))
           end
  end.

(** One reply is read; of a closed connection nothing is read any more. *)
Definition read_reply c w : (reply + bytes) * (conn * World W) :=
  let next := w <| net_calls := S (net_calls w) |> in
  match c_err c with
  | Some _ => (inr (bs "use of closed network connection"), (c, w))
  | None =>
      match net_error (net_calls w) with
      | Some e => (inr e, (c, next))
      | None =>
          match readReply (c_in c) with
          | Ret (inl (r, rest)) => (inl r, (c <| c_in := rest |>, next))
          | Ret (inr e) => (inr e, (c, next))
          | _ => (inr timeout, (c, next))      (* never, by [readReply_total] *)
          end
      end
  end.

Definition Send c (cmd : bytes) (args : list arg) w : option bytes * (conn * World W) :=
  let c := c <| c_pending := S (c_pending c) |> in
  match buffer_command c cmd args w with
  | (Some e, (c, w)) => (Some e, (fatal c e, w))
  | r => r
  end.

Definition Flush c w : option bytes * (conn * World W) :=
  match bw_Flush c w with
  | (Some e, (c, w)) => (Some e, (fatal c e, w))
  | r => r
  end.

Definition Receive c w : (reply + bytes) * (conn * World W) :=
  match read_reply c w with
  | (inr e, (c, w)) => (inr e, (fatal c e, w))
  | (inl r, (c, w)) =>
      let c := c <| c_pending := pred (c_pending c) |> in
      (match r with RError e => inr e | _ => inl r end, (c, w))
  end.

(** The replies to the commands that were pending, and the one to the command of [Do]; the
    result is the last reply, or the first error among all. *)
Fixpoint read_pending (pending : nat) (err : option bytes) c w : (reply + bytes) * (conn * World W) :=
  match read_reply c w with
  | (inr e, (c, w)) => (inr e, (fatal c e, w))
  | (inl r, (c, w)) =>
      let err := match err, r with None, RError e => Some e | _, _ => err end in
      match pending with
      | O => (match err with Some e => inr e | None => inl r end, (c, w))
      | S pending => read_pending pending err c w
      end
  end.

(** [Do] of a command, which is not the empty one. *)
Definition Do c (cmd : bytes) (args : list arg) w : (reply + bytes) * (conn * World W) :=
  let pending := c_pending c in
  let c := c <| c_pending := 0%nat |> in
  let '(_, (c, w)) := buffer_command c cmd args w in
  match bw_Flush c w with
  | (Some e, (c, w)) => (inr e, (fatal c e, w))
  | (None, (c, w)) => read_pending pending None c w
  end.
End Connection.

(** * Conversions of replies (reply.go) *)

Definition ErrNil : bytes := bs "redigo: nil returned".
Definition unexpected (what : string) : bytes := bs "redigo: unexpected type for " ++ bs what.

(** [redis.String] and [redis.Strings] of the two results of [Do]; the error names the Go
    type of the reply, which is left out here. *)
Definition reply_String (r : reply + bytes) : bytes + bytes :=
  match r with
  | inr e => inr e
  | inl (RBulk s) | inl (RSimple s) => inl s
  | inl RNil => inr ErrNil
  | inl (RError e) => inr e
  | inl _ => inr (unexpected "String")
  end.

Fixpoint bulk_strings (l : list reply) : bytes + list bytes :=
  match l with
  | [] => inr []
  | r :: l =>
      match r, bulk_strings l with
      | _, inl e => inl e
      | RNil, inr t => inr ([] :: t)
      | RBulk s, inr t => inr (s :: t)
      | _, _ => inl (bs "redigo: unexpected element type for Strings")
      end
  end.
Definition reply_Strings (r : reply + bytes) : list bytes + bytes :=
  match r with
  | inr e => inr e
  | inl (RArray l) => match bulk_strings l with inr t => inl t | inl e => inr e end
  | inl RNil => inr ErrNil
  | inl (RError e) => inr e
  | inl _ => inr (unexpected "Strings")
  end.

(** * Reading what was written *)

(** [readLine] takes a line from a longer input. *)
Lemma readLine_shorter s l rest : readLine s = Ret (inl (l, rest)) -> (length rest < length s)%nat.
Proof.
  unfold readLine. destruct (index_nat s [x0a]) as [i|] eqn:E; [|by case_decide]. case_decide; [|done].
  destruct (last (take i s)); [|done]. destruct (Byte.eqb _ _); [|done]. intros [= _ <-].
  apply index_nat_spec in E as (_ & _ & Hl). rewrite length_drop. cbn in Hl. lia.
Qed.

Lemma readLine_ret s : exists r, readLine s = Ret r.
Proof. unfold readLine. repeat case_match; eauto. Qed.

(** A line that can be sent: no line feed, and at most what the reader's buffer has room for. *)
Definition line_ok (l : bytes) : Prop := Forall (fun b => b <> x0a) l /\ len l + 2 <= 4096.

Lemma index_lf l rest : Forall (fun b => b <> x0a) l -> index_nat (l ++ x0a :: rest) [x0a] = Some (length l).
Proof.
  induction 1 as [|b l Hb _ IH]; [by destruct rest|]. cbn [app index_nat has_prefix].
  destruct (Byte.eqb x0a b) eqn:E; [apply beqb_eq in E; congruence|]. cbn [andb]. by rewrite IH.
Qed.

Lemma readLine_crlf l rest : line_ok l -> readLine (l ++ CRLF ++ rest) = Ret (inl (l, rest)).
Proof.
  intros [Hl Hn]. unfold readLine. change (l ++ CRLF ++ rest) with (l ++ [x0d] ++ x0a :: rest). rewrite app_assoc.
  rewrite index_lf by (apply Forall_app_2; [done|by repeat constructor]).
  rewrite decide_True by (unfold len in Hn; rewrite length_app; cbn; lia).
  rewrite take_app_length, last_snoc. cbn [Byte.eqb]. rewrite beqb_refl, removelast_last. do 3 f_equal.
  change (x0a :: rest) with ([x0a] ++ rest). rewrite app_assoc. rewrite drop_app_length'; [done|]. rewrite !length_app. cbn. lia.
Qed.

(** ** Numbers *)

Lemma int64_cong x y k : x = y + k * 2 ^ 64 -> int64_of x = int64_of y.
Proof. intros ->. unfold wrapS. rewrite <- (Z.mod_add (y + 2 ^ (64 - 1)) k) by done. do 2 f_equal. lia. Qed.
Lemma int64_rep z : exists k, int64_of z = z + k * 2 ^ 64.
Proof. exists (- ((z + 2 ^ (64 - 1)) / 2 ^ 64)). unfold wrapS. rewrite Z.mod_eq by done. lia. Qed.

Lemma int64_step n d : int64_of (int64_of (int64_of n * 10) + d) = int64_of (n * 10 + d).
Proof.
  destruct (int64_rep n) as [k ->], (int64_rep ((n + k * 2 ^ 64) * 10)) as [k2 ->].
  apply (int64_cong _ _ (k * 10 + k2)). lia.
Qed.

Definition decimal_from (n : option Z) (p : bytes) : option Z :=
  foldl (fun acc b => n ← acc; if decide (48 <= u8 b <= 57) then Some (int64_of (int64_of (n * 10) + (u8 b - 48))) else None) n p.

Lemma decimal_utoa_go fuel n acc :
  0 <= n -> (Z.to_nat (Z.log2 n) < fuel)%nat -> decimal_from (Some 0) (utoa_go fuel n acc) = decimal_from (Some (int64_of n)) acc.
Proof.
  revert n acc. induction fuel as [|fuel IH]; intros n acc Hn Hf; [lia|]. cbn [utoa_go].
  pose proof (digit_range n) as Hd. assert (u8 (digit n) - 48 = n mod 10) as Ed.
  { unfold digit. rewrite u8_to_byte, Z.mod_small; pose proof (Z.mod_pos_bound n 10 eq_refl); lia. }
  case_decide as Hs.
  - unfold decimal_from. cbn [foldl mbind option_bind]. rewrite decide_True, Ed, Z.mod_small by lia. done.
  - assert (Z.log2 (n / 10) < Z.log2 n).
    { apply Z.log2_lt_pow2; [apply Z.div_str_pos; lia|]. pose proof (Z.log2_spec n ltac:(lia)) as [_ Hl].
      rewrite Z.pow_succ_r in Hl by apply Z.log2_nonneg. apply Z.div_lt_upper_bound; [lia|]. nia. }
    pose proof (Z.log2_nonneg (n / 10)). rewrite IH by (lia || apply Z.div_pos; lia).
    unfold decimal_from. cbn [foldl mbind option_bind]. rewrite decide_True, Ed, int64_step by lia. do 3 f_equal.
    pose proof (Z.div_mod n 10). lia.
Qed.

Lemma decimal_utoa n : 0 <= n -> parse_decimal (utoa n) = Some (int64_of n).
Proof. intros Hn. apply (decimal_utoa_go _ n []); [done|lia]. Qed.

Lemma int64_small n : - 2 ^ 63 <= n < 2 ^ 63 -> int64_of n = n.
Proof. intros H. apply wrapS_small; [done|exact H]. Qed.

Lemma parseLen_utoa n : 0 <= n < 2 ^ 63 -> parseLen (utoa n) = inl n.
Proof.
  intros Hn. unfold parseLen. destruct (utoa_cons n) as (c & t & E & Hc). rewrite E. rewrite decide_False by done.
  rewrite decide_False by (intros [= -> _]; revert Hc; vm_compute; intuition congruence).
  rewrite <- E, decimal_utoa, int64_small by lia. done.
Qed.

Lemma parseInt_Itoa n : - 2 ^ 63 <= n < 2 ^ 63 -> parseInt (Itoa n) = inl n.
Proof.
  intros Hn. unfold parseInt, Itoa. destruct (utoa_cons (- n)) as (c & t & E & Hc), (utoa_cons n) as (c' & t' & E' & Hc').
  destruct (decide (n < 0)).
  - rewrite beqb_refl, E, decide_False, <- E, decimal_utoa by (done || lia). f_equal.
    destruct (int64_rep (- n)) as [k ->]. rewrite <- (int64_small n) by lia. apply (int64_cong _ _ (- k)). rewrite int64_small; lia.
  - rewrite E'. destruct (Byte.eqb c' "-"%byte) eqn:Ec; [apply beqb_eq in Ec; subst c'; exfalso; revert Hc'; vm_compute; intuition congruence|].
    rewrite decide_False, <- E', decimal_utoa, int64_small by (done || lia). done.
Qed.

(** ** Replies *)

(** A reply that the protocol and the reader's buffer have room for. *)
Fixpoint reply_ok (r : reply) : Prop :=
  match r with
  | RSimple s | RError s => Forall (fun b => b <> x0a) s /\ len s + 3 <= 4096
  | RInt n => - 2 ^ 63 <= n < 2 ^ 63
  | RBulk s => len s < 2 ^ 63
  | RNil => True
  | RArray l => len l < 2 ^ 63 /\ (fix all l := match l with [] => True | r :: l => reply_ok r /\ all l end) l
  end.
Lemma reply_ok_array l : reply_ok (RArray l) <-> len l < 2 ^ 63 /\ Forall reply_ok l.
Proof.
  cbn [reply_ok]. split; intros [Hl H]; (split; [exact Hl|]); clear Hl.
  - induction l as [|r l IH]; [apply Forall_nil_2|]. apply Forall_cons. split; [apply H|exact (IH (proj2 H))].
  - induction H as [|r l Hr _ IH]; [exact I|]. by split.
Qed.

Lemma reply_tree (P : reply -> Prop) :
  (forall r, match r with RArray l => Forall P l | _ => True end -> P r) -> forall r, P r.
Proof.
  intros H. fix go 1. intros [s|s|n|s| |l]; apply H; try exact I.
  induction l as [|r l IH]; [apply Forall_nil_2|]. apply Forall_cons. split; [apply go|exact IH].
Qed.

Lemma utoa_go_length fuel k n acc :
  0 <= n < 10 ^ Z.of_nat (S k) -> (length (utoa_go fuel n acc) <= S k + length acc)%nat.
Proof.
  revert k n acc. induction fuel as [|fuel IH]; intros k n acc Hn; cbn [utoa_go]; [lia|]. case_decide; [cbn; lia|].
  destruct k as [|k]; [change (10 ^ Z.of_nat 1) with 10 in Hn; lia|].
  specialize (IH k (n / 10) (digit n :: acc)). cbn [length] in IH. enough (0 <= n / 10 < 10 ^ Z.of_nat (S k)) by (specialize (IH H0); lia).
  replace (Z.of_nat (S (S k))) with (1 + Z.of_nat (S k)) in Hn by lia. rewrite Z.pow_add_r in Hn by lia.
  split; [apply Z.div_pos; lia|apply Z.div_lt_upper_bound; lia].
Qed.

Lemma Itoa_length n : - 2 ^ 64 < n < 2 ^ 64 -> (length (Itoa n) <= 21)%nat.
Proof.
  intros Hn. assert (forall m, 0 <= m < 2 ^ 64 -> (length (utoa m) <= 20)%nat) as H.
  { intros m Hm. unfold utoa. pose proof (utoa_go_length (S (Z.to_nat (Z.log2 m))) 19 m []) as H. cbn [length] in H.
    change (10 ^ Z.of_nat 20) with 100000000000000000000 in H. lia. }
  unfold Itoa. case_decide; cbn [length]; [specialize (H (- n))|specialize (H n)]; lia.
Qed.

Lemma Itoa_no_lf n : Forall (fun b => b <> x0a) (Itoa n).
Proof.
  assert (forall m, Forall (fun b => b <> x0a) (utoa m)) as H.
  { intros m. eapply Forall_impl; [apply utoa_go_digits, Forall_nil_2|]. cbn. intros b Hb ->. revert Hb. vm_compute. intuition congruence. }
  unfold Itoa. case_decide; [by apply Forall_cons|apply H].
Qed.

(** A number with its mark is a line. *)
Lemma number_line c n : c <> x0a -> - 2 ^ 64 < n < 2 ^ 64 -> line_ok (c :: Itoa n).
Proof.
  intros Hc Hn. split; [apply Forall_cons; split; [done|apply Itoa_no_lf]|]. pose proof (Itoa_length n Hn). unfold len. cbn [length]. lia.
Qed.

Lemma utoa_Itoa n : 0 <= n -> utoa n = Itoa n.
Proof. intros Hn. unfold Itoa. by rewrite decide_False by lia. Qed.

Lemma read_array_encode (read : bytes -> reading reply) F l : forall fuel rest,
  (forall r rest, r ∈ l -> (length (encode_reply r ++ rest) < F)%nat -> read (encode_reply r ++ rest) = Ret (inl (r, rest))) ->
  (length (concat (map encode_reply l) ++ rest) < F)%nat -> (length l <= fuel)%nat ->
  read_array read fuel (len l) (concat (map encode_reply l) ++ rest) = Ret (inl (l, rest)).
Proof.
  induction l as [|r l IH]; intros fuel rest Hr HF Hf; [by destruct fuel|]. destruct fuel as [|fuel]; [cbn in Hf; lia|].
  rewrite len_cons. pose proof (len_nonneg l). cbn [read_array map concat]. rewrite decide_False by lia.
  rewrite <- app_assoc. cbn [map concat] in HF. rewrite <- app_assoc in HF. rewrite Hr by (by left || done).
  replace (1 + len l - 1) with (len l) by lia. rewrite IH; [done| | |cbn in Hf; lia].
  - intros r' rest' H' H2. apply Hr; [by right|done].
  - rewrite length_app in HF. lia.
Qed.

Lemma encode_reply_length r : (1 <= length (encode_reply r))%nat.
Proof. destruct r; cbn; lia. Qed.

Lemma concat_length l : (length l <= length (concat (map encode_reply l)))%nat.
Proof.
  induction l as [|r l IH]; cbn; [done|]. rewrite length_app. pose proof (encode_reply_length r). lia.
Qed.

Lemma readReply_go_encode r : forall fuel rest,
  reply_ok r -> (length (encode_reply r ++ rest) < fuel)%nat -> readReply_go fuel (encode_reply r ++ rest) = Ret (inl (r, rest)).
Proof.
  induction r as [r IH] using reply_tree. intros [|fuel] rest Hok Hf; [lia|].
  assert (forall c s t, c <> x0a -> Forall (fun b => b <> x0a) s /\ len s + 3 <= 4096 -> readLine ((c :: s ++ CRLF) ++ t) = Ret (inl (c :: s, t))) as Hline.
  { intros c s t Hc [Hs Hn]. change ((c :: s ++ CRLF) ++ t) with (c :: (s ++ CRLF) ++ t). rewrite <- app_assoc.
    apply (readLine_crlf (c :: s)). split; [by apply Forall_cons|rewrite len_cons; lia]. }
  assert (forall c n t, c <> x0a -> - 2 ^ 64 < n < 2 ^ 64 -> readLine ((c :: Itoa n ++ CRLF) ++ t) = Ret (inl (c :: Itoa n, t))) as Hnum.
  { intros c n t Hc Hn. apply Hline; [done|]. destruct (number_line c n Hc Hn) as [[_ H]%Forall_cons Hl]. rewrite len_cons in Hl. split; [done|lia]. }
  destruct r as [s|s|n|s| |l]; cbn [encode_reply reply_ok] in *.
  - cbn [readReply_go]. by rewrite Hline.
  - cbn [readReply_go]. by rewrite Hline.
  - cbn [readReply_go]. rewrite Hnum by (done || lia). cbn. by rewrite parseInt_Itoa.
  - pose proof (len_nonneg s). unfold writeString, writeLen. rewrite utoa_Itoa by done. rewrite <- !app_assoc. cbn [readReply_go].
    rewrite Hnum by (done || lia). cbn [Byte.eqb]. change (Byte.eqb "$"%byte "+"%byte) with false. cbv iota.
    cbn [Byte.eqb]. rewrite <- utoa_Itoa, parseLen_utoa by lia. rewrite decide_False by lia.
    rewrite decide_False by (rewrite len_app; pose proof (len_nonneg (CRLF ++ rest)); lia).
    rewrite drop_len_app. change (CRLF ++ rest) with ([] ++ CRLF ++ rest). rewrite readLine_crlf by (split; [apply Forall_nil_2|done]).
    unfold len. by rewrite Nat2Z.id, take_app_length.
  - done.
  - apply reply_ok_array in Hok as [Hl Hok]. pose proof (len_nonneg l). unfold writeLen in *. rewrite utoa_Itoa in * by done.
    rewrite <- app_assoc in *. cbn [readReply_go]. rewrite Hnum by (done || lia). cbn [Byte.eqb].
    rewrite <- utoa_Itoa, parseLen_utoa by lia. destruct (decide (len l < 0)); [lia|].
    assert (read_array (readReply_go fuel) (S (length (concat (map encode_reply l) ++ rest))) (len l) (concat (map encode_reply l) ++ rest) =
      Ret (inl (l, rest))) as E; [|by rewrite E].
    apply (read_array_encode _ fuel).
    + intros r' rest' Hin Hf'. rewrite Forall_forall in IH, Hok. apply IH; auto.
    + cbn [app length] in Hf. rewrite !length_app in Hf. rewrite length_app. lia.
    + rewrite length_app. pose proof (concat_length l). lia.
Qed.

Lemma readReply_encode r rest : reply_ok r -> readReply (encode_reply r ++ rest) = Ret (inl (r, rest)).
Proof. intros H. apply readReply_go_encode; [done|lia]. Qed.

(** Reading ends, whatever the server sends. *)
Lemma readReply_go_total fuel s : (length s < fuel)%nat ->
  exists x, readReply_go fuel s = Ret x /\ forall r rest, x = inl (r, rest) -> (length rest < length s)%nat.
Proof.
  revert s. induction fuel as [|fuel IH]; intros s Hf; [lia|]. cbn [readReply_go].
  assert (forall fuel2 n s, (length s < fuel)%nat -> (length s < fuel2)%nat ->
    exists x, read_array (readReply_go fuel) fuel2 n s = Ret x /\ forall l rest, x = inl (l, rest) -> (length rest <= length s)%nat) as Harr.
  { clear -IH. induction fuel2 as [|fuel2 IH2]; intros n s Hs Hf2; [lia|]. cbn [read_array].
    case_decide; [eexists; split; [done|by intros ? ? [= _ <-]]|]. destruct (IH s Hs) as ([[r rest]|e] & -> & Hr); [|eexists; by split].
    specialize (Hr r rest eq_refl). destruct (IH2 (n - 1) rest) as ([[l rest2]|e] & -> & Hl); [lia..| |eexists; by split].
    eexists. split; [done|]. intros ? ? [= _ <-]. specialize (Hl l rest2 eq_refl). lia. }
  destruct (readLine_ret s) as [[[[|c line] s1]|e] E]; rewrite E; [eexists; by split| |eexists; by split].
  apply readLine_shorter in E.
  assert (forall x : reply * bytes + bytes, (forall r rest, x = inl (r, rest) -> (length rest <= length s1)%nat) ->
    exists y, Ret x = Ret y /\ forall r rest, y = inl (r, rest) -> (length rest < length s)%nat) as Hret.
  { intros x Hx. exists x. split; [done|]. intros r rest Er. specialize (Hx r rest Er). lia. }
  destruct (Byte.eqb c "+"%byte); [apply Hret; by intros ? ? [= _ <-]|].
  destruct (Byte.eqb c "-"%byte); [apply Hret; by intros ? ? [= _ <-]|].
  destruct (Byte.eqb c ":"%byte); [destruct (parseInt line); apply Hret; [by intros ? ? [= _ <-]|done]|].
  destruct (Byte.eqb c "$"%byte).
  { destruct (parseLen line) as [n|e]; [|by apply Hret]. case_decide; [apply Hret; by intros ? ? [= _ <-]|].
    case_decide; [by apply Hret|]. destruct (readLine_ret (drop (Z.to_nat n) s1)) as [[[[|? ?] s2]|e] E2]; rewrite E2; [|by apply Hret..].
    apply readLine_shorter in E2. rewrite length_drop in E2. apply Hret. intros ? ? [= _ <-]. lia. }
  destruct (Byte.eqb c "*"%byte); [|by apply Hret].
  destruct (parseLen line) as [n|e]; [|by apply Hret]. case_decide; [apply Hret; by intros ? ? [= _ <-]|].
  destruct (Harr (S (length s1)) n s1) as ([[l rest]|e] & -> & Hl); [lia..| |by apply Hret].
  apply Hret. intros ? ? [= _ <-]. by apply (Hl l).
Qed.

Lemma readReply_total s : exists x, readReply s = Ret x.
Proof. destruct (readReply_go_total (S (length s)) s) as (x & E & _); [lia|]. by exists x. Qed.

(** * The server's log *)

Section Log.
Context {W : Type} {N : Network W}.
Implicit Types (c : conn) (w : World W) (cmds done : list command).

(** What the server answers to commands. *)
Fixpoint answers (session : nat) cmds (s : W) : list reply * W :=
  match cmds with
  | [] => ([], s)
  | cmd :: cmds =>
      let '(r, s) := execute session cmd s in
      let '(rs, s) := answers session cmds s in (r :: rs, s)
  end.

(** The world after the server has executed commands, [n] calls of the network later. *)
Definition served (session : nat) cmds (n : nat) w : World W :=
  {| server := snd (answers session cmds (server w)); executed := executed w ++ map (pair session) cmds;
     net_calls := (n + net_calls w)%nat; sessions := sessions w |}.

Lemma serve_answers session cmds w :
  serve session cmds w = (concat (map encode_reply (fst (answers session cmds (server w)))), served session cmds 0 w).
Proof.
  revert w. induction cmds as [|cmd cmds IH]; intros w; cbn [serve answers].
  - unfold served. cbn. rewrite app_nil_r. by destruct w.
  - unfold served. cbn [answers]. destruct (execute session cmd (server w)) as [r s1]. rewrite IH. cbn [server set_field].
    unfold served. cbn. destruct (answers session cmds s1) as [rs s2]. cbn. by rewrite <- app_assoc.
Qed.

Lemma answers_app session cmds1 cmds2 s :
  answers session (cmds1 ++ cmds2) s =
  let '(rs1, s1) := answers session cmds1 s in let '(rs2, s2) := answers session cmds2 s1 in (rs1 ++ rs2, s2).
Proof.
  revert s. induction cmds1 as [|cmd cmds IH]; intros s; cbn [app answers]; [by destruct (answers _ _ _)|].
  destruct (execute session cmd s) as [r s1]. rewrite IH. destruct (answers session cmds s1) as [rs1 s2].
  by destruct (answers session cmds2 s2).
Qed.

Lemma answers_length session cmds s : length (fst (answers session cmds s)) = length cmds.
Proof.
  revert s. induction cmds as [|cmd cmds IH]; intros s; [done|]. cbn [answers]. destruct (execute session cmd s) as [r s1].
  specialize (IH s1). destruct (answers session cmds s1). cbn in *. by rewrite IH.
Qed.

Lemma answers_Forall (P : reply -> Prop) session cmds s :
  (forall cmd s, P (fst (execute session cmd s))) -> Forall P (fst (answers session cmds s)).
Proof.
  intros H. revert s. induction cmds as [|cmd cmds IH]; intros s; [apply Forall_nil_2|]. cbn [answers].
  pose proof (H cmd s) as Hr. destruct (execute session cmd s) as [r s1]. specialize (IH s1).
  destruct (answers session cmds s1). by apply Forall_cons.
Qed.

(** ** Whatever fails, commands are executed at most once and in order *)

(** The commands that may still be written. *)
Definition live c : list command := match c_werr c with None => c_out c | Some _ => [] end.

(** From [c] in [w] to [c'] in [w'], while the program adds commands. *)
Definition moves cmds c w c' w' : Prop :=
  exists done, map snd (executed w') = map snd (executed w) ++ done /\ done ++ live c' `sublist_of` live c ++ cmds.

Lemma moves_refl c c' w w' : executed w' = executed w -> live c' `sublist_of` live c -> moves [] c w c' w'.
Proof. intros E Hs. exists []. rewrite E, !app_nil_r. by split. Qed.

Lemma moves_trans cmds1 cmds2 c w c1 w1 c2 w2 :
  moves cmds1 c w c1 w1 -> moves cmds2 c1 w1 c2 w2 -> moves (cmds1 ++ cmds2) c w c2 w2.
Proof.
  intros (d1 & E1 & H1) (d2 & E2 & H2). exists (d1 ++ d2). rewrite E2, E1, <- !app_assoc. split; [done|].
  etrans; [apply sublist_app; [reflexivity|exact H2]|]. rewrite !app_assoc. apply sublist_app; [exact H1|reflexivity].
Qed.

Lemma moves_more cmds1 cmds2 c w c' w' : cmds1 `sublist_of` cmds2 -> moves cmds1 c w c' w' -> moves cmds2 c w c' w'.
Proof. intros Hs (d & E & H). exists d. split; [done|]. etrans; [exact H|]. by apply sublist_app. Qed.

Lemma map_snd_pair (session : nat) cmds : map snd (map (pair session) cmds) = cmds.
Proof. rewrite map_map. apply map_id. Qed.

Lemma write_out_moves c w e c' w' : c_werr c = None -> write_out c w = (e, (c', w')) ->
  moves [] c w c' w' /\ (c_werr c' = match e with Some _ => e | None => None end) /\ (e = None -> c_out c' = []).
Proof.
  intros Hw. unfold write_out, moves, live. rewrite Hw, app_nil_r. destruct (c_err c).
  - intros [= <- <- <-]. split; [|done]. exists []. rewrite app_nil_r. split; [done|apply sublist_nil_l].
  - destruct (net_error (net_calls w)) as [err|]; rewrite serve_answers; intros [= <- <- <-].
    + split; [|done]. exists (take (net_cut (net_calls w)) (c_out c)). cbn. rewrite map_app, map_snd_pair, app_nil_r. split; [done|apply sublist_take].
    + split; [|done]. exists (c_out c). cbn. rewrite map_app, map_snd_pair, Hw, app_nil_r. done.
Qed.

Lemma buffer_command_moves cmd args c w e c' w' : buffer_command c cmd args w = (e, (c', w')) -> moves [(cmd, args)] c w c' w'.
Proof.
  unfold buffer_command. destruct (c_werr c) as [err|] eqn:Hw.
  - intros [= <- <- <-]. apply (moves_more []); [apply sublist_nil_l|by apply moves_refl].
  - case_decide.
    + destruct (write_out c w) as [[err|] [c1 w1]] eqn:E; apply write_out_moves in E as (Hm & Hw1 & Ho); try done; intros [= <- <- <-].
      * apply (moves_more []); [apply sublist_nil_l|done].
      * specialize (Ho eq_refl). destruct Hm as (d & Hd & Hs). exists d. split; [exact Hd|]. unfold live in *. cbn. rewrite Hw1 in *.
        rewrite Ho in *. rewrite !app_nil_r in Hs. by apply sublist_app.
    + intros [= <- <- <-]. exists []. rewrite app_nil_r. split; [done|]. unfold live. cbn. by rewrite Hw.
Qed.

Lemma bw_Flush_moves c w e c' w' : bw_Flush c w = (e, (c', w')) -> moves [] c w c' w'.
Proof.
  unfold bw_Flush. destruct (c_werr c) as [err|] eqn:Hw; [intros [= <- <- <-]; by apply moves_refl|].
  case_decide; [intros [= <- <- <-]; by apply moves_refl|].
  destruct (write_out c w) as [[err|] [c1 w1]] eqn:E; apply write_out_moves in E as (Hm & Hw1 & Ho); try done; by intros [= <- <- <-].
Qed.

Lemma fatal_live c e : live (fatal c e) = live c.
Proof. unfold fatal, live. by destruct (c_err c). Qed.

Lemma fatal_moves cmds c w c' w' e : moves cmds c w c' w' -> moves cmds c w (fatal c' e) w'.
Proof. unfold moves. by rewrite fatal_live. Qed.

Lemma read_reply_moves c w r c' w' : read_reply c w = (r, (c', w')) -> moves [] c w c' w'.
Proof.
  unfold read_reply. intros E. assert (executed w' = executed w /\ live c' = live c) as [H1 H2].
  { destruct (c_err c); [by injection E as <- <- <-|]. destruct (net_error _); [by injection E as <- <- <-|].
    destruct (readReply (c_in c)) as [[[r0 rest]|e]| |]; by injection E as <- <- <-. }
  apply moves_refl; [done|by rewrite H2].
Qed.

Lemma Send_moves cmd args c w e c' w' : Send c cmd args w = (e, (c', w')) -> moves [(cmd, args)] c w c' w'.
Proof.
  unfold Send. intros E. change (moves [(cmd, args)] (c <| c_pending := S (c_pending c) |>) w c' w').
  destruct (buffer_command _ cmd args w) as [[err|] [c1 w1]] eqn:E1; apply buffer_command_moves in E1; injection E as <- <- <-; [by apply fatal_moves|done].
Qed.

Lemma Flush_moves c w e c' w' : Flush c w = (e, (c', w')) -> moves [] c w c' w'.
Proof.
  unfold Flush. destruct (bw_Flush c w) as [[err|] [c1 w1]] eqn:E; apply bw_Flush_moves in E; intros [= <- <- <-]; [by apply fatal_moves|done].
Qed.

Lemma Receive_moves c w r c' w' : Receive c w = (r, (c', w')) -> moves [] c w c' w'.
Proof.
  unfold Receive. destruct (read_reply c w) as [[r1|e] [c1 w1]] eqn:E; apply read_reply_moves in E; intros [= _ <- <-]; [exact E|by apply fatal_moves].
Qed.

Lemma read_pending_moves pending : forall err c w r c' w', read_pending pending err c w = (r, (c', w')) -> moves [] c w c' w'.
Proof.
  induction pending as [|n IH]; intros err c w r c' w'; cbn [read_pending];
    destruct (read_reply c w) as [[r1|e] [c1 w1]] eqn:E; apply read_reply_moves in E; cbv zeta.
  - by intros [= _ <- <-].
  - intros [= _ <- <-]. by apply fatal_moves.
  - intros H%IH. by apply (moves_trans [] [] c w c1 w1).
  - intros [= _ <- <-]. by apply fatal_moves.
Qed.

Lemma Do_moves cmd args c w r c' w' : Do c cmd args w = (r, (c', w')) -> moves [(cmd, args)] c w c' w'.
Proof.
  unfold Do. intros E. change (moves ([(cmd, args)] ++ []) (c <| c_pending := 0%nat |>) w c' w').
  destruct (buffer_command _ cmd args w) as [e [c1 w1]] eqn:E1. apply buffer_command_moves in E1.
  apply (moves_trans _ _ _ _ c1 w1); [exact E1|].
  destruct (bw_Flush c1 w1) as [[err|] [c2 w2]] eqn:E2; apply bw_Flush_moves in E2.
  - injection E as _ <- <-. by apply fatal_moves.
  - apply read_pending_moves in E. by apply (moves_trans [] [] _ _ c2 w2).
Qed.
End Log.

(** * Commands in flight *)

Section Calm.
Context {W : Type} {N : Network W}.
Implicit Types (c : conn) (w : World W) (cmds : list command).

(** The network does not fail, and every reply fits the reader. *)
Definition quiet : Prop := (forall n, net_error n = None) /\ forall session cmd s, reply_ok (fst (execute session cmd s)).

(** A connection of which the replies [rs] are still to be read, and [n] commands were sent
    and are not accounted for. *)
Record unread (rs : list reply) (n : nat) c : Prop := {
  un_open : c_err c = None /\ c_werr c = None;
  un_in : c_in c = concat (map encode_reply rs) /\ Forall reply_ok rs;
  un_pending : c_pending c = n;
  un_buffer : 0 <= c_buffered c /\ (c_buffered c = 0 <-> c_out c = [])
}.

Lemma writeCommand_length cmd args : 0 < len (writeCommand cmd args).
Proof.
  unfold writeCommand, writeLen. cbn [app]. rewrite len_cons.
  pose proof (len_nonneg ((utoa (1 + len args) ++ CRLF) ++ writeString cmd ++ concat (map (fun a => writeString (arg_text a)) args))). lia.
Qed.

Lemma answers_ok session cmds s : quiet -> Forall reply_ok (fst (answers session cmds s)).
Proof. intros [_ H]. by apply answers_Forall. Qed.

Lemma unread_answers rs n c cmds w : quiet -> unread rs n c ->
  forall c', c_err c' = None /\ c_werr c' = None -> c_pending c' = n ->
    c_in c' = c_in c ++ concat (map encode_reply (fst (answers (c_session c) cmds (server w)))) ->
    0 <= c_buffered c' /\ (c_buffered c' = 0 <-> c_out c' = []) ->
    unread (rs ++ fst (answers (c_session c) cmds (server w))) n c'.
Proof.
  intros Hq [_ [Hi Hok] _ _] c' Ho Hp Hin Hb. split; [done| |done|done].
  rewrite Hin, Hi, map_app, concat_app. split; [done|]. apply Forall_app_2; [done|by apply answers_ok].
Qed.

Lemma write_out_calm c w : quiet -> c_err c = None ->
  write_out c w = (None, (c <| c_out := [] |> <| c_in := c_in c ++ concat (map encode_reply (fst (answers (c_session c) (c_out c) (server w)))) |>,
                          served (c_session c) (c_out c) 1 w)).
Proof. intros [Hn _] He. unfold write_out. rewrite He, Hn, serve_answers. done. Qed.

(** A command joins the ones in the buffer, which may be written out before. *)
Lemma buffer_command_calm rs n c cmd args w : quiet -> unread rs n c ->
  exists written c' k, buffer_command c cmd args w = (None, (c', served (c_session c) written k w)) /\ c_session c' = c_session c /\
    written ++ c_out c' = c_out c ++ [(cmd, args)] /\ unread (rs ++ fst (answers (c_session c) written (server w))) n c' /\
    c_buffered c' <> 0.
Proof.
  intros Hq Hu. pose proof Hu as [[He Hw] [Hi Hok] Hp [Hb Hb0]]. unfold buffer_command. rewrite Hw.
  set (total := c_buffered c + _). pose proof (writeCommand_length cmd args) as Hl.
  case_decide as Hd.
  - rewrite write_out_calm by done. exists (c_out c). eexists _, _. split; [reflexivity|]. split; [done|]. split; [done|].
    assert (total - 4096 * ((total - 1) / 4096) = (total - 1) mod 4096 + 1) as E by (rewrite Z.mod_eq by done; lia).
    pose proof (Z.mod_pos_bound (total - 1) 4096 eq_refl).
    split; [|cbn; lia]. apply (unread_answers rs n c); [done..|]. cbn. split; [lia|]. split; [lia|done].
  - exists []. eexists _, 0%nat. split.
    { unfold served. cbn. rewrite app_nil_r. destruct w. reflexivity. }
    split; [done|]. split; [done|]. cbn [answers fst]. rewrite app_nil_r.
    split; [|cbn; subst total; lia]. split; cbn; [done..|]. subst total. split; [lia|]. split; [lia|].
    intros E. by apply app_eq_nil in E as [_ ?].
Qed.

Lemma served_nil session w : served session [] 0 w = w.
Proof. unfold served. cbn. rewrite app_nil_r. by destruct w. Qed.

Lemma bw_Flush_calm rs n c w : quiet -> unread rs n c ->
  exists c' k, bw_Flush c w = (None, (c', served (c_session c) (c_out c) k w)) /\ c_session c' = c_session c /\ c_out c' = [] /\
    unread (rs ++ fst (answers (c_session c) (c_out c) (server w))) n c'.
Proof.
  intros Hq Hu. pose proof Hu as [[He Hw] [Hi Hok] Hp [Hb Hb0]]. unfold bw_Flush. rewrite Hw. case_decide as Hd.
  - apply Hb0 in Hd. exists c, 0%nat. rewrite Hd, served_nil. split; [done|]. split; [done|]. split; [done|]. cbn. by rewrite app_nil_r.
  - rewrite write_out_calm by done. eexists _, _. split; [reflexivity|]. split; [done|]. split; [done|].
    by apply (unread_answers rs n c).
Qed.

(** The oldest reply is read. *)
Lemma read_reply_calm r rs n c w : quiet -> unread (r :: rs) n c ->
  exists c', read_reply c w = (inl r, (c', w <| net_calls := S (net_calls w) |>)) /\ unread rs n c' /\
    c_session c' = c_session c /\ c_out c' = c_out c.
Proof.
  intros [Hn _] [[He Hw] [Hi Hok] Hp Hb]. unfold read_reply. rewrite He, Hn, Hi. cbn [map concat].
  apply Forall_cons in Hok as [Hr Hok]. rewrite readReply_encode by done. eexists. split; [reflexivity|]. by split; [split|].
Qed.

Lemma Send_calm rs n c cmd args w : quiet -> unread rs n c ->
  exists written c' k, Send c cmd args w = (None, (c', served (c_session c) written k w)) /\ c_session c' = c_session c /\
    written ++ c_out c' = c_out c ++ [(cmd, args)] /\ unread (rs ++ fst (answers (c_session c) written (server w))) (S n) c' /\
    c_buffered c' <> 0.
Proof.
  intros Hq Hu. assert (unread rs (S n) (c <| c_pending := S (c_pending c) |>)) as Hu'.
  { destruct Hu as [Ho Hi Hp Hb]. split; [done..| |done]. cbn. by rewrite Hp. }
  destruct (buffer_command_calm rs (S n) _ cmd args w Hq Hu') as (written & c' & k & E & H).
  exists written, c', k. unfold Send. cbv zeta. by rewrite E.
Qed.

Lemma Flush_calm rs n c w : quiet -> unread rs n c ->
  exists c' k, Flush c w = (None, (c', served (c_session c) (c_out c) k w)) /\ c_session c' = c_session c /\ c_out c' = [] /\
    unread (rs ++ fst (answers (c_session c) (c_out c) (server w))) n c'.
Proof. intros Hq Hu. destruct (bw_Flush_calm rs n c w Hq Hu) as (c' & k & E & H). exists c', k. unfold Flush. by rewrite E. Qed.

Lemma Receive_calm r rs n c w : quiet -> unread (r :: rs) n c ->
  exists c', Receive c w = (match r with RError e => inr e | _ => inl r end, (c', w <| net_calls := S (net_calls w) |>)) /\
    c_session c' = c_session c /\ c_out c' = c_out c /\ unread rs (pred n) c'.
Proof.
  intros Hq Hu. destruct (read_reply_calm r rs n c w Hq Hu) as (c' & E & Hu' & Hs & Ho). unfold Receive. rewrite E.
  eexists. split; [reflexivity|]. split; [done|]. split; [done|]. destruct Hu' as [Hop Hi Hp Hb]. split; [done..| |done]. cbn. by rewrite Hp.
Qed.

(** The result of [Do]: the first error of the replies, or the last of them. *)
Fixpoint first_error (rs : list reply) : option bytes :=
  match rs with [] => None | RError e :: _ => Some e | _ :: rs => first_error rs end.
Definition do_result (rs : list reply) (r : reply) : reply + bytes :=
  match first_error (rs ++ [r]) with Some e => inr e | None => inl r end.

Lemma read_pending_calm r rs : forall err c w, quiet -> unread (rs ++ [r]) 0 c ->
  exists c' k, read_pending (length rs) err c w =
      (match err with Some e => inr e | None => do_result rs r end, (c', w <| net_calls := (k + net_calls w)%nat |>)) /\
    c_session c' = c_session c /\ c_out c' = c_out c /\ unread [] 0 c'.
Proof.
  induction rs as [|r1 rs IH]; intros err c w Hq Hu; cbn [app length read_pending] in *.
  - destruct (read_reply_calm r [] 0 c w Hq Hu) as (c' & E & Hu' & Hs & Ho). rewrite E. exists c', 1%nat. split; [|done].
    unfold do_result. by destruct err, r.
  - destruct (read_reply_calm r1 (rs ++ [r]) 0 c w Hq Hu) as (c1 & E & Hu1 & Hs1 & Ho1). rewrite E. cbv zeta.
    destruct (IH (match err, r1 with None, RError e => Some e | _, _ => err end) c1 (w <| net_calls := S (net_calls w) |>) Hq Hu1) as (c' & k & E' & Hs & Ho & Hu').
    exists c', (k + 1)%nat. rewrite E'. split; [|by rewrite Hs, Ho]. f_equal; [by destruct err, r1|]. cbv [set_field]. cbn. do 2 f_equal. lia.
Qed.

(** [Do] writes what is in the buffer and reads all the replies that are due. *)
Lemma Do_calm rs c cmd args w : quiet -> unread rs (length rs + length (c_out c)) c ->
  let rs' := fst (answers (c_session c) (c_out c ++ [(cmd, args)]) (server w)) in
  exists before r c' k, rs ++ rs' = before ++ [r] /\
    Do c cmd args w = (do_result before r, (c', served (c_session c) (c_out c ++ [(cmd, args)]) k w)) /\
    c_session c' = c_session c /\ c_out c' = [] /\ unread [] 0 c'.
Proof.
  intros Hq Hu rs'. assert (unread rs 0 (c <| c_pending := 0%nat |>)) as Hu0 by (destruct Hu; by split).
  destruct (buffer_command_calm rs 0 _ cmd args w Hq Hu0) as (written & c1 & k1 & E1 & Hs1 & Hw & Hu1 & _).
  change (c_session (c <| c_pending := 0%nat |>)) with (c_session c) in *. change (c_out (c <| c_pending := 0%nat |>)) with (c_out c) in Hw.
  destruct (bw_Flush_calm _ _ _ (served (c_session c) written k1 w) Hq Hu1) as (c2 & k2 & E2 & Hs2 & Ho2 & Hu2).
  unfold Do. rewrite E1, E2. rewrite Hs1 in *. rewrite <- app_assoc in Hu2.
  assert (fst (answers (c_session c) written (server w)) ++ fst (answers (c_session c) (c_out c1) (server (served (c_session c) written k1 w))) = rs') as Ers.
  { subst rs'. rewrite <- Hw, answers_app. unfold served. cbn [server]. destruct (answers (c_session c) written (server w)) as [rs1 s1]. cbn [fst snd].
    by destruct (answers (c_session c) (c_out c1) s1). }
  rewrite Ers in Hu2. destruct (exists_last (l := rs ++ rs')) as (before & r & Eb).
  { intros E%app_eq_nil. destruct E as [_ E]. apply (f_equal length) in E. subst rs'. rewrite answers_length, length_app in E. cbn in E. lia. }
  rewrite Eb in Hu2. destruct (read_pending_calm r before None c2 (served (c_session c) (c_out c1) k2 (served (c_session c) written k1 w)) Hq Hu2) as (c3 & k3 & E3 & Hs3 & Ho3 & Hu3).
  assert (length before = c_pending c) as Hlen.
  { apply (f_equal length) in Eb. rewrite !length_app in Eb. subst rs'. rewrite answers_length, length_app in Eb. cbn in Eb. destruct Hu as [_ _ -> _]. lia. }
  rewrite <- Hlen, E3. exists before, r, c3, (k3 + k2 + k1)%nat. split; [done|]. split; [|by rewrite Hs3, Ho3, Hs2].
  rewrite <- Hw. do 2 f_equal. unfold served. cbn. rewrite answers_app. destruct (answers (c_session c) written (server w)) as [rs1 s1]. cbn.
  destruct (answers (c_session c) (c_out c1) s1) as [rs2 s2]. cbn. cbv [set_field]. cbn. rewrite map_app, app_assoc. f_equal. lia.
Qed.
End Calm.
