(* ===== verification/RedisOut.v ===== *)
(** The Redis output: libbeat's outputs/redis/redis.go.  Events are queued and sent by a
    goroutine over a connection of Redigo.v, which others open again when it is lost; a second
    database of the server maps the addresses of the network to the names of the shippers.
    The goroutines take turns, each turn as far as its next wait. *)
From S2P Require Export Redigo Publisher.
From stdpp Require Import list.
#[local] Open Scope Z_scope.

(** * State *)

Inductive RedisDataType := RedisListType | RedisChannelType.
#[export] Instance RedisDataType_eq_dec : EqDecision RedisDataType.
Proof. solve_decision. Defined.

Record RedisQueueMsg := { index : bytes; msg : bytes }.

(** Durations are in nanoseconds. *)
Record RedisOutput := {
  Index : bytes; Conn : option conn;
  TopologyExpire : Z; ReconnectInterval : Z; Hostname : bytes; Password : bytes; Db : Z; DbTopology : Z;
  Timeout : Z; DataType : RedisDataType; FlushInterval : Z; flush_immediatelly : bool;
  TopologyMap : gmap bytes bytes; sendingQueue : list RedisQueueMsg; connected : bool
}.
#[export] Instance eta_RedisOutput : Settable RedisOutput := fun r =>
  {| Index := Index r; Conn := Conn r; TopologyExpire := TopologyExpire r; ReconnectInterval := ReconnectInterval r;
     Hostname := Hostname r; Password := Password r; Db := Db r; DbTopology := DbTopology r; Timeout := Timeout r;
     DataType := DataType r; FlushInterval := FlushInterval r; flush_immediatelly := flush_immediatelly r;
     TopologyMap := TopologyMap r; sendingQueue := sendingQueue r; connected := connected r |}.
Definition new_RedisOutput : RedisOutput :=
  {| Index := []; Conn := None; TopologyExpire := 0; ReconnectInterval := 0; Hostname := []; Password := []; Db := 0; DbTopology := 0;
     Timeout := 0; DataType := RedisListType; FlushInterval := 0; flush_immediatelly := false;
     TopologyMap := ∅; sendingQueue := []; connected := false |}.

(** The output with the variable [pending] of its goroutine, the goroutines that run
    [Reconnect], and the network. *)
Record RedisWorld (W : Type) := { out : RedisOutput; pending : nat; reconnecting : nat; net : World W }.
Arguments out {W}. Arguments pending {W}. Arguments reconnecting {W}. Arguments net {W}.
#[export] Instance eta_RedisWorld {W} : Settable (RedisWorld W) := fun r =>
  {| out := out r; pending := pending r; reconnecting := reconnecting r; net := net r |}.

(** The fields of [MothershipConfig] that the output reads. *)
Record RedisConfig := {
  rc_Host : bytes; rc_Port : Z; rc_Password : bytes; rc_Index : bytes; rc_Db : Z; rc_Db_topology : Z; rc_Timeout : Z;
  rc_Reconnect_interval : Z; rc_DataType : bytes; rc_Flush_interval : option Z
}.

(** * Init, up to the connection *)

Definition Second : Z := 1000000000.
Definition Millisecond : Z := 1000000.
(** [time.Duration(n) * unit]. *)
Definition duration (n unit : Z) : Z := int64_of (n * unit).

Definition data_type (t : bytes) : option RedisDataType :=
  if decide (t = [] \/ t = bs "list") then Some RedisListType
  else if decide (t = bs "channel") then Some RedisChannelType
  else None.

Definition configured (o : RedisOutput) (c : RedisConfig) (topology_expire : Z) : RedisOutput :=
  let o := o <| Hostname := rc_Host c ++ bs ":" ++ Itoa (rc_Port c) |> in
  let o := if decide (rc_Password c <> []) then o <| Password := rc_Password c |> else o in
  let o := if decide (rc_Db c <> 0) then o <| Db := rc_Db c |> else o in
  let o := o <| DbTopology := if decide (rc_Db_topology c <> 0) then rc_Db_topology c else 1 |> in
  let o := o <| Timeout := if decide (rc_Timeout c <> 0) then duration (rc_Timeout c) Second else 5 * Second |> in
  let o := o <| Index := if decide (rc_Index c <> []) then rc_Index c else bs "packetbeat" |> in
  let o := o <| FlushInterval := 1000 * Millisecond |> in
  let o := match rc_Flush_interval c with
           | Some f => if decide (f < 0) then o <| flush_immediatelly := true |> else o <| FlushInterval := duration f Millisecond |>
           | None => o
           end in
  let o := o <| ReconnectInterval := if decide (rc_Reconnect_interval c <> 0) then duration (rc_Reconnect_interval c) Second else Second |> in
  o <| TopologyExpire := duration (if decide (topology_expire <> 0) then topology_expire else 15) Second |>.

(** * Connections *)

Section Output.
Context {W : Type} {N : Network W}.
Implicit Types (w : RedisWorld W) (o : RedisOutput) (n : World W).

(** A call of a connection, and the rest of the function unless it fails. *)
Definition call {A B} (f : conn -> World W -> (A + bytes) * (conn * World W))
    (k : conn -> World W -> (B + bytes) * World W) : conn -> World W -> (B + bytes) * World W :=
  fun c n => match f c n with
             | (inl _, (c, n)) => k c n
             | (inr e, (_, n)) => (inr e, n)
             end.

(** A connection of which a command fails is left open. *)
Definition RedisConnect o (db : Z) n : (conn + bytes) * World W :=
  match Dial n with
  | (inr e, n) => (inr e, n)
  | (inl c, n) =>
      let select := call (fun c n => Do c (bs "PING") [] n) (call (fun c n => Do c (bs "SELECT") [AInt db] n) (fun c n => (inl c, n))) in
      if decide (0 < len (Password o)) then call (fun c n => Do c (bs "AUTH") [AString (Password o)] n) select c n
      else select c n
  end.

(** [Conn] is assigned both results of [RedisConnect]: it is nil after an error. *)
Definition Connect w : option bytes * RedisWorld W :=
  match RedisConnect (out w) (Db (out w)) (net w) with
  | (inr e, n) => (Some e, w <| net := n |> <| out := out w <| Conn := None |> |>)
  | (inl c, n) => (None, w <| net := n |> <| out := out w <| Conn := Some c |> <| connected := true |> |>)
  end.

(** The loop sleeps for [ReconnectInterval] between its attempts. *)
Fixpoint Reconnect (attempts : nat) w : outcome (RedisWorld W) :=
  match attempts with
  | O => OutOfFuel
  | S attempts => match Connect w with
                  | (None, w) => Ret w
                  | (Some _, w) => Reconnect attempts w
                  end
  end.

Definition Close w : outcome (RedisWorld W) :=
  match Conn (out w) with
  | None => Panic
  | Some c => Ret (w <| out := out w <| Conn := Some (Redigo.Close c) |> |>)
  end.

(** [Init] of an output starts its goroutine, when [Reconnect] returns. *)
Definition Init (attempts : nat) (config : RedisConfig) (topology_expire : Z) o n : outcome (RedisWorld W + bytes) :=
  let o := configured o config topology_expire in
  match data_type (rc_DataType config) with
  | None => Ret (inr (bs "Bad Redis data type"))
  | Some t =>
      match Reconnect attempts {| out := o <| DataType := t |> <| sendingQueue := [] |>; pending := 0; reconnecting := 0; net := n |} with
      | Ret w => Ret (inl w)
      | Panic => Panic
      | OutOfFuel => OutOfFuel
      end
  end.

(** ** SendMessagesGoroutine *)

(** [out.connected = false; go out.Reconnect()]. *)
Definition lost w : RedisWorld W := w <| out := out w <| connected := false |> |> <| reconnecting := S (reconnecting w) |>.

Definition with_conn (c : conn) n w : RedisWorld W := w <| out := out w <| Conn := Some c |> |> <| net := n |>.

Definition push_command o : bytes := match DataType o with RedisListType => bs "RPUSH" | RedisChannelType => bs "PUBLISH" end.

(** A message of the queue; a method of a nil interface panics. *)
Definition send_message (m : RedisQueueMsg) w : outcome (RedisWorld W) :=
  if connected (out w) then
    match Conn (out w) with
    | None => Panic
    | Some c =>
        let args := [AString (index m); AString (msg m)] in
        if flush_immediatelly (out w) then
          match Do c (push_command (out w)) args (net w) with
          | (inr _, (c, n)) => Ret (lost (with_conn c n w))
          | (inl _, (c, n)) => Ret (with_conn c n w)
          end
        else
          match Send c (push_command (out w)) args (net w) with
          | (Some _, (c, n)) => Ret (lost (with_conn c n w <| pending := S (pending w) |>))
          | (None, (c, n)) => Ret (with_conn c n w <| pending := S (pending w) |>)
          end
    end
  else Ret w.

Definition message_turn w : outcome (RedisWorld W) :=
  match sendingQueue (out w) with
  | [] => Ret w
  | m :: queue => send_message m (w <| out := out w <| sendingQueue := queue |> |>)
  end.

(** A tick of the flush timer; the error of [Flush] is not looked at. *)
Definition flush_turn w : outcome (RedisWorld W) :=
  match pending w with
  | O => Ret w
  | S _ =>
      match Conn (out w) with
      | None => Panic
      | Some c =>
          let '(_, (c, n)) := Flush c (net w) in
          match Receive c n with
          | (inr _, (c, n)) => Ret (lost (with_conn c n w) <| pending := 0%nat |>)
          | (inl _, (c, n)) => Ret (with_conn c n w <| pending := 0%nat |>)
          end
      end
  end.

(** An attempt of a goroutine that runs [Reconnect]. *)
Definition reconnect_turn w : RedisWorld W :=
  match Connect w with
  | (Some _, w) => w
  | (None, w) => w <| reconnecting := pred (reconnecting w) |>
  end.

(** ** The methods of the interface *)

Definition GetNameByIP (ip : bytes) w : bytes := default [] (TopologyMap (out w) !! ip).

(** The loop over the names that the server has. *)
Fixpoint shipper_addrs (hostnames : list bytes) (m : gmap bytes bytes) (c : conn) n : gmap bytes bytes * (conn * World W) :=
  match hostnames with
  | [] => (m, (c, n))
  | hostname :: hostnames =>
      let '(res, (c, n)) := Do c (bs "HGET") [AString hostname; AString (bs "ipaddrs")] n in
      let m := match reply_String res with
               | inr _ => m
               | inl res => foldl (fun m addr => <[addr := hostname]> m) m (Split res ","%byte)
               end in
      shipper_addrs hostnames m c n
  end.

Definition UpdateLocalTopologyMap (c : conn) w : RedisWorld W :=
  let '(res, (c, n)) := Do c (bs "KEYS") [AString (bs "*")] (net w) in
  match reply_Strings res with
  | inr _ => w <| net := n |>
  | inl hostnames =>
      let '(m, (_, n)) := shipper_addrs hostnames ∅ c n in
      w <| net := n |> <| out := out w <| TopologyMap := m |> |>
  end.

(** [int(out.TopologyExpire.Seconds())]; the duration is of whole seconds, unless the
    configured number is so large that it wrapped around. *)
Definition expire_seconds o : Z := Z.quot (TopologyExpire o) Second.

(** The connection is closed at the end. *)
Definition PublishIPs (name : bytes) (localAddrs : list bytes) w : option bytes * RedisWorld W :=
  match RedisConnect (out w) (DbTopology (out w)) (net w) with
  | (inr e, n) => (Some e, w <| net := n |>)
  | (inl c, n) =>
      match Do c (bs "HSET") [AString name; AString (bs "ipaddrs"); AString (GoStd.Join localAddrs (bs ","))] n with
      | (inr e, (_, n)) => (Some e, w <| net := n |>)
      | (inl _, (c, n)) =>
          match Do c (bs "EXPIRE") [AString name; AInt (expire_seconds (out w))] n with
          | (inr e, (_, n)) => (Some e, w <| net := n |>)
          | (inl _, (c, n)) => (None, UpdateLocalTopologyMap c (w <| net := n |>))
          end
      end
  end.

(** The queue has room for 1000 messages; the caller waits while it has none. *)
Definition queue_capacity : nat := 1000.
Definition message o (event : MapStr) : RedisQueueMsg := {| index := Index o; msg := Marshal event |}.
Definition PublishEvent (event : MapStr) w : RedisWorld W :=
  w <| out := out w <| sendingQueue := sendingQueue (out w) ++ [message (out w) event] |> |>.

(** ** Turns *)

Inductive action :=
| Publish (event : MapStr) | NextMessage | FlushTick | TryReconnect | Topology (name : bytes) (localAddrs : list bytes).

(** The turns that the goroutines can take. *)
Definition enabled (a : action) w : bool :=
  match a with
  | Publish _ => bool_decide (length (sendingQueue (out w)) < queue_capacity)%nat
  | NextMessage => bool_decide (sendingQueue (out w) <> [])
  | FlushTick => negb (flush_immediatelly (out w))
  | TryReconnect => bool_decide (reconnecting w <> 0%nat)
  | Topology _ _ => true
  end.

Definition turn (a : action) w : outcome (RedisWorld W) :=
  match a with
  | Publish event => Ret (PublishEvent event w)
  | NextMessage => message_turn w
  | FlushTick => flush_turn w
  | TryReconnect => Ret (reconnect_turn w)
  | Topology name localAddrs => Ret (snd (PublishIPs name localAddrs w))
  end.

(** What the turns of the goroutines make of a world. *)
Inductive runs w : list action -> RedisWorld W -> Prop :=
| runs_start : runs w [] w
| runs_turn acts w1 a w2 : runs w acts w1 -> enabled a w1 = true -> turn a w1 = Ret w2 -> runs w (acts ++ [a]) w2.

(** The same, computed. *)
Fixpoint run (acts : list action) w : option (RedisWorld W) :=
  match acts with
  | [] => Some w
  | a :: acts => if enabled a w then match turn a w with Ret w => run acts w | _ => None end else None
  end.

(** The events of the turns. *)
Definition published (acts : list action) : list MapStr := omap (fun a => match a with Publish event => Some event | _ => None end) acts.
End Output.

(** * Whatever fails, an event is pushed at most once and in order *)

Section AtMostOnce.
Context {W : Type} {N : Network W}.
Implicit Types (w : RedisWorld W) (o : RedisOutput) (n : World W) (c : conn) (cmds : list command).

(** The command of an event, and the commands that are of events. *)
Definition push_of o (event : MapStr) : command := (push_command o, [AString (Index o); AString (Marshal event)]).
Definition is_push (cmd : command) : Prop := fst cmd = bs "RPUSH" \/ fst cmd = bs "PUBLISH".
#[export] Instance is_push_dec cmd : Decision (is_push cmd).
Proof. unfold is_push. apply _. Defined.

Definition pushes cmds : list command := filter is_push cmds.
Definition pushed n : list command := pushes (map snd (executed n)).
#[local] Arguments pushes : simpl never.
#[local] Arguments pushed : simpl never.

Definition msg_command o (m : RedisQueueMsg) : command := (push_command o, [AString (index m); AString (msg m)]).

Lemma push_command_push o args : is_push (push_command o, args).
Proof. unfold is_push, push_command. cbn. destruct (DataType o); auto. Qed.

Lemma pushes_sublist cmds1 cmds2 : cmds1 `sublist_of` cmds2 -> pushes cmds1 `sublist_of` pushes cmds2.
Proof.
  unfold pushes. induction 1 as [|x l1 l2 _ IH|x l1 l2 _ IH]; [done| |]; rewrite ?filter_cons; case_decide; first [exact IH | by constructor].
Qed.

Lemma moves_pushes cmds c n c' n' : moves cmds c n c' n' ->
  exists done, pushed n' = pushed n ++ done /\ done ++ pushes (live c') `sublist_of` pushes (live c) ++ pushes cmds.
Proof.
  intros (done & E & H). exists (pushes done). unfold pushed. rewrite E. unfold pushes. rewrite <- !filter_app.
  split; [done|by apply pushes_sublist].
Qed.

(** ** Commands that are of no event *)

Definition silent n n' : Prop := pushed n' = pushed n.

Lemma Do_silent c cmd args n r c' n' : ~ is_push (cmd, args) -> pushes (live c) = [] -> Do c cmd args n = (r, (c', n')) ->
  silent n n' /\ pushes (live c') = [].
Proof.
  intros Hp Hc H%Do_moves%moves_pushes. destruct H as (d & E & Hs). unfold pushes in Hs at 3. rewrite Hc, filter_cons_False in Hs by done.
  apply sublist_nil_r in Hs. apply app_eq_nil in Hs as [-> Hs]. unfold silent. by rewrite E, app_nil_r.
Qed.

Definition quietly n (r : (conn + bytes) * World W) : Prop :=
  silent n (snd r) /\ match fst r with inl c => pushes (live c) = [] | inr _ => True end.

Lemma call_quietly cmd args (k : conn -> World W -> (conn + bytes) * World W) c n :
  ~ is_push (cmd, args) -> pushes (live c) = [] ->
  (forall c' n', pushes (live c') = [] -> quietly n' (k c' n')) ->
  quietly n (call (fun c n => Do c cmd args n) k c n).
Proof.
  intros Hp Hc Hk. unfold call. destruct (Do c cmd args n) as [[r|e] [c' n']] eqn:E; apply Do_silent in E as [Hs Hl]; try done.
  destruct (Hk c' n' Hl) as [Hs' Hl']. split; [|exact Hl']. unfold silent in *. congruence.
Qed.

Lemma RedisConnect_quietly o db n : quietly n (RedisConnect o db n).
Proof.
  unfold RedisConnect, Dial. destruct (net_error (net_calls n)); [done|].
  set (c0 := Build_conn _ _ _ _ _ _ _). set (n0 := set_field _ _).
  change (quietly n0 (if decide (0 < len (Password o)) then
     call (fun c n => Do c (bs "AUTH") [AString (Password o)] n) (call (fun c n => Do c (bs "PING") [] n)
       (call (fun c n => Do c (bs "SELECT") [AInt db] n) (fun c n => (inl c, n)))) c0 n0
   else call (fun c n => Do c (bs "PING") [] n) (call (fun c n => Do c (bs "SELECT") [AInt db] n) (fun c n => (inl c, n))) c0 n0)).
  assert (forall c n, pushes (live c) = [] ->
    quietly n (call (fun c n => Do c (bs "PING") [] n) (call (fun c n => Do c (bs "SELECT") [AInt db] n) (fun c n => (inl c, n))) c n)) as H.
  { intros c n1 Hc. apply call_quietly; [by intros []|done|]. intros c2 n2 H2. apply call_quietly; [by intros []|done|]. by intros c3 n3. }
  case_decide; [|by apply H]. apply call_quietly; [by intros []|done|exact H].
Qed.

Lemma shipper_addrs_silent hostnames : forall m c n m' c' n', pushes (live c) = [] ->
  shipper_addrs hostnames m c n = (m', (c', n')) -> silent n n'.
Proof.
  induction hostnames as [|h hs IH]; intros m c n m' c' n' Hc; cbn [shipper_addrs]; [by intros [= _ _ <-]|].
  destruct (Do c _ _ n) as [r [c1 n1]] eqn:E. apply Do_silent in E as [Hs Hl]; [|by intros []|done]. intros H%IH; [|done].
  unfold silent in *. congruence.
Qed.

Lemma PublishIPs_silent name addrs w : silent (net w) (net (snd (PublishIPs name addrs w))) /\
  exists m, out (snd (PublishIPs name addrs w)) = out w <| TopologyMap := m |>.
Proof.
  assert (exists m, out w = out w <| TopologyMap := m |>) as Hid by (exists (TopologyMap (out w)); by destruct (out w)).
  unfold PublishIPs. pose proof (RedisConnect_quietly (out w) (DbTopology (out w)) (net w)) as [Hs Hc].
  destruct (RedisConnect _ _ _) as [[c|e] n]; cbn [fst snd] in *; [|by split].
  destruct (Do c _ _ n) as [[r|e] [c1 n1]] eqn:E1; apply Do_silent in E1 as [Hs1 Hl1]; try done; try by intros []. 2: { unfold silent in *. split; [cbn; congruence|done]. }
  destruct (Do c1 _ _ n1) as [[r2|e] [c2 n2]] eqn:E2; apply Do_silent in E2 as [Hs2 Hl2]; try done; try by intros []. 2: { unfold silent in *. split; [cbn; congruence|done]. }
  unfold UpdateLocalTopologyMap. cbn [snd]. change (net (w <| net := n2 |>)) with n2.
  destruct (Do c2 _ _ n2) as [r3 [c3 n3]] eqn:E3. apply Do_silent in E3 as [Hs3 Hl3]; [|by intros []|done].
  destruct (reply_Strings r3) as [hs|e]; [|unfold silent in *; split; [cbn; congruence|done]].
  destruct (shipper_addrs hs ∅ c3 n3) as [m [c4 n4]] eqn:E4. apply shipper_addrs_silent in E4; [|done].
  split; [unfold silent in *; cbn; congruence|by exists m].
Qed.

Lemma PublishIPs_goroutines name addrs w :
  pending (snd (PublishIPs name addrs w)) = pending w /\ reconnecting (snd (PublishIPs name addrs w)) = reconnecting w.
Proof.
  unfold PublishIPs, UpdateLocalTopologyMap. destruct (RedisConnect _ _ _) as [[c|e] n]; [|done].
  destruct (Do c _ _ n) as [[r|e] [c1 n1]]; [|done]. destruct (Do c1 _ _ n1) as [[r2|e] [c2 n2]]; [|done]. cbn [snd].
  destruct (Do c2 _ _ _) as [r3 [c3 n3]]. destruct (reply_Strings r3); [|done]. by destruct (shipper_addrs _ _ _ _) as [m [c4 n4]].
Qed.

(** ** The invariant *)

Definition live_conn w : list command := match Conn (out w) with Some c => live c | None => [] end.
Definition queued w : list command := map (msg_command (out w)) (sendingQueue (out w)).

(** What was pushed and what still can be. *)
Definition on_their_way w : list command := pushed (net w) ++ pushes (live_conn w) ++ queued w.

Definition same_config o o' : Prop :=
  Index o' = Index o /\ DataType o' = DataType o /\ flush_immediatelly o' = flush_immediatelly o.

Record once o (events : list MapStr) w : Prop := {
  once_config : same_config o (out w);
  once_pushes : on_their_way w `sublist_of` map (push_of o) events
}.

Lemma msg_command_config o o' m : same_config o o' -> msg_command o' m = msg_command o m.
Proof. intros (_ & H & _). unfold msg_command, push_command. by rewrite H. Qed.

Lemma queued_config o w : same_config o (out w) -> queued w = map (msg_command o) (sendingQueue (out w)).
Proof. intros H. apply map_ext. intros m. by apply msg_command_config. Qed.

(** A turn that takes nothing from the queue and hands the connection over. *)
Lemma once_keeps o events w w' :
  same_config (out w) (out w') -> sendingQueue (out w') = sendingQueue (out w) ->
  pushed (net w') ++ pushes (live_conn w') `sublist_of` pushed (net w) ++ pushes (live_conn w) ->
  once o events w -> once o events w'.
Proof.
  intros Hc Hq Hs [Hw Hp]. assert (same_config o (out w')) as Hc' by (unfold same_config in *; intuition congruence).
  split; [done|]. etrans; [|exact Hp]. unfold on_their_way. rewrite !(queued_config o), Hq by done. rewrite !app_assoc.
  by apply sublist_app.
Qed.

Lemma reconnect_keeps o events w : once o events w -> once o events (snd (Connect w)).
Proof.
  unfold Connect. pose proof (RedisConnect_quietly (out w) (Db (out w)) (net w)) as [Hs Hc].
  destruct (RedisConnect _ _ _) as [[c|e] n]; cbn [fst snd] in *; apply once_keeps; try done; unfold live_conn, silent in *; cbn; rewrite Hs.
  - rewrite Hc. apply sublist_app; [done|apply sublist_nil_l].
  - apply sublist_app; [done|apply sublist_nil_l].
Qed.

Lemma with_conn_keeps o events w c c' n cmds :
  moves cmds c (net w) c' n -> pushes cmds = [] -> Conn (out w) = Some c -> once o events w -> once o events (with_conn c' n w).
Proof.
  intros Hm%moves_pushes Hn Hc. apply once_keeps; [done|done|]. destruct Hm as (d & E & Hs). unfold live_conn. cbn. rewrite Hc, E, <- app_assoc.
  rewrite Hn, app_nil_r in Hs. by apply sublist_app.
Qed.

Lemma lost_keeps o events w : once o events w -> once o events (lost w).
Proof. intros [Hc Hp]. by split. Qed.

Lemma pending_keeps o events w k : once o events w -> once o events (w <| pending := k |>).
Proof. intros [Hc Hp]. by split. Qed.

(** The message at the head of the queue goes to the connection. *)
Lemma send_keeps o events w c c' n m queue :
  moves [msg_command (out w) m] c (net w) c' n -> Conn (out w) = Some c -> sendingQueue (out w) = m :: queue ->
  once o events w -> once o events (with_conn c' n (w <| out := out w <| sendingQueue := queue |> |>)).
Proof.
  intros Hm%moves_pushes Hc Hq [Hw Hp]. split; [exact Hw|]. etrans; [|exact Hp]. unfold on_their_way, queued, live_conn.
  cbn. rewrite Hc, Hq. destruct Hm as (d & E & Hs). rewrite E, <- app_assoc. apply sublist_app; [done|].
  unfold pushes in Hs at 3. rewrite filter_cons_True in Hs by apply push_command_push. cbn [map].
  change (msg_command _ m :: ?l) with ([msg_command (out w) m] ++ l). rewrite !app_assoc. by apply sublist_app.
Qed.

Lemma drop_keeps o events w m queue :
  sendingQueue (out w) = m :: queue -> once o events w -> once o events (w <| out := out w <| sendingQueue := queue |> |>).
Proof.
  intros Hq [Hw Hp]. split; [exact Hw|]. etrans; [|exact Hp]. unfold on_their_way, queued. cbn. rewrite Hq. cbn [map].
  repeat apply sublist_app; [done..|]. by constructor.
Qed.

Lemma message_turn_keeps o events w w' : message_turn w = Ret w' -> once o events w -> once o events w'.
Proof.
  unfold message_turn. destruct (sendingQueue (out w)) as [|m queue] eqn:Hq; [by intros [= <-]|]. unfold send_message. intros E Ho.
  change (connected (out (w <| out := out w <| sendingQueue := queue |> |>))) with (connected (out w)) in E.
  change (Conn (out (w <| out := out w <| sendingQueue := queue |> |>))) with (Conn (out w)) in E.
  change (flush_immediatelly (out (w <| out := out w <| sendingQueue := queue |> |>))) with (flush_immediatelly (out w)) in E.
  change (push_command (out (w <| out := out w <| sendingQueue := queue |> |>))) with (push_command (out w)) in E.
  change (net (w <| out := out w <| sendingQueue := queue |> |>)) with (net w) in E.
  destruct (connected (out w)); [|injection E as <-; by eapply drop_keeps].
  destruct (Conn (out w)) as [c|] eqn:Hc; [|done]. destruct (flush_immediatelly (out w)).
  - destruct (Do c _ _ _) as [[r|e] [c' n]] eqn:Ed; apply Do_moves in Ed; injection E as <-; eapply send_keeps in Ho; eauto using lost_keeps, pending_keeps.
  - destruct (Send c _ _ _) as [[e|] [c' n]] eqn:Es; apply Send_moves in Es; injection E as <-; eapply send_keeps in Ho; eauto using lost_keeps, pending_keeps.
Qed.

Lemma flush_turn_keeps o events w w' : flush_turn w = Ret w' -> once o events w -> once o events w'.
Proof.
  unfold flush_turn. destruct (pending w); [by intros [= <-]|]. destruct (Conn (out w)) as [c|] eqn:Hc; [|done].
  destruct (Flush c (net w)) as [e1 [c1 n1]] eqn:E1. apply Flush_moves in E1.
  destruct (Receive c1 n1) as [r [c2 n2]] eqn:E2. apply Receive_moves in E2. pose proof (moves_trans _ _ _ _ _ _ _ _ E1 E2) as Hm.
  intros E Ho. assert (once o events (with_conn c2 n2 w)) as H by (by eapply with_conn_keeps).
  destruct r; injection E as <-; eauto using lost_keeps, pending_keeps.
Qed.

Lemma publish_keeps o events w event : once o events w -> once o (events ++ [event]) (PublishEvent event w).
Proof.
  intros [Hw Hp]. split; [exact Hw|]. unfold on_their_way in *.
  assert (queued (PublishEvent event w) = queued w ++ [msg_command (out w) (message (out w) event)]) as -> by exact (map_app _ _ _).
  assert (msg_command (out w) (message (out w) event) = push_of o event) as ->.
  { rewrite (msg_command_config o) by done. unfold msg_command, push_of, message. cbn. by destruct Hw as (-> & _). }
  change (net (PublishEvent event w)) with (net w). change (live_conn (PublishEvent event w)) with (live_conn w).
  rewrite map_app. cbn [map].
  rewrite !app_assoc in *. by apply sublist_app.
Qed.

Lemma turn_keeps o events w a w' : turn a w = Ret w' -> once o events w -> once o (events ++ published [a]) w'.
Proof.
  intros E Ho. destruct a; cbn [published omap list_omap]; rewrite ?app_nil_r; cbn [turn] in E.
  - injection E as <-. by apply publish_keeps.
  - by eapply message_turn_keeps.
  - by eapply flush_turn_keeps.
  - injection E as <-. unfold reconnect_turn. pose proof (reconnect_keeps o events w Ho) as H. destruct (Connect w) as [[e|] w1]; [exact H|]. destruct H as [Hc Hp]. by split.
  - injection E as <-. destruct (PublishIPs_silent name localAddrs w) as [Hs [m Hm]]. revert Ho. apply once_keeps.
    + by rewrite Hm.
    + by rewrite Hm.
    + unfold live_conn. rewrite Hm, Hs. done.
Qed.

Lemma Reconnect_keeps o events attempts : forall w w', Reconnect attempts w = Ret w' -> once o events w -> once o events w'.
Proof.
  induction attempts as [|k IH]; intros w w'; cbn [Reconnect]; [done|]. intros E Ho%reconnect_keeps.
  destruct (Connect w) as [[e|] w1]; [by eapply IH|by injection E as <-].
Qed.

Lemma configured_Conn o config te : Conn (configured o config te) = Conn o.
Proof. unfold configured. repeat case_decide; destruct (rc_Flush_interval config); try case_decide; done. Qed.

Lemma Init_once attempts config te n w : executed n = [] -> Init attempts config te new_RedisOutput n = Ret (inl w) ->
  once (out w) [] w.
Proof.
  unfold Init. intros Hn. destruct (data_type _) as [t|]; [|done]. set (w0 := Build_RedisWorld _ _ _ _ _).
  destruct (Reconnect attempts w0) as [w1| |] eqn:E; [|done..]. intros [= <-].
  assert (once (out w0) [] w0) as H0.
  { split; [done|]. unfold on_their_way, pushed, queued, live_conn.
    change (Conn (out w0)) with (Conn (configured new_RedisOutput config te)). rewrite configured_Conn.
    change (executed (net w0)) with (executed n). by rewrite Hn. }
  eapply Reconnect_keeps in H0 as [Hc Hp]; [|exact E]. split; [done|]. exact Hp.
Qed.

Lemma runs_once o events w acts w' : once o events w -> runs w acts w' -> once o (events ++ published acts) w'.
Proof.
  intros Ho. induction 1 as [|acts w1 a w2 _ IH _ Ht]; [by rewrite app_nil_r|]. eapply turn_keeps in IH; [|exact Ht].
  unfold published in *. by rewrite omap_app, app_assoc.
Qed.

(** C36: Whatever calls of the network fail, whenever goroutines reconnect and however the
    turns are ordered: no event is pushed twice, none overtakes another, and nothing is
    pushed that was not published. *)
Theorem pushed_once_in_order attempts config te n w acts w' :
  executed n = [] -> Init attempts config te new_RedisOutput n = Ret (inl w) -> runs w acts w' ->
  pushed (net w') `sublist_of` map (push_of (out w)) (published acts).
Proof.
  intros Hn Hi Hr. apply Init_once in Hi; [|done]. eapply runs_once in Hr as [_ Hp]; [|exact Hi].
  etrans; [|exact Hp]. unfold on_their_way. by apply sublist_inserts_r.
Qed.
End AtMostOnce.

(** * While nothing fails, every event arrives *)

Section Delivered.
Context {W : Type} {N : Network W}.
Implicit Types (w : RedisWorld W) (o : RedisOutput) (n : World W) (c : conn) (cmds : list command).

Definition no_error (r : reply) : Prop := match r with RError _ => False | _ => True end.
(** The server refuses no command. *)
Definition obliging : Prop := forall session cmd (s : W), no_error (fst (execute session cmd s)).

Lemma pushes_all cmds : Forall is_push cmds -> pushes cmds = cmds.
Proof. unfold pushes. induction 1; [done|]. rewrite filter_cons_True by done. by f_equal. Qed.

Lemma pushed_served session cmds k n : pushed (served session cmds k n) = pushed n ++ pushes cmds.
Proof. unfold pushed, served, pushes. cbn. by rewrite map_app, filter_app, map_snd_pair. Qed.

Lemma no_first_error rs : Forall no_error rs -> first_error rs = None.
Proof. induction 1 as [|[] rs]; by cbn. Qed.

Lemma do_result_fine rs r : Forall no_error (rs ++ [r]) -> do_result rs r = inl r.
Proof. intros H. unfold do_result. by rewrite no_first_error. Qed.

(** [Do] with what the server makes of it. *)
Lemma Do_obliging rs c cmd args n : quiet -> obliging -> unread rs (length rs + length (c_out c)) c -> Forall no_error rs ->
  exists r c' k, Do c cmd args n = (inl r, (c', served (c_session c) (c_out c ++ [(cmd, args)]) k n)) /\
    c_session c' = c_session c /\ c_out c' = [] /\ unread [] 0 c' /\
    last (fst (answers (c_session c) (c_out c ++ [(cmd, args)]) (server n))) = Some r.
Proof.
  intros Hq Hob Hu Hrs. destruct (Do_calm rs c cmd args n Hq Hu) as (before & r & c' & k & Eb & E & Hs & Ho & Hu').
  assert (Forall no_error (before ++ [r])) as Hall.
  { rewrite <- Eb. apply Forall_app_2; [done|]. apply answers_Forall. intros cmd1 s. apply Hob. }
  rewrite do_result_fine in E by done. exists r, c', k. repeat split; try done; try apply Hu'.
  pose proof (answers_length (c_session c) (c_out c ++ [(cmd, args)]) (server n)) as Hl. rewrite length_app in Hl. cbn in Hl.
  destruct (fst (answers _ _ _)) as [|a l] eqn:Ea using rev_ind; [cbn in Hl; lia|].
  rewrite app_assoc in Eb. apply app_inj_tail in Eb as [_ ->]. apply last_snoc.
Qed.

(** A connection on which nothing is due. *)
Definition idle c : Prop := c_out c = [] /\ unread [] 0 c.

Lemma Do_idle c cmd args n : quiet -> obliging -> idle c ->
  exists c' k, Do c cmd args n = (inl (fst (execute (c_session c) (cmd, args) (server n))), (c', served (c_session c) [(cmd, args)] k n)) /\
    c_session c' = c_session c /\ idle c'.
Proof.
  intros Hq Hob [Ho Hu]. destruct (Do_obliging [] c cmd args n Hq Hob) as (r & c' & k & E & Hs & Ho' & Hu' & Hr).
  { by rewrite Ho. } { apply Forall_nil_2. }
  rewrite Ho in *. cbn [app] in *. exists c', k. rewrite E. split; [|by split].
  cbn [answers] in Hr. destruct (execute _ _ _) as [r1 s1]. cbn in *. congruence.
Qed.

Lemma call_idle {B} cmd args (k : conn -> World W -> (B + bytes) * World W) c n : quiet -> obliging -> idle c ->
  exists c' j, call (fun c n => Do c cmd args n) k c n = k c' (served (c_session c) [(cmd, args)] j n) /\ c_session c' = c_session c /\ idle c'.
Proof.
  intros Hq Hob Hi. destruct (Do_idle c cmd args n Hq Hob Hi) as (c' & j & E & H). exists c', j. unfold call. by rewrite E.
Qed.

(** The commands of [RedisConnect]. *)
Definition login o (db : Z) : list command :=
  (if decide (0 < len (Password o)) then [(bs "AUTH", [AString (Password o)])] else []) ++ [(bs "PING", []); (bs "SELECT", [AInt db])].

Lemma served_twice session cmds1 cmds2 j k n :
  served session cmds2 k (served session cmds1 j n) = served session (cmds1 ++ cmds2) (k + j) n.
Proof.
  unfold served. cbn. rewrite answers_app. destruct (answers session cmds1 (server n)) as [r1 s1]. cbn.
  destruct (answers session cmds2 s1) as [r2 s2]. cbn. rewrite map_app, app_assoc. f_equal. lia.
Qed.

Lemma RedisConnect_calm o db n : quiet -> obliging ->
  exists c k, RedisConnect o db n = (inl c, served (sessions n) (login o db) k (n <| sessions := S (sessions n) |>)) /\
    c_session c = sessions n /\ idle c.
Proof.
  intros Hq Hob. unfold RedisConnect, Dial. destruct Hq as [Hn Hr] eqn:Eq. clear Eq. rewrite Hn. cbv zeta.
  set (c0 := Build_conn _ _ _ _ _ _ _). set (n0 := set_field (proj := sessions) _ _).
  assert (idle c0) as H0 by (by repeat split; try apply Forall_nil_2).
  assert (quiet) as Hq' by done.
  assert (forall c n, idle c -> exists c' k,
    call (fun c n => Do c (bs "PING") [] n) (call (fun c n => Do c (bs "SELECT") [AInt db] n) (fun c n => (@inl conn bytes c, n))) c n =
      (inl c', served (c_session c) [(bs "PING", []); (bs "SELECT", [AInt db])] k n) /\ c_session c' = c_session c /\ idle c') as H.
  { intros c n1 Hc. destruct (call_idle (bs "PING") [] (call (fun c n => Do c (bs "SELECT") [AInt db] n) (fun c n => (@inl conn bytes c, n))) c n1 Hq' Hob Hc) as (c1 & j & -> & Hs1 & H1).
    destruct (call_idle (bs "SELECT") [AInt db] (fun c n => (@inl conn bytes c, n)) c1 (served (c_session c) [(bs "PING", [])] j n1) Hq' Hob H1) as (c2 & k & -> & Hs2 & H2).
    exists c2, (k + j)%nat. rewrite Hs1, served_twice. by rewrite Hs2. }
  assert (forall cmds k, served (sessions n) cmds k n0 = served (sessions n) cmds (k + 1) (n <| sessions := S (sessions n) |>)) as Hn0.
  { intros cmds k. unfold served, n0. cbn. f_equal. lia. }
  unfold login. case_decide.
  - destruct (call_idle (bs "AUTH") [AString (Password o)] (call (fun c n => Do c (bs "PING") [] n) (call (fun c n => Do c (bs "SELECT") [AInt db] n) (fun c n => (@inl conn bytes c, n)))) c0 n0 Hq' Hob H0) as (c1 & j & -> & Hs1 & Hi1).
    destruct (H c1 (served (c_session c0) [(bs "AUTH", [AString (Password o)])] j n0) Hi1) as (c2 & k & -> & Hs2 & Hi2).
    exists c2, (k + j + 1)%nat. rewrite Hs1, served_twice, Hs2, Hs1. change (c_session c0) with (sessions n). by rewrite Hn0.
  - destruct (H c0 n0 H0) as (c2 & k & -> & Hs2 & Hi2). exists c2, (k + 1)%nat. rewrite Hs2. change (c_session c0) with (sessions n). by rewrite Hn0.
Qed.

(** ** The invariant *)

(** The output is connected with [c], on which the replies [rs] are unread. *)
Record flowing o (events : list MapStr) w c (rs : list reply) : Prop := {
  fl_config : same_config o (out w);
  fl_connected : connected (out w) = true /\ reconnecting w = 0%nat;
  fl_conn : Conn (out w) = Some c /\ unread rs (length rs + length (c_out c)) c;
  fl_replies : Forall no_error rs;
  fl_pushes : Forall is_push (c_out c);
  fl_pending : (pending w <= length rs + length (c_out c))%nat /\ (pending w = 0%nat -> c_out c = []);
  fl_immediate : flush_immediatelly (out w) = true -> rs = [] /\ c_out c = [] /\ pending w = 0%nat;
  fl_events : pushed (net w) ++ c_out c ++ queued w = map (push_of o) events
}.

Lemma queued_cons w m queue : sendingQueue (out w) = m :: queue ->
  queued w = msg_command (out w) m :: queued (w <| out := out w <| sendingQueue := queue |> |>).
Proof. intros H. unfold queued. by rewrite H. Qed.

Lemma message_flowing o events w c rs m queue : quiet -> obliging -> flowing o events w c rs -> sendingQueue (out w) = m :: queue ->
  exists w' c' rs', message_turn w = Ret w' /\ flowing o events w' c' rs' /\ sendingQueue (out w') = queue /\
    c_pending c' = (if flush_immediatelly (out w) then 0 else S (c_pending c))%nat /\ pending w' = (if flush_immediatelly (out w) then 0 else S (pending w))%nat.
Proof.
  intros Hq Hob [Hcf [Hcon Hrec] [Hc Hu] Hrs Hps [Hpe Hp0] Him Hev] Hm.
  rewrite (queued_cons w m queue Hm) in Hev. set (wq := w <| out := out w <| sendingQueue := queue |> |>) in *.
  unfold message_turn, send_message. rewrite Hm. fold wq.
  change (connected (out wq)) with (connected (out w)). rewrite Hcon. change (Conn (out wq)) with (Conn (out w)). rewrite Hc.
  change (flush_immediatelly (out wq)) with (flush_immediatelly (out w)). change (push_command (out wq)) with (push_command (out w)).
  change (net wq) with (net w). cbv zeta. fold (msg_command (out w) m).
  assert (is_push (msg_command (out w) m)) as Hmp by apply push_command_push.
  destruct (flush_immediatelly (out w)) eqn:Hi.
  - destruct (Him eq_refl) as (-> & Ho & Hp). assert (idle c) as Hid by (split; [done|by rewrite Ho in Hu]).
    destruct (Do_idle c (push_command (out w)) [AString (index m); AString (msg m)] (net w) Hq Hob Hid) as (c' & k & E & Hs & [Ho' Hu']).
    rewrite E. exists (with_conn c' (served (c_session c) [msg_command (out w) m] k (net w)) wq), c', []. split; [done|].
    split; [|split; [done|split; [by destruct Hu'|done]]]. split; try done.
    + by rewrite Ho'.
    + by rewrite Ho'.
    + cbn. rewrite Ho', Hp. split; [lia|done].
    + rewrite Ho, app_nil_l in Hev. change (net (with_conn _ ?n wq)) with n. rewrite pushed_served, Ho', pushes_all by (by apply Forall_cons).
      rewrite <- Hev, <- app_assoc. done.
  - destruct (Send_calm rs _ c (push_command (out w)) [AString (index m); AString (msg m)] (net w) Hq Hu) as (written & c' & k & E & Hs & Hw & Hu' & Hb).
    rewrite E. exists (with_conn c' (served (c_session c) written k (net w)) wq <| pending := S (pending wq) |>), c', (rs ++ fst (answers (c_session c) written (server (net w)))).
    pose proof (answers_length (c_session c) written (server (net w))) as Hl.
    assert (length written + length (c_out c') = length (c_out c) + 1)%nat as Hlen.
    { apply (f_equal length) in Hw. rewrite !length_app in Hw. cbn in Hw. lia. }
    assert (Forall is_push (written ++ c_out c')) as Hall by (rewrite Hw; apply Forall_app_2; [done|by apply Forall_cons]).
    apply Forall_app in Hall as [Hwp Hop].
    split; [done|]. split; [|split; [done|]]. split; try done.
    + split; [done|]. rewrite length_app, Hl. destruct Hu' as [? ? Hp' ?]. split; [done..| |done]. lia.
    + apply Forall_app_2; [done|]. apply answers_Forall. intros cmd s. apply Hob.
    + cbn. rewrite length_app, Hl. split; [lia|done].
    + intros H. cbn in H. congruence.
    + change (net (_ <| pending := _ |>)) with (served (c_session c) written k (net w)). rewrite pushed_served, pushes_all by done.
      rewrite <- Hev. rewrite <- app_assoc. f_equal. rewrite app_assoc, Hw, <- app_assoc. done.
    + destruct Hu as [_ _ -> _], Hu' as [_ _ -> _]. done.
Qed.

Lemma flush_flowing o events w c rs : quiet -> obliging -> flowing o events w c rs -> flush_immediatelly (out w) = false ->
  exists w' c' rs', flush_turn w = Ret w' /\ flowing o events w' c' rs' /\ sendingQueue (out w') = sendingQueue (out w) /\ c_out c' = [] /\
    c_pending c' = (if decide (pending w = 0) then c_pending c else pred (c_pending c))%nat /\ pending w' = 0%nat.
Proof.
  intros Hq Hob Hf Hi. pose proof Hf as [Hcf [Hcon Hrec] [Hc Hu] Hrs Hps [Hpe Hp0] Him Hev]. unfold flush_turn.
  destruct (pending w) as [|p] eqn:Hp; [exists w, c, rs; auto 8|]. rewrite Hc.
  destruct (Flush_calm rs _ c (net w) Hq Hu) as (c1 & k & E & Hs & Ho & Hu1). rewrite E.
  set (rs1 := rs ++ fst (answers (c_session c) (c_out c) (server (net w)))) in *.
  assert (Forall no_error rs1) as Hrs1 by (apply Forall_app_2; [done|]; apply answers_Forall; intros; apply Hob).
  assert (length rs1 = length rs + length (c_out c))%nat as Hl by (subst rs1; by rewrite length_app, answers_length).
  destruct rs1 as [|r rs2]; [cbn in Hl; lia|]. apply Forall_cons in Hrs1 as [Hr Hrs2].
  destruct (Receive_calm r rs2 _ c1 (served (c_session c) (c_out c) k (net w)) Hq Hu1) as (c2 & E2 & Hs2 & Ho2 & Hu2). rewrite E2.
  eexists _, c2, rs2. split; [by destruct r|]. rewrite Ho in Ho2.
  split; [|split; [done|split; [done|]]]. split; try done.
  - split; [done|]. rewrite Ho2. destruct Hu2 as [? ? Hp2 ?]. split; [done..| |done]. cbn in Hl |- *. lia.
  - by rewrite Ho2.
  - cbn. split; [lia|done].
  - cbn. intros H. congruence.
  - change (pushed (served (c_session c) (c_out c) k (net w)) ++ c_out c2 ++ queued w = map (push_of o) events).
    rewrite pushed_served, Ho2, pushes_all by done. by rewrite <- app_assoc.
  - destruct Hu as [_ _ -> _], Hu2 as [_ _ -> _]. done.
Qed.

Lemma turn_flowing o events w c rs a : quiet -> obliging -> flowing o events w c rs -> enabled a w = true ->
  exists w' c' rs', turn a w = Ret w' /\ flowing o (events ++ published [a]) w' c' rs'.
Proof.
  intros Hq Hob Hf Ha. destruct a; cbn [turn published omap list_omap]; rewrite ?app_nil_r; cbn [enabled] in Ha.
  - exists (PublishEvent event w), c, rs. split; [done|].
    destruct Hf as [Hcf Hcon Hc Hrs Hps Hpe Him Hev]. split; try done.
    rewrite map_app, <- Hev, <- !app_assoc. do 2 f_equal.
    assert (queued (PublishEvent event w) = queued w ++ [msg_command (out w) (message (out w) event)]) as -> by exact (map_app _ _ _).
    f_equal. cbn. rewrite (msg_command_config o) by done. unfold msg_command, push_of, message. cbn. by destruct Hcf as (-> & _).
  - apply bool_decide_eq_true in Ha. destruct (sendingQueue (out w)) as [|m queue] eqn:Hm; [done|].
    destruct (message_flowing o events w c rs m queue Hq Hob Hf Hm) as (w' & c' & rs' & E & Hf' & _). by exists w', c', rs'.
  - apply negb_true_iff in Ha. destruct (flush_flowing o events w c rs Hq Hob Hf Ha) as (w' & c' & rs' & E & Hf' & _). by exists w', c', rs'.
  - apply bool_decide_eq_true in Ha. by destruct Hf as [_ [_ ?] _ _ _ _ _ _].
  - eexists _, c, rs. split; [done|]. destruct (PublishIPs_silent name localAddrs w) as [Hs [m Hm]].
    assert (pending (snd (PublishIPs name localAddrs w)) = pending w /\ reconnecting (snd (PublishIPs name localAddrs w)) = reconnecting w) as [Hp Hr] by apply PublishIPs_goroutines.
    destruct Hf as [Hcf Hcon Hc Hrs Hps Hpe Him Hev]. unfold silent in Hs. split; unfold queued; rewrite ?Hp, ?Hr, ?Hm, ?Hs; done.
Qed.

Lemma runs_flowing o events w c rs acts w' : quiet -> obliging -> flowing o events w c rs -> runs w acts w' ->
  exists c' rs', flowing o (events ++ published acts) w' c' rs'.
Proof.
  intros Hq Hob Hf. induction 1 as [|acts w1 a w2 _ (c1 & rs1 & IH) Ha Ht]; [exists c, rs; by rewrite app_nil_r|].
  destruct (turn_flowing o _ w1 c1 rs1 a Hq Hob IH Ha) as (w2' & c2 & rs2 & E & Hf2). rewrite Ht in E. injection E as <-.
  exists c2, rs2. unfold published in *. by rewrite omap_app, app_assoc.
Qed.

Lemma Init_flowing attempts config te n : quiet -> obliging -> executed n = [] -> data_type (rc_DataType config) <> None ->
  exists w c, Init (S attempts) config te new_RedisOutput n = Ret (inl w) /\ flowing (out w) [] w c [] /\ pending w = 0%nat /\ c_pending c = 0%nat.
Proof.
  intros Hq Hob Hn Ht. unfold Init. destruct (data_type _) as [t|]; [|done]. set (w0 := Build_RedisWorld _ _ _ _ _).
  cbn [Reconnect]. unfold Connect.
  destruct (RedisConnect_calm (out w0) (Db (out w0)) (net w0) Hq Hob) as (c & k & E & Hs & Ho & Hu). rewrite E.
  eexists _, c. split; [reflexivity|]. split; [|split; [done|by destruct Hu]].
  split.
  - done.
  - done.
  - split; [done|]. by rewrite Ho.
  - apply Forall_nil_2.
  - rewrite Ho. apply Forall_nil_2.
  - rewrite Ho. cbn. split; [lia|done].
  - cbn. by rewrite Ho.
  - rewrite Ho. change (pushed (served (sessions n) (login (out w0) (Db (out w0))) k (n <| sessions := S (sessions n) |>)) ++ [] ++ [] = []).
    rewrite pushed_served. unfold pushed. change (executed (n <| sessions := S (sessions n) |>)) with (executed n). rewrite Hn.
    unfold login. by case_decide.
Qed.

(** The goroutine alone: it takes what is in the queue, and the timer ticks. *)
Definition drain w : list action :=
  repeat NextMessage (length (sendingQueue (out w))) ++ (if flush_immediatelly (out w) then [] else [FlushTick]).

Lemma run_app acts1 acts2 w : run (acts1 ++ acts2) w = (w1 ← run acts1 w; run acts2 w1).
Proof.
  revert w. induction acts1 as [|a acts IH]; intros w; [done|]. cbn [app run]. destruct (enabled a w); [|done].
  by destruct (turn a w).
Qed.

Lemma run_messages o events : forall queue w c rs, quiet -> obliging -> flowing o events w c rs -> sendingQueue (out w) = queue ->
  exists w' c' rs', run (repeat NextMessage (length queue)) w = Some w' /\ flowing o events w' c' rs' /\ sendingQueue (out w') = [].
Proof.
  induction queue as [|m queue IH]; intros w c rs Hq Hob Hf Hm; [by exists w, c, rs|].
  destruct (message_flowing o events w c rs m queue Hq Hob Hf Hm) as (w1 & c1 & rs1 & E & Hf1 & Hm1 & _).
  destruct (IH w1 c1 rs1 Hq Hob Hf1 Hm1) as (w2 & c2 & rs2 & E2 & H2). exists w2, c2, rs2.
  cbn [length repeat run enabled]. rewrite bool_decide_eq_true_2 by (by rewrite Hm). cbn [turn]. by rewrite E.
Qed.

Lemma flowing_flag o events w c rs : flowing o events w c rs -> flush_immediatelly (out w) = flush_immediatelly o.
Proof. intros H. by destruct (fl_config _ _ _ _ _ H) as (_ & _ & ?). Qed.

Lemma drain_flowing o events w c rs : quiet -> obliging -> flowing o events w c rs ->
  exists w', run (drain w) w = Some w' /\ pushed (net w') = map (push_of o) events.
Proof.
  intros Hq Hob Hf. unfold drain. destruct (run_messages o events _ w c rs Hq Hob Hf eq_refl) as (w1 & c1 & rs1 & E & Hf1 & Hm).
  rewrite run_app, E. cbn [mbind option_bind].
  pose proof (flowing_flag _ _ _ _ _ Hf) as Hi. rewrite <- (flowing_flag _ _ _ _ _ Hf1) in Hi. rewrite Hi.
  destruct (flush_immediatelly (out w1)) eqn:Hi1.
  - exists w1. split; [done|]. destruct Hf1 as [_ _ _ _ _ _ Him Hev]. destruct (Him Hi1) as (_ & Ho & _).
    rewrite Ho in Hev. unfold queued in Hev. rewrite Hm in Hev. by rewrite !app_nil_r in Hev.
  - destruct (flush_flowing o events w1 c1 rs1 Hq Hob Hf1 Hi1) as (w2 & c2 & rs2 & E2 & Hf2 & Hm2 & Ho2 & _).
    exists w2. cbn [run enabled turn]. rewrite Hi1, E2. split; [done|]. destruct Hf2 as [_ _ _ _ _ _ _ Hev].
    rewrite Ho2 in Hev. unfold queued in Hev. rewrite Hm2, Hm in Hev. by rewrite !app_nil_r in Hev.
Qed.

(** The commands in the buffer of the connection. *)
Definition buffered w : list command := match Conn (out w) with Some c => c_out c | None => [] end.

(** C35: While the network and the server refuse nothing, [Init] connects at once, no turn
    fails or panics, and the commands that the server has executed, those in the buffer and
    the messages in the queue are, in this order, the events that were published: none is
    lost or dropped.  The goroutine alone brings all of them to the server. *)
Theorem redis_events_delivered attempts config te n :
  quiet -> obliging -> executed n = [] -> data_type (rc_DataType config) <> None ->
  exists w0, Init (S attempts) config te new_RedisOutput n = Ret (inl w0) /\
    forall acts w, runs w0 acts w ->
      (forall a, enabled a w = true -> exists w', turn a w = Ret w') /\
      pushed (net w) ++ buffered w ++ queued w = map (push_of (out w0)) (published acts) /\
      (flush_immediatelly (out w0) = true -> buffered w = []) /\
      exists w', run (drain w) w = Some w' /\ pushed (net w') = map (push_of (out w0)) (published acts).
Proof.
  intros Hq Hob Hn Ht. destruct (Init_flowing attempts config te n Hq Hob Hn Ht) as (w0 & c0 & Hi & Hf0 & _). exists w0. split; [done|].
  intros acts w Hr. destruct (runs_flowing (out w0) [] w0 c0 [] acts w Hq Hob Hf0 Hr) as (c & rs & Hf). cbn [app] in Hf.
  assert (buffered w = c_out c) as Hb by (unfold buffered; by destruct (fl_conn _ _ _ _ _ Hf) as [-> _]).
  split; [|split; [|split]].
  - intros a Ha. destruct (turn_flowing _ _ w c rs a Hq Hob Hf Ha) as (w' & c' & rs' & E & _). by exists w'.
  - rewrite Hb. apply Hf.
  - rewrite Hb, <- (flowing_flag _ _ _ _ _ Hf). intros H. by destruct (fl_immediate _ _ _ _ _ Hf H) as (_ & ? & _).
  - by eapply drain_flowing.
Qed.

(** ** Replies that are not read *)

(** How many replies are due after some turns: a message makes one due, a tick reads one. *)
Fixpoint replies_due (dirty : bool) (due : nat) (acts : list action) : nat :=
  match acts with
  | [] => due
  | NextMessage :: acts => replies_due true (S due) acts
  | FlushTick :: acts => if dirty then replies_due false (pred due) acts else replies_due dirty due acts
  | _ :: acts => replies_due dirty due acts
  end.
Definition due w : nat := match Conn (out w) with Some c => c_pending c | None => 0 end.

Lemma due_after o acts : forall events w c rs w', quiet -> obliging -> flowing o events w c rs -> flush_immediatelly o = false ->
  run acts w = Some w' -> due w' = replies_due (bool_decide (pending w <> 0%nat)) (due w) acts.
Proof.
  induction acts as [|a acts IH]; intros events w c rs w' Hq Hob Hf Hi; cbn [run]; [by intros [= <-]|].
  destruct (enabled a w) eqn:Ha; [|done]. pose proof (flowing_flag _ _ _ _ _ Hf) as Hi'. rewrite Hi in Hi'.
  assert (due w = c_pending c) as Hd by (unfold due; by destruct (fl_conn _ _ _ _ _ Hf) as [-> _]).
  destruct (turn_flowing o events w c rs a Hq Hob Hf Ha) as (w1 & c1 & rs1 & E & Hf1). rewrite E. intros Hr.
  rewrite (IH _ w1 c1 rs1 w' Hq Hob Hf1 Hi Hr). destruct a; cbn [turn replies_due] in *.
  - by injection E as <-.
  - apply bool_decide_eq_true in Ha. destruct (sendingQueue (out w)) as [|m queue] eqn:Hm; [done|].
    destruct (message_flowing o events w c rs m queue Hq Hob Hf Hm) as (w2 & c2 & rs2 & E2 & Hf2 & _ & Hp & Hpw).
    rewrite E in E2. injection E2 as <-. rewrite Hi' in Hp, Hpw. rewrite Hpw, Hd. unfold due. destruct (fl_conn _ _ _ _ _ Hf2) as [-> _]. by rewrite Hp.
  - destruct (flush_flowing o events w c rs Hq Hob Hf Hi') as (w2 & c2 & rs2 & E2 & Hf2 & _ & _ & Hp & Hpw).
    rewrite E in E2. injection E2 as <-. rewrite Hpw. unfold due at 1. destruct (fl_conn _ _ _ _ _ Hf2) as [-> _]. rewrite Hp, Hd.
    by destruct (decide (pending w = 0%nat)) as [Hz|Hz]; [rewrite !bool_decide_eq_false_2 by tauto|rewrite (bool_decide_eq_true_2 (pending w <> _)) by done].
  - apply bool_decide_eq_true in Ha. by destruct Hf as [_ [_ ?] _ _ _ _ _ _].
  - injection E as <-. destruct (PublishIPs_silent name localAddrs w) as [_ [m Hm]].
    destruct (PublishIPs_goroutines name localAddrs w) as [-> _]. unfold due. by rewrite Hm.
Qed.

(** A flush interval in which [k] events are published. *)
Definition interval (events : list MapStr) : list action :=
  concat (map (fun event => [Publish event; NextMessage]) events) ++ [FlushTick].

Lemma replies_due_events events : forall dirty d acts,
  replies_due dirty d (concat (map (fun event => [Publish event; NextMessage]) events) ++ acts) =
  replies_due (if decide (events = []) then dirty else true) (length events + d) acts.
Proof.
  induction events as [|e events IH]; intros dirty d acts; [done|]. cbn [map concat app replies_due length]. rewrite IH.
  rewrite (decide_False (P := e :: events = [])) by done. replace (length events + S d)%nat with (S (length events) + d)%nat by lia. by case_decide.
Qed.

Lemma replies_due_intervals k intervals : Forall (fun events => length events = S k) intervals -> forall d,
  replies_due false d (concat (map interval intervals)) = (length intervals * k + d)%nat.
Proof.
  induction 1 as [|events intervals He _ IH]; intros d; [done|]. cbn [map concat]. unfold interval at 1. rewrite <- app_assoc, replies_due_events.
  destruct events as [|e events]; [done|]. cbn [decide]. rewrite decide_False by done. cbn [app replies_due]. rewrite IH, He. cbn. lia.
Qed.

(** One reply is read per flush: after [m] flush intervals with [k+1] events each, [m*k]
    replies of the server are unread, without bound, although nothing fails. *)
Theorem replies_pile_up attempts config te n k intervals w0 w :
  quiet -> obliging -> executed n = [] -> Init (S attempts) config te new_RedisOutput n = Ret (inl w0) ->
  flush_immediatelly (out w0) = false -> Forall (fun events => length events = S k) intervals ->
  run (concat (map interval intervals)) w0 = Some w ->
  due w = (length intervals * k)%nat.
Proof.
  intros Hq Hob Hn Hi Hfl Hk Hr.
  destruct (Init_flowing attempts config te n Hq Hob Hn) as (w0' & c & E & Hf & Hp & Hc); [intros Ht; unfold Init in Hi; by rewrite Ht in Hi|].
  rewrite Hi in E. injection E as <-. rewrite (due_after (out w0) _ [] w0 c [] w Hq Hob Hf Hfl Hr).
  unfold due. destruct (fl_conn _ _ _ _ _ Hf) as [-> _]. rewrite Hp, Hc, bool_decide_eq_false_2, (replies_due_intervals k) by (done || tauto). lia.
Qed.
End Delivered.

(** * A connection that is gone *)

Section Gone.
Context {W : Type} {N : Network W}.

(** A message that the connection refuses leaves a command to be flushed; when the
    first attempt to reconnect fails as well, the next tick of the timer calls a method of a
    nil connection, and the program dies. *)
Theorem failed_reconnect_panics (w : RedisWorld W) m queue c e c' n e' :
  sendingQueue (out w) = m :: queue -> connected (out w) = true -> Conn (out w) = Some c -> flush_immediatelly (out w) = false ->
  Send c (push_command (out w)) [AString (index m); AString (msg m)] (net w) = (Some e, (c', n)) ->
  net_error (net_calls n) = Some e' ->
  exists w', run [NextMessage; TryReconnect] w = Some w' /\ enabled FlushTick w' = true /\ turn FlushTick w' = Panic.
Proof.
  intros Hq Hcon Hc Hi Hs Hd. cbn [run enabled turn]. rewrite bool_decide_eq_true_2 by (by rewrite Hq).
  unfold message_turn, send_message. rewrite Hq. set (wq := w <| out := out w <| sendingQueue := queue |> |>).
  change (connected (out wq)) with (connected (out w)). rewrite Hcon. change (Conn (out wq)) with (Conn (out w)). rewrite Hc.
  change (flush_immediatelly (out wq)) with (flush_immediatelly (out w)). rewrite Hi.
  change (push_command (out wq)) with (push_command (out w)). change (net wq) with (net w). cbv zeta. rewrite Hs.
  set (w1 := lost _). change (bool_decide (reconnecting w1 <> 0%nat)) with true. cbv iota.
  unfold reconnect_turn, Connect, RedisConnect, Dial. change (net w1) with n. rewrite Hd. cbv iota zeta.
  eexists. split; [reflexivity|]. split; [|reflexivity]. change (negb (flush_immediatelly (out w)) = true). by rewrite Hi.
Qed.

(** While the server cannot be reached, the loop of [Reconnect] goes on, and with it [Init]
    and the start of the program. *)
Lemma Reconnect_unreachable attempts : (forall n, net_error n <> None) -> forall w, Reconnect attempts w = OutOfFuel.
Proof.
  intros Hn. induction attempts as [|k IH]; intros w; [done|]. cbn [Reconnect]. unfold Connect, RedisConnect, Dial.
  destruct (net_error (net_calls (net w))) eqn:E; [apply IH|by destruct (Hn _ E)].
Qed.
End Gone.

(** * The topology map *)

(** What the server promises of the commands that the topology needs: the database that a
    session has selected, the field "ipaddrs" of the keys of a database, and when a database
    has room for one more of them. *)
Class Directory (W : Type) {N : Network W} := {
  selected : W -> nat -> Z;
  addresses : W -> Z -> gmap bytes bytes;
  room : gmap bytes bytes -> bytes -> bytes -> Prop;
  law_other session cmd args s : cmd ∈ [bs "AUTH"; bs "PING"; bs "EXPIRE"] ->
    let s' := snd (execute session (cmd, args) s) in selected s' session = selected s session /\ addresses s' = addresses s;
  law_select session db s :
    let s' := snd (execute session (bs "SELECT", [AInt db]) s) in selected s' session = db /\ addresses s' = addresses s;
  law_hset session name v s : room (addresses s (selected s session)) name v ->
    let s' := snd (execute session (bs "HSET", [AString name; AString (bs "ipaddrs"); AString v]) s) in
    selected s' session = selected s session /\
    addresses s' (selected s session) = <[name := v]> (addresses s (selected s session));
  law_hget session name s :
    let '(r, s') := execute session (bs "HGET", [AString name; AString (bs "ipaddrs")]) s in
    r = match addresses s (selected s session) !! name with Some v => RBulk v | None => RNil end /\
    selected s' session = selected s session /\ addresses s' = addresses s;
  law_keys session s :
    let '(r, s') := execute session (bs "KEYS", [AString (bs "*")]) s in
    (exists names, r = RArray (map RBulk names) /\ forall name, is_Some (addresses s (selected s session) !! name) -> name ∈ names) /\
    selected s' session = selected s session /\ addresses s' = addresses s
}.

(** The last of the shippers that announce an address. *)
Definition announces (t : gmap bytes bytes) (ip name : bytes) : Prop := exists v, t !! name = Some v /\ ip ∈ Split v ","%byte.
#[export] Instance announces_dec t ip name : Decision (announces t ip name).
Proof.
  unfold announces. destruct (t !! name) as [v|]; [|right; by intros (? & ? & _)].
  destruct (decide (ip ∈ Split v ","%byte)); [left; by exists v|right; intros (? & [= <-] & ?); done].
Defined.
Definition last_announcing (t : gmap bytes bytes) (ip : bytes) (names : list bytes) (d : option bytes) : option bytes :=
  last_match (announces t ip) (fun name => name) names d.

Section TopologyMap.
Context {W : Type} {N : Network W} {D : Directory W}.
Implicit Types (w : RedisWorld W) (n : World W) (c : conn).

(** Commands leave the directory and the database of their session alone. *)
Definition leaves (session : nat) (cmd : command) : Prop := forall s : W,
  let s' := snd (execute session cmd s) in selected s' session = selected s session /\ addresses s' = addresses s.

Lemma server_served session cmd k n : server (served session [cmd] k n) = snd (execute session cmd (server n)).
Proof. unfold served. cbn. by destruct (execute session cmd (server n)). Qed.

Lemma login_directory o db session s : let s' := snd (answers session (login o db) s) in
  selected s' session = db /\ addresses s' = addresses s.
Proof.
  assert (forall s, let s' := snd (answers session [(bs "PING", []); (bs "SELECT", [AInt db])] s) in selected s' session = db /\ addresses s' = addresses s) as H.
  { clear s. intros s. cbn [answers]. pose proof (law_other session (bs "PING") [] s ltac:(set_solver)) as [Hs Ha].
    destruct (execute session (bs "PING", []) s) as [r1 s1]. cbn in Hs, Ha.
    pose proof (law_select session db s1) as [Hs2 Ha2]. destruct (execute session _ s1) as [r2 s2]. cbn in *. by rewrite Ha2. }
  unfold login. case_decide; [|apply H]. cbn [app answers].
  pose proof (law_other session (bs "AUTH") [AString (Password o)] s ltac:(set_solver)) as [Hs Ha].
  destruct (execute session (bs "AUTH", _) s) as [r1 s1]. cbn in Hs, Ha. specialize (H s1). cbn [answers] in H.
  destruct (execute session (bs "PING", []) s1) as [r2 s2]. destruct (execute session _ s2) as [r3 s3]. cbn in *. by rewrite <- Ha.
Qed.

Lemma shipper_addrs_directory t db names : forall (m : gmap bytes bytes) c n, quiet -> obliging -> idle c ->
  selected (server n) (c_session c) = db -> addresses (server n) db = t ->
  exists m' c' n', shipper_addrs names m c n = (m', (c', n')) /\ addresses (server n') db = t /\
    forall ip, m' !! ip = last_announcing t ip names (m !! ip).
Proof.
  induction names as [|h names IH]; intros m c n Hq Hob Hi Hs Ht; [by exists m, c, n|]. cbn [shipper_addrs].
  destruct (Do_idle c (bs "HGET") [AString h; AString (bs "ipaddrs")] n Hq Hob Hi) as (c1 & k & E & Hs1 & Hi1). rewrite E. clear E.
  pose proof (law_hget (c_session c) h (server n)) as H. rewrite Hs, Ht in H.
  set (n1 := served _ _ _ _). assert (server n1 = snd (execute (c_session c) (bs "HGET", [AString h; AString (bs "ipaddrs")]) (server n))) as Hn1 by apply server_served.
  destruct (execute (c_session c) _ (server n)) as [r s1]. destruct H as (Hr & Hsel & Ha). cbn [fst snd] in *.
  destruct (IH (match reply_String (inl r) with inr _ => m | inl res => foldl (fun m addr => <[addr := h]> m) m (Split res ","%byte) end) c1 n1 Hq Hob Hi1)
    as (m' & c' & n' & E & Ht' & Hm); [by rewrite Hn1, Hs1|by rewrite Hn1, Ha|].
  exists m', c', n'. split; [exact E|]. split; [done|]. intros ip. rewrite Hm. unfold last_announcing, last_match. cbn [foldl]. f_equal.
  rewrite Hr. destruct (decide (announces t ip h)) as [(v & -> & Hin)|Hno]; [cbn; by rewrite insert_all_lookup, decide_True|].
  destruct (t !! h) as [v|] eqn:Ev; cbn; [|done]. rewrite insert_all_lookup, decide_False; [done|]. intros Hin. apply Hno. by exists v.
Qed.

Lemma bulk_strings_bulks names : bulk_strings (map RBulk names) = inr names.
Proof. induction names as [|h names IH]; [done|]. cbn. by rewrite IH. Qed.

(** A shipper that publishes its addresses gets the map of all shippers: an address has
    the name of a shipper that announces it, and no name only if none does; the addresses
    that it alone announces have its own name. *)
Theorem topology_published name addrs w :
  quiet -> obliging -> Forall (Forall (fun b => b <> ","%byte)) addrs ->
  room (addresses (server (net w)) (DbTopology (out w))) name (GoStd.Join addrs (bs ",")) ->
  exists w', PublishIPs name addrs w = (None, w') /\
    let t := <[name := GoStd.Join addrs (bs ",")]> (addresses (server (net w)) (DbTopology (out w))) in
    addresses (server (net w')) (DbTopology (out w)) = t /\
    (forall ip, match TopologyMap (out w') !! ip with
                | Some h => announces t ip h
                | None => forall h, ~ announces t ip h
                end) /\
    forall ip, ip ∈ addrs -> (forall h, announces t ip h -> h = name) -> GetNameByIP ip w' = name.
Proof.
  intros Hq Hob Ha Hroom. unfold PublishIPs. set (db := DbTopology (out w)). set (t := <[name := _]> _).
  destruct (RedisConnect_calm (out w) db (net w) Hq Hob) as (c & k & E & Hc & Hi). rewrite E. clear E.
  pose proof (login_directory (out w) db (sessions (net w)) (server (net w))) as [Hsel Had].
  set (n0 := served _ _ _ _). change (snd (answers (sessions (net w)) (login (out w) db) (server (net w)))) with (server n0) in *. rewrite <- Hc in Hsel.
  destruct (Do_idle c (bs "HSET") [AString name; AString (bs "ipaddrs"); AString (GoStd.Join addrs (bs ","))] n0 Hq Hob Hi) as (c1 & k1 & E & Hc1 & Hi1). rewrite E. clear E.
  set (n1 := served _ _ _ _).
  assert (selected (server n1) (c_session c1) = db /\ addresses (server n1) db = t) as [Hsel1 Had1].
  { unfold n1. rewrite server_served, Hc1. pose proof (law_hset (c_session c) name (GoStd.Join addrs (bs ",")) (server n0)) as H.
    rewrite Hsel in H. destruct H as [H1 H2]; [by rewrite Had|]. split; [done|]. by rewrite H2, Had. }
  destruct (Do_idle c1 (bs "EXPIRE") [AString name; AInt (expire_seconds (out w))] n1 Hq Hob Hi1) as (c2 & k2 & E & Hc2 & Hi2). rewrite E. clear E.
  set (n2 := served _ _ _ _).
  assert (selected (server n2) (c_session c2) = db /\ addresses (server n2) db = t) as [Hsel2 Had2].
  { unfold n2. rewrite server_served, Hc2. pose proof (law_other (c_session c1) (bs "EXPIRE") [AString name; AInt (expire_seconds (out w))] (server n1) ltac:(set_solver)) as [H1 H2].
    by rewrite H1, H2. }
  unfold UpdateLocalTopologyMap. change (net (w <| net := n2 |>)) with n2.
  destruct (Do_idle c2 (bs "KEYS") [AString (bs "*")] n2 Hq Hob Hi2) as (c3 & k3 & E & Hc3 & Hi3). rewrite E. clear E.
  set (n3 := served _ _ _ _). pose proof (law_keys (c_session c2) (server n2)) as H. rewrite Hsel2, Had2 in H.
  assert (server n3 = snd (execute (c_session c2) (bs "KEYS", [AString (bs "*")]) (server n2))) as Hn3 by apply server_served.
  destruct (execute (c_session c2) _ (server n2)) as [r s3]. destruct H as ((names & -> & Hnames) & Hsel3 & Had3). cbn [fst snd] in *.
  cbn [reply_Strings]. rewrite bulk_strings_bulks.
  destruct (shipper_addrs_directory t db names ∅ c3 n3 Hq Hob Hi3) as (m & c4 & n4 & E & Ht & Hm); [by rewrite Hn3, Hc3|by rewrite Hn3, Had3|].
  rewrite E. eexists. split; [reflexivity|]. split; [exact Ht|].
  assert (forall ip, match m !! ip with Some h => announces t ip h | None => forall h, ~ announces t ip h end) as Hmap.
  { intros ip. rewrite Hm, lookup_empty. unfold last_announcing.
    pose proof (last_match_spec (announces t ip) (fun name => name) names None) as H. destruct (last_match _ _ _ _) as [h|].
    - by destruct H as [|(? & _ & ? & ->)].
    - destruct H as [_ H]. intros h Hh. apply (H h); [|done]. destruct Hh as (v & Hv & _). apply Hnames. by rewrite Hv. }
  split; [exact Hmap|]. intros ip Hip Hone. unfold GetNameByIP. cbn. specialize (Hmap ip). destruct (m !! ip) as [h|]; cbn; [by apply Hone|].
  destruct (Hmap name). exists (GoStd.Join addrs (bs ",")). split; [apply lookup_insert_eq|].
  change (bs ",") with [","%byte]. rewrite Split_Join; [done| |done]. intros ->. by apply elem_of_nil in Hip.
Qed.
End TopologyMap.

(** * A server *)

(** A server with room for four names in a database; it answers in the words of Redis. *)
Module SmallServer.

Definition entry_ok (name v : bytes) : Prop := len name < 2 ^ 29 /\ len v < 2 ^ 29.
Definition table_ok (t : gmap bytes bytes) : Prop := (size t <= 4)%nat /\ map_Forall entry_ok t.
#[export] Instance entry_ok_dec name v : Decision (entry_ok name v).
Proof. unfold entry_ok. apply _. Defined.
#[export] Instance table_ok_dec t : Decision (table_ok t).
Proof. unfold table_ok. apply _. Defined.

Record state := { sel : gmap nat Z; tables : gmap Z (gmap bytes bytes); ok : forall db, table_ok (default ∅ (tables !! db)) }.

Lemma table_ok_empty : table_ok ∅.
Proof. split; [vm_compute; lia|apply map_Forall_empty]. Qed.
Lemma ok_empty db : table_ok (default ∅ ((∅ : gmap Z (gmap bytes bytes)) !! db)).
Proof. rewrite lookup_empty. apply table_ok_empty. Qed.
Definition start : state := {| sel := ∅; tables := ∅; ok := ok_empty |}.

Lemma ok_insert (s : state) db t : table_ok t -> forall db', table_ok (default ∅ (<[db := t]> (tables s) !! db')).
Proof.
  intros Ht db'. destruct (decide (db = db')) as [->|Hn]; [by rewrite lookup_insert_eq|]. rewrite lookup_insert_ne by done. apply ok.
Qed.

Definition selection (s : state) (session : nat) : Z := default 0 (sel s !! session).
Definition table (s : state) (db : Z) : gmap bytes bytes := default ∅ (tables s !! db).

Definition respond (session : nat) (cmd : command) (s : state) : reply * state :=
  match cmd with
  | (name, [AInt db]) =>
      if decide (name = bs "SELECT") then (RSimple (bs "OK"), {| sel := <[session := db]> (sel s); tables := tables s; ok := ok s |})
      else (RSimple (bs "OK"), s)
  | (name, [AString key; AString field; AString v]) =>
      if decide (name = bs "HSET") then
        let t := <[key := v]> (table s (selection s session)) in
        match decide (table_ok t) with
        | left H => (RInt 1, {| sel := sel s; tables := <[selection s session := t]> (tables s); ok := ok_insert s _ t H |})
        | right _ => (RInt 0, s)
        end
      else (RSimple (bs "OK"), s)
  | (name, [AString key; AString field]) =>
      if decide (name = bs "HGET") then (match table s (selection s session) !! key with Some v => RBulk v | None => RNil end, s)
      else (RInt 1, s)
  | (name, [AString key]) =>
      if decide (name = bs "KEYS") then (RArray (map RBulk (map fst (map_to_list (table s (selection s session))))), s)
      else (RSimple (bs "OK"), s)
  | _ => (RSimple (bs "PONG"), s)
  end.

(** The calls of the network that fail; one command of a failed write arrives. *)
Definition network (failing : list nat) : Network state := {|
  net_error := fun n => if decide (n ∈ failing) then Some (bs "connection reset by peer") else None;
  net_cut := fun _ => 1%nat;
  execute := respond
|}.
Definition boot : World state := {| server := start; executed := []; net_calls := 0; sessions := 0 |}.

Lemma respond_fine session cmd s : reply_ok (fst (respond session cmd s)) /\ no_error (fst (respond session cmd s)).
Proof.
  assert (forall x, In x [bs "OK"; bs "PONG"] -> reply_ok (RSimple x)) as Hx.
  { intros x [<-|[<-|[]]]; (split; [apply (bool_decide_unpack _); vm_compute; exact I|by vm_compute]). }
  assert (forall t : gmap bytes bytes, table_ok t -> forall k v, t !! k = Some v -> len k < 2 ^ 63 /\ len v < 2 ^ 63) as Ht.
  { intros t [_ H] k v Hk. destruct (H k v Hk) as [? ?]. lia. }
  unfold respond. destruct cmd as [name args]. repeat (case_match; subst; try (split; [apply Hx; cbn; tauto|exact I]); try (split; [cbn; lia|exact I])).
  - split; [|done]. apply reply_ok_array. pose proof (ok s (selection s session)) as Hok. destruct (Hok) as [Hs _]. split.
    + unfold len. rewrite length_map, length_map, length_map_to_list. unfold table. lia.
    + apply Forall_map, Forall_map, Forall_forall. intros [k v] Hk%elem_of_map_to_list. exact (proj1 (Ht _ Hok k v Hk)).
  - split; [|done]. eapply (fun H => proj2 (Ht _ (ok s (selection s session)) _ _ H)). eassumption.
Qed.

Lemma network_quiet : quiet (N := network []).
Proof. split; [reflexivity|intros session cmd s; apply respond_fine]. Qed.
Lemma network_obliging : obliging (N := network []).
Proof. intros session cmd s. apply respond_fine. Qed.

(** It keeps the promises of a directory. *)
#[export] Program Instance directory : Directory state (N := network []) := {|
  selected := selection; addresses := table; room := fun t name v => table_ok (<[name := v]> t)
|}.
Next Obligation.
  intros session cmd args s Hc. cbn. unfold respond. rewrite !elem_of_cons, elem_of_nil in Hc.
  repeat case_match; subst; cbn; try done; by destruct Hc as [?|[?|[?|[]]]].
Qed.
Next Obligation. intros session db s. split; [|done]. exact (f_equal (default 0) (lookup_insert_eq (sel s) session db)). Qed.
Next Obligation.
  intros session name v s Hr. cbn. destruct (decide (table_ok _)) as [H|H]; [|done].
  split; [done|]. exact (f_equal (default ∅) (lookup_insert_eq (tables s) (selection s session) (<[name:=v]> (table s (selection s session))))).
Qed.
Next Obligation. intros session name s. done. Qed.
Next Obligation.
  intros session s. cbn. split; [|done]. eexists. split; [reflexivity|]. intros name [v Hv]. apply list_elem_of_fmap. exists (name, v).
  split; [done|]. by apply elem_of_map_to_list.
Qed.
End SmallServer.

(** * Examples *)

Lemma runs_cons `{Network W} (w : RedisWorld W) a w1 acts w2 : enabled a w = true -> turn a w = Ret w1 -> runs w1 acts w2 -> runs w (a :: acts) w2.
Proof.
  intros Ha Ht. induction 1 as [|acts w2 b w3 _ IH Hb Ht3]; [exact (runs_turn w [] w a w1 (runs_start w) Ha Ht)|].
  exact (runs_turn w (a :: acts) w2 b w3 IH Hb Ht3).
Qed.

Lemma run_runs `{Network W} acts : forall (w w' : RedisWorld W), run acts w = Some w' -> runs w acts w'.
Proof.
  induction acts as [|a acts IH]; intros w w'; cbn [run]; [intros [= <-]; constructor|]. destruct (enabled a w) eqn:Ha; [|done].
  destruct (turn a w) as [w1| |] eqn:Ht; [|done..]. intros Hr. eapply runs_cons; eauto.
Qed.

Definition demo_config : RedisConfig :=
  {| rc_Host := bs "127.0.0.1"; rc_Port := 6379; rc_Password := bs "secret"; rc_Index := []; rc_Db := 0; rc_Db_topology := 0; rc_Timeout := 0;
     rc_Reconnect_interval := 0; rc_DataType := []; rc_Flush_interval := None |}.
Definition demo_event (n : Z) : MapStr := {[ bs "count" := MInt n ]}.
Definition demo_turns : list action :=
  [Publish (demo_event 1); Publish (demo_event 2); NextMessage; Topology (bs "web") [bs "10.0.0.1"; bs "10.0.0.2"]; NextMessage; FlushTick; Publish (demo_event 3)].
Definition demo_pushes (ns : list Z) : list command :=
  map (fun n => (bs "RPUSH", [AString (bs "packetbeat"); AString (bs "{" ++ [x22] ++ bs "count" ++ [x22] ++ bs ":" ++ Itoa n ++ bs "}")])) ns.

(** The world after [Init], and after some turns. *)
Definition init_world (failing : list nat) : RedisWorld SmallServer.state :=
  match Init (N := SmallServer.network failing) 2 demo_config 0 new_RedisOutput SmallServer.boot with
  | Ret (inl w) => w
  | _ => {| out := new_RedisOutput; pending := 0; reconnecting := 0; net := SmallServer.boot |}
  end.
Definition after (failing : list nat) (acts : list action) : RedisWorld SmallServer.state :=
  default (init_world failing) (run (N := SmallServer.network failing) acts (init_world failing)).

(** A write that fails after the first of two commands, a new connection, and another event. *)
Definition broken_turns : list action :=
  [Publish (demo_event 1); Publish (demo_event 2); NextMessage; NextMessage; FlushTick; TryReconnect; Publish (demo_event 3); NextMessage; FlushTick].

Lemma Init_world failing : Init (N := SmallServer.network failing) 2 demo_config 0 new_RedisOutput SmallServer.boot <> OutOfFuel ->
  Init (N := SmallServer.network failing) 2 demo_config 0 new_RedisOutput SmallServer.boot = Ret (inl (init_world failing)).
Proof.
  unfold init_world. assert (forall r, Init (N := SmallServer.network failing) 2 demo_config 0 new_RedisOutput SmallServer.boot = r ->
    match r with Ret (inr _) | Panic => False | _ => True end) as H.
  { intros r <-. unfold Init. change (data_type (rc_DataType demo_config)) with (Some RedisListType). cbn [Reconnect].
    repeat match goal with |- context [Connect ?w] => destruct (Connect w) as [[?|] ?] end; exact I. }
  specialize (H _ eq_refl). by destruct (Init _ _ _ _ _) as [[w|e]| |].
Qed.

Lemma after_runs failing acts : is_Some (run (N := SmallServer.network failing) acts (init_world failing)) ->
  runs (N := SmallServer.network failing) (init_world failing) acts (after failing acts).
Proof. intros [w E]. unfold after. rewrite E. by apply run_runs. Qed.

Lemma pushed_once_in_order_witness :
  exists w, runs (N := SmallServer.network [7%nat]) (init_world [7%nat]) broken_turns w /\ pushed (net w) = demo_pushes [1; 3] /\
    demo_pushes [1; 3] `sublist_of` map (push_of (out (init_world [7%nat]))) (map demo_event [1; 2; 3]).
Proof.
  assert (runs (N := SmallServer.network [7%nat]) (init_world [7%nat]) broken_turns (after [7%nat] broken_turns)) as Hr.
  { apply after_runs. vm_compute. eexists. reflexivity. }
  exists (after [7%nat] broken_turns). split; [exact Hr|].
  assert (pushed (net (after [7%nat] broken_turns)) = demo_pushes [1; 3]) as E by (vm_compute; reflexivity).
  split; [exact E|]. rewrite <- E.
  refine (pushed_once_in_order (N := SmallServer.network [7%nat]) 2 demo_config 0 SmallServer.boot _ broken_turns _ eq_refl (Init_world [7%nat] _) Hr).
  vm_compute. discriminate.
Defined.

Lemma redis_events_delivered_witness :
  exists w0, Init (N := SmallServer.network []) 1 demo_config 0 new_RedisOutput SmallServer.boot = Ret (inl w0) /\
    forall w, runs (N := SmallServer.network []) w0 demo_turns w ->
      exists w', run (N := SmallServer.network []) (drain w) w = Some w' /\
        pushed (net w') = map (push_of (out w0)) (map demo_event [1; 2; 3]).
Proof.
  destruct (redis_events_delivered (N := SmallServer.network []) 0 demo_config 0 SmallServer.boot SmallServer.network_quiet
    SmallServer.network_obliging eq_refl) as (w0 & E & H); [vm_compute; discriminate|].
  exists w0. split; [exact E|]. intros w Hr. destruct (H demo_turns w Hr) as (_ & _ & _ & Hd). exact Hd.
Defined.

Lemma replies_pile_up_witness :
  let turns := concat (map interval (repeat (map demo_event [1; 2; 3]) 2)) in
  is_Some (run (N := SmallServer.network []) turns (init_world [])) /\ due (after [] turns) = 4%nat.
Proof.
  intros turns. assert (is_Some (run (N := SmallServer.network []) turns (init_world []))) as Hs by (vm_compute; eexists; reflexivity).
  split; [exact Hs|]. destruct Hs as [w Hw]. unfold after. rewrite Hw. cbn [default].
  refine (replies_pile_up (N := SmallServer.network []) 1 demo_config 0 SmallServer.boot 2 (repeat (map demo_event [1; 2; 3]) 2) (init_world []) w
    SmallServer.network_quiet SmallServer.network_obliging eq_refl (Init_world [] _) _ _ Hw).
  - vm_compute. discriminate.
  - vm_compute. reflexivity.
  - repeat (apply Forall_cons; split; [reflexivity|]). apply Forall_nil_2.
Defined.

Lemma topology_published_witness :
  exists w, PublishIPs (N := SmallServer.network []) (bs "web") [bs "10.0.0.1"; bs "10.0.0.2"] (init_world []) = (None, w) /\
    GetNameByIP (bs "10.0.0.2") w = bs "web".
Proof.
  destruct (topology_published (D := SmallServer.directory) (bs "web") [bs "10.0.0.1"; bs "10.0.0.2"] (init_world []) SmallServer.network_quiet
    SmallServer.network_obliging) as (w & E & _ & _ & H).
  - repeat (apply Forall_cons; split; [repeat (apply Forall_cons; split; [discriminate|]); apply Forall_nil_2|]). apply Forall_nil_2.
  - apply (bool_decide_unpack _). vm_compute. exact I.
  - exists w. split; [exact E|]. apply H; [right; left|]. intros h (v & Hv & _).
    assert (addresses (Directory := SmallServer.directory) (server (net (init_world []))) (DbTopology (out (init_world []))) = ∅) as E0 by (apply (bool_decide_eq_true_1 _); vm_compute; reflexivity).
    rewrite E0 in Hv. destruct (decide (bs "web" = h)) as [->|Hn]; [done|]. by rewrite lookup_insert_ne, lookup_empty in Hv.
Defined.

Lemma run_Publish `{Network W} event acts (w : RedisWorld W) : enabled (Publish event) w = true ->
  run (Publish event :: acts) w = run acts (PublishEvent event w).
Proof. intros Ha. cbn [run]. by rewrite Ha. Qed.

(** A message that does not fit the buffer meets a connection that is gone. *)
Definition long_event : MapStr := {[ bs "text" := MStr (replicate 5000 x61) ]}.

Lemma failed_reconnect_panics_witness :
  let N := SmallServer.network [7%nat; 8%nat] in
  exists w, run (N := N) [Publish long_event; NextMessage; TryReconnect] (init_world [7%nat; 8%nat]) = Some w /\ turn (N := N) FlushTick w = Panic.
Proof.
  intros N. set (w0 := PublishEvent long_event (init_world [7%nat; 8%nat])).
  destruct (Conn (out w0)) as [c|] eqn:Hc; [|exfalso; revert Hc; vm_compute; discriminate].
  destruct (Send (N := N) c (push_command (out w0)) [AString (Index (out w0)); AString (Marshal long_event)] (net w0)) as [[e|] [c' n]] eqn:Es.
  - destruct (failed_reconnect_panics (N := N) w0 (message (out w0) long_event) [] c e c' n (bs "connection reset by peer")) as (w & E & _ & Hp).
    + vm_compute. reflexivity.
    + vm_compute. reflexivity.
    + exact Hc.
    + vm_compute. reflexivity.
    + exact Es.
    + assert (net_calls n = 8%nat) as ->; [|reflexivity]. change n with (snd (snd (Some e, (c', n)))). rewrite <- Es.
      assert (c = default c (Conn (out w0))) as -> by (by rewrite Hc). vm_compute. reflexivity.
    + exists w. split; [|exact Hp]. rewrite run_Publish by (vm_compute; reflexivity). exact E.
  - exfalso. assert (is_Some (fst (Send (N := N) (default c (Conn (out w0))) (push_command (out w0)) [AString (Index (out w0)); AString (Marshal long_event)] (net w0)))) as [e He].
    { vm_compute. eexists. reflexivity. }
    assert (default c (Conn (out w0)) = c) as Ec by (by rewrite Hc). rewrite Ec, Es in He. discriminate.
Defined.
