(* ===== verification/Elastic.v ===== *)
(** The Elasticsearch output: libbeat's outputs/elasticsearch (api.go and bulkapi.go, the client
    of the server's HTTP interface, in the Module [Client], and output.go).  Events are queued
    and collected in a channel by a goroutine; a full channel, or one whose time has come, is
    closed and handed to a goroutine of its own, which posts its contents as one bulk request.
    The goroutines take turns, each turn as far as its next wait. *)
From S2P Require Export GoUrl Unmarshal.
From stdpp Require Import list.
#[local] Open Scope Z_scope.

(** * HTTP *)

Record request := { Method : bytes; URL : bytes; Accept : bytes; BasicAuth : option (bytes * bytes); ReqBody : bytes }.
(** A response with what [ioutil.ReadAll] makes of its body. *)
Record response := { StatusCode : Z; Status : bytes; Body : bytes + bytes }.

(** What [client.Do] makes of a request (an error also for a URL that [http.NewRequest] does
    not take), and the offset of the local time zone, in seconds, at a time. *)
Class Environment (W : Type) := {
  respond : request -> W -> (response + bytes) * W;
  zone : Z -> Z
}.

(** The server with the requests that it was sent. *)
Record Net (W : Type) := { server : W; requests : list request }.
Arguments server {W}. Arguments requests {W}.
#[export] Instance eta_Net {W} : Settable (Net W) := fun r => {| server := server r; requests := requests r |}.

Inductive es_error := DoError (e : bytes) | StatusError (status : bytes) | ReadError (e : bytes) | JsonError.

(** * The client *)

Module Client.

Record Elasticsearch := { Url : bytes; Username : bytes; Password : bytes }.
#[export] Instance eta_Elasticsearch : Settable Elasticsearch := fun r =>
  {| Url := Url r; Username := Username r; Password := Password r |}.

(** A [json.RawMessage] is the document that it is the text of; nil is [None]. *)
Record QueryResult := {
  Ok : bool; Index_ : bytes; Type_ : bytes; Id : bytes; Source : option value; Version : Z;
  Found : bool; Exists : bool; Created : bool; Matches : list bytes
}.
#[export] Instance eta_QueryResult : Settable QueryResult := fun r =>
  {| Ok := Ok r; Index_ := Index_ r; Type_ := Type_ r; Id := Id r; Source := Source r; Version := Version r;
     Found := Found r; Exists := Exists r; Created := Created r; Matches := Matches r |}.
Definition no_QueryResult : QueryResult :=
  {| Ok := false; Index_ := []; Type_ := []; Id := []; Source := None; Version := 0; Found := false; Exists := false; Created := false; Matches := [] |}.

Record Hits := { Total : Z; HitList : list value }.
#[export] Instance eta_Hits : Settable Hits := fun r => {| Total := Total r; HitList := HitList r |}.
Record SearchResults := { Took : Z; Shards : option value; SearchHits : Hits; Aggs : gmap bytes value }.
#[export] Instance eta_SearchResults : Settable SearchResults := fun r =>
  {| Took := Took r; Shards := Shards r; SearchHits := SearchHits r; Aggs := Aggs r |}.
Definition no_SearchResults : SearchResults := {| Took := 0; Shards := None; SearchHits := {| Total := 0; HitList := [] |}; Aggs := ∅ |}.

Definition QueryResult_fields : fields QueryResult :=
  [(bs "ok", set_bool (fun x r => r <| Ok := x |>)); (bs "_index", set_string (fun x r => r <| Index_ := x |>));
   (bs "_type", set_string (fun x r => r <| Type_ := x |>)); (bs "_id", set_string (fun x r => r <| Id := x |>));
   (bs "_source", set_raw (fun x r => r <| Source := Some x |>)); (bs "_version", set_int (fun x r => r <| Version := x |>));
   (bs "found", set_bool (fun x r => r <| Found := x |>)); (bs "exists", set_bool (fun x r => r <| Exists := x |>));
   (bs "created", set_bool (fun x r => r <| Created := x |>));
   (bs "matches", set_slice [] (set_string (fun x _ => x)) (fun x r => r <| Matches := x |>))].
Definition Hits_fields : fields Hits :=
  [(bs "Total", set_int (fun x r => r <| Total := x |>));
   (bs "hits", set_slice VNull (set_raw (fun x _ => x)) (fun x r => r <| HitList := x |>))].
Definition SearchResults_fields : fields SearchResults :=
  [(bs "took", set_int (fun x r => r <| Took := x |>)); (bs "_shards", set_raw (fun x r => r <| Shards := Some x |>));
   (bs "hits", set_inner SearchHits (fun x r => r <| SearchHits := x |>) (set_struct Hits_fields));
   (bs "aggregations", set_map (fun x r => r <| Aggs := x |>) Aggs)].

Definition DefaultElasticsearchUrl : bytes := bs "http://localhost:9200".

Definition NewElasticsearch (url username password : bytes) : Elasticsearch :=
  let es := {| Url := DefaultElasticsearchUrl; Username := []; Password := [] |} in
  let es := if decide (url <> Url es) then es <| Url := url |> else es in
  es <| Username := username |> <| Password := password |>.

(** The order in which the map is walked does not matter: each key has one value. *)
Definition UrlEncode (params : gmap bytes bytes) : bytes := Encode ((fun val => [val]) <$> params).

Definition MakePath (index doc_type id : bytes) : bytes :=
  if decide (0 < len doc_type) then
    if decide (0 < len id) then bs "/" ++ index ++ bs "/" ++ doc_type ++ bs "/" ++ id
    else bs "/" ++ index ++ bs "/" ++ doc_type
  else if decide (0 < len id) then
    if decide (0 < len index) then bs "/" ++ index ++ bs "/" ++ id else bs "/" ++ id
  else bs "/" ++ index.

Section Requests.
Context {W : Type} {E : Environment W}.
Implicit Types (es : Elasticsearch) (n : Net W).

Definition Do (req : request) n : (response + bytes) * Net W :=
  let '(r, s) := respond req (server n) in (r, {| server := s; requests := requests n ++ [req] |}).

Definition with_params (url : bytes) (params : gmap bytes bytes) : bytes :=
  if decide (0 < Z.of_nat (size params)) then url ++ bs "?" ++ UrlEncode params else url.

Definition new_request es (method url body : bytes) : request :=
  {| Method := method; URL := url; Accept := bs "application/json";
     BasicAuth := if decide (Username es <> [] \/ Password es <> []) then Some (Username es, Password es) else None;
     ReqBody := body |}.

(** The body is nil or a value that has a JSON text; no caller looks at the response that
    comes with an error. *)
Definition Request es (method url : bytes) (params : gmap bytes bytes) (body : option json) n : (response + es_error) * Net W :=
  let url := with_params (Url es ++ url) params in
  let obj := match body with Some j => print_json j | None => [] end in
  match Do (new_request es method url obj) n with
  | (inr e, n) => (inr (DoError e), n)
  | (inl resp, n) => (if decide (299 < StatusCode resp) then inr (StatusError (Status resp)) else inl resp, n)
  end.

(** The body of a response, decoded. *)
Definition read_body {T} (f : setter T) (zero : T) (resp : response) : T + es_error :=
  match Body resp with
  | inr e => inr (ReadError e)
  | inl obj => let '(result, err) := Unmarshal f obj zero in if err then inr JsonError else inl result
  end.
Definition ReadQueryResult (resp : response) : QueryResult + es_error := read_body (set_struct QueryResult_fields) no_QueryResult resp.

Definition and_read {T} (read : response -> T + es_error) (r : (response + es_error) * Net W) : (T + es_error) * Net W :=
  match r with (inr e, n) => (inr e, n) | (inl resp, n) => (read resp, n) end.

Definition Index es (index doc_type id : bytes) (params : gmap bytes bytes) (body : option json) n : (QueryResult + es_error) * Net W :=
  let path := MakePath index doc_type id in
  let method := if decide (len id = 0) then bs "POST" else bs "PUT" in
  and_read (read_body (set_struct QueryResult_fields) no_QueryResult) (Request es method path params body n).

Definition Refresh es (index : bytes) n := and_read ReadQueryResult (Request es (bs "POST") (MakePath index [] (bs "_refresh")) ∅ None n).
Definition CreateIndex es (index : bytes) n := and_read ReadQueryResult (Request es (bs "PUT") (MakePath index [] []) ∅ None n).
Definition Delete es (index doc_type id : bytes) (params : gmap bytes bytes) n :=
  and_read ReadQueryResult (Request es (bs "DELETE") (MakePath index doc_type id) params None n).
Definition SearchUri es (index doc_type : bytes) (params : gmap bytes bytes) n : (SearchResults + es_error) * Net W :=
  and_read (read_body (set_struct SearchResults_fields) no_SearchResults)
    (Request es (bs "GET") (MakePath index doc_type (bs "_search")) params None n).

(** ** bulkapi.go *)

(** The objects of a closed channel, each as a line ([Encoder.Encode]). *)
Definition bulk_body (body : list MapStr) : bytes := unlines (map Marshal body).

(** No result and no error when there is nothing to send; a result can come with an error. *)
Definition Bulk es (index doc_type : bytes) (params : gmap bytes bytes) (body : list MapStr) n :
    (option QueryResult * option es_error) * Net W :=
  let buf := bulk_body body in
  if decide (len buf = 0) then ((None, None), n)
  else
    let path := MakePath index doc_type (bs "_bulk") in
    match Do (new_request es (bs "POST") (with_params (Url es ++ path) params) buf) n with
    | (inr e, n) => ((None, Some (DoError e)), n)
    | (inl resp, n) =>
        match read_body (set_struct QueryResult_fields) no_QueryResult resp with
        | inr e => ((None, Some e), n)
        | inl result => ((Some result, if decide (299 < StatusCode resp) then Some (StatusError (Status resp)) else None), n)
        end
    end.
End Requests.
End Client.

(** * The output *)

Record BulkMsg := { Ts : Z; Event : MapStr }.

(** Durations are in nanoseconds. *)
Record ElasticsearchOutput := {
  Index : bytes; TopologyExpire : Z; Conn : Client.Elasticsearch; FlushInterval : Z; BulkMaxSize : Z;
  TopologyMap : gmap bytes bytes; sendingQueue : list BulkMsg
}.
#[export] Instance eta_ElasticsearchOutput : Settable ElasticsearchOutput := fun r =>
  {| Index := Index r; TopologyExpire := TopologyExpire r; Conn := Conn r; FlushInterval := FlushInterval r;
     BulkMaxSize := BulkMaxSize r; TopologyMap := TopologyMap r; sendingQueue := sendingQueue r |}.

(** The output with its goroutine's channel, what the goroutine still waits to put into it, the
    closed channels of the goroutines that post them, and the server. *)
Record ElasticWorld (W : Type) := {
  out : ElasticsearchOutput; bulkChannel : list MapStr; putting : list MapStr; bulks : list (list MapStr); net : Net W
}.
Arguments out {W}. Arguments bulkChannel {W}. Arguments putting {W}. Arguments bulks {W}. Arguments net {W}.
#[export] Instance eta_ElasticWorld {W} : Settable (ElasticWorld W) := fun r =>
  {| out := out r; bulkChannel := bulkChannel r; putting := putting r; bulks := bulks r; net := net r |}.

(** The fields of [MothershipConfig] that the output reads. *)
Record ElasticConfig := {
  ec_Protocol : bytes; ec_Host : bytes; ec_Port : Z; ec_Path : bytes; ec_Username : bytes; ec_Password : bytes;
  ec_Index : bytes; ec_Flush_interval : option Z; ec_Bulk_size : option Z
}.

Definition Millisecond : Z := 1000000.

(** [Init] as far as the settings. *)
Definition configured (config : ElasticConfig) (topology_expire : Z) : ElasticsearchOutput :=
  let protocol := if decide (len (ec_Protocol config) = 0) then bs "http" else ec_Protocol config in
  let url := protocol ++ bs "://" ++ ec_Host config ++ bs ":" ++ Itoa (ec_Port config) ++ ec_Path config in
  {| Conn := Client.NewElasticsearch url (ec_Username config) (ec_Password config);
     Index := if decide (ec_Index config <> []) then ec_Index config else bs "packetbeat";
     TopologyExpire := if decide (topology_expire <> 0) then int64_of (topology_expire * 1000) else 15000;
     FlushInterval := match ec_Flush_interval config with Some f => int64_of (f * Millisecond) | None => 1000 * Millisecond end;
     BulkMaxSize := default 10000 (ec_Bulk_size config);
     TopologyMap := ∅; sendingQueue := [] |}.

Definition topology_index : bytes := bs ".packetbeat-topology".

(** The setting of [EnableTTL] and the document of [PublishIPs], as [json.Marshal] orders them. *)
Definition ttl_setting : json :=
  JObject [(bs "server-ip", JObject [(bs "_ttl", JObject [(bs "default", JString (bs "15000")); (bs "enabled", JString (bs "true"))])])].

Record PublishedTopology := { pt_Name : bytes; pt_IPs : bytes }.
#[export] Instance eta_PublishedTopology : Settable PublishedTopology := fun r => {| pt_Name := pt_Name r; pt_IPs := pt_IPs r |}.
Definition topology_json (p : PublishedTopology) : json := JObject [(bs "Name", JString (pt_Name p)); (bs "IPs", JString (pt_IPs p))].
Definition PublishedTopology_fields : fields PublishedTopology :=
  [(bs "Name", set_string (fun x p => p <| pt_Name := x |>)); (bs "IPs", set_string (fun x p => p <| pt_IPs := x |>))].

Section Output.
Context {W : Type} {E : Environment W}.
Implicit Types (w : ElasticWorld W) (o : ElasticsearchOutput) (n : Net W).

(** The result of [CreateIndex] is not looked at. *)
Definition EnableTTL o n : option es_error * Net W :=
  let '(_, n) := Client.CreateIndex (Conn o) topology_index n in
  match Client.Index (Conn o) topology_index (bs "server-ip") (bs "_mapping") ∅ (Some ttl_setting) n with
  | (inr e, n) => (Some e, n)
  | (inl _, n) => (None, n)
  end.

(** The goroutine that [Init] starts makes its channel first, which panics for a negative size
    (and for one that memory has no room for, which is left out). *)
Definition Init (config : ElasticConfig) (topology_expire : Z) n : outcome (ElasticWorld W + es_error) :=
  let o := configured config topology_expire in
  match EnableTTL o n with
  | (Some e, _) => Ret (inr e)
  | (None, n) =>
      if decide (BulkMaxSize o < 0) then Panic
      else Ret (inl {| out := o; bulkChannel := []; putting := []; bulks := []; net := n |})
  end.

Definition GetNameByIP (ip : bytes) w : bytes := default [] (TopologyMap (out w) !! ip).

(** ** SendMessagesGoroutine *)

(** The channel is closed and handed to a goroutine; the caller makes a new one. *)
Definition InsertBulkMessage w : ElasticWorld W := w <| bulks := bulks w ++ [bulkChannel w] |> <| bulkChannel := [] |>.

(** [bulkChannel <- item] for one item after the other; it waits while there is no room. *)
Fixpoint put (items : list MapStr) w : ElasticWorld W :=
  match items with
  | [] => w <| putting := [] |>
  | x :: rest =>
      if decide (len (bulkChannel w) < BulkMaxSize (out w)) then put rest (w <| bulkChannel := bulkChannel w ++ [x] |>)
      else w <| putting := items |>
  end.

(** The day in the local time zone. *)
Definition index_name o (ts : Z) : bytes :=
  let '(year, month, day) := absDate (time_abs (ts + zone ts * 1000000000)) in
  Index o ++ bs "-" ++ Itoa year ++ bs "." ++ zero_pad 2 month ++ bs "." ++ zero_pad 2 day.

Definition bulk_action (index ty : bytes) : MapStr :=
  {[ bs "index" := MMap {[ bs "_index" := MStr index; bs "_type" := MStr ty ]} ]}.

Definition send_message (m : BulkMsg) w : outcome (ElasticWorld W) :=
  let index := index_name (out w) (Ts m) in
  if decide (0 < FlushInterval (out w)) then
    let w := if decide (BulkMaxSize (out w) < len (bulkChannel w) + 2) then InsertBulkMessage w else w in
    match Event m !! bs "type" with
    | Some (MStr ty) => Ret (put [bulk_action index ty; Event m] w)
    | _ => Panic
    end
  else
    match Event m !! bs "type" with
    | Some (MStr ty) => Ret (w <| net := snd (Client.Index (Conn (out w)) index ty [] ∅ (Some (to_json (MMap (Event m)))) (net w)) |>)
    | _ => Panic
    end.

Definition message_turn w : outcome (ElasticWorld W) :=
  match sendingQueue (out w) with
  | [] => Ret w
  | m :: queue => send_message m (w <| out := out w <| sendingQueue := queue |> |>)
  end.

(** The goroutine of a closed channel. *)
Definition bulk_turn (i : nat) w : ElasticWorld W :=
  match bulks w !! i with
  | None => w
  | Some body => w <| bulks := delete i (bulks w) |> <| net := snd (Client.Bulk (Conn (out w)) [] [] ∅ body (net w)) |>
  end.

(** ** Topology *)

(** The loop over the documents that were found; it returns at one that is not a result. *)
Fixpoint add_hits (hits : list value) (m : gmap bytes bytes) : option (gmap bytes bytes) :=
  match hits with
  | [] => Some m
  | obj :: hits =>
      let '(result, err) := set_struct Client.QueryResult_fields obj Client.no_QueryResult in
      if err then None
      else
        let '(pub, _) := UnmarshalRaw (set_struct PublishedTopology_fields) (Client.Source result) {| pt_Name := []; pt_IPs := [] |} in
        add_hits hits (foldl (fun m addr => <[addr := pt_Name pub]> m) m (Split (pt_IPs pub) ","%byte))
  end.

(** After a search that fails the map is empty. *)
Definition UpdateLocalTopologyMap w : ElasticWorld W :=
  match Client.SearchUri (Conn (out w)) topology_index (bs "server-ip") ∅ (net w) with
  | (inr _, n) => w <| net := n |> <| out := out w <| TopologyMap := ∅ |> |>
  | (inl res, n) =>
      match add_hits (Client.HitList (Client.SearchHits res)) ∅ with
      | None => w <| net := n |>
      | Some m => w <| net := n |> <| out := out w <| TopologyMap := m |> |>
      end
  end.

Definition PublishIPs (name : bytes) (localAddrs : list bytes) w : option es_error * ElasticWorld W :=
  let params := {[ bs "ttl" := Itoa (TopologyExpire (out w)); bs "refresh" := bs "true" ]} in
  let doc := topology_json {| pt_Name := name; pt_IPs := GoStd.Join localAddrs (bs ",") |} in
  match Client.Index (Conn (out w)) topology_index (bs "server-ip") name params (Some doc) (net w) with
  | (inr e, n) => (Some e, w <| net := n |>)
  | (inl _, n) => (None, UpdateLocalTopologyMap (w <| net := n |>))
  end.

(** The queue has room for 1000 messages; the caller waits while it has none. *)
Definition queue_capacity : nat := 1000.
Definition PublishEvent (ts : Z) (event : MapStr) w : ElasticWorld W :=
  w <| out := out w <| sendingQueue := sendingQueue (out w) ++ [{| Ts := ts; Event := event |}] |> |>.

(** ** Turns *)

Inductive action :=
| Publish (m : BulkMsg) | NextMessage | FlushTick | BulkCall (i : nat) | Topology (name : bytes) (localAddrs : list bytes).

(** The turns that the goroutines can take; one that waits to put something into a channel
    takes no other. *)
Definition enabled (a : action) w : bool :=
  match a with
  | Publish _ => bool_decide (length (sendingQueue (out w)) < queue_capacity)%nat
  | NextMessage => bool_decide (putting w = []) && bool_decide (sendingQueue (out w) <> [])
  | FlushTick => bool_decide (putting w = []) && bool_decide (0 < FlushInterval (out w))
  | BulkCall i => bool_decide (is_Some (bulks w !! i))
  | Topology _ _ => true
  end.

Definition turn (a : action) w : outcome (ElasticWorld W) :=
  match a with
  | Publish m => Ret (PublishEvent (Ts m) (Event m) w)
  | NextMessage => message_turn w
  | FlushTick => Ret (InsertBulkMessage w)
  | BulkCall i => Ret (bulk_turn i w)
  | Topology name localAddrs => Ret (snd (PublishIPs name localAddrs w))
  end.

(** What the turns of the goroutines make of a world. *)
Inductive runs w : list action -> ElasticWorld W -> Prop :=
| runs_start : runs w [] w
| runs_turn acts w1 a w2 : runs w acts w1 -> enabled a w1 = true -> turn a w1 = Ret w2 -> runs w (acts ++ [a]) w2.

(** The same, computed. *)
Fixpoint run (acts : list action) w : option (ElasticWorld W) :=
  match acts with
  | [] => Some w
  | a :: acts => if enabled a w then match turn a w with Ret w => run acts w | _ => None end else None
  end.

(** The messages of the turns. *)
Definition published (acts : list action) : list BulkMsg := omap (fun a => match a with Publish m => Some m | _ => None end) acts.
End Output.

(** * The requests of a call *)

Section Calls.
Context {W : Type} {E : Environment W}.
Implicit Types (w : ElasticWorld W) (o : ElasticsearchOutput) (n : Net W) (es : Client.Elasticsearch).

Lemma Do_requests req n : requests (snd (Client.Do req n)) = requests n ++ [req].
Proof. unfold Client.Do. by destruct (respond req (server n)). Qed.

Definition body_text (body : option json) : bytes := match body with Some j => print_json j | None => [] end.

Lemma Request_requests es method url params body n : requests (snd (Client.Request es method url params body n)) =
  requests n ++ [Client.new_request es method (Client.with_params (Client.Url es ++ url) params) (body_text body)].
Proof.
  unfold Client.Request. fold (body_text body). set (req := Client.new_request _ _ _ _).
  rewrite <- (Do_requests req n). by destruct (Client.Do req n) as [[resp|e] n'].
Qed.

Lemma and_read_net {T} (read : response -> T + es_error) (r : (response + es_error) * Net W) : snd (Client.and_read read r) = snd r.
Proof. by destruct r as [[resp|e] n]. Qed.

Definition index_request es (index ty id : bytes) (params : gmap bytes bytes) (body : option json) : request :=
  Client.new_request es (if decide (len id = 0) then bs "POST" else bs "PUT")
    (Client.with_params (Client.Url es ++ Client.MakePath index ty id) params) (body_text body).

Lemma Index_requests es index ty id params body n :
  requests (snd (Client.Index es index ty id params body n)) = requests n ++ [index_request es index ty id params body].
Proof. unfold Client.Index. by rewrite and_read_net, Request_requests. Qed.

(** ** Events are posted, nothing else is *)

Definition is_post (req : request) : Prop := Method req = bs "POST".
#[export] Instance is_post_dec req : Decision (is_post req).
Proof. unfold is_post. apply _. Defined.
Definition posts n : list request := filter is_post (requests n).
#[local] Arguments posts : simpl never.

Definition named (name : bytes) : Prop := name <> [].

Lemma not_empty_len {A} (l : list A) : l <> [] -> len l <> 0.
Proof. destruct l; [done|]. unfold len. cbn. lia. Qed.

Lemma Index_posts es index ty id params body n : named id -> posts (snd (Client.Index es index ty id params body n)) = posts n.
Proof.
  intros Hid. unfold posts. rewrite Index_requests, filter_app, filter_cons_False, filter_nil; [apply app_nil_r|].
  unfold is_post, index_request. rewrite decide_False by (by apply not_empty_len). by intros [=].
Qed.

Lemma SearchUri_posts es index ty params n : posts (snd (Client.SearchUri es index ty params n)) = posts n.
Proof.
  unfold posts, Client.SearchUri. rewrite and_read_net, Request_requests, filter_app, filter_cons_False, filter_nil; [apply app_nil_r|].
  by intros [=].
Qed.

Lemma EnableTTL_posts o n : posts (snd (EnableTTL o n)) = posts n.
Proof.
  unfold EnableTTL. destruct (Client.CreateIndex (Conn o) topology_index n) as [r n1] eqn:E1.
  pose proof (Index_posts (Conn o) topology_index (bs "server-ip") (bs "_mapping") ∅ (Some ttl_setting) n1 ltac:(done)) as H.
  assert (posts n1 = posts n) as H1.
  { change n1 with (snd (r, n1)). rewrite <- E1. unfold posts, Client.CreateIndex.
    rewrite and_read_net, Request_requests, filter_app, filter_cons_False, filter_nil; [apply app_nil_r|]. by intros [=]. }
  destruct (Client.Index _ _ _ _ _ _ _) as [[r2|e] n2]; cbn [snd] in *; congruence.
Qed.

Lemma PublishIPs_keeps name addrs w : named name ->
  let w' := snd (PublishIPs name addrs w) in
  posts (net w') = posts (net w) /\ bulkChannel w' = bulkChannel w /\ putting w' = putting w /\ bulks w' = bulks w /\
  exists m, out w' = out w <| TopologyMap := m |>.
Proof.
  intros Hn. assert (exists m, out w = out w <| TopologyMap := m |>) as Hid by (exists (TopologyMap (out w)); by destruct (out w)).
  unfold PublishIPs. set (params := <[_ := _]> _). set (doc := topology_json _).
  pose proof (Index_posts (Conn (out w)) topology_index (bs "server-ip") name params (Some doc) (net w) Hn) as H.
  destruct (Client.Index _ _ _ _ _ _ _) as [[r|e] n1]; cbn [fst snd] in *; [|by repeat split].
  unfold UpdateLocalTopologyMap.
  pose proof (SearchUri_posts (Conn (out w)) topology_index (bs "server-ip") ∅ n1) as H2.
  change (Conn (out (w <| net := n1 |>))) with (Conn (out w)). change (net (w <| net := n1 |>)) with n1.
  destruct (Client.SearchUri _ _ _ _ _) as [[res|e] n2]; cbn [snd] in H2.
  - destruct (add_hits _ _) as [m|]; (split; [cbn; congruence|]); repeat split; [by exists m|exact Hid].
  - split; [cbn; congruence|]. repeat split. by exists ∅.
Qed.

(** ** The requests of a batch *)

Definition type_of (m : BulkMsg) : bytes := match Event m !! bs "type" with Some (MStr ty) => ty | _ => [] end.
Definition has_type (m : BulkMsg) : Prop := exists ty, Event m !! bs "type" = Some (MStr ty).

Definition msg_items o (m : BulkMsg) : list MapStr := [bulk_action (index_name o (Ts m)) (type_of m); Event m].
Definition items o (b : list BulkMsg) : list MapStr := concat (map (msg_items o) b).

Lemma items_app o b c : items o (b ++ c) = items o b ++ items o c.
Proof. unfold items. by rewrite map_app, concat_app. Qed.
Lemma items_len o b : len (items o b) = 2 * len b.
Proof. induction b as [|m b IH]; [done|]. unfold items in *. cbn [map concat]. rewrite len_app, IH. unfold len. cbn. lia. Qed.

Definition bulk_request o (b : list BulkMsg) : request :=
  Client.new_request (Conn o) (bs "POST") (Client.Url (Conn o) ++ bs "/_bulk") (Client.bulk_body (items o b)).

Lemma bulk_body_empty l : Client.bulk_body l = [] -> l = [].
Proof. destruct l as [|x l]; [done|]. unfold Client.bulk_body, unlines. cbn. by destruct (Marshal x). Qed.

Lemma Bulk_posts o b n :
  posts (snd (Client.Bulk (Conn o) [] [] ∅ (items o b) n)) = posts n ++ (if decide (b = []) then [] else [bulk_request o b]).
Proof.
  unfold Client.Bulk. destruct (decide (b = [])) as [->|Hb]; [rewrite decide_True by done; by rewrite app_nil_r|].
  rewrite decide_False.
  2: { apply not_empty_len. intros Hi%bulk_body_empty. destruct b; done. }
  change (Client.new_request _ _ _ _) with (bulk_request o b). set (req := bulk_request o b).
  assert (posts (snd (Client.Do req n)) = posts n ++ [req]) as <-.
  { unfold posts. by rewrite Do_requests, filter_app, filter_cons_True, filter_nil. }
  destruct (Client.Do req n) as [[resp|e] n1]; [|done]. by destruct (Client.read_body _ _ resp).
Qed.
End Calls.

(** * Every event is posted, in one batch *)

Definition same_config (o o' : ElasticsearchOutput) : Prop :=
  Index o' = Index o /\ Conn o' = Conn o /\ FlushInterval o' = FlushInterval o /\ BulkMaxSize o' = BulkMaxSize o.

(** What the turns need: events have a type, which the publisher sees to, and so has the shipper a name. *)
Definition proper (a : action) : Prop :=
  match a with Publish m => has_type m | Topology name _ => named name | _ => True end.

Section Batches.
Context {W : Type} {E : Environment W}.
Implicit Types (w : ElasticWorld W) (o : ElasticsearchOutput) (n : Net W) (events queue b : list BulkMsg).

Lemma index_name_config o o' ts : same_config o o' -> index_name o' ts = index_name o ts.
Proof. intros (H & _). unfold index_name. by rewrite H. Qed.

(** The batches in the order in which they are cut, of which some have been posted ([sent], in
    the order of their requests) and the others wait; [cur] is in the channel. *)
Record batching o events w (batches sent pend : list (list BulkMsg)) (cur : list BulkMsg) : Prop := {
  bt_config : same_config o (out w);
  bt_free : putting w = [];
  bt_events : concat batches ++ cur ++ sendingQueue (out w) = events;
  bt_typed : Forall has_type events;
  bt_split : batches ≡ₚ sent ++ pend;
  bt_size : Forall (fun b => 2 * len b <= BulkMaxSize o) (cur :: batches);
  bt_channel : bulkChannel w = items o cur;
  bt_bulks : bulks w = map (items o) pend;
  bt_posts : posts (net w) = map (bulk_request o) (filter (fun b => b <> []) sent)
}.

Definition batched o events w : Prop := exists batches sent pend cur, batching o events w batches sent pend cur.

Lemma cut_batch o events w batches sent pend cur : 0 <= BulkMaxSize o ->
  batching o events w batches sent pend cur -> batching o events (InsertBulkMessage w) (batches ++ [cur]) sent (pend ++ [cur]) [].
Proof.
  intros Hs [Hc Hf He Ht Hp Hz Hch Hb Hq]. apply Forall_cons in Hz as [Hz1 Hz2].
  split; cbn; try done.
  - rewrite concat_app. cbn. by rewrite app_nil_r, <- app_assoc.
  - rewrite Hp. by rewrite app_assoc.
  - apply Forall_cons. split; [done|]. apply Forall_app. split; [done|by apply Forall_singleton].
  - by rewrite Hb, Hch, map_app.
Qed.

(** Room for two. *)
Lemma put_two x y w : len (bulkChannel w) + 2 <= BulkMaxSize (out w) ->
  put [x; y] w = w <| bulkChannel := bulkChannel w ++ [x; y] |> <| putting := [] |>.
Proof.
  intros H. cbn [put]. rewrite decide_True by lia. cbn. rewrite len_app. rewrite decide_True by (unfold len in *; cbn; lia).
  destruct w; cbn. by rewrite <- app_assoc.
Qed.

Lemma message_batching o events w m queue batches sent pend cur :
  2 <= BulkMaxSize o -> 0 < FlushInterval o -> sendingQueue (out w) = m :: queue ->
  batching o events w batches sent pend cur ->
  exists w' batches' pend' cur', message_turn w = Ret w' /\ batching o events w' batches' sent pend' cur' /\ sendingQueue (out w') = queue.
Proof.
  intros Hs Hf Hq Hw. unfold message_turn. rewrite Hq. set (w1 := w <| out := _ |>).
  pose proof (bt_config _ _ _ _ _ _ _ Hw) as (HI & HC & HF & HB).
  assert (has_type m) as [ty Hty].
  { pose proof (bt_typed _ _ _ _ _ _ _ Hw) as Ht. rewrite <- (bt_events _ _ _ _ _ _ _ Hw), Hq in Ht.
    apply Forall_app in Ht as [_ Ht]. apply Forall_app in Ht as [_ Ht]. by apply Forall_cons in Ht as [? _]. }
  unfold send_message. change (FlushInterval (out w1)) with (FlushInterval (out w)). rewrite HF, decide_True by done.
  rewrite Hty. assert (type_of m = ty) as <- by (unfold type_of; by rewrite Hty).
  change (BulkMaxSize (out w1)) with (BulkMaxSize (out w)). rewrite HB.
  change (bulkChannel w1) with (bulkChannel w).
  assert (exists w2 batches' pend' cur', (if decide (BulkMaxSize o < len (bulkChannel w) + 2) then InsertBulkMessage w1 else w1) = w2 <| out := out w1 |> /\
    batching o events w2 batches' sent pend' cur' /\ len (bulkChannel w2) + 2 <= BulkMaxSize o /\ sendingQueue (out w2) = m :: queue) as (w2 & batches' & pend' & cur' & -> & H2 & Hlen & Hq2).
  { case_decide as Hd.
    - exists (InsertBulkMessage w), (batches ++ [cur]), (pend ++ [cur]), []. split; [done|]. split; [apply cut_batch; [lia|done]|]. split; [unfold len; cbn; lia|done].
    - exists w, batches, pend, cur. split; [by destruct w|]. split; [done|]. split; [lia|done]. }
  destruct H2 as [(HI2 & HC2 & HF2 & HB2) Hfr He Ht Hp Hz Hch Hb Hpo].
  rewrite put_two by (cbn; lia). eexists _, batches', pend', (cur' ++ [m]). split; [reflexivity|]. split; [|done].
  split; cbn; try done.
  - rewrite <- He, Hq2. by rewrite <- !app_assoc.
  - apply Forall_cons in Hz as [Hz1 Hz2]. apply Forall_cons. split; [|done].
    rewrite Hch, items_len in Hlen. rewrite len_app. unfold len in *. cbn. lia.
  - rewrite Hch, items_app. f_equal. unfold items, msg_items. cbn. by rewrite (index_name_config o) by done.
Qed.

Lemma bulk_batching o events w batches sent pend cur i b : pend !! i = Some b ->
  batching o events w batches sent pend cur -> batching o events (bulk_turn i w) batches (sent ++ [b]) (delete i pend) cur.
Proof.
  intros Hi [(HI & HC & HF & HB) Hf He Ht Hp Hz Hch Hb Hq]. unfold bulk_turn.
  assert (bulks w !! i = Some (items o b)) as Hi' by (rewrite Hb; change (map ?f ?l) with (f <$> l); by rewrite list_lookup_fmap, Hi).
  rewrite Hi'. split; cbn; try done.
  - rewrite Hp, <- app_assoc. f_equiv. cbn. by apply delete_Permutation.
  - rewrite Hb. change (map ?f ?l) with (f <$> l). rewrite !delete_take_drop, fmap_app, fmap_take, fmap_drop. done.
  - rewrite HC, Bulk_posts, Hq, filter_app, map_app. f_equal. rewrite filter_cons, filter_nil. by repeat case_decide.
Qed.

Lemma turn_batching o events w a : 2 <= BulkMaxSize o -> 0 < FlushInterval o -> proper a ->
  batched o events w -> enabled a w = true -> exists w', turn a w = Ret w' /\ batched o (events ++ published [a]) w'.
Proof.
  intros Hs Hf Ha (batches & sent & pend & cur & Hw) He. destruct a as [m| | |i|name addrs]; cbn [turn published omap list_omap]; rewrite ?app_nil_r.
  - eexists. split; [reflexivity|]. exists batches, sent, pend, cur. destruct Hw as [Hc Hfr Hev Ht Hp Hz Hch Hb Hq]. split; cbn; try done.
    + rewrite <- Hev, <- !app_assoc. by destruct m.
    + apply Forall_app. split; [done|]. by apply Forall_singleton.
  - cbn in He. apply andb_true_iff in He as [_ He%bool_decide_eq_true]. destruct (sendingQueue (out w)) as [|m queue] eqn:Hq; [done|].
    edestruct message_batching as (w' & batches' & pend' & cur' & -> & Hw' & _); [exact Hs|exact Hf|exact Hq|exact Hw|].
    eexists. split; [reflexivity|]. by exists batches', sent, pend', cur'.
  - eexists. split; [reflexivity|]. exists (batches ++ [cur]), sent, (pend ++ [cur]), []. apply cut_batch; [lia|done].
  - cbn in He. apply bool_decide_eq_true in He as [l Hl].
    assert (exists b, pend !! i = Some b) as [b Hb].
    { rewrite (bt_bulks _ _ _ _ _ _ _ Hw) in Hl. change (map ?f ?l) with (f <$> l) in Hl. rewrite list_lookup_fmap in Hl.
      destruct (pend !! i) as [b|]; [by exists b|done]. }
    eexists. split; [reflexivity|]. exists batches, (sent ++ [b]), (delete i pend), cur. by apply bulk_batching.
  - eexists. split; [reflexivity|]. exists batches, sent, pend, cur.
    destruct (PublishIPs_keeps name addrs w Ha) as (H1 & H2 & H3 & H4 & m & H5). destruct Hw as [Hc Hfr Hev Ht Hp Hz Hch Hb Hq].
    split; rewrite ?H1, ?H2, ?H3, ?H4, ?H5; done.
Qed.

Lemma published_app acts1 acts2 : published (acts1 ++ acts2) = published acts1 ++ published acts2.
Proof. apply omap_app. Qed.

Lemma runs_batched o events w acts w' : 2 <= BulkMaxSize o -> 0 < FlushInterval o -> Forall proper acts ->
  batched o events w -> runs w acts w' -> batched o (events ++ published acts) w'.
Proof.
  intros Hs Hf Ha Hw H. induction H as [|acts w1 a w2 _ IH He Ht]; [by rewrite app_nil_r|].
  apply Forall_app in Ha as [Ha [Ha1 _]%Forall_cons]. rewrite published_app, app_assoc.
  edestruct turn_batching as (w3 & E3 & H3); [exact Hs|exact Hf|exact Ha1|by apply IH|exact He|]. by assert (w3 = w2) as <- by congruence.
Qed.

Lemma Init_batched config te n w : Init config te n = Ret (inl w) -> posts n = [] -> 0 <= BulkMaxSize (configured config te) ->
  batched (configured config te) [] w.
Proof.
  intros H Hn Hs. unfold Init in H. pose proof (EnableTTL_posts (configured config te) n) as Hp.
  destruct (EnableTTL _ _) as [[e|] n1]; [done|]. cbn [snd] in Hp. rewrite decide_False in H by lia. injection H as <-.
  exists [], [], [], []. split; cbn; try done; [by repeat constructor|congruence].
Qed.

(** C37: the events that are published are cut into batches in their order; a batch has no more
    objects than the configured size, and is posted by one request, in any order, or waits;
    the others are in the channel or the queue, and nothing else is posted. *)
Theorem events_in_batches config te n w0 acts w :
  let o := configured config te in
  Init config te n = Ret (inl w0) -> posts n = [] -> 0 < FlushInterval o -> 2 <= BulkMaxSize o ->
  runs w0 acts w -> Forall proper acts ->
  exists batches sent waiting cur,
    concat batches ++ cur ++ sendingQueue (out w) = published acts /\ batches ≡ₚ sent ++ waiting /\
    posts (net w) = map (bulk_request o) (filter (fun b => b <> []) sent) /\
    bulks w = map (items o) waiting /\ bulkChannel w = items o cur /\
    Forall (fun b => len (items o b) <= BulkMaxSize o) (cur :: batches) /\
    forall a, proper a -> enabled a w = true -> exists w', turn a w = Ret w'.
Proof.
  intros o Hi Hn Hf Hs Hr Ha. pose proof (Init_batched config te n w0 Hi Hn ltac:(fold o; lia)) as H0. fold o in H0.
  pose proof (runs_batched o [] w0 acts w Hs Hf Ha H0 Hr) as Hw. cbn [app] in Hw.
  assert (forall a, proper a -> enabled a w = true -> exists w', turn a w = Ret w') as Hgo.
  { intros a Hp He. destruct (turn_batching o _ w a Hs Hf Hp Hw He) as (w' & E' & _). by exists w'. }
  destruct Hw as (batches & sent & pend & cur & [Hc Hfr Hev Ht Hp Hz Hch Hb Hq]).
  exists batches, sent, pend, cur. repeat split; try done. eapply Forall_impl; [exact Hz|]. cbn. intros b Hlen. by rewrite items_len.
Qed.
End Batches.

(** * Every event is posted in the end *)

Section Drain.
Context {W : Type} {E : Environment W}.
Implicit Types (w : ElasticWorld W) (o : ElasticsearchOutput) (n : Net W) (events queue b : list BulkMsg).

Lemma es_run_app acts1 acts2 w : run (acts1 ++ acts2) w = (w1 ← run acts1 w; run acts2 w1).
Proof.
  revert w. induction acts1 as [|a acts1 IH]; intros w; [done|]. cbn. destruct (enabled a w); [|done].
  destruct (turn a w); [apply IH|done..].
Qed.

Lemma drain_queue o events : forall queue w, 2 <= BulkMaxSize o -> 0 < FlushInterval o -> batched o events w -> sendingQueue (out w) = queue ->
  exists w', run (replicate (length queue) NextMessage) w = Some w' /\ batched o events w' /\ sendingQueue (out w') = [].
Proof.
  induction queue as [|m queue IH]; intros w Hs Hf Hw Hq; [by exists w|]. destruct Hw as (batches & sent & pend & cur & Hw).
  destruct (message_batching o events w m queue _ _ _ _ Hs Hf Hq Hw) as (w1 & batches' & pend' & cur' & E1 & Hw1 & Hq1).
  destruct (IH w1 Hs Hf) as (w' & E' & H'); [by exists batches', sent, pend', cur'|exact Hq1|]. exists w'. split; [|exact H'].
  cbn [length replicate run]. cbn [enabled]. rewrite (bt_free _ _ _ _ _ _ _ Hw), Hq. cbn [turn]. by rewrite E1.
Qed.

Lemma drain_bulks o events : forall pend w batches sent cur, batching o events w batches sent pend cur ->
  exists w' sent', run (replicate (length pend) (BulkCall 0)) w = Some w' /\ batching o events w' batches sent' [] cur /\ out w' = out w.
Proof.
  induction pend as [|b pend IH]; intros w batches sent cur Hw; [by exists w, sent|].
  pose proof (bulk_batching o events w _ _ (b :: pend) _ 0 b eq_refl Hw) as H1. cbn [delete list_delete] in H1.
  destruct (IH _ _ _ _ H1) as (w' & sent' & E' & H' & Ho). exists w', sent'. split; [|split; [exact H'|]].
  - cbn [length replicate run enabled]. rewrite bool_decide_eq_true_2 by (rewrite (bt_bulks _ _ _ _ _ _ _ Hw); by eexists). exact E'.
  - rewrite Ho. unfold bulk_turn. by destruct (bulks w !! 0%nat).
Qed.

(** C38: whatever the turns were, some turns of the goroutines (no publishing, no change of the
    topology) leave nothing waiting: each event has been posted in one of the requests, in the
    order of publication within a request, whether the server took it or not. *)
Theorem events_all_posted config te n w0 acts w :
  let o := configured config te in
  Init config te n = Ret (inl w0) -> posts n = [] -> 0 < FlushInterval o -> 2 <= BulkMaxSize o ->
  runs w0 acts w -> Forall proper acts ->
  exists k1 k2 w' batches sent,
    run (replicate k1 NextMessage ++ FlushTick :: replicate k2 (BulkCall 0)) w = Some w' /\
    sendingQueue (out w') = [] /\ bulkChannel w' = [] /\ bulks w' = [] /\
    concat batches = published acts /\ batches ≡ₚ sent /\
    posts (net w') = map (bulk_request o) (filter (fun b => b <> []) sent).
Proof.
  intros o Hi Hn Hf Hs Hr Ha. pose proof (Init_batched config te n w0 Hi Hn ltac:(fold o; lia)) as H0. fold o in H0.
  pose proof (runs_batched o [] w0 acts w Hs Hf Ha H0 Hr) as Hw. cbn [app] in Hw.
  destruct (drain_queue o _ _ w Hs Hf Hw eq_refl) as (w1 & E1 & (batches & sent & pend & cur & H1) & Hq1).
  pose proof (cut_batch o _ w1 _ _ _ _ ltac:(lia) H1) as H2.
  destruct (drain_bulks o _ _ _ _ _ _ H2) as (w' & sent' & E2 & H3 & Ho).
  exists (length (sendingQueue (out w))), (length (pend ++ [cur])), w', (batches ++ [cur]), sent'. split.
  - rewrite es_run_app, E1. cbn [mbind option_bind]. cbn [run enabled]. destruct (bt_config _ _ _ _ _ _ _ H1) as (_ & _ & HF & _).
    rewrite (bt_free _ _ _ _ _ _ _ H1), HF, !bool_decide_eq_true_2 by done. exact E2.
  - destruct H3 as [Hc Hfr He Ht Hp Hz Hch Hb Hpo]. rewrite Ho in *. change (out (InsertBulkMessage w1)) with (out w1) in *.
    rewrite Hq1 in *. rewrite !app_nil_r in *. done.
Qed.
End Drain.

(** * One by one *)

Section OneByOne.
Context {W : Type} {E : Environment W}.
Implicit Types (w : ElasticWorld W) (o : ElasticsearchOutput) (n : Net W) (events queue : list BulkMsg).

Definition event_request o (m : BulkMsg) : request :=
  index_request (Conn o) (index_name o (Ts m)) (type_of m) [] ∅ (Some (to_json (MMap (Event m)))).

Record single o events w (sent : list BulkMsg) : Prop := {
  sg_config : same_config o (out w);
  sg_free : putting w = [] /\ bulkChannel w = [] /\ bulks w = [];
  sg_events : sent ++ sendingQueue (out w) = events;
  sg_typed : Forall has_type events;
  sg_posts : posts (net w) = map (event_request o) sent
}.

Lemma message_single o events w sent m queue : FlushInterval o <= 0 -> sendingQueue (out w) = m :: queue ->
  single o events w sent -> exists w', message_turn w = Ret w' /\ single o events w' (sent ++ [m]).
Proof.
  intros Hf Hq [(HI & HC & HF & HB) Hfr He Ht Hp]. unfold message_turn. rewrite Hq. unfold send_message.
  assert (has_type m) as [ty Hty].
  { rewrite <- He, Hq in Ht. apply Forall_app in Ht as [_ Ht]. by apply Forall_cons in Ht as [? _]. }
  set (w1 := w <| out := _ |>). change (FlushInterval (out w1)) with (FlushInterval (out w)). rewrite HF, decide_False by lia.
  rewrite Hty. assert (type_of m = ty) as <- by (unfold type_of; by rewrite Hty). eexists. split; [reflexivity|].
  split; cbn; try done; [by rewrite <- He, Hq, <- app_assoc|].
  rewrite map_app, <- Hp. unfold posts at 1. rewrite Index_requests, filter_app. f_equal. rewrite HC.
  rewrite (index_name_config o) by done. by rewrite filter_cons_True, filter_nil.
Qed.

Lemma turn_single o events w a sent : FlushInterval o <= 0 -> proper a -> single o events w sent -> enabled a w = true ->
  exists w' sent', turn a w = Ret w' /\ single o (events ++ published [a]) w' sent'.
Proof.
  intros Hf Ha Hw He. destruct a as [m| | |i|name addrs]; cbn [turn published omap list_omap]; rewrite ?app_nil_r.
  - eexists _, sent. split; [reflexivity|]. destruct Hw as [Hc Hfr Hev Ht Hp]. split; cbn; try done.
    + rewrite <- Hev, <- !app_assoc. by destruct m.
    + apply Forall_app. split; [done|]. by apply Forall_singleton.
  - cbn in He. apply andb_true_iff in He as [_ He%bool_decide_eq_true]. destruct (sendingQueue (out w)) as [|m queue] eqn:Hq; [done|].
    destruct (message_single o events w sent m queue Hf Hq Hw) as (w' & E' & H'). by exists w', (sent ++ [m]).
  - cbn in He. apply andb_true_iff in He as [_ He%bool_decide_eq_true]. destruct (sg_config _ _ _ _ Hw) as (_ & _ & HF & _). lia.
  - cbn in He. apply bool_decide_eq_true in He. destruct (sg_free _ _ _ _ Hw) as (_ & _ & Hb). rewrite Hb in He. by destruct He.
  - eexists _, sent. split; [reflexivity|].
    destruct (PublishIPs_keeps name addrs w Ha) as (H1 & H2 & H3 & H4 & m & H5). destruct Hw as [Hc Hfr Hev Ht Hp].
    split; rewrite ?H1, ?H2, ?H3, ?H4, ?H5; done.
Qed.

(** With a flush interval that is not positive each event that is published is posted by a
    request of its own, in the order of publication, and nothing else is posted; the turns
    do not panic. *)
Theorem events_one_by_one config te n w0 acts w :
  let o := configured config te in
  Init config te n = Ret (inl w0) -> posts n = [] -> FlushInterval o <= 0 -> runs w0 acts w -> Forall proper acts ->
  exists sent, sent ++ sendingQueue (out w) = published acts /\ posts (net w) = map (event_request o) sent /\
    forall a, proper a -> enabled a w = true -> exists w', turn a w = Ret w'.
Proof.
  intros o Hi Hn Hf Hr Ha.
  assert (single o [] w0 []) as H0.
  { unfold Init in Hi. fold o in Hi. pose proof (EnableTTL_posts o n) as Hp. destruct (EnableTTL _ _) as [[e|] n1]; [done|]. cbn [snd] in Hp.
    case_decide; [done|]. injection Hi as <-. split; cbn; try done. congruence. }
  assert (exists sent, single o (published acts) w sent) as (sent & Hw).
  { induction Hr as [|acts w1 a w2 _ IH He Ht]; [by exists []|]. apply Forall_app in Ha as [Ha [Ha1 _]%Forall_cons].
    destruct (IH Ha) as (sent & H1). destruct (turn_single o _ w1 a sent Hf Ha1 H1 He) as (w3 & sent' & E3 & H3).
    exists sent'. rewrite published_app. by assert (w3 = w2) as <- by congruence. }
  exists sent. destruct (Hw) as [Hc Hfr He Ht Hp]. repeat split; try done. intros a Hpr Hen.
  destruct (turn_single o _ w a sent Hf Hpr Hw Hen) as (w' & _ & E' & _). by exists w'.
Qed.
End OneByOne.

(** * A channel without room for an event *)

Section SmallBulk.
Context {W : Type} {E : Environment W}.
Implicit Types (w : ElasticWorld W) (o : ElasticsearchOutput) (n : Net W) (events : list BulkMsg).

(** Nothing is taken from the queue, or one message was. *)
Record stopped o (started : bool) events w : Prop := {
  sp_config : same_config o (out w);
  sp_started : started = false -> putting w = [] /\ bulkChannel w = [] /\ events = sendingQueue (out w);
  sp_stopped : started = true -> putting w <> [] /\ length events = S (length (sendingQueue (out w)));
  sp_typed : Forall has_type events;
  sp_room : (length (sendingQueue (out w)) <= queue_capacity)%nat;
  sp_bulks : Forall (fun b => b = []) (bulks w);
  sp_posts : posts (net w) = []
}.

Lemma put_stops x y w : BulkMaxSize (out w) < 2 -> bulkChannel w = [] ->
  exists ch p, put [x; y] w = w <| bulkChannel := ch |> <| putting := p |> /\ p <> [].
Proof.
  intros Hs Hc. cbn [put]. rewrite Hc. change (len []) with 0. case_decide; [|by exists [], [x; y]; split; [destruct w; cbn in *; by subst|]].
  cbn. rewrite decide_False by (unfold len; cbn; lia). by exists [x], [y].
Qed.

Lemma turn_stopped o started events w a w' : BulkMaxSize o < 2 -> 0 < FlushInterval o -> proper a ->
  stopped o started events w -> enabled a w = true -> turn a w = Ret w' ->
  exists started', stopped o started' (events ++ published [a]) w' /\ (started = true \/ a = NextMessage -> started' = true).
Proof.
  intros Hs Hf Ha [(HI & HC & HF & HB) Hn Hy Ht Hr Hb Hp] He. destruct a as [m| | |i|name addrs]; cbn [turn published omap list_omap]; rewrite ?app_nil_r.
  - intros [= <-]. exists started. split; [|intros [?|?]; done]. split; cbn; try done.
    + intros ->. destruct Hn as (? & ? & ->); [done|]. by destruct m.
    + intros ->. destruct Hy as (? & Hl); [done|]. split; [done|]. rewrite !length_app. cbn. lia.
    + apply Forall_app. split; [done|]. by apply Forall_singleton.
    + cbn in He. apply bool_decide_eq_true in He. rewrite length_app. cbn. lia.
  - cbn in He. apply andb_true_iff in He as [Hfree%bool_decide_eq_true He%bool_decide_eq_true].
    destruct started; [by destruct Hy|]. destruct Hn as (_ & Hch & Hev); [done|].
    unfold message_turn. destruct (sendingQueue (out w)) as [|m queue] eqn:Hq; [done|]. unfold send_message.
    set (w1 := w <| out := _ |>). change (FlushInterval (out w1)) with (FlushInterval (out w)). rewrite HF, decide_True by done.
    change (BulkMaxSize (out w1)) with (BulkMaxSize (out w)). change (bulkChannel w1) with (bulkChannel w). rewrite HB, Hch.
    rewrite decide_True by (change (len []) with 0; lia).
    destruct (Event m !! bs "type") as [[ty| | | | | |]|]; try done.
    destruct (put_stops (bulk_action (index_name (out w1) (Ts m)) ty) (Event m) (InsertBulkMessage w1)) as (ch & p & -> & Hpn); [cbn; lia|done|].
    intros [= <-]. exists true. split; [|done]. split; cbn; try done.
    + by rewrite Hev.
    + cbn in Hr. lia.
    + rewrite Hch. apply Forall_app. split; [done|by apply Forall_singleton].
  - cbn in He. apply andb_true_iff in He as [Hfree%bool_decide_eq_true He]. destruct started; [by destruct Hy|].
    destruct Hn as (? & Hch & ->); [done|]. intros [= <-]. exists false. split; [|intros [?|?]; done]. split; cbn; try done.
    rewrite Hch. apply Forall_app. split; [done|by apply Forall_singleton].
  - intros [= <-]. exists started. split; [|intros [?|?]; done]. unfold bulk_turn. destruct (bulks w !! i) as [b|] eqn:Ei; [|by split].
    assert (b = []) as -> by (rewrite Forall_lookup in Hb; by eapply Hb). split; cbn; try done. rewrite delete_take_drop. apply Forall_app.
    split; [by apply Forall_take|by apply Forall_drop].
  - intros [= <-]. exists started. split; [|intros [?|?]; done].
    destruct (PublishIPs_keeps name addrs w Ha) as (H1 & H2 & H3 & H4 & m & H5).
    split; rewrite ?H1, ?H2, ?H3, ?H4, ?H5; done.
Qed.

(** With a bulk size of less than two objects no event is ever posted: the goroutine waits
    for ever for room in its channel after the first one, and the publisher, after 1001. *)
Theorem small_bulk_never_posts config te n w0 acts w :
  let o := configured config te in
  Init config te n = Ret (inl w0) -> posts n = [] -> 0 < FlushInterval o -> BulkMaxSize o < 2 ->
  runs w0 acts w -> Forall proper acts ->
  posts (net w) = [] /\ (length (published acts) <= S queue_capacity)%nat /\
  (NextMessage ∈ acts -> enabled NextMessage w = false /\ enabled FlushTick w = false).
Proof.
  intros o Hi Hn Hf Hs Hr Ha.
  assert (stopped o false [] w0) as H0.
  { unfold Init in Hi. fold o in Hi. pose proof (EnableTTL_posts o n) as Hp. destruct (EnableTTL _ _) as [[e|] n1]; [done|]. cbn [snd] in Hp.
    case_decide; [done|]. injection Hi as <-. split; cbn; try done; [lia|congruence]. }
  assert (exists started, stopped o started (published acts) w /\ (NextMessage ∈ acts -> started = true)) as (started & [Hc Hno Hyes Ht Hq Hb Hp] & Hst).
  { induction Hr as [|acts w1 a w2 _ IH He Ht]; [exists false; split; [done|by intros ?%not_elem_of_nil]|].
    apply Forall_app in Ha as [Ha [Ha1 _]%Forall_cons]. destruct (IH Ha) as (started & H1 & Hst).
    destruct (turn_stopped o started _ w1 a w2 Hs Hf Ha1 H1 He Ht) as (started' & H2 & Hst'). exists started'. rewrite published_app.
    split; [exact H2|]. rewrite elem_of_app, list_elem_of_singleton. intros [Hin|<-]; apply Hst'; auto. }
  split; [exact Hp|]. split.
  - destruct started; [destruct Hyes as [_ ->]; [done|]; unfold queue_capacity in *; lia|]. destruct Hno as (_ & _ & ->); [done|].
    unfold queue_capacity in *. lia.
  - intros Hin. destruct Hyes as [Hput _]; [by apply Hst|]. cbn. by rewrite bool_decide_eq_false_2.
Qed.
End SmallBulk.

(** * What the server reads *)

Lemma bulk_action_json index ty : to_json (MMap (bulk_action index ty)) =
  JObject [(bs "index", JObject [(bs "_index", JString index); (bs "_type", JString ty)])].
Proof. reflexivity. Qed.

Section ReadBack.
Context {W : Type} {E : Environment W}.
Implicit Types (w : ElasticWorld W) (o : ElasticsearchOutput) (n : Net W).

(** Two digits for a number. *)
Definition two_digits (text : bytes) (n : Z) : Prop := length text = 2%nat /\ num text = Some n.

(** The name of the index of a time: the prefix and the local day of that time (for times of 64
    bits, and offsets of the time zone of at most a day). *)
Definition index_of_day (prefix : bytes) (ts : Z) (index : bytes) : Prop :=
  exists year month day mm dd,
    index = prefix ++ bs "-" ++ Itoa year ++ bs "." ++ mm ++ bs "." ++ dd /\
    two_digits mm month /\ two_digits dd day /\ 1 <= month <= 12 /\ 1 <= day <= days_in (isLeap year) month /\
    (- 2 ^ 63 <= ts < 2 ^ 63 -> - 86400 <= zone ts <= 86400 ->
     date_days year month day - date_days 1970 1 1 = (ts / 10 ^ 9 + zone ts) / 86400).

(** What a reader of the body of a request finds of an event: an action that names the index and
    the type, and the document of the event. *)
Definition reads_event o (m : BulkMsg) (x : value * value) : Prop :=
  (exists index ty, index_of_day (Index o) (Ts m) index /\ Event m !! bs "type" = Some (MStr ty) /\
     fst x = VObject [(bs "index", VObject [(bs "_index", VString (valid index)); (bs "_type", VString (valid ty))])]) /\
  shows (MMap (Event m)) (snd x).

(** A request that carries a batch: a POST to the bulk interface, the body two lines for each
    event, in order, each line a JSON document. *)
Definition carries o (b : list BulkMsg) (req : request) : Prop :=
  Method req = bs "POST" /\ URL req = Client.Url (Conn o) ++ bs "/_bulk" /\
  exists docs, map parse (removelast (Split (ReqBody req) x0a)) = map Some (flat_map (fun x => [fst x; snd x]) docs) /\
    Forall2 (reads_event o) b docs.

Lemma two_digits_pad k : 0 <= k < 100 -> two_digits (zero_pad 2 k) k.
Proof.
  intros Hk. unfold two_digits, zero_pad. rewrite decide_True by (cbn; lia). split; [apply dec_digits_length|].
  rewrite num_dec_digits. by rewrite Z.mod_small by (cbn; lia).
Qed.

Lemma index_name_day o ts : index_of_day (Index o) ts (index_name o ts).
Proof.
  unfold index_name, index_of_day. destruct (absDate _) as [[year month] day] eqn:Ed.
  assert (0 <= time_abs (ts + zone ts * 1000000000)) as Ha by (apply Z.mod_pos_bound; done).
  pose proof (absDate_days _ _ _ _ Ha Ed) as Hday. apply absDate_spec in Ed as (_ & Hm & Hd & Eday); [|exact Ha].
  exists year, month, day, (zero_pad 2 month), (zero_pad 2 day). split; [done|]. split; [apply two_digits_pad; lia|].
  split; [apply two_digits_pad; lia|]. split; [done|]. split; [lia|]. intros Hts Hz. rewrite Eday.
  change (date_days 1970 1 1) with 106751991073094. unfold time_abs. rewrite Z.div_add by done.
  change (10 ^ 9) with 1000000000. assert (- 9223372037 <= ts / 1000000000 < 9223372037) as Hb by (Z.to_euclidean_division_equations; lia).
  revert Hb. generalize (ts / 1000000000). intros q Hq. change unixToAbsolute with 9223372028715321600 in *.
  unfold wrapU, secondsPerDay. rewrite Z.mod_small by lia. Z.to_euclidean_division_equations; lia.
Qed.

Lemma bulk_request_carries o b : Forall has_type b -> carries o b (bulk_request o b).
Proof.
  intros Hb. split; [done|]. split; [done|]. cbn [bulk_request Client.new_request ReqBody]. unfold Client.bulk_body.
  rewrite Split_unlines, removelast_last by (apply Forall_map, Forall_true; intros x; apply print_json_visible).
  unfold items. induction Hb as [|m b [ty Hty] _ (docs & Ed & Hd)]; [exists []; split; [done|constructor]|].
  destruct (parse_Marshal (Event m)) as (doc & Edoc & Hdoc).
  exists ((VObject [(bs "index", VObject [(bs "_index", VString (valid (index_name o (Ts m)))); (bs "_type", VString (valid ty))])], doc) :: docs).
  assert (type_of m = ty) as Et by (unfold type_of; by rewrite Hty). split.
  - cbn [map concat msg_items app flat_map fst snd]. rewrite Et, Edoc, Ed. do 2 f_equal. unfold Marshal.
    by rewrite parse_print_json, bulk_action_json.
  - constructor; [|exact Hd]. split; [|exact Hdoc]. exists (index_name o (Ts m)), ty. split; [apply index_name_day|]. by split.
Qed.

(** C39: with a positive flush interval and a bulk size of at least two, the requests that are
    posted in any run are those of the batches that the events were cut into: each is a POST to
    the bulk interface whose body a reader of JSON takes, line by line, for two documents per
    event of the batch, in order: an action that names the index of the event's local day and
    the event's type, and the event with all its entries. *)
Theorem bulk_read_back config te n w0 acts w :
  let o := configured config te in
  Init config te n = Ret (inl w0) -> posts n = [] -> 0 < FlushInterval o -> 2 <= BulkMaxSize o ->
  runs w0 acts w -> Forall proper acts ->
  exists batches sent waiting cur,
    concat batches ++ cur ++ sendingQueue (out w) = published acts /\ batches ≡ₚ sent ++ waiting /\
    Forall2 (carries o) (filter (fun b => b <> []) sent) (posts (net w)).
Proof.
  intros o Hi Hn Hf Hs Hr Ha. pose proof (Init_batched config te n w0 Hi Hn ltac:(fold o; lia)) as H0. fold o in H0.
  pose proof (runs_batched o [] w0 acts w Hs Hf Ha H0 Hr) as (batches & sent & pend & cur & [Hc Hfr Hev Ht Hp Hz Hch Hb Hq]).
  cbn [app] in *. exists batches, sent, pend, cur. split; [exact Hev|]. split; [exact Hp|]. rewrite Hq.
  change (map ?f ?l) with (f <$> l). apply Forall2_fmap_r, Forall_Forall2_diag, Forall_forall. intros b [_ Hin]%list_elem_of_filter.
  apply bulk_request_carries, Forall_forall. intros m Hm. rewrite Forall_forall in Ht. apply Ht. rewrite <- Hev.
  apply elem_of_app. left. apply list_elem_of_In, in_concat. exists b. split; apply list_elem_of_In; [|exact Hm].
  rewrite Hp. apply elem_of_app. by left.
Qed.
End ReadBack.

(** * The topology *)

(** The text that is one word between commas of a list, and the ids that the server takes as
    they are. *)
Definition id_byte (b : byte) : Prop := 97 <= u8 b <= 122 \/ 65 <= u8 b <= 90 \/ 48 <= u8 b <= 57 \/ u8 b = 45 \/ u8 b = 46.
Definition id_ok (id : bytes) : Prop := id <> [] /\ Forall id_byte id.

Definition pub_value (p : PublishedTopology) : value := value_of (topology_json p).

(** The parts of a search result. *)
Definition hit (idx ty id : bytes) (score source : value) : value :=
  VObject [(bs "_index", VString idx); (bs "_type", VString ty); (bs "_id", VString id); (bs "_score", score); (bs "_source", source)].
Definition is_hit (source v : value) : Prop := exists idx ty id score, v = hit idx ty id score source.
Definition search_result (took total : Z) (timed_out : bool) (shards max_score : value) (hits : list value) : value :=
  VObject [(bs "took", VNumber (Itoa took)); (bs "timed_out", VBool timed_out); (bs "_shards", shards);
           (bs "hits", VObject [(bs "total", VNumber (Itoa total)); (bs "max_score", max_score); (bs "hits", VArray hits)])].
Definition index_result (idx ty id : bytes) (version : Z) (created : bool) : value :=
  VObject [(bs "_index", VString idx); (bs "_type", VString ty); (bs "_id", VString id); (bs "_version", VNumber (Itoa version)); (bs "created", VBool created)].

(** A response with a document. *)
Definition answers (r : response + bytes) (v : value) : Prop :=
  exists code status text, r = inl {| StatusCode := code; Status := status; Body := inl text |} /\ code <= 299 /\ parse text = Some v.

(** What an Elasticsearch server promises of the requests for the topology: a document that is
    put under an id is kept, and, as it was put with "refresh", found from then on; a search
    without parameters gives the sources of ten documents, or of all if there are fewer. *)
Definition page : nat := 10.
Class Directory (W : Type) {E : Environment W} := {
  base : bytes;
  sources : W -> gmap bytes value;
  law_put id p ttl req s :
    Method req = bs "PUT" ->
    URL req = base ++ bs "/.packetbeat-topology/server-ip/" ++ id ++ bs "?refresh=true&ttl=" ++ Itoa ttl ->
    id_ok id -> parse (ReqBody req) = Some (pub_value p) ->
    (exists idx ty id' version created, 0 <= version < 2 ^ 63 /\ answers (fst (respond req s)) (index_result idx ty id' version created)) /\
    sources (snd (respond req s)) = <[id := pub_value p]> (sources s);
  law_search req s :
    Method req = bs "GET" -> URL req = base ++ bs "/.packetbeat-topology/server-ip/_search" ->
    (exists took total timed_out shards max_score hits docs, 0 <= took < 2 ^ 63 /\ 0 <= total < 2 ^ 63 /\
       answers (fst (respond req s)) (search_result took total timed_out shards max_score hits) /\
       Forall2 (fun x h => is_hit (snd x) h) docs hits /\
       NoDup (map fst docs) /\ length docs = Nat.min page (size (sources s)) /\
       forall id v, (id, v) ∈ docs -> sources s !! id = Some v) /\
    sources (snd (respond req s)) = sources s
}.

(** The name that a document gives to an address. *)
Definition says (p : PublishedTopology) (ip : bytes) : Prop := ip ∈ Split (valid (pt_IPs p)) ","%byte.
Definition label (p : PublishedTopology) : bytes := valid (pt_Name p).
Definition said_by (t : gmap bytes PublishedTopology) (ip name : bytes) : Prop := exists id p, t !! id = Some p /\ says p ip /\ name = label p.
#[export] Instance says_dec p ip : Decision (says p ip).
Proof. unfold says. apply _. Defined.

Lemma decode_hit p h : is_hit (pub_value p) h ->
  exists result, set_struct Client.QueryResult_fields h Client.no_QueryResult = (result, false) /\ Client.Source result = Some (pub_value p).
Proof. intros (idx & ty & id & score & ->). eexists. split; reflexivity. Qed.

Lemma decode_pub p :
  UnmarshalRaw (set_struct PublishedTopology_fields) (Some (pub_value p)) {| pt_Name := []; pt_IPs := [] |} =
  ({| pt_Name := valid (pt_Name p); pt_IPs := valid (pt_IPs p) |}, false).
Proof. reflexivity. Qed.

Lemma set_int_Itoa {T} (set : Z -> T -> T) z t : 0 <= z < 2 ^ 63 -> set_int set (VNumber (Itoa z)) t = (set z t, false).
Proof. intros Hz. unfold set_int. by rewrite ParseInt_Itoa. Qed.
Lemma set_slice_raw {T} (set : list value -> T -> T) l t :
  set_slice VNull (set_raw (fun x _ => x)) set (VArray l) t = (set l t, false).
Proof.
  unfold set_slice, set_raw. rewrite !map_map. cbn. rewrite map_id. f_equal. induction l as [|x l IH]; [done|exact IH].
Qed.
Lemma set_members_cons {T} (fs : fields T) key v l (f : setter T) t t1 : find_field fs key = Some f -> f v t = (t1, false) ->
  set_members fs ((key, v) :: l) t = set_members fs l t1.
Proof. intros Hf Hv. cbn [set_members]. rewrite Hf, Hv. by destruct (set_members fs l t1). Qed.
Lemma set_members_skip {T} (fs : fields T) key v l (t : T) : find_field fs key = None ->
  set_members fs ((key, v) :: l) t = set_members fs l t.
Proof. intros Hf. cbn [set_members]. rewrite Hf. by destruct (set_members fs l t). Qed.

Lemma decode_search took total timed_out shards max_score hits : 0 <= took < 2 ^ 63 -> 0 <= total < 2 ^ 63 ->
  exists result, set_struct Client.SearchResults_fields (search_result took total timed_out shards max_score hits) Client.no_SearchResults = (result, false) /\
    Client.HitList (Client.SearchHits result) = hits.
Proof.
  intros Ht Hn. unfold search_result, set_struct. eexists. split.
  - erewrite set_members_cons; [|reflexivity|by apply set_int_Itoa].
    rewrite set_members_skip by reflexivity.
    erewrite set_members_cons; [|reflexivity|reflexivity].
    erewrite set_members_cons; [reflexivity|reflexivity|].
    cbn [snd]. unfold set_inner, set_struct. erewrite set_members_cons; [|reflexivity|by apply set_int_Itoa].
    rewrite set_members_skip by reflexivity.
    erewrite set_members_cons; [|reflexivity|apply set_slice_raw]. reflexivity.
  - reflexivity.
Qed.

Lemma decode_index idx ty id version created : 0 <= version < 2 ^ 63 ->
  exists result, set_struct Client.QueryResult_fields (index_result idx ty id version created) Client.no_QueryResult = (result, false).
Proof.
  intros Hv. unfold index_result, set_struct. eexists.
  do 3 (erewrite set_members_cons; [|reflexivity|reflexivity]).
  erewrite set_members_cons; [|reflexivity|by apply set_int_Itoa].
  erewrite set_members_cons; [|reflexivity|reflexivity]. reflexivity.
Qed.

Section TopologyMap.
Context {W : Type} {E : Environment W} {D : Directory W}.
Implicit Types (w : ElasticWorld W) (n : Net W) (es : Client.Elasticsearch).

Lemma add_hits_docs docs hits : forall m, Forall2 (fun p h => is_hit (pub_value p) h) docs hits ->
  exists m', add_hits hits m = Some m' /\ forall ip, m' !! ip = last_match (fun p => says p ip) label docs (m !! ip).
Proof.
  revert hits. induction docs as [|p docs IH]; intros hits m H; apply Forall2_cons_inv_l in H || apply Forall2_nil_inv_l in H.
  - subst. by exists m.
  - destruct H as (h & hits' & Hh & H & ->). cbn [add_hits]. destruct (decode_hit p h Hh) as (result & -> & ->). rewrite decode_pub.
    destruct (IH hits' (foldl (fun m addr => <[addr := valid (pt_Name p)]> m) m (Split (valid (pt_IPs p)) ","%byte)) H) as (m' & Em & Hm).
    exists m'. split; [exact Em|]. intros ip. rewrite Hm. unfold last_match. cbn [foldl]. f_equal. by rewrite insert_all_lookup.
Qed.

(** A request that is answered with a document. *)
Lemma Request_answers es method url params body n v :
  let req := Client.new_request es method (Client.with_params (Client.Url es ++ url) params) (body_text body) in
  answers (fst (respond req (server n))) v ->
  exists code status text, Client.Request es method url params body n =
    (inl {| StatusCode := code; Status := status; Body := inl text |}, {| server := snd (respond req (server n)); requests := requests n ++ [req] |}) /\
    parse text = Some v.
Proof.
  intros req (code & status & text & Hr & Hc & Hp). exists code, status, text. split; [|exact Hp].
  unfold Client.Request. fold (body_text body). change (Client.new_request _ _ _ _) with req. unfold Client.Do.
  destruct (respond req (server n)) as [r s]. cbn [fst snd] in *. subst r. cbn [StatusCode]. by rewrite decide_False by lia.
Qed.

Lemma read_answer {T} (f : setter T) zero code status text v result : parse text = Some v -> f v zero = (result, false) ->
  Client.read_body f zero {| StatusCode := code; Status := status; Body := inl text |} = inl result.
Proof. intros Hp Hf. unfold Client.read_body, Unmarshal. cbn [Body]. by rewrite Hp, Hf. Qed.

Definition docs_of (t : gmap bytes PublishedTopology) (s : W) : Prop := sources s = pub_value <$> t.

Lemma topology_params ttl : Client.UrlEncode {[ bs "ttl" := Itoa ttl; bs "refresh" := bs "true" ]} = bs "refresh=true&ttl=" ++ Itoa ttl.
Proof.
  transitivity (bs "refresh=true&ttl=" ++ QueryEscape (Itoa ttl)); [reflexivity|]. f_equal.
  assert (forall s, Forall (fun b => b = "-"%byte \/ 48 <= u8 b <= 57) s -> QueryEscape s = s) as H.
  { induction 1 as [|b s Hb _ IH]; [done|]. unfold QueryEscape in *. cbn [map concat]. rewrite IH.
    assert (GoUrl.escape_byte b = [b]) as ->; [|done].
    destruct Hb as [->|Hb]; [done|]. destruct b; try reflexivity; exfalso; revert Hb; clear; vm_compute; intuition congruence. }
  apply H. assert (forall z, Forall (fun b => b = "-"%byte \/ 48 <= u8 b <= 57) (utoa z)) as Hu.
  { intros z. eapply Forall_impl; [apply utoa_go_digits, Forall_nil_2|]. cbn. auto. }
  unfold Itoa. case_decide; [|apply Hu]. apply Forall_cons. split; [by left|apply Hu].
Qed.

(** What [PublishIPs] makes of the topology: its document is there, and the map is that of the
    documents of a search. *)
Lemma PublishIPs_hits name addrs w t : id_ok name -> Client.Url (Conn (out w)) = base -> docs_of t (server (net w)) ->
  let t' := <[name := {| pt_Name := name; pt_IPs := GoStd.Join addrs (bs ",") |}]> t in
  exists w' docs, PublishIPs name addrs w = (None, w') /\ docs_of t' (server (net w')) /\
    NoDup (map fst docs) /\ length docs = Nat.min page (size t') /\ (forall id p, (id, p) ∈ docs -> t' !! id = Some p) /\
    forall ip, TopologyMap (out w') !! ip = last_match (fun p => says p ip) label (map snd docs) None.
Proof.
  intros Hid Hb Ht t'. set (p := {| pt_Name := name; pt_IPs := _ |}) in *. unfold PublishIPs. fold p.
  set (params := <[_ := _]> _).
  assert (forall n, Client.Index (Conn (out w)) topology_index (bs "server-ip") name params (Some (topology_json p)) n =
    Client.and_read (Client.read_body (set_struct Client.QueryResult_fields) Client.no_QueryResult)
      (Client.Request (Conn (out w)) (bs "PUT") (Client.MakePath topology_index (bs "server-ip") name) params (Some (topology_json p)) n)) as Hidx.
  { intros n. unfold Client.Index. rewrite (decide_False (P := len name = 0)) by (apply not_empty_len, Hid). done. }
  rewrite Hidx. set (path := Client.MakePath _ _ name).
  set (req := Client.new_request (Conn (out w)) (bs "PUT") (Client.with_params (Client.Url (Conn (out w)) ++ path) params) (body_text (Some (topology_json p)))).
  destruct (law_put name p (TopologyExpire (out w)) req (server (net w))) as [(idx & ty & id' & version & created & Hv & Hans) Hsrc].
  { done. }
  { cbn [req Client.new_request URL]. rewrite Hb. unfold Client.with_params. rewrite decide_True by done.
    unfold params. rewrite topology_params. unfold path, Client.MakePath. rewrite !decide_True.
    - by rewrite <- !app_assoc.
    - destruct Hid as [Hne _]. destruct name; [done|]. unfold len. cbn. lia.
    - done. }
  { done. }
  { cbn [req Client.new_request ReqBody body_text]. apply parse_print_json. }
  destruct (Request_answers _ _ path params (Some (topology_json p)) (net w) _ Hans) as (code & status & text & -> & Hp). fold req.
  destruct (decode_index idx ty id' version created Hv) as (result & Hr). cbn [Client.and_read].
  rewrite (read_answer _ _ _ _ _ _ _ Hp Hr). unfold UpdateLocalTopologyMap, Client.SearchUri.
  set (n1 := {| server := snd (respond req (server (net w))); requests := _ |}).
  change (Conn (out (w <| net := n1 |>))) with (Conn (out w)). change (net (w <| net := n1 |>)) with n1.
  set (path2 := Client.MakePath _ _ (bs "_search")).
  set (req2 := Client.new_request (Conn (out w)) (bs "GET") (Client.with_params (Client.Url (Conn (out w)) ++ path2) ∅) (body_text None)).
  destruct (law_search req2 (server n1)) as [(took & total & timed_out & shards & max_score & hits & docs & Htk & Htt & Hans2 & Hhits & Hnd & Hlen & Hdocs) Hsrc2].
  { done. }
  { cbn [req2 Client.new_request URL]. by rewrite Hb. }
  destruct (Request_answers _ _ path2 ∅ None n1 _ Hans2) as (code2 & status2 & text2 & -> & Hp2). fold req2.
  destruct (decode_search took total timed_out shards max_score hits Htk Htt) as (result2 & Hr2 & Hl2). cbn [Client.and_read].
  rewrite (read_answer _ _ _ _ _ _ _ Hp2 Hr2), Hl2.
  assert (sources (server n1) = pub_value <$> t') as Hs1.
  { cbn [n1 server]. rewrite Hsrc, Ht. by rewrite <- fmap_insert. }
  assert (exists ps, map fst ps = map fst docs /\ (forall id p, (id, p) ∈ ps -> t' !! id = Some p) /\
    Forall2 (fun p h => is_hit (pub_value p) h) (map snd ps) hits) as (ps & Hps1 & Hps2 & Hps3).
  { rewrite Hs1 in Hdocs. clear -Hhits Hdocs. induction Hhits as [|[id v] h docs hits Hh _ IH]; [exists []; repeat split; [by intros ? ? ?%elem_of_nil|constructor]|].
    destruct IH as (ps & H1 & H2 & H3); [intros i v' Hi; apply Hdocs; by right|].
    pose proof (Hdocs id v ltac:(by left)) as Hv. rewrite lookup_fmap in Hv. destruct (t' !! id) as [q|] eqn:Eq; [|done]. injection Hv as <-.
    exists ((id, q) :: ps). split; [by cbn; f_equal|]. split; [|by constructor].
    intros i q' [[= -> ->]|Hi]%elem_of_cons; [done|by apply H2]. }
  destruct (add_hits_docs (map snd ps) hits ∅ Hps3) as (m & -> & Hm).
  eexists _, ps. split; [reflexivity|]. split; [transitivity (sources (snd (respond req2 (server n1)))); [reflexivity|by rewrite Hsrc2]|]. split; [by rewrite Hps1|]. split.
  - rewrite <- (length_map fst ps), Hps1, length_map, Hlen, Hs1, map_size_fmap. done.
  - split; [exact Hps2|]. intros ip. cbn. by rewrite Hm, lookup_empty.
Qed.

(** C40: a shipper that publishes its addresses gets the map of all shippers, as long as there
    are no more than the search gives: an address has the name of a shipper that announces
    it, and no name only if none does; what it alone announces has its own name. *)
Theorem es_topology_published name addrs w t : id_ok name -> Client.Url (Conn (out w)) = base -> docs_of t (server (net w)) ->
  let t' := <[name := {| pt_Name := name; pt_IPs := GoStd.Join addrs (bs ",") |}]> t in (size t' <= page)%nat ->
  exists w', PublishIPs name addrs w = (None, w') /\ docs_of t' (server (net w')) /\
    (forall ip, match TopologyMap (out w') !! ip with
                | Some h => said_by t' ip h
                | None => forall h, ~ said_by t' ip h
                end) /\
    forall ip, says {| pt_Name := name; pt_IPs := GoStd.Join addrs (bs ",") |} ip -> (forall h, said_by t' ip h -> h = valid name) ->
      GetNameByIP ip w' = valid name.
Proof.
  intros Hid Hb Ht t' Hsz. destruct (PublishIPs_hits name addrs w t Hid Hb Ht) as (w' & docs & Ew & Ht' & Hnd & Hlen & Hdocs & Hm). fold t' in Ht', Hlen, Hdocs.
  exists w'. split; [exact Ew|]. split; [exact Ht'|].
  assert (forall id p, t' !! id = Some p -> p ∈ map snd docs) as Hall.
  { assert ((list_to_map docs : gmap bytes PublishedTopology) = t') as El.
    { apply map_subseteq_size_eq; [apply map_subseteq_spec; intros id p Hp%elem_of_list_to_map_2; by apply Hdocs|].
      rewrite map_size_list_to_map by done. lia. }
    intros id p Hp. rewrite <- El in Hp. apply elem_of_list_to_map_2 in Hp. apply list_elem_of_fmap. by exists (id, p). }
  assert (forall ip, match TopologyMap (out w') !! ip with Some h => said_by t' ip h | None => forall h, ~ said_by t' ip h end) as Hmap.
  { intros ip. rewrite Hm. pose proof (last_match_spec (fun p => says p ip) label (map snd docs) None) as H. destruct (last_match _ _ _ _) as [h|].
    - destruct H as [?|(p & ([id q] & -> & Hp)%list_elem_of_fmap & Hs & ->)]; [done|]. exists id, q. split; [by apply Hdocs|done].
    - destruct H as [_ H]. intros h (id & p & Hp & Hs & ->). apply (H p); [by eapply Hall|done]. }
  split; [exact Hmap|]. intros ip Hip Hone. unfold GetNameByIP. specialize (Hmap ip). destruct (TopologyMap (out w') !! ip) as [h|]; cbn; [by apply Hone|].
  destruct (Hmap (valid name)). exists name, {| pt_Name := name; pt_IPs := GoStd.Join addrs (bs ",") |}. split; [apply lookup_insert_eq|done].
Qed.

(** When there are more shippers than the search gives, the addresses of some shipper have no
    name, unless another shipper announces them. *)
Theorem es_topology_truncated name addrs w t : id_ok name -> Client.Url (Conn (out w)) = base -> docs_of t (server (net w)) ->
  let t' := <[name := {| pt_Name := name; pt_IPs := GoStd.Join addrs (bs ",") |}]> t in (page < size t')%nat ->
  exists w' id p, PublishIPs name addrs w = (None, w') /\ t' !! id = Some p /\
    forall ip, says p ip -> (forall id' p', t' !! id' = Some p' -> says p' ip -> id' = id) -> GetNameByIP ip w' = [].
Proof.
  intros Hid Hb Ht t' Hsz. destruct (PublishIPs_hits name addrs w t Hid Hb Ht) as (w' & docs & Ew & Ht' & Hnd & Hlen & Hdocs & Hm). fold t' in Ht', Hlen, Hdocs.
  assert (exists id p, t' !! id = Some p /\ id ∉ map fst docs) as (id & p & Hp & Hno).
  { destruct (decide (set_Exists (fun id => id ∉ map fst docs) (dom t'))) as [(id & Hi & Hno)|Hall].
    - apply elem_of_dom in Hi as [p Hp]. by exists id, p.
    - exfalso. assert (dom t' ⊆ list_to_set (map fst docs)) as Hsub.
      { intros id Hi. apply elem_of_list_to_set. destruct (decide (id ∈ map fst docs)) as [|Hn]; [done|]. destruct Hall. by exists id. }
      apply subseteq_size in Hsub. rewrite size_dom, size_list_to_set, length_map in Hsub by done. lia. }
  exists w', id, p. split; [exact Ew|]. split; [exact Hp|]. intros ip Hip Hone. unfold GetNameByIP. rewrite Hm.
  pose proof (last_match_spec (fun p => says p ip) label (map snd docs) None) as H. destruct (last_match _ _ _ _) as [h|]; [|done].
  destruct H as [?|(q & ([i q'] & -> & Hq)%list_elem_of_fmap & Hs & ->)]; [done|]. destruct Hno.
  rewrite <- (Hone i q' (Hdocs _ _ Hq) Hs). apply list_elem_of_fmap. by exists (i, q').
Qed.
End TopologyMap.

(** * A server *)

(** A server that keeps the documents of the topology; it finds the first ten in the order of
    its map, and has the same answer for all other requests. *)
Module SmallServer.

Definition url : bytes := bs "http://es:9200".
Definition doc_prefix : bytes := url ++ bs "/.packetbeat-topology/server-ip/".

Fixpoint until (c : byte) (s : bytes) : bytes := match s with b :: s => if decide (b = c) then [] else b :: until c s | [] => [] end.
Definition doc_id (u : bytes) : option bytes := if has_prefix doc_prefix u then Some (until "?"%byte (drop (length doc_prefix) u)) else None.

Definition pub_of (v : value) : option PublishedTopology :=
  match v with
  | VObject [(_, VString n); (_, VString a)] => Some {| pt_Name := n; pt_IPs := a |}
  | _ => None
  end.

Definition fine (j : json) : response + bytes := inl {| StatusCode := 200; Status := bs "200 OK"; Body := inl (print_json j) |}.
Definition index_json (id : bytes) : json :=
  JObject [(bs "_index", JString topology_index); (bs "_type", JString (bs "server-ip")); (bs "_id", JString id); (bs "_version", JNumber 1); (bs "created", JBool true)].
Definition hit_json (x : bytes * PublishedTopology) : json :=
  JObject [(bs "_index", JString topology_index); (bs "_type", JString (bs "server-ip")); (bs "_id", JString (fst x)); (bs "_score", JNumber 1); (bs "_source", topology_json (snd x))].
Definition found (s : gmap bytes PublishedTopology) : list (bytes * PublishedTopology) := take page (map_to_list s).
Definition search_json (s : gmap bytes PublishedTopology) : json :=
  JObject [(bs "took", JNumber 1); (bs "timed_out", JBool false); (bs "_shards", JObject []);
           (bs "hits", JObject [(bs "total", JNumber (len (found s))); (bs "max_score", JNumber 1); (bs "hits", JArray (map hit_json (found s)))])].

Definition serve (req : request) (s : gmap bytes PublishedTopology) : (response + bytes) * gmap bytes PublishedTopology :=
  if decide (Method req = bs "PUT") then
    match doc_id (URL req), parse (ReqBody req) with
    | Some id, Some v => (fine (index_json id), match pub_of v with Some p => <[id := p]> s | None => s end)
    | _, _ => (fine (JObject []), s)
    end
  else if decide (Method req = bs "GET") then (fine (search_json s), s)
  else (fine (JObject []), s).

#[export] Instance environment : Environment (gmap bytes PublishedTopology) := {| respond := serve; zone := fun _ => 3600 |}.

Lemma until_app c s t : Forall (fun b => b <> c) s -> until c (s ++ c :: t) = s.
Proof. induction 1 as [|b s Hb _ IH]; cbn; [by rewrite decide_True|]. by rewrite decide_False, IH. Qed.

Lemma id_ok_plain id : id_ok id -> Forall (fun b => b <> "?"%byte) id.
Proof. intros [_ H]. eapply Forall_impl; [exact H|]. intros b Hb ->. revert Hb. unfold id_byte. vm_compute. intuition congruence. Qed.

Lemma answers_fine j : answers (fine j) (value_of j).
Proof. exists 200, (bs "200 OK"), (print_json j). split; [done|]. split; [lia|]. apply parse_print_json. Qed.

(** The document is kept, its bytes that are not UTF-8 as they were read. *)
Lemma pub_of_value p : exists p', pub_of (pub_value p) = Some p' /\ pub_value p' = pub_value p.
Proof.
  eexists. split; [reflexivity|]. unfold pub_value, topology_json. cbn [value_of map fst snd pt_Name pt_IPs]. by rewrite !valid_idem.
Qed.

#[export] Instance directory : Directory (gmap bytes PublishedTopology).
Proof.
  refine {| base := url; sources := fun s => pub_value <$> s |}.
  { intros id p ttl [m u a au body] s Hm Hu Hid Hp. cbn [Method URL ReqBody] in *. subst m u.
  unfold respond, environment, serve. cbn [Method URL ReqBody]. rewrite decide_True by done.
  assert (doc_id (url ++ bs "/.packetbeat-topology/server-ip/" ++ id ++ bs "?refresh=true&ttl=" ++ Itoa ttl) = Some id) as ->.
  { rewrite app_assoc. change (url ++ bs "/.packetbeat-topology/server-ip/") with doc_prefix. unfold doc_id.
    assert (has_prefix doc_prefix (doc_prefix ++ id ++ bs "?refresh=true&ttl=" ++ Itoa ttl) = true) as -> by (apply has_prefix_spec; by eexists).
    rewrite drop_app_length. f_equal. by apply until_app, id_ok_plain. }
  rewrite Hp. cbn [fst snd]. split.
  - exists (valid topology_index), (valid (bs "server-ip")), (valid id), 1, true. split; [lia|]. apply answers_fine.
  - destruct (pub_of_value p) as (p' & -> & <-). by rewrite fmap_insert. }
  { intros [m u a au body] s Hm Hu. cbn [Method URL] in *. subst m u. unfold respond, environment, serve. cbn [Method URL].
  rewrite decide_False, decide_True by done. cbn [fst snd]. split; [|done].
  exists 1, (len (found s)), false, (VObject []), (VNumber (Itoa 1)), (map (fun x => value_of (hit_json x)) (found s)), (prod_map id pub_value <$> found s).
  assert (length (found s) <= page)%nat by (unfold found; rewrite length_take; lia). split; [lia|]. split; [unfold len, page in *; lia|].
  split; [|split; [|split; [|split]]].
  - pose proof (answers_fine (search_json s)) as H0. unfold search_json in H0 at 2. cbn [value_of map fst snd] in H0. rewrite map_map in H0. exact H0.
  - change (map ?f ?l) with (f <$> l). apply Forall2_fmap_2. apply Forall_Forall2_diag, Forall_true. intros [id p]. by eexists _, _, _, _.
  - rewrite <- list_fmap_compose. change (NoDup (fst <$> found s)). unfold found. rewrite fmap_take. apply (sublist_NoDup _ (fst <$> map_to_list s)); [apply NoDup_fst_map_to_list|apply sublist_take].
  - rewrite length_fmap. unfold found. by rewrite length_take, length_map_to_list, map_size_fmap.
  - intros j v ([i p] & [= -> ->] & Hin)%list_elem_of_fmap. rewrite lookup_fmap. unfold found in Hin.
    apply elem_of_take in Hin as (k & Hj & _). apply list_elem_of_lookup_2, elem_of_map_to_list in Hj. by rewrite Hj. }
Defined.
End SmallServer.

(** * Witnesses *)

Section Cons.
Context {W : Type} {E : Environment W}.
Lemma es_runs_cons (w : ElasticWorld W) a w1 acts w2 : enabled a w = true -> turn a w = Ret w1 -> runs w1 acts w2 -> runs w (a :: acts) w2.
Proof.
  intros Ha Ht Hr. induction Hr as [|acts w2 b w3 _ IH Hb Hw].
  - apply (runs_turn w [] w a w1); [constructor|done..].
  - exact (runs_turn w (a :: acts) w2 b w3 IH Hb Hw).
Qed.
Lemma es_run_runs acts : forall (w w' : ElasticWorld W), run acts w = Some w' -> runs w acts w'.
Proof.
  induction acts as [|a acts IH]; intros w w'; cbn [run]; [intros [= <-]; constructor|]. destruct (enabled a w) eqn:Ha; [|done].
  destruct (turn a w) as [w1| |] eqn:Ht; [|done..]. intros Hr. eapply es_runs_cons; eauto.
Qed.
End Cons.

#[local] Existing Instance SmallServer.environment.
#[local] Existing Instance SmallServer.directory.

Definition demo_config (flush bulk : Z) : ElasticConfig :=
  {| ec_Protocol := []; ec_Host := bs "es"; ec_Port := 9200; ec_Path := []; ec_Username := []; ec_Password := [];
     ec_Index := []; ec_Flush_interval := Some flush; ec_Bulk_size := Some bulk |}.
Definition demo_message (n : Z) : BulkMsg := {| Ts := 1438385000000000000; Event := {[ bs "type" := MStr (bs "redis"); bs "count" := MInt n ]} |}.
Definition boot : Net (gmap bytes PublishedTopology) := {| server := ∅; requests := [] |}.
Definition init_world (flush bulk : Z) : ElasticWorld (gmap bytes PublishedTopology) :=
  match Init (demo_config flush bulk) 0 boot with
  | Ret (inl w) => w
  | _ => {| out := configured (demo_config flush bulk) 0; bulkChannel := []; putting := []; bulks := []; net := boot |}
  end.
Definition demo_turns : list action :=
  [Publish (demo_message 1); Publish (demo_message 2); NextMessage; Topology (bs "web") [bs "10.0.0.1"; bs "10.0.0.2"]; NextMessage;
   Publish (demo_message 3); NextMessage; BulkCall 0].
Definition after flush bulk acts := default (init_world flush bulk) (run acts (init_world flush bulk)).
Definition demo_body (ns : list Z) : bytes := Client.bulk_body (items (configured (demo_config 1000 4) 0) (map demo_message ns)).

(** The day of the index is the local one: it is the last of July at Greenwich. *)
Example index_name_demo : index_name (configured (demo_config 1000 4) 0) 1438385000000000000 = bs "packetbeat-2015.08.01" /\
  map ReqBody (posts (net (after 1000 4 demo_turns))) = [demo_body [1; 2]].
Proof. vm_compute. done. Qed.

Definition runs_through flush bulk acts : bool := match run acts (init_world flush bulk) with Some _ => true | None => false end.
Lemma es_after_runs flush bulk acts : runs_through flush bulk acts = true -> runs (init_world flush bulk) acts (after flush bulk acts).
Proof. unfold runs_through, after. destruct (run acts (init_world flush bulk)) as [w|] eqn:Er; [|done]. intros _. by apply es_run_runs. Qed.

Lemma EnableTTL_boot flush bulk : fst (EnableTTL (configured (demo_config flush bulk) 0) boot) = None.
Proof. vm_compute. reflexivity. Qed.

Lemma es_Init_world flush bulk : 0 <= bulk -> Init (demo_config flush bulk) 0 boot = Ret (inl (init_world flush bulk)).
Proof.
  intros Hb. unfold init_world, Init. pose proof (EnableTTL_boot flush bulk) as H.
  destruct (EnableTTL _ _) as [[e|] n]; [discriminate|].
  assert (~ BulkMaxSize (configured (demo_config flush bulk) 0) < 0) as Hn by (change (BulkMaxSize (configured (demo_config flush bulk) 0)) with bulk; lia).
  by rewrite decide_False by exact Hn.
Qed.

Lemma demo_proper acts : Forall (fun a => match a with Publish m => exists n, m = demo_message n | Topology name _ => name = bs "web" | _ => True end) acts ->
  Forall proper acts.
Proof.
  intros H. eapply Forall_impl; [exact H|]. intros [m| | |i|name addrs]; cbn; try done; [|by intros ->].
  intros [n ->]. exists (bs "redis"). reflexivity.
Qed.

Ltac demo_actions := apply demo_proper; repeat (apply Forall_cons; split; [first [exact I | by eexists | done]|]); apply Forall_nil_2.

Lemma events_in_batches_witness :
  exists batches sent waiting cur,
    concat batches ++ cur ++ sendingQueue (out (after 1000 4 demo_turns)) = map demo_message [1; 2; 3] /\ batches ≡ₚ sent ++ waiting /\
    map (bulk_request (configured (demo_config 1000 4) 0)) (filter (fun b => b <> []) sent) = posts (net (after 1000 4 demo_turns)) /\
    map ReqBody (posts (net (after 1000 4 demo_turns))) = [demo_body [1; 2]].
Proof.
  assert (runs (init_world 1000 4) demo_turns (after 1000 4 demo_turns)) as Hr by (apply es_after_runs; vm_compute; reflexivity).
  destruct (events_in_batches (demo_config 1000 4) 0 boot (init_world 1000 4) demo_turns _ (es_Init_world 1000 4 ltac:(lia)) eq_refl
    ltac:(done) ltac:(done) Hr ltac:(demo_actions)) as (batches & sent & waiting & cur & H1 & H2 & H3 & _).
  exists batches, sent, waiting, cur. split; [exact H1|]. split; [exact H2|]. split; [by symmetry|]. exact (proj2 index_name_demo).
Defined.

(** One request is posted, with four lines for the two events of its batch. *)
Lemma bulk_read_back_witness :
  exists b req docs, posts (net (after 1000 4 demo_turns)) = [req] /\ URL req = bs "http://es:9200/_bulk" /\
    map parse (removelast (Split (ReqBody req) x0a)) = map Some (flat_map (fun x => [fst x; snd x]) docs) /\
    Forall2 (reads_event (configured (demo_config 1000 4) 0)) b docs /\ length docs = 2%nat.
Proof.
  assert (runs (init_world 1000 4) demo_turns (after 1000 4 demo_turns)) as Hr by (apply es_after_runs; vm_compute; reflexivity).
  destruct (bulk_read_back (demo_config 1000 4) 0 boot (init_world 1000 4) demo_turns _ (es_Init_world 1000 4 ltac:(lia)) eq_refl
    ltac:(done) ltac:(done) Hr ltac:(demo_actions)) as (batches & sent & waiting & cur & _ & _ & H).
  pose proof (proj2 index_name_demo) as Eb. destruct (posts (net (after 1000 4 demo_turns))) as [|req [|r rs]]; [discriminate Eb| |discriminate Eb].
  injection Eb as Eb. inversion H as [|b y bs' ys (_ & Hu & docs & Hp & Hd) _]; subst. exists b, req, docs.
  split; [reflexivity|]. split; [rewrite Hu; vm_compute; reflexivity|]. split; [exact Hp|]. split; [exact Hd|].
  rewrite Eb in Hp. apply (f_equal (@length _)) in Hp. rewrite !length_map in Hp.
  assert (length (removelast (Split (demo_body [1; 2]) x0a)) = 4%nat) as E4 by (vm_compute; reflexivity). rewrite E4 in Hp.
  clear -Hp. induction docs as [|x [|y [|z docs]] _]; [discriminate Hp|discriminate Hp|reflexivity|discriminate Hp].
Defined.

Lemma events_all_posted_witness :
  exists k1 k2 w' batches sent,
    run (replicate k1 NextMessage ++ FlushTick :: replicate k2 (BulkCall 0)) (after 1000 4 demo_turns) = Some w' /\
    concat batches = map demo_message [1; 2; 3] /\ batches ≡ₚ sent /\
    posts (net w') = map (bulk_request (configured (demo_config 1000 4) 0)) (filter (fun b => b <> []) sent).
Proof.
  assert (runs (init_world 1000 4) demo_turns (after 1000 4 demo_turns)) as Hr by (apply es_after_runs; vm_compute; reflexivity).
  destruct (events_all_posted (demo_config 1000 4) 0 boot (init_world 1000 4) demo_turns _ (es_Init_world 1000 4 ltac:(lia)) eq_refl
    ltac:(done) ltac:(done) Hr ltac:(demo_actions)) as (k1 & k2 & w' & batches & sent & H1 & _ & _ & _ & H5 & H6 & H7).
  exists k1, k2, w', batches, sent. split; [exact H1|]. split; [exact H5|]. split; [exact H6|exact H7].
Defined.

Definition single_turns : list action := [Publish (demo_message 1); Publish (demo_message 2); NextMessage; Topology (bs "web") [bs "10.0.0.1"]].

Lemma events_one_by_one_witness :
  exists sent, sent ++ [demo_message 2] = map demo_message [1; 2] /\
    posts (net (after (-1) 0 single_turns)) = map (event_request (configured (demo_config (-1) 0) 0)) sent.
Proof.
  assert (runs (init_world (-1) 0) single_turns (after (-1) 0 single_turns)) as Hr by (apply es_after_runs; vm_compute; reflexivity).
  destruct (events_one_by_one (demo_config (-1) 0) 0 boot (init_world (-1) 0) single_turns _ (es_Init_world (-1) 0 ltac:(lia)) eq_refl
    ltac:(done) Hr ltac:(demo_actions)) as (sent & H1 & H2 & _).
  exists sent. split; [|exact H2]. assert (sendingQueue (out (after (-1) 0 single_turns)) = [demo_message 2]) as Eq by (vm_compute; reflexivity).
  rewrite Eq in H1. exact H1.
Defined.

Definition small_turns : list action := [Publish (demo_message 1); Publish (demo_message 2); NextMessage; BulkCall 0].

Lemma small_bulk_never_posts_witness :
  posts (net (after 1000 1 small_turns)) = [] /\ enabled NextMessage (after 1000 1 small_turns) = false.
Proof.
  assert (runs (init_world 1000 1) small_turns (after 1000 1 small_turns)) as Hr by (apply es_after_runs; vm_compute; reflexivity).
  destruct (small_bulk_never_posts (demo_config 1000 1) 0 boot (init_world 1000 1) small_turns _ (es_Init_world 1000 1 ltac:(lia)) eq_refl
    ltac:(done) ltac:(done) Hr ltac:(demo_actions)) as (H1 & _ & H3).
  split; [exact H1|]. destruct H3 as [H3 _]; [right; right; left|exact H3].
Defined.

Lemma es_topology_published_witness :
  exists w, PublishIPs (bs "web") [bs "10.0.0.1"; bs "10.0.0.2"] (init_world 1000 4) = (None, w) /\ GetNameByIP (bs "10.0.0.2") w = bs "web".
Proof.
  destruct (es_topology_published (bs "web") [bs "10.0.0.1"; bs "10.0.0.2"] (init_world 1000 4) ∅) as (w & E & _ & _ & H).
  - split; [done|]. repeat (apply Forall_cons; split; [unfold id_byte; vm_compute; intuition congruence|]). apply Forall_nil_2.
  - vm_compute. reflexivity.
  - vm_compute. reflexivity.
  - vm_compute. lia.
  - exists w. split; [exact E|]. apply (H (bs "10.0.0.2")); [apply (bool_decide_unpack _); vm_compute; exact I|].
    intros h (id & p & [[_ <-]|[_ Hp]]%lookup_insert_Some & _ & ->); [reflexivity|]. by rewrite lookup_empty in Hp.
Defined.

(** Ten shippers, each with an address. *)
Definition ten : gmap bytes PublishedTopology :=
  list_to_map (map (fun k => (Itoa (Z.of_nat k), {| pt_Name := bs "shipper" ++ Itoa (Z.of_nat k); pt_IPs := bs "10.0.0." ++ Itoa (Z.of_nat k) |})) (seq 1 10)).
Definition ten_world : ElasticWorld (gmap bytes PublishedTopology) :=
  {| out := configured (demo_config 1000 4) 0; bulkChannel := []; putting := []; bulks := []; net := {| server := ten; requests := [] |} |}.
Definition eleven : gmap bytes PublishedTopology := <[bs "11" := {| pt_Name := bs "11"; pt_IPs := bs "10.0.0.11" |}]> ten.

Lemma es_topology_truncated_witness :
  exists w' id p ip, PublishIPs (bs "11") [bs "10.0.0.11"] ten_world = (None, w') /\ eleven !! id = Some p /\ says p ip /\ GetNameByIP ip w' = [].
Proof.
  destruct (es_topology_truncated (bs "11") [bs "10.0.0.11"] ten_world ten) as (w' & id & p & E & Hp & H).
  - split; [done|]. repeat (apply Forall_cons; split; [unfold id_byte; vm_compute; intuition congruence|]). apply Forall_nil_2.
  - reflexivity.
  - reflexivity.
  - vm_compute. lia.
  - change (eleven !! id = Some p) in Hp.
    assert (map_Forall (fun id p => Split (valid (pt_IPs p)) ","%byte = [bs "10.0.0." ++ id]) eleven) as Hall by (apply (bool_decide_unpack _); vm_compute; exact I).
    exists w', id, p, (bs "10.0.0." ++ id). split; [exact E|]. split; [exact Hp|]. assert (says p (bs "10.0.0." ++ id)) as Hs.
    { unfold says. rewrite (Hall id p Hp). left. }
    split; [exact Hs|]. apply H; [exact Hs|]. intros id' p' Hp' Hs'. change (eleven !! id' = Some p') in Hp'. unfold says in Hs'.
    rewrite (Hall id' p' Hp') in Hs'. apply list_elem_of_singleton, app_inv_head in Hs'. by symmetry.
Defined.
